(* ===== verification/_CoqProject ===== *)
-Q . S2P
Prelude.v
GoTime.v
GoStrings.v
GoFloat.v
TimeText.v
Domain.v
Periods.v
Schedule.v
Json.v
Outbox.v
UnitOfWork.v
EventStore.v
EventOrder.v
AnalyticsProjection.v
Ports.v
Memory.v
MemoryStores.v
IdentityStore.v
Auth.v
AuthSafety.v
World.v
Expenses.v
ExpenseLog.v
Groups.v
Budgets.v
Payments.v
PaymentSafety.v
BudgetUsage.v
BudgetSpend.v
AuditTrail.v
Notifications.v
ImageProc.v
Http.v
Frames.v
Uploads.v
ReceiptSafety.v
Cache.v
RateLimit.v
ReportFormats.v
Reports.v
ReportSafety.v
Analytics.v
AnalyticsSafety.v
Metrics.v
AI.v
Assistant.v
AssistantSafety.v
Intake.v
AdminUsage.v
Inbound.v
Handlers.v
Application.v
HttpAccess.v
Isolation.v
Tenants.v
Process.v
Draining.v
Ledger.v
Convergence.v
CatchUp.v
AuditLog.v
BudgetLedger.v
PgOutbox.v
PgDelivery.v
PgRateLimit.v
Cors.v
Probes.v
PgNotifications.v
PgTx.v
PgAnalytics.v
PgIdentity.v
PgExpenses.v
PgExpenseRefinement.v
PgOnce.v
PgPayments.v
PgBudgets.v
PgBudgetSpend.v
PgRecords.v
PgGroups.v
OpenAI.v
