(* ===== verification/Prelude.v ===== *)
(** * BillPiggy: a verification library for the expense-tracking service

    BillPiggy (src/) is a Go service for recording expenses: accounts and sessions,
    expenses with receipts, budgets and their alerts, groups that share both,
    scheduled payments, analytics, periodic reports, notifications, and an assistant
    over a language model. Services (internal/core/service) act on repositories
    behind ports (internal/core/port/outbound); a command writes an event and its
    projection in one unit of work, an outbox delivers the event to further
    projections, and adapters implement the ports in memory, in PostgreSQL or over
    HTTP. This library translates the domain, the services, the in-memory adapters
    and the supporting packages into executable definitions and proves what makes
    them correct.

    ** How the code is modelled

    - A Go function that reads or writes state is a computation in [M W A], a state
      and error monad over a world [W] (Prelude). An error leaves the writes made
      before it in place, as in Go; only a unit of work takes writes back.
    - A port is a class over [W] (Ports), so a service is written once and proved
      over every implementation, or over the in-memory adapters (Memory,
      MemoryStores, IdentityStore). World puts all of them into one state with the
      unit of work and the participants that cmd/billpiggy/main.go registers.
    - A machine integer is a [Z] with its wrap-around ([wrap64]), a [float64] its
      IEEE value (GoFloat), a map a [gmap], a slice a list, an instant the number of
      nanoseconds since year 1 (GoTime), a timestamp's text what RFC 3339 parsing and
      printing make of it (TimeText), a JSON document its tree (Json). A slice
      expression out of range and a division by zero are errors named panic.
    - What Go leaves open is a parameter, [GoRuntime]: the order of map iteration,
      the order sort.Slice gives to equal elements, Unicode case mapping. Theorems
      hold for every choice of it.
    - Code outside src/ is a parameter too: bcrypt, JWT signing, the random source,
      the mail provider, image codecs, the language model, decimal formatting, PDF
      drawing. Loops without a bound of their own take fuel; each has a theorem that
      the stated fuel is enough.

    ** The parts, and what is proved of them

    Foundations. Prelude: record update, errors, the monad, Hoare triples, lenses,
    64-bit arithmetic. GoTime, GoStrings, GoFloat, TimeText: the parts of the
    standard library the program leans on. Domain (core/domain), Periods (windows,
    buckets and the alert ladder of projection.go, report periods), Schedule
    (scheduled_payment.go): occurrences neither drift nor repeat; alerts fire once
    per rung. Json: what a projection decodes is what a service recorded.

    Events. Outbox (pkg/outbox): retry delays, a drain that ends and accounts for
    every message. UnitOfWork (memory/unit_of_work.go): all or nothing. EventStore
    and EventOrder (memory/event_store.go): calls of ProcessNext interleave claim, unit
    of work, handler and finish, as no mutex is held between them; while no call
    outlives its lease and no failing unit restores a snapshot over another's writes,
    each subscription sees an aggregate's events in order and once, and examples show
    what happens otherwise; one delivery per event; lag is zero exactly when idle. PgOutbox
    and PgDelivery (postgres/event_store.go, postgres/outbox_store.go): the
    same queue in PostgreSQL, its statements as the steps of concurrent transactions.
    Delivery is in order and once while no worker outlives its lease, and complete
    unless a registration overlaps an append; examples show what happens otherwise.

    Read models. AnalyticsProjection: after any deliveries every bucket is the sum
    over the live expenses. BudgetUsage, BudgetSpend: every usage row of a live
    budget is the sum of its period. AuditTrail: the audit projection, outbox
    administration and retention.

    Services. Auth, AuthSafety (auth.go over IdentityStore): calls act as guarded
    steps; rotated tokens and closed sessions stay dead; super-administrators are
    neither made nor lost. Expenses, ExpenseLog (expenses.go): a command writes one
    event and its projection or nothing; the projection is the replay of the log;
    owners are isolated; visibility is exactly ownership or a shared group. Groups,
    Budgets: the same over groups.go, taxonomy.go, budgets.go. Payments,
    PaymentSafety (scheduled_payments.go): an occurrence is posted at most once.
    Notifications: every claimed delivery is handed to the mailer once, or accounted
    for, and ends sent, waiting or dead-lettered as the mailer answered. Uploads, ReceiptSafety (handler/uploads.go with retention.go): a live
    expense keeps its receipt and the sweep takes exactly the orphans. Reports,
    ReportFormats, ReportSafety: a report is its period, generation settles, and a
    CSV file tells its reader, by the names of its columns, the rows and totals it was
    written from. Analytics, AnalyticsSafety (analytics.go): the comparison
    of periods is the ledger of expenses, through the precomputed buckets.
    AdminUsage (admin_usage.go): the summary counts what there is.

    Assistance. AI (the provider port, its scripted adapter, the auditing
    decorators), OpenAI (outbound/openai): a stream of fragments says what the finished
    response would, and a conversation reaches the provider turn by turn; Assistant, AssistantSafety (assistant.go): the model sees the
    asker's data only, a question places at most five provider calls, each with its own
    audit record, a stream ends in one terminal chunk. A caller who leaves a stream is an
    abandoned channel: the decorator's goroutine that returns without a record when the
    context is done (ai_audit.go) is the one call of such a question that may go
    unrecorded, and what openai's client sends him is a prefix of [forward]. Intake
    (expense_intake.go): the model is called only on a granted unit, and only usable
    drafts come back.

    The API. Http (pkg/auth/http.go and the helpers of the handlers): requests,
    responses, bearer tokens and the two guards. Inbound (port/inbound): the service
    interfaces as classes, and the services as their instances. Handlers
    (adapter/inbound/http/v1/handler): what every endpoint decodes, calls and
    answers, the chat over server-sent events included. Application: the route table with
    its guards, the services over World and the routes on them, as main.go wires them. HttpAccess: the guards implement an access policy stated on
    its own; an outsider learns nothing from a reset or a login; nothing goes to a
    model for an account that has not opted in. Isolation (what each service may
    change, as lemmas over its definition) and Tenants (the handlers and any
    sequence of requests): no request changes another account's data. Frames holds the
    reasoning about what a computation leaves alone that these share.

    The process. Process (startProjections in main.go): the three projections
    polled next to the commands, each poll one step, the invariant of such a run and the scheme
    that ties a read model to the messages its projection applied. Draining: a
    projection that refuses nothing has as many polls to go as messages. Ledger: the
    contributions told by the messages are those of the expenses. Convergence and
    CatchUp: the analytics buckets of a caught-up projection are the ledger's expenses,
    and with every expense in a category it does catch up; without, the expense stalls,
    and the lag counts messages no poll takes. BudgetLedger: every budget period shows
    what the live expenses spent in it. AuditLog: the audit trail is the log, one entry
    per event.

    PostgreSQL transactions. PgTx (pkg/pgxtx): a transaction is a tree of statements,
    sessions interleave them at READ COMMITTED with row locks; when no commit changes
    what a running transaction has seen, the committed ones are as if run one after the
    other. PgAnalytics (postgres/analytics_repository.go): the upserts hold the buckets
    they touch, so rollups stay exact under concurrent workers. PgIdentity
    (postgres/identity_repository.go): a refresh token is exchanged once under any
    interleaving, while revoking them can miss one in the making. PgExpenses and
    PgExpenseRefinement (postgres/expense_repository.go): any sequence of calls gets the
    answers of the in-memory repository. PgOnce: what a unique key gives transactions of
    several replicas, rows written once and rows every task leaves behind. PgPayments
    (postgres/scheduled_payment_repository.go): an occurrence is claimed once, and the
    claim of an automatic posting always fails on its reference. PgBudgets, PgBudgetSpend
    (postgres/budget_repository.go, budget_usage_repository.go): the budget projection as
    one transaction; its rows are the sums of their periods while no worker is disturbed,
    and an example loses spend when one is. PgRecords (reports, audit entries, AI
    requests, object references): the audit trail is exactly the events delivered, under
    any interleaving. PgGroups (group_repository.go, taxonomy_repository.go): names stay
    unique; a thing referred to stays, and the service calls it not found.

    Operations. PgNotifications (postgres/notification_repository.go): no mail goes out
    twice while batches are worked off within their lease. PgRateLimit
    (postgres/rate_limiter.go): the shared limiter counts calls exactly while rows
    outlive the windows of its SQL (in exact arithmetic; double precision agrees at the
    edges tried); the mail quota is not so kept. Cors
    (pkg/cors, config/app.go): only the configured origins are let in. Probes
    (pkg/health and the checks of main.go): readiness is what the checks say, and the
    exposition announces every family of gauges once.

    Packages. Cache: the cached repositories answer as those they wrap. RateLimit:
    grants are bounded and the sweep is invisible. ImageProc: resizing partitions
    the source. Metrics: every request is counted once under its labels.

    ** Bounds and fuel

    Scheduled stepping takes the 1000 steps of the source; the outbox drain takes
    MaxDrain; the assistant's rounds count down from maxToolRounds; report paging
    takes as many pages as the expenses fill, one more than size / 500; the axis of a
    chart takes fewer than twenty steps below 10^18, and never ends above
    (axis_bound_diverges). Counters of the identifier source and of the clock are
    inputs of the world, so no theorem assumes a particular clock (those
    on draining ask that it does not run before the zero time).

    ** Not modelled

    What net/http, encoding/json and chi do around a handler: parsing a request,
    matching its path against the patterns, writing JSON text (a request is its
    parsed parts, a response the value given to the encoder); the provider clients
    MinIO and MailerSend, the layout of the PDF, flags and servers, mail
    templates. Goroutines are modelled where they matter: the
    interleavings of outbox workers (EventOrder, PgDelivery) and of database
    transactions (PgTx), a read racing a write in the cache (Cache), a caller leaving a
    stream (Assistant); elsewhere calls are sequential, as the mutexes of the in-memory
    adapters make them. Of PostgreSQL the model has tables as maps from keys, statements,
    READ COMMITTED snapshots per statement and the locks of written rows; locks taken
    only for reading, deadlock detection and lost connections are rollbacks a step may
    make at any time ([TxAbort]). Casts, references to other repositories' tables and
    check constraints are a parameter of each PostgreSQL file, [violates]. *)

From stdpp Require Export base tactics numbers list gmap strings sorting.
From Stdlib Require Export ZArith Lia.

#[global] Open Scope Z_scope.

(** ** Record update

    Go assigns one field of a struct and keeps the others.  [r <| f := v |>]
    is that assignment; an [Eta] instance, one line per record, says how the
    record is rebuilt from its own projections. *)

Class Eta (R : Type) := eta : R → R.
Class Setter {R T : Type} (proj : R → T) := set_field : (T → T) → R → R.
#[global] Hint Mode Eta ! : typeclass_instances.

Ltac derive_setter R proj :=
  let inst := constr:(ltac:(typeclasses eauto) : Eta R) in
  let body := eval hnf in inst in
  lazymatch eval pattern proj in body with
  | (fun _ => ?constant) _ => fail "derive_setter: no such field" proj
  | ?rebuild _ =>
      let s := eval cbv beta in (fun f => rebuild (fun r => f (proj r))) in
      exact s
  end.

#[global] Hint Extern 1 (@Setter ?R ?T ?proj) => derive_setter R proj : typeclass_instances.

Declare Scope go_scope.
Delimit Scope go_scope with go.
#[global] Open Scope go_scope.

Notation "r <| f := v |>" := (@set_field _ _ f _ (λ _, v) r)
  (at level 1, f at next level, left associativity) : go_scope.
Notation "r <| f ::= g |>" := (@set_field _ _ f _ g r)
  (at level 1, f at next level, left associativity) : go_scope.

(** ** Strings

    Go's [==] and [!=] on strings, and membership in a list of strings. *)

Notation "x =s y" := (String.eqb x y) (at level 70, no associativity) : go_scope.
Notation "x ≠s y" := (negb (String.eqb x y)) (at level 70, no associativity) : go_scope.
Definition str_in (x : string) (l : list string) : bool := existsb (String.eqb x) l.

Lemma eqs_refl x : (x =s x) = true.
Proof. apply String.eqb_refl. Qed.
Lemma eqs_ne x y : x ≠ y → (x =s y) = false.
Proof. apply String.eqb_neq. Qed.
Lemma str_in_spec x l : str_in x l = true ↔ x ∈ l.
Proof.
  unfold str_in. rewrite existsb_exists, list_elem_of_In. split.
  - intros (y & Hy & ->%String.eqb_eq). done.
  - intros H. exists x. by rewrite String.eqb_refl.
Qed.

Lemma str_app_assoc (x y z : string) : (x +:+ y) +:+ z = x +:+ (y +:+ z).
Proof. induction x as [|c x IH]; [done|]. exact (f_equal (String c) IH). Qed.

Lemma elem_take {A} n (l : list A) x : x ∈ take n l → x ∈ l.
Proof. intros Hx. rewrite <- (take_drop n l). rewrite elem_of_app. by left. Qed.

(** Case analysis on the string comparisons of the goal. *)
Ltac str_case := repeat
  match goal with
  | |- context [String.eqb ?x ?y] => destruct (String.eqb_spec x y); [subst|]; simpl in *
  end.

(** ** Machine integers

    [int64] and, on the supported platforms, [int] are 64-bit two's complement:
    every arithmetic result is reduced by [wrap64].  Go's [/] truncates
    towards zero, which is [Z.quot]. *)

(** Case analysis on the first option the goal inspects. *)
Ltac opt_case :=
  match goal with
  | |- context [match ?x with Some _ => _ | None => _ end] => let H := fresh "Hopt" in destruct x eqn:H
  end.

(** [lia] with the defining equations of [/], [mod], [quot] and [rem]. *)
Ltac lia_div := Z.to_euclidean_division_equations; lia.

Definition min_int64 : Z := - 2 ^ 63.
Definition max_int64 : Z := 2 ^ 63 - 1.
Definition wrap64 (z : Z) : Z := (z + 2 ^ 63) mod 2 ^ 64 - 2 ^ 63.
Definition is_int64 (z : Z) : Prop := min_int64 ≤ z ≤ max_int64.

Lemma wrap64_range z : is_int64 (wrap64 z).
Proof. unfold is_int64, wrap64, min_int64, max_int64. lia_div. Qed.

Lemma wrap64_id z : is_int64 z → wrap64 z = z.
Proof. unfold is_int64, wrap64, min_int64, max_int64. lia_div. Qed.

Lemma wrap64_add_l a b : wrap64 (wrap64 a + b) = wrap64 (a + b).
Proof. unfold wrap64. lia_div. Qed.

Lemma wrap64_add_r a b : wrap64 (a + wrap64 b) = wrap64 (a + b).
Proof. unfold wrap64. lia_div. Qed.

Lemma wrap64_wrap64 a : wrap64 (wrap64 a) = wrap64 a.
Proof. apply wrap64_id, wrap64_range. Qed.

Lemma wrap64_congr a b k : a = b + k * 2 ^ 64 → wrap64 a = wrap64 b.
Proof. intros ->. unfold wrap64. lia_div. Qed.

Lemma wrap64_cancel a b t : wrap64 (a + b) = 0 → wrap64 (t + a) = wrap64 (t - b).
Proof.
  intros H. replace (t + a) with ((t - b) + (a + b)) by lia.
  by rewrite <- wrap64_add_r, H, Z.add_0_r.
Qed.

Create HintDb go discriminated.
Create HintDb wrap64 discriminated.
#[export] Hint Resolve wrap64_range : go.
#[export] Hint Rewrite wrap64_add_l wrap64_add_r wrap64_wrap64 : wrap64.

(** Solves an equation between two [wrap64] sums by pushing the inner
    reductions out and comparing the sums. *)
Ltac wrap64_solve := autorewrite with wrap64; f_equal; lia.

(** [m[key] += amount] on a [map[string]int64]. *)
Definition add_amount (key : string) (amount : Z) (m : gmap string Z) : gmap string Z :=
  <[key := wrap64 (default 0 (m !! key) + amount)]> m.

(** Byte order, and [sort.Strings] for a sort that leaves equal strings anyhow. *)
Definition string_less (x y : string) : bool := String.ltb x y.

(** ** Errors

    A Go error is a package-level sentinel compared by identity, a fresh
    [errors.New], an [fmt.Errorf] that wraps another error with [%w] between
    two pieces of text, or an [errors.Join]. *)

Inductive error :=
  | Sentinel (name text : string)
  | ErrorsNew (text : string)
  | Errorf (before : string) (wrapped : error) (after : string)
  | ErrorsJoin (errs : list error).

Fixpoint ErrorText (e : error) : string :=
  match e with
  | Sentinel _ text => text
  | ErrorsNew text => text
  | Errorf before wrapped after => before +:+ ErrorText wrapped +:+ after
  | ErrorsJoin errs =>
      (fix join (es : list error) :=
         match es with
         | [] => ""
         | [e] => ErrorText e
         | e :: es => ErrorText e +:+ String (Ascii.ascii_of_nat 10) (join es)
         end) errs
  end.

(** [errors.Is(err, target)] for a sentinel target, which is how the services
    use it. *)
Fixpoint ErrorIs (e : error) (target : string) : bool :=
  match e with
  | Sentinel name _ => String.eqb name target
  | ErrorsNew _ => false
  | Errorf _ wrapped _ => ErrorIs wrapped target
  | ErrorsJoin errs => existsb (λ e, ErrorIs e target) errs
  end.

Definition error_name (e : error) : string :=
  match e with Sentinel name _ => name | _ => "" end.

(** ** The state and error monad

    An operation of the program reads and writes a state [W] and either
    returns a value or an error; the writes it made before failing stay, as
    they do in Go. *)

Definition M (W A : Type) : Type := W → W * (error + A).

Section Monad.
Context {W : Type}.

#[export] Instance M_ret : MRet (M W) := λ A a w, (w, inr a).
#[export] Instance M_bind : MBind (M W) := λ A B k m w,
  match m w with
  | (w', inl e) => (w', inl e)
  | (w', inr a) => k a w'
  end.

Definition throw {A} (e : error) : M W A := λ w, (w, inl e).
Definition gets {A} (f : W → A) : M W A := λ w, (w, inr (f w)).
Definition modify (f : W → W) : M W () := λ w, (f w, inr ()).

(** [catch m] runs [m] and hands its error to the caller as a value: the
    shape of [v, err := m()] when the caller inspects [err]. *)
Definition catch {A} (m : M W A) : M W (error + A) := λ w,
  let '(w', r) := m w in (w', inr r).

(** [if err != nil { return f(err) }]. *)
Definition map_err {A} (f : error → error) (m : M W A) : M W A := λ w,
  match m w with
  | (w', inl e) => (w', inl (f e))
  | (w', inr a) => (w', inr a)
  end.

(** A [for range] loop whose body may fail: the first error ends it. *)
Fixpoint for_each {A} (body : A → M W ()) (l : list A) : M W () :=
  match l with
  | [] => mret ()
  | x :: l => body x ≫= λ _, for_each body l
  end.

(** A [for range] loop that threads an accumulator. *)
Fixpoint fold_m {A B} (body : B → A → M W B) (acc : B) (l : list A) : M W B :=
  match l with
  | [] => mret acc
  | x :: l => body acc x ≫= λ acc, fold_m body acc l
  end.

Definition guard_m (b : bool) (e : error) : M W () :=
  if b then mret () else throw e.
End Monad.

Notation "m ;; k" := (m ≫= λ _, k)
  (at level 100, k at level 200, right associativity) : go_scope.

(** [fmt.Errorf("text: %w", err)], the common shape. *)
Definition wrap_err {W A} (text : string) (m : M W A) : M W A :=
  map_err (λ e, Errorf (text +:+ ": ") e "") m.

(** Running a component's operation on the part of a larger state it owns. *)
Record Lens (W S : Type) := { lens_get : W → S; lens_set : S → W → W }.
Arguments lens_get {W S}. Arguments lens_set {W S}.

Class LensLaws {W S} (l : Lens W S) := {
  lens_get_set s w : lens_get l (lens_set l s w) = s;
  lens_set_get w : lens_set l (lens_get l w) w = w;
  lens_set_set s s' w : lens_set l s (lens_set l s' w) = lens_set l s w
}.

Definition zoom {W S A} (l : Lens W S) (m : M S A) : M W A := λ w,
  let '(s, r) := m (lens_get l w) in (lens_set l s w, r).

Definition id_lens {W} : Lens W W := {| lens_get w := w; lens_set w _ := w |}.
#[export] Instance id_lens_laws {W} : LensLaws (@id_lens W).
Proof. by split. Qed.

Definition run_ok {W A} (m : M W A) (w w' : W) (a : A) : Prop := m w = (w', inr a).
Definition run_err {W A} (m : M W A) (w w' : W) (e : error) : Prop := m w = (w', inl e).

Section MonadLemmas.
Context {W : Type}.

Lemma bind_ok {A B} (m : M W A) (k : A → M W B) w w' b :
  (m ≫= k) w = (w', inr b) ↔ ∃ w1 a, m w = (w1, inr a) ∧ k a w1 = (w', inr b).
Proof.
  unfold mbind, M_bind. destruct (m w) as [w1 [e|a]]; naive_solver.
Qed.

Lemma bind_err {A B} (m : M W A) (k : A → M W B) w w' e :
  (m ≫= k) w = (w', inl e) ↔
  m w = (w', inl e) ∨ ∃ w1 a, m w = (w1, inr a) ∧ k a w1 = (w', inl e).
Proof.
  unfold mbind, M_bind. destruct (m w) as [w1 [e'|a]]; naive_solver.
Qed.

Lemma ret_bind {A B} (a : A) (k : A → M W B) w : (mret a ≫= k) w = k a w.
Proof. done. Qed.

Lemma bind_assoc {A B C} (m : M W A) (k : A → M W B) (h : B → M W C) w :
  ((m ≫= k) ≫= h) w = (m ≫= λ a, k a ≫= h) w.
Proof. unfold mbind, M_bind. by destruct (m w) as [w1 [e|a]]. Qed.

Lemma for_each_app {A} (body : A → M W ()) l1 l2 w :
  for_each body (l1 ++ l2) w = (for_each body l1 ≫= λ _, for_each body l2) w.
Proof.
  revert w. induction l1 as [|x l1 IH]; intros w; [done|]. simpl.
  unfold mbind, M_bind in *. destruct (body x w) as [w1 [e|[]]]; [done|]. apply IH.
Qed.

(** The rule for loops: an invariant the body preserves on every outcome. *)
Lemma for_each_inv {A} (body : A → M W ()) (I : W → Prop) l w :
  (∀ x w, x ∈ l → I w → I (body x w).1) → I w → I (for_each body l w).1.
Proof.
  revert w. induction l as [|x l IH]; intros w Hbody Hw; [done|]. simpl.
  unfold mbind, M_bind. pose proof (Hbody x w) as Hx.
  destruct (body x w) as [w1 [e|[]]]; simpl in *; [by apply Hx; [left|]|].
  apply IH; [|by apply Hx; [left|]]. intros y w2 Hy. apply Hbody. by right.
Qed.
End MonadLemmas.

(** ** Hoare triples

    [hoare P m Q E]: run from a state satisfying [P], [m] either returns a value
    [a] in a state satisfying [Q a], or fails in a state satisfying [E]. *)

Definition hoare {W A} (P : W → Prop) (m : M W A) (Q : A → W → Prop) (E : W → Prop) : Prop :=
  ∀ w, P w → match m w with (w', inr a) => Q a w' | (w', inl _) => E w' end.

Section Hoare.
Context {W : Type}.
Implicit Types P E : W → Prop.

Lemma hoare_ret {A} P (a : A) Q E : (∀ w, P w → Q a w) → hoare P (mret a) Q E.
Proof. intros H w. apply H. Qed.

Lemma hoare_throw {A} P e (Q : A → W → Prop) E : (∀ w, P w → E w) → hoare P (throw e) Q E.
Proof. intros H w. apply H. Qed.

Lemma hoare_bind {A B} P (m : M W A) (k : A → M W B) R Q E :
  hoare P m R E → (∀ a, hoare (R a) (k a) Q E) → hoare P (m ≫= k) Q E.
Proof.
  intros Hm Hk w Hw. unfold mbind, M_bind. specialize (Hm w Hw).
  destruct (m w) as [w1 [e|a]]; [done|]. by apply Hk.
Qed.

Lemma hoare_map_err {A} P f (m : M W A) Q E : hoare P m Q E → hoare P (map_err f m) Q E.
Proof.
  intros Hm w Hw. unfold map_err. specialize (Hm w Hw). by destruct (m w) as [w1 [e|a]].
Qed.

Lemma hoare_catch {A} P (m : M W A) (Q : error + A → W → Prop) E :
  hoare P m (λ a, Q (inr a)) (λ w, ∀ e, Q (inl e) w) → hoare P (catch m) Q E.
Proof.
  intros Hm w Hw. unfold catch. specialize (Hm w Hw). by destruct (m w) as [w1 [e|a]].
Qed.

Lemma hoare_weaken {A} P P' (m : M W A) Q Q' E E' :
  hoare P m Q E → (∀ w, P' w → P w) → (∀ a w, Q a w → Q' a w) → (∀ w, E w → E' w) →
  hoare P' m Q' E'.
Proof.
  intros Hm HP HQ HE w Hw. specialize (Hm w (HP w Hw)).
  destruct (m w) as [w1 [e|a]]; [by apply HE|by apply HQ].
Qed.

Lemma hoare_pure {A} P (m : M W A) Q E (φ : Prop) :
  (φ → hoare P m Q E) → hoare (λ w, φ ∧ P w) m Q E.
Proof. intros H w [Hφ Hw]. by apply H. Qed.

Lemma hoare_for_each {A} (body : A → M W ()) l P E :
  (∀ x, x ∈ l → hoare P (body x) (λ _, P) E) → hoare P (for_each body l) (λ _, P) E.
Proof.
  induction l as [|x l IH]; intros H; [by apply hoare_ret|]. cbn.
  apply (hoare_bind P _ _ (λ _, P)); [apply H; by left|]. intros _. apply IH. intros y Hy. apply H. by right.
Qed.

(** [m] leaves the observation [f] of the state alone, whatever its outcome. *)
Definition keeps {T A} (f : W → T) (m : M W A) : Prop := ∀ w, f (m w).1 = f w.

Lemma keeps_bind {T A B} (f : W → T) (m : M W A) (k : A → M W B) :
  keeps f m → (∀ a, keeps f (k a)) → keeps f (m ≫= k).
Proof.
  intros Hm Hk w. unfold mbind, M_bind. specialize (Hm w). destruct (m w) as [w1 [e|a]]; [done|].
  etrans; [apply Hk|done].
Qed.

Lemma keeps_map_err {T A} (f : W → T) g (m : M W A) : keeps f m → keeps f (map_err g m).
Proof. intros Hm w. unfold map_err. specialize (Hm w). by destruct (m w) as [w1 [e|a]]. Qed.

Lemma keeps_catch {T A} (f : W → T) (m : M W A) : keeps f m → keeps f (catch m).
Proof. intros Hm w. unfold catch. specialize (Hm w). by destruct (m w) as [w1 [e|a]]. Qed.

Lemma keeps_hoare {T A} (f : W → T) (m : M W A) (I : T → Prop) :
  keeps f m → hoare (λ w, I (f w)) m (λ _ w, I (f w)) (λ w, I (f w)).
Proof. intros Hm w Hw. specialize (Hm w). destruct (m w) as [w1 [e|a]]; cbn in *; by rewrite Hm. Qed.
End Hoare.

(** ** Go runtime behaviour the language leaves open

    The order in which [range] visits a map, the order in which [sort.Slice]
    leaves elements that compare equal, and the Unicode case tables are
    parameters; the laws are the documented ones. *)

Definition strict_weak {A} (less : A → A → bool) : Prop :=
  (∀ x, less x x = false) ∧
  (∀ x y z, less x y = true → less y z = true → less x z = true) ∧
  (∀ x y z, less x y = false → less y z = false → less x z = false).

(** [l] is sorted for [less]: no element is less than an earlier one. *)
Definition sorted_by {A} (less : A → A → bool) (l : list A) : Prop :=
  StronglySorted (λ x y, less y x = false) l.

Class GoRuntime := {
  map_range : ∀ {K V : Type} `{Countable K}, gmap K V → list (K * V);
  map_range_perm : ∀ {K V : Type} `{Countable K} (m : gmap K V),
    map_range m ≡ₚ map_to_list m;
  sort_slice : ∀ {A : Type}, (A → A → bool) → list A → list A;
  sort_slice_perm : ∀ {A : Type} (less : A → A → bool) l, sort_slice less l ≡ₚ l;
  sort_slice_sorted : ∀ {A : Type} (less : A → A → bool) l,
    strict_weak less → sorted_by less (sort_slice less l);
  unicode_to_upper : string → string;
  unicode_to_lower : string → string
}.

(** Insertion sort: the stable order, used by [sort.SliceStable] and as one
    admissible behaviour of [sort.Slice]. *)
Fixpoint insert_by {A} (less : A → A → bool) (x : A) (l : list A) : list A :=
  match l with
  | [] => [x]
  | y :: l' => if less y x then y :: insert_by less x l' else x :: l
  end.

Definition sort_slice_stable {A} (less : A → A → bool) (l : list A) : list A :=
  foldr (insert_by less) [] l.

Lemma insert_by_perm {A} (less : A → A → bool) x l : insert_by less x l ≡ₚ x :: l.
Proof.
  induction l as [|y l IH]; [done|]. simpl. destruct (less y x); [|done].
  rewrite IH. apply Permutation_swap.
Qed.

Lemma sort_slice_stable_perm {A} (less : A → A → bool) l : sort_slice_stable less l ≡ₚ l.
Proof.
  induction l as [|x l IH]; [done|]. simpl. by rewrite insert_by_perm, IH.
Qed.

Lemma insert_by_sorted {A} (less : A → A → bool) x l :
  strict_weak less → sorted_by less l → sorted_by less (insert_by less x l).
Proof.
  intros (Hirr & Htr & Hneg) Hl. induction Hl as [|y l Hl IH Hy]; simpl.
  { by repeat constructor. }
  assert (∀ a b, less a b = true → less b a = false) as Hasym.
  { intros a b Hab. destruct (less b a) eqn:Hba; [|done].
    specialize (Htr _ _ _ Hab Hba). by rewrite Hirr in Htr. }
  destruct (less y x) eqn:Hyx.
  - constructor; [done|]. apply Forall_forall. intros z Hz.
    rewrite insert_by_perm, elem_of_cons in Hz. destruct Hz as [->|Hz]; [by apply Hasym|].
    rewrite Forall_forall in Hy. by apply Hy.
  - constructor; [by constructor|]. constructor; [done|].
    rewrite Forall_forall in *. intros z Hz. specialize (Hy z Hz). by eapply Hneg.
Qed.

Lemma sort_slice_stable_sorted {A} (less : A → A → bool) l :
  strict_weak less → sorted_by less (sort_slice_stable less l).
Proof.
  intros Hsw. induction l as [|x l IH]; [constructor|]. by apply insert_by_sorted.
Qed.

Program Definition default_runtime : GoRuntime := {|
  map_range K V _ _ m := map_to_list m;
  sort_slice A less l := sort_slice_stable less l;
  unicode_to_upper s := s;
  unicode_to_lower s := s
|}.
Next Obligation. done. Qed.
Next Obligation. intros. apply sort_slice_stable_perm. Qed.
Next Obligation. intros. by apply sort_slice_stable_sorted. Qed.
