(* ===== verification/GoTime.v ===== *)
(** * The part of Go's [time] package the program uses

    An instant is the number of nanoseconds since 0001-01-01T00:00:00Z, so the
    zero [time.Time] is [0].  Calendar fields are those of the proleptic
    Gregorian calendar in UTC: every instant the program takes apart was built
    in UTC or has been through [.UTC()]. *)

From S2P Require Export Prelude.

Abbreviation Time := Z (only parsing).
Abbreviation Duration := Z (only parsing).

Definition Nanosecond : Duration := 1.
Definition Millisecond : Duration := 1_000_000.
Definition Second : Duration := 1_000_000_000.
Definition Minute : Duration := 60 * Second.
Definition Hour : Duration := 60 * Minute.
Definition day_ns : Z := 24 * Hour.

Definition IsZero (t : Time) : bool := t =? 0.
Definition After (t u : Time) : bool := u <? t.
Definition Before (t u : Time) : bool := t <? u.

(** [t.Sub(u)] saturates at the ends of [Duration]. *)
Definition Sub (t u : Time) : Duration := Z.max min_int64 (Z.min max_int64 (t - u)).
Definition TimeAdd (t : Time) (d : Duration) : Time := t + d.

(** 1970-01-01T00:00:00Z. *)
Definition unix_epoch : Time := 719162 * day_ns.
Definition Unix (t : Time) : Z := (t - unix_epoch) / Second.
Definition UnixNano (t : Time) : Z := wrap64 (t - unix_epoch).
Definition UnixMilli (t : Time) : Z := (t - unix_epoch) / Millisecond.
(** [time.UnixMilli(ms)], the inverse constructor. *)
Definition FromUnixMilli (ms : Z) : Time := unix_epoch + ms * Millisecond.

(** ** The calendar *)

Definition is_leap (y : Z) : bool :=
  (y mod 4 =? 0) && negb (y mod 100 =? 0) || (y mod 400 =? 0).

Definition year_length (y : Z) : Z := if is_leap y then 366 else 365.

(** Days from 0001-01-01 to the first day of year [y]. *)
Definition days_before_year (y : Z) : Z :=
  365 * (y - 1) + (y - 1) / 4 - (y - 1) / 100 + (y - 1) / 400.

(** Days from the first day of the year to the first day of month [m]. *)
Definition days_before_month (leap : bool) (m : Z) : Z :=
  let l := if leap then 1 else 0 in
  match m with
  | 1 => 0 | 2 => 31 | 3 => 59 + l | 4 => 90 + l | 5 => 120 + l | 6 => 151 + l
  | 7 => 181 + l | 8 => 212 + l | 9 => 243 + l | 10 => 273 + l | 11 => 304 + l
  | 12 => 334 + l | _ => 0
  end.

Definition month_length (leap : bool) (m : Z) : Z :=
  match m with
  | 2 => if leap then 29 else 28
  | 4 | 6 | 9 | 11 => 30
  | _ => 31
  end.

(** The day number of a date whose month is in [1, 12]; the day may be any
    integer and counts on from the first of the month. *)
Definition day_number (y m d : Z) : Z :=
  days_before_year y + days_before_month (is_leap y) m + (d - 1).

(** Year and zero-based day of the year of a day number. *)
Definition year_yday (n : Z) : Z * Z :=
  let n400 := n / 146097 in
  let r := n mod 146097 in
  let n100 := Z.min 3 (r / 36524) in
  let r := r - 36524 * n100 in
  let n4 := r / 1461 in
  let r := r mod 1461 in
  let n1 := Z.min 3 (r / 365) in
  (400 * n400 + 100 * n100 + 4 * n4 + n1 + 1, r - 365 * n1).

Definition month_of_yday (leap : bool) (yd : Z) : Z :=
  let from m := days_before_month leap m <=? yd in
  if from 12 then 12 else if from 11 then 11 else if from 10 then 10
  else if from 9 then 9 else if from 8 then 8 else if from 7 then 7
  else if from 6 then 6 else if from 5 then 5 else if from 4 then 4
  else if from 3 then 3 else if from 2 then 2 else 1.

(** Year, month and day of a day number. *)
Definition civil (n : Z) : Z * Z * Z :=
  let '(y, yd) := year_yday n in
  let m := month_of_yday (is_leap y) yd in
  (y, m, yd - days_before_month (is_leap y) m + 1).

Definition Year (t : Time) : Z := (civil (t / day_ns)).1.1.
Definition Month (t : Time) : Z := (civil (t / day_ns)).1.2.
Definition Day (t : Time) : Z := (civil (t / day_ns)).2.
(** Sunday is 0; 0001-01-01 was a Monday. *)
Definition Weekday (t : Time) : Z := (t / day_ns + 1) mod 7.
Definition time_of_day (t : Time) : Z := t mod day_ns.
Definition clock_hour (t : Time) : Z := time_of_day t / Hour.
Definition clock_minute (t : Time) : Z := time_of_day t mod Hour / Minute.
Definition clock_second (t : Time) : Z := time_of_day t mod Minute / Second.

(** [time.Date(y, m, d, hh, mm, ss, ns, time.UTC)]: a month outside [1, 12]
    carries into the year, and every other field counts on linearly. *)
Definition Date (y m d hh mm ss ns : Z) : Time :=
  let y' := y + (m - 1) / 12 in
  let m' := (m - 1) mod 12 + 1 in
  day_number y' m' d * day_ns + hh * Hour + mm * Minute + ss * Second + ns.

(** [t.AddDate(years, months, days)]. *)
Definition AddDate (t : Time) (years months days : Z) : Time :=
  Date (Year t + years) (Month t + months) (Day t + days) 0 0 0 (time_of_day t).

(** ** Facts about the calendar *)

Definition valid_date (y m d : Z) : Prop :=
  1 ≤ m ≤ 12 ∧ 1 ≤ d ≤ month_length (is_leap y) m.

Ltac month_cases m :=
  let H := fresh in
  assert (m = 1 ∨ m = 2 ∨ m = 3 ∨ m = 4 ∨ m = 5 ∨ m = 6 ∨ m = 7 ∨ m = 8 ∨
          m = 9 ∨ m = 10 ∨ m = 11 ∨ m = 12) as H by lia;
  destruct H as [->|[->|[->|[->|[->|[->|[->|[->|[->|[->|[->| ->]]]]]]]]]]].

Lemma month_length_bounds leap m : 28 ≤ month_length leap m ≤ 31.
Proof.
  unfold month_length. destruct leap; repeat case_match; lia.
Qed.

Lemma days_before_month_step leap m :
  1 ≤ m ≤ 11 → days_before_month leap (m + 1) = days_before_month leap m + month_length leap m.
Proof. intros Hm. assert (m ≠ 12) by lia. month_cases m; destruct leap; done || lia. Qed.

Lemma days_before_month_12 (leap : bool) :
  days_before_month leap 12 + month_length leap 12 = if leap then 366 else 365.
Proof. by destruct leap. Qed.

Lemma days_before_month_mono leap m m' :
  1 ≤ m → m < m' ≤ 12 →
  days_before_month leap m + month_length leap m ≤ days_before_month leap m'.
Proof.
  intros H1 H2. assert (1 ≤ m ≤ 12) as Hm by lia. assert (1 ≤ m' ≤ 12) as Hm' by lia.
  month_cases m; month_cases m'; destruct leap; simpl; lia.
Qed.

Lemma days_before_month_bounds (leap : bool) m :
  1 ≤ m ≤ 12 →
  0 ≤ days_before_month leap m ∧
  days_before_month leap m + month_length leap m ≤ (if leap then 366 else 365).
Proof. intros Hm. month_cases m; destruct leap; simpl; lia. Qed.

Lemma days_before_year_step y :
  days_before_year (y + 1) = days_before_year y + year_length y.
Proof.
  unfold days_before_year, year_length, is_leap.
  replace (y + 1 - 1) with y by lia.
  destruct (y mod 4 =? 0) eqn:E4, (y mod 100 =? 0) eqn:E100, (y mod 400 =? 0) eqn:E400;
    simpl; lia_div.
Qed.

Lemma year_length_bounds y : 365 ≤ year_length y ≤ 366.
Proof. unfold year_length. destruct (is_leap y); lia. Qed.

Lemma days_before_year_mono y y' :
  y < y' → days_before_year y + year_length y ≤ days_before_year y'.
Proof.
  intros H. rewrite <- days_before_year_step. unfold days_before_year. lia_div.
Qed.

Lemma year_yday_spec n y yd :
  year_yday n = (y, yd) → n = days_before_year y + yd ∧ 0 ≤ yd < year_length y.
Proof.
  unfold year_yday. intros [= <- <-].
  set (q := n / 146097). set (r := n mod 146097).
  assert (n = 146097 * q + r ∧ 0 ≤ r < 146097) as [Hn Hr] by (subst q r; lia_div).
  clearbody q r. subst n.
  assert (∃ c, c = Z.min 3 (r / 36524)) as [c Hc'] by eauto. rewrite <- Hc'.
  assert (0 ≤ c ≤ 3 ∧ 0 ≤ r - 36524 * c ∧ (r - 36524 * c < 36524 ∨ c = 3 ∧ r - 36524 * c ≤ 36524))
    as (Hc & Hrc0 & Hrc) by lia_div.
  clear Hc'. assert (∃ s, s = r - 36524 * c) as [s Hs] by eauto. rewrite <- Hs.
  assert (r = 36524 * c + s) as -> by lia. clear Hs.
  assert (∃ f, f = s / 1461) as [f Hf'] by eauto.
  assert (∃ u, u = s mod 1461) as [u Hu'] by eauto. rewrite <- Hf', <- Hu'.
  assert (s = 1461 * f + u ∧ 0 ≤ u < 1461 ∧ 0 ≤ f ≤ 24 ∧ (c = 3 ∨ f < 24 ∨ u < 1460))
    as (-> & Hu & Hf & Hlast) by lia_div.
  clear Hf' Hu'. assert (∃ a, a = Z.min 3 (u / 365)) as [a Ha'] by eauto. rewrite <- Ha'.
  assert (0 ≤ a ≤ 3 ∧ 0 ≤ u - 365 * a ∧ (u - 365 * a < 365 ∨ a = 3 ∧ u = 1460))
    as (Ha & Hua0 & Hua) by lia_div.
  clear Ha'.
  set (y := 400 * q + 100 * c + 4 * f + a + 1).
  assert ((y - 1) / 4 = 100 * q + 25 * c + f) by (subst y; lia_div).
  assert ((y - 1) / 100 = 4 * q + c) by (subst y; lia_div).
  assert ((y - 1) / 400 = q) by (subst y; lia_div).
  split.
  { unfold days_before_year. subst y. lia. }
  split; [lia|]. unfold year_length, is_leap.
  destruct Hua as [Hua|[-> ->]]; [case_match; lia|].
  assert (y mod 4 = 0) as -> by (subst y; lia_div). simpl.
  destruct (y mod 100 =? 0) eqn:E100; simpl; [|lia].
  assert (f = 24) as -> by (subst y; lia_div).
  assert (c = 3) as -> by lia.
  assert (y mod 400 = 0) as -> by (subst y; lia_div). simpl. lia.
Qed.

Lemma month_of_yday_spec (leap : bool) (yd : Z) :
  0 ≤ yd < (if leap then 366 else 365) →
  1 ≤ month_of_yday leap yd ≤ 12 ∧
  days_before_month leap (month_of_yday leap yd) ≤ yd
    < days_before_month leap (month_of_yday leap yd) + month_length leap (month_of_yday leap yd).
Proof.
  intros H. unfold month_of_yday.
  repeat match goal with
  | |- context [if ?a <=? ?b then _ else _] => destruct (Z.leb_spec a b)
  end; destruct leap; simpl in *; lia.
Qed.

(** A day number determines a valid date, and that date has that number. *)
Lemma civil_spec n y m d :
  civil n = (y, m, d) → valid_date y m d ∧ day_number y m d = n.
Proof.
  unfold civil. destruct (year_yday n) as [y' yd] eqn:Hy. intros [= <- <- <-].
  apply year_yday_spec in Hy as [-> Hyd].
  destruct (month_of_yday_spec (is_leap y') yd) as (Hm & Hlo & Hhi).
  { unfold year_length in Hyd. by destruct (is_leap y'). }
  unfold valid_date, day_number. lia.
Qed.

Lemma day_number_inj y m d y' m' d' :
  valid_date y m d → valid_date y' m' d' → day_number y m d = day_number y' m' d' →
  (y, m, d) = (y', m', d').
Proof.
  intros [Hm Hd] [Hm' Hd'] Heq. unfold day_number in Heq.
  pose proof (days_before_month_bounds (is_leap y) m Hm) as B.
  pose proof (days_before_month_bounds (is_leap y') m' Hm') as B'.
  assert (y = y') as <-.
  { destruct (Z.lt_trichotomy y y') as [H|[->|H]]; [|done|];
      apply days_before_year_mono in H; unfold year_length in H;
      destruct (is_leap y), (is_leap y'); lia. }
  assert (m = m') as <-.
  { destruct (Z.lt_trichotomy m m') as [H|[->|H]]; [|done|].
    - pose proof (days_before_month_mono (is_leap y) m m'). lia.
    - pose proof (days_before_month_mono (is_leap y) m' m). lia. }
  assert (d = d') by lia. by subst.
Qed.

(** And a valid date is recovered from its number. *)
Lemma civil_day_number y m d : valid_date y m d → civil (day_number y m d) = (y, m, d).
Proof.
  intros Hv. destruct (civil (day_number y m d)) as [[y' m'] d'] eqn:E.
  apply civil_spec in E as [Hv' E]. by apply day_number_inj.
Qed.

(** ** Taking an instant apart and putting it together *)

Lemma day_ns_pos : 0 < day_ns.
Proof. done. Qed.

Lemma time_of_day_bounds t : 0 ≤ time_of_day t < day_ns.
Proof. unfold time_of_day. pose proof day_ns_pos. lia_div. Qed.

Lemma time_fields t :
  valid_date (Year t) (Month t) (Day t) ∧
  t = day_number (Year t) (Month t) (Day t) * day_ns + time_of_day t.
Proof.
  unfold Year, Month, Day. destruct (civil (t / day_ns)) as [[y m] d] eqn:E.
  apply civil_spec in E as [Hv E]. simpl. split; [done|]. rewrite E.
  unfold time_of_day. pose proof day_ns_pos.
  rewrite (Z.mul_comm _ day_ns). apply Z.div_mod. lia.
Qed.

Lemma fields_of_day_number y m d tod :
  valid_date y m d → 0 ≤ tod < day_ns →
  let t := day_number y m d * day_ns + tod in
  Year t = y ∧ Month t = m ∧ Day t = d ∧ time_of_day t = tod.
Proof.
  intros Hv Htod t. subst t. unfold Year, Month, Day, time_of_day.
  rewrite Z.div_add_l, (Z.div_small tod), Z.add_0_r, civil_day_number by (done || lia).
  rewrite Z.add_comm, Z.mod_add, Z.mod_small by lia. done.
Qed.

Lemma Date_in_range y m d hh mm ss ns :
  1 ≤ m ≤ 12 →
  Date y m d hh mm ss ns =
  day_number y m d * day_ns + (hh * Hour + mm * Minute + ss * Second + ns).
Proof.
  intros Hm. unfold Date.
  rewrite (Z.div_small (m - 1)), (Z.mod_small (m - 1)), Z.add_0_r by lia.
  replace (m - 1 + 1) with m by lia. lia.
Qed.

Lemma day_number_shift y m d k : day_number y m (d + k) = day_number y m d + k.
Proof. unfold day_number. lia. Qed.

(** Adding days moves an instant by whole days. *)
Lemma AddDate_days t k : AddDate t 0 0 k = t + k * day_ns.
Proof.
  destruct (time_fields t) as [[Hm Hd] Ht]. unfold AddDate.
  rewrite !Z.add_0_r, Date_in_range, day_number_shift by done.
  lia.
Qed.

Lemma div12 y m : (12 * y + (m - 1)) / 12 = y + (m - 1) / 12.
Proof. lia_div. Qed.
Lemma mod12 y m : (12 * y + (m - 1)) mod 12 = (m - 1) mod 12.
Proof. lia_div. Qed.
Lemma mod12_bounds mi : 1 ≤ mi mod 12 + 1 ≤ 12.
Proof. lia_div. Qed.
Lemma div_mod12 mi : 12 * (mi / 12) + (mi mod 12 + 1 - 1) = mi.
Proof. lia_div. Qed.

(** Months are numbered consecutively from year 0; [month_start] is the day
    number of the first of a month. *)
Definition month_index (t : Time) : Z := 12 * Year t + (Month t - 1).
Definition month_start (mi : Z) : Z := day_number (mi / 12) (mi mod 12 + 1) 1.
Definition days_in (mi : Z) : Z := month_length (is_leap (mi / 12)) (mi mod 12 + 1).

Lemma days_in_bounds mi : 28 ≤ days_in mi ≤ 31.
Proof. apply month_length_bounds. Qed.

Lemma month_start_step mi : month_start (mi + 1) = month_start mi + days_in mi.
Proof.
  unfold month_start, days_in, day_number.
  destruct (decide (mi mod 12 = 11)) as [H|H].
  - assert ((mi + 1) / 12 = mi / 12 + 1) as -> by lia_div.
    assert ((mi + 1) mod 12 = 0) as -> by lia_div. rewrite H, days_before_year_step.
    pose proof (days_before_month_12 (is_leap (mi / 12))). unfold year_length.
    change (0 + 1) with 1. change (11 + 1) with 12. simpl (days_before_month _ 1). lia.
  - assert ((mi + 1) / 12 = mi / 12) as -> by lia_div.
    assert ((mi + 1) mod 12 = mi mod 12 + 1) as -> by lia_div.
    rewrite days_before_month_step by lia_div. lia.
Qed.

Lemma month_start_mono_step mi (k : nat) :
  month_start mi + 28 * Z.of_nat k ≤ month_start (mi + Z.of_nat k).
Proof.
  induction k as [|k IH]; [replace (mi + Z.of_nat 0) with mi; lia|].
  replace (mi + Z.of_nat (S k)) with (mi + Z.of_nat k + 1) by lia.
  rewrite month_start_step. pose proof (days_in_bounds (mi + Z.of_nat k)). lia.
Qed.

Lemma month_start_lt mi mi' :
  mi < mi' → month_start mi + days_in mi ≤ month_start mi'.
Proof.
  intros H. rewrite <- month_start_step.
  pose proof (month_start_mono_step (mi + 1) (Z.to_nat (mi' - (mi + 1)))).
  replace (mi + 1 + Z.of_nat (Z.to_nat (mi' - (mi + 1)))) with mi' in * by lia. lia.
Qed.

Lemma month_start_le mi mi' : mi ≤ mi' → month_start mi ≤ month_start mi'.
Proof.
  intros H. apply Zle_lt_or_eq in H as [H| ->]; [|done].
  apply month_start_lt in H. pose proof (days_in_bounds mi). lia.
Qed.

(** [Date] with any month: only the month's index matters. *)
Lemma Date_month_start y m d hh mm ss ns :
  Date y m d hh mm ss ns =
  (month_start (12 * y + (m - 1)) + (d - 1)) * day_ns
  + (hh * Hour + mm * Minute + ss * Second + ns).
Proof.
  unfold Date, month_start.
  rewrite div12, mod12.
  unfold day_number. lia.
Qed.

Lemma time_month t :
  t = (month_start (month_index t) + (Day t - 1)) * day_ns + time_of_day t
  ∧ 1 ≤ Day t ≤ days_in (month_index t).
Proof.
  destruct (time_fields t) as [[Hm Hd] Ht]. unfold month_index, month_start, days_in.
  rewrite div12, mod12, (Z.div_small (Month t - 1)), (Z.mod_small (Month t - 1)), Z.add_0_r by lia.
  replace (Month t - 1 + 1) with (Month t) by lia. split; [|done].
  unfold day_number in *. lia.
Qed.

Lemma fields_of_month mi d tod :
  1 ≤ d ≤ days_in mi → 0 ≤ tod < day_ns →
  let t := (month_start mi + (d - 1)) * day_ns + tod in
  month_index t = mi ∧ Day t = d ∧ time_of_day t = tod
  ∧ Year t = mi / 12 ∧ Month t = mi mod 12 + 1.
Proof.
  intros Hd Htod t.
  assert (valid_date (mi / 12) (mi mod 12 + 1) d) as Hv.
  { split; [apply mod12_bounds|done]. }
  destruct (fields_of_day_number _ _ _ tod Hv Htod) as (Hy & Hm & Hday & Hclock).
  assert (t = day_number (mi / 12) (mi mod 12 + 1) d * day_ns + tod) as ->.
  { subst t. unfold month_start, day_number. lia. }
  unfold month_index. rewrite Hy, Hm. split_and!; [apply div_mod12|done..].
Qed.

Lemma month_index_mono t u : t ≤ u → month_index t ≤ month_index u.
Proof.
  intros Htu. destruct (time_month t) as [Ht Hdt], (time_month u) as [Hu Hdu].
  pose proof (time_of_day_bounds t). pose proof (time_of_day_bounds u).
  destruct (Z.le_gt_cases (month_index t) (month_index u)) as [|Hlt]; [done|].
  apply month_start_lt in Hlt.
  assert (month_start (month_index u) + (Day u - 1) < month_start (month_index t) + (Day t - 1)) by lia.
  exfalso. rewrite Ht, Hu in Htu. pose proof day_ns_pos. nia.
Qed.

(** [TimeAdd] of a duration, and instants of the day. *)
Definition Midnight (t : Time) : Time := t / day_ns * day_ns.

Lemma Midnight_spec t : Midnight t ≤ t < Midnight t + day_ns.
Proof. unfold Midnight. pose proof day_ns_pos. lia_div. Qed.

Lemma Date_midnight t : Date (Year t) (Month t) (Day t) 0 0 0 0 = Midnight t.
Proof.
  destruct (time_fields t) as [[Hm Hd] Ht]. rewrite Date_in_range by done.
  assert (t / day_ns = day_number (Year t) (Month t) (Day t)) as Hdiv.
  { pose proof (time_of_day_bounds t). symmetry.
    apply (Z.div_unique _ _ _ (time_of_day t)); [lia|]. lia. }
  unfold Midnight. rewrite Hdiv. lia.
Qed.

Lemma Midnight_div t : Midnight t / day_ns = t / day_ns.
Proof. unfold Midnight. apply Z.div_mul. by vm_compute. Qed.

Lemma month_start_fields mi :
  let t := month_start mi * day_ns in
  month_index t = mi ∧ Year t = mi / 12 ∧ Month t = mi mod 12 + 1 ∧ Day t = 1
  ∧ time_of_day t = 0.
Proof.
  pose proof (days_in_bounds mi).
  destruct (fields_of_month mi 1 0) as (? & ? & ? & ? & ?); [lia|by vm_compute|].
  rewrite Z.sub_diag, !Z.add_0_r in *. done.
Qed.

(** Adding months to the first midnight of a month. *)
Lemma AddDate_month_start mi years months :
  AddDate (month_start mi * day_ns) years months 0
  = month_start (mi + 12 * years + months) * day_ns.
Proof.
  destruct (month_start_fields mi) as (_ & Hy & Hm & Hd & Htod). unfold AddDate.
  rewrite Hy, Hm, Hd, Htod, Date_month_start.
  replace (12 * (mi / 12 + years) + (mi mod 12 + 1 + months - 1))
    with (mi + 12 * years + months) by (pose proof (div_mod12 mi); lia).
  lia.
Qed.

Lemma month_index_div t : month_index t / 12 = Year t.
Proof.
  destruct (time_fields t) as [[Hm _] _]. unfold month_index.
  rewrite div12, Z.div_small by lia. lia.
Qed.

(** The month that an instant between two month starts falls in. *)
Lemma month_index_between mi mi' t :
  month_start mi * day_ns ≤ t < month_start mi' * day_ns → mi ≤ month_index t < mi'.
Proof.
  intros [Hlo Hhi]. split.
  - apply month_index_mono in Hlo. by rewrite (proj1 (month_start_fields mi)) in Hlo.
  - destruct (Z.lt_ge_cases (month_index t) mi') as [|Hge]; [done|]. exfalso.
    destruct (time_month t) as [Ht Hd]. pose proof (time_of_day_bounds t).
    apply month_start_le in Hge.
    pose proof day_ns_pos. nia.
Qed.

Lemma month_bucket t :
  month_start (month_index t) * day_ns ≤ t < month_start (month_index t + 1) * day_ns.
Proof.
  destruct (time_month t) as [Ht Hd]. pose proof (time_of_day_bounds t).
  rewrite month_start_step. pose proof day_ns_pos. split; nia.
Qed.
