(* ===== verification/GoStrings.v ===== *)
(** * The part of Go's [strings] and [strconv] the program uses

    A Go string is a byte string.  [TrimSpace] follows the UTF-8 encodings of
    every Unicode white-space character; the case maps are exact on ASCII and
    delegate to the runtime's Unicode tables on any other string, as the
    library does. *)

From stdpp Require Export pretty.
From Stdlib Require Import Ascii.
From S2P Require Export Prelude GoTime.
#[global] Open Scope Z_scope.

Abbreviation bytes := (list ascii).

Definition byte_of (c : ascii) : N := N_of_ascii c.

(** The ASCII white-space bytes, then the two- and three-byte UTF-8 encodings
    of the others: U+0085, U+00A0, U+1680, U+2000 to U+200A, U+2028, U+2029,
    U+202F, U+205F, U+3000. *)
Definition space1 (c : ascii) : bool :=
  let n := byte_of c in ((9 <=? n) && (n <=? 13) || (n =? 32))%N.
Definition space2 (c1 c2 : ascii) : bool :=
  ((byte_of c1 =? 0xC2) && ((byte_of c2 =? 0x85) || (byte_of c2 =? 0xA0)))%N.
Definition space3 (c1 c2 c3 : ascii) : bool :=
  let n1 := byte_of c1 in let n2 := byte_of c2 in let n3 := byte_of c3 in
  ((n1 =? 0xE1) && (n2 =? 0x9A) && (n3 =? 0x80)
   || (n1 =? 0xE2) && (n2 =? 0x80)
      && ((0x80 <=? n3) && (n3 <=? 0x8A) || (n3 =? 0xA8) || (n3 =? 0xA9) || (n3 =? 0xAF))
   || (n1 =? 0xE2) && (n2 =? 0x81) && (n3 =? 0x9F)
   || (n1 =? 0xE3) && (n2 =? 0x80) && (n3 =? 0x80))%N.

(** Drops white space from the front; [fwd] says whether the bytes are in
    string order or reversed. *)
Fixpoint trim_front (fwd : bool) (l : bytes) : bytes :=
  match l with
  | c1 :: l1 =>
      if space1 c1 then trim_front fwd l1 else
      match l1 with
      | c2 :: l2 =>
          if (if fwd then space2 c1 c2 else space2 c2 c1) then trim_front fwd l2 else
          match l2 with
          | c3 :: l3 =>
              if (if fwd then space3 c1 c2 c3 else space3 c3 c2 c1)
              then trim_front fwd l3 else l
          | [] => l
          end
      | [] => l
      end
  | [] => []
  end.

Definition TrimSpace (s : string) : string :=
  String.string_of_list_ascii (rev (trim_front false (rev (trim_front true (String.list_ascii_of_string s))))).

(** [strings.TrimRight(s, "/")]. *)
Fixpoint drop_slashes (l : bytes) : bytes :=
  match l with
  | c :: l' => if (byte_of c =? 47)%N then drop_slashes l' else l
  | [] => []
  end.
Definition TrimRightSlash (s : string) : string :=
  String.string_of_list_ascii (rev (drop_slashes (rev (String.list_ascii_of_string s)))).

Definition is_ascii (s : string) : bool :=
  forallb (λ c, byte_of c <? 128)%N (String.list_ascii_of_string s).

Definition upper_byte (c : ascii) : ascii :=
  let n := byte_of c in if ((97 <=? n) && (n <=? 122))%N then ascii_of_N (n - 32) else c.
Definition lower_byte (c : ascii) : ascii :=
  let n := byte_of c in if ((65 <=? n) && (n <=? 90))%N then ascii_of_N (n + 32) else c.

Definition map_bytes (f : ascii → ascii) (s : string) : string :=
  String.string_of_list_ascii (map f (String.list_ascii_of_string s)).

Definition ToUpper `{GoRuntime} (s : string) : string :=
  if is_ascii s then map_bytes upper_byte s else unicode_to_upper s.
Definition ToLower `{GoRuntime} (s : string) : string :=
  if is_ascii s then map_bytes lower_byte s else unicode_to_lower s.

(** [strings.Contains(s, sub)]. *)
Fixpoint Contains (s sub : string) : bool :=
  String.prefix sub s ||
  match s with
  | EmptyString => false
  | String _ s' => Contains s' sub
  end.

(** [len(s)] counts bytes. *)
Definition len (s : string) : Z := Z.of_nat (String.length s).

(** [strings.Split] at a character. *)
Fixpoint split_at (c : ascii) (l : bytes) : list bytes :=
  match l with
  | [] => [[]]
  | x :: l =>
      match split_at c l with
      | piece :: pieces => if Ascii.eqb x c then [] :: piece :: pieces else (x :: piece) :: pieces
      | [] => [[x]]
      end
  end.

Definition Split (c : ascii) (s : string) : list string :=
  map String.string_of_list_ascii (split_at c (String.list_ascii_of_string s)).

(** [strconv.Itoa] and [strconv.FormatInt(n, 10)]. *)
Definition Itoa (n : Z) : string := pretty n.
Definition FormatBool (b : bool) : string := if b then "true" else "false".

#[local] Open Scope Z_scope.

(** [Format(time.RFC3339)] and [Format(time.DateOnly)] of a UTC time. *)
Definition two_digits (n : Z) : string := if n <? 10 then "0" +:+ Itoa n else Itoa n.
Definition four_digits (n : Z) : string :=
  if n <? 0 then "-" +:+ (if -n <? 10 then "00" else if -n <? 100 then "0" else "") +:+ two_digits (-n)
  else (if n <? 100 then "00" else if n <? 1000 then "0" else "") +:+ two_digits n.
Definition FormatDate (t : Time) : string :=
  four_digits (Year t) +:+ "-" +:+ two_digits (Month t) +:+ "-" +:+ two_digits (Day t).
Definition FormatRFC3339 (t : Time) : string :=
  FormatDate t +:+ "T" +:+ two_digits (clock_hour t) +:+ ":" +:+ two_digits (clock_minute t)
    +:+ ":" +:+ two_digits (clock_second t) +:+ "Z".

(** [Time.String] of a UTC time: the fraction without its trailing zeros. *)
Fixpoint fraction (digits : nat) (n : Z) : string :=
  match digits with
  | O => ""
  | S digits =>
      let p := 10 ^ Z.of_nat digits in
      if n =? 0 then "" else Itoa (n / p) +:+ fraction digits (n mod p)
  end.
Definition TimeString (t : Time) : string :=
  let ns := time_of_day t mod Second in
  FormatDate t +:+ " " +:+ two_digits (clock_hour t) +:+ ":" +:+ two_digits (clock_minute t)
    +:+ ":" +:+ two_digits (clock_second t)
    +:+ (if ns =? 0 then "" else "." +:+ fraction 9 ns) +:+ " +0000 UTC".

(** [%q] of a text without characters to escape. *)
Definition quoted (s : string) : string :=
  let q := String (ascii_of_nat 34) "" in q +:+ s +:+ q.

Example TimeString_ex :
  TimeString (Date 2026 8 1 9 5 0 120000000) = "2026-08-01 09:05:00.12 +0000 UTC".
Proof. vm_compute. reflexivity. Qed.

Example TrimSpace_ex : TrimSpace "	 a b  " = "a b". Proof. reflexivity. Qed.
Example Itoa_ex : Itoa (-42) = "-42". Proof. reflexivity. Qed.
Example Contains_ex : Contains "abcd" "bc" = true ∧ Contains "abcd" "bd" = false.
Proof. done. Qed.

(** ** Lemmas *)

(** [no_lead fwd l]: [l] does not start with white space. *)
Definition no_lead (fwd : bool) (l : bytes) : Prop := trim_front fwd l = l.

Lemma trim_front_spec fwd l :
  no_lead fwd (trim_front fwd l) ∧ ∃ p, l = p ++ trim_front fwd l.
Proof.
  assert (∀ n l, (length l ≤ n)%nat →
    no_lead fwd (trim_front fwd l) ∧ ∃ p, l = p ++ trim_front fwd l) as H; [|by eapply H].
  clear l. unfold no_lead. induction n as [|n IH].
  { intros [|c l]; simpl; [split; [done|by exists []]|lia]. }
  intros [|c1 l1] Hl; [split; [done|by exists []]|].
  assert (∀ q l', c1 :: l1 = q ++ l' → (length l' ≤ n)%nat →
    trim_front fwd (c1 :: l1) = trim_front fwd l' →
    trim_front fwd (trim_front fwd (c1 :: l1)) = trim_front fwd (c1 :: l1) ∧
    ∃ p, c1 :: l1 = p ++ trim_front fwd (c1 :: l1)) as Hstep.
  { intros q l' Hq Hlen ->. destruct (IH l' Hlen) as [Hi [p Hp]]. split; [done|].
    exists (q ++ p). by rewrite <- app_assoc, <- Hp. }
  simpl in Hl. destruct (space1 c1) eqn:E1.
  { apply (Hstep [c1] l1); [done|lia|]. cbn [trim_front]. by rewrite E1. }
  destruct l1 as [|c2 l2].
  { cbn [trim_front]. rewrite E1. cbn [trim_front]. rewrite E1. split; [done|by exists []]. }
  destruct (if fwd then space2 c1 c2 else space2 c2 c1) eqn:E2.
  { apply (Hstep [c1; c2] l2); [done|simpl in *; lia|]. cbn [trim_front]. by rewrite E1, E2. }
  destruct l2 as [|c3 l3].
  { cbn [trim_front]. rewrite E1, E2. cbn [trim_front]. rewrite E1, E2.
    split; [done|by exists []]. }
  destruct (if fwd then space3 c1 c2 c3 else space3 c3 c2 c1) eqn:E3.
  { apply (Hstep [c1; c2; c3] l3); [done|simpl in *; lia|].
    cbn [trim_front]. by rewrite E1, E2, E3. }
  cbn [trim_front]. rewrite E1, E2, E3. cbn [trim_front]. rewrite E1, E2, E3.
  split; [done|by exists []].
Qed.

(** Whether the first character is white space. *)
Definition lead (fwd : bool) (l : bytes) : bool :=
  match l with
  | c1 :: l1 =>
      space1 c1 ||
      match l1 with
      | c2 :: l2 =>
          (if fwd then space2 c1 c2 else space2 c2 c1) ||
          match l2 with
          | c3 :: _ => if fwd then space3 c1 c2 c3 else space3 c3 c2 c1
          | [] => false
          end
      | [] => false
      end
  | [] => false
  end.

Lemma no_lead_lead fwd l : no_lead fwd l ↔ lead fwd l = false.
Proof.
  assert (∀ q x, q ++ x = trim_front fwd x → q ≠ [] → False) as Hlen.
  { intros q x Hq Hne. destruct (trim_front_spec fwd x) as [_ [p Hp]].
    rewrite <- Hq, app_assoc in Hp. apply (f_equal length) in Hp.
    rewrite !length_app in Hp. destruct q; [done|simpl in Hp; lia]. }
  unfold no_lead.
  destruct l as [|c1 l1]; [done|]. cbn [trim_front lead].
  destruct (space1 c1); simpl.
  { split; [|done]. intros H. exfalso. by apply (Hlen [c1] l1). }
  destruct l1 as [|c2 l2]; [done|].
  destruct (if fwd then space2 c1 c2 else space2 c2 c1); simpl.
  { split; [|done]. intros H. exfalso. by apply (Hlen [c1; c2] l2). }
  destruct l2 as [|c3 l3]; [done|].
  destruct (if fwd then space3 c1 c2 c3 else space3 c3 c2 c1); [|done].
  split; [|done]. intros H. exfalso. by apply (Hlen [c1; c2; c3] l3).
Qed.

(** Cutting off the end of a list adds no white space to its front. *)
Lemma no_lead_prefix fwd l l' : no_lead fwd (l ++ l') → no_lead fwd l.
Proof.
  rewrite !no_lead_lead. destruct l as [|c1 [|c2 [|c3 l]]]; [done|..]; simpl;
    rewrite ?orb_false_iff; naive_solver.
Qed.

Lemma TrimSpace_idemp s : TrimSpace (TrimSpace s) = TrimSpace s.
Proof.
  unfold TrimSpace. rewrite String.list_ascii_of_string_of_list_ascii.
  set (l := String.list_ascii_of_string s).
  destruct (trim_front_spec true l) as [Hf [p Hp]].
  set (u := trim_front true l) in *.
  destruct (trim_front_spec false (rev u)) as [Hb [q Hq]].
  set (v := trim_front false (rev u)) in *.
  assert (u = rev v ++ rev q) as Hu.
  { rewrite <- rev_app_distr, <- Hq. symmetry. apply rev_involutive. }
  assert (no_lead true (rev v)) as Hv.
  { apply (no_lead_prefix _ _ (rev q)). unfold no_lead. rewrite <- Hu. apply Hf. }
  rewrite Hv, rev_involutive, Hb. done.
Qed.

(** ** Separators *)

(** The text has no occurrence of the character. *)
Fixpoint no_char (c : Ascii.ascii) (s : string) : bool :=
  match s with
  | EmptyString => true
  | String x s => negb (Ascii.eqb x c) && no_char c s
  end.

Lemma no_char_cons c x s : no_char c (String x s) = negb (Ascii.eqb x c) && no_char c s.
Proof. done. Qed.

Lemma no_char_app c s t : no_char c (s +:+ t) = no_char c s && no_char c t.
Proof.
induction s as [|x s IH]; [done|]. change (String x s +:+ t) with (String x (s +:+ t)).
by rewrite !no_char_cons, IH, andb_assoc.
Qed.

Lemma no_char_sep c s : no_char c (String c s) = false.
Proof. by rewrite no_char_cons, Ascii.eqb_refl. Qed.

(** The last separator splits uniquely, and so does the first. *)
Lemma split_last_char c a b d e : no_char c d = true → no_char c e = true →
  a +:+ String c d = b +:+ String c e → a = b ∧ d = e.
Proof.
revert b. induction a as [|x a IH]; intros [|y b] Hd He Heq.
- injection Heq as Heq. by split.
- injection Heq as _ Heq. change (d = b +:+ String c e) in Heq.
  by rewrite Heq, no_char_app, no_char_sep, andb_false_r in Hd.
- injection Heq as _ Heq. change (a +:+ String c d = e) in Heq.
  by rewrite <- Heq, no_char_app, no_char_sep, andb_false_r in He.
- injection Heq as -> Heq. change (a +:+ String c d = b +:+ String c e) in Heq.
  by destruct (IH b Hd He Heq) as [-> ->].
Qed.

Lemma split_first_char c a b d e : no_char c a = true → no_char c b = true →
  a +:+ String c d = b +:+ String c e → a = b ∧ d = e.
Proof.
revert b. induction a as [|x a IH]; intros [|y b] Ha Hb Heq.
- injection Heq as Heq. by split.
- injection Heq as <- _. by rewrite no_char_sep in Hb.
- injection Heq as -> _. by rewrite no_char_sep in Ha.
- injection Heq as -> Heq. rewrite no_char_cons in *. apply andb_true_iff in Ha as [_ Ha], Hb as [_ Hb].
  change (a +:+ String c d = b +:+ String c e) in Heq. by destruct (IH b Ha Hb Heq) as [-> ->].
Qed.

Lemma split_at_nonempty c l : split_at c l ≠ [].
Proof. destruct l as [|x l]; cbn; [done|]. by destruct (split_at c l), (Ascii.eqb x c). Qed.

(** The text up to a separator is a piece of its own. *)
Lemma split_at_app c p l : Forall (λ x, x ≠ c) p → split_at c (p ++ c :: l) = p :: split_at c l.
Proof.
induction 1 as [|x p Hx Hp IH]; cbn.
- destruct (split_at c l) eqn:Hl; [by apply split_at_nonempty in Hl|]. by rewrite Ascii.eqb_refl.
- rewrite IH. destruct (Ascii.eqb_spec x c); [done|]. done.
Qed.
Lemma split_at_whole c p : Forall (λ x, x ≠ c) p → split_at c p = [p].
Proof. induction 1 as [|x p Hx Hp IH]; [done|]. cbn. rewrite IH. by destruct (Ascii.eqb_spec x c). Qed.

Lemma no_char_Forall c s : no_char c s = true → Forall (λ x, x ≠ c) (String.list_ascii_of_string s).
Proof.
induction s as [|x s IH]; cbn; [constructor|]. intros [Hx Hs]%andb_true_iff. constructor; [|by apply IH].
by destruct (Ascii.eqb_spec x c).
Qed.

Lemma list_ascii_app s t : String.list_ascii_of_string (s +:+ t) = String.list_ascii_of_string s ++ String.list_ascii_of_string t.
Proof. induction s as [|x s IH]; [done|]. exact (f_equal (cons x) IH). Qed.

(** The pieces of a joined text are what was joined. *)
Lemma Split_concat c l : Forall (λ s, no_char c s = true) l → l ≠ [] → Split c (String.concat (String c "") l) = l.
Proof.
unfold Split. induction 1 as [|s l Hs Hl IH]; [done|]. intros _. apply no_char_Forall in Hs.
destruct l as [|s' l].
- cbn. rewrite split_at_whole by done. cbn. by rewrite String.string_of_list_ascii_of_string.
- assert (String.concat (String c "") (s :: s' :: l) = s +:+ String c (String.concat (String c "") (s' :: l))) as -> by done.
  rewrite list_ascii_app. cbn [String.list_ascii_of_string]. rewrite split_at_app by done. cbn [map].
  by rewrite IH, String.string_of_list_ascii_of_string.
Qed.

Lemma pretty_N_go_no_char c n s : (∀ m, pretty_N_char m ≠ c) → no_char c s = true → no_char c (pretty_N_go n s) = true.
Proof.
intros Hc. revert s. induction (N.lt_wf_0 n) as [n _ IH]. intros s Hs. destruct (decide (n = 0)%N) as [->|Hn].
- by rewrite pretty_N_go_0.
- rewrite pretty_N_go_step by lia. apply IH; [apply N.div_lt; lia|].
  rewrite no_char_cons, Hs, andb_true_r, negb_true_iff. apply Ascii.eqb_neq, Hc.
Qed.

(** Decimal numerals have only digits and a minus sign. *)
Lemma Itoa_no_char c n : (∀ m, pretty_N_char m ≠ c) → c ≠ "-"%char → c ≠ "0"%char → no_char c (Itoa n) = true.
Proof.
intros Hc Hminus Hzero. unfold Itoa, pretty, pretty_Z. assert (∀ m : N, no_char c (pretty m) = true) as Hp.
{ intros m. unfold pretty, pretty_N. case_decide; [|by apply pretty_N_go_no_char].
  rewrite no_char_cons, andb_true_r, negb_true_iff. by apply Ascii.eqb_neq. }
destruct n; [|apply Hp|].
- rewrite no_char_cons, andb_true_r, negb_true_iff. by apply Ascii.eqb_neq.
- rewrite no_char_app. apply andb_true_iff. split; [|apply Hp].
  rewrite no_char_cons, andb_true_r, negb_true_iff. by apply Ascii.eqb_neq.
Qed.

(** * Orders and sorted lists

    The order of strings and what a sorted list of distinct elements is, for the
    components that sort. *)

(** ** The order of strings *)

Lemma string_less_cons a s b t : string_less (String a s) (String b t) =
  if (N_of_ascii a <? N_of_ascii b)%N then true else if (N_of_ascii b <? N_of_ascii a)%N then false else string_less s t.
Proof.
unfold string_less, String.ltb. cbn. unfold Ascii.compare. rewrite (N.compare_antisym (N_of_ascii b)).
unfold N.ltb at 1 2. rewrite (N.compare_antisym (N_of_ascii b) (N_of_ascii a)).
destruct (N_of_ascii b ?= N_of_ascii a)%N; done.
Qed.

Lemma string_less_strict : strict_weak string_less.
Proof.
split; [|split].
- intros s. induction s as [|a s IH]; [done|]. rewrite string_less_cons. by rewrite N.ltb_irrefl.
- intros x. induction x as [|a x IH]; intros [|b y] [|c z]; try done. rewrite !string_less_cons.
  destruct (N.ltb_spec (N_of_ascii a) (N_of_ascii b)), (N.ltb_spec (N_of_ascii b) (N_of_ascii a)),
    (N.ltb_spec (N_of_ascii b) (N_of_ascii c)), (N.ltb_spec (N_of_ascii c) (N_of_ascii b)),
    (N.ltb_spec (N_of_ascii a) (N_of_ascii c)), (N.ltb_spec (N_of_ascii c) (N_of_ascii a)); try done; try lia. apply IH.
- intros x. induction x as [|a x IH]; intros [|b y] [|c z]; try done. rewrite !string_less_cons.
  destruct (N.ltb_spec (N_of_ascii a) (N_of_ascii b)), (N.ltb_spec (N_of_ascii b) (N_of_ascii a)),
    (N.ltb_spec (N_of_ascii b) (N_of_ascii c)), (N.ltb_spec (N_of_ascii c) (N_of_ascii b)),
    (N.ltb_spec (N_of_ascii a) (N_of_ascii c)), (N.ltb_spec (N_of_ascii c) (N_of_ascii a)); try done; try lia. apply IH.
Qed.

(** ** Sorted lists of distinct elements *)

(** Two sorted lists of the same elements are one list when the order tells the elements
    apart, whatever order each was sorted for elsewhere. *)
Lemma sorted_perm_eq {A} (less1 less2 : A → A → bool) l1 : ∀ l2, l1 ≡ₚ l2 → sorted_by less1 l1 → sorted_by less2 l2 →
  (∀ x y, x ∈ l1 → y ∈ l1 → less1 x y = less2 x y) →
  (∀ x y, x ∈ l1 → y ∈ l1 → less1 x y = false → less1 y x = false → x = y) → l1 = l2.
Proof.
induction l1 as [|x l1 IH]; intros l2 Hp Hs1 Hs2 Hag Htot; [by apply Permutation_nil in Hp as ->|].
destruct l2 as [|y l2]; [by symmetry in Hp; apply Permutation_nil in Hp|].
apply StronglySorted_inv in Hs1 as [Hs1 Hx]. apply StronglySorted_inv in Hs2 as [Hs2 Hy]. rewrite Forall_forall in Hx, Hy.
assert (y ∈ x :: l1) as Hyin by (rewrite Hp; by left). assert (x ∈ y :: l2) as Hxin by (rewrite <- Hp; by left).
assert (x = y) as <-.
{ apply elem_of_cons in Hxin as [->|Hxin]; [done|]. pose proof Hyin as Hyin'. apply elem_of_cons in Hyin' as [->|Hyin']; [done|].
  apply Htot; [by left|done| |by apply Hx]. rewrite Hag by (done || by left). by apply Hy. }
f_equal. apply IH; [by apply Permutation_cons_inv in Hp|done|done| |].
- intros a b Ha Hb. apply Hag; by right.
- intros a b Ha Hb. apply Htot; by right.
Qed.

Lemma omap_nodup {A B} (f : A → option B) l : NoDup l →
  (∀ x y b, x ∈ l → y ∈ l → f x = Some b → f y = Some b → x = y) → NoDup (omap f l).
Proof.
induction l as [|x l IH]; intros Hnd Hinj; [constructor|]. apply NoDup_cons in Hnd as [Hx Hnd]. cbn.
assert (NoDup (omap f l)) as Hl by (apply IH; [done|]; intros a b c Ha Hb; apply Hinj; by right).
destruct (f x) as [b|] eqn:Hf; [|done]. apply NoDup_cons. split; [|done]. intros (y & Hy & Hfy)%list_elem_of_omap.
rewrite (Hinj x y b) in Hx; [done|by left|by right|done|done].
Qed.
