(* ===== verification/GoFloat.v ===== *)
(** * Go's [float64]

    IEEE 754 binary64, round to nearest even, over the standard library's
    executable specification of floating point. *)

From S2P Require Export Prelude.
From Stdlib Require Export SpecFloat.
#[local] Open Scope Z_scope.

(** A [float64] by its IEEE value. *)
Abbreviation float64 := spec_float.

Definition f64_of (n : Z) : float64 := binary_normalize 53 1024 n 0 false.
Definition f64_mul : float64 → float64 → float64 := SFmul 53 1024.
Definition f64_div : float64 → float64 → float64 := SFdiv 53 1024.
Definition f64_add : float64 → float64 → float64 := SFadd 53 1024.

(** [int(f)]: truncation, for a value an [int] can hold. *)
Definition int_of (f : float64) : Z :=
  match f with
  | S754_finite s m e =>
      let a := if 0 <=? e then Z.pos m * 2 ^ e else Z.pos m / 2 ^ (- e) in
      if s then - a else a
  | _ => 0
  end.
Definition f64_zero : float64 := S754_zero false.

(** [x <= y]: false as soon as one of them is not a number. *)
Definition f64_leb : float64 → float64 → bool := SFleb.

Example f64_arithmetic : f64_add (f64_of 1) (f64_div (f64_of 1) (f64_of 2)) = f64_div (f64_of 3) (f64_of 2) ∧
  int_of (f64_div (f64_of (-7)) (f64_of 2)) = -3.
Proof. split; vm_compute; reflexivity. Qed.
