(* ===== verification/TimeText.v ===== *)
(** * RFC 3339 timestamps ([time.Parse] and [time.Format] of Go's time package)

    The texts of instants the program reads from a request, from a model's answer
    and from a stored document: [time.Parse(time.RFC3339, _)], which [UnmarshalJSON]
    accepts too, takes more than RFC 3339 allows, an hour of one digit, a comma
    before the fraction and a zone of 24 hours or 60 minutes. *)

From S2P Require Export Prelude.
From S2P Require Export GoTime.
From S2P Require Export GoStrings.
From Stdlib Require Import Ascii.
#[local] Open Scope Z_scope.

Definition digit (c : ascii) : option Z :=
  let n := Z.of_N (byte_of c) - 48 in if (0 <=? n) && (n <=? 9) then Some n else None.

(** Exactly [n] digits. *)
Fixpoint digits (n : nat) (acc : Z) (l : bytes) : option (Z * bytes) :=
  match n, l with
  | O, _ => Some (acc, l)
  | S n, c :: l => d ← digit c; digits n (10 * acc + d) l
  | S _, [] => None
  end.

Definition skip (c : ascii) (l : bytes) : option bytes :=
  match l with c' :: l => if Ascii.eqb c c' then Some l else None | [] => None end.

Definition in_bounds (lo hi : Z) (r : option (Z * bytes)) : option (Z * bytes) :=
  '(n, l) ← r; if (lo <=? n) && (n <=? hi) then Some (n, l) else None.

Definition hour (l : bytes) : option (Z * bytes) :=
  match digits 2 0 l with
  | Some r => Some r
  | None => digits 1 0 l
  end.

(** The digits of a fraction, as nanoseconds: the ninth and later ones do not
    count. *)
Fixpoint nanoseconds (unit : Z) (l : bytes) : Z * bytes :=
  match l with
  | c :: l' =>
      match digit c with
      | Some d => let '(n, l'') := nanoseconds (unit / 10) l' in (d * unit + n, l'')
      | None => (0, l)
      end
  | [] => (0, [])
  end.

Definition fraction_part (l : bytes) : Z * bytes :=
  match l with
  | c :: d :: l' =>
      if (Ascii.eqb c "." || Ascii.eqb c ",") && bool_decide (is_Some (digit d))
      then nanoseconds (Second / 10) (d :: l') else (0, l)
  | _ => (0, l)
  end.

(** The zone: [Z], or a signed offset. *)
Definition zone (l : bytes) : option Duration :=
  match l with
  | [c] => if Ascii.eqb c "Z" then Some 0 else None
  | c :: l =>
      '(hh, l) ← in_bounds 0 24 (digits 2 0 l);
      l ← skip ":" l;
      '(mm, l) ← in_bounds 0 60 (digits 2 0 l);
      match l with
      | [] => if Ascii.eqb c "+" then Some (hh * Hour + mm * Minute)
              else if Ascii.eqb c "-" then Some (- (hh * Hour + mm * Minute)) else None
      | _ => None
      end
  | [] => None
  end.

Definition ParseRFC3339 (value : string) : option Time :=
  '(y, l) ← digits 4 0 (String.list_ascii_of_string value);
  l ← skip "-" l;
  '(m, l) ← in_bounds 1 12 (digits 2 0 l);
  l ← skip "-" l;
  '(d, l) ← in_bounds 1 (month_length (is_leap y) m) (digits 2 0 l);
  l ← skip "T" l;
  '(hh, l) ← in_bounds 0 23 (hour l);
  l ← skip ":" l;
  '(mm, l) ← in_bounds 0 59 (digits 2 0 l);
  l ← skip ":" l;
  '(ss, l) ← in_bounds 0 59 (digits 2 0 l);
  let '(ns, l) := fraction_part l in
  offset ← zone l;
  Some (Date y m d hh mm ss ns - offset).

(** [time.RFC3339Nano]: the fraction without its trailing zeros. *)
Definition FormatRFC3339Nano (t : Time) : string :=
  let ns := time_of_day t mod Second in
  FormatDate t +:+ "T" +:+ two_digits (clock_hour t) +:+ ":" +:+ two_digits (clock_minute t)
    +:+ ":" +:+ two_digits (clock_second t) +:+ (if ns =? 0 then "" else "." +:+ fraction 9 ns) +:+ "Z".

Example parses : ParseRFC3339 "2026-03-01T2:30:00,5+02:00" = Some (Date 2026 3 1 0 30 0 500000000) ∧
  ParseRFC3339 "2026-02-29T00:00:00Z" = None ∧ ParseRFC3339 "2026-03-01" = None.
Proof. split_and!; vm_compute; reflexivity. Qed.

(** ** What is written can be read *)

Definition range (n : nat) : list Z := map Z.of_nat (List.seq 0 n).
Lemma range_elem n k : 0 ≤ k < Z.of_nat n → k ∈ range n.
Proof.
intros Hk. unfold range. apply list_elem_of_In, in_map_iff. exists (Z.to_nat k). rewrite in_seq. lia.
Qed.

Definition as_digits (n : Z) (l : bytes) : option (list Z) := mapM digit l.

Lemma digits_app l : ∀ ds acc rest, mapM digit l = Some ds →
  digits (length l) acc (l ++ rest) = Some (foldl (λ a d, 10 * a + d) acc ds, rest).
Proof.
induction l as [|c l IH]; intros ds acc rest Hl; cbn in Hl.
- by injection Hl as <-.
- destruct (digit c) as [d|] eqn:Hd; [|done]. cbn in Hl. destruct (mapM digit l) as [ds'|] eqn:Hds; [|done].
  injection Hl as <-. cbn -[digit Z.mul]. rewrite Hd. by apply IH.
Qed.

Lemma length_ascii s : length (String.list_ascii_of_string s) = String.length s.
Proof. induction s as [|c s IH]; [done|]. exact (f_equal S IH). Qed.

(** A text of [k] digits that denotes [n]. *)
Definition denotes (k : nat) (n : Z) (s : string) : bool :=
  bool_decide (String.length s = k) &&
  match mapM digit (String.list_ascii_of_string s) with
  | Some ds => foldl (λ a d, 10 * a + d) 0 ds =? n
  | None => false
  end.

Lemma denotes_read k n s rest : denotes k n s = true →
  digits k 0 (String.list_ascii_of_string s ++ rest) = Some (n, rest).
Proof.
unfold denotes. intros [Hk%bool_decide_eq_true Hn]%andb_true_iff.
destruct (mapM _ _) as [ds|] eqn:Hds; [|done]. apply Z.eqb_eq in Hn as <-.
rewrite <- Hk, <- length_ascii. by apply digits_app.
Qed.

Lemma two_digits_denotes n : 0 ≤ n < 100 → denotes 2 n (two_digits n) = true.
Proof.
intros Hn. assert (forallb (λ n, denotes 2 n (two_digits n)) (range 100) = true) as Hall by (vm_compute; reflexivity).
rewrite forallb_forall in Hall. apply Hall, list_elem_of_In, range_elem. lia.
Qed.

Lemma four_digits_denotes n : 0 ≤ n < 10000 → denotes 4 n (four_digits n) = true.
Proof.
intros Hn. assert (forallb (λ n, denotes 4 n (four_digits n)) (range (Z.to_nat 10000)) = true) as Hall by (vm_compute; reflexivity).
rewrite forallb_forall in Hall. apply Hall, list_elem_of_In, range_elem. lia.
Qed.

Lemma one_digit n : 0 ≤ n < 10 → ∃ c, Itoa n = String c "" ∧ digit c = Some n.
Proof.
intros Hn. assert (forallb (λ n, match Itoa n with String c "" => bool_decide (digit c = Some n) | _ => false end)
  (range 10) = true) as Hall by (vm_compute; reflexivity).
rewrite forallb_forall in Hall. specialize (Hall n (proj1 (list_elem_of_In _ _) (range_elem 10 n ltac:(lia)))).
destruct (Itoa n) as [|c [|]]; try done. exists c. by apply bool_decide_eq_true in Hall.
Qed.

(** The digits of [n] in units of [10 ^ k], read with the unit [10 ^ k * scale]. *)
Lemma fraction_read k : ∀ n rest, 0 ≤ n < 10 ^ Z.of_nat k → (k ≤ 9)%nat →
  nanoseconds (10 ^ (Z.of_nat k - 1)) (String.list_ascii_of_string (fraction k n) ++ "Z"%char :: rest) =
  (n, "Z"%char :: rest).
Proof.
induction k as [|k IH]; intros n rest Hn Hk; [by assert (n = 0) as -> by lia|].
rewrite Nat2Z.inj_succ in Hn |- *. replace (Z.succ (Z.of_nat k) - 1) with (Z.of_nat k) by lia.
assert (0 < 10 ^ Z.of_nat k) as Hp by (apply Z.pow_pos_nonneg; lia).
rewrite Z.pow_succ_r in Hn by lia. cbn [fraction]. destruct (Z.eqb_spec n 0) as [->|Hne].
{ cbn -[Z.pow]. done. }
assert (0 ≤ n / 10 ^ Z.of_nat k < 10) as Hd by (split; [apply Z.div_pos; lia|apply Z.div_lt_upper_bound; lia]).
destruct (one_digit _ Hd) as (c & Hc & Hdc). rewrite Hc, list_ascii_app. cbn -[Z.pow digit Z.div Z.modulo fraction].
rewrite Hdc. specialize (IH (n mod 10 ^ Z.of_nat k) rest ltac:(apply Z.mod_pos_bound; lia) ltac:(lia)).
destruct k as [|k].
- cbn -[digit] in *. assert (n mod 1 = 0) as Hz by apply Z.mod_1_r. rewrite Z.div_1_r. f_equal. lia.
- replace (10 ^ Z.of_nat (S k) / 10) with (10 ^ (Z.of_nat (S k) - 1)).
  2: { rewrite Nat2Z.inj_succ, Z.pow_succ_r by lia. replace (Z.succ (Z.of_nat k) - 1) with (Z.of_nat k) by lia.
    rewrite (Z.mul_comm 10), Z.div_mul by lia. done. }
  rewrite IH. f_equal. pose proof (Z.div_mod n (10 ^ Z.of_nat (S k)) ltac:(lia)). lia.
Qed.

Lemma in_bounds_ok lo hi n l : lo ≤ n ≤ hi → in_bounds lo hi (Some (n, l)) = Some (n, l).
Proof.
intros Hn. unfold in_bounds. cbn. by rewrite (proj2 (Z.leb_le _ _)), (proj2 (Z.leb_le _ _)) by lia.
Qed.

Lemma clock_parts t :
  0 ≤ clock_hour t ≤ 23 ∧ 0 ≤ clock_minute t ≤ 59 ∧ 0 ≤ clock_second t ≤ 59 ∧ 0 ≤ time_of_day t mod Second < Second ∧
  time_of_day t = clock_hour t * Hour + clock_minute t * Minute + clock_second t * Second + time_of_day t mod Second.
Proof.
pose proof (time_of_day_bounds t) as Hb. unfold clock_hour, clock_minute, clock_second.
generalize dependent (time_of_day t). intros d. unfold day_ns, Hour, Minute, Second. lia_div.
Qed.

(** Past a separator, over the next two digits. *)
#[local] Ltac next_part H2 :=
  rewrite <- ?app_assoc; cbn [mbind option_bind app skip]; rewrite ?Ascii.eqb_refl;
  cbn [mbind option_bind app]; rewrite <- ?app_assoc; cbn [app]; rewrite H2, in_bounds_ok by lia.

(** Reading the text of an instant of the years 0 to 9999 whose fraction is
    written as [frac]. *)
Lemma parse_written t frac ns : 0 ≤ Year t ≤ 9999 →
  fraction_part (String.list_ascii_of_string frac ++ ["Z"%char]) = (ns, ["Z"%char]) →
  ParseRFC3339 (FormatDate t +:+ "T" +:+ two_digits (clock_hour t) +:+ ":" +:+ two_digits (clock_minute t)
    +:+ ":" +:+ two_digits (clock_second t) +:+ frac +:+ "Z") = Some (t - time_of_day t mod Second + ns).
Proof.
intros Hy Hfrac. destruct (time_fields t) as [[Hm Hd] Ht]. destruct (clock_parts t) as (Hh & Hmi & Hs & Hn & Hc).
pose proof (month_length_bounds (is_leap (Year t)) (Month t)) as Hl.
assert (∀ n rest, 0 ≤ n < 100 → digits 2 0 (String.list_ascii_of_string (two_digits n) ++ rest) = Some (n, rest)) as H2
  by (intros n rest Hlt; by apply denotes_read, two_digits_denotes).
assert (∀ rest, digits 4 0 (String.list_ascii_of_string (four_digits (Year t)) ++ rest) = Some (Year t, rest)) as H4
  by (intros rest; apply denotes_read, four_digits_denotes; lia).
unfold ParseRFC3339, FormatDate. rewrite !list_ascii_app. cbn [String.list_ascii_of_string app]. rewrite <- !app_assoc.
rewrite H4. cbn [mbind option_bind]. unfold hour. do 5 (next_part H2). cbn [mbind option_bind app].
rewrite Hfrac. cbn [mbind option_bind zone]. rewrite Ascii.eqb_refl. cbn [mbind option_bind].
f_equal. rewrite Date_in_range by done. lia.
Qed.

(** What [UnmarshalJSON] reads of what [MarshalJSON] wrote. *)
Lemma rfc3339nano_read t : 0 ≤ Year t ≤ 9999 → ParseRFC3339 (FormatRFC3339Nano t) = Some t.
Proof.
intros Hy. unfold FormatRFC3339Nano. cbv zeta. destruct (clock_parts t) as (_ & _ & _ & Hn & _).
set (ns := time_of_day t mod Second) in *.
rewrite (parse_written t (if ns =? 0 then "" else "." +:+ fraction 9 ns) ns Hy); [unfold ns; f_equal; lia|].
destruct (Z.eqb_spec ns 0) as [->|Hne]; [done|]. rewrite list_ascii_app. cbn [String.list_ascii_of_string app].
pose proof (fraction_read 9 ns [] ltac:(unfold Second in Hn; lia) ltac:(lia)) as Hf.
change (10 ^ (Z.of_nat 9 - 1)) with (Second / 10) in Hf.
assert (fraction 9 ns = Itoa (ns / 10 ^ 8) +:+ fraction 8 (ns mod 10 ^ 8)) as Hfr.
{ cbn [fraction]. by rewrite (proj2 (Z.eqb_neq _ _) Hne). }
destruct (one_digit (ns / 10 ^ 8)) as (c & Hc & Hd); [unfold Second in Hn; split; [apply Z.div_pos; lia|apply Z.div_lt_upper_bound; lia]|].
rewrite Hfr, Hc, list_ascii_app in *. cbn [String.list_ascii_of_string app] in *.
destruct (String.list_ascii_of_string (fraction 8 (ns mod 10 ^ 8)) ++ ["Z"%char]) as [|c2 l] eqn:Hl.
{ by destruct (String.list_ascii_of_string (fraction 8 (ns mod 10 ^ 8))). }
unfold fraction_part. rewrite Ascii.eqb_refl. cbn [orb andb].
rewrite bool_decide_eq_true_2 by by exists (ns / 10 ^ 8). exact Hf.
Qed.

(** And of the whole seconds of [Format(time.RFC3339)]. *)
Lemma rfc3339_read t : 0 ≤ Year t ≤ 9999 → ParseRFC3339 (FormatRFC3339 t) = Some (t - time_of_day t mod Second).
Proof.
intros Hy. unfold FormatRFC3339. rewrite <- (Z.add_0_r (_ - _)). by apply (parse_written t "" 0).
Qed.

(** A date with midnight behind it is the start of the day. *)
Lemma date_read t : 0 ≤ Year t ≤ 9999 → ParseRFC3339 (FormatDate t +:+ "T00:00:00Z") = Some (t - time_of_day t).
Proof.
intros Hy. destruct (time_fields t) as [Hv Ht]. pose proof day_ns_pos.
destruct (fields_of_day_number (Year t) (Month t) (Day t) 0 Hv ltac:(lia)) as (HY & HM & HD & Htod).
rewrite Z.add_0_r in *. set (d := day_number (Year t) (Month t) (Day t) * day_ns) in *.
pose proof (parse_written d "" 0 ltac:(by rewrite HY) eq_refl) as Hp.
assert (FormatDate d = FormatDate t) as Hd by (unfold FormatDate; by rewrite HY, HM, HD).
assert (two_digits (clock_hour d) = "00") as Hh by (unfold clock_hour; by rewrite Htod).
assert (two_digits (clock_minute d) = "00") as Hm by (unfold clock_minute; by rewrite Htod).
assert (two_digits (clock_second d) = "00") as Hs by (unfold clock_second; by rewrite Htod).
rewrite Hd, Hh, Hm, Hs, Htod in Hp. clear Hd Hh Hm Hs. generalize dependent (FormatDate t). intros date Hp.
etrans; [exact Hp|]. f_equal. rewrite Zmod_0_l. lia.
Qed.
