(* ===== verification/Domain.v ===== *)
(** * The domain data (src/internal/core/domain)

    One record per Go struct, with the struct's fields in the source's order
    under a prefix of its own; string-typed enumerations keep their wire
    strings, since the code compares and stores arbitrary values of them.  A
    [*time.Time] is an [option Time], a [*float64] an [option float64], a slice
    a list and a map a [gmap]. *)

From S2P Require Export Prelude GoTime GoStrings GoFloat.
#[global] Open Scope Z_scope.


(** ** Expenses (expense_record.go) *)

Abbreviation ExpenseStatus := string.
Definition ExpenseDraft : ExpenseStatus := "draft".
Definition ExpenseConfirmed : ExpenseStatus := "confirmed".
Definition ExpenseShared : ExpenseStatus := "shared".
Definition ExpenseReimbursed : ExpenseStatus := "reimbursed".

Record ExpenseItem := mkExpenseItem {
  it_Title : string; it_Quantity : string; it_AmountMinor : Z
}.
#[export] Instance eta_ExpenseItem : Eta ExpenseItem := λ r,
  mkExpenseItem (it_Title r) (it_Quantity r) (it_AmountMinor r).

Record ExpenseRecord := mkExpenseRecord {
  ex_ID : string; ex_OwnerID : string; ex_Title : string; ex_AmountMinor : Z;
  ex_Currency : string; ex_OccurredAt : Time; ex_CategoryID : string;
  ex_CategoryName : string; ex_TagIDs : list string; ex_Status : ExpenseStatus;
  ex_SharedGroupID : string; ex_Items : list ExpenseItem;
  ex_Latitude : option float64; ex_Longitude : option float64; ex_Address : string;
  ex_ReceiptObjectKey : string; ex_CreatedAt : Time; ex_UpdatedAt : Time;
  ex_DeletedAt : option Time
}.
#[export] Instance eta_ExpenseRecord : Eta ExpenseRecord := λ r,
  mkExpenseRecord (ex_ID r) (ex_OwnerID r) (ex_Title r) (ex_AmountMinor r) (ex_Currency r)
    (ex_OccurredAt r) (ex_CategoryID r) (ex_CategoryName r) (ex_TagIDs r) (ex_Status r)
    (ex_SharedGroupID r) (ex_Items r) (ex_Latitude r) (ex_Longitude r) (ex_Address r)
    (ex_ReceiptObjectKey r) (ex_CreatedAt r) (ex_UpdatedAt r) (ex_DeletedAt r).

(** ** Projections (projection.go) *)

Abbreviation AnalyticsPeriod := string.
Definition AnalyticsDay : AnalyticsPeriod := "day".
Definition AnalyticsWeek : AnalyticsPeriod := "week".
Definition AnalyticsMonth : AnalyticsPeriod := "month".
Definition AnalyticsYear : AnalyticsPeriod := "year".

Record ExpenseContribution := mkExpenseContribution {
  ec_ExpenseID : string; ec_OwnerID : string; ec_CategoryID : string; ec_Currency : string;
  ec_TagIDs : list string; ec_AmountMinor : Z; ec_OccurredAt : Time; ec_Active : bool
}.
#[export] Instance eta_ExpenseContribution : Eta ExpenseContribution := λ r,
  mkExpenseContribution (ec_ExpenseID r) (ec_OwnerID r) (ec_CategoryID r) (ec_Currency r)
    (ec_TagIDs r) (ec_AmountMinor r) (ec_OccurredAt r) (ec_Active r).

Record RollupDelta := mkRollupDelta {
  rd_OwnerID : string; rd_CategoryID : string; rd_TagID : string; rd_Currency : string;
  rd_Period : AnalyticsPeriod; rd_PeriodStart : Time; rd_AmountMinor : Z; rd_ExpenseCount : Z
}.
#[export] Instance eta_RollupDelta : Eta RollupDelta := λ r,
  mkRollupDelta (rd_OwnerID r) (rd_CategoryID r) (rd_TagID r) (rd_Currency r)
    (rd_Period r) (rd_PeriodStart r) (rd_AmountMinor r) (rd_ExpenseCount r).

Record BudgetUsage := mkBudgetUsage {
  bu_BudgetID : string; bu_PeriodStart : Time; bu_SpentMinor : Z; bu_AlertedPercent : Z;
  bu_UpdatedAt : Time
}.
#[export] Instance eta_BudgetUsage : Eta BudgetUsage := λ r,
  mkBudgetUsage (bu_BudgetID r) (bu_PeriodStart r) (bu_SpentMinor r) (bu_AlertedPercent r)
    (bu_UpdatedAt r).

Record AuditEntry := mkAuditEntry {
  ae_EventID : string; ae_ActorID : string; ae_Action : string; ae_ResourceType : string;
  ae_ResourceID : string; ae_Metadata : gmap string string; ae_OccurredAt : Time
}.

Record BudgetAlert := mkBudgetAlert {
  ba_BudgetID : string; ba_OwnerID : string; ba_CategoryID : string; ba_Currency : string;
  ba_BudgetName : string; ba_SpentMinor : Z; ba_LimitMinor : Z; ba_PercentUsed : Z;
  ba_Exceeded : bool; ba_PeriodStart : Time
}.

(** ** Budgets (budget_record.go) *)

Abbreviation BudgetPeriod := string.
Definition BudgetDaily : BudgetPeriod := "daily".
Definition BudgetWeekly : BudgetPeriod := "weekly".
Definition BudgetMonthly : BudgetPeriod := "monthly".
Definition BudgetYearly : BudgetPeriod := "yearly".
Definition BudgetCustom : BudgetPeriod := "custom".

Record BudgetRecord := mkBudgetRecord {
  bd_ID : string; bd_OwnerID : string; bd_CategoryID : string; bd_Name : string;
  bd_Currency : string; bd_SharedGroupID : string; bd_AmountLimitMinor : Z;
  bd_ThresholdPercent : Z; bd_Period : BudgetPeriod; bd_DueAt : option Time;
  bd_CreatedAt : Time; bd_UpdatedAt : Time; bd_DeletedAt : option Time
}.
#[export] Instance eta_BudgetRecord : Eta BudgetRecord := λ r,
  mkBudgetRecord (bd_ID r) (bd_OwnerID r) (bd_CategoryID r) (bd_Name r) (bd_Currency r)
    (bd_SharedGroupID r) (bd_AmountLimitMinor r) (bd_ThresholdPercent r) (bd_Period r)
    (bd_DueAt r) (bd_CreatedAt r) (bd_UpdatedAt r) (bd_DeletedAt r).

(** ** Scheduled payments (scheduled_payment.go) *)

Abbreviation PaymentFrequency := string.
Definition PaymentMonthly : PaymentFrequency := "monthly".
Definition PaymentQuarterly : PaymentFrequency := "quarterly".
Definition PaymentYearly : PaymentFrequency := "yearly".
Definition PaymentCustom : PaymentFrequency := "custom".

Abbreviation PostingKind := string.
Definition PostingReminder : PostingKind := "reminder".
Definition PostingDue : PostingKind := "due".

Record ScheduledPayment := mkScheduledPayment {
  sp_ID : string; sp_OwnerID : string; sp_Title : string; sp_AmountMinor : Z;
  sp_Currency : string; sp_CategoryID : string; sp_CategoryName : string;
  sp_TagIDs : list string; sp_SharedGroupID : string; sp_Frequency : PaymentFrequency;
  sp_CustomIntervalDays : Z; sp_StartDate : Time; sp_EndDate : option Time;
  sp_NextDueAt : Time; sp_LastPostedAt : option Time; sp_AutoPost : bool;
  sp_ReminderDaysBefore : Z; sp_Paused : bool; sp_CreatedAt : Time; sp_UpdatedAt : Time;
  sp_DeletedAt : option Time
}.
#[export] Instance eta_ScheduledPayment : Eta ScheduledPayment := λ r,
  mkScheduledPayment (sp_ID r) (sp_OwnerID r) (sp_Title r) (sp_AmountMinor r)
    (sp_Currency r) (sp_CategoryID r) (sp_CategoryName r) (sp_TagIDs r)
    (sp_SharedGroupID r) (sp_Frequency r) (sp_CustomIntervalDays r) (sp_StartDate r)
    (sp_EndDate r) (sp_NextDueAt r) (sp_LastPostedAt r) (sp_AutoPost r)
    (sp_ReminderDaysBefore r) (sp_Paused r) (sp_CreatedAt r) (sp_UpdatedAt r)
    (sp_DeletedAt r).

Record ScheduledPaymentPosting := mkScheduledPaymentPosting {
  po_ScheduledPaymentID : string; po_DueAt : Time; po_Kind : PostingKind;
  po_ExpenseID : string; po_PostedAt : Time
}.

(** ** Identity (identity.go) *)

Abbreviation UserRole := string.
Definition RoleMember : UserRole := "member".
Definition RoleAdmin : UserRole := "admin".
Definition RoleSuperAdmin : UserRole := "super_admin".

Abbreviation Permission := string.
Definition PermissionExpensesRead : Permission := "expenses:read".
Definition PermissionExpensesWrite : Permission := "expenses:write".
Definition PermissionExpensesDelete : Permission := "expenses:delete".
Definition PermissionBudgetsRead : Permission := "budgets:read".
Definition PermissionBudgetsWrite : Permission := "budgets:write".
Definition PermissionPaymentsRead : Permission := "payments:read".
Definition PermissionPaymentsWrite : Permission := "payments:write".
Definition PermissionAnalyticsRead : Permission := "analytics:read".
Definition PermissionUsersInvite : Permission := "users:invite".
Definition PermissionUsersManage : Permission := "users:manage".
Definition PermissionGroupsManage : Permission := "groups:manage".
Definition PermissionAuditRead : Permission := "audit:read".

Abbreviation NotificationKind := string.

Record AppUser := mkAppUser {
  u_ID : string; u_Email : string; u_PasswordHash : string; u_DisplayName : string;
  u_ProfileImageObjectKey : string; u_Role : UserRole; u_AccessBlocked : bool;
  u_EmailNotificationsEnabled : bool; u_NotificationPreferences : gmap string bool;
  u_AIEnabled : bool; u_CreatedAt : Time; u_UpdatedAt : Time
}.
#[export] Instance eta_AppUser : Eta AppUser := λ r,
  mkAppUser (u_ID r) (u_Email r) (u_PasswordHash r) (u_DisplayName r)
    (u_ProfileImageObjectKey r) (u_Role r) (u_AccessBlocked r)
    (u_EmailNotificationsEnabled r) (u_NotificationPreferences r) (u_AIEnabled r)
    (u_CreatedAt r) (u_UpdatedAt r).

Abbreviation InvitationStatus := string.
Definition InvitationPending : InvitationStatus := "pending".
Definition InvitationAccepted : InvitationStatus := "accepted".
Definition InvitationRevoked : InvitationStatus := "revoked".
Definition InvitationExpired : InvitationStatus := "expired".

Record Invitation := mkInvitation {
  inv_ID : string; inv_Email : string; inv_Role : UserRole; inv_TokenHash : string;
  inv_Status : InvitationStatus; inv_InvitedBy : string; inv_ExpiresAt : Time;
  inv_CreatedAt : Time; inv_AcceptedBy : string; inv_AcceptedAt : option Time
}.
#[export] Instance eta_Invitation : Eta Invitation := λ r,
  mkInvitation (inv_ID r) (inv_Email r) (inv_Role r) (inv_TokenHash r) (inv_Status r)
    (inv_InvitedBy r) (inv_ExpiresAt r) (inv_CreatedAt r) (inv_AcceptedBy r) (inv_AcceptedAt r).

Record RefreshToken := mkRefreshToken {
  rt_ID : string; rt_UserID : string; rt_TokenHash : string; rt_FamilyID : string;
  rt_ExpiresAt : Time; rt_CreatedAt : Time; rt_RevokedAt : option Time; rt_ReplacedBy : string
}.
#[export] Instance eta_RefreshToken : Eta RefreshToken := λ r,
  mkRefreshToken (rt_ID r) (rt_UserID r) (rt_TokenHash r) (rt_FamilyID r) (rt_ExpiresAt r)
    (rt_CreatedAt r) (rt_RevokedAt r) (rt_ReplacedBy r).

Record PasswordReset := mkPasswordReset {
  pr_ID : string; pr_UserID : string; pr_TokenHash : string; pr_ExpiresAt : Time;
  pr_CreatedAt : Time; pr_UsedAt : option Time
}.
#[export] Instance eta_PasswordReset : Eta PasswordReset := λ r,
  mkPasswordReset (pr_ID r) (pr_UserID r) (pr_TokenHash r) (pr_ExpiresAt r)
    (pr_CreatedAt r) (pr_UsedAt r).

(** ** Groups and taxonomy (group.go, taxonomy.go) *)

Record UserGroup := mkUserGroup {
  ug_ID : string; ug_Name : string; ug_CreatedBy : string; ug_CreatedAt : Time;
  ug_MemberIDs : list string
}.
#[export] Instance eta_UserGroup : Eta UserGroup := λ r,
  mkUserGroup (ug_ID r) (ug_Name r) (ug_CreatedBy r) (ug_CreatedAt r) (ug_MemberIDs r).

Record ExpenseCategory := mkExpenseCategory {
  cat_ID : string; cat_Name : string; cat_Color : string; cat_IsDefault : bool;
  cat_CreatedAt : Time
}.
#[export] Instance eta_ExpenseCategory : Eta ExpenseCategory := λ r,
  mkExpenseCategory (cat_ID r) (cat_Name r) (cat_Color r) (cat_IsDefault r) (cat_CreatedAt r).

Record ExpenseTag := mkExpenseTag {
  tag_ID : string; tag_Name : string; tag_Color : string; tag_CreatedAt : Time
}.
#[export] Instance eta_ExpenseTag : Eta ExpenseTag := λ r,
  mkExpenseTag (tag_ID r) (tag_Name r) (tag_Color r) (tag_CreatedAt r).

Definition DefaultCategories : list ExpenseCategory :=
  let default n name color :=
    mkExpenseCategory ("0197c1a0-0000-4000-8000-00000000000" +:+ n) name color true 0 in
  [ default "1" "Food" "#f97316"; default "2" "Groceries" "#84cc16";
    default "3" "Transport" "#0ea5e9"; default "4" "Home" "#8b5cf6";
    default "5" "Utilities" "#14b8a6"; default "6" "Health" "#ef4444";
    default "7" "Entertainment" "#ec4899"; default "8" "Other" "#64748b";
    default "9" "Pets" "#f59e0b"; default "a" "Education" "#6366f1";
    default "b" "Insurance" "#3b82f6"; default "c" "Travel" "#06b6d4";
    default "d" "Personal Care" "#d946ef"; default "e" "Investments" "#22c55e";
    default "f" "Shopping" "#eab308" ].

(** ** Notifications (notification.go) *)

Definition NotificationInvitation : NotificationKind := "invitation".
Definition NotificationBudgetAlert : NotificationKind := "budget_alert".
Definition NotificationReportReady : NotificationKind := "report_ready".
Definition NotificationAccessChanged : NotificationKind := "access_changed".
Definition NotificationPaymentDue : NotificationKind := "payment_due".
Definition NotificationPasswordReset : NotificationKind := "password_reset".

Abbreviation NotificationStatus := string.
Definition NotificationPending : NotificationStatus := "pending".
Definition NotificationProcessing : NotificationStatus := "processing".
Definition NotificationSent : NotificationStatus := "sent".
Definition NotificationFailed : NotificationStatus := "failed".

Record NotificationDelivery := mkNotificationDelivery {
  nd_ID : string; nd_UserID : string; nd_RecipientEmail : string; nd_Kind : NotificationKind;
  nd_Payload : gmap string string; nd_CreatedAt : Time; nd_Status : NotificationStatus;
  nd_Attempts : Z
}.
#[export] Instance eta_NotificationDelivery : Eta NotificationDelivery := λ r,
  mkNotificationDelivery (nd_ID r) (nd_UserID r) (nd_RecipientEmail r) (nd_Kind r)
    (nd_Payload r) (nd_CreatedAt r) (nd_Status r) (nd_Attempts r).

(** ** Stored objects (object_reference.go) *)

Abbreviation ObjectReferenceState := string.
Definition ObjectReferenceActive : ObjectReferenceState := "active".
Definition ObjectReferenceOrphaned : ObjectReferenceState := "orphaned".

Record ObjectReference := mkObjectReference {
  or_ObjectKey : string; or_OwnerID : string; or_ResourceType : string;
  or_ResourceID : string; or_State : ObjectReferenceState; or_UpdatedAt : Time
}.
#[export] Instance eta_ObjectReference : Eta ObjectReference := λ r,
  mkObjectReference (or_ObjectKey r) (or_OwnerID r) (or_ResourceType r) (or_ResourceID r)
    (or_State r) (or_UpdatedAt r).

(** ** Analytics read models (analytics.go) *)

Record ExpenseRollup := mkExpenseRollup {
  ru_OwnerID : string; ru_PeriodStart : Time; ru_Period : AnalyticsPeriod;
  ru_CategoryID : string; ru_TagID : string; ru_Currency : string; ru_AmountMinor : Z;
  ru_ExpenseCount : Z
}.
#[export] Instance eta_ExpenseRollup : Eta ExpenseRollup := λ r,
  mkExpenseRollup (ru_OwnerID r) (ru_PeriodStart r) (ru_Period r) (ru_CategoryID r)
    (ru_TagID r) (ru_Currency r) (ru_AmountMinor r) (ru_ExpenseCount r).

(** ** Dead letters (outbox_admin.go) *)

Record DeadLetter := mkDeadLetter {
  dl_OutboxID : string; dl_Subscription : string; dl_EventID : string; dl_EventType : string;
  dl_AggregateType : string; dl_AggregateID : string; dl_Attempts : Z; dl_LastError : string;
  dl_OccurredAt : Time; dl_DeadLetteredAt : Time; dl_BlockedCount : Z
}.

(** ** Reports (report.go) *)

Abbreviation ReportFormat := string.
Definition ReportFormatCSV : ReportFormat := "csv".
Definition ReportFormatPDF : ReportFormat := "pdf".

Record Report := mkReport {
  rep_ID : string; rep_OwnerID : string; rep_PeriodKind : AnalyticsPeriod;
  rep_PeriodStart : Time; rep_Format : ReportFormat; rep_ObjectKey : string; rep_CreatedAt : Time
}.

(** ** AI requests (ai.go, ai_request.go) *)

Abbreviation AIWorkload := string.
Definition AIWorkloadAssistant : AIWorkload := "assistant".
Definition AIWorkloadReceiptExtraction : AIWorkload := "receipt_extraction".
Definition AIWorkloadSentenceExtraction : AIWorkload := "sentence_extraction".
Definition AIWorkloadTranscription : AIWorkload := "transcription".

Abbreviation AIRequestOutcome := string.
Definition AIRequestSuccess : AIRequestOutcome := "success".
Definition AIRequestError : AIRequestOutcome := "error".

Record TokenUsage := mkTokenUsage {
  tu_InputTokens : Z; tu_OutputTokens : Z; tu_TotalTokens : Z
}.

Record AIRequestRecord := mkAIRequestRecord {
  ar_ID : string; ar_UserID : string; ar_Workload : AIWorkload; ar_Model : string;
  ar_Usage : TokenUsage; ar_LatencyMS : Z; ar_Outcome : AIRequestOutcome;
  ar_ErrorMessage : string; ar_CreatedAt : Time
}.

Record AIWorkloadUsage := mkAIWorkloadUsage {
  wu_Workload : AIWorkload; wu_RequestCount : Z; wu_ErrorCount : Z; wu_InputTokens : Z;
  wu_OutputTokens : Z
}.
#[export] Instance eta_AIWorkloadUsage : Eta AIWorkloadUsage := λ r,
  mkAIWorkloadUsage (wu_Workload r) (wu_RequestCount r) (wu_ErrorCount r) (wu_InputTokens r)
    (wu_OutputTokens r).

Record AIUsageSummary := mkAIUsageSummary {
  us_Since : Time; us_ByWorkload : list AIWorkloadUsage
}.

(** ** Query filters (internal/core/port/outbound) *)

Abbreviation ExpenseSortField := string.
Definition ExpenseSortOccurredAt : ExpenseSortField := "".
Definition ExpenseSortAmount : ExpenseSortField := "amount_minor".

Record ExpenseListFilter := mkExpenseListFilter {
  lf_OwnerID : string; lf_Query : string; lf_CategoryID : string; lf_TagIDs : list string;
  lf_SharedGroupIDs : list string; lf_From : Time; lf_To : Time; lf_SortBy : ExpenseSortField;
  lf_Limit : Z; lf_Offset : Z
}.
#[export] Instance eta_ExpenseListFilter : Eta ExpenseListFilter := λ r,
  mkExpenseListFilter (lf_OwnerID r) (lf_Query r) (lf_CategoryID r) (lf_TagIDs r)
    (lf_SharedGroupIDs r) (lf_From r) (lf_To r) (lf_SortBy r) (lf_Limit r) (lf_Offset r).

Record AnalyticsFilter := mkAnalyticsFilter {
  af_OwnerID : string; af_Period : AnalyticsPeriod; af_From : Time; af_To : Time;
  af_CategoryID : string; af_TagIDs : list string
}.
#[export] Instance eta_AnalyticsFilter : Eta AnalyticsFilter := λ r,
  mkAnalyticsFilter (af_OwnerID r) (af_Period r) (af_From r) (af_To r) (af_CategoryID r)
    (af_TagIDs r).

Record AuditFilter := mkAuditFilter {
  au_ActorID : string; au_ResourceType : string; au_ResourceID : string; au_Action : string;
  au_From : Time; au_To : Time; au_Limit : Z; au_Offset : Z
}.
#[export] Instance eta_AuditFilter : Eta AuditFilter := λ r,
  mkAuditFilter (au_ActorID r) (au_ResourceType r) (au_ResourceID r) (au_Action r) (au_From r)
    (au_To r) (au_Limit r) (au_Offset r).

(** ** Domain events

    The payload of an event is one of the event structs of the domain
    package. *)

Inductive EventPayload :=
  | ExpenseAdded (expense : ExpenseRecord)
  | ExpenseUpdated (expense : ExpenseRecord)
  | ExpenseRemoved (expense_id owner_id : string) (removed_at : Time)
  | BudgetCreated (budget : BudgetRecord)
  | BudgetUpdated (budget : BudgetRecord)
  | BudgetRemoved (budget_id owner_id : string) (removed_at : Time)
  | ScheduledPaymentCreated (payment : ScheduledPayment)
  | ScheduledPaymentUpdated (payment : ScheduledPayment)
  | ScheduledPaymentRemoved (payment_id owner_id : string) (removed_at : Time)
  | ScheduledPaymentPosted (payment_id owner_id expense_id : string) (due_at posted_at : Time).

Record DomainEvent := mkDomainEvent {
  ev_ID : string; ev_AggregateType : string; ev_AggregateID : string; ev_EventType : string;
  ev_Payload : EventPayload; ev_OccurredAt : Z; ev_ActorID : string
}.

(** ** Roles and preferences (identity.go) *)

Definition Allows (r : UserRole) (permission : Permission) : bool :=
  if decide (r = RoleSuperAdmin) then true
  else if decide (r = RoleAdmin) then negb (bool_decide (permission = PermissionAuditRead))
  else if decide (r = RoleMember) then
    bool_decide (permission ∈ [PermissionExpensesRead; PermissionExpensesWrite;
      PermissionExpensesDelete; PermissionBudgetsRead; PermissionBudgetsWrite;
      PermissionAnalyticsRead; PermissionPaymentsRead; PermissionPaymentsWrite])
  else false.

Definition WantsNotification (u : AppUser) (kind : NotificationKind) : bool :=
  match u_NotificationPreferences u !! kind with
  | Some override => override
  | None => u_EmailNotificationsEnabled u
  end.

(** Only the super-administrator may read the audit trail, and a role outside
    the three known ones may do nothing. *)
Lemma Allows_audit_read r : Allows r PermissionAuditRead = true ↔ r = RoleSuperAdmin.
Proof.
  unfold Allows. destruct (decide (r = RoleSuperAdmin)) as [->|Hne]; [done|].
  split; [|done]. intros H. exfalso. revert H.
  by destruct (decide (r = RoleAdmin)), (decide (r = RoleMember)).
Qed.

(** The permissions grow with the role. *)
Lemma Allows_member_admin p : Allows RoleMember p = true → Allows RoleAdmin p = true.
Proof.
  unfold Allows. destruct (decide (p = PermissionAuditRead)) as [->|Hne]; [done|].
  intros _. simpl. by rewrite bool_decide_eq_false_2.
Qed.
