(* ===== verification/Periods.v ===== *)
(** * Rollup periods, budget windows and alert thresholds

    domain/projection.go and domain/report.go: the calendar buckets every
    projection and report is keyed on, the window a budget's spend is counted
    in, and the rungs at which a budget alerts. *)

From S2P Require Export Domain.

Definition RollupPeriods : list AnalyticsPeriod :=
  [AnalyticsDay; AnalyticsWeek; AnalyticsMonth; AnalyticsYear].

Definition RollupPeriodStart (period : AnalyticsPeriod) (at_ : Time) : Time :=
  let day := Date (Year at_) (Month at_) (Day at_) 0 0 0 0 in
  if decide (period = AnalyticsWeek) then
    let offset := Z.rem (Weekday day + 6) 7 in
    AddDate day 0 0 (- offset)
  else if decide (period = AnalyticsMonth) then Date (Year at_) (Month at_) 1 0 0 0 0
  else if decide (period = AnalyticsYear) then Date (Year at_) 1 1 0 0 0 0
  else day.

Definition BudgetWindow (budget : BudgetRecord) (at_ : Time) : Time * Time :=
  if decide (bd_Period budget = BudgetDaily) then
    let start := RollupPeriodStart AnalyticsDay at_ in (start, AddDate start 0 0 1)
  else if decide (bd_Period budget = BudgetWeekly) then
    let start := RollupPeriodStart AnalyticsWeek at_ in (start, AddDate start 0 0 7)
  else if decide (bd_Period budget = BudgetYearly) then
    let start := RollupPeriodStart AnalyticsYear at_ in (start, AddDate start 1 0 0)
  else if decide (bd_Period budget = BudgetCustom) then
    let start := RollupPeriodStart AnalyticsDay (bd_CreatedAt budget) in
    match bd_DueAt budget with
    | Some due => (start, due)
    | None => (start, AddDate start 100 0 0)
    end
  else
    let start := RollupPeriodStart AnalyticsMonth at_ in (start, AddDate start 0 1 0).

(** [int(spentMinor * 100 / limit)] in 64-bit arithmetic. *)
Definition percent_used (spentMinor limit : Z) : Z := Z.quot (wrap64 (spentMinor * 100)) limit.

Definition BudgetThresholdCrossing (budget : BudgetRecord) (usage : BudgetUsage)
    (spentMinor : Z) : option BudgetAlert :=
  if bd_AmountLimitMinor budget <=? 0 then None else
  let percent := percent_used spentMinor (bd_AmountLimitMinor budget) in
  let rung :=
    if 100 <=? percent then 100
    else if bd_ThresholdPercent budget <=? percent then bd_ThresholdPercent budget
    else 0 in
  if (rung =? 0) || (rung <=? bu_AlertedPercent usage) then None else
  Some (mkBudgetAlert (bd_ID budget) (bd_OwnerID budget) (bd_CategoryID budget)
    (bd_Currency budget) (bd_Name budget) spentMinor (bd_AmountLimitMinor budget)
    percent (100 <=? percent) (bu_PeriodStart usage)).

Definition AlertedPercentFor (budget : BudgetRecord) (usage : BudgetUsage)
    (spentMinor : Z) : Z :=
  if bd_AmountLimitMinor budget <=? 0 then 0 else
  let percent := percent_used spentMinor (bd_AmountLimitMinor budget) in
  if 100 <=? percent then 100
  else if bd_ThresholdPercent budget <=? percent
  then Z.max (bu_AlertedPercent usage) (bd_ThresholdPercent budget)
  else 0.

(** ** Report periods (report.go) *)

Definition ReportPeriods : list AnalyticsPeriod := [AnalyticsWeek; AnalyticsMonth; AnalyticsYear].

Definition ValidReportPeriod (kind : AnalyticsPeriod) : bool :=
  existsb (λ valid, bool_decide (kind = valid)) ReportPeriods.

Definition LastCompletedReportPeriod (kind : AnalyticsPeriod) (now : Time) : Time :=
  let currentStart := RollupPeriodStart kind now in
  if decide (kind = AnalyticsWeek) then AddDate currentStart 0 0 (-7)
  else if decide (kind = AnalyticsMonth) then AddDate currentStart 0 (-1) 0
  else if decide (kind = AnalyticsYear) then AddDate currentStart (-1) 0 0
  else currentStart.

Definition ReportPeriodEnd (kind : AnalyticsPeriod) (start : Time) : Time :=
  if decide (kind = AnalyticsWeek) then AddDate start 0 0 7
  else if decide (kind = AnalyticsMonth) then AddDate start 0 1 0
  else if decide (kind = AnalyticsYear) then AddDate start 1 0 0
  else start.

(** The exclusive end of any rollup bucket (service/analytics.go). *)
Definition periodEnd (period : AnalyticsPeriod) (start : Time) : Time :=
  if decide (period = AnalyticsDay) then AddDate start 0 0 1
  else ReportPeriodEnd period start.

Definition previousPeriodStart (period : AnalyticsPeriod) (start : Time) : Time :=
  if decide (period = AnalyticsDay) then AddDate start 0 0 (-1)
  else if decide (period = AnalyticsWeek) then AddDate start 0 0 (-7)
  else if decide (period = AnalyticsMonth) then AddDate start 0 (-1) 0
  else if decide (period = AnalyticsYear) then AddDate start (-1) 0 0
  else start.

Definition validPeriod (period : AnalyticsPeriod) : bool :=
  bool_decide (period ∈ [AnalyticsDay; AnalyticsWeek; AnalyticsMonth; AnalyticsYear]).

(** 2024-02-29T12:30:00Z, a Thursday. *)
Definition sample_instant : Time := Date 2024 2 29 12 30 0 0.

Example rollup_ex :
  RollupPeriodStart AnalyticsWeek sample_instant = Date 2024 2 26 0 0 0 0 ∧
  RollupPeriodStart AnalyticsMonth sample_instant = Date 2024 2 1 0 0 0 0 ∧
  ReportPeriodEnd AnalyticsMonth (Date 2024 2 1 0 0 0 0) = Date 2024 3 1 0 0 0 0 ∧
  LastCompletedReportPeriod AnalyticsYear sample_instant = Date 2023 1 1 0 0 0 0.
Proof. by vm_compute. Qed.

(** ** Buckets as day ranges

    Every bucket starts and ends at a midnight; the lemmas give both ends as
    multiples of a day. *)

Lemma start_of_day t : RollupPeriodStart AnalyticsDay t = Midnight t.
Proof. unfold RollupPeriodStart. rewrite Date_midnight. done. Qed.

Lemma start_of_week t :
  RollupPeriodStart AnalyticsWeek t = (t / day_ns - (t / day_ns) mod 7) * day_ns.
Proof.
  unfold RollupPeriodStart. rewrite Date_midnight, AddDate_days. simpl.
  unfold Weekday. rewrite Midnight_div. unfold Midnight.
  assert (Z.rem ((t / day_ns + 1) mod 7 + 6) 7 = (t / day_ns) mod 7) as ->; [|lia].
  generalize (t / day_ns). intros n. lia_div.
Qed.

Lemma start_of_month t :
  RollupPeriodStart AnalyticsMonth t = month_start (month_index t) * day_ns.
Proof.
  unfold RollupPeriodStart. simpl. rewrite Date_month_start. unfold month_index. lia.
Qed.

Lemma start_of_year t :
  RollupPeriodStart AnalyticsYear t = month_start (12 * Year t) * day_ns.
Proof.
  unfold RollupPeriodStart. simpl. rewrite Date_month_start.
  replace (12 * Year t + (1 - 1)) with (12 * Year t) by lia. lia.
Qed.

(** ** Buckets partition time *)

(** The end of the bucket an instant falls in, for the four granularities. *)
Lemma periodEnd_eq period t :
  validPeriod period = true →
  periodEnd period (RollupPeriodStart period t) =
    if decide (period = AnalyticsDay) then Midnight t + day_ns
    else if decide (period = AnalyticsWeek) then RollupPeriodStart AnalyticsWeek t + 7 * day_ns
    else if decide (period = AnalyticsMonth) then month_start (month_index t + 1) * day_ns
    else month_start (12 * Year t + 12) * day_ns.
Proof.
  unfold validPeriod. rewrite bool_decide_eq_true, !elem_of_cons.
  intros [->|[->|[->|[->|H]]]]; [..|by apply elem_of_nil in H]; unfold periodEnd, ReportPeriodEnd;
    cbn [decide].
  - rewrite start_of_day. simpl. rewrite AddDate_days. lia.
  - simpl. by rewrite AddDate_days.
  - simpl. rewrite start_of_month, AddDate_month_start. do 2 f_equal. lia.
  - simpl. rewrite start_of_year, AddDate_month_start. do 2 f_equal. lia.
Qed.

Lemma valid_period_cases p :
  validPeriod p = true →
  p = AnalyticsDay ∨ p = AnalyticsWeek ∨ p = AnalyticsMonth ∨ p = AnalyticsYear.
Proof.
  unfold validPeriod. rewrite bool_decide_eq_true, !elem_of_cons, elem_of_nil. tauto.
Qed.

Lemma bucket_contains p t :
  validPeriod p = true →
  RollupPeriodStart p t ≤ t < periodEnd p (RollupPeriodStart p t).
Proof.
  intros Hp. rewrite periodEnd_eq by done. pose proof (Midnight_spec t) as Hmid.
  destruct (valid_period_cases p Hp) as [->|[->|[->| ->]]]; simpl.
  - rewrite start_of_day. lia.
  - rewrite start_of_week. unfold Midnight in Hmid. pose proof day_ns_pos.
    assert (0 ≤ (t / day_ns) mod 7 ≤ 6) by lia_div. nia.
  - rewrite start_of_month. apply month_bucket.
  - rewrite start_of_year. pose proof (month_bucket t) as Hm. pose proof day_ns_pos.
    pose proof (month_index_div t).
    assert (12 * Year t ≤ month_index t < 12 * Year t + 12) as [H1 H2] by lia_div.
    pose proof (month_start_le _ _ H1).
    pose proof (month_start_le (month_index t + 1) (12 * Year t + 12) ltac:(lia)).
    nia.
Qed.

Lemma bucket_unique p t u :
  validPeriod p = true →
  RollupPeriodStart p t ≤ u < periodEnd p (RollupPeriodStart p t) →
  RollupPeriodStart p u = RollupPeriodStart p t.
Proof.
  intros Hp. rewrite periodEnd_eq by done. pose proof day_ns_pos as Hpos.
  destruct (valid_period_cases p Hp) as [->|[->|[->| ->]]]; simpl.
  - rewrite !start_of_day. unfold Midnight. intros Hu. f_equal.
    symmetry. apply (Z.div_unique _ _ _ (u - t / day_ns * day_ns)); lia.
  - rewrite !start_of_week. set (n := t / day_ns). intros Hu.
    assert (n - n mod 7 ≤ u / day_ns < n - n mod 7 + 7) as Hn.
    { split.
      - apply Z.div_le_lower_bound; lia.
      - apply Z.div_lt_upper_bound; lia. }
    f_equal. clear -Hn. revert Hn. generalize (u / day_ns). intros m Hm. lia_div.
  - rewrite !start_of_month. intros Hu. apply month_index_between in Hu.
    by replace (month_index u) with (month_index t) by lia.
  - rewrite !start_of_year. intros Hu. apply month_index_between in Hu.
    rewrite <- !month_index_div in *.
    assert (month_index u / 12 = month_index t / 12) as ->; [|done].
    clear -Hu. revert Hu. generalize (month_index u), (month_index t). intros. lia_div.
Qed.

Lemma BudgetWindow_bucket budget :
  bd_Period budget ∈ [BudgetDaily; BudgetWeekly; BudgetMonthly; BudgetYearly] →
  ∃ p, validPeriod p = true ∧ p ∈ RollupPeriods ∧
    ∀ t, BudgetWindow budget t = (RollupPeriodStart p t, periodEnd p (RollupPeriodStart p t)).
Proof.
  rewrite !elem_of_cons, elem_of_nil. unfold BudgetWindow.
  intros [->|[->|[->|[->|[]]]]]; simpl.
  - exists AnalyticsDay. split_and!; [done|by left|]. intros t. unfold periodEnd. simpl. reflexivity.
  - exists AnalyticsWeek. split_and!; [done|by right; left|].
    intros t. unfold periodEnd, ReportPeriodEnd. simpl. reflexivity.
  - exists AnalyticsMonth. split_and!; [done|by do 2 right; left|].
    intros t. unfold periodEnd, ReportPeriodEnd. simpl. reflexivity.
  - exists AnalyticsYear. split_and!; [done|by do 3 right; left|].
    intros t. unfold periodEnd, ReportPeriodEnd. simpl. reflexivity.
Qed.

(** ** Alert rungs *)

(** A budget the service accepts: a positive limit and a threshold of 1 to 100
    percent. *)
Definition sane_budget (b : BudgetRecord) : Prop :=
  0 < bd_AmountLimitMinor b ∧ 1 ≤ bd_ThresholdPercent b ≤ 100.

(** The rung a spend level reaches, 0 when it reaches none. *)
Definition rung_of (b : BudgetRecord) (spent : Z) : Z :=
  let percent := percent_used spent (bd_AmountLimitMinor b) in
  if 100 <=? percent then 100
  else if bd_ThresholdPercent b <=? percent then bd_ThresholdPercent b else 0.

Lemma rung_of_cases b spent :
  sane_budget b →
  rung_of b spent = 0 ∨ rung_of b spent = bd_ThresholdPercent b ∨ rung_of b spent = 100.
Proof. intros _. unfold rung_of. repeat case_match; tauto. Qed.

Lemma AlertedPercentFor_rung b usage spent :
  sane_budget b → 0 ≤ bu_AlertedPercent usage ≤ 100 →
  AlertedPercentFor b usage spent =
    if rung_of b spent =? 0 then 0 else Z.max (bu_AlertedPercent usage) (rung_of b spent).
Proof.
  intros [Hl Ht] Ha. unfold AlertedPercentFor, rung_of.
  destruct (Z.leb_spec (bd_AmountLimitMinor b) 0); [lia|].
  destruct (Z.leb_spec 100 (percent_used spent (bd_AmountLimitMinor b))); simpl; [lia|].
  destruct (Z.leb_spec (bd_ThresholdPercent b) (percent_used spent (bd_AmountLimitMinor b))); simpl.
  - destruct (Z.eqb_spec (bd_ThresholdPercent b) 0); lia.
  - done.
Qed.

Lemma BudgetThresholdCrossing_rung b usage spent :
  sane_budget b →
  is_Some (BudgetThresholdCrossing b usage spent) ↔
    rung_of b spent ≠ 0 ∧ bu_AlertedPercent usage < rung_of b spent.
Proof.
  intros [Hl Ht]. unfold BudgetThresholdCrossing. fold (rung_of b spent).
  destruct (Z.leb_spec (bd_AmountLimitMinor b) 0); [lia|]. simpl.
  change (if 100 <=? _ then 100 else _) with (rung_of b spent).
  destruct (Z.eqb_spec (rung_of b spent) 0); simpl.
  { split; [by intros [? [=]]|naive_solver]. }
  destruct (Z.leb_spec (rung_of b spent) (bu_AlertedPercent usage)).
  { split; [by intros [? [=]]|lia]. }
  split; [done|eauto].
Qed.

(** A budget period over time: each recomputed spend level updates the stored
    row and may raise an alert. *)
Definition usage_step (b : BudgetRecord) (usage : BudgetUsage) (spent : Z) : BudgetUsage :=
  usage <| bu_SpentMinor := spent |> <| bu_AlertedPercent := AlertedPercentFor b usage spent |>.

Fixpoint alerts (b : BudgetRecord) (usage : BudgetUsage) (spends : list Z) : list BudgetAlert :=
  match spends with
  | [] => []
  | s :: spends =>
      match BudgetThresholdCrossing b usage s with
      | Some a => a :: alerts b (usage_step b usage s) spends
      | None => alerts b (usage_step b usage s) spends
      end
  end.

Definition alert_rung (b : BudgetRecord) (a : BudgetAlert) : Z := rung_of b (ba_SpentMinor a).

Lemma BudgetThresholdCrossing_spent b usage s a :
  BudgetThresholdCrossing b usage s = Some a → ba_SpentMinor a = s.
Proof.
  unfold BudgetThresholdCrossing. repeat case_match; naive_solver.
Qed.

Lemma usage_step_alerted b usage s :
  sane_budget b → 0 ≤ bu_AlertedPercent usage ≤ 100 →
  bu_AlertedPercent (usage_step b usage s) =
    (if rung_of b s =? 0 then 0 else Z.max (bu_AlertedPercent usage) (rung_of b s)) ∧
  0 ≤ bu_AlertedPercent (usage_step b usage s) ≤ 100.
Proof.
  intros Hb Ha. unfold usage_step. simpl. rewrite AlertedPercentFor_rung by done.
  split; [done|]. destruct Hb as [Hl Ht].
  destruct (rung_of_cases b s) as [->|[->| ->]]; [by split|..]; simpl; repeat case_match; lia.
Qed.

Lemma alerts_increase b usage spends :
  sane_budget b → 0 ≤ bu_AlertedPercent usage ≤ 100 →
  Forall (λ s, rung_of b s ≠ 0) spends →
  Forall (λ a, bu_AlertedPercent usage < alert_rung b a) (alerts b usage spends) ∧
  StronglySorted Z.lt (map (alert_rung b) (alerts b usage spends)).
Proof.
  intros Hb. revert usage. induction spends as [|s spends IH]; intros usage Ha Hs.
  { split; constructor. }
  apply Forall_cons in Hs as [Hs Hrest].
  destruct (usage_step_alerted b usage s Hb Ha) as [Heq Hrange].
  rewrite (proj2 (Z.eqb_neq _ _) Hs) in Heq.
  destruct (IH _ Hrange Hrest) as [Hall Hsort]. simpl.
  destruct (BudgetThresholdCrossing b usage s) as [a|] eqn:Hc.
  - assert (is_Some (BudgetThresholdCrossing b usage s)) as Hsome by eauto.
    apply BudgetThresholdCrossing_rung in Hsome as [_ Hlt]; [|done].
    apply BudgetThresholdCrossing_spent in Hc.
    assert (alert_rung b a = rung_of b s) as Har by (unfold alert_rung; by rewrite Hc).
    split.
    + constructor; [lia|]. eapply Forall_impl; [exact Hall|]. intros ??; cbv beta in *; lia.
    + simpl. constructor; [done|]. rewrite Forall_map.
      eapply Forall_impl; [exact Hall|]. intros ??; cbv beta in *; lia.
  - split; [|done]. eapply Forall_impl; [exact Hall|]. intros ??; cbv beta in *; lia.
Qed.

(** ** Properties *)

(** The rollup buckets of each granularity partition time: an instant lies
    in the half-open bucket that starts at its [RollupPeriodStart], and two
    instants have the same start exactly when the second lies in the bucket of
    the first. *)
Theorem rollup_buckets_partition p t u :
  validPeriod p = true →
  RollupPeriodStart p t ≤ t < periodEnd p (RollupPeriodStart p t) ∧
  (RollupPeriodStart p u = RollupPeriodStart p t ↔
   RollupPeriodStart p t ≤ u < periodEnd p (RollupPeriodStart p t)).
Proof.
  intros Hp. split; [by apply bucket_contains|]. split.
  - intros <-. by apply bucket_contains.
  - by apply bucket_unique.
Qed.

Lemma rollup_buckets_partition_witness :
  validPeriod AnalyticsWeek = true ∧
  RollupPeriodStart AnalyticsWeek sample_instant ≤ sample_instant
    < periodEnd AnalyticsWeek (RollupPeriodStart AnalyticsWeek sample_instant).
Proof.
  split; [reflexivity|].
  exact (proj1 (rollup_buckets_partition AnalyticsWeek sample_instant 0 eq_refl)).
Defined.

Lemma calendar_window budget t u :
  bd_Period budget ∈ [BudgetDaily; BudgetWeekly; BudgetMonthly; BudgetYearly] →
  let '(start, end_) := BudgetWindow budget t in
  start ≤ t < end_ ∧ (BudgetWindow budget u = BudgetWindow budget t ↔ start ≤ u < end_).
Proof.
  intros Hb. destruct (BudgetWindow_bucket budget Hb) as (p & Hp & _ & Hw).
  rewrite !Hw. split; [by apply bucket_contains|]. split.
  - intros Heq. assert (RollupPeriodStart p u = RollupPeriodStart p t) as <- by congruence.
    by apply bucket_contains.
  - intros Hu. by rewrite (bucket_unique p t u).
Qed.

(** A budget with a calendar period counts an instant's spend in a
    half-open window that contains the instant, and two instants share a
    window exactly when one lies in the window of the other; so the windows of
    a budget never overlap. *)
Theorem budget_windows_partition budget t u :
  bd_Period budget ∈ [BudgetDaily; BudgetWeekly; BudgetMonthly; BudgetYearly] →
  let '(start, end_) := BudgetWindow budget t in
  start ≤ t < end_ ∧ (BudgetWindow budget u = BudgetWindow budget t ↔ start ≤ u < end_).
Proof. apply calendar_window. Qed.

Definition sample_budget : BudgetRecord :=
  mkBudgetRecord "b1" "alice" "food" "Food" "EUR" "" 10000 80 BudgetMonthly None
    sample_instant sample_instant None.

Lemma budget_windows_partition_witness :
  bd_Period sample_budget = BudgetMonthly ∧
  (BudgetWindow sample_budget sample_instant).1 ≤ sample_instant.
Proof.
  split; [reflexivity|].
  assert (bd_Period sample_budget ∈ [BudgetDaily; BudgetWeekly; BudgetMonthly; BudgetYearly]) as H.
  { vm_compute. do 2 right. left. }
  pose proof (budget_windows_partition sample_budget sample_instant 0 H) as Hw.
  destruct (BudgetWindow sample_budget sample_instant) as [s e]. exact (proj1 (proj1 Hw)).
Defined.

(** The report generated for the most recently completed period covers a
    whole bucket that ends exactly where the current bucket begins, so
    consecutive reports neither overlap nor leave a gap and never include
    [now]. *)
Theorem last_report_period_adjacent kind now :
  ValidReportPeriod kind = true →
  let start := LastCompletedReportPeriod kind now in
  ReportPeriodEnd kind start = RollupPeriodStart kind now ∧
  RollupPeriodStart kind start = start ∧
  start < ReportPeriodEnd kind start ≤ now.
Proof.
  intros Hk start.
  assert (validPeriod kind = true ∧
    ReportPeriodEnd kind start = RollupPeriodStart kind now ∧
    periodEnd kind start = ReportPeriodEnd kind start ∧
    RollupPeriodStart kind start = start) as (Hp & Hend & Hpe & Hstart).
  { unfold ValidReportPeriod in Hk. apply existsb_exists in Hk as (p & Hin & Hp).
    apply bool_decide_eq_true in Hp as ->. subst start. revert Hin.
    unfold ReportPeriods, LastCompletedReportPeriod, periodEnd, ReportPeriodEnd. simpl.
    intros [<-|[<-|[<-|[]]]]; simpl; (split; [done|]).
    - rewrite !AddDate_days. split; [lia|]. split; [done|]. rewrite !start_of_week.
      set (n := now / day_ns).
      replace ((n - n mod 7) * day_ns + -7 * day_ns) with ((n - n mod 7 - 7) * day_ns) by lia.
      rewrite Z.div_mul by (pose proof day_ns_pos; lia). f_equal. clear. generalize n. intros. lia_div.
    - rewrite start_of_month, !AddDate_month_start. split; [f_equal; f_equal; lia|].
      split; [done|]. rewrite start_of_month.
      by rewrite (proj1 (month_start_fields _)).
    - rewrite start_of_year, !AddDate_month_start. split; [f_equal; f_equal; lia|].
      split; [done|]. rewrite start_of_year.
      destruct (month_start_fields (12 * Year now + 12 * -1 + 0)) as (_ & -> & _).
      do 2 f_equal. clear. generalize (Year now). intros. lia_div. }
  split; [done|]. split; [done|].
  pose proof (bucket_contains kind start Hp) as Hc. rewrite Hstart, Hpe in Hc.
  split; [lia|]. rewrite Hend. by apply bucket_contains.
Qed.

Lemma last_report_period_adjacent_witness :
  ValidReportPeriod AnalyticsMonth = true ∧
  ReportPeriodEnd AnalyticsMonth (LastCompletedReportPeriod AnalyticsMonth sample_instant)
    = RollupPeriodStart AnalyticsMonth sample_instant.
Proof.
  split; [reflexivity|].
  exact (proj1 (last_report_period_adjacent AnalyticsMonth sample_instant eq_refl)).
Defined.

(** While the spend of a budget period stays at or above the configured
    threshold, however it moves, the alerts raised climb strictly: each rung
    (the threshold, then 100 percent) fires at most once and never in the
    wrong order, so at most two emails are queued. *)
Theorem alerts_at_most_once_per_rung b usage spends :
  sane_budget b → 0 ≤ bu_AlertedPercent usage ≤ 100 →
  Forall (λ s, rung_of b s ≠ 0) spends →
  StronglySorted Z.lt (map (alert_rung b) (alerts b usage spends)) ∧
  (length (alerts b usage spends) ≤ 2)%nat.
Proof.
  intros Hb Ha Hs. destruct (alerts_increase b usage spends Hb Ha Hs) as [Hall Hsort].
  split; [done|].
  assert (Forall (λ r, r = bd_ThresholdPercent b ∨ r = 100)
    (map (alert_rung b) (alerts b usage spends))) as Hr.
  { rewrite Forall_map. eapply Forall_impl; [exact Hall|]. intros a Hlt. simpl in *.
    destruct (rung_of_cases b (ba_SpentMinor a) Hb) as [H0|H]; [|done].
    unfold alert_rung in Hlt. lia. }
  revert Hsort Hr. rewrite <- (length_map (alert_rung b)).
  generalize (map (alert_rung b) (alerts b usage spends)).
  intros [|x [|y [|z l]]] Hsort Hr; simpl; try lia. exfalso.
  rewrite !Forall_cons in Hr. destruct Hr as (Hx & Hy & Hz & _).
  apply StronglySorted_inv in Hsort as [Hsort Hxs].
  apply StronglySorted_inv in Hsort as [_ Hys].
  rewrite !Forall_cons in Hxs, Hys. destruct Hb as [_ Ht]. lia.
Qed.

Lemma alerts_at_most_once_per_rung_witness :
  let usage := mkBudgetUsage "b1" 0 0 0 0 in
  length (alerts sample_budget usage [8500; 9000; 12000; 9500; 13000]) = 2%nat ∧
  StronglySorted Z.lt
    (map (alert_rung sample_budget) (alerts sample_budget usage [8500; 9000; 12000; 9500; 13000])).
Proof.
  intros usage. split; [reflexivity|].
  apply alerts_at_most_once_per_rung.
  - by split.
  - simpl. lia.
  - repeat constructor; by vm_compute.
Defined.

(** A spend level below the threshold clears the stored alert level, so a
    later crossing alerts again; and recomputing a period at an unchanged spend
    level never repeats an alert. *)
Theorem alert_rearms_and_never_repeats b usage s s' :
  sane_budget b → 0 ≤ bu_AlertedPercent usage ≤ 100 →
  BudgetThresholdCrossing b (usage_step b usage s) s = None ∧
  (rung_of b s = 0 → rung_of b s' ≠ 0 →
   is_Some (BudgetThresholdCrossing b (usage_step b usage s) s')).
Proof.
  intros Hb Ha. destruct (usage_step_alerted b usage s Hb Ha) as [Heq Hrange]. split.
  - apply eq_None_not_Some. rewrite BudgetThresholdCrossing_rung, Heq by done.
    destruct (Z.eqb_spec (rung_of b s) 0); lia.
  - intros H0 H1. apply BudgetThresholdCrossing_rung; [done|]. rewrite Heq, H0. simpl.
    split; [done|]. pose proof (rung_of_cases b s' Hb) as Hc. destruct Hb as [_ Ht].
    destruct Hc as [Hz|[->| ->]]; [by exfalso|lia|lia].
Qed.

Lemma alert_rearms_and_never_repeats_witness :
  let usage := mkBudgetUsage "b1" 0 0 100 0 in
  is_Some (BudgetThresholdCrossing sample_budget (usage_step sample_budget usage 100) 8500).
Proof.
  intros usage. apply (alert_rearms_and_never_repeats sample_budget usage 100 8500);
    [by split|simpl; lia|by vm_compute|by vm_compute].
Defined.
