(* ===== verification/Schedule.v ===== *)
(** * Recurrence arithmetic (domain/scheduled_payment.go)

    How a scheduled payment steps from one occurrence to the next, when its
    reminder is due and when it has run its course. *)

From S2P Require Export Domain.

Definition ValidPaymentFrequency (frequency : PaymentFrequency) : bool :=
  bool_decide (frequency ∈ [PaymentMonthly; PaymentQuarterly; PaymentYearly; PaymentCustom]).

Definition PaymentFrequencyMonths (frequency : PaymentFrequency) : Z :=
  if decide (frequency = PaymentMonthly) then 1
  else if decide (frequency = PaymentQuarterly) then 3
  else if decide (frequency = PaymentYearly) then 12
  else 0.

(** Day 0 of the following month. *)
Definition daysInMonth (year month : Z) : Z := Day (Date year (month + 1) 0 0 0 0 0).

Definition AddMonthsClamped (at_ : Time) (months anchorDay : Z) : Time :=
  let target := Date (Year at_) (Month at_ + months) 1 0 0 0 0 in
  let day := if anchorDay <? 1 then Day at_ else anchorDay in
  let last := daysInMonth (Year target) (Month target) in
  let day := if last <? day then last else day in
  Date (Year target) (Month target) day (clock_hour at_) (clock_minute at_) (clock_second at_) 0.

Definition NextPaymentDue (frequency : PaymentFrequency)
    (customIntervalDays anchorDay : Z) (current : Time) : Time :=
  let months := PaymentFrequencyMonths frequency in
  if 0 <? months then AddMonthsClamped current months anchorDay
  else if decide (frequency = PaymentCustom) then
    let customIntervalDays := if customIntervalDays <? 1 then 1 else customIntervalDays in
    AddDate current 0 0 customIntervalDays
  else current.

Definition NextDueFor (payment : ScheduledPayment) (current : Time) : Time :=
  NextPaymentDue (sp_Frequency payment) (sp_CustomIntervalDays payment)
    (Day (sp_StartDate payment)) current.

Definition ScheduledPaymentFinished (payment : ScheduledPayment) (dueAt : Time) : bool :=
  match sp_EndDate payment with
  | Some end_ => After dueAt end_
  | None => false
  end.

Definition ReminderDueAt (payment : ScheduledPayment) (dueAt : Time) : option Time :=
  if sp_ReminderDaysBefore payment <=? 0 then None
  else Some (AddDate dueAt 0 0 (- sp_ReminderDaysBefore payment)).

Example clamp_ex :
  AddMonthsClamped (Date 2023 1 31 9 0 0 0) 1 31 = Date 2023 2 28 9 0 0 0 ∧
  AddMonthsClamped (Date 2023 2 28 9 0 0 0) 1 31 = Date 2023 3 31 9 0 0 0 ∧
  AddMonthsClamped (Date 2023 11 30 9 0 0 0) 3 31 = Date 2024 2 29 9 0 0 0 ∧
  AddDate (Date 2023 1 31 0 0 0 0) 0 1 0 = Date 2023 3 3 0 0 0 0.
Proof. by vm_compute. Qed.

(** ** Lemmas *)

(** The time of day with the fraction of a second dropped. *)
Definition clock (t : Time) : Z :=
  clock_hour t * Hour + clock_minute t * Minute + clock_second t * Second.

Lemma clock_bounds t : 0 ≤ clock t ≤ time_of_day t.
Proof.
  unfold clock, clock_hour, clock_minute, clock_second.
  pose proof (time_of_day_bounds t) as H. revert H. generalize (time_of_day t).
  intros n H. unfold day_ns, Hour, Minute, Second in *. lia_div.
Qed.

Lemma clock_clock n h m s ns :
  0 ≤ n < day_ns → n mod Second = 0 →
  h = n / Hour → m = n mod Hour / Minute → s = n mod Minute / Second → ns = 0 →
  h * Hour + m * Minute + s * Second + ns = n.
Proof. unfold Hour, Minute, Second. intros. subst. lia_div. Qed.

Lemma clock_mod t : clock t mod Second = 0.
Proof.
  unfold clock. change Hour with (3600 * Second). change Minute with (60 * Second).
  generalize (clock_hour t), (clock_minute t), (clock_second t). intros a b c.
  replace (a * (3600 * Second) + b * (60 * Second) + c * Second)
    with ((a * 3600 + b * 60 + c) * Second) by lia.
  apply Z.mod_mul. by vm_compute.
Qed.

Lemma clock_of mi d n :
  1 ≤ d ≤ days_in mi → 0 ≤ n < day_ns → n mod Second = 0 →
  clock ((month_start mi + (d - 1)) * day_ns + n) = n.
Proof.
  intros Hd Hn Hmod. destruct (fields_of_month mi d n Hd Hn) as (_ & _ & Htod & _).
  unfold clock, clock_hour, clock_minute, clock_second. rewrite Htod.
  pose proof (clock_clock n _ _ _ 0 Hn Hmod eq_refl eq_refl eq_refl eq_refl). lia.
Qed.

Lemma daysInMonth_spec mi : daysInMonth (mi / 12) (mi mod 12 + 1) = days_in mi.
Proof.
  unfold daysInMonth. rewrite Date_month_start.
  replace (12 * (mi / 12) + (mi mod 12 + 1 + 1 - 1)) with (mi + 1)
    by (pose proof (div_mod12 mi); lia).
  rewrite month_start_step. pose proof (days_in_bounds mi).
  destruct (fields_of_month mi (days_in mi) 0) as (_ & Hd & _); [lia|by vm_compute|].
  rewrite <- Hd at 2. f_equal. lia.
Qed.

(** What the clamped step lands on: the target month, the anchor day or the
    month's last day, and the same time of day. *)
Definition clamp_day (anchor mi : Z) : Z := Z.min anchor (days_in mi).

Lemma AddMonthsClamped_eq at_ months anchor :
  1 ≤ anchor →
  let mi := month_index at_ + months in
  AddMonthsClamped at_ months anchor
  = (month_start mi + (clamp_day anchor mi - 1)) * day_ns + clock at_.
Proof.
  intros Ha mi. unfold AddMonthsClamped.
  assert (Date (Year at_) (Month at_ + months) 1 0 0 0 0 = month_start mi * day_ns) as ->.
  { rewrite Date_month_start.
    replace (12 * Year at_ + (Month at_ + months - 1)) with mi by (unfold mi, month_index; lia).
    lia. }
  destruct (month_start_fields mi) as (_ & -> & -> & _ & _). rewrite daysInMonth_spec.
  rewrite Date_month_start, div_mod12. unfold clock, clamp_day.
  destruct (Z.ltb_spec anchor 1); [lia|].
  destruct (Z.ltb_spec (days_in mi) anchor); [rewrite Z.min_r by lia|rewrite Z.min_l by lia]; lia.
Qed.

Lemma AddMonthsClamped_fields at_ months anchor :
  1 ≤ anchor →
  let t := AddMonthsClamped at_ months anchor in
  month_index t = month_index at_ + months ∧
  Day t = clamp_day anchor (month_index at_ + months) ∧
  clock t = clock at_ ∧ time_of_day t = clock at_.
Proof.
  intros Ha. cbv zeta. rewrite AddMonthsClamped_eq by done.
  set (mi := month_index at_ + months).
  assert (1 ≤ clamp_day anchor mi ≤ days_in mi) as Hd.
  { pose proof (days_in_bounds mi). unfold clamp_day. lia. }
  assert (0 ≤ clock at_ < day_ns) as Hn.
  { pose proof (clock_bounds at_). pose proof (time_of_day_bounds at_). lia. }
  destruct (fields_of_month mi _ _ Hd Hn) as (-> & -> & -> & _).
  rewrite clock_of by (done || apply clock_mod). done.
Qed.

Lemma AddMonthsClamped_after at_ months anchor :
  1 ≤ anchor → 0 < months → at_ < AddMonthsClamped at_ months anchor.
Proof.
  intros Ha Hm. destruct (AddMonthsClamped_fields at_ months anchor Ha) as (Hmi & _).
  destruct (Z.lt_ge_cases at_ (AddMonthsClamped at_ months anchor)) as [|Hge]; [done|].
  apply month_index_mono in Hge. lia.
Qed.

Lemma Day_pos t : 1 ≤ Day t.
Proof. by destruct (time_fields t) as [[_ [? _]] _]. Qed.

Lemma valid_frequency_cases f :
  ValidPaymentFrequency f = true → 0 < PaymentFrequencyMonths f ∨ f = PaymentCustom.
Proof.
  unfold ValidPaymentFrequency. rewrite bool_decide_eq_true, !elem_of_cons, elem_of_nil.
  intros [->|[->|[->|[->|[]]]]]; first [left; vm_compute; reflexivity|by right].
Qed.

Lemma NextDueFor_after p t :
  ValidPaymentFrequency (sp_Frequency p) = true → t < NextDueFor p t.
Proof.
  intros Hf. unfold NextDueFor, NextPaymentDue.
  destruct (valid_frequency_cases _ Hf) as [Hm|Hc].
  - rewrite (proj2 (Z.ltb_lt _ _) Hm). apply AddMonthsClamped_after; [apply Day_pos|done].
  - rewrite Hc. simpl. rewrite AddDate_days. pose proof day_ns_pos.
    destruct (Z.ltb_spec (sp_CustomIntervalDays p) 1); nia.
Qed.

(** ** The recurrence in closed form *)

(** The occurrence [k] steps after the start date, as the code reaches it. *)
Fixpoint occurrence (p : ScheduledPayment) (k : nat) : Time :=
  match k with
  | O => sp_StartDate p
  | S k => NextDueFor p (occurrence p k)
  end.

(** And as a schedule describes it: [k] periods after the start, on the
    start's day of the month or the month's last day. *)
Definition nth_occurrence (p : ScheduledPayment) (k : nat) : Time :=
  let s := sp_StartDate p in
  let months := PaymentFrequencyMonths (sp_Frequency p) in
  if 0 <? months then
    let mi := month_index s + Z.of_nat k * months in
    (month_start mi + (clamp_day (Day s) mi - 1)) * day_ns + clock s
  else s + Z.of_nat k * Z.max 1 (sp_CustomIntervalDays p) * day_ns.

Lemma occurrence_month p k :
  0 < PaymentFrequencyMonths (sp_Frequency p) →
  month_index (occurrence p k)
    = month_index (sp_StartDate p) + Z.of_nat k * PaymentFrequencyMonths (sp_Frequency p) ∧
  clock (occurrence p k) = clock (sp_StartDate p).
Proof.
  intros Hm. induction k as [|k [IHm IHc]]; [simpl; lia|].
  cbn [occurrence]. unfold NextDueFor, NextPaymentDue.
  rewrite (proj2 (Z.ltb_lt _ _) Hm).
  destruct (AddMonthsClamped_fields (occurrence p k) (PaymentFrequencyMonths (sp_Frequency p))
    (Day (sp_StartDate p)) (Day_pos _)) as (-> & _ & -> & _).
  rewrite IHm, IHc. lia.
Qed.

Lemma NextDueFor_custom p t :
  sp_Frequency p = PaymentCustom →
  NextDueFor p t = t + Z.max 1 (sp_CustomIntervalDays p) * day_ns.
Proof.
  intros Hc. unfold NextDueFor, NextPaymentDue. rewrite Hc. simpl. rewrite AddDate_days.
  destruct (Z.ltb_spec (sp_CustomIntervalDays p) 1);
    [rewrite Z.max_l by lia|rewrite Z.max_r by lia]; done.
Qed.

Lemma occurrence_custom p k :
  sp_Frequency p = PaymentCustom →
  occurrence p k = sp_StartDate p + Z.of_nat k * Z.max 1 (sp_CustomIntervalDays p) * day_ns.
Proof.
  intros Hc. induction k as [|k IH]; [simpl; lia|].
  cbn [occurrence]. rewrite NextDueFor_custom, IH by done.
  generalize (Z.max 1 (sp_CustomIntervalDays p)). intros d. lia.
Qed.

(** ** Properties *)

(** No drift: stepping a schedule [k] times from its start date lands
    exactly on the closed-form [k]-th occurrence.  A monthly, quarterly or
    yearly payment falls on its start day, or on the last day of a month too
    short for it, and returns to its start day afterwards; a custom one falls
    every [CustomIntervalDays] days. *)
Theorem occurrences_do_not_drift p k :
  ValidPaymentFrequency (sp_Frequency p) = true →
  occurrence p (S k) = nth_occurrence p (S k).
Proof.
  intros Hf. unfold nth_occurrence.
  destruct (Z.ltb_spec 0 (PaymentFrequencyMonths (sp_Frequency p))) as [Hm|Hm].
  - cbn [occurrence]. unfold NextDueFor, NextPaymentDue. rewrite (proj2 (Z.ltb_lt _ _) Hm).
    destruct (occurrence_month p k Hm) as [Hmi Hc].
    rewrite AddMonthsClamped_eq by apply Day_pos. rewrite Hmi, Hc.
    replace (month_index (sp_StartDate p) + Z.of_nat k * PaymentFrequencyMonths (sp_Frequency p)
             + PaymentFrequencyMonths (sp_Frequency p))
      with (month_index (sp_StartDate p) + Z.of_nat (S k) * PaymentFrequencyMonths (sp_Frequency p))
      by lia.
    done.
  - destruct (valid_frequency_cases _ Hf) as [|Hcust]; [lia|].
    rewrite <- (occurrence_custom p (S k) Hcust). done.
Qed.

(** A flat of 2023: rent on the 31st. *)
Definition sample_rent : ScheduledPayment :=
  mkScheduledPayment "p1" "alice" "Rent" 90000 "EUR" "home" "Home" [] "" PaymentMonthly 0
    (Date 2023 1 31 9 0 0 0) None (Date 2023 1 31 9 0 0 0) None true 3 false
    (Date 2023 1 1 0 0 0 0) (Date 2023 1 1 0 0 0 0) None.

Lemma occurrences_do_not_drift_witness :
  ValidPaymentFrequency (sp_Frequency sample_rent) = true ∧
  occurrence sample_rent 14 = nth_occurrence sample_rent 14 ∧
  occurrence sample_rent 13 = Date 2024 2 29 9 0 0 0 ∧
  occurrence sample_rent 14 = Date 2024 3 31 9 0 0 0.
Proof.
  split; [reflexivity|]. split; [|by vm_compute].
  exact (occurrences_do_not_drift sample_rent 13 eq_refl).
Defined.

(** Progress: every step of a valid schedule moves strictly into the
    future, whatever instant it starts from, so occurrences are strictly
    increasing and none is produced twice. *)
Theorem occurrences_strictly_increase p t k k' :
  ValidPaymentFrequency (sp_Frequency p) = true →
  t < NextDueFor p t ∧ ((k < k')%nat → occurrence p k < occurrence p k').
Proof.
  intros Hf. split; [by apply NextDueFor_after|]. intros Hk.
  induction k' as [|k' IH]; [lia|]. cbn [occurrence].
  pose proof (NextDueFor_after p (occurrence p k') Hf).
  destruct (decide (k = k')) as [->|Hne]; [done|]. pose proof (IH ltac:(lia)). lia.
Qed.

Lemma occurrences_strictly_increase_witness :
  ValidPaymentFrequency (sp_Frequency sample_rent) = true ∧
  occurrence sample_rent 1 < occurrence sample_rent 2.
Proof.
  split; [reflexivity|].
  apply (occurrences_strictly_increase sample_rent 0 1 2); [reflexivity|lia].
Defined.
