(* ===== verification/Json.v ===== *)
(** * Event payloads as JSON (encoding/json over src/internal/core/domain)

    Domain events are stored as JSON and decoded again by the projections.
    [json] is a document by its value; [Marshal] follows the [json] tags of the
    event structs, [dec_struct] the matching rules of [json.Unmarshal], and
    [DecodeExpenseContribution] and [DecodeBudget] are the two decoders of
    projection.go, with the round trips that make the projections see what the
    services recorded. *)

From S2P Require Export Prelude GoTime GoStrings TimeText Domain.
From Stdlib Require Import Ascii.
#[local] Open Scope Z_scope.

(** ** Documents

    Object members keep their order.  [JTime t] is the RFC 3339 string that
    [time.Time]'s [MarshalJSON] writes for the instant [t]; [JInvalid] stands for bytes that are not a JSON document. *)
#[local] Unset Elimination Schemes.
Inductive json :=
  | JInvalid
  | JNull
  | JBool (b : bool)
  | JInt (z : Z)
  | JFloat (f : float64)
  | JString (s : string)
  | JTime (t : Time)
  | JArray (l : list json)
  | JObject (members : list (string * json)).
#[local] Set Elimination Schemes.

(** [JSON] marshalling fails on a time outside years 0..9999 and on a float
    that is not finite. *)
Fixpoint marshalable (j : json) : bool :=
  match j with
  | JTime t => (0 <=? Year t) && (Year t <=? 9999)
  | JFloat f => match f with S754_zero _ | S754_finite _ _ _ => true | _ => false end
  | JArray l => forallb marshalable l
  | JObject ms => forallb (λ '(_, v), marshalable v) ms
  | _ => true
  end.

(** ** Encoding *)

Definition enc_opt {A} (f : A → json) (o : option A) : json :=
  match o with Some a => f a | None => JNull end.

Definition enc_item (i : ExpenseItem) : json :=
  JObject [("title", JString (it_Title i)); ("quantity", JString (it_Quantity i));
           ("amountMinor", JInt (it_AmountMinor i))].

Definition enc_expense (e : ExpenseRecord) : json :=
  JObject [("id", JString (ex_ID e)); ("ownerID", JString (ex_OwnerID e));
    ("title", JString (ex_Title e)); ("amountMinor", JInt (ex_AmountMinor e));
    ("currency", JString (ex_Currency e)); ("occurredAt", JTime (ex_OccurredAt e));
    ("categoryID", JString (ex_CategoryID e)); ("categoryName", JString (ex_CategoryName e));
    ("tagIDs", JArray (map JString (ex_TagIDs e))); ("status", JString (ex_Status e));
    ("sharedGroupID", JString (ex_SharedGroupID e));
    ("items", JArray (map enc_item (ex_Items e)));
    ("latitude", enc_opt JFloat (ex_Latitude e)); ("longitude", enc_opt JFloat (ex_Longitude e));
    ("address", JString (ex_Address e)); ("receiptObjectKey", JString (ex_ReceiptObjectKey e));
    ("createdAt", JTime (ex_CreatedAt e)); ("updatedAt", JTime (ex_UpdatedAt e));
    ("deletedAt", enc_opt JTime (ex_DeletedAt e))].

Definition enc_budget (b : BudgetRecord) : json :=
  JObject [("id", JString (bd_ID b)); ("ownerID", JString (bd_OwnerID b));
    ("categoryID", JString (bd_CategoryID b)); ("name", JString (bd_Name b));
    ("currency", JString (bd_Currency b)); ("sharedGroupID", JString (bd_SharedGroupID b));
    ("amountLimitMinor", JInt (bd_AmountLimitMinor b));
    ("thresholdPercent", JInt (bd_ThresholdPercent b)); ("period", JString (bd_Period b));
    ("dueAt", enc_opt JTime (bd_DueAt b)); ("createdAt", JTime (bd_CreatedAt b));
    ("updatedAt", JTime (bd_UpdatedAt b)); ("deletedAt", enc_opt JTime (bd_DeletedAt b))].

Definition enc_payment (p : ScheduledPayment) : json :=
  JObject [("id", JString (sp_ID p)); ("ownerID", JString (sp_OwnerID p));
    ("title", JString (sp_Title p)); ("amountMinor", JInt (sp_AmountMinor p));
    ("currency", JString (sp_Currency p)); ("categoryID", JString (sp_CategoryID p));
    ("categoryName", JString (sp_CategoryName p));
    ("tagIDs", JArray (map JString (sp_TagIDs p)));
    ("sharedGroupID", JString (sp_SharedGroupID p)); ("frequency", JString (sp_Frequency p));
    ("customIntervalDays", JInt (sp_CustomIntervalDays p)); ("startDate", JTime (sp_StartDate p));
    ("endDate", enc_opt JTime (sp_EndDate p)); ("nextDueAt", JTime (sp_NextDueAt p));
    ("lastPostedAt", enc_opt JTime (sp_LastPostedAt p)); ("autoPost", JBool (sp_AutoPost p));
    ("reminderDaysBefore", JInt (sp_ReminderDaysBefore p)); ("paused", JBool (sp_Paused p));
    ("createdAt", JTime (sp_CreatedAt p)); ("updatedAt", JTime (sp_UpdatedAt p));
    ("deletedAt", enc_opt JTime (sp_DeletedAt p))].

Definition enc_payload (p : EventPayload) : json :=
  match p with
  | ExpenseAdded e | ExpenseUpdated e => JObject [("expense", enc_expense e)]
  | ExpenseRemoved id owner at_ =>
      JObject [("expense_id", JString id); ("owner_id", JString owner); ("removed_at", JTime at_)]
  | BudgetCreated b | BudgetUpdated b => JObject [("budget", enc_budget b)]
  | BudgetRemoved id owner at_ =>
      JObject [("budget_id", JString id); ("owner_id", JString owner); ("removed_at", JTime at_)]
  | ScheduledPaymentCreated p | ScheduledPaymentUpdated p => JObject [("payment", enc_payment p)]
  | ScheduledPaymentRemoved id owner at_ =>
      JObject [("scheduled_payment_id", JString id); ("owner_id", JString owner);
               ("removed_at", JTime at_)]
  | ScheduledPaymentPosted id owner expense due posted =>
      JObject [("scheduled_payment_id", JString id); ("owner_id", JString owner);
        ("expense_id", JString expense); ("due_at", JTime due); ("posted_at", JTime posted)]
  end.

(** The library's error values; their text is not modelled. *)
Definition marshal_error : error := ErrorsNew "json: unsupported value".
Definition unmarshal_error : error := ErrorsNew "json: cannot unmarshal".

Definition Marshal (p : EventPayload) : error + json :=
  let j := enc_payload p in
  if marshalable j then inr j else inl marshal_error.

(** ** Decoding

    A decoder updates the value it decodes into; [None] is an error.  Null
    leaves a scalar or a struct alone and clears a pointer or a slice. *)

Definition dec (A : Type) : Type := json → A → option A.

Definition dec_string : dec string := λ j old,
  match j with
  | JString s => Some s
  | JTime t => Some (FormatRFC3339Nano t)
  | JNull => Some old
  | _ => None
  end.
Definition dec_int64 : dec Z := λ j old,
  match j with
  | JInt z => if (min_int64 <=? z) && (z <=? max_int64) then Some z else None
  | JNull => Some old
  | _ => None
  end.
Definition dec_bool : dec bool := λ j old,
  match j with JBool b => Some b | JNull => Some old | _ => None end.
Definition dec_time : dec Time := λ j old,
  match j with JTime t => Some t | JString s => ParseRFC3339 s | JNull => Some old | _ => None end.
Definition dec_float64 : dec float64 := λ j old,
  match j with
  | JFloat f => Some f
  | JInt z => Some (binary_normalize 53 1024 z 0 false)
  | JNull => Some old
  | _ => None
  end.
Definition dec_ptr {A} (f : dec A) (zero : A) : dec (option A) := λ j old,
  match j with JNull => Some None | _ => Some <$> f j (default zero old) end.
Definition dec_slice {A} (f : dec A) (zero : A) : dec (list A) := λ j _,
  match j with JNull => Some [] | JArray l => mapM (λ j, f j zero) l | _ => None end.

(** The name under which a member matches a field when none is spelled exactly
    like it: letters by their case folding, with the two non-ASCII characters
    (long s and the Kelvin sign) that fold to an ASCII letter. *)
Fixpoint fold_bytes (l : bytes) : bytes :=
  match l with
  | [] => []
  | c1 :: l1 =>
      match l1 with
      | c2 :: l2 =>
          if (byte_of c1 =? 197)%N && (byte_of c2 =? 191)%N then "S"%char :: fold_bytes l2
          else match l2 with
          | c3 :: l3 =>
              if (byte_of c1 =? 226)%N && (byte_of c2 =? 132)%N && (byte_of c3 =? 170)%N
              then "K"%char :: fold_bytes l3 else upper_byte c1 :: fold_bytes l1
          | [] => upper_byte c1 :: fold_bytes l1
          end
      | [] => [upper_byte c1]
      end
  end.
Definition fold_name (s : string) : bytes := fold_bytes (String.list_ascii_of_string s).

Definition fields (S : Type) : Type := list (string * (json → S → option S)).

Definition find_field {S} (fs : fields S) (key : string) : option (json → S → option S) :=
  match find (λ f, String.eqb f.1 key) fs with
  | Some f => Some f.2
  | None => snd <$> find (λ f, bool_decide (fold_name f.1 = fold_name key)) fs
  end.

(** Members in order; a later duplicate is decoded into what an earlier one
    left, an unknown member is skipped. *)
Definition dec_members {S} (fs : fields S) : list (string * json) → S → option S :=
  fix go ms s :=
    match ms with
    | [] => Some s
    | (key, v) :: ms =>
        match find_field fs key with
        | Some f => match f v s with Some s => go ms s | None => None end
        | None => go ms s
        end
    end.

Definition dec_struct {S} (fs : fields S) : dec S := λ j s,
  match j with JNull => Some s | JObject ms => dec_members fs ms s | _ => None end.

Definition field {S T} (get : S → T) `{!Setter get} (f : dec T) : json → S → option S := λ j s,
  (λ v, set_field (proj:=get) (λ _, v) s) <$> f j (get s).
Arguments field {S T} get {Setter0} f.

Definition item_fields : fields ExpenseItem :=
  [("title", field it_Title dec_string); ("quantity", field it_Quantity dec_string);
   ("amountMinor", field it_AmountMinor dec_int64)].

Definition zero_item : ExpenseItem := mkExpenseItem "" "" 0.

Definition expense_fields : fields ExpenseRecord :=
  [("id", field ex_ID dec_string); ("ownerID", field ex_OwnerID dec_string);
   ("title", field ex_Title dec_string); ("amountMinor", field ex_AmountMinor dec_int64);
   ("currency", field ex_Currency dec_string); ("occurredAt", field ex_OccurredAt dec_time);
   ("categoryID", field ex_CategoryID dec_string);
   ("categoryName", field ex_CategoryName dec_string);
   ("tagIDs", field ex_TagIDs (dec_slice dec_string "")); ("status", field ex_Status dec_string);
   ("sharedGroupID", field ex_SharedGroupID dec_string);
   ("items", field ex_Items (dec_slice (dec_struct item_fields) zero_item));
   ("latitude", field ex_Latitude (dec_ptr dec_float64 (S754_zero false)));
   ("longitude", field ex_Longitude (dec_ptr dec_float64 (S754_zero false)));
   ("address", field ex_Address dec_string);
   ("receiptObjectKey", field ex_ReceiptObjectKey dec_string);
   ("createdAt", field ex_CreatedAt dec_time); ("updatedAt", field ex_UpdatedAt dec_time);
   ("deletedAt", field ex_DeletedAt (dec_ptr dec_time 0))].

Definition budget_fields : fields BudgetRecord :=
  [("id", field bd_ID dec_string); ("ownerID", field bd_OwnerID dec_string);
   ("categoryID", field bd_CategoryID dec_string); ("name", field bd_Name dec_string);
   ("currency", field bd_Currency dec_string);
   ("sharedGroupID", field bd_SharedGroupID dec_string);
   ("amountLimitMinor", field bd_AmountLimitMinor dec_int64);
   ("thresholdPercent", field bd_ThresholdPercent dec_int64);
   ("period", field bd_Period dec_string); ("dueAt", field bd_DueAt (dec_ptr dec_time 0));
   ("createdAt", field bd_CreatedAt dec_time); ("updatedAt", field bd_UpdatedAt dec_time);
   ("deletedAt", field bd_DeletedAt (dec_ptr dec_time 0))].

(** The zero values of Go's structs. *)
Definition zero_expense : ExpenseRecord :=
  mkExpenseRecord "" "" "" 0 "" 0 "" "" [] "" "" [] None None "" "" 0 0 None.
Definition zero_contribution : ExpenseContribution :=
  mkExpenseContribution "" "" "" "" [] 0 0 false.
Definition zero_budget : BudgetRecord :=
  mkBudgetRecord "" "" "" "" "" "" 0 0 "" None 0 0 None.

Record expenseEnvelope := mkExpenseEnvelope {
  ee_Expense : ExpenseRecord; ee_ExpenseID : string; ee_OwnerID : string
}.
#[export] Instance eta_expenseEnvelope : Eta expenseEnvelope := λ r,
  mkExpenseEnvelope (ee_Expense r) (ee_ExpenseID r) (ee_OwnerID r).
Definition expenseEnvelope_fields : fields expenseEnvelope :=
  [("expense", field ee_Expense (dec_struct expense_fields));
   ("expense_id", field ee_ExpenseID dec_string); ("owner_id", field ee_OwnerID dec_string)].

Record budgetEnvelope := mkBudgetEnvelope {
  be_Budget : BudgetRecord; be_BudgetID : string; be_OwnerID : string;
  be_LegacyID : string; be_LegacyOwner : string; be_LegacyRemove : Time
}.
#[export] Instance eta_budgetEnvelope : Eta budgetEnvelope := λ r,
  mkBudgetEnvelope (be_Budget r) (be_BudgetID r) (be_OwnerID r) (be_LegacyID r)
    (be_LegacyOwner r) (be_LegacyRemove r).
Definition budgetEnvelope_fields : fields budgetEnvelope :=
  [("budget", field be_Budget (dec_struct budget_fields));
   ("budget_id", field be_BudgetID dec_string); ("owner_id", field be_OwnerID dec_string);
   ("BudgetID", field be_LegacyID dec_string); ("OwnerID", field be_LegacyOwner dec_string);
   ("RemovedAt", field be_LegacyRemove dec_time)].

(** ** The decoders of projection.go

    The result is the error, or the value and whether the event carries one. *)

Definition DecodeExpenseContribution (eventType : string) (payload : json)
    : error + (ExpenseContribution * bool) :=
  if negb (str_in eventType ["expense_added"; "expense_updated"; "expense_removed"])
  then inr (zero_contribution, false)
  else match dec_struct expenseEnvelope_fields payload (mkExpenseEnvelope zero_expense "" "") with
  | None => inl (Errorf ("decode " +:+ eventType +:+ " payload: ") unmarshal_error "")
  | Some envelope =>
      let no_id := inl (ErrorsNew (eventType +:+ " payload has no expense id")) in
      if eventType =s "expense_removed" then
        let id := if ee_ExpenseID envelope =s "" then ex_ID (ee_Expense envelope)
                  else ee_ExpenseID envelope in
        if id =s "" then no_id
        else inr (mkExpenseContribution id (ee_OwnerID envelope) "" "" [] 0 0 false, true)
      else
        let expense := ee_Expense envelope in
        if ex_ID expense =s "" then no_id
        else inr (mkExpenseContribution (ex_ID expense) (ex_OwnerID expense)
          (ex_CategoryID expense) (ex_Currency expense) (ex_TagIDs expense)
          (ex_AmountMinor expense) (ex_OccurredAt expense)
          (match ex_DeletedAt expense with None => true | Some _ => false end), true)
  end.

(** [now] is the reading of the clock taken when a removal carries no time. *)
Definition DecodeBudget (now : Time) (eventType : string) (payload : json)
    : error + (BudgetRecord * bool) :=
  if negb (str_in eventType ["budget_created"; "budget_updated"; "budget_removed"])
  then inr (zero_budget, false)
  else match dec_struct budgetEnvelope_fields payload (mkBudgetEnvelope zero_budget "" "" "" "" 0) with
  | None => inl (Errorf ("decode " +:+ eventType +:+ " payload: ") unmarshal_error "")
  | Some envelope =>
      let no_id := inl (ErrorsNew (eventType +:+ " payload has no budget id")) in
      if eventType =s "budget_removed" then
        let '(id, owner) :=
          if be_BudgetID envelope =s ""
          then (be_LegacyID envelope, be_LegacyOwner envelope)
          else (be_BudgetID envelope, be_OwnerID envelope) in
        let '(id, owner) :=
          if id =s ""
          then (bd_ID (be_Budget envelope), bd_OwnerID (be_Budget envelope))
          else (id, owner) in
        if id =s "" then no_id
        else
          let removed := if IsZero (be_LegacyRemove envelope) then now
                         else be_LegacyRemove envelope in
          inr (zero_budget <| bd_ID := id |> <| bd_OwnerID := owner |>
                 <| bd_DeletedAt := Some removed |>, true)
      else if bd_ID (be_Budget envelope) =s "" then no_id
      else inr (be_Budget envelope, true)
  end.

(** The actor recorded in an event's envelope metadata (audit_projection.go). *)
Definition actorFromMetadata (metadata : json) : string :=
  match dec_struct [("actor_id", dec_string)] metadata "" with
  | None => ""
  | Some actor => actor
  end.

(** ** Round trips *)

Definition fits (e : ExpenseRecord) : Prop :=
  is_int64 (ex_AmountMinor e) ∧ Forall (λ i, is_int64 (it_AmountMinor i)) (ex_Items e).
Definition budget_fits (b : BudgetRecord) : Prop :=
  is_int64 (bd_AmountLimitMinor b) ∧ is_int64 (bd_ThresholdPercent b).

(** What the projections keep of an expense. *)
Definition contribution_of (e : ExpenseRecord) : ExpenseContribution :=
  mkExpenseContribution (ex_ID e) (ex_OwnerID e) (ex_CategoryID e) (ex_Currency e) (ex_TagIDs e)
    (ex_AmountMinor e) (ex_OccurredAt e) (bool_decide (ex_DeletedAt e = None)).

Lemma dec_int64_enc z old : is_int64 z → dec_int64 (JInt z) old = Some z.
Proof.
  intros [H1 H2]. unfold dec_int64. by rewrite (proj2 (Z.leb_le _ _) H1), (proj2 (Z.leb_le _ _) H2).
Qed.

Lemma dec_strings_enc l old : dec_slice dec_string "" (JArray (map JString l)) old = Some l.
Proof. simpl. induction l as [|s l IH]; [done|]. simpl. by rewrite IH. Qed.

Lemma dec_members_cons {S} (fs : fields S) key v ms s f s' r :
  find_field fs key = Some f → f v s = Some s' → dec_members fs ms s' = r →
  dec_members fs ((key, v) :: ms) s = r.
Proof. intros Hf Hv Hr. cbn [dec_members]. by rewrite Hf, Hv. Qed.

Lemma field_ok {S T} (get : S → T) `{!Setter get} (f : dec T) j s v :
  f j (get s) = Some v → field get f j s = Some (set_field (proj:=get) (λ _, v) s).
Proof. intros H. unfold field. by rewrite H. Qed.

(** Decodes the members one after the other, keeping the value built so far
    in constructor form. *)
Ltac dec_one lems :=
  match goal with
  | |- dec_members _ [] _ = _ => reflexivity
  | |- dec_members ?fs ((?key, _) :: _) ?s = _ =>
      let f := eval cbn in (find_field fs key) in
      eapply dec_members_cons;
      [lazymatch f with Some ?f => instantiate (1 := f) end; reflexivity
      | eapply field_ok; lems | ];
      match goal with
      | |- dec_members _ _ ?s = _ => let s' := eval lazy in s in change s with s'
      end
  end.

Lemma dec_item_enc i : is_int64 (it_AmountMinor i) →
  dec_struct item_fields (enc_item i) zero_item = Some i.
Proof.
  intros H. destruct i as [t q a]. unfold dec_struct, enc_item.
  repeat dec_one ltac:(first [reflexivity | by apply dec_int64_enc]).
Qed.

Lemma dec_items_enc l old : Forall (λ i, is_int64 (it_AmountMinor i)) l →
  dec_slice (dec_struct item_fields) zero_item (JArray (map enc_item l)) old = Some l.
Proof.
  intros H. cbn [dec_slice]. induction H as [|i l Hi Hl IH]; [done|].
  cbn [map mapM]. rewrite dec_item_enc by done. cbn [mbind option_bind]. by rewrite IH.
Qed.

Lemma dec_ptr_time_enc t : dec_ptr dec_time 0 (enc_opt JTime t) None = Some t.
Proof. by destruct t. Qed.
Lemma dec_ptr_float_enc f :
  dec_ptr dec_float64 (S754_zero false) (enc_opt JFloat f) None = Some f.
Proof. by destruct f. Qed.

Ltac dec_all := unfold dec_struct, enc_expense, enc_budget;
  repeat dec_one ltac:(first
    [ by apply dec_int64_enc | by apply dec_items_enc | apply dec_strings_enc
    | apply dec_ptr_time_enc | apply dec_ptr_float_enc | reflexivity ]).

Lemma expense_roundtrip e : fits e →
  dec_struct expense_fields (enc_expense e) zero_expense = Some e.
Proof. intros [Ha Hi]. destruct e. simpl in Ha, Hi. dec_all. Qed.

Lemma budget_roundtrip b : budget_fits b →
  dec_struct budget_fields (enc_budget b) zero_budget = Some b.
Proof. intros [Ha Hi]. destruct b. simpl in Ha, Hi. dec_all. Qed.

Lemma Marshal_ok p j : Marshal p = inr j → j = enc_payload p.
Proof. unfold Marshal. destruct (marshalable _); naive_solver. Qed.

Lemma dec_expense_envelope e : fits e →
  dec_struct expenseEnvelope_fields (JObject [("expense", enc_expense e)])
    (mkExpenseEnvelope zero_expense "" "") = Some (mkExpenseEnvelope e "" "").
Proof.
  intros H. unfold dec_struct at 1. cbn -[enc_expense dec_struct expense_fields].
  unfold field. cbn -[enc_expense dec_struct expense_fields]. by rewrite expense_roundtrip.
Qed.

Lemma dec_budget_envelope b : budget_fits b →
  dec_struct budgetEnvelope_fields (JObject [("budget", enc_budget b)])
    (mkBudgetEnvelope zero_budget "" "" "" "" 0) = Some (mkBudgetEnvelope b "" "" "" "" 0).
Proof.
  intros H. unfold dec_struct at 1. cbn -[enc_budget dec_struct budget_fields].
  unfold field. cbn -[enc_budget dec_struct budget_fields]. by rewrite budget_roundtrip.
Qed.

(** The event type under which the services record a payload. *)
Definition event_type_of (p : EventPayload) : string :=
  match p with
  | ExpenseAdded _ => "expense_added"
  | ExpenseUpdated _ => "expense_updated"
  | ExpenseRemoved _ _ _ => "expense_removed"
  | BudgetCreated _ => "budget_created"
  | BudgetUpdated _ => "budget_updated"
  | BudgetRemoved _ _ _ => "budget_removed"
  | ScheduledPaymentCreated _ => "scheduled_payment_created"
  | ScheduledPaymentUpdated _ => "scheduled_payment_updated"
  | ScheduledPaymentRemoved _ _ _ => "scheduled_payment_removed"
  | ScheduledPaymentPosted _ _ _ _ _ => "scheduled_payment_posted"
  end.

(** The contribution an event payload implies, when it is about an expense. *)
Definition payload_contribution (p : EventPayload) : option ExpenseContribution :=
  match p with
  | ExpenseAdded e | ExpenseUpdated e => Some (contribution_of e)
  | ExpenseRemoved id owner _ => Some (mkExpenseContribution id owner "" "" [] 0 0 false)
  | _ => None
  end.

Definition payload_well_formed (p : EventPayload) : Prop :=
  match p with
  | ExpenseAdded e | ExpenseUpdated e => fits e ∧ ex_ID e ≠ ""
  | ExpenseRemoved id _ _ => id ≠ ""
  | BudgetCreated b | BudgetUpdated b => budget_fits b ∧ bd_ID b ≠ ""
  | BudgetRemoved id _ _ => id ≠ ""
  | _ => True
  end.

Lemma decode_contribution (p : EventPayload) (Hp : payload_well_formed p) :
  DecodeExpenseContribution (event_type_of p) (enc_payload p) =
    inr (default zero_contribution (payload_contribution p),
         bool_decide (payload_contribution p ≠ None)).
Proof.
  destruct p; try reflexivity; simpl in Hp; destruct_and?;
    unfold DecodeExpenseContribution; cbn [enc_payload event_type_of].
  1,2: rewrite dec_expense_envelope by done; cbn; rewrite eqs_ne by done;
    unfold contribution_of; by destruct (ex_DeletedAt expense).
  by destruct expense_id.
Qed.

(** [C38] Decoding an event the services recorded gives back exactly the
    contribution it carries: an added or updated expense every field the
    projections count, a removal its identifiers, and an event about anything
    else no contribution at all. *)
Theorem contribution_event_roundtrip (p : EventPayload) (j : json)
    (Hm : Marshal p = inr j) (Hp : payload_well_formed p) :
  DecodeExpenseContribution (event_type_of p) j =
    inr (default zero_contribution (payload_contribution p),
         bool_decide (payload_contribution p ≠ None)).
Proof. apply Marshal_ok in Hm as ->. by apply decode_contribution. Qed.

(** Decoding a budget event gives back the recorded budget, and a removal
    the removed budget's identifiers with a removal time: of the wire format in
    use the decoder takes the time of decoding, not the recorded one. *)
Theorem budget_event_roundtrip (now : Time) (p : EventPayload) (j : json)
    (Hm : Marshal p = inr j) (Hp : payload_well_formed p) :
  DecodeBudget now (event_type_of p) j =
    match p with
    | BudgetCreated b | BudgetUpdated b => inr (b, true)
    | BudgetRemoved id owner _ =>
        inr (zero_budget <| bd_ID := id |> <| bd_OwnerID := owner |>
               <| bd_DeletedAt := Some now |>, true)
    | _ => inr (zero_budget, false)
    end.
Proof.
  apply Marshal_ok in Hm as ->.
  destruct p; try reflexivity; simpl in Hp; destruct_and?;
    unfold DecodeBudget; cbn [enc_payload event_type_of].
  1,2: rewrite dec_budget_envelope by done; cbn; by rewrite eqs_ne by done.
  by destruct budget_id.
Qed.

(** ** Examples *)

Definition sample_expense : ExpenseRecord :=
  zero_expense <| ex_ID := "e1" |> <| ex_OwnerID := "u1" |> <| ex_AmountMinor := 1250 |>
    <| ex_Currency := "EUR" |> <| ex_CategoryID := "food" |> <| ex_TagIDs := ["t1"; "t2"] |>
    <| ex_Items := [mkExpenseItem "Tea" "2" 1250] |> <| ex_OccurredAt := FromUnixMilli 1000 |>.

Lemma sample_expense_fits : fits sample_expense ∧ ex_ID sample_expense ≠ "".
Proof.
  unfold fits, is_int64. split; [split|]; [done| |done]. by constructor; [|constructor].
Qed.

Lemma contribution_event_roundtrip_witness :
  DecodeExpenseContribution "expense_added" (enc_payload (ExpenseAdded sample_expense)) =
    inr (contribution_of sample_expense, true).
Proof.
  apply (contribution_event_roundtrip (ExpenseAdded sample_expense));
    [by vm_compute | apply sample_expense_fits].
Defined.

Lemma budget_event_roundtrip_witness :
  DecodeBudget (5 * Second) "budget_removed" (enc_payload (BudgetRemoved "b1" "u1" Second)) =
    inr (zero_budget <| bd_ID := "b1" |> <| bd_OwnerID := "u1" |>
           <| bd_DeletedAt := Some (5 * Second) |>, true).
Proof.
  apply (budget_event_roundtrip (5 * Second) (BudgetRemoved "b1" "u1" Second));
    [by vm_compute | done].
Defined.
