(* ===== verification/Outbox.v ===== *)
(** * The outbox engine (src/pkg/outbox)

    [Policy] with its retry schedule, the messages and results a store
    exchanges with the engine, the [Store] and [Handler] interfaces, and the
    [Engine] that polls a store for one handler and counts what happened. *)

From S2P Require Export Prelude GoTime GoStrings Domain Json.

(** ** Retry policy (outbox.go) *)

Record Policy := mkPolicy {
  MaxAttempts : Z; BaseBackoff : Duration; MaxBackoff : Duration; LeaseTTL : Duration
}.
#[export] Instance eta_Policy : Eta Policy := λ r,
  mkPolicy (MaxAttempts r) (BaseBackoff r) (MaxBackoff r) (LeaseTTL r).

Definition DefaultPolicy : Policy := mkPolicy 8 Second (5 * Minute) Minute.

(** [for i := 1; i < attempts && delay < maximum; i++ { delay *= 2 }]; the
    number of iterations left is [attempts - i]. *)
Fixpoint double_while (n : nat) (delay maximum : Duration) : Duration :=
  match n with
  | O => delay
  | S n => if delay <? maximum then double_while n (wrap64 (delay * 2)) maximum else delay
  end.

Definition RetryDelay (p : Policy) (attempts : Z) : Duration :=
  let base := if BaseBackoff p <=? 0 then Second else BaseBackoff p in
  let maximum := if MaxBackoff p <=? 0 then 5 * Minute else MaxBackoff p in
  let delay := double_while (Z.to_nat (attempts - 1)) base maximum in
  if maximum <? delay then maximum else delay.

Definition normalise (p : Policy) : Policy :=
  let defaults := DefaultPolicy in
  mkPolicy
    (if MaxAttempts p <=? 0 then MaxAttempts defaults else MaxAttempts p)
    (if BaseBackoff p <=? 0 then BaseBackoff defaults else BaseBackoff p)
    (if MaxBackoff p <=? 0 then MaxBackoff defaults else MaxBackoff p)
    (if LeaseTTL p <=? 0 then LeaseTTL defaults else LeaseTTL p).

(** ** Messages and results *)

Record Message := mkMessage {
  OutboxID : string; EventID : string; GlobalSeq : Z; AggregateType : string;
  AggregateID : string; AggregateVersion : Z; EventType : string; Payload : json;
  Metadata : json; OccurredAt : Time; Attempts : Z; Replay : bool
}.

#[export] Instance eta_Message : Eta Message := λ r,
  mkMessage (OutboxID r) (EventID r) (GlobalSeq r) (AggregateType r) (AggregateID r)
    (AggregateVersion r) (EventType r) (Payload r) (Metadata r) (OccurredAt r) (Attempts r)
    (Replay r).

Definition zero_Message : Message :=
  mkMessage "" "" 0 "" "" 0 "" JInvalid JInvalid 0 0 false.

Inductive Status := Idle | Processed | Retried | DeadLettered.
#[export] Instance Status_eq_dec : EqDecision Status.
Proof. solve_decision. Defined.

Definition Status_String (s : Status) : string :=
  match s with
  | Processed => "processed"
  | Retried => "retried"
  | DeadLettered => "dead_lettered"
  | Idle => "idle"
  end.

Record Result := mkResult { res_Status : Status; res_Message : Message; res_Err : option error }.

Definition ErrNoStore : error := Sentinel "outbox.ErrNoStore" "outbox store is required".
Definition ErrNoHandler : error := Sentinel "outbox.ErrNoHandler" "outbox handler is required".

(** ** The interfaces *)

Record Handler (W : Type) := mkHandler {
  Name : string;
  AggregateTypes : list string;
  Handle : Message → M W ()
}.
Arguments mkHandler {W}. Arguments Name {W}. Arguments AggregateTypes {W}. Arguments Handle {W}.

Class Store (W : Type) := {
  ProcessNext : string → list string → Policy → string → (Message → M W ()) → M W Result;
  Lag : string → M W Z
}.

(** ** The engine (engine.go)

    The counters of one engine; [processed], [retried] and [deadLettered] are
    [atomic.Uint64]. *)

Record Options := mkOptions {
  o_WorkerID : string; o_Policy : Policy; o_IdleInterval : Duration; o_MaxDrain : Z
}.

Record Engine := mkEngine {
  processed : Z; retried : Z; deadLettered : Z; lag : Z;
  lastSuccessAt : Time; lastFailureAt : Time; lastError : string
}.
#[export] Instance eta_Engine : Eta Engine := λ r,
  mkEngine (processed r) (retried r) (deadLettered r) (lag r) (lastSuccessAt r)
    (lastFailureAt r) (lastError r).

Definition wrap_uint64 (z : Z) : Z := z mod 2 ^ 64.

Record Stats := mkStats {
  st_Subscription : string; st_Processed : Z; st_Retried : Z; st_DeadLettered : Z;
  st_LastSuccessAt : Time; st_LastFailureAt : Time; st_LastError : string; st_Lag : Z
}.

Section Engine.
Context {W : Type} `{Store W}.
(** The injected [Clock] and where the engine lives in the state. *)
Context (Clock : M W Time) (engine : Lens W Engine).
Context (host_pid : string).

(** [NewEngine]: a nil store or handler is [None]. *)
Definition NewEngine (store : option ()) (handler : option (Handler W)) (options : Options)
    : error + (Handler W * Options * Engine) :=
  match store, handler with
  | None, _ => inl ErrNoStore
  | _, None => inl ErrNoHandler
  | Some _, Some handler =>
      if Name handler =s "" then inl (ErrorsNew "outbox handler must have a name")
      else inr (handler,
        mkOptions
          (if o_WorkerID options =s "" then host_pid else o_WorkerID options)
          (normalise (o_Policy options))
          (if o_IdleInterval options <=? 0 then 2 * Second else o_IdleInterval options)
          (if o_MaxDrain options <=? 0 then 100 else o_MaxDrain options),
        mkEngine 0 0 0 0 0 0 "")
  end.

Definition update_engine (f : Engine → Engine) : M W () :=
  modify (λ w, lens_set engine (f (lens_get engine w)) w).

Definition recordFailure (err : option error) : M W () :=
  at_ ← Clock;
  update_engine (λ e, let e := e <| lastFailureAt := at_ |> in
    match err with Some err => e <| lastError := ErrorText err |> | None => e end).

Definition record (result : Result) : M W () :=
  match res_Status result with
  | Processed =>
      update_engine (λ e, e <| processed := wrap_uint64 (processed e + 1) |>);;
      at_ ← Clock;
      update_engine (λ e, e <| lastSuccessAt := at_ |>)
  | Retried =>
      update_engine (λ e, e <| retried := wrap_uint64 (retried e + 1) |>);;
      recordFailure (res_Err result)
  | DeadLettered =>
      update_engine (λ e, e <| deadLettered := wrap_uint64 (deadLettered e + 1) |>);;
      recordFailure (res_Err result)
  | Idle => mret ()
  end.

Definition Step (handler : Handler W) (options : Options) : M W Result :=
  result ← catch (ProcessNext (Name handler) (AggregateTypes handler) (o_Policy options)
    (o_WorkerID options) (Handle handler));
  match result with
  | inl err => recordFailure (Some err);; throw err
  | inr result => record result;; mret result
  end.

(** The inner loop of [Run]: at most [MaxDrain] steps, stopping at the first
    idle poll or error, returning how many messages it drained. *)
Fixpoint drain_loop (handler : Handler W) (options : Options) (n : nat) : M W nat :=
  match n with
  | O => mret O
  | S n =>
      result ← catch (Step handler options);
      match result with
      | inl _ => mret O
      | inr result =>
          if decide (res_Status result = Idle) then mret O
          else drained ← drain_loop handler options n; mret (S drained)
      end
  end.

Definition refreshLag (handler : Handler W) : M W () :=
  result ← catch (Lag (Name handler));
  match result with
  | inl _ => mret ()
  | inr n => update_engine (λ e, e <| lag := n |>)
  end.

(** [Run] until the context is cancelled, which happens after [polls] polls. *)
Fixpoint Run (handler : Handler W) (options : Options) (polls : nat) : M W () :=
  match polls with
  | O => mret ()
  | S polls =>
      _ ← drain_loop handler options (Z.to_nat (o_MaxDrain options));
      refreshLag handler;;
      Run handler options polls
  end.

Definition engine_Stats (handler : Handler W) (e : Engine) : Stats :=
  mkStats (Name handler) (processed e) (retried e) (deadLettered e) (lastSuccessAt e)
    (lastFailureAt e) (lastError e) (lag e).

Definition Health (handler : Handler W) (staleness : Duration) : M W () :=
  stats ← gets (λ w, engine_Stats handler (lens_get engine w));
  n ← map_err (λ e, Errorf ("read " +:+ st_Subscription stats +:+ " lag: ") e "")
    (Lag (st_Subscription stats));
  update_engine (λ e, e <| lag := n |>);;
  if n =? 0 then mret ()
  else
    let last := if IsZero (st_LastSuccessAt stats) then st_LastFailureAt stats
                else st_LastSuccessAt stats in
    if IsZero last then mret ()
    else
      t ← Clock;
      if staleness <? Sub t last then
        throw (ErrorsNew ("subscription " +:+ st_Subscription stats +:+ " has " +:+ Itoa n
          +:+ " pending messages and has not progressed since " +:+ FormatRFC3339 last))
      else mret ().
End Engine.

(** ** The retry schedule *)

(** The loop doubles until it reaches the cap: with room for one more doubling
    below 2^63 its result is the uncapped power, or something past the cap. *)
Lemma double_while_spec n : ∀ delay maximum,
  0 < delay → 0 < maximum ≤ 2 ^ 62 →
  let d := double_while n delay maximum in
  (d = delay * 2 ^ Z.of_nat n ∨ maximum ≤ d) ∧ d ≤ Z.max delay (2 * maximum) ∧
  (maximum ≤ d → maximum ≤ delay * 2 ^ Z.of_nat n) ∧ 0 < d.
Proof.
  induction n as [|n IH]; intros delay maximum Hd Hm; cbn zeta.
  { simpl. rewrite Z.mul_1_r. lia. }
  cbn [double_while]. destruct (Z.ltb_spec delay maximum).
  - rewrite wrap64_id by (unfold is_int64, min_int64, max_int64; lia).
    destruct (IH (delay * 2) maximum ltac:(lia) Hm) as (H1 & H2 & H3 & H4).
    rewrite Nat2Z.inj_succ, Z.pow_succ_r by lia.
    rewrite <- Z.mul_assoc in H1, H3. lia.
  - pose proof (Z.pow_pos_nonneg 2 (Z.of_nat (S n))). nia.
Qed.

(** A policy whose effective cap leaves room for a doubling in 64 bits: any cap
    up to 146 years. *)
Definition policy_in_range (p : Policy) : Prop := MaxBackoff p ≤ 2 ^ 62.

(** The retry delay after [attempts] failed deliveries is the base backoff
    doubled [attempts - 1] times and capped at the maximum, with one second and
    five minutes standing in for unset bounds: no attempt count makes the
    64-bit doubling overflow, and every delay is positive. *)
Theorem retry_delay_closed_form (p : Policy) (attempts : Z)
    (Hp : policy_in_range p) (Ha : 1 ≤ attempts) :
  let base := if BaseBackoff p <=? 0 then Second else BaseBackoff p in
  let maximum := if MaxBackoff p <=? 0 then 5 * Minute else MaxBackoff p in
  RetryDelay p attempts = Z.min maximum (base * 2 ^ (attempts - 1)) ∧
  0 < RetryDelay p attempts.
Proof.
  intros base maximum.
  assert (0 < base) as Hb by (unfold base, Second; destruct (Z.leb_spec (BaseBackoff p) 0); lia).
  assert (0 < maximum ≤ 2 ^ 62) as Hm.
  { unfold maximum, policy_in_range, Minute, Second in *.
    destruct (Z.leb_spec (MaxBackoff p) 0); lia. }
  pose proof (double_while_spec (Z.to_nat (attempts - 1)) base maximum Hb Hm) as Hs.
  unfold RetryDelay. fold base maximum. cbn zeta in *.
  rewrite Z2Nat.id in Hs by lia.
  destruct (Z.ltb_spec maximum (double_while (Z.to_nat (attempts - 1)) base maximum)); lia.
Qed.

Lemma retry_delay_closed_form_witness :
  RetryDelay DefaultPolicy 200 = Z.min (5 * Minute) (Second * 2 ^ 199) ∧
  0 < RetryDelay DefaultPolicy 200.
Proof. apply (retry_delay_closed_form DefaultPolicy 200); [by unfold policy_in_range|lia]. Defined.

(** ** What the engine counts *)

Section EngineLemmas.
Context {W : Type} `{Store W}.
Context (Clock : M W Time) (engine : Lens W Engine) `{!LensLaws engine}.

(** The clock answers, and neither it nor the store touches the engine's own
    counters, which are unexported fields of the engine. *)
Class EngineFrame := {
  clock_total w : ∃ w' t, Clock w = (w', inr t) ∧ lens_get engine w' = lens_get engine w;
  process_frame s types p worker apply w :
    lens_get engine (ProcessNext s types p worker apply w).1 = lens_get engine w;
  lag_frame s w : lens_get engine (Lag s w).1 = lens_get engine w
}.
Context `{!EngineFrame}.

Definition outcomes (e : Engine) : Z := processed e + retried e + deadLettered e.

Lemma recordFailure_frame err w : ∃ w',
  recordFailure Clock engine err w = (w', inr ()) ∧
  outcomes (lens_get engine w') = outcomes (lens_get engine w) ∧
  processed (lens_get engine w') = processed (lens_get engine w).
Proof using All.
  destruct (clock_total w) as (w1 & t & Hc & Hf).
  unfold recordFailure, mbind, M_bind. rewrite Hc. eexists. split; [done|].
  rewrite lens_get_set, Hf. by destruct err.
Qed.

Lemma record_counts r w : ∃ w',
  record Clock engine r w = (w', inr ()) ∧
  wrap_uint64 (outcomes (lens_get engine w')) =
    wrap_uint64 (outcomes (lens_get engine w) + if decide (res_Status r = Idle) then 0 else 1).
Proof using All.
  unfold record. destruct (res_Status r).
  - exists w. split; [done|]. by rewrite decide_True, Z.add_0_r.
  - unfold mbind at 1, M_bind, update_engine, modify.
    set (w0 := lens_set engine _ w). destruct (clock_total w0) as (w1 & t & Hc & Hf).
    unfold mbind. rewrite Hc. eexists. split; [done|].
    rewrite lens_get_set, Hf. unfold w0. rewrite lens_get_set, decide_False by done.
    unfold outcomes, wrap_uint64. cbn. lia_div.
  - unfold mbind at 1, M_bind, update_engine at 1, modify.
    set (w0 := lens_set engine _ w).
    destruct (recordFailure_frame (res_Err r) w0) as (w1 & Hr & Ho & _).
    exists w1. split; [done|]. rewrite Ho. unfold w0.
    rewrite lens_get_set, decide_False by done. unfold outcomes, wrap_uint64. cbn. lia_div.
  - unfold mbind at 1, M_bind, update_engine at 1, modify.
    set (w0 := lens_set engine _ w).
    destruct (recordFailure_frame (res_Err r) w0) as (w1 & Hr & Ho & _).
    exists w1. split; [done|]. rewrite Ho. unfold w0.
    rewrite lens_get_set, decide_False by done. unfold outcomes, wrap_uint64. cbn. lia_div.
Qed.

(** A step either fails and counts nothing, or counts its message unless idle. *)
Lemma Step_counts h o w : ∃ w' r,
  Step Clock engine h o w = (w', r) ∧
  wrap_uint64 (outcomes (lens_get engine w')) =
    wrap_uint64 (outcomes (lens_get engine w) +
      match r with
      | inr r => if decide (res_Status r = Idle) then 0 else 1
      | inl _ => 0
      end).
Proof using All.
  unfold Step, catch. unfold mbind at 1, M_bind.
  pose proof (process_frame (Name h) (AggregateTypes h) (o_Policy o) (o_WorkerID o)
    (Handle h) w) as Hp.
  destruct (ProcessNext _ _ _ _ _ w) as [w1 [e|r]]; simpl in Hp.
  - destruct (recordFailure_frame (Some e) w1) as (w2 & Hr & Ho & _).
    unfold mbind. rewrite Hr. exists w2, (inl e). split; [done|].
    by rewrite Ho, Hp, Z.add_0_r.
  - destruct (record_counts r w1) as (w2 & Hr & Ho).
    unfold mbind. rewrite Hr. exists w2, (inr r). split; [done|]. by rewrite Ho, Hp.
Qed.

(** [C40] One drain of the poll loop never fails, processes at most [MaxDrain]
    messages, and every message it drained is in exactly one of the engine's
    counters: processed, retried or dead-lettered. *)
Theorem drain_accounts (h : Handler W) (o : Options) (n : nat) (w : W) : ∃ w' drained,
  drain_loop Clock engine h o n w = (w', inr drained) ∧ (drained ≤ n)%nat ∧
  wrap_uint64 (outcomes (lens_get engine w')) =
    wrap_uint64 (outcomes (lens_get engine w) + Z.of_nat drained).
Proof using All.
  revert w. induction n as [|n IH]; intros w; cbn [drain_loop].
  { exists w, O. split; [done|]. by rewrite Z.add_0_r. }
  destruct (Step_counts h o w) as (w1 & r & Hs & Hc).
  unfold mbind at 1, M_bind, catch. rewrite Hs. destruct r as [e|r].
  { exists w1, O. split; [done|]. split; [lia|done]. }
  destruct (decide (res_Status r = Idle)) as [Hi|Hi].
  { exists w1, O. split; [done|]. split; [lia|done]. }
  destruct (IH w1) as (w2 & d & Hd & Hn & Hcount).
  unfold mbind. rewrite Hd. exists w2, (S d). split; [done|]. split; [lia|].
  rewrite Hcount. revert Hc. unfold wrap_uint64. rewrite Nat2Z.inj_succ. lia_div.
Qed.

(** The readiness check fails exactly when the subscription still has
    pending messages and the last recorded progress (the last success, or the
    last failure when there was none) is older than the staleness allowed. *)
Theorem health_iff_stalled (h : Handler W) (staleness : Duration) (w w1 w2 : W) (n : Z) (t : Time)
    (HL : Lag (Name h) w = (w1, inr n))
    (HC : Clock (lens_set engine ((lens_get engine w1) <| lag := n |>) w1) = (w2, inr t)) :
  let e := lens_get engine w in
  let last := if IsZero (lastSuccessAt e) then lastFailureAt e else lastSuccessAt e in
  (∃ w' err, Health Clock engine h staleness w = (w', inl err)) ↔
  n ≠ 0 ∧ last ≠ 0 ∧ staleness < Sub t last.
Proof using All.
  intros e last. unfold Health, gets. unfold mbind at 1, M_bind.
  unfold mbind at 1, map_err. cbn [st_Subscription engine_Stats]. rewrite HL.
  unfold mbind at 1, update_engine, modify.
  cbn [st_LastSuccessAt st_LastFailureAt engine_Stats]. fold e. fold last.
  destruct (Z.eqb_spec n 0) as [->|Hn].
  { split; [naive_solver|]. intros (Hn & _). by destruct Hn. }
  unfold IsZero at 1. destruct (Z.eqb_spec last 0) as [Hl|Hl]; [naive_solver|].
  unfold mbind. rewrite HC. destruct (Z.ltb_spec staleness (Sub t last)).
  - split; [done|]. intros _. eexists _, _. reflexivity.
  - split; [naive_solver|lia].
Qed.
End EngineLemmas.

(** A store that replays a script of outcomes, as the engine's own tests use. *)
Module Script.
Record state := mkState { engine_of : Engine; script : list Result; pending : Z; clock : Time }.

#[global] Instance eta_state : Eta state := λ r,
  mkState (engine_of r) (script r) (pending r) (clock r).

#[global] Instance store : Store state := {|
  ProcessNext _ _ _ _ _ := λ w,
    match script w with
    | [] => (w, inr (mkResult Idle zero_Message None))
    | r :: rs => (w <| script := rs |>, inr r)
    end;
  Lag _ := gets pending
|}.

Definition Clock : M state Time := λ w, (w <| clock ::= Z.add Second |>, inr (clock w)).
Definition engine : Lens state Engine := {|
  lens_get := engine_of; lens_set e w := w <| engine_of := e |>
|}.

#[global] Instance engine_laws : LensLaws engine.
Proof. by split; [|intros []|]. Qed.

#[global] Instance engine_frame : EngineFrame Clock engine.
Proof.
  split; [|by intros; simpl; destruct (script w)|done].
  intros w. by exists (w <| clock ::= Z.add Second |>), (clock w).
Qed.

Definition handler : Handler state := mkHandler "analytics" ["expense"] (λ _, mret ()).
Definition options : Options := mkOptions "w1" DefaultPolicy (2 * Second) 100.
Definition start : state :=
  mkState (mkEngine 0 0 0 0 Second 0 "")
    [mkResult Processed zero_Message None; mkResult DeadLettered zero_Message (Some ErrNoStore)]
    3 (10 * Minute).
End Script.

Lemma drain_accounts_witness : ∃ w' drained,
  drain_loop Script.Clock Script.engine Script.handler Script.options 5 Script.start
    = (w', inr drained) ∧ (drained ≤ 5)%nat ∧
  wrap_uint64 (outcomes (lens_get Script.engine w')) =
    wrap_uint64 (outcomes (lens_get Script.engine Script.start) + Z.of_nat drained).
Proof. apply (drain_accounts Script.Clock Script.engine). Defined.

Lemma health_iff_stalled_witness :
  ∃ w' err, Health Script.Clock Script.engine Script.handler Minute Script.start = (w', inl err).
Proof.
  apply (health_iff_stalled Script.Clock Script.engine Script.handler Minute Script.start
    Script.start (Script.start <| Script.engine_of ::= set_field (proj:=lag) (λ _, 3) |>
      <| Script.clock ::= Z.add Second |>) 3 (10 * Minute));
    [reflexivity | reflexivity | by vm_compute].
Defined.
