(* ===== verification/UnitOfWork.v ===== *)
(** * Units of work (src/internal/adapter/outbound/memory/unit_of_work.go)

    [Within] runs a callback all-or-nothing: every participant is snapshotted
    first and restored when the callback fails, and a unit opened inside
    another joins it.  The Go context, which carries whether a unit is open, is
    the boolean [Ctx]. *)

From S2P Require Export Prelude.

(** Whether [unitContextKey] is set. *)
Definition Ctx : Type := bool.
Definition background : Ctx := false.

(** [Snapshot] of one participant: the state it copies from, and the state its
    restore function later runs in. *)
Definition Snapshotter (W : Type) : Type := W → W → W.

(** The port the services use. *)
Class UnitOfWork (W : Type) := {
  Within : ∀ {A : Type}, Ctx → (Ctx → M W A) → M W A
}.

Section Within.
Context {W : Type} (participants : list (Snapshotter W)).

(** The restores run in the order the snapshots were taken. *)
Definition restore_all (saved w : W) : W :=
  foldl (λ w restore, restore saved w) w participants.

Definition memory_Within {A} (ctx : Ctx) (fn : Ctx → M W A) : M W A := λ w,
  if ctx then fn ctx w
  else match fn true w with
       | (w', inl e) => (restore_all w w', inl e)
       | (w', inr a) => (w', inr a)
       end.

Definition memory_UnitOfWork : UnitOfWork W := {| Within A := memory_Within |}.

(** A participant that restores the part [l] of the state, and one that does
    not touch it. *)
Definition restores {S} (l : Lens W S) (p : Snapshotter W) : Prop :=
  ∀ saved w, lens_get l (p saved w) = lens_get l saved.
Definition leaves {S} (l : Lens W S) (p : Snapshotter W) : Prop :=
  ∀ saved w, lens_get l (p saved w) = lens_get l w.

Lemma restore_all_get {S} (l : Lens W S) (saved w : W) :
  Forall (λ p, restores l p ∨ leaves l p) participants →
  Exists (restores l) participants ∨ lens_get l w = lens_get l saved →
  lens_get l (restore_all saved w) = lens_get l saved.
Proof.
  unfold restore_all. intros Hall. revert w.
  induction Hall as [|p ps Hp Hps IH]; intros w H; simpl.
  { destruct H as [H|H]; [by inversion H|done]. }
  apply IH. destruct H as [H|H].
  - inversion H as [? ? Hr|? ? Hr]; subst; [|by left]. right. apply Hr.
  - right. destruct Hp as [Hp|Hp]; [apply Hp|]. by rewrite Hp.
Qed.

(** [C27] A unit of work is all or nothing on every part of the state that one
    of its participants owns: when the callback fails, that part is what it
    was before the unit opened, whatever the callback and the units nested in
    it did; when it succeeds, all its writes stay. *)
Theorem within_all_or_nothing {S A} (l : Lens W S) (fn : Ctx → M W A) (w w' : W)
    (r : error + A)
    (Hown : Exists (restores l) participants)
    (Hsep : Forall (λ p, restores l p ∨ leaves l p) participants)
    (Hrun : memory_Within background fn w = (w', r)) :
  match r with
  | inl _ => lens_get l w' = lens_get l w
  | inr _ => fn true w = (w', r)
  end.
Proof.
  unfold memory_Within, background in Hrun.
  destruct (fn true w) as [w1 [e|a]]; injection Hrun as <- <-; [|done].
  apply restore_all_get; [done|by left].
Qed.

(** A nested unit joins the enclosing one: it is its callback. *)
Lemma nested_joins {A} (fn : Ctx → M W A) w : memory_Within true fn w = fn true w.
Proof. done. Qed.
End Within.

(** A participant whose snapshot copies all of its part of the state. *)
Definition copy_snapshot {W S} (l : Lens W S) : Snapshotter W :=
  λ saved w, lens_set l (lens_get l saved) w.

Lemma copy_snapshot_restores {W S} (l : Lens W S) `{!LensLaws l} : restores l (copy_snapshot l).
Proof. intros saved w. apply lens_get_set. Qed.

(** ** Example: an inner unit's failure discards the outer unit's write *)

Definition fst_lens : Lens (Z * Z) Z := {| lens_get := fst; lens_set x w := (x, w.2) |}.

#[export] Instance fst_lens_laws : LensLaws fst_lens.
Proof. by split; [|intros []|]. Qed.

Lemma within_all_or_nothing_witness :
  fst ((memory_Within [copy_snapshot fst_lens] background (λ ctx,
    modify (λ w : Z * Z, (5, w.2));;
    memory_Within [copy_snapshot fst_lens] ctx (λ _, throw (A:=()) (ErrorsNew "inner")))
    (1, 2)).1) = 1.
Proof.
  apply (within_all_or_nothing [copy_snapshot fst_lens] fst_lens (λ ctx,
    modify (λ w : Z * Z, (5, w.2));;
    memory_Within [copy_snapshot fst_lens] ctx (λ _, throw (A:=()) (ErrorsNew "inner")))
    (1, 2) (1, 2) (inl (ErrorsNew "inner"))).
  - constructor. apply (copy_snapshot_restores fst_lens).
  - constructor; [|done]. left. apply (copy_snapshot_restores fst_lens).
  - reflexivity.
Defined.
