(* ===== verification/EventStore.v ===== *)
(** * The in-memory event log (src/internal/adapter/outbound/memory/event_store.go)

    Events in their global order, one delivery per subscription and event, the
    claim rule that keeps each aggregate's events in order, leases, retries,
    dead letters and their requeueing.

    A [*delivery] is a pointer: [d_ptr] is its address, which is fresh for
    every delivery, and writing through a pointer is [update_ptr].  Writing
    through the pointer of a delivery that a rolled-back unit dropped from the
    list changes nothing anyone can see. *)

From S2P Require Export Prelude GoTime GoStrings Domain Json Outbox UnitOfWork.
#[global] Open Scope Z_scope.

Inductive deliveryStatus := deliveryPending | deliveryProcessed | deliveryDead.
#[export] Instance deliveryStatus_eq_dec : EqDecision deliveryStatus.
Proof. solve_decision. Defined.

Record storedEvent := mkStoredEvent {
  se_event : DomainEvent; se_globalSeq : Z; se_version : Z; se_payload : json; se_metadata : json
}.

Record delivery := mkDelivery {
  d_ptr : nat; d_subscription : string; d_event : storedEvent; d_status : deliveryStatus;
  d_attempts : Z; d_availableAt : Time; d_lockedAt : Time; d_deadLetteredAt : Time;
  d_replay : bool; d_lastError : string
}.
#[export] Instance eta_delivery : Eta delivery := λ r,
  mkDelivery (d_ptr r) (d_subscription r) (d_event r) (d_status r) (d_attempts r)
    (d_availableAt r) (d_lockedAt r) (d_deadLetteredAt r) (d_replay r) (d_lastError r).

Record EventStore := mkEventStore {
  es_events : list storedEvent; es_deliveries : list delivery; es_subscriptions : gmap string ();
  es_versions : gmap string Z; es_sequence : Z; es_next : nat
}.
#[export] Instance eta_EventStore : Eta EventStore := λ r,
  mkEventStore (es_events r) (es_deliveries r) (es_subscriptions r) (es_versions r)
    (es_sequence r) (es_next r).

Definition NewEventStore : EventStore := mkEventStore [] [] ∅ ∅ 0 0.

(** ** Deliveries of one aggregate *)

Definition d_seq (d : delivery) : Z := se_globalSeq (d_event d).
Definition d_aggregate (d : delivery) : string * string :=
  (ev_AggregateType (se_event (d_event d)), ev_AggregateID (se_event (d_event d))).

(** The tests the three scans of the delivery list share: another delivery of
    the same subscription for the same aggregate. *)
Definition same_aggregate (other candidate : delivery) : bool :=
  negb (Nat.eqb (d_ptr other) (d_ptr candidate)) &&
  (d_subscription other =s d_subscription candidate) &&
  (ev_AggregateType (se_event (d_event other)) =s ev_AggregateType (se_event (d_event candidate))) &&
  (ev_AggregateID (se_event (d_event other)) =s ev_AggregateID (se_event (d_event candidate))).

Definition is_status (st : deliveryStatus) (d : delivery) : bool := bool_decide (d_status d = st).

Definition blockedLocked (ds : list delivery) (candidate : delivery) : bool :=
  existsb (λ other, same_aggregate other candidate && (d_seq other <? d_seq candidate) &&
    (is_status deliveryPending other || is_status deliveryDead other)) ds.

Definition deadBlockedLocked (ds : list delivery) (candidate : delivery) : bool :=
  existsb (λ other, same_aggregate other candidate && (d_seq other <? d_seq candidate) &&
    is_status deliveryDead other) ds.

Definition blockedCountLocked (ds : list delivery) (candidate : delivery) : Z :=
  Z.of_nat (length (List.filter (λ other, same_aggregate other candidate &&
    (d_seq candidate <? d_seq other) && is_status deliveryPending other) ds)).

Definition matchesAggregateType (aggregateType : string) (allowed : list string) : bool :=
  match allowed with [] => true | _ => str_in aggregateType allowed end.

Definition update_ptr (p : nat) (f : delivery → delivery) (ds : list delivery) : list delivery :=
  map (λ d, if Nat.eqb (d_ptr d) p then f d else d) ds.

Definition outbox_id (d : delivery) : string := d_subscription d +:+ ":" +:+ Itoa (d_seq d).

Definition messageLocked (d : delivery) : Message :=
  let stored := d_event d in
  mkMessage (outbox_id d) (ev_ID (se_event stored)) (se_globalSeq stored)
    (ev_AggregateType (se_event stored)) (ev_AggregateID (se_event stored))
    (se_version stored) (ev_EventType (se_event stored)) (se_payload stored)
    (se_metadata stored) (FromUnixMilli (ev_OccurredAt (se_event stored)))
    (d_attempts d) (d_replay d).

(** ** Recording events *)

Definition queue_delivery (replay : bool) (stored : storedEvent) (s : EventStore)
    (subscription : string) : EventStore :=
  s <| es_deliveries ::= λ ds, ds ++ [mkDelivery (es_next s) subscription stored deliveryPending
         0 0 0 0 replay ""] |>
    <| es_next ::= S |>.

Section Operations.
Context `{GoRuntime}.

Definition Append (event : DomainEvent) : M EventStore () := λ s,
  match Marshal (ev_Payload event) with
  | inl e => (s, inl (Errorf "marshal event payload: " e ""))
  | inr payload =>
      let metadata := JObject [("actor_id", JString (ev_ActorID event))] in
      let key := ev_AggregateType event +:+ ":" +:+ ev_AggregateID event in
      let sequence := wrap64 (es_sequence s + 1) in
      let version := wrap64 (default 0 (es_versions s !! key) + 1) in
      let stored := mkStoredEvent event sequence version payload metadata in
      let s := s <| es_sequence := sequence |> <| es_versions ::= <[key := version]> |>
                 <| es_events ::= λ es, es ++ [stored] |> in
      (foldl (queue_delivery false stored) s (map fst (map_range (es_subscriptions s))), inr ())
  end.

Definition EnsureSubscription (name : string) : M EventStore () := λ s,
  match es_subscriptions s !! name with
  | Some _ => (s, inr ())
  | None =>
      let s := s <| es_subscriptions ::= <[name := ()]> |> in
      (foldl (λ s stored, queue_delivery true stored s name) s (es_events s), inr ())
  end.

(** ** Claiming and completing *)

Definition claimable (subscription : string) (aggregateTypes : list string) (lease : Duration)
    (now : Time) (d : delivery) : bool :=
  (d_subscription d =s subscription) && is_status deliveryPending d &&
  negb (After (d_availableAt d) now) &&
  negb (negb (IsZero (d_lockedAt d)) && After (d_lockedAt d) (TimeAdd now (- lease))) &&
  matchesAggregateType (ev_AggregateType (se_event (d_event d))) aggregateTypes.

Definition claim (now : Time) (subscription : string) (aggregateTypes : list string)
    (policy : Policy) : M EventStore (option (delivery * Message)) := λ s,
  let lease := if LeaseTTL policy <=? 0 then Minute else LeaseTTL policy in
  let candidates := sort_slice (λ x y, d_seq x <? d_seq y)
    (List.filter (claimable subscription aggregateTypes lease now) (es_deliveries s)) in
  match List.find (λ c, negb (blockedLocked (es_deliveries s) c)) candidates with
  | None => (s, inr None)
  | Some c =>
      let lock d := d <| d_attempts := wrap64 (d_attempts d + 1) |> <| d_lockedAt := now |> in
      (s <| es_deliveries ::= update_ptr (d_ptr c) lock |>,
       inr (Some (lock c, messageLocked (lock c))))
  end.

(** [claimed.status, claimed.lockedAt, claimed.lastError = deliveryProcessed, ...]. *)
Definition complete_ok (p : nat) : EventStore → EventStore := λ s,
  s <| es_deliveries ::= update_ptr p (λ d,
    d <| d_status := deliveryProcessed |> <| d_lockedAt := 0 |> <| d_lastError := "" |>) |>.

(** The attempts of a claimed delivery as they are now: another worker may
    have claimed it again after its lease ran out. *)
Definition current_attempts (claimed : delivery) (s : EventStore) : Z :=
  match List.find (λ d, Nat.eqb (d_ptr d) (d_ptr claimed)) (es_deliveries s) with
  | Some d => d_attempts d
  | None => d_attempts claimed
  end.

Definition complete_retry (p : nat) (retryAt : Time) (err : error) : EventStore → EventStore :=
  λ s, s <| es_deliveries ::= update_ptr p (λ d,
    d <| d_lockedAt := 0 |> <| d_lastError := ErrorText err |> <| d_availableAt := retryAt |>) |>.

Definition complete_dead (p : nat) (deadAt : Time) : EventStore → EventStore :=
  λ s, s <| es_deliveries ::= update_ptr p (λ d,
    d <| d_status := deliveryDead |> <| d_deadLetteredAt := deadAt |>) |>.

Section Processing.
Context {W : Type} (store : Lens W EventStore) (Clock : M W Time).
(** The unit of work the handlers run in, when one is configured. *)
Context (unit : option (M W () → M W ())).

(** What [ProcessNext] does after the handler returned. *)
Definition finish (policy : Policy) (claimed : delivery) (message : Message)
    (outcome : error + ()) : M W Result :=
  match outcome with
  | inr _ =>
      zoom store (modify (complete_ok (d_ptr claimed)));;
      mret (mkResult Processed message None)
  | inl err =>
      t ← Clock;
      attempts ← gets (λ w, current_attempts claimed (lens_get store w));
      zoom store (modify
        (complete_retry (d_ptr claimed) (TimeAdd t (RetryDelay policy attempts)) err));;
      if MaxAttempts policy <=? attempts then
        t ← Clock;
        zoom store (modify (complete_dead (d_ptr claimed) t));;
        mret (mkResult DeadLettered message (Some err))
      else mret (mkResult Retried message (Some err))
  end.

Definition ProcessNext (subscription : string) (aggregateTypes : list string)
    (policy : Policy) (workerID : string) (apply : Message → M W ()) : M W Result :=
  now ← Clock;
  claimed ← zoom store (claim now subscription aggregateTypes policy);
  match claimed with
  | None => mret (mkResult Idle zero_Message None)
  | Some (claimed, message) =>
      outcome ← catch (match unit with
                       | Some within => within (apply message)
                       | None => apply message
                       end);
      finish policy claimed message outcome
  end.
End Processing.

(** ** Inspection and repair *)

Definition Lag (subscription : string) (s : EventStore) : Z :=
  Z.of_nat (length (List.filter (λ d, (d_subscription d =s subscription) &&
    is_status deliveryPending d && negb (deadBlockedLocked (es_deliveries s) d))
    (es_deliveries s))).

Definition dead_letter (ds : list delivery) (d : delivery) : DeadLetter :=
  let event := se_event (d_event d) in
  mkDeadLetter (outbox_id d) (d_subscription d) (ev_ID event) (ev_EventType event)
    (ev_AggregateType event) (ev_AggregateID event) (d_attempts d) (d_lastError d)
    (FromUnixMilli (ev_OccurredAt event)) (d_deadLetteredAt d) (blockedCountLocked ds d).

Definition ListDeadLetters (subscription : string) (limit : Z) (s : EventStore)
    : list DeadLetter :=
  let limit := if (limit <=? 0) || (200 <? limit) then 50 else limit in
  let letters := map (dead_letter (es_deliveries s)) (List.filter (λ d,
    is_status deliveryDead d && ((subscription =s "") || (d_subscription d =s subscription)))
    (es_deliveries s)) in
  let letters :=
    sort_slice (λ x y, After (dl_DeadLetteredAt x) (dl_DeadLetteredAt y)) letters in
  take (Z.to_nat limit) letters.

Definition requeued (d : delivery) : delivery :=
  d <| d_status := deliveryPending |> <| d_attempts := 0 |> <| d_lastError := "" |>
    <| d_availableAt := 0 |> <| d_lockedAt := 0 |> <| d_deadLetteredAt := 0 |>.

Definition RequeueDeadLetter (outboxID : string) : M EventStore bool := λ s,
  match List.find (λ d, is_status deliveryDead d && (outbox_id d =s outboxID))
          (es_deliveries s) with
  | Some d => (s <| es_deliveries ::= update_ptr (d_ptr d) requeued |>, inr true)
  | None => (s, inr false)
  end.

Definition Events (s : EventStore) : list DomainEvent := map se_event (es_events s).
End Operations.

(** [Snapshot]: the log, the delivery list with the contents of every delivery,
    the versions and the sequence; registered subscriptions stay. *)
Definition EventStore_Snapshot {W} (store : Lens W EventStore) : Snapshotter W := λ saved w,
  let old := lens_get store saved in
  lens_set store ((lens_get store w) <| es_events := es_events old |>
    <| es_deliveries := es_deliveries old |> <| es_versions := es_versions old |>
    <| es_sequence := es_sequence old |>) w.
