(* ===== verification/EventOrder.v ===== *)
(** * Ordered delivery of the event log

    The invariant of the in-memory event store and what follows from it.  While no call
    of ProcessNext outlives its lease and no rolled-back unit forgets what others wrote,
    every subscription sees each aggregate's events in order, each once, however the
    steps of the calls interleave and however often handlers fail, dead-letter and are
    requeued.  [run] takes each poll as one step, for the theorems on processes with one
    worker at a time; [run_steps] takes claim, unit, handler and finish as steps of
    their own.  The last sections show what a lease that runs out under a worker does to
    the order, and what a snapshot restored over another call's completion does. *)

From S2P Require Export Prelude GoTime GoStrings Domain Json Outbox UnitOfWork EventStore.
#[global] Open Scope Z_scope.

(** ** Updates through a pointer *)

Definition shape (d : delivery) : nat * string * storedEvent :=
  (d_ptr d, d_subscription d, d_event d).

Definition pair_of (d : delivery) : string * Z := (d_subscription d, d_seq d).

Lemma elem_of_update p f ds d :
  d ∈ update_ptr p f ds ↔
  ∃ d0, d0 ∈ ds ∧ d = if Nat.eqb (d_ptr d0) p then f d0 else d0.
Proof. unfold update_ptr. rewrite list_elem_of_fmap. naive_solver. Qed.

Lemma shape_update p f ds :
  (∀ d, shape (f d) = shape d) → map shape (update_ptr p f ds) = map shape ds.
Proof.
  intros Hf. unfold update_ptr. rewrite map_map. apply map_ext. intros d.
  by destruct (Nat.eqb _ _).
Qed.

Arguments update_ptr : simpl never.

(** ** The structural invariant: it depends on the shapes only *)

Record Structure (bound : Z) (s : EventStore) : Prop := {
  seq_bound : 0 ≤ es_sequence s ≤ bound;
  events_fresh : NoDup (map se_globalSeq (es_events s));
  events_range : ∀ e, e ∈ es_events s → 1 ≤ se_globalSeq e ≤ es_sequence s;
  ptr_fresh : NoDup (map d_ptr (es_deliveries s));
  ptr_range : ∀ d, d ∈ es_deliveries s → (d_ptr d < es_next s)%nat;
  delivery_fresh : NoDup (map pair_of (es_deliveries s));
  delivery_subscribed : ∀ d, d ∈ es_deliveries s → is_Some (es_subscriptions s !! d_subscription d);
  delivery_recorded : ∀ d, d ∈ es_deliveries s → d_event d ∈ es_events s
}.

(** No event is lost: every subscription has a delivery of every event. *)
Definition all_queued (s : EventStore) : Prop :=
  ∀ e sub, e ∈ es_events s → is_Some (es_subscriptions s !! sub) →
    ∃ d, d ∈ es_deliveries s ∧ d_subscription d = sub ∧ d_event d = e.

Lemma map_shape_eq {B} (h : delivery → B) (g : nat * string * storedEvent → B) ds ds' :
  (∀ d, h d = g (shape d)) → map shape ds = map shape ds' → map h ds = map h ds'.
Proof.
  intros Hh Hs. rewrite !(map_ext h (λ d, g (shape d)) Hh), <- !(map_map shape g). by rewrite Hs.
Qed.

Lemma shape_transfer ds ds' d : map shape ds = map shape ds' → d ∈ ds →
  ∃ d0, d0 ∈ ds' ∧ d_ptr d0 = d_ptr d ∧ d_subscription d0 = d_subscription d ∧
    d_event d0 = d_event d.
Proof.
  intros Heq Hin. apply (list_elem_of_fmap_2 shape) in Hin.
  assert (shape d ∈ map shape ds') as Hin' by (by rewrite <- Heq).
  apply list_elem_of_fmap in Hin' as (d0 & Hs & Hd0). exists d0. split; [done|].
  unfold shape in Hs. by injection Hs as -> -> ->.
Qed.

Lemma Structure_shape b s s' :
  es_events s' = es_events s → es_subscriptions s' = es_subscriptions s →
  es_sequence s' = es_sequence s → es_next s' = es_next s →
  map shape (es_deliveries s') = map shape (es_deliveries s) →
  Structure b s → Structure b s'.
Proof.
  intros He Hs Hq Hn Hd H. destruct H as [H1 H2 H3 H4 H5 H6 H7 H8].
  split; rewrite ?He, ?Hs, ?Hq, ?Hn; try assumption.
  - by rewrite (map_shape_eq d_ptr (λ x, x.1.1) _ _ (λ _, eq_refl) Hd).
  - intros d Hin. destruct (shape_transfer _ _ d Hd Hin) as (d0 & Hin0 & <- & _). by apply H5.
  - by rewrite (map_shape_eq pair_of (λ x, (x.1.2, se_globalSeq x.2)) _ _ (λ _, eq_refl) Hd).
  - intros d Hin. destruct (shape_transfer _ _ d Hd Hin) as (d0 & Hin0 & _ & <- & _). by apply H7.
  - intros d Hin. destruct (shape_transfer _ _ d Hd Hin) as (d0 & Hin0 & _ & _ & <-). by apply H8.
Qed.

Lemma all_queued_shape s s' :
  es_events s' = es_events s → es_subscriptions s' = es_subscriptions s →
  map shape (es_deliveries s') = map shape (es_deliveries s) → all_queued s → all_queued s'.
Proof.
  unfold all_queued. intros -> -> Hd H e sub Hin Hsub.
  destruct (H e sub Hin Hsub) as (d & Hd0 & <- & <-).
  destruct (shape_transfer _ _ d (eq_sym Hd) Hd0) as (d1 & Hd1 & _ & Hsub1 & Hev1). by exists d1.
Qed.

(** ** Queueing new deliveries *)

Definition queue_all (replay : bool) (s : EventStore) (l : list (storedEvent * string)) :=
  foldl (λ s x, queue_delivery replay x.1 s x.2) s l.

Definition new_delivery (replay : bool) (s : EventStore) (e : storedEvent) (sub : string) :=
  mkDelivery (es_next s) sub e deliveryPending 0 0 0 0 replay "".

Lemma queue_Structure b replay s e sub :
  Structure b s → e ∈ es_events s → is_Some (es_subscriptions s !! sub) →
  (sub, se_globalSeq e) ∉ map pair_of (es_deliveries s) →
  Structure b (queue_delivery replay e s sub).
Proof.
  intros H He Hsub Hfresh. destruct H as [H1 H2 H3 H4 H5 H6 H7 H8].
  assert (∀ d, d ∈ es_deliveries s ++ [new_delivery replay s e sub] →
    d ∈ es_deliveries s ∨ d = new_delivery replay s e sub) as Hcase.
  { intros d. rewrite elem_of_app, list_elem_of_singleton. tauto. }
  split; cbn -[Z.le]; try assumption; fold (new_delivery replay s e sub).
  - rewrite map_app. apply NoDup_app. split; [done|]. split; [|apply NoDup_singleton].
    intros p Hp Hp'. apply list_elem_of_singleton in Hp' as ->.
    apply list_elem_of_fmap in Hp as (d & Hd & Hin). apply H5 in Hin. simpl in Hd. lia.
  - intros d [Hin| ->]%Hcase; [|simpl; lia]. apply H5 in Hin. lia.
  - rewrite map_app. apply NoDup_app. split; [done|]. split; [|apply NoDup_singleton].
    intros p Hp Hp'. apply list_elem_of_singleton in Hp' as ->. by apply Hfresh.
  - intros d [Hin| ->]%Hcase; [by apply H7|done].
  - intros d [Hin| ->]%Hcase; [by apply H8|done].
Qed.

Definition key_of (x : storedEvent * string) : string * Z := (x.2, se_globalSeq x.1).

Lemma queue_all_spec b replay l s :
  Structure b s → NoDup (map key_of l) →
  (∀ x, x ∈ l → x.1 ∈ es_events s ∧ is_Some (es_subscriptions s !! x.2) ∧
     key_of x ∉ map pair_of (es_deliveries s)) →
  let s' := queue_all replay s l in
  Structure b s' ∧ es_events s' = es_events s ∧ es_subscriptions s' = es_subscriptions s ∧
  es_sequence s' = es_sequence s ∧
  ∃ new, es_deliveries s' = es_deliveries s ++ new ∧
    map (λ d, (d_event d, d_subscription d)) new = l ∧
    Forall (λ d, d_status d = deliveryPending) new.
Proof.
  revert s. induction l as [|[e sub] l IH]; intros s Hs Hnd Hl; cbn zeta.
  { split_and!; try done. exists []. by rewrite app_nil_r. }
  apply NoDup_cons in Hnd as [Hnin Hnd]. cbn [queue_all foldl].
  destruct (Hl (e, sub)) as (He & Hsub & Hfresh); [by left|].
  destruct (IH (queue_delivery replay e s sub)) as (Hs' & Hev & Hsubs & Hseq & new & Hds & Hnew & Hp).
  - by apply queue_Structure.
  - done.
  - intros x Hx. destruct (Hl x) as (He' & Hsub' & Hfresh'); [by right|].
    split_and!; [done|done|]. unfold queue_delivery. cbn -[key_of].
    rewrite map_app, elem_of_app. cbn [map]. rewrite list_elem_of_singleton.
    intros [Hin|Heq]; [done|]. apply Hnin. change (key_of x = key_of (e, sub)) in Heq.
    rewrite <- Heq. by apply (list_elem_of_fmap_2 key_of).
  - cbn [fst snd]. unfold queue_all in *. rewrite Hev, Hsubs, Hseq. split_and!; try done.
    exists (new_delivery replay s e sub :: new). rewrite Hds. cbn. rewrite <- app_assoc. cbn.
    rewrite Hnew. repeat split. by constructor.
Qed.

Section Order.
Context `{GoRuntime}.

Lemma map_range_keys_nodup (m : gmap string ()) : NoDup (map fst (map_range m)).
Proof. rewrite map_range_perm. apply NoDup_fst_map_to_list. Qed.

Lemma map_range_keys_elem (m : gmap string ()) k :
  k ∈ map fst (map_range m) ↔ is_Some (m !! k).
Proof.
  rewrite map_range_perm. change (map fst) with (fmap (M:=list) (A:=string * ()) fst).
  rewrite list_elem_of_fmap. split.
  - intros ([k' v] & -> & Hin%elem_of_map_to_list). by exists v.
  - intros [v Hv]. exists (k, v). by rewrite elem_of_map_to_list.
Qed.

(** What recording an event does to the store. *)
Lemma Append_spec b ev s :
  Structure b s → b < max_int64 →
  let s' := (Append ev s).1 in
  Structure (b + 1) s' ∧ (all_queued s → all_queued s') ∧
  ∃ new, es_deliveries s' = es_deliveries s ++ new ∧
    Forall (λ d, d_status d = deliveryPending ∧ ∀ d', d' ∈ es_deliveries s → d_seq d' < d_seq d) new.
Proof.
  intros Hs Hb. unfold Append. pose proof Hs as [H1 H2 H3 H4 H5 H6 H7 H8].
  destruct (Marshal (ev_Payload ev)) as [e|payload]; cbn zeta.
  { cbn [fst]. split; [split; try assumption; lia|]. split; [done|].
    exists []. by rewrite app_nil_r. }
  rewrite wrap64_id by (unfold is_int64, min_int64; lia).
  set (stored := mkStoredEvent _ _ _ _ _). set (s1 := _ <| es_events ::= _ |>).
  cbn [fst]. set (subs := map fst _).
  assert (foldl (queue_delivery false stored) s1 subs =
    queue_all false s1 (map (λ sub, (stored, sub)) subs)) as ->.
  { generalize s1. clear. induction subs as [|x l IH]; intros s0; [done|]. simpl. apply IH. }
  assert (∀ d, d ∈ es_deliveries s → d_seq d < es_sequence s + 1) as Hlt.
  { intros d Hd. apply H8, H3 in Hd. unfold d_seq. lia. }
  assert (Structure (b + 1) s1) as Hs1.
  { split; cbn -[Z.le Z.add]; try assumption; [lia|..].
    - rewrite map_app. apply NoDup_app. split; [done|]. split; [|apply NoDup_singleton].
      intros g (e & -> & He)%list_elem_of_fmap Hg. apply list_elem_of_singleton in Hg.
      apply H3 in He. cbn in Hg. lia.
    - intros e [He|He]%elem_of_app; [apply H3 in He; lia|].
      apply list_elem_of_singleton in He as ->. cbn. lia.
    - intros d Hd. apply elem_of_app. left. by apply H8. }
  destruct (queue_all_spec (b + 1) false (map (λ sub, (stored, sub)) subs) s1 Hs1)
    as (Hs' & Hev & Hsubs & Hseq & new & Hds & Hnew & Hp).
  { rewrite map_map. cbn. apply NoDup_fmap_2; [intros x y ?; by simplify_eq|].
    apply map_range_keys_nodup. }
  { intros x (sub & -> & Hsub)%list_elem_of_fmap. cbn -[Z.add].
    split; [by apply elem_of_app; right; left|].
    split; [by apply map_range_keys_elem|].
    intros (d & Heq & Hd)%list_elem_of_fmap. apply Hlt in Hd. unfold pair_of, key_of in Heq.
    cbn in Heq. injection Heq. lia. }
  split; [done|]. split.
  - intros Hq e sub. rewrite Hev, Hsubs, Hds.
    intros [He|He]%elem_of_app Hsub.
    + destruct (Hq e sub He Hsub) as (d & Hd & ?). exists d. rewrite elem_of_app. tauto.
    + apply list_elem_of_singleton in He as ->.
      assert ((stored, sub) ∈ map (λ d, (d_event d, d_subscription d)) new) as Hin.
      { rewrite Hnew. apply list_elem_of_fmap. exists sub. split; [done|].
        by apply map_range_keys_elem. }
      apply list_elem_of_fmap in Hin as (d & Heq & Hd). exists d. rewrite elem_of_app.
      injection Heq. naive_solver.
  - exists new. split; [done|]. rewrite Forall_forall in Hp |- *. intros d Hd. split; [by apply Hp|].
    intros d' Hd'. apply Hlt in Hd'.
    assert ((d_event d, d_subscription d) ∈ map (λ sub, (stored, sub)) subs) as Hin.
    { rewrite <- Hnew. by apply (list_elem_of_fmap_2 (λ d, (d_event d, d_subscription d))). }
    apply list_elem_of_fmap in Hin as (sub & Heq & _). unfold d_seq at 2.
    injection Heq as -> _. cbn. lia.
Qed.

Lemma EnsureSubscription_spec b name s :
  Structure b s →
  let s' := (EnsureSubscription name s).1 in
  Structure b s' ∧ (all_queued s → all_queued s') ∧
  ∃ new, es_deliveries s' = es_deliveries s ++ new ∧
    Forall (λ d, d_status d = deliveryPending ∧
      ∀ d', d' ∈ es_deliveries s → d_subscription d' ≠ d_subscription d) new.
Proof.
  intros Hs. unfold EnsureSubscription. pose proof Hs as [H1 H2 H3 H4 H5 H6 H7 H8].
  destruct (es_subscriptions s !! name) eqn:Hname; cbn zeta.
  { cbn [fst]. split; [done|]. split; [done|]. exists []. by rewrite app_nil_r. }
  cbn [fst]. set (s1 := s <| es_subscriptions ::= _ |>).
  assert (foldl (λ s stored, queue_delivery true stored s name) s1 (es_events s1) =
    queue_all true s1 (map (λ e, (e, name)) (es_events s1))) as ->.
  { generalize s1 at 1 3. generalize (es_events s1). clear.
    intros l. induction l as [|x l IH]; intros s0; [done|]. simpl. apply IH. }
  assert (∀ d, d ∈ es_deliveries s → d_subscription d ≠ name) as Hne.
  { intros d Hd Heq. apply H7 in Hd. rewrite Heq, Hname in Hd. by destruct Hd. }
  assert (Structure b s1) as Hs1.
  { split; cbn -[Z.le]; try assumption. intros d Hd.
    rewrite lookup_insert_ne by (apply not_eq_sym; by apply Hne). by apply H7. }
  destruct (queue_all_spec b true (map (λ e, (e, name)) (es_events s1)) s1 Hs1)
    as (Hs' & Hev & Hsubs & Hseq & new & Hds & Hnew & Hp).
  { rewrite map_map. cbn.
    assert (∀ l : list storedEvent, NoDup (map se_globalSeq l) →
      NoDup (map (λ x, key_of (x, name)) l)) as Hl; [|by apply Hl].
    intros l. induction l as [|e l IH]; [constructor|]. cbn.
    rewrite !NoDup_cons. intros [Hn Hl]. split; [|by apply IH].
    intros (e' & Heq & He')%list_elem_of_fmap. apply Hn. unfold key_of in Heq.
    cbn in Heq. injection Heq as ->. by apply (list_elem_of_fmap_2 se_globalSeq). }
  { intros x (e & -> & He)%list_elem_of_fmap. cbn. split; [done|].
    split; [by rewrite lookup_insert_eq|].
    intros (d & Heq & Hd)%list_elem_of_fmap. apply Hne in Hd. unfold pair_of, key_of in Heq.
    cbn in Heq. by injection Heq. }
  split; [done|]. split.
  - intros Hq e sub. rewrite Hev, Hsubs, Hds. intros He Hsub.
    destruct (decide (sub = name)) as [->|Hsn].
    + assert ((e, name) ∈ map (λ d, (d_event d, d_subscription d)) new) as Hin.
      { rewrite Hnew. apply list_elem_of_fmap. by exists e. }
      apply list_elem_of_fmap in Hin as (d & Heq & Hd). exists d. rewrite elem_of_app.
      injection Heq. naive_solver.
    + cbn in Hsub. rewrite lookup_insert_ne in Hsub by done.
      destruct (Hq e sub He Hsub) as (d & Hd & ?). exists d. rewrite elem_of_app. tauto.
  - exists new. split; [done|]. rewrite Forall_forall in Hp |- *. intros d Hd. split; [by apply Hp|].
    intros d' Hd'. apply Hne in Hd'.
    assert ((d_event d, d_subscription d) ∈ map (λ e, (e, name)) (es_events s1)) as Hin.
    { rewrite <- Hnew. by apply (list_elem_of_fmap_2 (λ d, (d_event d, d_subscription d))). }
    apply list_elem_of_fmap in Hin as (e & Heq & _). by injection Heq as _ ->.
Qed.
End Order.

(** ** The ordering invariant *)

(** What the order depends on: which deliveries are processed. *)
Definition progress (d : delivery) : nat * string * storedEvent * bool :=
  (shape d, is_status deliveryProcessed d).

Definition of_group (sub : string) (agg : string * string) (d : delivery) : Prop :=
  d_subscription d = sub ∧ d_aggregate d = agg.

(** The processed deliveries of an aggregate come first. *)
Definition processed_prefix (ds : list delivery) : Prop :=
  ∀ sub agg d d', d ∈ ds → d' ∈ ds → of_group sub agg d → of_group sub agg d' →
    d_status d = deliveryProcessed → d_seq d' < d_seq d → d_status d' = deliveryProcessed.

(** The messages a subscription's handler has successfully applied so far, in
    the order it applied them, and the part of them about one aggregate. *)
Abbreviation handled := (list (string * Message)).

Definition about (sub : string) (agg : string * string) (x : string * Message) : bool :=
  (x.1 =s sub) && (AggregateType x.2 =s agg.1) && (AggregateID x.2 =s agg.2).

Definition handled_seqs (sub : string) (agg : string * string) (log : handled) : list Z :=
  map (λ x, GlobalSeq x.2) (List.filter (about sub agg) log).

(** The log of an aggregate is in order, and holds exactly its processed events. *)
Definition log_agrees (ds : list delivery) (log : handled) : Prop :=
  ∀ sub agg, StronglySorted Z.lt (handled_seqs sub agg log) ∧
    ∀ g, g ∈ handled_seqs sub agg log ↔
      ∃ d, d ∈ ds ∧ of_group sub agg d ∧ d_status d = deliveryProcessed ∧ d_seq d = g.

Definition Order (ds : list delivery) (log : handled) : Prop :=
  processed_prefix ds ∧ log_agrees ds log.

Lemma is_status_spec st d : is_status st d = true ↔ d_status d = st.
Proof. apply bool_decide_eq_true. Qed.

Lemma progress_transfer ds ds' d : map progress ds = map progress ds' → d ∈ ds →
  ∃ d0, d0 ∈ ds' ∧ d_subscription d0 = d_subscription d ∧ d_event d0 = d_event d ∧
    (d_status d0 = deliveryProcessed ↔ d_status d = deliveryProcessed).
Proof.
  intros Heq Hin. apply (list_elem_of_fmap_2 progress) in Hin.
  assert (progress d ∈ map progress ds') as Hin' by (by rewrite <- Heq).
  apply list_elem_of_fmap in Hin' as (d0 & Hs & Hd0). exists d0. split; [done|].
  unfold progress, shape in Hs. injection Hs as _ Hs1 Hs2 Hst. split; [done|]. split; [done|].
  by rewrite <- !is_status_spec, Hst.
Qed.

Lemma Order_progress ds ds' log :
  map progress ds' = map progress ds → Order ds log → Order ds' log.
Proof.
  intros Heq [Hp Hl]. split.
  - intros sub agg d d' Hd Hd' Hg Hg' Hst Hlt.
    destruct (progress_transfer _ _ d Heq Hd) as (e & He & Hs & Hev & Hst1).
    destruct (progress_transfer _ _ d' Heq Hd') as (e' & He' & Hs' & Hev' & Hst2).
    unfold of_group, d_aggregate, d_seq in *. apply Hst2.
    eapply (Hp sub agg e e'); try done; unfold of_group, d_aggregate, d_seq;
      rewrite ?Hs, ?Hs', ?Hev, ?Hev'; try done. by apply Hst1.
  - intros sub agg. destruct (Hl sub agg) as [Hso Hiff]. split; [done|]. intros g.
    rewrite Hiff. split.
    + intros (d & Hd & Hg & Hst & Hseq).
      destruct (progress_transfer _ _ d (eq_sym Heq) Hd) as (e & He & Hs & Hev & Hst1).
      exists e. unfold of_group, d_aggregate, d_seq in *. rewrite Hs, Hev. tauto.
    + intros (d & Hd & Hg & Hst & Hseq).
      destruct (progress_transfer _ _ d Heq Hd) as (e & He & Hs & Hev & Hst1).
      exists e. unfold of_group, d_aggregate, d_seq in *. rewrite Hs, Hev. tauto.
Qed.

Lemma progress_update p f ds :
  (∀ d, d ∈ ds → d_ptr d = p → progress (f d) = progress d) →
  map progress (update_ptr p f ds) = map progress ds.
Proof.
  intros Hf. unfold update_ptr. rewrite map_map. apply map_ext_in. intros d Hin%list_elem_of_In.
  destruct (Nat.eqb_spec (d_ptr d) p); [by apply Hf|done].
Qed.

(** New pending deliveries, each either later than everything its subscription
    already has or of a subscription that had nothing. *)
Lemma Order_app ds new log :
  Order ds log → Forall (λ d, d_status d = deliveryPending) new →
  (∀ d d', d ∈ ds → d' ∈ new → d_subscription d = d_subscription d' → d_seq d < d_seq d') →
  Order (ds ++ new) log.
Proof.
  intros [Hp Hl] Hpend Hlater. rewrite Forall_forall in Hpend. split.
  - intros sub agg d d' [Hd|Hd]%elem_of_app Hd' Hg Hg' Hst Hlt;
      [|by rewrite (Hpend d Hd) in Hst].
    apply elem_of_app in Hd' as [Hd'|Hd']; [by eapply (Hp sub agg d d')|].
    destruct Hg, Hg'. specialize (Hlater d d' Hd Hd' ltac:(congruence)). lia.
  - intros sub agg. destruct (Hl sub agg) as [Hso Hiff]. split; [done|]. intros g.
    rewrite Hiff. split; intros (d & Hd & Hg & Hst & Hseq); exists d.
    + rewrite elem_of_app. tauto.
    + apply elem_of_app in Hd as [Hd|Hd]; [done|]. by rewrite (Hpend d Hd) in Hst.
Qed.

(** ** Claiming *)

Definition lock (now : Time) (d : delivery) : delivery :=
  d <| d_attempts := wrap64 (d_attempts d + 1) |> <| d_lockedAt := now |>.

Lemma blockedLocked_false ds c d :
  blockedLocked ds c = false → d ∈ ds → d_ptr d ≠ d_ptr c → d_subscription d = d_subscription c →
  d_aggregate d = d_aggregate c → d_seq d < d_seq c → d_status d = deliveryProcessed.
Proof.
  intros Hb Hd Hp Hs Ha Hlt. unfold d_aggregate in Ha. injection Ha as Ht Hi.
  destruct (d_status d) eqn:Hst; [exfalso| |exfalso]; [|done|].
  all: apply not_true_iff_false in Hb; apply Hb; apply existsb_exists; exists d;
    split; [by apply list_elem_of_In|]; unfold same_aggregate, is_status;
    rewrite Hs, Ht, Hi, Hst, !eqs_refl, (proj2 (Nat.eqb_neq _ _) Hp), (proj2 (Z.ltb_lt _ _) Hlt);
    reflexivity.
Qed.

Section Claim.
Context `{GoRuntime}.

(** The lease a policy asks for. *)
Definition lease_of (policy : Policy) : Duration := if LeaseTTL policy <=? 0 then Minute else LeaseTTL policy.
(** A delivery locked by a worker whose lease is still running. *)
Definition lease_running (lease : Duration) (now : Time) (d : delivery) : bool :=
  negb (IsZero (d_lockedAt d)) && After (d_lockedAt d) (TimeAdd now (- lease)).

(** What [claim] found and did. *)
Lemma claim_found now sub types policy s :
  match claim now sub types policy s with
  | (s1, inr None) => s1 = s
  | (s1, inr (Some (c', m))) => ∃ c, c ∈ es_deliveries s ∧
      claimable sub types (lease_of policy) now c = true ∧ blockedLocked (es_deliveries s) c = false ∧
      c' = lock now c ∧ m = messageLocked (lock now c) ∧
      s1 = s <| es_deliveries ::= update_ptr (d_ptr c) (lock now) |>
  | _ => False
  end.
Proof.
  unfold claim. cbn zeta. fold (lease_of policy). destruct (List.find _ _) as [c|] eqn:Hf; [|done].
  apply List.find_some in Hf as [Hin Hb%negb_true_iff]. exists c.
  apply list_elem_of_In in Hin. rewrite sort_slice_perm in Hin.
  apply list_elem_of_In, filter_In in Hin as [Hin Hc]. apply list_elem_of_In in Hin. by split_and!.
Qed.

Lemma claimable_spec sub types lease now d : claimable sub types lease now d = true ↔
  d_subscription d = sub ∧ d_status d = deliveryPending ∧ After (d_availableAt d) now = false ∧
  lease_running lease now d = false ∧
  matchesAggregateType (ev_AggregateType (se_event (d_event d))) types = true.
Proof.
  unfold claimable. fold (lease_running lease now d).
  rewrite !andb_true_iff, is_status_spec, !negb_true_iff, String.eqb_eq. tauto.
Qed.

Lemma claim_spec now sub types policy s :
  match claim now sub types policy s with
  | (s1, inr None) => s1 = s
  | (s1, inr (Some (c', m))) => ∃ c, c ∈ es_deliveries s ∧ d_subscription c = sub ∧
      d_status c = deliveryPending ∧ blockedLocked (es_deliveries s) c = false ∧
      matchesAggregateType (ev_AggregateType (se_event (d_event c))) types = true ∧
      c' = lock now c ∧ m = messageLocked (lock now c) ∧
      s1 = s <| es_deliveries ::= update_ptr (d_ptr c) (lock now) |>
  | _ => False
  end.
Proof.
  pose proof (claim_found now sub types policy s) as H'. destruct (claim _ _ _ _ _) as [s1 [e|[[c' m]|]]]; [done| |done].
  destruct H' as (c & Hc & (Hs & Hp & _ & _ & Hm)%claimable_spec & Hr). exists c. tauto.
Qed.
End Claim.

(** ** Completing *)

Lemma NoDup_map_inj {A B} (f : A → B) l x y :
  NoDup (map f l) → x ∈ l → y ∈ l → f x = f y → x = y.
Proof.
  induction l as [|z l IH]; [by intros _ ?%not_elem_of_nil|]. cbn.
  intros [Hn Hl]%NoDup_cons [->|Hx]%elem_of_cons [->|Hy]%elem_of_cons Heq; [done| | |by apply IH].
  - destruct Hn. rewrite Heq. by apply (list_elem_of_fmap_2 f).
  - destruct Hn. rewrite <- Heq. by apply (list_elem_of_fmap_2 f).
Qed.

Lemma StronglySorted_snoc (l : list Z) x :
  StronglySorted Z.lt l → (∀ y, y ∈ l → y < x) → StronglySorted Z.lt (l ++ [x]).
Proof.
  induction 1 as [|y l Hl IH Hy]; intros Hx; cbn; [by repeat constructor|].
  constructor; [apply IH; intros z Hz; apply Hx; by right|].
  apply Forall_app. split; [done|]. constructor; [|done]. apply Hx. by left.
Qed.

Definition mark (d : delivery) : delivery := d <| d_status := deliveryProcessed |>.

Lemma elem_of_mark b s c d : Structure b s → c ∈ es_deliveries s →
  d ∈ update_ptr (d_ptr c) mark (es_deliveries s) ↔
  d = mark c ∨ d ∈ es_deliveries s ∧ d_ptr d ≠ d_ptr c.
Proof.
  intros Hs Hc. rewrite elem_of_update. split.
  - intros (d0 & Hd0 & ->). destruct (Nat.eqb_spec (d_ptr d0) (d_ptr c)) as [Heq|Hne]; [left|by right].
    by rewrite (NoDup_map_inj d_ptr _ d0 c (ptr_fresh _ _ Hs) Hd0 Hc Heq).
  - intros [->|[Hd Hne]].
    + exists c. by rewrite Nat.eqb_refl.
    + exists d. by rewrite (proj2 (Nat.eqb_neq _ _) Hne).
Qed.

(** The handler is told the event of the delivery, whatever the attempt. *)
Lemma about_message sub agg d c : shape d = shape c →
  about sub agg (d_subscription c, messageLocked d) = true ↔ of_group sub agg c.
Proof.
  intros [= _ _ He]. unfold about, of_group, d_aggregate. cbn. rewrite He. rewrite !andb_true_iff, !String.eqb_eq.
  destruct agg. cbn. split; [intros [[-> ->] ->]|intros [-> [= -> ->]]]; done.
Qed.

Lemma handled_seqs_snoc sub agg log d c : shape d = shape c →
  handled_seqs sub agg (log ++ [(d_subscription c, messageLocked d)]) =
  handled_seqs sub agg log ++
    if about sub agg (d_subscription c, messageLocked d) then [d_seq c] else [].
Proof.
  intros [= _ _ He]. unfold handled_seqs, d_seq. rewrite List.filter_app, map_app, <- He. cbn [List.filter].
  by destruct (about _ _ (_, _)).
Qed.

(** Everything of its aggregate before a delivery is processed. *)
Definition unblocked (ds : list delivery) (c : delivery) : Prop :=
  ∀ d, d ∈ ds → d_ptr d ≠ d_ptr c → d_subscription d = d_subscription c →
    d_aggregate d = d_aggregate c → d_seq d < d_seq c → d_status d = deliveryProcessed.

Lemma blockedLocked_unblocked ds c : blockedLocked ds c = false → unblocked ds c.
Proof. intros Hb d. by apply blockedLocked_false. Qed.

Section Complete.
Context (b : Z) (s : EventStore) (log : handled) (c told : delivery) (Htold : shape told = shape c).
Context (Hs : Structure b s) (Ho : Order (es_deliveries s) log).
Context (Hc : c ∈ es_deliveries s) (Hpend : d_status c = deliveryPending).
Context (Hfree : unblocked (es_deliveries s) c).

(** Everything the aggregate has processed is earlier than the claimed event. *)
Lemma processed_earlier sub agg d : of_group sub agg c → d ∈ es_deliveries s →
  of_group sub agg d → d_status d = deliveryProcessed → d_seq d < d_seq c.
Proof using All.
  intros Hgc Hd Hg Hst. destruct Ho as [Hp _].
  destruct (Z.lt_trichotomy (d_seq d) (d_seq c)) as [|[Heq|Hgt]]; [done|exfalso|exfalso].
  - destruct Hgc, Hg.
    assert (d = c) as ->; [|by rewrite Hpend in Hst].
    apply (NoDup_map_inj pair_of (es_deliveries s)); [apply (delivery_fresh _ _ Hs)|done..|].
    unfold pair_of. congruence.
  - by rewrite (Hp sub agg d c Hd Hc Hg Hgc Hst Hgt) in Hpend.
Qed.

Lemma mark_prefix : processed_prefix (update_ptr (d_ptr c) mark (es_deliveries s)).
Proof using All.
  intros sub agg d d'. rewrite !(elem_of_mark b s c) by done.
  intros [->|[Hd Hn]] [->|[Hd' Hn']] Hg Hg' Hst Hlt; [done| |done|].
  - destruct Hg as [<- <-], Hg'. by apply (Hfree d').
  - destruct Ho as [Hp _]. by eapply (Hp sub agg d d').
Qed.

Lemma mark_agrees : log_agrees (update_ptr (d_ptr c) mark (es_deliveries s))
  (log ++ [(d_subscription c, messageLocked told)]).
Proof using All.
  intros sub agg. rewrite handled_seqs_snoc by done. destruct Ho as [_ Hl].
  destruct (Hl sub agg) as [Hso Hiff]. setoid_rewrite (λ d, elem_of_mark b s c d Hs Hc).
  destruct (about _ _ _) eqn:Ha.
  - apply about_message in Ha; [|done]. split.
    + apply StronglySorted_snoc; [done|]. intros g (d & Hd & Hg & Hst & <-)%Hiff.
      by eapply (processed_earlier sub agg d).
    + intros g. rewrite elem_of_app, list_elem_of_singleton, Hiff. split.
      * intros [(d & Hd & Hg & Hst & Hseq)| ->].
        -- exists d. split_and!; try done. right. split; [done|]. intros Heq.
           rewrite (NoDup_map_inj d_ptr _ d c (ptr_fresh _ _ Hs) Hd Hc Heq) in Hst. congruence.
        -- exists (mark c). by split_and!; [left|..].
      * intros (d & [->|[Hd Hn]] & Hg & Hst & Hseq); [by right|left]. by exists d.
  - rewrite app_nil_r. split; [done|]. intros g. rewrite Hiff. split.
    + intros (d & Hd & Hg & Hst & Hseq). exists d. split_and!; try done. right. split; [done|].
      intros Heq. rewrite (NoDup_map_inj d_ptr _ d c (ptr_fresh _ _ Hs) Hd Hc Heq) in Hst.
      congruence.
    + intros (d & [->|[Hd Hn]] & Hg & Hst & Hseq); [|by exists d].
      apply not_true_iff_false in Ha. destruct Ha. by apply about_message.
Qed.

Lemma mark_Order : Order (update_ptr (d_ptr c) mark (es_deliveries s))
  (log ++ [(d_subscription c, messageLocked told)]).
Proof using All. split; [exact mark_prefix|exact mark_agrees]. Qed.
End Complete.

Lemma update_update p f g ds : (∀ d, d_ptr (f d) = d_ptr d) →
  update_ptr p g (update_ptr p f ds) = update_ptr p (λ d, g (f d)) ds.
Proof.
  intros Hf. unfold update_ptr. rewrite map_map. apply map_ext. intros d.
  destruct (Nat.eqb_spec (d_ptr d) p) as [Hp|Hp].
  - by rewrite Hf, Hp, Nat.eqb_refl.
  - by rewrite (proj2 (Nat.eqb_neq _ _) Hp).
Qed.

(** ** Executions *)

Inductive command :=
  | Record_event (event : DomainEvent)
  | Register (subscription : string)
  | Deliver (subscription : string) (aggregateTypes : list string) (policy : Policy)
      (workerID : string)
  | Requeue (outboxID : string).

Definition Inv (b : Z) (s : EventStore) (log : handled) : Prop :=
  Structure b s ∧ all_queued s ∧ Order (es_deliveries s) log.

Section Execution.
Context `{GoRuntime} {W : Type} (store : Lens W EventStore) `{!LensLaws store}.
Context (Clock : M W Time) (unit : option (M W () → M W ())).
(** The handler of each subscription. *)
Context (apply : string → Message → M W ()).

Definition handle (sub : string) (m : Message) : M W () :=
  match unit with Some within => within (apply sub m) | None => apply sub m end.

(** Handlers write their own read models, not the event log, and the clock
    always answers. *)
Class HandlerFrame := {
  store_clock w : ∃ w' t, Clock w = (w', inr t) ∧ lens_get store w' = lens_get store w;
  store_handle sub m w : lens_get store (handle sub m w).1 = lens_get store w
}.
Context `{!HandlerFrame}.

Definition exec (c : command) (wl : W * handled) : W * handled :=
  let '(w, log) := wl in
  match c with
  | Record_event ev => ((zoom store (Append ev) w).1, log)
  | Register sub => ((zoom store (EnsureSubscription sub) w).1, log)
  | Requeue id => ((zoom store (RequeueDeadLetter id) w).1, log)
  | Deliver sub types policy worker =>
      match ProcessNext store Clock unit sub types policy worker (apply sub) w with
      | (w', inr r) => (w', if decide (res_Status r = Processed)
                            then log ++ [(sub, res_Message r)] else log)
      | (w', inl _) => (w', log)
      end
  end.

Definition run (cs : list command) (wl : W * handled) : W * handled :=
  foldl (λ wl c, exec c wl) wl cs.

Lemma Inv_weaken b b' s log : Inv b s log → b ≤ b' → Inv b' s log.
Proof.
  intros ([H1 H2 H3 H4 H5 H6 H7 H8] & Hq & Ho) Hb. split; [|by split].
  split; try assumption. lia.
Qed.

(** Deliveries rewritten through one pointer, without changing what is
    processed. *)
Lemma Inv_update b s log p f :
  Inv b s log → (∀ d, shape (f d) = shape d) →
  (∀ d, d ∈ es_deliveries s → d_ptr d = p → progress (f d) = progress d) →
  Inv b (s <| es_deliveries ::= update_ptr p f |>) log.
Proof.
  intros (Hs & Hq & Ho) Hsh Hpr. split; [|split].
  - eapply (Structure_shape b s); try done. by apply shape_update.
  - eapply (all_queued_shape s); try done. by apply shape_update.
  - eapply Order_progress; [|done]. by apply progress_update.
Qed.

Lemma Inv_Append b ev s log : Inv b s log → b < max_int64 → Inv (b + 1) (Append ev s).1 log.
Proof.
  intros (Hs & Hq & Ho) Hb.
  destruct (Append_spec b ev s Hs Hb) as (Hs' & Hq' & new & Hds & Hnew).
  split; [done|]. split; [by apply Hq'|]. rewrite Hds. rewrite Forall_forall in Hnew.
  apply Order_app; [done| |].
  - apply Forall_forall. intros d Hd. by apply Hnew.
  - intros d d' Hd Hd' _. by apply (Hnew d').
Qed.

Lemma Inv_Ensure b name s log : Inv b s log → Inv b (EnsureSubscription name s).1 log.
Proof.
  intros (Hs & Hq & Ho).
  destruct (EnsureSubscription_spec b name s Hs) as (Hs' & Hq' & new & Hds & Hnew).
  split; [done|]. split; [by apply Hq'|]. rewrite Hds. rewrite Forall_forall in Hnew.
  apply Order_app; [done| |].
  - apply Forall_forall. intros d Hd. by apply Hnew.
  - intros d d' Hd Hd' Heq. exfalso. by apply (Hnew d' Hd') in Hd.
Qed.

Lemma Inv_Requeue b id s log : Inv b s log → Inv b (RequeueDeadLetter id s).1 log.
Proof.
  intros Hi. unfold RequeueDeadLetter.
  destruct (List.find _ _) as [d|] eqn:Hf; [|done]. cbn [fst].
  apply List.find_some in Hf as [Hin Hd%andb_true_iff]. destruct Hd as [Hst%is_status_spec _].
  apply list_elem_of_In in Hin. apply Inv_update; [done|done|]. intros d' Hd' Hp.
  rewrite (NoDup_map_inj d_ptr _ d' d (ptr_fresh _ _ (proj1 Hi)) Hd' Hin Hp).
  unfold progress, is_status. by rewrite Hst.
Qed.

Lemma Inv_lock b s log p now :
  Inv b s log → Inv b (s <| es_deliveries ::= update_ptr p (lock now) |>) log.
Proof. intros Hi. by apply Inv_update. Qed.

Lemma Inv_retry b s log p t err : Inv b s log → Inv b (complete_retry p t err s) log.
Proof. intros Hi. by apply Inv_update. Qed.

Lemma Inv_dead b s log p t :
  Inv b s log →
  (∀ d, d ∈ es_deliveries s → d_ptr d = p → d_status d = deliveryPending) →
  Inv b (complete_dead p t s) log.
Proof.
  intros Hi Hp. apply Inv_update; [done|done|]. intros d Hd Heq.
  unfold progress, is_status. by rewrite (Hp d Hd Heq).
Qed.

Lemma Inv_ok b s log c now :
  Inv b s log → c ∈ es_deliveries s → d_status c = deliveryPending →
  blockedLocked (es_deliveries s) c = false →
  Inv b (complete_ok (d_ptr c) (s <| es_deliveries ::= update_ptr (d_ptr c) (lock now) |>))
    (log ++ [(d_subscription c, messageLocked (lock now c))]).
Proof.
  intros (Hs & Hq & Ho) Hc Hst Hb. unfold complete_ok. split; [|split].
  - eapply (Structure_shape b s); try done. cbn. by rewrite !shape_update.
  - eapply (all_queued_shape s); try done. cbn. by rewrite !shape_update.
  - eapply Order_progress; [|by eapply (mark_Order b _ log c (lock now c)); [..|apply blockedLocked_unblocked]].
    cbn. rewrite update_update by done. unfold update_ptr. rewrite !map_map.
    apply map_ext. intros d. by destruct (Nat.eqb _ _).
Qed.

(** After the lock and the retry bookkeeping the claimed delivery is still pending. *)
Lemma retry_pending b s c now t err d :
  Structure b s → c ∈ es_deliveries s → d_status c = deliveryPending →
  d ∈ es_deliveries (complete_retry (d_ptr c) t err
    (s <| es_deliveries ::= update_ptr (d_ptr c) (lock now) |>)) →
  d_ptr d = d_ptr c → d_status d = deliveryPending.
Proof.
  intros Hs Hc Hst Hd Hp. unfold complete_retry in Hd. cbn in Hd.
  rewrite update_update in Hd by done. apply elem_of_update in Hd as (d0 & Hd0 & Heq).
  destruct (Nat.eqb_spec (d_ptr d0) (d_ptr c)) as [Hp0|Hp0]; [|by subst].
  rewrite (NoDup_map_inj d_ptr _ d0 c (ptr_fresh _ _ Hs) Hd0 Hc Hp0) in Heq. by subst.
Qed.

(** What finishing a delivery does to the store and what it reports. *)
Lemma finish_spec policy claimed m outcome w : ∃ w' status err,
  finish store Clock policy claimed m outcome w = (w', inr (mkResult status m err)) ∧
  let s := lens_get store w in let s' := lens_get store w' in
  match outcome with
  | inr _ => status = Processed ∧ s' = complete_ok (d_ptr claimed) s
  | inl e => ∃ t, (status = Retried ∧ s' = complete_retry (d_ptr claimed) t e s) ∨
      (status = DeadLettered ∧ ∃ t', s' = complete_dead (d_ptr claimed) t'
                                            (complete_retry (d_ptr claimed) t e s))
  end.
Proof using All.
  unfold finish. destruct outcome as [e|[]].
  - destruct (store_clock w) as (w1 & t & Hc & Hf). unfold mbind at 1, M_bind. rewrite Hc.
    unfold mbind at 1, gets. unfold mbind at 1, zoom at 1, modify. rewrite Hf.
    destruct (_ <=? _).
    + set (w2 := lens_set store _ w1). destruct (store_clock w2) as (w3 & t' & Hc3 & Hf3).
      unfold mbind at 1. rewrite Hc3. unfold mbind, zoom, modify. eexists _, _, _.
      split; [done|]. cbn zeta. rewrite lens_get_set, Hf3. unfold w2. rewrite lens_get_set.
      eexists. right. by eauto.
    + eexists _, _, _. split; [done|]. cbn zeta. rewrite lens_get_set. eexists. by left.
  - eexists _, _, _. split; [done|]. cbn zeta. by rewrite lens_get_set.
Qed.

Definition log_result (sub : string) (r : Result) (log : handled) : handled :=
  if decide (res_Status r = Processed) then log ++ [(sub, res_Message r)] else log.

(** The effect of one delivery attempt on the log. *)
Lemma ProcessNext_Inv b sub types policy worker w log :
  Inv b (lens_get store w) log → ∃ w' r,
  ProcessNext store Clock unit sub types policy worker (apply sub) w = (w', inr r) ∧
  Inv b (lens_get store w') (log_result sub r log).
Proof using All.
  intros Hi. unfold ProcessNext. destruct (store_clock w) as (w1 & now & Hck & Hf1).
  unfold mbind at 1, M_bind. rewrite Hck. unfold mbind at 1, zoom at 1. rewrite Hf1.
  pose proof (claim_spec now sub types policy (lens_get store w)) as Hclaim.
  destruct (claim _ _ _ _ _) as [s1 [e|[[c' m]|]]]; [done| |].
  2: { subst s1. eexists _, _. split; [reflexivity|]. unfold log_result.
       by rewrite decide_False, lens_get_set. }
  destruct Hclaim as (c & Hc & <- & Hst & Hb & _ & -> & -> & ->).
  set (w2 := lens_set store _ w1). unfold mbind at 1, catch at 1.
  fold (handle (d_subscription c) (messageLocked (lock now c))).
  pose proof (store_handle (d_subscription c) (messageLocked (lock now c)) w2) as Hh.
  destruct (handle _ _ w2) as [w3 outcome]. cbn [fst] in Hh. unfold w2 in Hh.
  rewrite lens_get_set in Hh.
  destruct (finish_spec policy (lock now c) (messageLocked (lock now c)) outcome w3)
    as (w4 & status & err & Hfin & Hout).
  eexists _, _. split; [exact Hfin|]. cbn zeta in Hout. rewrite Hh in Hout.
  unfold log_result. cbn [res_Status res_Message]. destruct outcome as [e|[]].
  - destruct Hout as (t & [[-> ->]|[-> (t' & ->)]]); rewrite decide_False by done.
    + by apply Inv_retry, Inv_lock.
    + apply Inv_dead; [by apply Inv_retry, Inv_lock|]. intros d Hd Hp.
      exact (retry_pending b (lens_get store w) c now t e d (proj1 Hi) Hc Hst Hd Hp).
  - destruct Hout as [-> ->]. rewrite decide_True by done. exact (Inv_ok b _ log c now Hi Hc Hst Hb).
Qed.

Lemma Inv_Deliver b sub types policy worker wl :
  Inv b (lens_get store wl.1) wl.2 →
  let wl' := exec (Deliver sub types policy worker) wl in
  Inv b (lens_get store wl'.1) wl'.2.
Proof using All.
  destruct wl as [w log]. cbn [fst snd exec]. intros Hi.
  destruct (ProcessNext_Inv b sub types policy worker w log Hi) as (w' & r & -> & Hi'). exact Hi'.
Qed.

Lemma Inv_exec b c wl :
  Inv b (lens_get store wl.1) wl.2 → b < max_int64 →
  let wl' := exec c wl in Inv (b + 1) (lens_get store wl'.1) wl'.2.
Proof using All.
  intros Hi Hb. destruct c as [ev|sub|sub types policy worker|id]; cbn zeta.
  - destruct wl as [w log]. cbn. unfold zoom.
    pose proof (Inv_Append b ev (lens_get store w) log Hi Hb) as H'.
    destruct (Append _ _) as [s' r]. cbn. by rewrite lens_get_set.
  - destruct wl as [w log]. cbn. unfold zoom.
    pose proof (Inv_Ensure b sub (lens_get store w) log Hi) as H'.
    destruct (EnsureSubscription _ _) as [s' r]. cbn. rewrite lens_get_set.
    eapply Inv_weaken; [done|lia].
  - eapply Inv_weaken; [by apply (Inv_Deliver b sub types policy worker wl)|lia].
  - destruct wl as [w log]. cbn. unfold zoom.
    pose proof (Inv_Requeue b id (lens_get store w) log Hi) as H'.
    destruct (RequeueDeadLetter _ _) as [s' r]. cbn. rewrite lens_get_set.
    eapply Inv_weaken; [done|lia].
Qed.

Lemma Inv_run cs : ∀ b wl,
  Inv b (lens_get store wl.1) wl.2 → b + Z.of_nat (length cs) ≤ max_int64 →
  ∃ b', Inv b' (lens_get store (run cs wl).1) (run cs wl).2.
Proof using All.
  induction cs as [|c cs IH]; intros b wl Hi Hb; [by exists b|].
  cbn [length] in Hb. apply (IH (b + 1)); [|lia]. apply Inv_exec; [done|lia].
Qed.

Lemma Inv_empty : Inv 0 NewEventStore [].
Proof.
  split; [split; cbn; first [lia | apply NoDup_nil_2 | by intros ? ?%not_elem_of_nil]|].
  split; [by intros ? ? ?%not_elem_of_nil|]. split.
  - by intros ? ? ? ? ?%not_elem_of_nil.
  - intros sub agg. split; [constructor|]. intros g. split.
    + by intros ?%not_elem_of_nil.
    + by intros (d & ?%not_elem_of_nil & _).
Qed.

(** ** Interleaved calls

    [ProcessNext] holds the mutex of the store only while it claims and while it
    finishes; in between the handler runs, in a unit of work that takes a snapshot of
    the log and puts it back when the handler fails.  Here the calls overlap: each is
    claimed, opens its unit, returns from its handler and finishes in a step of its
    own, with the steps of other calls and writers of the log in between. *)

Inductive stage :=
  | Claimed
  | Running (saved : W) (touched : bool)
  | Returned (outcome : error + ()).

(** A call of [ProcessNext] under way; [h_claimed] is the pointer it writes through
    and what it pointed to when it was claimed. *)
Record call := mkCall {
  h_subscription : string; h_policy : Policy; h_claimed : delivery; h_message : Message; h_stage : stage
}.
#[local] Instance eta_call : Eta call := λ r,
  mkCall (h_subscription r) (h_policy r) (h_claimed r) (h_message r) (h_stage r).

(** The world, the calls under way, and the messages the handlers have applied. *)
Record system := mkSystem { sy_world : W; sy_calls : gmap nat call; sy_applied : handled }.

Inductive step :=
  | StepRecord (event : DomainEvent)
  | StepRegister (subscription : string)
  | StepRequeue (outboxID : string)
  | StepClaim (id : nat) (subscription : string) (aggregateTypes : list string) (policy : Policy)
  | StepOpen (id : nat)
  | StepReturn (id : nat)
  | StepFinish (id : nat).

(** The log has been written to since the unit of the call took its snapshot. *)
Definition touch (h : call) : call :=
  match h_stage h with Running saved _ => h <| h_stage := Running saved true |> | _ => h end.

Definition is_running (h : call) : bool := match h_stage h with Running _ _ => true | _ => false end.

(** A unit waits for the one that is open: [UnitOfWork.mu]. *)
Definition unit_free (calls : gmap nat call) : bool :=
  match unit with
  | Some _ => negb (existsb (λ x, is_running x.2) (map_to_list calls))
  | None => true
  end.

(** A handler that failed puts back the log its unit started from. *)
Definition roll_back (saved : W) (outcome : error + ()) (w : W) : W :=
  match unit, outcome with
  | Some _, inl _ => EventStore_Snapshot store saved w
  | _, _ => w
  end.

Definition exec_step (st : step) (σ : system) : system :=
  let '(mkSystem w calls applied) := σ in
  match st with
  | StepRecord ev => mkSystem (zoom store (Append ev) w).1 (touch <$> calls) applied
  | StepRegister sub => mkSystem (zoom store (EnsureSubscription sub) w).1 (touch <$> calls) applied
  | StepRequeue id => mkSystem (zoom store (RequeueDeadLetter id) w).1 (touch <$> calls) applied
  | StepClaim id sub types policy =>
      match calls !! id with
      | Some _ => σ
      | None =>
          match (now ← Clock; zoom store (claim now sub types policy)) w with
          | (w', inr (Some (claimed, message))) =>
              mkSystem w' (<[id := mkCall sub policy claimed message Claimed]> (touch <$> calls)) applied
          | (w', _) => mkSystem w' calls applied
          end
      end
  | StepOpen id =>
      match calls !! id with
      | Some h => match h_stage h with
                  | Claimed => if unit_free calls
                               then mkSystem w (<[id := h <| h_stage := Running w false |>]> calls) applied
                               else σ
                  | _ => σ
                  end
      | None => σ
      end
  | StepReturn id =>
      match calls !! id with
      | Some h => match h_stage h with
                  | Running saved _ =>
                      let '(w', outcome) := handle (h_subscription h) (h_message h) w in
                      mkSystem (roll_back saved outcome w')
                        (<[id := h <| h_stage := Returned outcome |>]> calls)
                        (match outcome with
                         | inr _ => applied ++ [(h_subscription h, h_message h)]
                         | inl _ => applied
                         end)
                  | _ => σ
                  end
      | None => σ
      end
  | StepFinish id =>
      match calls !! id with
      | Some h => match h_stage h with
                  | Returned outcome =>
                      mkSystem (finish store Clock (h_policy h) (h_claimed h) (h_message h) outcome w).1
                        (touch <$> delete id calls) applied
                  | _ => σ
                  end
      | None => σ
      end
  end.
Definition run_steps (steps : list step) (σ : system) : system := foldl (λ σ st, exec_step st σ) σ steps.

(** What the order rests on, step by step.  When a subscription is polled, no call of
    it under way has outlived its lease; and no one writes to the log between the
    snapshot of a unit and its restoring it. *)
Definition step_ok (st : step) (σ : system) : bool :=
  match st with
  | StepClaim _ sub _ policy =>
      match (Clock (sy_world σ)).2 with
      | inr now => forallb (λ x, negb (h_subscription x.2 =s sub) ||
                              lease_running (lease_of policy) now (h_claimed x.2)) (map_to_list (sy_calls σ))
      | inl _ => true
      end
  | StepReturn id =>
      match sy_calls σ !! id with
      | Some h => match h_stage h, unit, (handle (h_subscription h) (h_message h) (sy_world σ)).2 with
                  | Running _ touched, Some _, inl _ => negb touched
                  | _, _, _ => true
                  end
      | None => true
      end
  | _ => true
  end.
Fixpoint orderly (steps : list step) (σ : system) : bool :=
  match steps with
  | [] => true
  | st :: steps => step_ok st σ && orderly steps (exec_step st σ)
  end.

(** *** The invariant of the interleaved calls *)

Definition is_applied (h : call) : bool := match h_stage h with Returned (inr _) => true | _ => false end.
(** A handler has applied the delivery, and its call has not finished. *)
Definition applied_ptr (calls : gmap nat call) (p : nat) : bool :=
  existsb (λ x, is_applied x.2 && Nat.eqb (d_ptr (h_claimed x.2)) p) (map_to_list calls).
Definition settle (calls : gmap nat call) (d : delivery) : delivery :=
  if applied_ptr calls (d_ptr d) then mark d else d.

(** The delivery of a call under way: pending, locked by that call, and next of its aggregate. *)
Definition held (s : EventStore) (h : call) (c : delivery) : Prop :=
  c ∈ es_deliveries s ∧ shape c = shape (h_claimed h) ∧ d_status c = deliveryPending ∧
  d_lockedAt c = d_lockedAt (h_claimed h) ∧ d_subscription c = h_subscription h ∧
  h_message h = messageLocked (h_claimed h) ∧ unblocked (es_deliveries s) c.

Record Interleaved (b : Z) (σ : system) : Prop := {
  il_structure : Structure b (lens_get store (sy_world σ));
  il_queued : all_queued (lens_get store (sy_world σ));
  il_order : Order (map (settle (sy_calls σ)) (es_deliveries (lens_get store (sy_world σ)))) (sy_applied σ);
  il_held i h : sy_calls σ !! i = Some h → ∃ c, held (lens_get store (sy_world σ)) h c;
  il_apart i j h k : sy_calls σ !! i = Some h → sy_calls σ !! j = Some k →
    d_ptr (h_claimed h) = d_ptr (h_claimed k) → i = j;
  il_saved i h saved : sy_calls σ !! i = Some h → h_stage h = Running saved false →
    lens_get store saved = lens_get store (sy_world σ)
}.

Lemma applied_ptr_spec calls p : applied_ptr calls p = true ↔
  ∃ i h, calls !! i = Some h ∧ is_applied h = true ∧ d_ptr (h_claimed h) = p.
Proof.
  unfold applied_ptr. rewrite existsb_exists. split.
  - intros ([i h] & Hin%list_elem_of_In%elem_of_map_to_list & [Ha Hp%Nat.eqb_eq]%andb_true_iff). by exists i, h.
  - intros (i & h & Hi & Ha & <-). exists (i, h). cbn. rewrite Ha, Nat.eqb_refl. split; [|done].
    by apply list_elem_of_In, elem_of_map_to_list.
Qed.

Lemma touch_claimed h : h_claimed (touch h) = h_claimed h.
Proof. unfold touch. by destruct (h_stage h). Qed.
Lemma touch_subscription h : h_subscription (touch h) = h_subscription h.
Proof. unfold touch. by destruct (h_stage h). Qed.
Lemma touch_applied h : is_applied (touch h) = is_applied h.
Proof. unfold touch, is_applied. by destruct (h_stage h) as [| |[]] eqn:E; cbn; rewrite ?E. Qed.
Lemma touch_held s h c : held s (touch h) c ↔ held s h c.
Proof. unfold held, touch. by destruct (h_stage h). Qed.
Lemma touch_saved h saved : h_stage (touch h) ≠ Running saved false.
Proof. unfold touch. by destruct (h_stage h) eqn:E; cbn; rewrite ?E. Qed.

Lemma applied_ptr_touch calls p : applied_ptr (touch <$> calls) p = applied_ptr calls p.
Proof.
  apply eq_true_iff_eq. rewrite !applied_ptr_spec. split.
  - intros (i & h & Hi & Ha & <-). rewrite lookup_fmap in Hi. destruct (calls !! i) as [k|] eqn:Hk; [|done].
    injection Hi as <-. exists i, k. by rewrite touch_claimed, <- (touch_applied k).
  - intros (i & h & Hi & Ha & <-). exists i, (touch h). rewrite lookup_fmap, Hi, touch_claimed, touch_applied. done.
Qed.

Lemma settle_touch calls ds : map (settle (touch <$> calls)) ds = map (settle calls) ds.
Proof. apply map_ext. intros d. unfold settle. by rewrite applied_ptr_touch. Qed.

Lemma held_app s s' new h c : es_deliveries s' = es_deliveries s ++ new →
  (∀ d d', d ∈ es_deliveries s → d' ∈ new → d_subscription d = d_subscription d' → d_seq d < d_seq d') →
  held s h c → held s' h c.
Proof.
  intros Hds Hnew (Hc & Hsh & Hp & Hl & Hs & Hm & Hu). unfold held. rewrite Hds. split_and!; try done.
  { apply elem_of_app. by left. }
  intros d [Hd|Hd]%elem_of_app Hptr Hsub Hagg Hlt; [by apply Hu|].
  specialize (Hnew c d Hc Hd (eq_sym Hsub)). lia.
Qed.

Lemma held_update s h c p f : d_ptr c ≠ p → (∀ d, shape (f d) = shape d) →
  (∀ d, d ∈ es_deliveries s → d_ptr d = p → d_status d = deliveryProcessed → d_status (f d) = deliveryProcessed) →
  held s h c → held (s <| es_deliveries ::= update_ptr p f |>) h c.
Proof.
  intros Hne Hsh Hst (Hc & Hshc & Hp & Hl & Hs & Hm & Hu). unfold held. split_and!; try done; cbn.
  { apply elem_of_update. exists c. by rewrite (proj2 (Nat.eqb_neq _ _) Hne). }
  intros d (d0 & Hd0 & ->)%elem_of_update. destruct (Nat.eqb_spec (d_ptr d0) p) as [Hp0|_]; [|by apply Hu].
  pose proof (Hsh d0) as [= H1 H2 H3]. unfold d_aggregate, d_seq. rewrite H1, H2, H3. intros. by apply Hst, Hu.
Qed.

(** What the processed and the applied deliveries amount to stays the same. *)
Lemma settle_update calls calls' ds p f log :
  (∀ d, d ∈ ds → d_ptr d = p → shape (f d) = shape d) →
  (∀ d, d ∈ ds → is_status deliveryProcessed (if Nat.eqb (d_ptr d) p then f d else d) || applied_ptr calls' (d_ptr d) =
     is_status deliveryProcessed d || applied_ptr calls (d_ptr d)) →
  Order (map (settle calls) ds) log → Order (map (settle calls') (update_ptr p f ds)) log.
Proof.
  intros Hsh Heq. apply Order_progress. unfold update_ptr. rewrite !map_map. apply map_ext_in.
  intros d Hd%list_elem_of_In. specialize (Heq d Hd).
  assert (shape (if Nat.eqb (d_ptr d) p then f d else d) = shape d) as Hs by (destruct (Nat.eqb_spec (d_ptr d) p); auto).
  revert Heq Hs. generalize (if Nat.eqb (d_ptr d) p then f d else d) as d'. intros d' Heq Hs.
  assert (∀ k x, progress (settle k x) = (shape x, is_status deliveryProcessed x || applied_ptr k (d_ptr x))) as Hpr.
  { intros k x. unfold settle, progress. destruct (applied_ptr k (d_ptr x)); by rewrite ?orb_true_r, ?orb_false_r. }
  rewrite !Hpr, Hs. pose proof Hs as [= -> _ _]. by rewrite Heq.
Qed.


(** Writers of the log touch the units that are open. *)
Lemma Interleaved_touched b' w w' calls log :
  (∀ i h, calls !! i = Some h → ∃ c, held (lens_get store w) h c) →
  (∀ i j h k, calls !! i = Some h → calls !! j = Some k → d_ptr (h_claimed h) = d_ptr (h_claimed k) → i = j) →
  Structure b' (lens_get store w') → all_queued (lens_get store w') →
  Order (map (settle calls) (es_deliveries (lens_get store w'))) log →
  (∀ i h c, calls !! i = Some h → held (lens_get store w) h c → ∃ c', held (lens_get store w') h c') →
  Interleaved b' (mkSystem w' (touch <$> calls) log).
Proof using Type.
  intros Hh Ha Hs Hq Ho Hheld. split; cbn [sy_world sy_calls sy_applied] in *; try done.
  - by rewrite settle_touch.
  - intros i h Hl. rewrite lookup_fmap in Hl. destruct (calls !! i) as [k|] eqn:Hk; [|done]. injection Hl as <-.
    destruct (Hh i k Hk) as (c & Hc). destruct (Hheld i k c Hk Hc) as (c' & Hc'). exists c'. by apply touch_held.
  - intros i j h k Hl1 Hl2. rewrite !lookup_fmap in Hl1, Hl2.
    destruct (calls !! i) eqn:Hk1; [|done]. destruct (calls !! j) eqn:Hk2; [|done].
    injection Hl1 as <-. injection Hl2 as <-. rewrite !touch_claimed. by eapply Ha.
  - intros i h saved Hl Hst. rewrite lookup_fmap in Hl. destruct (calls !! i); [|done]. injection Hl as <-.
    by apply touch_saved in Hst.
Qed.

Lemma Interleaved_append b b' w w' calls log new : Interleaved b (mkSystem w calls log) →
  Structure b' (lens_get store w') → all_queued (lens_get store w') →
  es_deliveries (lens_get store w') = es_deliveries (lens_get store w) ++ new →
  Forall (λ d, d_status d = deliveryPending) new →
  (∀ d d', d ∈ es_deliveries (lens_get store w) → d' ∈ new → d_subscription d = d_subscription d' → d_seq d < d_seq d') →
  Interleaved b' (mkSystem w' (touch <$> calls) log).
Proof using Type.
  intros Hi Hs Hq Hds Hpend Hlater. eapply Interleaved_touched; [exact (il_held _ _ Hi)|exact (il_apart _ _ Hi)|done..| |].
  - rewrite Hds, map_app. destruct Hi as [_ _ Ho Hh _ _]. cbn [sy_world sy_calls sy_applied] in *.
    assert (map (settle calls) new = new) as ->.
    { rewrite <- map_id. apply map_ext_in. intros d Hd%list_elem_of_In. unfold settle.
      destruct (applied_ptr _ _) eqn:Hap; [|done]. apply applied_ptr_spec in Hap as (i & h & Hl & _ & Hp).
      destruct (Hh i h Hl) as (c & Hc & [= Hcp _ _] & _). pose proof (ptr_fresh _ _ Hs) as Hn.
      rewrite Hds, map_app in Hn. apply NoDup_app in Hn as (_ & Hn & _). destruct (Hn (d_ptr c)).
      - by apply (list_elem_of_fmap_2 d_ptr).
      - rewrite Hcp, Hp. by apply (list_elem_of_fmap_2 d_ptr). }
    apply Order_app; [done|done|]. intros d d' (d0 & -> & Hd0)%list_elem_of_fmap Hd' Heq.
    assert (shape (settle calls d0) = shape d0) as [= Hx1 Hx2 Hx3] by (unfold settle; by destruct (applied_ptr _ _)).
    unfold d_seq at 1. rewrite Hx3. apply Hlater; [done|done|congruence].
  - intros i h c _ Hc. exists c. by eapply held_app.
Qed.

(** The deliveries rewritten through a pointer no call under way uses. *)
Lemma Interleaved_update b w w' calls log p f : Interleaved b (mkSystem w calls log) →
  lens_get store w' = (lens_get store w) <| es_deliveries ::= update_ptr p f |> →
  (∀ d, shape (f d) = shape d) →
  (∀ d, d ∈ es_deliveries (lens_get store w) → d_ptr d = p →
     is_status deliveryProcessed (f d) = is_status deliveryProcessed d) →
  (∀ i h, calls !! i = Some h → d_ptr (h_claimed h) ≠ p) →
  Interleaved b (mkSystem w' (touch <$> calls) log).
Proof using Type.
  intros Hi Hw Hsh Hst Hfree. eapply Interleaved_touched; [exact (il_held _ _ Hi)|exact (il_apart _ _ Hi)|rewrite Hw..|].
  - eapply Structure_shape; [..|exact (il_structure _ _ Hi)]; try done. by apply shape_update.
  - eapply all_queued_shape; [..|exact (il_queued _ _ Hi)]; try done. by apply shape_update.
  - eapply settle_update; [by intros|..|exact (il_order _ _ Hi)]. intros d Hd. cbn.
    destruct (Nat.eqb_spec (d_ptr d) p) as [Hp|_]; [by rewrite Hst|done].
  - intros i h c Hl Hc. rewrite Hw. exists c. apply held_update; try done.
    + destruct Hc as (_ & [= -> _ _] & _). by eapply Hfree.
    + intros d Hd Hp. rewrite <- !is_status_spec. by rewrite Hst.
Qed.

Lemma Interleaved_Requeue b id w w' calls log : Interleaved b (mkSystem w calls log) →
  lens_get store w' = (RequeueDeadLetter id (lens_get store w)).1 →
  Interleaved b (mkSystem w' (touch <$> calls) log).
Proof using Type.
  intros Hi Hw. unfold RequeueDeadLetter in Hw. destruct (List.find _ _) as [d|] eqn:Hf.
  - apply List.find_some in Hf as [Hin%list_elem_of_In [Hst%is_status_spec _]%andb_true_iff].
    assert (∀ d', d' ∈ es_deliveries (lens_get store w) → d_ptr d' = d_ptr d → d' = d) as Huniq.
    { intros d' Hd' Hp. by apply (NoDup_map_inj d_ptr _ d' d (ptr_fresh _ _ (il_structure _ _ Hi))). }
    eapply Interleaved_update; [exact Hi|exact Hw|done|..].
    + intros d' Hd' Hp. rewrite (Huniq d' Hd' Hp). unfold is_status. by rewrite Hst.
    + intros i h Hl Hp. destruct (il_held _ _ Hi i h Hl) as (c & Hc & [= Hcp _ _] & Hcst & _).
      rewrite (Huniq c Hc (eq_trans Hcp Hp)) in Hcst. congruence.
  - eapply Interleaved_touched; [exact (il_held _ _ Hi)|exact (il_apart _ _ Hi)|rewrite Hw; apply Hi..|]. intros i h c _ Hc. rewrite Hw. by exists c.
Qed.

(** Claiming: the lease of the calls under way keeps their messages from being claimed again. *)
Lemma Interleaved_claim b id sub types policy now w w' calls log claimed m : Interleaved b (mkSystem w calls log) →
  calls !! id = None →
  forallb (λ x, negb (h_subscription x.2 =s sub) || lease_running (lease_of policy) now (h_claimed x.2)) (map_to_list calls) = true →
  claim now sub types policy (lens_get store w) = (lens_get store w', inr (Some (claimed, m))) →
  Interleaved b (mkSystem w' (<[id := mkCall sub policy claimed m Claimed]> (touch <$> calls)) log).
Proof using Type.
  intros Hi Hnone Hlease Hcl. pose proof (claim_found now sub types policy (lens_get store w)) as Hf. rewrite Hcl in Hf.
  destruct Hf as (c & Hc & (Hsub & Hst & _ & Hlk & _)%claimable_spec & Hb & -> & -> & Hw).
  assert (∀ i h, calls !! i = Some h → d_ptr (h_claimed h) ≠ d_ptr c) as Hother.
  { intros i h Hl Hp. destruct (il_held _ _ Hi i h Hl) as (x & Hx & [= Hxp _ _] & _ & Hxl & Hxs & _).
    rewrite (NoDup_map_inj d_ptr _ x c (ptr_fresh _ _ (il_structure _ _ Hi)) Hx Hc (eq_trans Hxp Hp)) in Hxl, Hxs.
    rewrite forallb_forall in Hlease. specialize (Hlease (i, h)). cbn in Hlease.
    rewrite <- Hxs, Hsub, eqs_refl in Hlease. unfold lease_running in Hlease, Hlk. rewrite <- Hxl in Hlease.
    rewrite Hlk in Hlease. discriminate Hlease. by apply list_elem_of_In, elem_of_map_to_list. }
  assert (Interleaved b (mkSystem w' (touch <$> calls) log)) as [Hs Hq Ho Hh Ha Hsv].
  { eapply Interleaved_update; [exact Hi|exact Hw|done|done|exact Hother]. }
  cbn [sy_world sy_calls sy_applied] in *.
  assert ((touch <$> calls) !! id = None) as Hnone' by (by rewrite lookup_fmap, Hnone).
  assert (∀ i h, (touch <$> calls) !! i = Some h → d_ptr (h_claimed h) ≠ d_ptr c) as Hother'.
  { intros i h Hl. rewrite lookup_fmap in Hl. destruct (calls !! i) eqn:Hk; [|done]. injection Hl as <-.
    rewrite touch_claimed. by eapply Hother. }
  split; cbn [sy_world sy_calls sy_applied]; try done.
  - erewrite map_ext; [exact Ho|]. intros d. unfold settle.
    replace (applied_ptr _ (d_ptr d)) with (applied_ptr (touch <$> calls) (d_ptr d)); [done|].
    apply eq_true_iff_eq. rewrite !applied_ptr_spec. setoid_rewrite lookup_insert_Some. split.
    + intros (i & h & Hl & Hr). exists i, h. split; [right; split; [congruence|done]|done].
    + intros (i & h & [[<- <-]|[_ Hl]] & Hap & Hp); [done|by exists i, h].
  - intros i h. rewrite lookup_insert_Some. intros [[<- <-]|[_ Hl]]; [|by apply Hh in Hl].
    exists (lock now c). rewrite Hw. unfold held. cbn. split_and!; try done.
    + apply elem_of_update. exists c. by rewrite Nat.eqb_refl.
    + intros d (d0 & Hd0 & ->)%elem_of_update. destruct (Nat.eqb_spec (d_ptr d0) (d_ptr c)); [done|].
      intros Hp' Hs' Ha' Hlt. by apply (blockedLocked_unblocked _ _ Hb d0).
  - intros i j h k. rewrite !lookup_insert_Some. intros [[<- <-]|[Hn1 Hl1]] [[<- <-]|[Hn2 Hl2]]; cbn; [done|..].
    + intros Hp. by destruct (Hother' j k Hl2).
    + intros Hp. by destruct (Hother' i h Hl1).
    + intros Hp. by eapply Ha.
  - intros i h saved. rewrite lookup_insert_Some. intros [[<- <-]|[_ Hl]]; [done|by eapply Hsv].
Qed.


(** A call goes to its next stage. *)
Lemma Interleaved_stage b w w' calls log log' id h st : Interleaved b (mkSystem w calls log) →
  calls !! id = Some h → lens_get store w' = lens_get store w →
  Order (map (settle (<[id := h <| h_stage := st |>]> calls)) (es_deliveries (lens_get store w))) log' →
  (∀ saved, st = Running saved false → lens_get store saved = lens_get store w) →
  Interleaved b (mkSystem w' (<[id := h <| h_stage := st |>]> calls) log').
Proof using Type.
  intros [Hs Hq Ho Hh Ha Hsv] Hid Hw Ho' Hst. split; cbn [sy_world sy_calls sy_applied] in *; rewrite ?Hw; try done.
  - intros i k. rewrite lookup_insert_Some. intros [[<- <-]|[_ Hl]]; [exact (Hh id h Hid)|exact (Hh i k Hl)].
  - intros i j x y. rewrite !lookup_insert_Some. intros [[<- <-]|[Hn1 Hl1]] [[<- <-]|[Hn2 Hl2]]; cbn; try done.
    + exact (Ha id j h y Hid Hl2).
    + exact (Ha i id x h Hl1 Hid).
    + exact (Ha i j x y Hl1 Hl2).
  - intros i k saved. rewrite lookup_insert_Some. intros [[<- <-]|[_ Hl]]; cbn; [apply Hst|by eapply Hsv].
Qed.

(** Which deliveries are applied, when a call changes its stage or ends. *)
Lemma applied_ptr_insert calls id h st p : calls !! id = Some h → is_applied h = false →
  applied_ptr (<[id := h <| h_stage := st |>]> calls) p =
  applied_ptr calls p || (is_applied (h <| h_stage := st |>) && Nat.eqb (d_ptr (h_claimed h)) p).
Proof.
  intros Hid Hno. apply eq_true_iff_eq. rewrite orb_true_iff, andb_true_iff, !applied_ptr_spec, Nat.eqb_eq.
  setoid_rewrite lookup_insert_Some. split.
  - intros (i & k & [[<- <-]|[_ Hl]] & Hap & Hp); [by right|]. left. by exists i, k.
  - intros [(i & k & Hl & Hap & Hp)|[Hap Hp]].
    + exists i, k. split; [|done]. right. split; [congruence|done].
    + exists id, (h <| h_stage := st |>). split; [by left|done].
Qed.

Lemma applied_ptr_delete calls id h p : calls !! id = Some h →
  (∀ i k, calls !! i = Some k → d_ptr (h_claimed k) = d_ptr (h_claimed h) → i = id) →
  applied_ptr (delete id calls) p = applied_ptr calls p && negb (Nat.eqb p (d_ptr (h_claimed h))).
Proof.
  intros Hid Ha. apply eq_true_iff_eq. rewrite andb_true_iff, negb_true_iff, Nat.eqb_neq, !applied_ptr_spec.
  setoid_rewrite lookup_delete_Some. split.
  - intros (i & k & [Hne Hl] & Hap & <-). split; [by exists i, k|]. intros Hp. by destruct (Ha i k Hl Hp).
  - intros [(i & k & Hl & Hap & Hp) Hne]. exists i, k. split_and!; try done. intros <-. congruence.
Qed.

Lemma settle_same calls calls' ds : (∀ p, applied_ptr calls' p = applied_ptr calls p) →
  map (settle calls') ds = map (settle calls) ds.
Proof. intros He. apply map_ext. intros d. unfold settle. by rewrite He. Qed.

(** A successful handler applies the next event of its aggregate. *)
Lemma Order_return b w calls log id h : Interleaved b (mkSystem w calls log) →
  calls !! id = Some h → is_applied h = false →
  Order (map (settle (<[id := h <| h_stage := Returned (inr tt) |>]> calls)) (es_deliveries (lens_get store w)))
    (log ++ [(h_subscription h, h_message h)]).
Proof using Type.
  intros [Hs Hq Ho Hh Ha _] Hid Hno. cbn [sy_world sy_calls sy_applied] in *.
  destruct (Hh id h Hid) as (c & Hc & Hsh & Hst & _ & Hsub & -> & Hu). set (s := lens_get store w) in *.
  assert (∀ d, shape (settle calls d) = shape d) as Hset by (intros d; unfold settle; by destruct (applied_ptr _ _)).
  assert (settle calls c = c) as Hfix.
  { unfold settle. destruct (applied_ptr _ _) eqn:Hap; [|done]. apply applied_ptr_spec in Hap as (i & k & Hl & Hak & Hp).
    injection Hsh as Hcp _ _. rewrite (Ha i id k h Hl Hid (eq_trans Hp Hcp)) in Hl. congruence. }
  rewrite <- Hsub. eapply Order_progress;
    [|apply (mark_Order b (s <| es_deliveries ::= map (settle calls) |>) log c (h_claimed h))]; try done; cbn.
  - unfold update_ptr. rewrite !map_map. apply map_ext. intros d. pose proof (Hset d) as [= -> _ _].
    unfold settle. rewrite (applied_ptr_insert _ _ h) by done. injection Hsh as -> _ _. cbn.
    rewrite (Nat.eqb_sym (d_ptr (h_claimed h))).
    by destruct (applied_ptr calls (d_ptr d)), (Nat.eqb (d_ptr d) (d_ptr (h_claimed h))).
  - eapply Structure_shape; [..|exact Hs]; try done. cbn. rewrite map_map. by apply map_ext.
  - apply list_elem_of_fmap. by exists c.
  - intros d (d0 & -> & Hd0)%list_elem_of_fmap. pose proof (Hset d0) as [= H1 H2 H3]. unfold d_aggregate, d_seq.
    rewrite H1, H2, H3. intros Hp Hs' Ha' Hlt. pose proof (Hu d0 Hd0 Hp Hs' Ha' Hlt) as Hdone. unfold settle.
    by destruct (applied_ptr _ _).
Qed.

Lemma roll_back_log saved outcome w w1 : lens_get store w1 = lens_get store w →
  (is_Some unit → is_Some (match outcome with inl e => Some e | inr _ => None end) → lens_get store saved = lens_get store w) →
  lens_get store (roll_back saved outcome w1) = lens_get store w.
Proof using Type*.
  intros H1 H2. unfold roll_back. destruct unit, outcome; try done. unfold EventStore_Snapshot.
  rewrite lens_get_set, H1, H2 by done. by destruct (lens_get store w).
Qed.

Lemma Interleaved_Return b σ id : Interleaved b σ → step_ok (StepReturn id) σ = true →
  Interleaved b (exec_step (StepReturn id) σ).
Proof using All.
  destruct σ as [w calls log]. intros Hi Hok. cbn in Hok |- *. destruct (calls !! id) as [h|] eqn:Hid; [|done].
  destruct (h_stage h) as [|saved touched|] eqn:Hst; [done| |done].
  assert (is_applied h = false) as Hno by (unfold is_applied; by rewrite Hst).
  pose proof (store_handle (h_subscription h) (h_message h) w) as Hw.
  destruct (handle _ _ w) as [w1 outcome]. cbn [fst snd] in *.
  assert (lens_get store (roll_back saved outcome w1) = lens_get store w) as Hback.
  { apply roll_back_log; [done|]. intros [u Hu] [e He]. destruct outcome as [x|]; [|done]. rewrite Hu in Hok.
    destruct touched; [done|]. exact (il_saved _ _ Hi id h saved Hid Hst). }
  eapply Interleaved_stage; [exact Hi|exact Hid|exact Hback| |done].
  destruct outcome as [e|[]]; [|by eapply Order_return].
  rewrite (settle_same calls); [exact (il_order _ _ Hi)|]. intros p. rewrite (applied_ptr_insert _ _ h) by done.
  cbn. by rewrite orb_false_r.
Qed.

Lemma Interleaved_Open b σ id : Interleaved b σ → Interleaved b (exec_step (StepOpen id) σ).
Proof using All.
  destruct σ as [w calls log]. intros Hi. cbn. destruct (calls !! id) as [h|] eqn:Hid; [|done].
  destruct (h_stage h) eqn:Hst; [|done..]. destruct (unit_free calls); [|done].
  assert (is_applied h = false) as Hno by (unfold is_applied; by rewrite Hst).
  eapply Interleaved_stage; [exact Hi|exact Hid|done| |by intros saved [= <-]].
  rewrite (settle_same calls); [exact (il_order _ _ Hi)|]. intros p. rewrite (applied_ptr_insert _ _ h) by done.
  cbn. by rewrite orb_false_r.
Qed.

(** Finishing writes through the pointer of the claim. *)
Lemma finish_writes policy claimed m outcome w : ∃ f,
  lens_get store (finish store Clock policy claimed m outcome w).1 =
    (lens_get store w) <| es_deliveries ::= update_ptr (d_ptr claimed) f |> ∧
  (∀ d, shape (f d) = shape d) ∧
  ∀ d, match outcome with
       | inr _ => d_status (f d) = deliveryProcessed
       | inl _ => d_status d = deliveryPending → d_status (f d) ≠ deliveryProcessed
       end.
Proof using All.
  destruct (finish_spec policy claimed m outcome w) as (w' & status & err & -> & Hout). cbn [fst]. cbn zeta in Hout.
  destruct outcome as [e|[]].
  - destruct Hout as (t & [[_ ->]|[_ (t' & ->)]]).
    + eexists. split; [reflexivity|]. split; [done|]. cbn. congruence.
    + unfold complete_dead, complete_retry. unfold set_field. cbn. rewrite update_update by done.
      eexists. split; [reflexivity|]. done.
  - destruct Hout as [_ ->]. eexists. split; [reflexivity|]. done.
Qed.

Lemma Interleaved_Finish b σ id : Interleaved b σ → Interleaved b (exec_step (StepFinish id) σ).
Proof using All.
  destruct σ as [w calls log]. intros Hi. cbn. destruct (calls !! id) as [h|] eqn:Hid; [|done].
  destruct (h_stage h) as [| |outcome] eqn:Hst; [done|done|].
  destruct (finish_writes (h_policy h) (h_claimed h) (h_message h) outcome w) as (f & Hw & Hsh & Hdone).
  destruct Hi as [Hs Hq Ho Hh Ha Hsv]. cbn [sy_world sy_calls sy_applied] in *.
  destruct (Hh id h Hid) as (c & Hc & [= Hcp _ _] & Hcst & _).
  assert (∀ i k, calls !! i = Some k → d_ptr (h_claimed k) = d_ptr (h_claimed h) → i = id) as Halone.
  { intros i k Hl Hp. exact (Ha i id k h Hl Hid Hp). }
  assert (∀ d, d ∈ es_deliveries (lens_get store w) → d_ptr d = d_ptr (h_claimed h) → d = c) as Huniq.
  { intros d Hd Hp. apply (NoDup_map_inj d_ptr _ d c (ptr_fresh _ _ Hs) Hd Hc). congruence. }
  apply (Interleaved_touched b w); rewrite ?Hw.
  - intros i k [_ Hl]%lookup_delete_Some. by apply (Hh i).
  - intros i j x y [_ Hl1]%lookup_delete_Some [_ Hl2]%lookup_delete_Some. by eapply Ha.
  - eapply Structure_shape; [..|exact Hs]; try done. by apply shape_update.
  - eapply all_queued_shape; [..|exact Hq]; try done. by apply shape_update.
  - eapply settle_update; [by intros|..|exact Ho]. intros d Hd. rewrite (applied_ptr_delete _ _ h) by done.
    destruct (Nat.eqb_spec (d_ptr d) (d_ptr (h_claimed h))) as [Hp|Hp]; [|by rewrite andb_true_r].
    rewrite (Huniq d Hd Hp), andb_false_r, orb_false_r. specialize (Hdone c).
    assert (is_status deliveryProcessed c = false) as -> by (unfold is_status; by rewrite Hcst). cbn [orb].
    assert (applied_ptr calls (d_ptr c) = is_applied h) as ->.
    { apply eq_true_iff_eq. rewrite applied_ptr_spec. split.
      - intros (i & k & Hl & Hap & Hp'). rewrite (Halone i k Hl) in Hl by congruence. congruence.
      - intros Hap. by exists id, h. }
    unfold is_applied. rewrite Hst. destruct outcome as [e|[]].
    + specialize (Hdone Hcst). unfold is_status. by rewrite bool_decide_eq_false_2.
    + unfold is_status. by rewrite bool_decide_eq_true_2.
  - intros i k x [Hne Hl]%lookup_delete_Some Hx. exists x. apply held_update; try done.
    + destruct Hx as (_ & [= -> _ _] & _). intros Hp. by destruct Hne; rewrite (Halone i k Hl Hp).
    + intros d Hd Hp Hpr. rewrite (Huniq d Hd Hp) in Hpr. congruence.
Qed.


Lemma run_no_call id w applied :
  run_steps [StepOpen id; StepReturn id; StepFinish id] (mkSystem w ∅ applied) = mkSystem w ∅ applied.
Proof. unfold run_steps, exec_step. cbn [foldl]. by rewrite !lookup_empty. Qed.

Lemma run_call id h w applied : h_stage h = Claimed →
  run_steps [StepOpen id; StepReturn id; StepFinish id] (mkSystem w {[id := h]} applied) =
  let '(w', outcome) := handle (h_subscription h) (h_message h) w in
  mkSystem (finish store Clock (h_policy h) (h_claimed h) (h_message h) outcome (roll_back w outcome w')).1 ∅
    (match outcome with inr _ => applied ++ [(h_subscription h, h_message h)] | inl _ => applied end).
Proof.
  intros Hst. unfold run_steps. cbn [foldl]. unfold exec_step at 3. rewrite lookup_singleton_eq, Hst.
  assert (unit_free {[id := h]} = true) as ->.
  { unfold unit_free. destruct unit; [|done]. rewrite map_to_list_singleton. cbn. unfold is_running. by rewrite Hst. }
  cbn iota. unfold exec_step at 2. rewrite lookup_insert_eq. cbn -[handle roll_back finish].
  destruct (handle _ _ w) as [w' outcome]. unfold exec_step. rewrite lookup_insert_eq. cbn -[finish roll_back].
  by rewrite !insert_singleton_eq, delete_singleton_eq, fmap_empty.
Qed.

(** One call that nothing interrupts is [ProcessNext]. *)
Lemma ProcessNext_steps (id : nat) sub types policy worker w applied :
  let σ := run_steps [StepClaim id sub types policy; StepOpen id; StepReturn id; StepFinish id] (mkSystem w ∅ applied) in
  (sy_world σ, sy_applied σ) = exec (Deliver sub types policy worker) (w, applied) ∧ sy_calls σ = ∅.
Proof using All.
  change (run_steps (StepClaim id sub types policy :: ?l) ?σ) with (run_steps l (exec_step (StepClaim id sub types policy) σ)).
  unfold exec_step, exec, ProcessNext. rewrite lookup_empty, fmap_empty.
  destruct (store_clock w) as (w1 & now & Hck & Hf). unfold mbind, M_bind. rewrite Hck.
  destruct (zoom store _ w1) as [w2 [e|[[claimed m]|]]]; [by rewrite run_no_call| |by rewrite run_no_call].
  rewrite insert_empty, run_call by done. cbn [h_subscription h_message h_policy h_claimed].
  fold (handle sub m). pose proof (store_handle sub m w2) as Hh. unfold catch.
  destruct (handle sub m w2) as [w3 outcome]. cbn [fst] in Hh.
  assert (roll_back w2 outcome w3 = w3) as ->.
  { unfold roll_back. destruct unit, outcome; try done. unfold EventStore_Snapshot. rewrite <- Hh.
    etrans; [|exact (lens_set_get (l:=store) w3)]. f_equal. by destruct (lens_get store w3). }
  destruct (finish_spec policy claimed m outcome w3) as (w4 & status & err & -> & Hout).
  cbn [fst res_Status res_Message]. split; [|done]. destruct outcome as [e|[]].
  - destruct Hout as (t & [[-> _]|[-> _]]); by rewrite decide_False.
  - destruct Hout as [-> _]. by rewrite decide_True.
Qed.

Lemma Interleaved_weaken b b' σ : Interleaved b σ → b ≤ b' → Interleaved b' σ.
Proof.
  intros [[H1 H2 H3 H4 H5 H6 H7 H8] ? ? ? ? ?] Hb. split; try done. split; try assumption. lia.
Qed.

Lemma Interleaved_Claim b σ id sub types policy : Interleaved b σ →
  step_ok (StepClaim id sub types policy) σ = true → Interleaved b (exec_step (StepClaim id sub types policy) σ).
Proof using All.
  destruct σ as [w calls log]. intros Hi Hok. cbn in Hok |- *. destruct (calls !! id) eqn:Hid; [done|].
  destruct (store_clock w) as (w1 & now & Hck & Hf). unfold mbind, M_bind. rewrite Hck in Hok |- *. unfold zoom. rewrite Hf.
  pose proof (claim_found now sub types policy (lens_get store w)) as Hfound.
  destruct (claim _ _ _ _ _) as [s1 [e|[[claimed m]|]]] eqn:Hcl; [done| |].
  - apply (Interleaved_claim b id sub types policy now w); [exact Hi|exact Hid|exact Hok|]. by rewrite Hcl, lens_get_set.
  - subst s1. destruct Hi as [? ? ? ? ? ?]. by split; cbn [sy_world sy_calls sy_applied] in *; rewrite ?lens_get_set.
Qed.

Lemma Interleaved_exec b st σ : Interleaved b σ → b < max_int64 → step_ok st σ = true →
  Interleaved (b + 1) (exec_step st σ).
Proof using All.
  intros Hi Hb Hok. destruct st as [ev|sub|oid|id sub types policy|id|id|id].
  - destruct σ as [w calls log]. destruct (Append_spec b ev (lens_get store w) (il_structure _ _ Hi) Hb) as (Hs & Hq & new & Hds & Hnew).
    rewrite Forall_forall in Hnew. cbn. unfold zoom. destruct (Append _ _) as [s' r]. cbn [fst] in *.
    eapply (Interleaved_append b _ w); [exact Hi|rewrite lens_get_set..| |]; [done|by apply Hq, Hi|exact Hds|..].
    + apply Forall_forall. intros d Hd. by apply Hnew.
    + intros d d' Hd Hd' _. by apply (Hnew d').
  - apply (Interleaved_weaken b); [|lia].
    destruct σ as [w calls log]. destruct (EnsureSubscription_spec b sub (lens_get store w) (il_structure _ _ Hi)) as (Hs & Hq & new & Hds & Hnew).
    rewrite Forall_forall in Hnew. cbn. unfold zoom. destruct (EnsureSubscription _ _) as [s' r]. cbn [fst] in *.
    eapply (Interleaved_append b _ w); [exact Hi|rewrite lens_get_set..| |]; [done|by apply Hq, Hi|exact Hds|..].
    + apply Forall_forall. intros d Hd. by apply Hnew.
    + intros d d' Hd Hd' Heq. by destruct (proj2 (Hnew d' Hd') d Hd Heq).
  - apply (Interleaved_weaken b); [|lia]. destruct σ as [w calls log]. unfold exec_step, zoom.
    apply (Interleaved_Requeue b oid w); [exact Hi|]. destruct (RequeueDeadLetter _ _). cbn [fst]. by rewrite lens_get_set.
  - apply (Interleaved_weaken b); [by apply Interleaved_Claim|lia].
  - apply (Interleaved_weaken b); [by apply Interleaved_Open|lia].
  - apply (Interleaved_weaken b); [by apply Interleaved_Return|lia].
  - apply (Interleaved_weaken b); [by apply Interleaved_Finish|lia].
Qed.

Lemma Interleaved_run steps : ∀ b σ, Interleaved b σ → b + Z.of_nat (length steps) ≤ max_int64 →
  orderly steps σ = true → ∃ b', Interleaved b' (run_steps steps σ).
Proof using All.
  induction steps as [|st steps IH]; intros b σ Hi Hb Hok; [by exists b|].
  cbn [length orderly] in *. apply andb_true_iff in Hok as [Hst Hok].
  apply (IH (b + 1)); [apply Interleaved_exec; [done|lia|done]|lia|done].
Qed.

(** A handler has applied the delivery: it is processed, or the call that applied it
    is about to say so. *)
Definition applied_by_now (σ : system) (d : delivery) : Prop :=
  d_status d = deliveryProcessed ∨
  ∃ i h, sy_calls σ !! i = Some h ∧ is_applied h = true ∧ d_ptr (h_claimed h) = d_ptr d.

Lemma settle_applied σ d : d_status (settle (sy_calls σ) d) = deliveryProcessed ↔ applied_by_now σ d.
Proof.
  unfold settle, applied_by_now. rewrite <- applied_ptr_spec. destruct (applied_ptr _ _); [tauto|]. naive_solver.
Qed.

(** [C1] Calls of [ProcessNext] overlap: each claims, opens its unit of work, runs
    its handler and finishes in steps of its own, interleaved with those of any other
    calls, with events recorded, subscriptions registered before or after them and
    dead letters requeued; handlers fail as they like.  In every such execution in
    which, whenever a subscription is polled, no call of it under way has outlived
    its lease, and in which no one writes to the log between the snapshot of a unit
    and its restoring it: each subscription's handler applies the events of an
    aggregate in strictly increasing global order, so never one twice; it has applied
    an event exactly when the log marks it processed or the call that applied it is
    about to; and when it has applied an event it has applied every earlier one of the
    aggregate. *)
Theorem delivered_in_order_once (steps : list step) (w : W)
    (Hempty : lens_get store w = NewEventStore)
    (Hlen : Z.of_nat (length steps) ≤ max_int64)
    (Horderly : orderly steps (mkSystem w ∅ []) = true) :
  let σ := run_steps steps (mkSystem w ∅ []) in
  let ds := es_deliveries (lens_get store (sy_world σ)) in
  ∀ sub agg,
    StronglySorted Z.lt (handled_seqs sub agg (sy_applied σ)) ∧
    ∀ d, d ∈ ds → of_group sub agg d →
      (d_seq d ∈ handled_seqs sub agg (sy_applied σ) ↔ applied_by_now σ d) ∧
      (applied_by_now σ d → ∀ d', d' ∈ ds → of_group sub agg d' → d_seq d' < d_seq d → applied_by_now σ d').
Proof using All.
  intros σ ds sub agg. destruct (Interleaved_run steps 0 (mkSystem w ∅ [])) as (b & [Hs _ [Hp Hl] _ _ _]); [|done..|].
  { destruct Inv_empty as (Hs & Hq & Ho). split; cbn [sy_world sy_calls sy_applied]; rewrite ?Hempty; try done. }
  fold σ in Hs, Hp, Hl. fold ds in Hp, Hl. destruct (Hl sub agg) as [Hso Hiff]. split; [done|].
  assert (∀ d, d ∈ ds → settle (sy_calls σ) d ∈ map (settle (sy_calls σ)) ds) as Hin by apply list_elem_of_fmap_2.
  assert (∀ d, shape (settle (sy_calls σ) d) = shape d) as Hsh by (intros d; unfold settle; by destruct (applied_ptr _ _)).
  assert (∀ d, of_group sub agg (settle (sy_calls σ) d) ↔ of_group sub agg d) as Hgr.
  { intros d. pose proof (Hsh d) as [= _ H1 H2]. unfold of_group, d_aggregate. by rewrite H1, H2. }
  assert (∀ d, d_seq (settle (sy_calls σ) d) = d_seq d) as Hsq.
  { intros d. pose proof (Hsh d) as [= _ _ H2]. unfold d_seq. by rewrite H2. }
  intros d Hd Hg. split.
  - rewrite Hiff. split.
    + intros (x & (d' & -> & Hd')%list_elem_of_fmap & Hgx & Hst%settle_applied & Hseq).
      rewrite Hsq in Hseq. destruct (proj1 (Hgr d') Hgx) as [Hg1 Hg2]. destruct Hg as [Hg3 Hg4]. replace d with d'; [done|].
      apply (NoDup_map_inj pair_of ds); [apply (delivery_fresh _ _ Hs)|done..|]. unfold pair_of. congruence.
    + intros Hap. exists (settle (sy_calls σ) d). rewrite Hgr, settle_applied, Hsq. by split_and!; [apply Hin|..].
  - intros Hap d' Hd' Hg' Hlt. apply settle_applied.
    apply (Hp sub agg (settle (sy_calls σ) d)); [by apply Hin|by apply Hin|by apply Hgr|by apply Hgr|by apply settle_applied|].
    by rewrite !Hsq.
Qed.

(** No event is lost to a subscription: in every execution each recorded
    event has exactly one delivery for each registered subscription, whether
    the subscription was registered before the event or after it. *)
Theorem every_event_has_one_delivery (cs : list command) (w : W)
    (Hempty : lens_get store w = NewEventStore)
    (Hlen : Z.of_nat (length cs) ≤ max_int64) :
  let s := lens_get store (run cs (w, [])).1 in
  ∀ e sub, e ∈ es_events s → is_Some (es_subscriptions s !! sub) →
    ∃ d, d ∈ es_deliveries s ∧ d_subscription d = sub ∧ d_event d = e ∧
      ∀ d', d' ∈ es_deliveries s → d_subscription d' = sub → d_event d' = e → d' = d.
Proof using All.
  intros s e sub He Hsub.
  destruct (Inv_run cs 0 (w, [])) as (b & Hs & Hq & _); [|done|].
  { cbn [fst snd]. rewrite Hempty. apply Inv_empty. }
  fold s in Hs, Hq. destruct (Hq e sub He Hsub) as (d & Hd & Hds & Hde).
  exists d. split_and!; try done. intros d' Hd' Hs' He'.
  apply (NoDup_map_inj pair_of (es_deliveries s)); [apply (delivery_fresh _ _ Hs)|done..|].
  unfold pair_of, d_seq. congruence.
Qed.
End Execution.

(** ** Draining *)

Lemma least_in (P : delivery → Prop) `{!∀ d, Decision (P d)} (ds : list delivery) (d : delivery) :
  d ∈ ds → P d → ∃ c, c ∈ ds ∧ P c ∧ ∀ x, x ∈ ds → P x → d_seq c ≤ d_seq x.
Proof.
  revert d. induction ds as [|y ds IH]; intros d Hd HP; [by apply not_elem_of_nil in Hd|].
  destruct (decide (Exists P ds)) as [Hex|Hno].
  - apply Exists_exists in Hex as (d' & Hd' & HP'). destruct (IH d' Hd' HP') as (c & Hc & HPc & Hmin).
    destruct (decide (P y ∧ d_seq y < d_seq c)) as [[HPy Hlt]|Hn].
    + exists y. split; [by left|]. split; [done|]. intros x [->|Hx]%elem_of_cons HPx; [lia|].
      specialize (Hmin x Hx HPx). lia.
    + exists c. split; [by right|]. split; [done|]. intros x [->|Hx]%elem_of_cons HPx; [|by apply Hmin].
      destruct (decide (d_seq y < d_seq c)); [tauto|lia].
  - assert (∀ x, x ∈ ds → ¬ P x) as Hnone.
    { intros x Hx HPx. apply Hno, Exists_exists. by exists x. }
    apply elem_of_cons in Hd as [->|Hd]; [|by destruct (Hnone d)].
    exists y. split; [by left|]. split; [done|]. intros x [->|Hx]%elem_of_cons HPx; [lia|].
    by destruct (Hnone x).
Qed.

Lemma same_aggregate_spec d c :
  same_aggregate d c = true ↔
  d_ptr d ≠ d_ptr c ∧ d_subscription d = d_subscription c ∧ d_aggregate d = d_aggregate c.
Proof.
  unfold same_aggregate, d_aggregate.
  rewrite !andb_true_iff, negb_true_iff, !String.eqb_eq, Nat.eqb_neq. split.
  - intros [[[Hp ->] ->] ->]. done.
  - intros (Hp & -> & [= -> ->]). done.
Qed.

Lemma deadBlocked_spec (ds : list delivery) c :
  deadBlockedLocked ds c = true ↔ ∃ d, d ∈ ds ∧ d_ptr d ≠ d_ptr c ∧
    d_subscription d = d_subscription c ∧ d_aggregate d = d_aggregate c ∧
    d_seq d < d_seq c ∧ d_status d = deliveryDead.
Proof.
  unfold deadBlockedLocked. rewrite existsb_exists. setoid_rewrite <- list_elem_of_In.
  setoid_rewrite andb_true_iff. setoid_rewrite andb_true_iff.
  setoid_rewrite same_aggregate_spec. setoid_rewrite is_status_spec. setoid_rewrite Z.ltb_lt.
  split; intros (d & Hd); exists d; tauto.
Qed.

Lemma blocked_spec (ds : list delivery) c :
  blockedLocked ds c = true ↔ ∃ d, d ∈ ds ∧ d_ptr d ≠ d_ptr c ∧
    d_subscription d = d_subscription c ∧ d_aggregate d = d_aggregate c ∧
    d_seq d < d_seq c ∧ (d_status d = deliveryPending ∨ d_status d = deliveryDead).
Proof.
  unfold blockedLocked. rewrite existsb_exists. setoid_rewrite <- list_elem_of_In.
  setoid_rewrite andb_true_iff. setoid_rewrite andb_true_iff. setoid_rewrite orb_true_iff.
  setoid_rewrite same_aggregate_spec. setoid_rewrite is_status_spec. setoid_rewrite Z.ltb_lt.
  split; intros (d & Hd); exists d; tauto.
Qed.

Section Drain.
Context `{GoRuntime}.

(** [claim] finds nothing exactly when every claimable delivery is blocked. *)
Lemma claim_idle_iff now sub types policy s :
  (claim now sub types policy s).2 = inr None ↔
  ∀ d, d ∈ es_deliveries s →
    claimable sub types (if LeaseTTL policy <=? 0 then Minute else LeaseTTL policy) now d = true →
    blockedLocked (es_deliveries s) d = true.
Proof.
  unfold claim. cbn zeta. set (lease := if _ <=? 0 then _ else _).
  destruct (List.find _ _) as [c|] eqn:Hf; cbn; split; try done.
  - intros Hall. apply List.find_some in Hf as [Hin Hb%negb_true_iff].
    apply list_elem_of_In in Hin. rewrite sort_slice_perm in Hin.
    apply list_elem_of_In, filter_In in Hin as [Hin Hc].
    rewrite Hall in Hb; [done|by apply list_elem_of_In|done].
  - intros _ d Hd Hc. apply negb_false_iff. apply (List.find_none _ _ Hf d).
    apply list_elem_of_In. rewrite sort_slice_perm. apply list_elem_of_In, filter_In.
    by rewrite <- list_elem_of_In.
Qed.

Lemma Lag_zero_iff sub s :
  Lag sub s = 0 ↔ ∀ d, d ∈ es_deliveries s → d_subscription d = sub →
    d_status d = deliveryPending → deadBlockedLocked (es_deliveries s) d = true.
Proof.
  unfold Lag. split.
  - intros Hl d Hd Hs Hst. apply not_false_iff_true. intros Hb.
    assert (d ∈ List.filter (λ d, (d_subscription d =s sub) && is_status deliveryPending d &&
      negb (deadBlockedLocked (es_deliveries s) d)) (es_deliveries s)) as Hin.
    { apply list_elem_of_In, filter_In. split; [by apply list_elem_of_In|].
      by rewrite Hs, eqs_refl, Hb, (proj2 (is_status_spec _ _) Hst). }
    destruct (List.filter _ _); [by apply not_elem_of_nil in Hin|]. cbn in Hl. lia.
  - intros Hall. destruct (List.filter _ _) as [|d l] eqn:Hf; [done|exfalso].
    assert (In d (d :: l)) as Hin by by left. rewrite <- Hf in Hin.
    apply filter_In in Hin as [Hin Hd]. rewrite !andb_true_iff, is_status_spec in Hd.
    destruct Hd as [[Hs%String.eqb_eq Hst] Hb%negb_true_iff].
    rewrite Hall in Hb; [done|by apply list_elem_of_In|done|done].
Qed.

(** Nothing of the subscription is locked, backing off or of another
    aggregate type. *)
Definition settled (now : Time) (sub : string) (types : list string) (lease : Duration)
    (s : EventStore) : Prop :=
  ∀ d, d ∈ es_deliveries s → d_subscription d = sub → d_status d = deliveryPending →
    claimable sub types lease now d = true.

(** The lag is the backlog healthy processing can drain: once no backoff
    and no lease is running, a subscription's next poll is idle exactly when
    its lag is zero.  So a positive lag always has a deliverable message, and
    messages parked behind a dead letter, which no poll can reach, are not
    counted. *)
Theorem lag_zero_iff_idle (now : Time) (sub : string) (types : list string) (policy : Policy)
    (s : EventStore)
    (Hptr : NoDup (map d_ptr (es_deliveries s)))
    (Hsettled : settled now sub types
      (if LeaseTTL policy <=? 0 then Minute else LeaseTTL policy) s) :
  Lag sub s = 0 ↔ (claim now sub types policy s).2 = inr None.
Proof.
  rewrite claim_idle_iff, Lag_zero_iff. split.
  - intros Hall d Hd Hc. assert (Hc' := Hc). unfold claimable in Hc'.
    rewrite !andb_true_iff, is_status_spec in Hc'.
    destruct Hc' as [[[[Hsub%String.eqb_eq Hst] _] _] _].
    apply blocked_spec. destruct (proj1 (deadBlocked_spec _ _) (Hall d Hd Hsub Hst)) as (x & Hx).
    exists x. tauto.
  - intros Hall d Hd Hsub Hst.
    destruct (least_in (λ x, d_subscription x = sub ∧ d_aggregate x = d_aggregate d ∧
      d_status x = deliveryPending) (es_deliveries s) d Hd) as (c & Hc & (Hcs & Hca & Hcp) & Hmin);
      [done|].
    assert (blockedLocked (es_deliveries s) c = true) as Hb by (apply Hall; [done|by apply Hsettled]).
    apply blocked_spec in Hb as (x & Hx & Hxp & Hxs & Hxa & Hxlt & [Hxst|Hxst]).
    { assert (d_seq c ≤ d_seq x); [|lia]. apply Hmin; [done|]. split_and!; congruence. }
    apply deadBlocked_spec. exists x.
    assert (d_seq c ≤ d_seq d) by (by apply Hmin).
    split_and!; try congruence; [|lia]. intros Hp.
    rewrite (NoDup_map_inj d_ptr _ x d Hptr Hx Hd Hp) in Hxlt. lia.
Qed.
End Drain.

(** ** A worker that outlives its lease

    [ProcessNext] holds no lock while the handler runs, so another worker can
    claim and process the same message once the lease has run out.  The late
    worker's failure is then written over the other's success. *)

Definition failed (retryAt deadAt : Time) (err : error) (d : delivery) : delivery :=
  d <| d_lockedAt := 0 |> <| d_lastError := ErrorText err |> <| d_availableAt := retryAt |>
    <| d_status := deliveryDead |> <| d_deadLetteredAt := deadAt |>.

(** The last permitted attempt failing, at a fixed time. *)
Lemma finish_last_attempt policy c m err now s :
  MaxAttempts policy ≤ current_attempts c s →
  finish id_lens (mret now) policy c m (inl err) s =
    (s <| es_deliveries ::= update_ptr (d_ptr c)
           (failed (TimeAdd now (RetryDelay policy (current_attempts c s))) now err) |>,
     inr (mkResult DeadLettered m (Some err))).
Proof.
  intros H%Z.leb_le. unfold finish, mbind, M_bind, gets, mret, M_ret.
  cbn -[Z.leb current_attempts RetryDelay]. rewrite H. cbn -[current_attempts RetryDelay]. do 2 f_equal.
  unfold complete_dead, complete_retry. unfold set_field. cbn. by rewrite update_update.
Qed.

(** A failure reported by a worker whose lease ran out, after another
    worker processed the message, turns the processed delivery into a dead
    letter: processed is not final, and what the aggregate has queued behind it
    is blocked although the event was applied. *)
Theorem late_failure_unprocesses (b : Z) (s : EventStore) (policy : Policy) (now : Time)
    (m : Message) (err : error) (c d : delivery)
    (Hs : Structure b s) (Hc : c ∈ es_deliveries s)
    (Hdone : d_status c = deliveryProcessed)
    (Hmax : MaxAttempts policy ≤ current_attempts c s)
    (Hd : d ∈ es_deliveries s) (Hpend : d_status d = deliveryPending)
    (Hsub : d_subscription d = d_subscription c) (Hagg : d_aggregate d = d_aggregate c)
    (Hlater : d_seq c < d_seq d) :
  let s' := (finish id_lens (mret now) policy c m (inl err) s).1 in
  (∃ c', c' ∈ es_deliveries s' ∧ shape c' = shape c ∧ d_status c' = deliveryDead) ∧
  d ∈ es_deliveries s' ∧ deadBlockedLocked (es_deliveries s') d = true.
Proof.
  rewrite finish_last_attempt by done. cbn -[failed shape].
  set (retryAt := TimeAdd now _). assert (d_ptr d ≠ d_ptr c) as Hp.
  { intros Hp. rewrite (NoDup_map_inj d_ptr _ d c (ptr_fresh _ _ Hs) Hd Hc Hp) in Hlater. lia. }
  assert (failed retryAt now err c ∈ update_ptr (d_ptr c) (failed retryAt now err) (es_deliveries s))
    as Hc'.
  { apply elem_of_update. exists c. by rewrite Nat.eqb_refl. }
  split; [by exists (failed retryAt now err c)|].
  split; [apply elem_of_update; exists d; by rewrite (proj2 (Nat.eqb_neq _ _) Hp)|].
  apply deadBlocked_spec. exists (failed retryAt now err c). split; [done|].
  split; [by apply not_eq_sym|]. by split_and!.
Qed.

(** ** Example: two events, a handler that fails once, an unreliable clock *)

Module Sample.
Definition world : Type := EventStore * Z.
Definition store : Lens world EventStore := {| lens_get := fst; lens_set s w := (s, w.2) |}.
#[global] Instance store_laws : LensLaws store.
Proof. by split; [|intros []|]. Qed.

Definition Clock : M world Time := λ w, ((w.1, w.2 + Hour), inr w.2).
Definition apply (sub : string) (m : Message) : M world () :=
  if Attempts m <=? 1 then throw (ErrorsNew "boom") else mret ().

#[global] Instance frame : HandlerFrame store Clock None apply.
Proof.
  split.
  - intros [s t]. by exists (s, t + Hour), t.
  - intros sub m w. unfold handle, apply. by destruct (_ <=? _).
Qed.

Definition event (id : string) : DomainEvent :=
  mkDomainEvent id "expense" "e1" "expense_added" (ExpenseAdded sample_expense) 1000 "u1".
Definition poll : command := Deliver "analytics" ["expense"] DefaultPolicy "w1".
Definition commands : list command :=
  [Record_event (event "ev1"); Register "analytics"; Record_event (event "ev2");
   poll; poll; poll; poll].
Definition start : world := (NewEventStore, unix_epoch).
Definition final : world * handled := @run default_runtime world store Clock None apply commands
  (start, []).

(** Both events are handled, in order, although the first attempt of each failed. *)
Example handled_both : handled_seqs "analytics" ("expense", "e1") final.2 = [1; 2].
Proof. vm_compute. reflexivity. Qed.

Definition queued : EventStore := lens_get store
  (@run default_runtime world store Clock None apply (take 5 commands) (start, [])).1.
End Sample.

(** ** Example: calls that overlap, with a unit of work *)

Module Overlap.
Import Sample.
Definition Clock : M world Time := λ w, ((w.1, w.2 + 10 * Second), inr w.2).
(** The first attempt of "analytics" fails. *)
Definition apply (sub : string) (m : Message) : M world () :=
  if (sub =s "analytics") && (Attempts m <=? 1) then throw (ErrorsNew "boom") else mret ().
Definition within (m : M world ()) : M world () := memory_Within [EventStore_Snapshot store] false (λ _, m).

#[global] Instance frame : HandlerFrame store Clock (Some within) apply.
Proof.
  split.
  - intros [s t]. by exists (s, t + 10 * Second), t.
  - intros sub m [[] t]. unfold handle, within, memory_Within, apply. by destruct (_ && _).
Qed.

Abbreviation steps_from := (@run_steps default_runtime world store Clock (Some within) apply).
Abbreviation in_order := (@orderly default_runtime world store Clock (Some within) apply).
Definition start : system := mkSystem (NewEventStore, unix_epoch) ∅ [].
Definition recorded : list step :=
  [StepRecord (event "ev1"); StepRegister "analytics"; StepRegister "audit"; StepRecord (event "ev2")].
Definition claim_of (id : nat) (sub : string) : step := StepClaim id sub ["expense"] (mkPolicy 5 Second Second Minute).
Definition work (id : nat) : list step := [StepOpen id; StepReturn id; StepFinish id].

(** Calls of both subscriptions overlap, one of them fails, and a third finds the aggregate busy. *)
Definition steps : list step :=
  recorded ++ [claim_of 0 "analytics"; claim_of 1 "audit"; claim_of 2 "analytics"; StepOpen 1; StepReturn 1;
    StepOpen 0; StepReturn 0; StepFinish 1; claim_of 1 "audit"; StepFinish 0] ++ work 1 ++
  [claim_of 3 "audit"; claim_of 0 "analytics"] ++ work 0 ++ [claim_of 0 "analytics"] ++ work 0 ++ [claim_of 4 "analytics"; StepOpen 4; StepReturn 4].
Definition final : system := steps_from steps start.
Example overlapping_applied : handled_seqs "analytics" ("expense", "e1") (sy_applied final) = [1; 2] ∧
  handled_seqs "audit" ("expense", "e1") (sy_applied final) = [1; 2].
Proof. vm_compute. done. Qed.

(** A call finishes while the unit of another, which will fail, is open. *)
Definition rolled_back : list step :=
  recorded ++ [claim_of 0 "analytics"; claim_of 1 "audit"; StepOpen 1; StepReturn 1; StepOpen 0; StepFinish 1;
    StepReturn 0; StepFinish 0].
(** The restored log has forgotten that the message was processed; once its lease is over it is
    claimed and applied again.  No call outlived its lease. *)
Lemma rollback_reapplies :
  in_order (take 10 rolled_back) start = true ∧
  map d_status (List.filter (λ d, d_subscription d =s "audit") (es_deliveries (lens_get store (sy_world
    (steps_from rolled_back start))))) = [deliveryPending; deliveryPending] ∧
  handled_seqs "audit" ("expense", "e1") (sy_applied (steps_from (rolled_back ++
    [claim_of 2 "audit"; claim_of 2 "audit"; claim_of 2 "audit"; claim_of 2 "audit"; claim_of 2 "audit"; claim_of 2 "audit"; claim_of 2 "audit"] ++ work 2) start)) = [1; 1].
Proof. vm_compute. done. Qed.
End Overlap.

Lemma delivered_in_order_once_witness :
  StronglySorted Z.lt (handled_seqs "audit" ("expense", "e1") (sy_applied Overlap.final)).
Proof.
  apply (@delivered_in_order_once default_runtime Sample.world Sample.store _ Overlap.Clock (Some Overlap.within)
    Overlap.apply _ Overlap.steps (NewEventStore, unix_epoch) eq_refl ltac:(by vm_compute) ltac:(by vm_compute)).
Defined.

Lemma every_event_has_one_delivery_witness :
  let s := lens_get Sample.store Sample.final.1 in
  ∃ d, d ∈ es_deliveries s ∧ d_seq d = 1.
Proof.
  destruct (@every_event_has_one_delivery default_runtime Sample.world Sample.store _ Sample.Clock
    None Sample.apply _ Sample.commands Sample.start eq_refl ltac:(by vm_compute)
    (mkStoredEvent (Sample.event "ev1") 1 1 (enc_payload (ExpenseAdded sample_expense))
      (JObject [("actor_id", JString "u1")])) "analytics") as (d & Hd & _ & He & _).
  - vm_compute. left.
  - by exists ().
  - exists d. split; [exact Hd|]. unfold d_seq. by rewrite He.
Defined.

Lemma lag_zero_iff_idle_witness :
  Lag "analytics" Sample.queued = 0 ↔
  (@claim default_runtime (unix_epoch + 100 * Hour) "analytics" ["expense"] DefaultPolicy
    Sample.queued).2 = inr None.
Proof.
  apply lag_zero_iff_idle.
  - apply (bool_decide_unpack _). by vm_compute.
  - assert (Forall (λ d, d_status d = deliveryPending → claimable "analytics" ["expense"] Minute (unix_epoch + 100 * Hour) d = true)
      (es_deliveries Sample.queued)) as Hall by (apply (bool_decide_unpack _); by vm_compute).
    rewrite Forall_forall in Hall. intros d Hd _. by apply Hall.
Defined.

(** The event store after "ev1" was processed with attempts to spare used up. *)
Lemma late_failure_unprocesses_witness :
  let s := lens_get Sample.store
    (@run default_runtime _ Sample.store Sample.Clock None Sample.apply (take 6 Sample.commands)
      (Sample.start, [])).1 in
  ∃ c d, c ∈ es_deliveries s ∧ d ∈ es_deliveries s ∧ d_status c = deliveryProcessed ∧
  deadBlockedLocked (es_deliveries
    (finish id_lens (mret 0) (mkPolicy 2 Second Second Minute) c zero_Message
      (inl ErrNoStore) s).1) d = true.
Proof.
  cbv zeta. set (s := lens_get _ _).
  destruct (@Inv_run default_runtime _ Sample.store _ Sample.Clock None Sample.apply _ (take 6 Sample.commands) 0
    (Sample.start, [])) as (b & Hs & _).
  { apply Inv_empty. }
  { by vm_compute. }
  fold s in Hs.
  assert (∃ c d, es_deliveries s = [c; d] ∧ d_status c = deliveryProcessed ∧
    d_status d = deliveryPending ∧ 2 ≤ current_attempts c s ∧ d_subscription d = d_subscription c ∧
    d_aggregate d = d_aggregate c ∧ d_seq c < d_seq d) as (c & d & Hcd & Hc & Hd & Hmax & Hr).
  { unfold s. vm_compute. eexists _, _. split; [reflexivity|]. by split_and!. }
  exists c, d. destruct Hr as (Hsub & Hagg & Hlt).
  assert (c ∈ es_deliveries s) as Hcin by (rewrite Hcd; left).
  assert (d ∈ es_deliveries s) as Hdin by (rewrite Hcd; right; left).
  split_and!; [exact Hcin|exact Hdin|exact Hc|].
  exact (proj2 (proj2 (late_failure_unprocesses b s (mkPolicy 2 Second Second Minute) 0 zero_Message
    ErrNoStore c d Hs Hcin Hc Hmax Hdin Hd Hsub Hagg Hlt))).
Defined.
