(* ===== verification/AnalyticsProjection.v ===== *)
(** * Analytics rollups

    The analytics read model (src/internal/adapter/outbound/memory/analytics_repository.go),
    the projection that maintains it from expense events
    (src/internal/core/service/analytics_projection.go), and the invariant that
    makes it correct: every bucket is the sum of the contributions recorded as
    applied. *)

From S2P Require Export Prelude GoTime GoStrings Domain Periods Json Outbox UnitOfWork.
#[global] Open Scope Z_scope.

(** ** The write port *)

Class AnalyticsWriter (W : Type) := {
  LoadContribution : string → M W (ExpenseContribution * bool);
  SaveContribution : ExpenseContribution → M W ();
  AddRollupDelta : RollupDelta → M W ()
}.

(** ** The projection *)

Definition AnalyticsProjectionName : string := "analytics_rollups".

Section Projection.
Context {W : Type} `{AnalyticsWriter W}.

(** The deltas [adjust] writes, in its order. *)
Definition rollup_deltas (c : ExpenseContribution) (direction : Z) : list RollupDelta :=
  flat_map (λ period,
    let start := RollupPeriodStart period (ec_OccurredAt c) in
    let delta := mkRollupDelta (ec_OwnerID c) (ec_CategoryID c) "" (ec_Currency c) period start
      (wrap64 (ec_AmountMinor c * direction)) direction in
    delta :: map (λ tagID, delta <| rd_CategoryID := "" |> <| rd_TagID := tagID |>) (ec_TagIDs c))
    RollupPeriods.

Definition adjust (c : ExpenseContribution) (direction : Z) : M W () :=
  for_each AddRollupDelta (rollup_deltas c direction).

Definition validateContribution (c : ExpenseContribution) : option error :=
  let has_no what := ErrorsNew ("expense " +:+ ec_ExpenseID c +:+ " has no " +:+ what) in
  if ec_OwnerID c =s "" then Some (has_no "owner")
  else if ec_CategoryID c =s "" then Some (has_no "category")
  else if ec_Currency c =s "" then Some (has_no "currency")
  else if IsZero (ec_OccurredAt c) then Some (has_no "occurrence time")
  else None.

Definition Handle_analytics (message : Message) : M W () :=
  match DecodeExpenseContribution (EventType message) (Payload message) with
  | inl err => throw err
  | inr (_, false) => mret ()
  | inr (next, true) =>
      '(previous, found) ← LoadContribution (ec_ExpenseID next);
      (if found && ec_Active previous
       then map_err (λ e, Errorf ("reverse contribution " +:+ ec_ExpenseID next +:+ ": ") e "")
              (adjust previous (-1))
       else mret ());;
      if negb (ec_Active next) then
        if negb found then mret ()
        else SaveContribution (previous <| ec_Active := false |>)
      else
        match validateContribution next with
        | Some err => throw err
        | None =>
            map_err (λ e, Errorf ("apply contribution " +:+ ec_ExpenseID next +:+ ": ") e "")
              (adjust next 1);;
            SaveContribution next
        end
  end.

Definition analytics_handler : Handler W :=
  mkHandler AnalyticsProjectionName ["expense"] Handle_analytics.
End Projection.

(** ** The in-memory read model *)

Record rollupKey := mkRollupKey {
  rk_ownerID : string; rk_periodStart : Z; rk_period : AnalyticsPeriod; rk_dimensionID : string;
  rk_currency : string; rk_tag : bool
}.
#[export] Instance rollupKey_eq_dec : EqDecision rollupKey.
Proof. solve_decision. Defined.
#[export] Instance rollupKey_countable : Countable rollupKey.
Proof.
refine (inj_countable'
  (λ k, (rk_ownerID k, rk_periodStart k, rk_period k, rk_dimensionID k, rk_currency k, rk_tag k))
  (λ '(a, b, c, d, e, f), mkRollupKey a b c d e f) _).
by intros [].
Defined.

Record AnalyticsState := mkAnalyticsState {
  an_rollups : gmap rollupKey ExpenseRollup;
  an_contributions : gmap string ExpenseContribution
}.
#[export] Instance eta_AnalyticsState : Eta AnalyticsState := λ r,
  mkAnalyticsState (an_rollups r) (an_contributions r).

Definition NewAnalyticsRepository : AnalyticsState := mkAnalyticsState ∅ ∅.

Definition delta_dimension (d : RollupDelta) : string * bool :=
  if rd_TagID d ≠s "" then (rd_TagID d, true) else (rd_CategoryID d, false).

Definition delta_key (d : RollupDelta) : rollupKey :=
  mkRollupKey (rd_OwnerID d) (UnixNano (rd_PeriodStart d)) (rd_Period d)
    (delta_dimension d).1 (rd_Currency d) (delta_dimension d).2.

Definition fresh_rollup (d : RollupDelta) : ExpenseRollup :=
  let '(dimensionID, isTag) := delta_dimension d in
  mkExpenseRollup (rd_OwnerID d) (rd_PeriodStart d) (rd_Period d)
    (if isTag then "" else dimensionID) (if isTag then dimensionID else "") (rd_Currency d) 0 0.

Definition add_delta (d : RollupDelta) (s : AnalyticsState) : AnalyticsState :=
  let value := default (fresh_rollup d) (an_rollups s !! delta_key d) in
  let value := value <| ru_AmountMinor ::= λ a, wrap64 (a + rd_AmountMinor d) |>
                     <| ru_ExpenseCount ::= λ n, wrap64 (n + rd_ExpenseCount d) |> in
  s <| an_rollups ::= <[delta_key d := value]> |>.

#[export] Instance memory_AnalyticsWriter : AnalyticsWriter AnalyticsState := {|
  LoadContribution id := gets (λ s,
    match an_contributions s !! id with
    | Some c => (c, true)
    | None => (zero_contribution, false)
    end);
  SaveContribution c := modify (λ s, s <| an_contributions ::= <[ec_ExpenseID c := c]> |>);
  AddRollupDelta d := modify (add_delta d)
|}.

(** [ListExpenseRollups]: the port the analytics service reads through. *)
Definition rollup_matches (filter : AnalyticsFilter) (entry : rollupKey * ExpenseRollup) : bool :=
  let '(key, value) := entry in
  let wantTags := negb (bool_decide (af_TagIDs filter = [])) in
  Bool.eqb (rk_tag key) wantTags &&
  (ru_OwnerID value =s af_OwnerID filter) && (ru_Period value =s af_Period filter) &&
  negb (Before (ru_PeriodStart value) (af_From filter)) &&
  negb (After (ru_PeriodStart value) (af_To filter)) &&
  negb (negb wantTags && (af_CategoryID filter ≠s "") &&
        (ru_CategoryID value ≠s af_CategoryID filter)) &&
  negb (wantTags && negb (str_in (ru_TagID value) (af_TagIDs filter))).

Definition memory_ListExpenseRollups `{GoRuntime} (filter : AnalyticsFilter) (s : AnalyticsState)
    : list ExpenseRollup :=
  map snd (List.filter (rollup_matches filter) (map_range (an_rollups s))).

Arguments rollup_deltas : simpl never.
Arguments add_delta : simpl never.

(** ** Sums over buckets

    The two counters of a bucket behave alike, so the lemmas take the counter
    ([get]) and what a delta adds to it ([part]). *)

Definition sumZ (l : list Z) : Z := foldr Z.add 0 l.

Lemma sumZ_app l1 l2 : sumZ (l1 ++ l2) = sumZ l1 + sumZ l2.
Proof. unfold sumZ. induction l1 as [|x l1 IH]; [done|]. cbn. lia. Qed.

Section Sums.
Context (get : ExpenseRollup → Z) (part : RollupDelta → Z).
Context (Hget : ∀ d v, get (v <| ru_AmountMinor ::= λ a, wrap64 (a + rd_AmountMinor d) |>
  <| ru_ExpenseCount ::= λ n, wrap64 (n + rd_ExpenseCount d) |>) = wrap64 (get v + part d)).
Context (Hfresh : ∀ d, get (fresh_rollup d) = 0).

(** What a bucket holds; an absent bucket holds nothing. *)
Definition held (s : AnalyticsState) (k : rollupKey) : Z := from_option get 0 (an_rollups s !! k).

(** What a list of deltas adds to a bucket. *)
Definition added (k : rollupKey) (ds : list RollupDelta) : Z :=
  sumZ (map (λ d, if decide (delta_key d = k) then part d else 0) ds).

Lemma held_add_delta d s k :
  held (add_delta d s) k =
  if decide (delta_key d = k) then wrap64 (held s k + part d) else held s k.
Proof using All.
unfold held, add_delta. cbn. destruct (decide (delta_key d = k)) as [<-|Hne].
- rewrite lookup_insert_eq. cbn. rewrite Hget. f_equal.
  destruct (an_rollups s !! delta_key d); cbn; by rewrite ?Hfresh.
- by rewrite lookup_insert_ne.
Qed.

Lemma adjust_writes ds s : for_each AddRollupDelta ds s = (foldl (λ s d, add_delta d s) s ds, inr ()).
Proof. revert s. induction ds as [|d ds IH]; intros s; [done|]. apply IH. Qed.

Lemma added_cons k d ds :
  added k (d :: ds) = (if decide (delta_key d = k) then part d else 0) + added k ds.
Proof. done. Qed.

Lemma held_foldl ds s k : held s k = wrap64 (held s k) →
  held (foldl (λ s d, add_delta d s) s ds) k = wrap64 (held s k + added k ds).
Proof using All.
revert s. induction ds as [|d ds IH]; intros s Hs; cbn [foldl].
{ unfold added. cbn. by rewrite Z.add_0_r. }
rewrite IH; rewrite held_add_delta, ?added_cons; destruct (decide _);
  autorewrite with wrap64; try done; f_equal; lia.
Qed.

Lemma contributions_foldl ds s :
  an_contributions (foldl (λ s d, add_delta d s) s ds) = an_contributions s.
Proof. revert s. induction ds as [|d ds IH]; intros s; [done|]. cbn. by rewrite IH. Qed.

(** Reversing a contribution subtracts what applying it added. *)
Definition reverses : Prop :=
  ∀ c k, wrap64 (added k (rollup_deltas c (-1)) + added k (rollup_deltas c 1)) = 0.
Context (Hrev : reverses).

(** What the recorded contributions add up to in a bucket. *)
Definition share (k : rollupKey) (c : ExpenseContribution) : Z :=
  if ec_Active c then added k (rollup_deltas c 1) else 0.
Definition total (k : rollupKey) (m : gmap string ExpenseContribution) : Z :=
  map_fold (λ _ c acc, share k c + acc) 0 m.

Lemma total_insert k id c m : m !! id = None → total k (<[id := c]> m) = share k c + total k m.
Proof. intros H. unfold total. apply (map_fold_insert_L (λ (_ : string) c acc, share k c + acc) 0 id c m); [intros; lia|done]. Qed.

Lemma total_split k id m :
  total k m = from_option (share k) 0 (m !! id) + total k (delete id m).
Proof.
destruct (m !! id) as [c|] eqn:Hc.
- rewrite <- (insert_delete_id m id c Hc) at 1. rewrite total_insert; [done|]. apply lookup_delete_eq.
- rewrite delete_id by done. cbn. lia.
Qed.

Lemma total_replace k id c m :
  total k (<[id := c]> m) = share k c + total k m - from_option (share k) 0 (m !! id).
Proof.
rewrite <- insert_delete_eq, total_insert by apply lookup_delete_eq.
rewrite (total_split k id m). lia.
Qed.

(** Every bucket holds the sum, modulo 2^64, of the recorded contributions. *)
Definition balanced (s : AnalyticsState) : Prop :=
  ∀ k, held s k = wrap64 (total k (an_contributions s)).

Lemma balanced_wrap s k : balanced s → held s k = wrap64 (held s k).
Proof. intros H. by rewrite H, wrap64_wrap64. Qed.

(** The reversal step of the handler: after it the buckets no longer count the
    expense. *)
Definition reversed (c : option ExpenseContribution) (s : AnalyticsState) : AnalyticsState :=
  match c with
  | Some c => if ec_Active c then foldl (λ s d, add_delta d s) s (rollup_deltas c (-1)) else s
  | None => s
  end.

Lemma held_reversed s id k : balanced s →
  held (reversed (an_contributions s !! id) s) k =
    wrap64 (total k (an_contributions s) - from_option (share k) 0 (an_contributions s !! id)).
Proof using All.
intros H. unfold reversed. destruct (an_contributions s !! id) as [c|]; cbn [from_option].
2: { by rewrite H, Z.sub_0_r. }
unfold share. destruct (ec_Active c); [|by rewrite H, Z.sub_0_r].
rewrite (held_foldl _ s k (balanced_wrap s k H)). rewrite H. autorewrite with wrap64.
apply wrap64_cancel, Hrev.
Qed.

Lemma contributions_reversed c s : an_contributions (reversed c s) = an_contributions s.
Proof. destruct c as [c|]; cbn; [|done]. destruct (ec_Active c); [apply contributions_foldl|done]. Qed.
End Sums.

(** ** The handler on the in-memory read model *)

(** What a decoded contribution does to the read model. *)
Definition apply_contribution (next : ExpenseContribution) (s : AnalyticsState)
    : AnalyticsState * (error + ()) :=
  let id := ec_ExpenseID next in
  let previous := an_contributions s !! id in
  let s1 := reversed previous s in
  if negb (ec_Active next) then
    match previous with
    | None => (s1, inr ())
    | Some p => (s1 <| an_contributions ::= <[ec_ExpenseID p := p <| ec_Active := false |>]> |>, inr ())
    end
  else match validateContribution next with
       | Some err => (s1, inl err)
       | None => ((foldl (λ s d, add_delta d s) s1 (rollup_deltas next 1))
                    <| an_contributions ::= <[id := next]> |>, inr ())
       end.

Lemma Handle_analytics_spec m s next :
  DecodeExpenseContribution (EventType m) (Payload m) = inr (next, true) →
  Handle_analytics m s = apply_contribution next s.
Proof.
intros Hd. unfold Handle_analytics. rewrite Hd. unfold apply_contribution, reversed, adjust.
unfold mbind, M_bind. cbn -[rollup_deltas add_delta validateContribution].
destruct (an_contributions s !! ec_ExpenseID next) as [p|];
  cbn -[rollup_deltas add_delta validateContribution].
- destruct (ec_Active p); cbn -[rollup_deltas add_delta validateContribution];
    unfold map_err; rewrite ?adjust_writes; destruct (ec_Active next);
    cbn -[rollup_deltas add_delta validateContribution]; try done;
    destruct (validateContribution next); try done; by rewrite adjust_writes.
- destruct (ec_Active next); cbn -[rollup_deltas add_delta validateContribution]; [|done].
  destruct (validateContribution next); [done|]. unfold map_err. by rewrite adjust_writes.
Qed.

(** Contributions are stored under their own id. *)
Definition keyed (s : AnalyticsState) : Prop :=
  ∀ id c, an_contributions s !! id = Some c → ec_ExpenseID c = id.

(** The two counters. *)
Definition amount_held := held ru_AmountMinor.
Definition count_held := held ru_ExpenseCount.

(** Two deltas of the same bucket that cancel. *)
Definition cancels (part : RollupDelta → Z) (d d' : RollupDelta) : Prop :=
  delta_key d = delta_key d' ∧ wrap64 (part d + part d') = 0.

Lemma added_cancel part k l l' :
  Forall2 (cancels part) l l' → wrap64 (added part k l + added part k l') = 0.
Proof.
induction 1 as [|d d' l l' [Hk Hp] Hl IH]; [done|]. rewrite !added_cons, Hk.
destruct (decide _); [|done].
replace (_ + _ + (_ + _)) with ((part d + part d') + (added part k l + added part k l')) by lia.
by rewrite <- wrap64_add_l, Hp, Z.add_0_l.
Qed.

Lemma rollup_deltas_cancel part c :
  (∀ o cat tag cur p st, wrap64 (
     part (mkRollupDelta o cat tag cur p st (wrap64 (ec_AmountMinor c * -1)) (-1)) +
     part (mkRollupDelta o cat tag cur p st (wrap64 (ec_AmountMinor c * 1)) 1)) = 0) →
  Forall2 (cancels part) (rollup_deltas c (-1)) (rollup_deltas c 1).
Proof.
intros Hp. unfold rollup_deltas.
induction RollupPeriods as [|period l IH]; [constructor|]. cbn [flat_map].
apply Forall2_app; [clear IH|exact IH]. generalize (RollupPeriodStart period (ec_OccurredAt c)).
intros start. constructor; [split; [reflexivity|apply Hp]|].
induction (ec_TagIDs c) as [|tag tags IHt]; [constructor|].
constructor; [split; [reflexivity|apply Hp]|exact IHt].
Qed.

Lemma reverses_amount : reverses rd_AmountMinor.
Proof.
intros c k. apply added_cancel, rollup_deltas_cancel. intros. cbn.
rewrite wrap64_add_l, wrap64_add_r. by replace (_ + _) with 0 by lia.
Qed.

Lemma reverses_count : reverses rd_ExpenseCount.
Proof. intros c k. apply added_cancel, rollup_deltas_cancel. done. Qed.

Lemma get_amount d v : ru_AmountMinor (v <| ru_AmountMinor ::= λ a, wrap64 (a + rd_AmountMinor d) |>
  <| ru_ExpenseCount ::= λ n, wrap64 (n + rd_ExpenseCount d) |>) =
  wrap64 (ru_AmountMinor v + rd_AmountMinor d).
Proof. done. Qed.
Lemma get_count d v : ru_ExpenseCount (v <| ru_AmountMinor ::= λ a, wrap64 (a + rd_AmountMinor d) |>
  <| ru_ExpenseCount ::= λ n, wrap64 (n + rd_ExpenseCount d) |>) =
  wrap64 (ru_ExpenseCount v + rd_ExpenseCount d).
Proof. done. Qed.
Lemma fresh_amount d : ru_AmountMinor (fresh_rollup d) = 0.
Proof. unfold fresh_rollup. by destruct (delta_dimension d). Qed.
Lemma fresh_count d : ru_ExpenseCount (fresh_rollup d) = 0.
Proof. unfold fresh_rollup. by destruct (delta_dimension d). Qed.

(** The handler keeps a counter balanced. *)
Lemma apply_balanced get part next s :
  (∀ d v, get (v <| ru_AmountMinor ::= λ a, wrap64 (a + rd_AmountMinor d) |>
     <| ru_ExpenseCount ::= λ n, wrap64 (n + rd_ExpenseCount d) |>) = wrap64 (get v + part d)) →
  (∀ d, get (fresh_rollup d) = 0) → reverses part →
  keyed s → balanced get part s →
  (apply_contribution next s).2 = inr () → balanced get part (apply_contribution next s).1.
Proof.
intros Hget Hfresh Hrev Hk Hb. unfold apply_contribution. set (id := ec_ExpenseID next).
pose proof (λ k, held_reversed get part Hget Hfresh Hrev s id k Hb) as Hr.
destruct (ec_Active next) eqn:Ha; cbn [negb].
- destruct (validateContribution next); [done|]. intros _ k.
  cbn -[reversed rollup_deltas foldl]. rewrite contributions_foldl, contributions_reversed.
  change (held get (foldl (λ s d, add_delta d s) (reversed (an_contributions s !! id) s)
    (rollup_deltas next 1)) k = wrap64 (total part k (<[id:=next]> (an_contributions s)))).
  rewrite (held_foldl get part Hget Hfresh); rewrite Hr; [|by rewrite wrap64_wrap64].
  rewrite total_replace, wrap64_add_l. unfold share at 2. rewrite Ha. f_equal. lia.
- destruct (an_contributions s !! id) as [p|] eqn:Hp; cbn [fst snd]; intros _ k.
  2: { cbn. rewrite Hb. done. }
  change (held get (reversed (Some p) s) k = wrap64 (total part k
    (<[ec_ExpenseID p := p <| ec_Active := false |>]> (an_contributions (reversed (Some p) s))))).
  rewrite Hr, contributions_reversed, (Hk id p Hp), total_replace, Hp. cbn [from_option].
  unfold share at 2. cbn [ec_Active]. by f_equal.
Qed.

(** ** The specification: a ledger of contributions

    Abstractly the projection keeps one contribution per expense; a bucket is
    the sum of the active ones.  A message the handler rejects changes
    nothing. *)

Abbreviation ledger := (gmap string ExpenseContribution).

Definition ledger_step (l : ledger) (m : Message) : ledger :=
  match DecodeExpenseContribution (EventType m) (Payload m) with
  | inr (next, true) =>
      if ec_Active next then
        match validateContribution next with
        | None => <[ec_ExpenseID next := next]> l
        | Some _ => l
        end
      else alter (λ p, p <| ec_Active := false |>) (ec_ExpenseID next) l
  | _ => l
  end.

(** One delivery inside the store's unit of work. *)
Definition deliver (s : AnalyticsState) (m : Message) : AnalyticsState :=
  (memory_Within [copy_snapshot id_lens] background (λ _, Handle_analytics m) s).1.

Record Projected (s : AnalyticsState) : Prop := {
  projected_keyed : keyed s;
  projected_amounts : balanced ru_AmountMinor rd_AmountMinor s;
  projected_counts : balanced ru_ExpenseCount rd_ExpenseCount s
}.

Lemma Projected_empty : Projected NewAnalyticsRepository.
Proof. split; [by intros id c|by intros k|by intros k]. Qed.

Lemma deliver_cases s m :
  deliver s m = match DecodeExpenseContribution (EventType m) (Payload m) with
                | inr (next, true) =>
                    match apply_contribution next s with
                    | (s', inr _) => s'
                    | (_, inl _) => s
                    end
                | _ => s
                end.
Proof.
unfold deliver, memory_Within, background.
destruct (DecodeExpenseContribution _ _) as [e|[next [|]]] eqn:Hd.
- unfold Handle_analytics. by rewrite Hd.
- rewrite (Handle_analytics_spec m s next Hd). by destruct (apply_contribution next s) as [? []].
- unfold Handle_analytics. by rewrite Hd.
Qed.

Lemma apply_contributions next s : keyed s →
  let '(s', r) := apply_contribution next s in
  match r with
  | inr _ => an_contributions s' =
      if ec_Active next then <[ec_ExpenseID next := next]> (an_contributions s)
      else alter (λ p, p <| ec_Active := false |>) (ec_ExpenseID next) (an_contributions s)
  | inl _ => ec_Active next = true
  end ∧ (ec_Active next = true → is_Some (validateContribution next) ↔ ∃ e, r = inl e).
Proof.
intros Hk. unfold apply_contribution. destruct (ec_Active next) eqn:Ha; cbn [negb].
- destruct (validateContribution next); cbn; [naive_solver|].
  rewrite contributions_foldl, contributions_reversed. split; [done|]. split; [by intros []|].
  by intros [].
- destruct (an_contributions s !! ec_ExpenseID next) as [p|] eqn:Hp.
  + cbn -[reversed]. rewrite contributions_reversed, (Hk _ p Hp). split; [|done].
    apply map_eq. intros i. destruct (decide (i = ec_ExpenseID next)) as [->|Hne].
    * by rewrite lookup_insert_eq, lookup_alter_eq, Hp.
    * by rewrite lookup_insert_ne, lookup_alter_ne.
  + cbn. split; [|done]. symmetry. apply map_eq. intros i.
    destruct (decide (i = ec_ExpenseID next)) as [->|Hne].
    * by rewrite lookup_alter_eq, Hp.
    * by rewrite lookup_alter_ne.
Qed.

(** The projection refines the ledger. *)
Lemma deliver_ledger s m : keyed s →
  an_contributions (deliver s m) = ledger_step (an_contributions s) m.
Proof.
intros Hk. rewrite deliver_cases. unfold ledger_step.
destruct (DecodeExpenseContribution _ _) as [e|[next [|]]]; [done| |done].
pose proof (apply_contributions next s Hk) as Ha.
destruct (apply_contribution next s) as [s' [e|[]]]; destruct Ha as [H1 H2].
- rewrite H1. destruct (proj2 (H2 H1)) as [? ->]; [by exists e|done].
- rewrite H1. destruct (ec_Active next); [|done].
  destruct (validateContribution next); [|done]. destruct H2 as [H2 _]; [done|].
  by destruct (H2 ltac:(by eexists)).
Qed.

Lemma ledger_step_keyed l m :
  (∀ id c, l !! id = Some c → ec_ExpenseID c = id) →
  ∀ id c, ledger_step l m !! id = Some c → ec_ExpenseID c = id.
Proof.
intros Hk id c. unfold ledger_step.
destruct (DecodeExpenseContribution _ _) as [e|[next [|]]]; [apply Hk| |apply Hk].
destruct (ec_Active next); [destruct (validateContribution next); [apply Hk|]|].
- rewrite lookup_insert_Some. intros [[<- <-]|[_ H]]; [done|by apply Hk].
- rewrite lookup_alter_Some. intros [[<- (p & Hp & ->)]|[_ H]]; [exact (Hk _ _ Hp)|by apply Hk].
Qed.

Lemma deliver_Projected s m : Projected s → Projected (deliver s m).
Proof.
intros [Hk Ha Hc]. split.
- intros id c. rewrite deliver_ledger by done. by apply ledger_step_keyed.
- rewrite deliver_cases. destruct (DecodeExpenseContribution _ _) as [e|[next [|]]]; [done| |done].
  pose proof (apply_balanced _ _ next s get_amount fresh_amount reverses_amount Hk Ha) as Hb.
  destruct (apply_contribution next s) as [s' [e|[]]]; [done|by apply Hb].
- rewrite deliver_cases. destruct (DecodeExpenseContribution _ _) as [e|[next [|]]]; [done| |done].
  pose proof (apply_balanced _ _ next s get_count fresh_count reverses_count Hk Hc) as Hb.
  destruct (apply_contribution next s) as [s' [e|[]]]; [done|by apply Hb].
Qed.

Lemma deliver_all ms s : Projected s →
  Projected (foldl deliver s ms) ∧
  an_contributions (foldl deliver s ms) = foldl ledger_step (an_contributions s) ms.
Proof.
revert s. induction ms as [|m ms IH]; intros s Hs; [done|]. cbn [foldl].
destruct (IH (deliver s m)) as [H1 H2]; [by apply deliver_Projected|].
split; [done|]. rewrite H2, deliver_ledger; [done|]. apply (projected_keyed s Hs).
Qed.

(** After any sequence of deliveries (added, updated and removed expenses
    in any order, redeliveries, rejected and undecodable messages), every
    analytics bucket holds exactly the amount and the count that the ledger of
    those messages puts there: the sum over the expenses whose latest accepted
    event left them active, modulo 2^64. *)
Theorem rollups_match_ledger (ms : list Message) (k : rollupKey) :
  let s := foldl deliver NewAnalyticsRepository ms in
  let l := foldl ledger_step ∅ ms in
  held ru_AmountMinor s k = wrap64 (total rd_AmountMinor k l) ∧
  held ru_ExpenseCount s k = wrap64 (total rd_ExpenseCount k l).
Proof.
cbn zeta. destruct (deliver_all ms NewAnalyticsRepository Projected_empty) as [[_ Ha Hc] Hl].
change ∅ with (an_contributions NewAnalyticsRepository) at 1 2. rewrite <- Hl. split; [apply Ha|apply Hc].
Qed.

Lemma ledger_step_idemp l m : ledger_step (ledger_step l m) m = ledger_step l m.
Proof.
unfold ledger_step. destruct (DecodeExpenseContribution _ _) as [e|[next [|]]]; [done| |done].
destruct (ec_Active next); [destruct (validateContribution next); [done|apply insert_insert_eq]|].
apply map_eq. intros i. destruct (decide (i = ec_ExpenseID next)) as [->|Hne].
- rewrite !lookup_alter_eq. by destruct (l !! _) as [[]|].
- by rewrite !lookup_alter_ne.
Qed.

(** Redelivering a message changes no bucket: the handler is idempotent on
    the read model, so the outbox's at-least-once delivery counts every expense
    once. *)
Theorem redelivery_changes_nothing (ms : list Message) (m : Message) (k : rollupKey) :
  let s := deliver (foldl deliver NewAnalyticsRepository ms) m in
  an_contributions (deliver s m) = an_contributions s ∧
  held ru_AmountMinor (deliver s m) k = held ru_AmountMinor s k ∧
  held ru_ExpenseCount (deliver s m) k = held ru_ExpenseCount s k.
Proof.
intros s.
assert (Projected s) as Hs.
{ apply deliver_Projected, deliver_all, Projected_empty. }
assert (an_contributions (deliver s m) = an_contributions s) as Heq.
{ rewrite deliver_ledger by apply Hs. unfold s at 1 2. rewrite deliver_ledger; [apply ledger_step_idemp|].
  apply deliver_all, Projected_empty. }
destruct (deliver_Projected s m Hs) as [_ Ha Hc]. destruct Hs as [_ Ha' Hc'].
split; [done|]. by rewrite Ha, Ha', Hc, Hc', Heq.
Qed.

(** ** Example: add, edit and remove *)

Definition expense_message (seq : Z) (p : EventPayload) : Message :=
  zero_Message <| GlobalSeq := seq |> <| EventType := event_type_of p |>
    <| Payload := enc_payload p |>.

Definition sample_messages : list Message :=
  [expense_message 1 (ExpenseAdded sample_expense);
   expense_message 2 (ExpenseUpdated (sample_expense <| ex_AmountMinor := 900 |>));
   expense_message 2 (ExpenseUpdated (sample_expense <| ex_AmountMinor := 900 |>))].

Definition sample_bucket : rollupKey :=
  mkRollupKey "u1" (UnixNano unix_epoch) AnalyticsDay "food" "EUR" false.

(** The edit replaced the amount, once, in spite of the redelivery. *)
Example sample_rollup :
  held ru_AmountMinor (foldl deliver NewAnalyticsRepository sample_messages) sample_bucket = 900 ∧
  held ru_ExpenseCount (foldl deliver NewAnalyticsRepository sample_messages) sample_bucket = 1.
Proof. by vm_compute. Qed.
