(* ===== verification/Ports.v ===== *)
(** * The outbound ports (src/internal/core/port/outbound)

    One class per Go interface, over an arbitrary program state [W]: what the
    services rely on.  A method that returns an error is an operation of the
    state and error monad; [Env] holds the clock and the identifier source the
    services are constructed with.  The service errors the services compare
    and return are here too. *)

From S2P Require Export Prelude GoTime GoStrings Domain UnitOfWork.
#[global] Open Scope Z_scope.

(** [time.Now] and [uuid.NewString]. *)
Class Env (W : Type) := { Now : M W Time; NewString : M W string }.

(** The service sentinels (auth.go, expenses.go, ...). *)
Definition ErrNotFound : error := Sentinel "ErrNotFound" "not found".
Definition ErrForbidden : error := Sentinel "ErrForbidden" "forbidden".
Definition ErrReportExists : error := Sentinel "ErrReportExists" "report already exists".
Definition ErrPostingExists : error :=
  Sentinel "ErrPostingExists" "scheduled payment posting already exists".
Definition ErrObjectNotFound : error := Sentinel "ErrObjectNotFound" "object not found".
Definition ErrPresignUnsupported : error :=
  Sentinel "ErrPresignUnsupported" "object store cannot presign URLs".

(** The memory adapters' own sentinel. *)
Definition errNotFound : error := Sentinel "memory.errNotFound" "not found".

(** A slice expression out of range. *)
Definition panic_range : error := Sentinel "panic" "slice bounds out of range".

Class ExpenseRepository (W : Type) := {
  CreateExpense : ExpenseRecord → M W ();
  UpdateExpense : ExpenseRecord → M W ();
  GetExpense : string → string → M W ExpenseRecord;
  GetExpenseVisible : string → string → list string → M W ExpenseRecord;
  ListExpenses : ExpenseListFilter → M W (list ExpenseRecord);
  DeleteExpense : string → string → M W ()
}.

Class EventLog (W : Type) := { Append : DomainEvent → M W () }.

Class BudgetRepository (W : Type) := {
  CreateBudget : BudgetRecord → M W ();
  ListBudgets : string → list string → M W (list BudgetRecord);
  GetBudget : string → string → list string → M W BudgetRecord;
  UpdateBudget : BudgetRecord → M W ();
  DeleteBudget : string → string → M W ()
}.

Class BudgetUsageRepository (W : Type) := {
  usage_LoadContribution : string → M W (ExpenseContribution * bool);
  usage_SaveContribution : ExpenseContribution → M W ();
  ListBudgetsForCategory : string → string → M W (list BudgetRecord);
  usage_GetBudget : string → M W (BudgetRecord * bool);
  SumContributions : string → string → Time → Time → M W Z;
  LoadUsage : string → Time → M W (BudgetUsage * bool);
  SaveUsage : BudgetUsage → M W ();
  DeleteUsage : string → M W ()
}.

Class AnalyticsReader (W : Type) := {
  ListExpenseRollups : AnalyticsFilter → M W (list ExpenseRollup)
}.

Class AuditRepository (W : Type) := {
  AppendEntry : AuditEntry → M W ();
  ListEntries : AuditFilter → M W (list AuditEntry)
}.

Class GroupRepository (W : Type) := {
  CreateGroup : UserGroup → M W ();
  ListVisibleGroups : string → bool → M W (list UserGroup);
  GetGroup : string → M W UserGroup;
  UpdateGroup : string → string → M W ();
  DeleteGroup : string → M W ();
  AddMember : string → string → M W ();
  RemoveMember : string → string → M W ()
}.

Class TaxonomyRepository (W : Type) := {
  ListCategories : string → M W (list ExpenseCategory);
  CreateCategory : string → ExpenseCategory → M W ();
  UpdateCategory : string → ExpenseCategory → M W ();
  DeleteCategory : string → string → M W ();
  ListTags : string → M W (list ExpenseTag);
  CreateTag : string → ExpenseTag → M W ();
  UpdateTag : string → ExpenseTag → M W ();
  DeleteTag : string → string → M W ()
}.

Class ObjectReferenceRepository (W : Type) := {
  TrackObject : ObjectReference → M W ();
  OrphanObjectsFor : string → string → string → M W ();
  ClaimOrphans : Z → M W (list ObjectReference);
  ForgetObject : string → M W ()
}.

Class NotificationRepository (W : Type) := {
  QueueNotification : NotificationDelivery → M W ();
  ClaimNotifications : string → Duration → Z → M W (list NotificationDelivery);
  MarkNotificationSent : string → M W ();
  MarkNotificationRetry : string → Time → string → M W ();
  MarkNotificationDeadLettered : string → string → M W ();
  CountByStatus : M W (gmap NotificationStatus Z)
}.

Class ScheduledPaymentRepository (W : Type) := {
  CreateScheduledPayment : ScheduledPayment → M W ();
  ListScheduledPayments : string → list string → M W (list ScheduledPayment);
  GetScheduledPayment : string → string → list string → M W ScheduledPayment;
  UpdateScheduledPayment : ScheduledPayment → M W ();
  DeleteScheduledPayment : string → string → M W ();
  ListDueScheduledPayments : Time → Z → M W (list ScheduledPayment);
  ClaimPosting : ScheduledPaymentPosting → M W ();
  AdvanceSchedule : string → Time → Time → bool → M W ()
}.

Class IdentityRepository (W : Type) := {
  CountSuperAdmins : M W Z;
  GetUserByID : string → M W AppUser;
  GetUserByEmail : string → M W AppUser;
  ListUsers : M W (list AppUser);
  CreateUser : AppUser → M W ();
  UpdateUser : AppUser → M W ();
  DeleteUser : string → M W ();
  GetInvitationByTokenHash : string → M W Invitation;
  CreateInvitation : Invitation → M W ();
  AcceptInvitation : string → AppUser → M W ();
  GetRefreshTokenByHash : string → M W RefreshToken;
  CreateRefreshToken : RefreshToken → M W ();
  RotateRefreshToken : string → RefreshToken → M W ();
  RevokeRefreshToken : string → M W ();
  RevokeAllRefreshTokens : string → M W ();
  GetPasswordResetByTokenHash : string → M W PasswordReset;
  CreatePasswordReset : PasswordReset → M W ();
  MarkPasswordResetUsed : string → M W ();
  InvalidatePendingPasswordResets : string → M W ()
}.

Class ReportRepository (W : Type) := {
  CreateReport : Report → M W ();
  ListReports : string → M W (list Report);
  GetReport : string → string → M W Report
}.

Class OutboxAdminRepository (W : Type) := {
  ListDeadLetters : string → Z → M W (list DeadLetter);
  RequeueDeadLetter : string → M W bool
}.

Class AIRequestRepository (W : Type) := {
  RecordRequest : AIRequestRecord → M W ();
  Summarize : Time → M W AIUsageSummary
}.

(** Objects: the body is the byte string. *)
Record ObjectInfo := mkObjectInfo {
  oi_Key : string; oi_Size : Z; oi_ContentType : string; oi_LastModified : Time
}.

Class ObjectStore (W : Type) := {
  Put : string → string → string → M W ();
  Get : string → M W (ObjectInfo * string);
  Stat : string → M W ObjectInfo;
  Delete : string → M W ();
  PresignedGetURL : string → Duration → M W string;
  Ping : M W ()
}.
