(* ===== verification/Memory.v ===== *)
(** * The in-memory repositories (src/internal/adapter/outbound/memory)

    Each repository's state as a record of finite maps, each method as an
    operation on that state in the state and error monad.  [range] over a map
    visits it in the runtime's order. *)

From S2P Require Export Prelude GoTime GoStrings Domain UnitOfWork Ports.
#[global] Open Scope Z_scope.

(** [values[start:end]]. *)
Definition slice_between {W A} (start end_ : Z) (l : list A) : M W (list A) :=
  if (0 <=? start) && (start <=? end_) && (end_ <=? Z.of_nat (length l))
  then mret (take (Z.to_nat (end_ - start)) (drop (Z.to_nat start) l))
  else throw panic_range.

Section Runtime.
Context `{GoRuntime}.

(** The values of a map that pass a test, in iteration order. *)
Definition range_values {K V} `{Countable K} (test : V → bool) (m : gmap K V) : list V :=
  List.filter test (map snd (map_range m)).

Lemma range_values_elem {K V} `{Countable K} (test : V → bool) (m : gmap K V) v :
  v ∈ range_values test m ↔ test v = true ∧ ∃ k, m !! k = Some v.
Proof.
unfold range_values. rewrite list_elem_of_In, filter_In, <- list_elem_of_In.
rewrite map_range_perm. change (map snd) with (fmap (M:=list) (A:=K * V) snd).
rewrite list_elem_of_fmap. split.
- intros [([k v'] & -> & Hin%elem_of_map_to_list) Ht]. split; [done|]. by exists k.
- intros [Ht [k Hk]]. split; [|done]. exists (k, v). by rewrite elem_of_map_to_list.
Qed.

Lemma filter_perm {V} (test : V → bool) (l l' : list V) : l ≡ₚ l' → List.filter test l ≡ₚ List.filter test l'.
Proof using Type. induction 1; cbn; repeat case_match; try done; try (by constructor); by etrans. Qed.

Lemma range_values_perm {K V} `{Countable K} (test : V → bool) (m : gmap K V) :
  range_values test m ≡ₚ List.filter test (map snd (map_to_list m)).
Proof using Type. apply filter_perm, Permutation_map, map_range_perm. Qed.

Lemma range_values_length {K V} `{Countable K} (test : V → bool) (m : gmap K V) :
  (length (range_values test m) ≤ size m)%nat.
Proof using Type.
rewrite range_values_perm. assert (∀ l : list V, (length (List.filter test l) ≤ length l)%nat) as Hf.
{ intros l. induction l as [|x l IH]; cbn; [lia|]. destruct (test x); cbn; lia. }
etrans; [apply Hf|]. by rewrite length_map, length_map_to_list.
Qed.

(** ** Expenses (expense_repository.go) *)

Definition ExpenseStore : Type := gmap string ExpenseRecord.

Definition matchesExpense (expense : ExpenseRecord) (filter : ExpenseListFilter) : bool :=
  let query := ToLower (TrimSpace (lf_Query filter)) in
  negb ((query ≠s "") && negb (Contains (ToLower (ex_Title expense)) query) &&
        negb (Contains (ToLower (ex_CategoryName expense)) query)) &&
  negb ((lf_CategoryID filter ≠s "") && (ex_CategoryID expense ≠s lf_CategoryID filter)) &&
  negb (negb (IsZero (lf_From filter)) && Before (ex_OccurredAt expense) (lf_From filter)) &&
  negb (negb (IsZero (lf_To filter)) && negb (Before (ex_OccurredAt expense) (lf_To filter))) &&
  forallb (λ wanted, str_in wanted (ex_TagIDs expense)) (lf_TagIDs filter).

Definition live {A} (deletedAt : option A) : bool :=
  match deletedAt with None => true | Some _ => false end.

Definition expense_listed (filter : ExpenseListFilter) (expense : ExpenseRecord) : bool :=
  let owned := ex_OwnerID expense =s lf_OwnerID filter in
  let shared := (ex_SharedGroupID expense ≠s "") &&
    str_in (ex_SharedGroupID expense) (lf_SharedGroupIDs filter) in
  (owned || shared) && live (ex_DeletedAt expense) && matchesExpense expense filter.

Definition expense_get (ownerID expenseID : string) (s : ExpenseStore) : option ExpenseRecord :=
  match s !! expenseID with
  | Some e => if negb (ex_OwnerID e =s ownerID) || negb (live (ex_DeletedAt e)) then None else Some e
  | None => None
  end.

Definition memory_CreateExpense (expense : ExpenseRecord) : M ExpenseStore () := λ s,
  match s !! ex_ID expense with
  | Some _ => (s, inl errNotFound)
  | None => (<[ex_ID expense := expense]> s, inr ())
  end.

Definition memory_UpdateExpense (expense : ExpenseRecord) : M ExpenseStore () := λ s,
  match s !! ex_ID expense with
  | None => (s, inl errNotFound)
  | Some _ => (<[ex_ID expense := expense]> s, inr ())
  end.

Definition memory_GetExpense (ownerID expenseID : string) : M ExpenseStore ExpenseRecord := λ s,
  match expense_get ownerID expenseID s with
  | Some e => (s, inr e)
  | None => (s, inl errNotFound)
  end.

Definition memory_GetExpenseVisible (viewerID expenseID : string) (sharedGroupIDs : list string)
    : M ExpenseStore ExpenseRecord := λ s,
  match s !! expenseID with
  | Some e =>
      if negb (live (ex_DeletedAt e)) ||
         (negb (ex_OwnerID e =s viewerID) && negb (str_in (ex_SharedGroupID e) sharedGroupIDs))
      then (s, inl errNotFound) else (s, inr e)
  | None => (s, inl errNotFound)
  end.

Definition memory_ListExpenses (filter : ExpenseListFilter) : M ExpenseStore (list ExpenseRecord) :=
  values ← gets (range_values (expense_listed filter));
  let less x y :=
    if lf_SortBy filter =s ExpenseSortAmount then ex_AmountMinor y <? ex_AmountMinor x
    else After (ex_OccurredAt x) (ex_OccurredAt y) in
  let expenses := sort_slice less values in
  let n := Z.of_nat (length expenses) in
  let start := Z.min (lf_Offset filter) n in
  slice_between start (Z.min (wrap64 (start + lf_Limit filter)) n) expenses.

Definition memory_DeleteExpense (ownerID expenseID : string) : M ExpenseStore () := λ s,
  match expense_get ownerID expenseID s with
  | Some e => (<[expenseID := e <| ex_DeletedAt := Some (ex_UpdatedAt e) |>]> s, inr ())
  | None => (s, inl errNotFound)
  end.

Definition memory_ExpenseRepository {W} (l : Lens W ExpenseStore) : Ports.ExpenseRepository W := {|
  CreateExpense a0 := zoom l (memory_CreateExpense a0);
  UpdateExpense a0 := zoom l (memory_UpdateExpense a0);
  GetExpense a0 a1 := zoom l (memory_GetExpense a0 a1);
  GetExpenseVisible a0 a1 a2 := zoom l (memory_GetExpenseVisible a0 a1 a2);
  ListExpenses a0 := zoom l (memory_ListExpenses a0);
  DeleteExpense a0 a1 := zoom l (memory_DeleteExpense a0 a1)
|}.

(** ** Groups (group_repository.go) *)

Definition GroupStore : Type := gmap string UserGroup.

Definition with_group (groupID : string) (f : UserGroup → GroupStore → GroupStore)
    : M GroupStore () := λ s,
  match s !! groupID with
  | None => (s, inl errNotFound)
  | Some g => (f g s, inr ())
  end.

Definition group_visible (viewer : string) (super : bool) (g : UserGroup) : bool :=
  super || (ug_CreatedBy g =s viewer) || str_in viewer (ug_MemberIDs g).

Definition memory_GroupRepository {W} (l : Lens W GroupStore) : GroupRepository W := {|
  CreateGroup g := zoom l (modify <[ug_ID g := g]>);
  ListVisibleGroups viewer super := zoom l (gets (range_values (group_visible viewer super)));
  GetGroup id := zoom l (λ s, match s !! id with Some g => (s, inr g) | None => (s, inl errNotFound) end);
  UpdateGroup id name := zoom l (with_group id (λ g, <[id := g <| ug_Name := name |>]>));
  DeleteGroup id := zoom l (with_group id (λ _, delete id));
  AddMember id user := zoom l (with_group id (λ g s,
    if str_in user (ug_MemberIDs g) then s
    else <[id := g <| ug_MemberIDs ::= λ ms, ms ++ [user] |>]> s));
  RemoveMember id user := zoom l (with_group id (λ g,
    <[id := g <| ug_MemberIDs ::= List.filter (λ m, negb (m =s user)) |>]>))
|}.

(** ** Categories and tags (taxonomy_repository.go) *)

Record TaxonomyStore := mkTaxonomyStore {
  ts_categories : gmap string (list ExpenseCategory); ts_tags : gmap string (list ExpenseTag)
}.
#[export] Instance eta_TaxonomyStore : Eta TaxonomyStore := λ r,
  mkTaxonomyStore (ts_categories r) (ts_tags r).

(** The loops that rewrite or remove the first element with an id. *)
Fixpoint update_first {A} (id_of : A → string) (id : string) (f : A → A) (l : list A)
    : option (list A) :=
  match l with
  | [] => None
  | x :: l => if id_of x =s id then Some (f x :: l) else (x ::.) <$> update_first id_of id f l
  end.
Fixpoint delete_first {A} (id_of : A → string) (id : string) (l : list A) : option (list A) :=
  match l with
  | [] => None
  | x :: l => if id_of x =s id then Some l else (x ::.) <$> delete_first id_of id l
  end.

Definition owned {A} (owner : string) (m : gmap string (list A)) : list A := default [] (m !! owner).

Definition update_categories (owner : string)
    (f : list ExpenseCategory → option (list ExpenseCategory)) : M TaxonomyStore () := λ s,
  match f (owned owner (ts_categories s)) with
  | Some l => (s <| ts_categories ::= <[owner := l]> |>, inr ())
  | None => (s, inl errNotFound)
  end.
Definition update_tags (owner : string) (f : list ExpenseTag → option (list ExpenseTag))
    : M TaxonomyStore () := λ s,
  match f (owned owner (ts_tags s)) with
  | Some l => (s <| ts_tags ::= <[owner := l]> |>, inr ())
  | None => (s, inl errNotFound)
  end.

Definition memory_TaxonomyRepository {W} (l : Lens W TaxonomyStore) : TaxonomyRepository W := {|
  ListCategories owner := zoom l (gets (λ s, DefaultCategories ++ owned owner (ts_categories s)));
  CreateCategory owner c := zoom l (update_categories owner (λ l, Some (l ++ [c])));
  UpdateCategory owner c := zoom l (update_categories owner (update_first cat_ID (cat_ID c)
    (λ old, old <| cat_Name := cat_Name c |> <| cat_Color := cat_Color c |>)));
  DeleteCategory owner id := zoom l (update_categories owner (delete_first cat_ID id));
  ListTags owner := zoom l (gets (λ s, owned owner (ts_tags s)));
  CreateTag owner t := zoom l (update_tags owner (λ l, Some (l ++ [t])));
  UpdateTag owner t := zoom l (update_tags owner (update_first tag_ID (tag_ID t)
    (λ old, old <| tag_Name := tag_Name t |> <| tag_Color := tag_Color t |>)));
  DeleteTag owner id := zoom l (update_tags owner (delete_first tag_ID id))
|}.

(** ** Object references (object_reference_repository.go) *)

Definition ReferenceStore : Type := gmap string ObjectReference.

Definition orphan_for (resourceType resourceID keep : string) (key : string)
    (r : ObjectReference) : ObjectReference :=
  if (or_ResourceType r =s resourceType) && (or_ResourceID r =s resourceID) &&
     (or_State r =s ObjectReferenceActive) && negb (key =s keep)
  then r <| or_State := ObjectReferenceOrphaned |> else r.

Definition memory_ClaimOrphans (limit : Z) (s : ReferenceStore) : list ObjectReference :=
  let orphans := sort_slice (λ x y, Before (or_UpdatedAt x) (or_UpdatedAt y))
    (range_values (λ r, or_State r =s ObjectReferenceOrphaned) s) in
  if (0 <? limit) && (limit <? Z.of_nat (length orphans))
  then take (Z.to_nat limit) orphans else orphans.

Definition memory_ObjectReferenceRepository {W} (l : Lens W ReferenceStore) : ObjectReferenceRepository W := {|
  TrackObject r := zoom l (modify <[or_ObjectKey r := r <| or_State := ObjectReferenceActive |>]>);
  OrphanObjectsFor rt id keep := zoom l (modify (map_imap (λ key r, Some (orphan_for rt id keep key r))));
  ClaimOrphans limit := zoom l (gets (memory_ClaimOrphans limit));
  ForgetObject key := zoom l (modify (delete key))
|}.

(** ** Budgets (budget_repository.go) *)

Definition BudgetStore : Type := gmap string BudgetRecord.

Definition budget_visible (ownerID : string) (sharedGroupIDs : list string) (b : BudgetRecord) : bool :=
  ((bd_OwnerID b =s ownerID) || str_in (bd_SharedGroupID b) sharedGroupIDs) && live (bd_DeletedAt b).

Definition memory_BudgetRepository {W} (l : Lens W BudgetStore) : Ports.BudgetRepository W := {|
  CreateBudget b := zoom l (modify <[bd_ID b := b]>);
  ListBudgets owner groups := zoom l (gets (range_values (budget_visible owner groups)));
  GetBudget owner id groups := zoom l (λ s,
    match s !! id with
    | Some b => if budget_visible owner groups b then (s, inr b) else (s, inl errNotFound)
    | None => (s, inl errNotFound)
    end);
  UpdateBudget b := zoom l (modify <[bd_ID b := b]>);
  DeleteBudget owner id := zoom l (λ s,
    match s !! id with
    | Some b =>
        if bd_OwnerID b =s owner
        then (<[id := b <| bd_DeletedAt := Some (bd_UpdatedAt b) |>]> s, inr ())
        else (s, inl errNotFound)
    | None => (s, inl errNotFound)
    end)
|}.
End Runtime.
