(* ===== verification/MemoryStores.v ===== *)
(** * More in-memory repositories

    Budget usage, the audit trail, the notification queue, scheduled payments
    with their posting ledger, reports, objects, AI requests and identities.
    Methods that read the wall clock read it through [Env]. *)

From S2P Require Export Prelude GoTime GoStrings Domain UnitOfWork Ports Memory.
#[global] Open Scope Z_scope.

Section Stores.
Context `{GoRuntime} {W : Type} `{Env W}.

(** ** Budget usage (budget_usage_repository.go) *)

Record UsageStore := mkUsageStore {
  bs_contributions : gmap string ExpenseContribution;
  bs_usage : gmap (string * Z) BudgetUsage
}.
#[export] Instance eta_UsageStore : Eta UsageStore := λ r,
  mkUsageStore (bs_contributions r) (bs_usage r).

Definition usage_key (budgetID : string) (periodStart : Time) : string * Z :=
  (budgetID, UnixNano periodStart).

Definition counts_in (ownerID categoryID : string) (from to : Time) (c : ExpenseContribution) : bool :=
  ec_Active c && (ec_OwnerID c =s ownerID) && (ec_CategoryID c =s categoryID) &&
  negb (Before (ec_OccurredAt c) from) && Before (ec_OccurredAt c) to.

(** [total += contribution.AmountMinor] over the map. *)
Definition sum_contributions (ownerID categoryID : string) (from to : Time) (s : UsageStore) : Z :=
  foldl (λ total c, wrap64 (total + ec_AmountMinor c)) 0
    (range_values (counts_in ownerID categoryID from to) (bs_contributions s)).

Definition zero_usage (budgetID : string) (periodStart : Time) : BudgetUsage :=
  mkBudgetUsage budgetID periodStart 0 0 0.

Definition memory_BudgetUsageRepository (budgets : Lens W BudgetStore) (l : Lens W UsageStore)
    : BudgetUsageRepository W := {|
  usage_LoadContribution id := zoom l (gets (λ s,
    match bs_contributions s !! id with
    | Some c => (c, true)
    | None => (mkExpenseContribution "" "" "" "" [] 0 0 false, false)
    end));
  usage_SaveContribution c := zoom l (modify (λ s,
    s <| bs_contributions ::= <[ec_ExpenseID c := c]> |>));
  ListBudgetsForCategory owner category :=
    if (owner =s "") || (category =s "") then mret []
    else all ← zoom budgets (gets (range_values (budget_visible owner [])));
         mret (List.filter (λ b, (bd_CategoryID b =s category) && (bd_OwnerID b =s owner)) all);
  usage_GetBudget id := zoom budgets (gets (λ s,
    match s !! id with
    | Some b => if live (bd_DeletedAt b) then (b, true)
                else (mkBudgetRecord "" "" "" "" "" "" 0 0 "" None 0 0 None, false)
    | None => (mkBudgetRecord "" "" "" "" "" "" 0 0 "" None 0 0 None, false)
    end));
  SumContributions owner category from to := zoom l (gets (sum_contributions owner category from to));
  LoadUsage id start := zoom l (gets (λ s,
    match bs_usage s !! usage_key id start with
    | Some u => (u, true)
    | None => (zero_usage id start, false)
    end));
  SaveUsage u := zoom l (modify (λ s,
    s <| bs_usage ::= <[usage_key (bu_BudgetID u) (bu_PeriodStart u) := u]> |>));
  DeleteUsage id := zoom l (modify (λ s,
    s <| bs_usage ::= filter (λ kv, kv.1.1 ≠ id) |>))
|}.

(** ** The audit trail (audit_repository.go) *)

Record AuditStore := mkAuditStore {
  as_entries : list AuditEntry; as_byEvent : gmap string (); as_sequence : Z
}.
#[export] Instance eta_AuditStore : Eta AuditStore := λ r,
  mkAuditStore (as_entries r) (as_byEvent r) (as_sequence r).

Definition add_entry (e : AuditEntry) (s : AuditStore) : AuditStore :=
  s <| as_sequence ::= λ n, wrap64 (n + 1) |> <| as_entries ::= λ es, es ++ [e] |>.

Definition memory_AppendEntry (e : AuditEntry) (s : AuditStore) : AuditStore :=
  if ae_EventID e ≠s "" then
    match as_byEvent s !! ae_EventID e with
    | Some _ => s
    | None => add_entry e (s <| as_byEvent ::= <[ae_EventID e := ()]> |>)
    end
  else add_entry e s.

Definition audit_matches (f : AuditFilter) (e : AuditEntry) : bool :=
  negb ((au_ActorID f ≠s "") && (ae_ActorID e ≠s au_ActorID f)) &&
  negb ((au_ResourceType f ≠s "") && (ae_ResourceType e ≠s au_ResourceType f)) &&
  negb ((au_ResourceID f ≠s "") && (ae_ResourceID e ≠s au_ResourceID f)) &&
  negb ((au_Action f ≠s "") && (ae_Action e ≠s au_Action f)) &&
  negb (negb (IsZero (au_From f)) && Before (ae_OccurredAt e) (au_From f)) &&
  negb (negb (IsZero (au_To f)) && After (ae_OccurredAt e) (au_To f)).

Definition memory_ListEntries (f : AuditFilter) : M AuditStore (list AuditEntry) := λ s,
  let matching := sort_slice_stable (λ x y, After (ae_OccurredAt x) (ae_OccurredAt y))
    (List.filter (audit_matches f) (as_entries s)) in
  let n := Z.of_nat (length matching) in
  let start := Z.min (au_Offset f) n in
  let end_ := if 0 <? au_Limit f then Z.min (wrap64 (start + au_Limit f)) n else n in
  slice_between start end_ matching s.

Definition memory_AuditRepository (l : Lens W AuditStore) : AuditRepository W := {|
  AppendEntry e := zoom l (modify (memory_AppendEntry e));
  ListEntries f := zoom l (memory_ListEntries f)
|}.

(** [Snapshot]: entries and the set of events, not the sequence. *)
Definition Audit_Snapshot (l : Lens W AuditStore) : Snapshotter W := λ saved w,
  lens_set l ((lens_get l w) <| as_entries := as_entries (lens_get l saved) |>
    <| as_byEvent := as_byEvent (lens_get l saved) |>) w.

(** ** The notification queue (notification_repository.go) *)

Record storedDelivery := mkStoredDelivery {
  sd_delivery : NotificationDelivery; sd_availableAt : Time; sd_lockedAt : Time
}.
#[export] Instance eta_storedDelivery : Eta storedDelivery := λ r,
  mkStoredDelivery (sd_delivery r) (sd_availableAt r) (sd_lockedAt r).

Definition NotificationStore : Type := gmap string storedDelivery.

Definition notification_due (now : Time) (leaseTTL : Duration) (d : storedDelivery) : bool :=
  ((nd_Status (sd_delivery d) =s NotificationPending) && negb (After (sd_availableAt d) now)) ||
  ((nd_Status (sd_delivery d) =s NotificationProcessing) && (leaseTTL <=? Sub now (sd_lockedAt d))).

Definition claim_delivery (now : Time) (d : storedDelivery) : storedDelivery :=
  d <| sd_delivery ::= λ n, n <| nd_Status := NotificationProcessing |>
                             <| nd_Attempts ::= λ k, wrap64 (k + 1) |> |>
    <| sd_lockedAt := now |>.

(** The claiming loop over the entries in iteration order; it stops once
    [limit] deliveries are claimed. *)
Fixpoint claim_loop (now : Time) (leaseTTL : Duration) (limit : Z)
    (entries : list (string * storedDelivery)) (values : list NotificationDelivery)
    (s : NotificationStore) : NotificationStore * list NotificationDelivery :=
  match entries with
  | [] => (s, values)
  | (id, d) :: entries =>
      if limit <=? Z.of_nat (length values) then (s, values)
      else if negb (notification_due now leaseTTL d)
      then claim_loop now leaseTTL limit entries values s
      else let d := claim_delivery now d in
           claim_loop now leaseTTL limit entries (values ++ [sd_delivery d]) (<[id := d]> s)
  end.

Definition memory_ClaimNotifications (now : Time) (leaseTTL : Duration) (limit : Z)
    : M NotificationStore (list NotificationDelivery) := λ s,
  let '(s', values) := claim_loop now leaseTTL limit (map_range s) [] s in (s', inr values).

Definition with_delivery (id : string) (f : storedDelivery → storedDelivery)
    : M NotificationStore () := λ s,
  match s !! id with
  | None => (s, inl errNotFound)
  | Some d => (<[id := f d]> s, inr ())
  end.

(** [counts[value.Status]++] over the map. *)
Definition count_statuses (s : NotificationStore) : gmap NotificationStatus Z :=
  foldl (λ counts d, <[nd_Status (sd_delivery d) :=
      wrap64 (default 0 (counts !! nd_Status (sd_delivery d)) + 1)]> counts)
    ∅ (range_values (λ _, true) s).

Definition memory_NotificationRepository (l : Lens W NotificationStore) : NotificationRepository W := {|
  QueueNotification n := zoom l (modify <[nd_ID n := mkStoredDelivery n (nd_CreatedAt n) 0]>);
  ClaimNotifications _ leaseTTL limit :=
    now ← Now; zoom l (memory_ClaimNotifications now leaseTTL limit);
  MarkNotificationSent id := zoom l (with_delivery id (λ d,
    d <| sd_delivery ::= λ n, n <| nd_Status := NotificationSent |> <| nd_Payload := ∅ |> |>));
  MarkNotificationRetry id availableAt _ := zoom l (with_delivery id (λ d,
    d <| sd_delivery ::= λ n, n <| nd_Status := NotificationPending |> |>
      <| sd_availableAt := availableAt |>));
  MarkNotificationDeadLettered id _ := zoom l (with_delivery id (λ d,
    d <| sd_delivery ::= λ n, n <| nd_Status := NotificationFailed |> <| nd_Payload := ∅ |> |>));
  CountByStatus := zoom l (gets count_statuses)
|}.

(** ** Scheduled payments (scheduled_payment_repository.go) *)

Record PaymentStore := mkPaymentStore {
  pp_payments : gmap string ScheduledPayment;
  pp_postings : gmap (string * Z * PostingKind) ScheduledPaymentPosting
}.
#[export] Instance eta_PaymentStore : Eta PaymentStore := λ r,
  mkPaymentStore (pp_payments r) (pp_postings r).

Definition posting_key (p : ScheduledPaymentPosting) : string * Z * PostingKind :=
  (po_ScheduledPaymentID p, UnixNano (po_DueAt p), po_Kind p).

Definition payment_visible (ownerID : string) (groups : list string) (p : ScheduledPayment) : bool :=
  ((sp_OwnerID p =s ownerID) || str_in (sp_SharedGroupID p) groups) && live (sp_DeletedAt p).

Definition payment_due (through : Time) (p : ScheduledPayment) : bool :=
  live (sp_DeletedAt p) && negb (sp_Paused p) && negb (After (sp_NextDueAt p) through).

Definition list_due (through : Time) (limit : Z) (s : PaymentStore) : list ScheduledPayment :=
  let values := sort_slice (λ x y, Before (sp_NextDueAt x) (sp_NextDueAt y))
    (range_values (payment_due through) (pp_payments s)) in
  if (0 <? limit) && (limit <? Z.of_nat (length values)) then take (Z.to_nat limit) values else values.

Definition with_payment (paymentID : string) (ok : ScheduledPayment → bool)
    (f : ScheduledPayment → ScheduledPayment) : M PaymentStore () := λ s,
  match pp_payments s !! paymentID with
  | Some p => if ok p then (s <| pp_payments ::= <[paymentID := f p]> |>, inr ())
              else (s, inl errNotFound)
  | None => (s, inl errNotFound)
  end.

Definition memory_ClaimPosting (p : ScheduledPaymentPosting) : M PaymentStore () := λ s,
  match pp_postings s !! posting_key p with
  | Some _ => (s, inl ErrPostingExists)
  | None => (s <| pp_postings ::= <[posting_key p := p]> |>, inr ())
  end.

Definition memory_ScheduledPaymentRepository (l : Lens W PaymentStore)
    : ScheduledPaymentRepository W := {|
  CreateScheduledPayment p := zoom l (modify (λ s, s <| pp_payments ::= <[sp_ID p := p]> |>));
  ListScheduledPayments owner groups := zoom l (gets (λ s,
    sort_slice (λ x y, After (sp_CreatedAt x) (sp_CreatedAt y))
      (range_values (payment_visible owner groups) (pp_payments s))));
  GetScheduledPayment owner id groups := zoom l (λ s,
    match pp_payments s !! id with
    | Some p => if payment_visible owner groups p then (s, inr p) else (s, inl errNotFound)
    | None => (s, inl errNotFound)
    end);
  UpdateScheduledPayment p := zoom l (with_payment (sp_ID p)
    (λ old, (sp_OwnerID old =s sp_OwnerID p) && live (sp_DeletedAt old)) (λ _, p));
  DeleteScheduledPayment owner id :=
    found ← zoom l (gets (λ s, match pp_payments s !! id with
      | Some p => (sp_OwnerID p =s owner) && live (sp_DeletedAt p)
      | None => false end));
    if (found : bool) then
      now ← Now;
      zoom l (with_payment id (λ _, true) (λ p, p <| sp_DeletedAt := Some now |>))
    else throw errNotFound;
  ListDueScheduledPayments through limit := zoom l (gets (list_due through limit));
  ClaimPosting p := zoom l (memory_ClaimPosting p);
  AdvanceSchedule id nextDueAt lastPostedAt paused := zoom l (with_payment id
    (λ p, live (sp_DeletedAt p))
    (λ p, p <| sp_NextDueAt := nextDueAt |> <| sp_LastPostedAt := Some lastPostedAt |>
            <| sp_Paused := paused |>))
|}.

(** ** Reports (report_repository.go) *)

Record ReportStore := mkReportStore {
  rs_reports : gmap string Report; rs_keys : gmap (string * string * Z * string) ()
}.
#[export] Instance eta_ReportStore : Eta ReportStore := λ r, mkReportStore (rs_reports r) (rs_keys r).

Definition report_key (r : Report) : string * string * Z * string :=
  (rep_OwnerID r, rep_PeriodKind r, UnixNano (rep_PeriodStart r), rep_Format r).

Definition memory_ReportRepository (l : Lens W ReportStore) : ReportRepository W := {|
  CreateReport r := zoom l (λ s,
    match rs_keys s !! report_key r with
    | Some _ => (s, inl ErrReportExists)
    | None => (s <| rs_keys ::= <[report_key r := ()]> |> <| rs_reports ::= <[rep_ID r := r]> |>, inr ())
    end);
  ListReports owner := zoom l (gets (λ s,
    sort_slice (λ x y, After (rep_CreatedAt x) (rep_CreatedAt y))
      (range_values (λ r, rep_OwnerID r =s owner) (rs_reports s))));
  GetReport owner id := zoom l (λ s,
    match rs_reports s !! id with
    | Some r => if rep_OwnerID r =s owner then (s, inr r) else (s, inl errNotFound)
    | None => (s, inl errNotFound)
    end)
|}.

(** ** Objects (object_store.go) *)

Record storedObject := mkStoredObject {
  so_data : string; so_contentType : string; so_lastModified : Time
}.
Definition ObjectMap : Type := gmap string storedObject.

Definition object_info (key : string) (o : storedObject) : ObjectInfo :=
  mkObjectInfo key (len (so_data o)) (so_contentType o) (so_lastModified o).

Definition memory_ObjectStore (l : Lens W ObjectMap) : ObjectStore W := {|
  Put key body contentType :=
    now ← Now; zoom l (modify <[key := mkStoredObject body contentType now]>);
  Get key := zoom l (λ s,
    match s !! key with
    | Some o => (s, inr (object_info key o, so_data o))
    | None => (s, inl ErrObjectNotFound)
    end);
  Stat key := zoom l (λ s,
    match s !! key with
    | Some o => (s, inr (object_info key o))
    | None => (s, inl ErrObjectNotFound)
    end);
  Delete key := zoom l (modify (delete key));
  PresignedGetURL _ _ := throw ErrPresignUnsupported;
  Ping := mret ()
|}.

(** ** AI requests (ai_request_repository.go)

    The totals are kept per workload in order of first appearance. *)

Definition add_usage (r : AIRequestRecord) (u : AIWorkloadUsage) : AIWorkloadUsage :=
  u <| wu_RequestCount ::= λ n, wrap64 (n + 1) |>
    <| wu_ErrorCount ::= λ n, if ar_Outcome r =s AIRequestError then wrap64 (n + 1) else n |>
    <| wu_InputTokens ::= λ n, wrap64 (n + tu_InputTokens (ar_Usage r)) |>
    <| wu_OutputTokens ::= λ n, wrap64 (n + tu_OutputTokens (ar_Usage r)) |>.

Fixpoint add_record (r : AIRequestRecord) (totals : list AIWorkloadUsage) : list AIWorkloadUsage :=
  match totals with
  | [] => [add_usage r (mkAIWorkloadUsage (ar_Workload r) 0 0 0 0)]
  | u :: us => if wu_Workload u =s ar_Workload r then add_usage r u :: us else u :: add_record r us
  end.

Definition memory_Summarize (since : Time) (records : list AIRequestRecord) : AIUsageSummary :=
  mkAIUsageSummary since (foldl (λ totals r, add_record r totals) []
    (List.filter (λ r, negb (Before (ar_CreatedAt r) since)) records)).

Definition memory_AIRequestRepository (l : Lens W (list AIRequestRecord)) : AIRequestRepository W := {|
  RecordRequest r := zoom l (modify (λ rs, rs ++ [r]));
  Summarize since := zoom l (gets (memory_Summarize since))
|}.
End Stores.
