(* ===== verification/IdentityStore.v ===== *)
(** * The in-memory identity repository (src/internal/adapter/outbound/memory/identity_repository.go)

    Users with their e-mail index, invitations, refresh tokens and password
    resets with their token-hash indexes, and the invariant that keeps the
    e-mail index and the user table in step. *)

From S2P Require Export Prelude GoTime GoStrings Domain UnitOfWork Ports Memory.
#[global] Open Scope Z_scope.

Record IdentityStore := mkIdentityStore {
  usersByID : gmap string AppUser; userIDByEmail : gmap string string;
  invitationsByID : gmap string Invitation; invitationIDByHash : gmap string string;
  refreshByID : gmap string RefreshToken; refreshIDByHash : gmap string string;
  passwordResetsByID : gmap string PasswordReset; passwordResetByHash : gmap string string
}.
#[export] Instance eta_IdentityStore : Eta IdentityStore := λ r,
  mkIdentityStore (usersByID r) (userIDByEmail r) (invitationsByID r) (invitationIDByHash r)
    (refreshByID r) (refreshIDByHash r) (passwordResetsByID r) (passwordResetByHash r).

Definition NewIdentityRepository : IdentityStore := mkIdentityStore ∅ ∅ ∅ ∅ ∅ ∅ ∅ ∅.

(** The zero structs a lookup through an index returns when its target is gone. *)
Definition zero_user : AppUser := mkAppUser "" "" "" "" "" "" false false ∅ false 0 0.
Definition zero_invitation : Invitation := mkInvitation "" "" "" "" "" "" 0 0 "" None.
Definition zero_refresh : RefreshToken := mkRefreshToken "" "" "" "" 0 0 None "".
Definition zero_reset : PasswordReset := mkPasswordReset "" "" "" 0 0 None.

(** [id, ok := index[key]; if !ok { return errNotFound }; return table[id]]. *)
Definition by_index {A} (index : gmap string string) (table : gmap string A) (zero : A)
    (key : string) : error + A :=
  match index !! key with
  | None => inl errNotFound
  | Some id => inr (default zero (table !! id))
  end.

Definition already what : error := ErrorsNew (what +:+ " already exists").

Definition memory_CreateUser (user : AppUser) : M IdentityStore () := λ s,
  if decide (is_Some (usersByID s !! u_ID user)) then (s, inl (already "user id"))
  else if decide (is_Some (userIDByEmail s !! u_Email user)) then (s, inl (already "user email"))
  else (s <| usersByID ::= <[u_ID user := user]> |>
          <| userIDByEmail ::= <[u_Email user := u_ID user]> |>, inr ()).

Definition memory_UpdateUser (user : AppUser) : M IdentityStore () := λ s,
  match usersByID s !! u_ID user with
  | None => (s, inl errNotFound)
  | Some previous =>
      if u_Email previous =s u_Email user
      then (s <| usersByID ::= <[u_ID user := user]> |>, inr ())
      else
        let conflict := match userIDByEmail s !! u_Email user with
                        | Some existing => negb (existing =s u_ID user)
                        | None => false
                        end in
        if conflict : bool then (s, inl (already "user email"))
        else (s <| userIDByEmail ::= λ m, <[u_Email user := u_ID user]> (delete (u_Email previous) m) |>
                <| usersByID ::= <[u_ID user := user]> |>, inr ())
  end.

Definition memory_DeleteUser (userID : string) : M IdentityStore () := λ s,
  match usersByID s !! userID with
  | None => (s, inl errNotFound)
  | Some user =>
      (s <| usersByID ::= delete userID |> <| userIDByEmail ::= delete (u_Email user) |>, inr ())
  end.

Definition memory_CreateInvitation (i : Invitation) : M IdentityStore () := λ s,
  match invitationIDByHash s !! inv_TokenHash i with
  | Some _ => (s, inl (already "invitation token"))
  | None => (s <| invitationsByID ::= <[inv_ID i := i]> |>
               <| invitationIDByHash ::= <[inv_TokenHash i := inv_ID i]> |>, inr ())
  end.

(** [now1] is the reading for the expiry check, [now2] the one recorded. *)
Definition memory_AcceptInvitation (now1 now2 : Time) (invitationID : string) (user : AppUser)
    : M IdentityStore () := λ s,
  match invitationsByID s !! invitationID with
  | None => (s, inl errNotFound)
  | Some i =>
      if negb (inv_Status i =s InvitationPending) || negb (After (inv_ExpiresAt i) now1)
      then (s, inl errNotFound)
      else if decide (is_Some (userIDByEmail s !! u_Email user)) then (s, inl (already "user email"))
      else (s <| invitationsByID ::= <[invitationID := i <| inv_Status := InvitationAccepted |>
                    <| inv_AcceptedBy := u_ID user |> <| inv_AcceptedAt := Some now2 |>]> |>
              <| usersByID ::= <[u_ID user := user]> |>
              <| userIDByEmail ::= <[u_Email user := u_ID user]> |>, inr ())
  end.

Definition memory_CreateRefreshToken (t : RefreshToken) : M IdentityStore () := λ s,
  match refreshIDByHash s !! rt_TokenHash t with
  | Some _ => (s, inl (already "refresh token"))
  | None => (s <| refreshByID ::= <[rt_ID t := t]> |>
               <| refreshIDByHash ::= <[rt_TokenHash t := rt_ID t]> |>, inr ())
  end.

Definition memory_RotateRefreshToken (now : Time) (oldTokenID : string) (replacement : RefreshToken)
    : M IdentityStore () := λ s,
  match refreshByID s !! oldTokenID with
  | None => (s, inl errNotFound)
  | Some old =>
      if negb (live (rt_RevokedAt old)) then (s, inl errNotFound)
      else match refreshIDByHash s !! rt_TokenHash replacement with
      | Some _ => (s, inl (already "refresh token"))
      | None =>
          let old' := old <| rt_RevokedAt := Some now |> <| rt_ReplacedBy := rt_ID replacement |> in
          let replacement := replacement <| rt_FamilyID := rt_FamilyID old |> in
          (s <| refreshByID ::= λ m, <[rt_ID replacement := replacement]> (<[oldTokenID := old']> m) |>
             <| refreshIDByHash ::= <[rt_TokenHash replacement := rt_ID replacement]> |>, inr ())
      end
  end.

Definition revoke (now : Time) (t : RefreshToken) : RefreshToken :=
  match rt_RevokedAt t with Some _ => t | None => t <| rt_RevokedAt := Some now |> end.

Definition memory_RevokeRefreshToken (now : Time) (tokenID : string) (s : IdentityStore) : IdentityStore :=
  s <| refreshByID ::= alter (revoke now) tokenID |>.

Definition memory_RevokeAllRefreshTokens (now : Time) (userID : string) (s : IdentityStore) : IdentityStore :=
  s <| refreshByID ::= fmap (λ t, if rt_UserID t =s userID then revoke now t else t) |>.

Definition memory_CreatePasswordReset (r : PasswordReset) : M IdentityStore () := λ s,
  match passwordResetByHash s !! pr_TokenHash r with
  | Some _ => (s, inl (already "password reset token"))
  | None => (s <| passwordResetsByID ::= <[pr_ID r := r]> |>
               <| passwordResetByHash ::= <[pr_TokenHash r := pr_ID r]> |>, inr ())
  end.

Definition memory_MarkPasswordResetUsed (now : Time) (resetID : string) : M IdentityStore () := λ s,
  match passwordResetsByID s !! resetID with
  | None => (s, inl errNotFound)
  | Some r => (s <| passwordResetsByID ::= <[resetID := r <| pr_UsedAt := Some now |>]> |>, inr ())
  end.

Definition use_reset (now : Time) (userID : string) (r : PasswordReset) : PasswordReset :=
  if (pr_UserID r =s userID) && live (pr_UsedAt r) then r <| pr_UsedAt := Some now |> else r.

Definition memory_InvalidatePendingPasswordResets (now : Time) (userID : string) (s : IdentityStore)
    : IdentityStore := s <| passwordResetsByID ::= fmap (use_reset now userID) |>.

Section Port.
Context `{GoRuntime} {W : Type} `{Env W}.

Definition active_super_admin (u : AppUser) : bool :=
  (u_Role u =s RoleSuperAdmin) && negb (u_AccessBlocked u).

Definition memory_IdentityRepository (l : Lens W IdentityStore) : IdentityRepository W := {|
  CountSuperAdmins := zoom l (gets (λ s,
    Z.of_nat (length (range_values active_super_admin (usersByID s)))));
  GetUserByID id := zoom l (λ s,
    match usersByID s !! id with Some u => (s, inr u) | None => (s, inl errNotFound) end);
  GetUserByEmail email := zoom l (λ s, (s, by_index (userIDByEmail s) (usersByID s) zero_user email));
  ListUsers := zoom l (gets (λ s, range_values (λ _, true) (usersByID s)));
  CreateUser u := zoom l (memory_CreateUser u);
  UpdateUser u := zoom l (memory_UpdateUser u);
  DeleteUser id := zoom l (memory_DeleteUser id);
  GetInvitationByTokenHash h := zoom l (λ s,
    (s, by_index (invitationIDByHash s) (invitationsByID s) zero_invitation h));
  CreateInvitation i := zoom l (memory_CreateInvitation i);
  AcceptInvitation id u := now1 ← Now; now2 ← Now; zoom l (memory_AcceptInvitation now1 now2 id u);
  GetRefreshTokenByHash h := zoom l (λ s,
    (s, by_index (refreshIDByHash s) (refreshByID s) zero_refresh h));
  CreateRefreshToken t := zoom l (memory_CreateRefreshToken t);
  RotateRefreshToken id t := now ← Now; zoom l (memory_RotateRefreshToken now id t);
  RevokeRefreshToken id := now ← Now; zoom l (modify (memory_RevokeRefreshToken now id));
  RevokeAllRefreshTokens id := now ← Now; zoom l (modify (memory_RevokeAllRefreshTokens now id));
  GetPasswordResetByTokenHash h := zoom l (λ s,
    (s, by_index (passwordResetByHash s) (passwordResetsByID s) zero_reset h));
  CreatePasswordReset r := zoom l (memory_CreatePasswordReset r);
  MarkPasswordResetUsed id := now ← Now; zoom l (memory_MarkPasswordResetUsed now id);
  InvalidatePendingPasswordResets id :=
    now ← Now; zoom l (modify (memory_InvalidatePendingPasswordResets now id))
|}.
End Port.
