(* ===== verification/Auth.v ===== *)
(** * Authentication and user management (src/internal/core/service/auth.go)

    Password login, refresh rotation, invitations, password resets, profiles
    and the administration of users.  The cryptography is a parameter: [bcrypt]
    and the JWT library are third-party code; SHA-256 and the random source of
    the standard library are a function and a supply of bytes. *)

From S2P Require Export Prelude GoTime GoStrings Domain UnitOfWork Ports.
#[global] Open Scope Z_scope.

Definition ErrUnauthorized : error := Sentinel "ErrUnauthorized" "unauthorized".
Definition ErrConflict : error := Sentinel "ErrConflict" "conflict".
Definition ErrBootstrap : error :=
  Sentinel "ErrBootstrap" "super-admin bootstrap credentials are required".

Record AuthConfig := mkAuthConfig {
  JWTSecret : string; Issuer : string; AccessTokenTTL : Duration; RefreshTokenTTL : Duration;
  InvitationTTL : Duration; PasswordResetTTL : Duration; BootstrapSuperAdminEmail : string;
  BootstrapSuperAdminPassword : string; PublicBaseURL : string
}.

Record Session := mkSession {
  AccessToken : string; AccessTokenExpiry : Time; SessionRefreshToken : string;
  RefreshTokenExpiry : Time
}.

Record InvitationDelivery := mkInvitationDelivery { del_Invitation : Invitation; del_RawToken : string }.

Record accessClaims := mkAccessClaims {
  cl_Role : UserRole; cl_Subject : string; cl_Issuer : string; cl_IssuedAt : Time; cl_ExpiresAt : Time
}.

Definition ObjectResourceProfileImage : string := "user_profile_image".

(** What the service calls outside the repository. *)
Class Crypto (W : Type) := {
  CompareHashAndPassword : string → string → bool;
  GenerateFromPassword : string → M W string;
  SignedString : string → accessClaims → M W string;
  ParseWithClaims : string → string → string → M W accessClaims;
  rand_Read : nat → M W (list Z);
  sha256_Sum256 : string → list Z
}.

(** [base64.RawURLEncoding] and [hex.EncodeToString]; bytes are 8-bit numbers. *)
Definition nth_char (alphabet : string) (i : Z) : string := String.substring (Z.to_nat i) 1 alphabet.

Definition url_digit : Z → string :=
  nth_char "ABCDEFGHIJKLMNOPQRSTUVWXYZabcdefghijklmnopqrstuvwxyz0123456789-_".

Fixpoint RawURLEncode (bytes : list Z) : string :=
  match bytes with
  | [] => ""
  | [a] => url_digit (Z.shiftr a 2) +:+ url_digit (Z.shiftl (Z.land a 3) 4)
  | [a; b] => url_digit (Z.shiftr a 2) +:+ url_digit (Z.lor (Z.shiftl (Z.land a 3) 4) (Z.shiftr b 4)) +:+
      url_digit (Z.shiftl (Z.land b 15) 2)
  | a :: b :: c :: bytes =>
      url_digit (Z.shiftr a 2) +:+ url_digit (Z.lor (Z.shiftl (Z.land a 3) 4) (Z.shiftr b 4)) +:+
      url_digit (Z.lor (Z.shiftl (Z.land b 15) 2) (Z.shiftr c 6)) +:+ url_digit (Z.land c 63) +:+
      RawURLEncode bytes
  end.

Definition hex_digit : Z → string := nth_char "0123456789abcdef".

Definition HexEncode (bytes : list Z) : string :=
  String.concat "" (map (λ b, hex_digit (Z.shiftr b 4) +:+ hex_digit (Z.land b 15)) bytes).

Definition randomToken {W} `{Crypto W} : M W string :=
  bytes ← wrap_err "generate token" (rand_Read 32);
  mret (RawURLEncode bytes).

Definition tokenHash {W} `{Crypto W} (rawToken : string) : string := HexEncode (sha256_Sum256 rawToken).

Example raw_url_sample : RawURLEncode [0; 16; 131; 16; 81] = "ABCDEFE".
Proof. reflexivity. Qed.
Example hex_sample : HexEncode [0; 255; 26] = "00ff1a".
Proof. reflexivity. Qed.

(** [NewAuthService]: the checks and defaults of the configuration. *)
Definition NewAuthService (repository : option ()) (c : AuthConfig) : error + AuthConfig :=
  match repository with
  | None => inl (ErrorsNew "identity repository is required")
  | Some _ =>
      if len (JWTSecret c) <? 32 then inl (ErrorsNew "JWT secret must contain at least 32 bytes")
      else inr (mkAuthConfig (JWTSecret c)
        (if Issuer c =s "" then "billpiggy" else Issuer c)
        (if AccessTokenTTL c <=? 0 then 15 * Minute else AccessTokenTTL c)
        (if RefreshTokenTTL c <=? 0 then 30 * 24 * Hour else RefreshTokenTTL c)
        (if InvitationTTL c <=? 0 then 7 * 24 * Hour else InvitationTTL c)
        (if PasswordResetTTL c <=? 0 then Hour else PasswordResetTTL c)
        (BootstrapSuperAdminEmail c) (BootstrapSuperAdminPassword c) (PublicBaseURL c))
  end.

Definition validRole (role : UserRole) : bool :=
  (role =s RoleMember) || (role =s RoleAdmin) || (role =s RoleSuperAdmin).

Section Auth.
Context `{GoRuntime} {W : Type} `{Env W} `{IdentityRepository W} `{Crypto W}.
Context (config : AuthConfig).
Context (objectRefs : option (ObjectReferenceRepository W)).
Context (notifications : option (NotificationRepository W)).

Definition normalizeEmail (email : string) : string := ToLower (TrimSpace email).

(** [if err != nil { return f(err) }] on the error of [m], whatever it is. *)
Definition or_error {A} (e : error) (m : M W A) : M W A := map_err (λ _, e) m.

Definition newUser (email password displayName : string) (role : UserRole) (now : Time)
    : M W AppUser :=
  if (normalizeEmail email =s "") || (TrimSpace displayName =s "") || (len password <? 12) ||
     negb (validRole role)
  then throw ErrConflict
  else
    hash ← wrap_err "hash password" (GenerateFromPassword password);
    id ← NewString;
    mret (mkAppUser id (normalizeEmail email) hash (TrimSpace displayName) "" role false true ∅
      true now now).

Definition EnsureBootstrapSuperAdmin : M W () :=
  count ← wrap_err "count super admins" CountSuperAdmins;
  if 0 <? count then mret ()
  else if (BootstrapSuperAdminEmail config =s "") || (BootstrapSuperAdminPassword config =s "")
  then throw ErrBootstrap
  else
    now ← Now;
    user ← newUser (BootstrapSuperAdminEmail config) (BootstrapSuperAdminPassword config)
      "Super admin" RoleSuperAdmin now;
    wrap_err "create bootstrap super admin" (CreateUser user).

Definition issueSession (user : AppUser) (replacedTokenID : string) : M W Session :=
  now ← Now;
  let accessExpiry := TimeAdd now (AccessTokenTTL config) in
  accessToken ← wrap_err "sign access token" (SignedString (JWTSecret config)
    (mkAccessClaims (u_Role user) (u_ID user) (Issuer config) now accessExpiry));
  rawRefreshToken ← randomToken;
  let refreshExpiry := TimeAdd now (RefreshTokenTTL config) in
  id ← NewString;
  family ← NewString;
  let refreshToken := mkRefreshToken id (u_ID user) (tokenHash rawRefreshToken) family refreshExpiry
    now None "" in
  wrap_err "store refresh token"
    (if replacedTokenID =s "" then CreateRefreshToken refreshToken
     else RotateRefreshToken replacedTokenID refreshToken);;
  mret (mkSession accessToken accessExpiry rawRefreshToken refreshExpiry).

Definition Login (email password : string) : M W Session :=
  user ← or_error ErrUnauthorized (GetUserByEmail (normalizeEmail email));
  if u_AccessBlocked user || negb (CompareHashAndPassword (u_PasswordHash user) password)
  then throw ErrUnauthorized
  else issueSession user "".

Definition Refresh (rawToken : string) : M W Session :=
  token ← or_error ErrUnauthorized (GetRefreshTokenByHash (tokenHash rawToken));
  match rt_RevokedAt token with
  | Some _ => throw ErrUnauthorized
  | None =>
      now ← Now;
      if negb (After (rt_ExpiresAt token) now) then throw ErrUnauthorized
      else
        user ← or_error ErrUnauthorized (GetUserByID (rt_UserID token));
        if u_AccessBlocked user then throw ErrUnauthorized
        else issueSession user (rt_ID token)
  end.

Definition Logout (rawToken : string) : M W () :=
  token ← catch (GetRefreshTokenByHash (tokenHash rawToken));
  match token with
  | inl _ => mret ()
  | inr token => RevokeRefreshToken (rt_ID token)
  end.

(** Queueing through the optional notification port. *)
Definition queue_email (recipient : string) (kind : NotificationKind) (payload : gmap string string)
    : M W () :=
  match notifications with
  | None => mret ()
  | Some port =>
      id ← NewString;
      now ← Now;
      QueueNotification (mkNotificationDelivery id "" recipient kind payload now
        NotificationPending 0)
  end.

Definition with_url (key path rawToken : string) (payload : gmap string string)
    : gmap string string :=
  if PublicBaseURL config =s "" then payload
  else <[key := TrimRightSlash (PublicBaseURL config) +:+ path +:+ rawToken]> payload.

Definition queueInvitationEmail (invitation : Invitation) (rawToken : string) : M W () :=
  queue_email (inv_Email invitation) NotificationInvitation
    (with_url "accept_url" "/accept-invitation?token=" rawToken
      (<["role" := inv_Role invitation]> (<["token" := rawToken]>
        {["expires_at" := FormatRFC3339 (inv_ExpiresAt invitation)]}))).

Definition Invite (actor : AppUser) (email : string) (role : UserRole) : M W InvitationDelivery :=
  if negb (Allows (u_Role actor) PermissionUsersInvite) || (role =s RoleSuperAdmin)
  then throw ErrForbidden
  else if negb (validRole role) then throw ErrConflict
  else
    rawToken ← randomToken;
    now ← Now;
    id ← NewString;
    let invitation := mkInvitation id (normalizeEmail email) role (tokenHash rawToken)
      InvitationPending (u_ID actor) (TimeAdd now (InvitationTTL config)) now "" None in
    if inv_Email invitation =s "" then throw ErrConflict
    else
      wrap_err "create invitation" (CreateInvitation invitation);;
      wrap_err "queue invitation email" (queueInvitationEmail invitation rawToken);;
      mret (mkInvitationDelivery invitation rawToken).

(** The detail a rejected invitation token is logged with; [ErrUnauthorized]
    stays the wrapped error. *)
Definition rejected (detail : string) : error := Errorf "" ErrUnauthorized (": " +:+ detail).

Definition AcceptInvitation_service (rawToken password displayName : string) : M W AppUser :=
  invitation ← map_err (λ err, rejected ("invitation token not found: " +:+ ErrorText err))
    (GetInvitationByTokenHash (tokenHash rawToken));
  if inv_Status invitation ≠s InvitationPending then
    throw (rejected ("invitation " +:+ inv_ID invitation +:+ " has status " +:+
      quoted (inv_Status invitation) +:+ ", not pending"))
  else
    now ← Now;
    if negb (After (inv_ExpiresAt invitation) now) then
      throw (rejected ("invitation " +:+ inv_ID invitation +:+ " expired at " +:+
        TimeString (inv_ExpiresAt invitation)))
    else
      now ← Now;
      user ← wrap_err ("build user from invitation " +:+ inv_ID invitation)
        (newUser (inv_Email invitation) password displayName (inv_Role invitation) now);
      wrap_err ("accept invitation " +:+ inv_ID invitation)
        (AcceptInvitation (inv_ID invitation) user);;
      mret user.

Definition AuthenticateAccessToken (rawToken : string) : M W AppUser :=
  claims ← or_error ErrUnauthorized (ParseWithClaims (JWTSecret config) (Issuer config) rawToken);
  if cl_Subject claims =s "" then throw ErrUnauthorized
  else
    user ← or_error ErrUnauthorized (GetUserByID (cl_Subject claims));
    if u_AccessBlocked user then throw ErrUnauthorized else mret user.

(** ** Profiles, passwords and administration *)

Definition ListUsers_service (actor : AppUser) : M W (list AppUser) :=
  if negb (Allows (u_Role actor) PermissionUsersManage) then throw ErrForbidden else ListUsers.

Definition UpdateProfile (userID displayName email : string) (wantsEmail aiEnabled : bool)
    : M W AppUser :=
  user ← or_error ErrNotFound (GetUserByID userID);
  now ← Now;
  let user := user <| u_DisplayName := TrimSpace displayName |>
    <| u_Email := normalizeEmail email |> <| u_EmailNotificationsEnabled := wantsEmail |>
    <| u_AIEnabled := aiEnabled |> <| u_UpdatedAt := now |> in
  if (u_DisplayName user =s "") || (u_Email user =s "") then throw ErrConflict
  else UpdateUser user;; mret user.

Definition UpdateNotificationPreferences (userID : string) (preferences : gmap string bool)
    : M W AppUser :=
  user ← or_error ErrNotFound (GetUserByID userID);
  now ← Now;
  let user := user <| u_NotificationPreferences := preferences |> <| u_UpdatedAt := now |> in
  UpdateUser user;; mret user.

Definition ChangePassword (userID currentPassword newPassword : string) : M W () :=
  user ← or_error ErrNotFound (GetUserByID userID);
  if negb (CompareHashAndPassword (u_PasswordHash user) currentPassword) then throw ErrUnauthorized
  else if len newPassword <? 12 then throw ErrConflict
  else
    hash ← wrap_err "hash password" (GenerateFromPassword newPassword);
    now ← Now;
    UpdateUser (user <| u_PasswordHash := hash |> <| u_UpdatedAt := now |>);;
    wrap_err "invalidate pending password resets" (InvalidatePendingPasswordResets userID);;
    RevokeAllRefreshTokens userID.

Definition queuePasswordResetEmail (user : AppUser) (rawToken : string) (expiresAt : Time) : M W () :=
  queue_email (u_Email user) NotificationPasswordReset
    (with_url "reset_url" "/reset-password?token=" rawToken
      (<["token" := rawToken]> {["expires_at" := FormatRFC3339 expiresAt]})).

Definition RequestPasswordReset (email : string) : M W () :=
  user ← catch (GetUserByEmail (normalizeEmail email));
  match user with
  | inl _ => mret ()
  | inr user =>
      if u_AccessBlocked user then mret ()
      else
        rawToken ← randomToken;
        now ← Now;
        id ← NewString;
        let reset := mkPasswordReset id (u_ID user) (tokenHash rawToken)
          (TimeAdd now (PasswordResetTTL config)) now None in
        wrap_err "create password reset" (CreatePasswordReset reset);;
        queuePasswordResetEmail user rawToken (pr_ExpiresAt reset)
  end.

Definition ResetPassword (rawToken newPassword : string) : M W () :=
  reset ← or_error ErrUnauthorized (GetPasswordResetByTokenHash (tokenHash rawToken));
  match pr_UsedAt reset with
  | Some _ => throw ErrUnauthorized
  | None =>
      now ← Now;
      if negb (After (pr_ExpiresAt reset) now) then throw ErrUnauthorized
      else if len newPassword <? 12 then throw ErrConflict
      else
        user ← or_error ErrUnauthorized (GetUserByID (pr_UserID reset));
        if u_AccessBlocked user then throw ErrUnauthorized
        else
          hash ← wrap_err "hash password" (GenerateFromPassword newPassword);
          now ← Now;
          UpdateUser (user <| u_PasswordHash := hash |> <| u_UpdatedAt := now |>);;
          wrap_err "mark password reset used" (MarkPasswordResetUsed (pr_ID reset));;
          wrap_err "invalidate pending password resets"
            (InvalidatePendingPasswordResets (u_ID user));;
          RevokeAllRefreshTokens (u_ID user)
  end.

Definition GetProfile (userID : string) : M W AppUser := or_error ErrNotFound (GetUserByID userID).

Definition UpdateProfileImage (userID objectKey : string) : M W AppUser :=
  user ← or_error ErrNotFound (GetUserByID userID);
  if TrimSpace objectKey =s "" then throw ErrConflict
  else
    let previousKey := u_ProfileImageObjectKey user in
    now ← Now;
    let user := user <| u_ProfileImageObjectKey := objectKey |> <| u_UpdatedAt := now |> in
    UpdateUser user;;
    match objectRefs with
    | None => mret ()
    | Some refs =>
        wrap_err "track profile image object" (TrackObject
          (mkObjectReference objectKey userID ObjectResourceProfileImage userID "" 0));;
        if (previousKey ≠s "") && (previousKey ≠s objectKey)
        then wrap_err "orphan previous profile image"
               (OrphanObjectsFor ObjectResourceProfileImage userID objectKey)
        else mret ()
    end;;
    mret user.

Definition queueAccessChangedEmail (user : AppUser) : M W () :=
  queue_email (u_Email user) NotificationAccessChanged
    (<["role" := u_Role user]> {["blocked" := FormatBool (u_AccessBlocked user)]}).

Definition ManageUser (actor : AppUser) (userID : string) (role : UserRole) (blocked : bool)
    : M W AppUser :=
  if negb (Allows (u_Role actor) PermissionUsersManage) then throw ErrForbidden
  else
    user ← or_error ErrNotFound (GetUserByID userID);
    if (u_Role user =s RoleSuperAdmin) || (role =s RoleSuperAdmin) then throw ErrForbidden
    else if negb (validRole role) || (role =s RoleSuperAdmin) then throw ErrConflict
    else
      let changed := (u_Role user ≠s role) || negb (Bool.eqb (u_AccessBlocked user) blocked) in
      now ← Now;
      let user := user <| u_Role := role |> <| u_AccessBlocked := blocked |> <| u_UpdatedAt := now |> in
      UpdateUser user;;
      (if changed then wrap_err "queue access changed email" (queueAccessChangedEmail user)
       else mret ());;
      mret user.

Definition DeleteUser_service (actor : AppUser) (userID : string) : M W () :=
  if negb (Allows (u_Role actor) PermissionUsersManage) then throw ErrForbidden
  else
    user ← or_error ErrNotFound (GetUserByID userID);
    if u_Role user =s RoleSuperAdmin then throw ErrForbidden
    else
      DeleteUser userID;;
      match objectRefs with
      | None => mret ()
      | Some refs => wrap_err "orphan profile image for deleted user"
          (OrphanObjectsFor ObjectResourceProfileImage userID "")
      end.
End Auth.
