(* ===== verification/AuthSafety.v ===== *)
(** * What the authentication service guarantees

    Against the in-memory identity repository: super-administrators can be
    neither made nor lost through the service, a refresh token is good for one
    rotation, and a used password reset closes every other way in. *)

From S2P Require Export Prelude GoTime GoStrings Domain UnitOfWork Ports Memory IdentityStore Auth.
#[global] Open Scope Z_scope.

Section Safety.
Context `{GoRuntime} {W : Type} `{Env W} `{Crypto W}.
Context (l : Lens W IdentityStore) `{!LensLaws l}.
Context (config : AuthConfig).
Context (objectRefs : option (ObjectReferenceRepository W)).
Context (notifications : option (NotificationRepository W)).

#[local] Existing Instance memory_IdentityRepository.
#[local] Instance identity : IdentityRepository W := memory_IdentityRepository l.

(** [m] leaves the identity store alone. *)
Definition frames {A} (m : M W A) : Prop := ∀ w, lens_get l (m w).1 = lens_get l w.

(** No id of the store is [id]. *)
Definition fresh (id : string) (s : IdentityStore) : Prop :=
  usersByID s !! id = None ∧ refreshByID s !! id = None ∧
  invitationsByID s !! id = None ∧ passwordResetsByID s !! id = None.

(** The environment: the other ports do not write the identity store, and a new
    UUID is not in use. *)
Class AuthEnvironment := {
  frame_now : frames Now;
  frame_new : frames NewString;
  new_fresh w : match NewString w with
                | (_, inr id) => fresh id (lens_get l w) ∧ id ≠ ""
                | _ => True
                end;
  frame_bcrypt p : frames (GenerateFromPassword p);
  frame_sign k c : frames (SignedString k c);
  frame_parse k i t : frames (ParseWithClaims k i t);
  frame_rand n : frames (rand_Read n);
  frame_queue port n : notifications = Some port → frames (QueueNotification n);
  frame_track port r : objectRefs = Some port → frames (TrackObject r);
  frame_orphan port a b c : objectRefs = Some port → frames (OrphanObjectsFor a b c)
}.
Context `{!AuthEnvironment}.

Lemma frame_random : frames randomToken.
Proof using All.
intros w. unfold randomToken, wrap_err, map_err, mbind, M_bind. pose proof (frame_rand 32 w) as Hr.
by destruct (rand_Read 32 w) as [w' [e|bytes]].
Qed.

(** ** The specification: guarded steps of the identity store

    What a command may do to the store, one primitive write at a time and under
    which condition. *)

Definition well_keyed (s : IdentityStore) : Prop :=
  (∀ id u, usersByID s !! id = Some u → u_ID u = id) ∧
  (∀ id i, invitationsByID s !! id = Some i → inv_ID i = id) ∧
  (∀ id t, refreshByID s !! id = Some t → rt_ID t = id ∧ id ≠ "") ∧
  (∀ h id, refreshIDByHash s !! h = Some id → is_Some (refreshByID s !! id)).

Inductive auth_step (s : IdentityStore) : IdentityStore → Prop :=
  | step_edit u0 u s' :
      usersByID s !! u_ID u = Some u0 → u_Role u = u_Role u0 →
      u_AccessBlocked u = u_AccessBlocked u0 →
      memory_UpdateUser u s = (s', inr ()) → auth_step s s'
  | step_manage u0 u s' :
      usersByID s !! u_ID u = Some u0 → u_Role u0 ≠ RoleSuperAdmin → u_Role u ≠ RoleSuperAdmin →
      memory_UpdateUser u s = (s', inr ()) → auth_step s s'
  | step_delete id u0 s' :
      usersByID s !! id = Some u0 → u_Role u0 ≠ RoleSuperAdmin →
      memory_DeleteUser id s = (s', inr ()) → auth_step s s'
  | step_invite i s' :
      fresh (inv_ID i) s → inv_Role i ≠ RoleSuperAdmin →
      memory_CreateInvitation i s = (s', inr ()) → auth_step s s'
  | step_accept now1 now2 id i u s' :
      invitationsByID s !! id = Some i → u_Role u = inv_Role i → fresh (u_ID u) s →
      memory_AcceptInvitation now1 now2 id u s = (s', inr ()) → auth_step s s'
  | step_session t s' :
      fresh (rt_ID t) s → rt_ID t ≠ "" → memory_CreateRefreshToken t s = (s', inr ()) → auth_step s s'
  | step_rotate now old t s' :
      fresh (rt_ID t) s → rt_ID t ≠ "" → memory_RotateRefreshToken now old t s = (s', inr ()) → auth_step s s'
  | step_revoke now id : auth_step s (memory_RevokeRefreshToken now id s)
  | step_revoke_all now id : auth_step s (memory_RevokeAllRefreshTokens now id s)
  | step_reset r s' :
      fresh (pr_ID r) s → memory_CreatePasswordReset r s = (s', inr ()) → auth_step s s'
  | step_reset_used now id s' :
      memory_MarkPasswordResetUsed now id s = (s', inr ()) → auth_step s s'
  | step_invalidate now id : auth_step s (memory_InvalidatePendingPasswordResets now id s).

#[local] Ltac unfold_step :=
  unfold memory_UpdateUser, memory_DeleteUser, memory_CreateInvitation, memory_AcceptInvitation,
    memory_CreateRefreshToken, memory_RotateRefreshToken, memory_RevokeRefreshToken,
    memory_RevokeAllRefreshTokens, memory_CreatePasswordReset, memory_MarkPasswordResetUsed,
    memory_InvalidatePendingPasswordResets in *; repeat case_match; simplify_eq.

Lemma revoke_id now t : rt_ID (revoke now t) = rt_ID t.
Proof using Type. unfold revoke. by destruct (rt_RevokedAt t). Qed.

Lemma revoke_all_id now (userID : string) t : rt_ID (if rt_UserID t =s userID then revoke now t else t) = rt_ID t.
Proof using Type. case_match; [apply revoke_id|done]. Qed.

Lemma step_well_keyed s s' : auth_step s s' → well_keyed s → well_keyed s'.
Proof using Type.
intros Hstep (Hu & Hi & Ht & Hh). destruct Hstep; unfold_step; (split; [|split; [|split]]); intros k v; cbn;
  rewrite ?lookup_insert_Some, ?lookup_delete_Some, ?lookup_fmap_Some, ?lookup_alter_Some,
    ?lookup_insert_is_Some', ?lookup_fmap, ?lookup_alter_is_Some, ?fmap_is_Some;
  try (solve [auto]); intros Hkv; repeat destruct_or?; destruct_and?; simplify_eq/=; eauto.
- destruct_or?; destruct_and?; simplify_eq/=; [by apply (Ht _ _ H6)|eauto].
- match goal with H : ∃ _, _ |- _ => destruct H as (t & Ht' & ->) end. rewrite revoke_id. eauto.
- match goal with H : ∃ _, _ |- _ => destruct H as (t & <- & Ht') end. rewrite revoke_all_id. eauto.
Qed.

(** What is reachable from [s0] by guarded steps. *)
Definition reaches (s0 s : IdentityStore) : Prop := well_keyed s ∧ rtc auth_step s0 s.

Lemma reaches_step s0 s s' : reaches s0 s → auth_step s s' → reaches s0 s'.
Proof using Type.
intros [Hk Hr] Hs. split; [by eapply step_well_keyed|]. by eapply rtc_r.
Qed.

(** ** Triples over the identity store *)

Implicit Types I : IdentityStore → Prop.

Definition holds I (w : W) : Prop := I (lens_get l w).

Lemma frames_hoare {A} (m : M W A) I I0 :
  frames m → (∀ s, I s → I0 s) → hoare (holds I) m (λ _, holds I) (holds I0).
Proof using All.
intros Hf HI w Hw. specialize (Hf w). unfold holds in *.
destruct (m w) as [w' [e|a]]; cbn in Hf; rewrite Hf; auto.
Qed.

Lemma new_hoare I I0 : (∀ s, I s → I0 s) →
  hoare (holds I) NewString (λ id, holds (λ s, I s ∧ fresh id s ∧ id ≠ "")) (holds I0).
Proof using All.
intros HI w Hw. pose proof (frame_new w) as Hf. pose proof (new_fresh w) as Hn. unfold holds in *.
destruct (NewString w) as [w' [e|id]]; cbn in Hf; rewrite Hf; auto.
Qed.

(** A read: the value is what the store says. *)
Lemma read_hoare {A} (f : IdentityStore → error + A) I I0 : (∀ s, I s → I0 s) →
  hoare (holds I) (zoom l (λ s, (s, f s))) (λ a, holds (λ s, I s ∧ f s = inr a)) (holds I0).
Proof using All.
intros HI w Hw. unfold zoom, holds in *.
destruct (f (lens_get l w)) eqn:Hf; rewrite lens_get_set; auto.
Qed.

(** A write. *)
Lemma write_hoare {A} (m : M IdentityStore A) I I' I0 :
  (∀ s, I s → match m s with (s', inr _) => I' s' | (s', inl _) => I0 s' end) →
  hoare (holds I) (zoom l m) (λ _, holds I') (holds I0).
Proof using All.
intros Hm w Hw. unfold zoom, holds in *. specialize (Hm _ Hw).
destruct (m (lens_get l w)) as [s' [e|a]]; by rewrite lens_get_set.
Qed.

(** The primitive writes, each justified by a guarded step. *)
Lemma step_hoare (m : M IdentityStore ()) s0 I :
  (∀ s, I s → reaches s0 s) →
  (∀ s s', I s → m s = (s', inr ()) → auth_step s s') →
  (∀ s s' e, m s = (s', inl e) → s' = s) →
  hoare (holds I) (zoom l m) (λ _, holds (reaches s0)) (holds (reaches s0)).
Proof using All.
intros HI Hstep Herr. apply write_hoare. intros s Hs.
destruct (m s) as [s' [e|[]]] eqn:Hm; [by rewrite (Herr _ _ _ Hm); auto|].
eapply reaches_step; eauto.
Qed.

Lemma update_err u s s' e : memory_UpdateUser u s = (s', inl e) → s' = s.
Proof using Type. unfold memory_UpdateUser. intros. repeat case_match; by simplify_eq. Qed.
Lemma delete_err u s s' e : memory_DeleteUser u s = (s', inl e) → s' = s.
Proof using Type. unfold memory_DeleteUser. intros. repeat case_match; by simplify_eq. Qed.
Lemma invite_err u s s' e : memory_CreateInvitation u s = (s', inl e) → s' = s.
Proof using Type. unfold memory_CreateInvitation. intros. repeat case_match; by simplify_eq. Qed.
Lemma accept_err n1 n2 i u s s' e : memory_AcceptInvitation n1 n2 i u s = (s', inl e) → s' = s.
Proof using Type. unfold memory_AcceptInvitation. intros. repeat case_match; by simplify_eq. Qed.
Lemma session_err t s s' e : memory_CreateRefreshToken t s = (s', inl e) → s' = s.
Proof using Type. unfold memory_CreateRefreshToken. intros. repeat case_match; by simplify_eq. Qed.
Lemma rotate_err n i t s s' e : memory_RotateRefreshToken n i t s = (s', inl e) → s' = s.
Proof using Type. unfold memory_RotateRefreshToken. intros. repeat case_match; by simplify_eq. Qed.
Lemma reset_err t s s' e : memory_CreatePasswordReset t s = (s', inl e) → s' = s.
Proof using Type. unfold memory_CreatePasswordReset. intros. repeat case_match; by simplify_eq. Qed.
Lemma reset_used_err n t s s' e : memory_MarkPasswordResetUsed n t s = (s', inl e) → s' = s.
Proof using Type. unfold memory_MarkPasswordResetUsed. intros. repeat case_match; by simplify_eq. Qed.

(** The port, method by method. *)
Lemma get_user_hoare id I I0 : (∀ s, I s → I0 s) →
  hoare (holds I) (GetUserByID id) (λ u, holds (λ s, I s ∧ usersByID s !! id = Some u)) (holds I0).
Proof using All.
intros HI w Hw. unfold GetUserByID. cbn. unfold zoom, holds in *.
destruct (usersByID (lens_get l w) !! id) eqn:Hu; rewrite lens_get_set; auto.
Qed.

Lemma get_email_hoare email I I0 : (∀ s, I s → I0 s) →
  hoare (holds I) (GetUserByEmail email) (λ _, holds I) (holds I0).
Proof using All.
intros HI. eapply hoare_weaken; [by eapply (read_hoare (λ s, by_index _ _ _ _) I I0)|done| |done].
unfold holds. tauto.
Qed.

Lemma get_invitation_hoare h I I0 : (∀ s, I s → I0 s) →
  hoare (holds I) (GetInvitationByTokenHash h) (λ i, holds (λ s, I s ∧
    by_index (invitationIDByHash s) (invitationsByID s) zero_invitation h = inr i)) (holds I0).
Proof using All. apply (read_hoare (λ s, by_index _ _ _ _)). Qed.

Lemma get_refresh_hoare h I I0 : (∀ s, I s → I0 s) →
  hoare (holds I) (GetRefreshTokenByHash h) (λ _, holds I) (holds I0).
Proof using All.
intros HI. eapply hoare_weaken; [by eapply (read_hoare (λ s, by_index _ _ _ _) I I0)|done| |done].
unfold holds. tauto.
Qed.

Lemma get_refresh_value_hoare h I I0 : (∀ s, I s → I0 s) →
  hoare (holds I) (GetRefreshTokenByHash h) (λ t, holds (λ s, I s ∧
    by_index (refreshIDByHash s) (refreshByID s) zero_refresh h = inr t)) (holds I0).
Proof using All. apply (read_hoare (λ s, by_index _ _ _ _)). Qed.

Lemma get_reset_value_hoare h I I0 : (∀ s, I s → I0 s) →
  hoare (holds I) (GetPasswordResetByTokenHash h) (λ r, holds (λ s, I s ∧
    by_index (passwordResetByHash s) (passwordResetsByID s) zero_reset h = inr r)) (holds I0).
Proof using All. apply (read_hoare (λ s, by_index _ _ _ _)). Qed.

Lemma get_reset_hoare h I I0 : (∀ s, I s → I0 s) →
  hoare (holds I) (GetPasswordResetByTokenHash h) (λ _, holds I) (holds I0).
Proof using All.
intros HI. eapply hoare_weaken; [by eapply (read_hoare (λ s, by_index _ _ _ _) I I0)|done| |done].
unfold holds. tauto.
Qed.

Lemma edit_hoare u s0 I : (∀ s, I s → reaches s0 s) →
  (∀ s, I s → ∃ u0, usersByID s !! u_ID u = Some u0 ∧
     (u_Role u = u_Role u0 ∧ u_AccessBlocked u = u_AccessBlocked u0 ∨
      u_Role u0 ≠ RoleSuperAdmin ∧ u_Role u ≠ RoleSuperAdmin)) →
  hoare (holds I) (UpdateUser u) (λ _, holds (reaches s0)) (holds (reaches s0)).
Proof using All.
intros HI Hu. apply (step_hoare (memory_UpdateUser u) s0 I HI); [|apply update_err].
intros s s' Hs Hm. destruct (Hu s Hs) as (u0 & Hl & [[Hr Hb]|[Hr Hb]]).
- by eapply step_edit.
- by eapply step_manage.
Qed.

Lemma delete_hoare id s0 I : (∀ s, I s → reaches s0 s) →
  (∀ s, I s → ∃ u0, usersByID s !! id = Some u0 ∧ u_Role u0 ≠ RoleSuperAdmin) →
  hoare (holds I) (DeleteUser id) (λ _, holds (reaches s0)) (holds (reaches s0)).
Proof using All.
intros HI Hu. apply (step_hoare (memory_DeleteUser id) s0 I HI); [|apply delete_err].
intros s s' Hs Hm. destruct (Hu s Hs) as (u0 & Hl & Hr). by eapply step_delete.
Qed.

Lemma invite_hoare i s0 I : (∀ s, I s → reaches s0 s) →
  (∀ s, I s → fresh (inv_ID i) s) → inv_Role i ≠ RoleSuperAdmin →
  hoare (holds I) (CreateInvitation i) (λ _, holds (reaches s0)) (holds (reaches s0)).
Proof using All.
intros HI Hf Hr. apply (step_hoare (memory_CreateInvitation i) s0 I HI); [|apply invite_err].
intros s s' Hs Hm. eapply step_invite; auto.
Qed.

Lemma session_hoare t s0 I : (∀ s, I s → reaches s0 s) → (∀ s, I s → fresh (rt_ID t) s ∧ rt_ID t ≠ "") →
  hoare (holds I) (CreateRefreshToken t) (λ _, holds (reaches s0)) (holds (reaches s0)).
Proof using All.
intros HI Hf. apply (step_hoare (memory_CreateRefreshToken t) s0 I HI); [|apply session_err].
intros s s' Hs Hm. destruct (Hf s Hs). by eapply step_session.
Qed.

Lemma reset_hoare r s0 I : (∀ s, I s → reaches s0 s) → (∀ s, I s → fresh (pr_ID r) s) →
  hoare (holds I) (CreatePasswordReset r) (λ _, holds (reaches s0)) (holds (reaches s0)).
Proof using All.
intros HI Hf. apply (step_hoare (memory_CreatePasswordReset r) s0 I HI); [|apply reset_err].
intros s s' Hs Hm. eapply step_reset; auto.
Qed.

(** The methods that read the clock first. *)
Lemma timed_hoare (m : Time → M IdentityStore ()) s0 I : (∀ s, I s → reaches s0 s) →
  (∀ t, hoare (holds I) (zoom l (m t)) (λ _, holds (reaches s0)) (holds (reaches s0))) →
  hoare (holds I) (t ← Now; zoom l (m t)) (λ _, holds (reaches s0)) (holds (reaches s0)).
Proof using All.
intros HI Hm. eapply hoare_bind; [apply frames_hoare; [apply frame_now|exact HI]|]. exact Hm.
Qed.

Lemma modify_hoare f s0 I : (∀ s, I s → reaches s0 s) → (∀ s, auth_step s (f s)) →
  hoare (holds I) (zoom l (modify f)) (λ _, holds (reaches s0)) (holds (reaches s0)).
Proof using All.
intros HI Hf. apply (step_hoare (modify f) s0 I HI); [|done].
intros s s' Hs [= <-]. apply Hf.
Qed.

Lemma rotate_hoare old t s0 I : (∀ s, I s → reaches s0 s) → (∀ s, I s → fresh (rt_ID t) s ∧ rt_ID t ≠ "") →
  hoare (holds I) (RotateRefreshToken old t) (λ _, holds (reaches s0)) (holds (reaches s0)).
Proof using All.
intros HI Hf. apply (timed_hoare (λ now, memory_RotateRefreshToken now old t) s0 I HI). intros now.
apply (step_hoare (memory_RotateRefreshToken now old t) s0 I HI); [|apply rotate_err].
intros s s' Hs Hm. destruct (Hf s Hs) as [H1' H2']. exact (step_rotate s now old t s' H1' H2' Hm).
Qed.

Lemma revoke_hoare id s0 I : (∀ s, I s → reaches s0 s) →
  hoare (holds I) (RevokeRefreshToken id) (λ _, holds (reaches s0)) (holds (reaches s0)).
Proof using All. intros HI. apply timed_hoare; [done|]. intros t. apply modify_hoare; [done|]. intros s. apply step_revoke. Qed.

Lemma revoke_all_hoare id s0 I : (∀ s, I s → reaches s0 s) →
  hoare (holds I) (RevokeAllRefreshTokens id) (λ _, holds (reaches s0)) (holds (reaches s0)).
Proof using All. intros HI. apply timed_hoare; [done|]. intros t. apply modify_hoare; [done|]. intros s. apply step_revoke_all. Qed.

Lemma invalidate_hoare id s0 I : (∀ s, I s → reaches s0 s) →
  hoare (holds I) (InvalidatePendingPasswordResets id) (λ _, holds (reaches s0)) (holds (reaches s0)).
Proof using All. intros HI. apply timed_hoare; [done|]. intros t. apply modify_hoare; [done|]. intros s. apply step_invalidate. Qed.

Lemma reset_used_hoare id s0 I : (∀ s, I s → reaches s0 s) →
  hoare (holds I) (MarkPasswordResetUsed id) (λ _, holds (reaches s0)) (holds (reaches s0)).
Proof using All.
intros HI. apply timed_hoare; [done|]. intros t.
apply (step_hoare (memory_MarkPasswordResetUsed t id) s0 I HI); [|apply reset_used_err].
intros s s' Hs Hm. by eapply step_reset_used.
Qed.

Lemma accept_hoare id u s0 I : (∀ s, I s → reaches s0 s) →
  (∀ s, I s → fresh (u_ID u) s ∧ ∃ i, invitationsByID s !! id = Some i ∧ u_Role u = inv_Role i) →
  hoare (holds I) (AcceptInvitation id u) (λ _, holds (reaches s0)) (holds (reaches s0)).
Proof using All.
intros HI Hf. unfold AcceptInvitation. cbn.
eapply hoare_bind; [apply frames_hoare; [apply frame_now|exact HI]|]. intros t1.
eapply hoare_bind; [apply frames_hoare; [apply frame_now|exact HI]|]. intros t2.
apply (step_hoare (memory_AcceptInvitation t1 t2 id u) s0 I HI); [|apply accept_err].
intros s s' Hs Hm. destruct (Hf s Hs) as (Hfr & i & Hi & Hr). by eapply step_accept.
Qed.
(** ** The commands

    [keeps m]: wherever [m] stops, returning or failing, the store is reached by
    guarded steps. *)

Definition keeps {A} (m : M W A) : Prop :=
  ∀ s0, hoare (holds (reaches s0)) m (λ _, holds (reaches s0)) (holds (reaches s0)).

#[local] Ltac side := unfold holds; intros; first [tauto|destruct_and?; auto].
#[local] Ltac frame :=
  apply frames_hoare;
    [first [apply frame_now|apply frame_new|apply frame_bcrypt|apply frame_sign|apply frame_parse
           |apply frame_random|by apply frame_queue|by apply frame_track|by apply frame_orphan]
    |side].
#[local] Ltac prim :=
  first [apply new_hoare; side|frame|apply get_user_hoare; side|apply get_email_hoare; side
        |apply get_invitation_hoare; side|apply get_refresh_hoare; side|apply get_reset_hoare; side
        |apply revoke_hoare; side|apply revoke_all_hoare; side|apply invalidate_hoare; side
        |apply reset_used_hoare; side].
#[local] Ltac step :=
  repeat apply hoare_map_err;
  first [apply hoare_ret; side|apply hoare_throw; side|prim
        |eapply hoare_bind; [repeat apply hoare_map_err; prim|intros ?]].
#[local] Ltac steps := repeat (step || case_match).

Lemma queue_keeps recipient kind payload I I0 : (∀ s, I s → I0 s) →
  hoare (holds I) (queue_email notifications recipient kind payload) (λ _, holds I) (holds I0).
Proof using All.
intros HI. unfold queue_email. destruct notifications as [port|] eqn:Hport.
- eapply hoare_bind; [apply frames_hoare; [apply frame_new|exact HI]|intros id].
  eapply hoare_bind; [apply frames_hoare; [apply frame_now|exact HI]|intros now].
  apply frames_hoare; [by apply frame_queue|exact HI].
- by apply hoare_ret.
Qed.

Lemma new_user_hoare email password name role now I I0 : (∀ s, I s → I0 s) →
  hoare (holds I) (newUser email password name role now)
    (λ u, holds (λ s, I s ∧ fresh (u_ID u) s ∧ u_Role u = role ∧ u_AccessBlocked u = false)) (holds I0).
Proof using All.
intros HI. unfold newUser. case_match; [apply hoare_throw; unfold holds; by auto|].
eapply hoare_bind; [apply hoare_map_err, frames_hoare; [apply frame_bcrypt|exact HI]|intros hash].
eapply hoare_bind; [apply (new_hoare I I0 HI)|intros id]. apply hoare_ret. unfold holds. cbn. tauto.
Qed.

Lemma issue_hoare user replaced s0 I : (∀ s, I s → reaches s0 s) →
  hoare (holds I) (issueSession config user replaced) (λ _, holds (reaches s0)) (holds (reaches s0)).
Proof using All.
intros HI. unfold issueSession.
do 3 (eapply hoare_bind; [repeat apply hoare_map_err; apply frames_hoare; [first [apply frame_now|apply frame_sign|apply frame_random]|exact HI]|intros ?]).
eapply hoare_bind; [apply (new_hoare I _ HI)|intros id].
eapply hoare_bind; [apply frames_hoare; [apply frame_new|side]|intros family].
eapply (hoare_bind _ _ _ (λ _, holds (reaches s0))); [|intros; by apply hoare_ret]. apply hoare_map_err. case_match.
- apply session_hoare; cbn; side.
- apply rotate_hoare; cbn; side.
Qed.

Lemma login_keeps email password : keeps (Login config email password).
Proof using All.
intros s0. unfold Login. step. case_match; [step|]. by apply issue_hoare.
Qed.

Lemma refresh_keeps raw : keeps (Refresh config raw).
Proof using All.
intros s0. unfold Refresh. step. case_match; [step|]. step. case_match; [step|].
step. case_match; [step|]. apply issue_hoare. side.
Qed.
Lemma logout_keeps raw : keeps (Logout raw).
Proof using All.
intros s0. unfold Logout. apply (hoare_bind _ _ _ (λ _, holds (reaches s0))).
- apply hoare_catch. eapply hoare_weaken; [apply (get_refresh_hoare _ (reaches s0) (reaches s0))|..]; side.
- intros [e|t]; [by apply hoare_ret|]. apply revoke_hoare. side.
Qed.

Lemma invite_keeps actor email role : keeps (Invite config notifications actor email role).
Proof using All.
intros s0. unfold Invite. case_match; [step|]. case_match; [step|]. step. step. step.
case_match; [step|]. eapply hoare_bind; [apply hoare_map_err, invite_hoare|intros ?].
- side.
- cbn. side.
- cbn. apply orb_false_iff in H3 as [_ Hr%String.eqb_neq]. exact Hr.
- eapply hoare_bind; [apply hoare_map_err, queue_keeps; side|intros ?]. step.
Qed.

Lemma accept_keeps raw password name : keeps (AcceptInvitation_service raw password name).
Proof using All.
intros s0. unfold AcceptInvitation_service. step. case_match; [step|]. step. case_match; [step|]. step.
eapply hoare_bind; [apply hoare_map_err, new_user_hoare; side|intros u].
eapply hoare_bind; [apply hoare_map_err, (accept_hoare _ _ s0)|intros ?; step]; [side|].
intros s ([[Hk Hr] Hidx] & Hf & Hrole & _). split; [done|]. unfold by_index in Hidx.
destruct (invitationIDByHash s !! _) as [id|]; [|done]. injection Hidx as Hi.
destruct (invitationsByID s !! id) as [i|] eqn:Hl; cbn in Hi; subst a; [|done].
destruct Hk as (_ & Hk & _). rewrite (Hk _ _ Hl). eauto.
Qed.

Lemma authenticate_keeps raw : keeps (AuthenticateAccessToken config raw).
Proof using All.
intros s0. unfold AuthenticateAccessToken. steps.
Qed.

Lemma edit_keeps {A} userID u s0 (k : M W A) I : 
  (∀ s, I s → reaches s0 s) →
  (∀ s, I s → ∃ u0, usersByID s !! userID = Some u0 ∧ u_ID u = u_ID u0 ∧
     (u_Role u = u_Role u0 ∧ u_AccessBlocked u = u_AccessBlocked u0 ∨
      u_Role u0 ≠ RoleSuperAdmin ∧ u_Role u ≠ RoleSuperAdmin)) →
  hoare (holds (reaches s0)) k (λ _, holds (reaches s0)) (holds (reaches s0)) →
  hoare (holds I) (UpdateUser u ;; k) (λ _, holds (reaches s0)) (holds (reaches s0)).
Proof using All.
intros HI Hu Hk. eapply hoare_bind; [apply (edit_hoare u s0 I HI)|intros ?; exact Hk].
intros s Hs. destruct (Hu s Hs) as (u0 & Hl & Hid & Hr). exists u0. split; [|exact Hr].
destruct (HI s Hs) as [[Hkey ?] _]. by rewrite Hid, (Hkey _ _ Hl).
Qed.

Lemma profile_keeps userID name email e a : keeps (UpdateProfile userID name email e a).
Proof using All.
intros s0. unfold UpdateProfile. step. step. case_match; [step|].
eapply (edit_keeps userID); [side| |step].
intros s [_ Hl]. eexists. split; [exact Hl|]. split; [done|]. left. done.
Qed.
#[local] Ltac same_role :=
  intros ? ?; destruct_and?; eexists; split; [eassumption|]; split; [done|]; left; done.

Lemma preferences_keeps userID preferences : keeps (UpdateNotificationPreferences userID preferences).
Proof using All.
intros s0. unfold UpdateNotificationPreferences. step. step.
eapply (edit_keeps userID); [side|same_role|step].
Qed.

Lemma password_keeps userID current password : keeps (ChangePassword userID current password).
Proof using All.
intros s0. unfold ChangePassword. step. case_match; [step|]. case_match; [step|]. step. step.
eapply (edit_keeps userID); [side|same_role|]. do 2 step.
Qed.

Lemma request_reset_keeps email : keeps (RequestPasswordReset config notifications email).
Proof using All.
intros s0. unfold RequestPasswordReset. apply (hoare_bind _ _ _ (λ _, holds (reaches s0))).
{ apply hoare_catch. eapply hoare_weaken; [apply (get_email_hoare _ (reaches s0) (reaches s0))|..]; side. }
intros [e|u]; [step|]. case_match; [step|]. step. step. step.
eapply hoare_bind; [apply hoare_map_err, (reset_hoare _ s0); cbn; side|intros ?].
apply queue_keeps. side.
Qed.

Lemma reset_keeps raw password : keeps (ResetPassword raw password).
Proof using All.
intros s0. unfold ResetPassword. step. case_match; [step|]. step. case_match; [step|].
case_match; [step|]. step. case_match; [step|]. step. step.
eapply (edit_keeps (pr_UserID a)); [side|same_role|]. do 3 step.
Qed.

Lemma get_profile_keeps userID : keeps (GetProfile userID).
Proof using All.
intros s0. unfold GetProfile, or_error. apply hoare_map_err.
eapply hoare_weaken; [apply (get_user_hoare _ (reaches s0) (reaches s0))|..]; side.
Qed.

Lemma image_keeps userID key : keeps (UpdateProfileImage objectRefs userID key).
Proof using All.
intros s0. unfold UpdateProfileImage. step. case_match; [step|]. step.
eapply (edit_keeps userID); [side|same_role|].
apply (hoare_bind _ _ _ (λ _, holds (reaches s0))); [|intros ?; step].
destruct objectRefs as [port|] eqn:Hport; [|step].
eapply hoare_bind; [apply hoare_map_err; frame|intros ?]. case_match; [|step]. apply hoare_map_err. frame.
Qed.

Lemma manage_keeps actor userID role blocked : keeps (ManageUser notifications actor userID role blocked).
Proof using All.
intros s0. unfold ManageUser. case_match; [step|]. step. case_match; [step|]. case_match; [step|]. step.
apply orb_false_iff in H4 as [Hr0%String.eqb_neq Hr%String.eqb_neq].
eapply (edit_keeps userID); [side| |].
{ intros s [_ Hl]. eexists. split; [exact Hl|]. split; [done|]. right. done. }
apply (hoare_bind _ _ _ (λ _, holds (reaches s0))); [|intros ?; step].
case_match; [|step]. apply hoare_map_err, queue_keeps. side.
Qed.

Lemma remove_keeps actor userID : keeps (DeleteUser_service objectRefs actor userID).
Proof using All.
intros s0. unfold DeleteUser_service. case_match; [step|]. step. case_match; [step|].
apply String.eqb_neq in H4. apply (hoare_bind _ _ _ (λ _, holds (reaches s0))).
- apply (delete_hoare userID s0); [side|]. intros s [_ Hl]. eauto.
- intros ?. destruct objectRefs as [port|] eqn:Hport; [|step]. apply hoare_map_err. frame.
Qed.

(** Every call of the service, and what it does whether it returns or fails. *)
Inductive AuthCommand :=
  | CmdLogin (email password : string)
  | CmdRefresh (rawToken : string)
  | CmdLogout (rawToken : string)
  | CmdInvite (actor : AppUser) (email : string) (role : UserRole)
  | CmdAcceptInvitation (rawToken password displayName : string)
  | CmdAuthenticate (rawToken : string)
  | CmdUpdateProfile (userID displayName email : string) (wantsEmail aiEnabled : bool)
  | CmdUpdatePreferences (userID : string) (preferences : gmap string bool)
  | CmdChangePassword (userID currentPassword newPassword : string)
  | CmdRequestPasswordReset (email : string)
  | CmdResetPassword (rawToken newPassword : string)
  | CmdGetProfile (userID : string)
  | CmdUpdateProfileImage (userID objectKey : string)
  | CmdManageUser (actor : AppUser) (userID : string) (role : UserRole) (blocked : bool)
  | CmdDeleteUser (actor : AppUser) (userID : string).

Definition ignore {A} (m : M W A) : M W () := r ← catch m; mret ().

Definition run_command (c : AuthCommand) : M W () :=
  match c with
  | CmdLogin email password => ignore (Login config email password)
  | CmdRefresh raw => ignore (Refresh config raw)
  | CmdLogout raw => ignore (Logout raw)
  | CmdInvite actor email role => ignore (Invite config notifications actor email role)
  | CmdAcceptInvitation raw password name => ignore (AcceptInvitation_service raw password name)
  | CmdAuthenticate raw => ignore (AuthenticateAccessToken config raw)
  | CmdUpdateProfile id name email e a => ignore (UpdateProfile id name email e a)
  | CmdUpdatePreferences id prefs => ignore (UpdateNotificationPreferences id prefs)
  | CmdChangePassword id current new => ignore (ChangePassword id current new)
  | CmdRequestPasswordReset email => ignore (RequestPasswordReset config notifications email)
  | CmdResetPassword raw new => ignore (ResetPassword raw new)
  | CmdGetProfile id => ignore (GetProfile id)
  | CmdUpdateProfileImage id key => ignore (UpdateProfileImage objectRefs id key)
  | CmdManageUser actor id role blocked => ignore (ManageUser notifications actor id role blocked)
  | CmdDeleteUser actor id => ignore (DeleteUser_service objectRefs actor id)
  end.

Lemma ignore_keeps {A} (m : M W A) : keeps m → keeps (ignore m).
Proof using Type.
intros Hm s0. apply (hoare_bind _ _ _ (λ _, holds (reaches s0))); [|intros ?; by apply hoare_ret].
apply hoare_catch. eapply hoare_weaken; [apply (Hm s0)|..]; auto.
Qed.

Lemma command_keeps c : keeps (run_command c).
Proof using All.
destruct c; apply ignore_keeps.
- apply login_keeps.
- apply refresh_keeps.
- apply logout_keeps.
- apply invite_keeps.
- apply accept_keeps.
- apply authenticate_keeps.
- apply profile_keeps.
- apply preferences_keeps.
- apply password_keeps.
- apply request_reset_keeps.
- apply reset_keeps.
- apply get_profile_keeps.
- apply image_keeps.
- apply manage_keeps.
- apply remove_keeps.
Qed.

Definition run_commands (cs : list AuthCommand) : M W () := for_each run_command cs.

Lemma commands_reach cs w : well_keyed (lens_get l w) →
  reaches (lens_get l w) (lens_get l (run_commands cs w).1).
Proof using All.
intros Hk. pose proof (hoare_for_each run_command cs (holds (reaches (lens_get l w)))
  (holds (reaches (lens_get l w))) (λ c _, command_keeps c _) w (conj Hk (rtc_refl _ _))) as Hr.
unfold holds, run_commands in *. by destruct (for_each run_command cs w) as [w' [e|[]]].
Qed.
(** ** What guarded steps preserve *)

Definition super_admin (s : IdentityStore) (id : string) : Prop :=
  ∃ u, usersByID s !! id = Some u ∧ active_super_admin u = true.

Definition no_super_invitation (s : IdentityStore) : Prop :=
  ∀ id i, invitationsByID s !! id = Some i → inv_Role i ≠ RoleSuperAdmin.

Lemma not_super u : u_Role u ≠ RoleSuperAdmin → active_super_admin u = false.
Proof using Type. intros Hr. unfold active_super_admin. by rewrite (eqs_ne _ _ Hr). Qed.

(** Writing a user that is a super-administrator exactly when the one it
    replaces is one. *)
Lemma super_insert s s' k u :
  usersByID s' = <[k := u]> (usersByID s) →
  (super_admin s k ↔ active_super_admin u = true) → ∀ id, super_admin s' id ↔ super_admin s id.
Proof using Type.
intros Hs Hu id. unfold super_admin in *. rewrite Hs. destruct (decide (k = id)) as [<-|Hne].
- rewrite Hu, lookup_insert_eq. naive_solver.
- by rewrite lookup_insert_ne.
Qed.

Lemma super_some s k u : usersByID s !! k = Some u → super_admin s k ↔ active_super_admin u = true.
Proof using Type. unfold super_admin. intros ->. naive_solver. Qed.

Lemma super_none s k : usersByID s !! k = None → ¬ super_admin s k.
Proof using Type. unfold super_admin. intros ->. naive_solver. Qed.

Lemma update_users u s s' : memory_UpdateUser u s = (s', inr ()) →
  usersByID s' = <[u_ID u := u]> (usersByID s) ∧ invitationsByID s' = invitationsByID s.
Proof using Type. unfold memory_UpdateUser. intros. repeat case_match; by simplify_eq. Qed.

Lemma step_super s s' : auth_step s s' → no_super_invitation s →
  no_super_invitation s' ∧ ∀ id, super_admin s' id ↔ super_admin s id.
Proof using Type.
intros Hstep Hn. destruct Hstep as [u0 u s' Hl Hr Hb Hm|u0 u s' Hl Hr0 Hr Hm|id u0 s' Hl Hr Hm|i s' Hf Hr Hm
  |n1 n2 id i u s' Hl Hr Hf Hm| | | | | | | ].
- destruct (update_users _ _ _ Hm) as [Hu Hi]. split; [by unfold no_super_invitation; rewrite Hi|].
  apply (super_insert s s' _ _ Hu). rewrite (super_some _ _ _ Hl). unfold active_super_admin. by rewrite Hr, Hb.
- destruct (update_users _ _ _ Hm) as [Hu Hi]. split; [by unfold no_super_invitation; rewrite Hi|].
  apply (super_insert s s' _ _ Hu). rewrite (super_some _ _ _ Hl). by rewrite !not_super.
- unfold memory_DeleteUser in Hm. rewrite Hl in Hm. simplify_eq. split; [exact Hn|]. intros k.
  unfold super_admin. cbn. setoid_rewrite lookup_delete_Some. split; [naive_solver|].
  intros (u & Hk & Ha). exists u. repeat split; [|done|done]. intros <-. simplify_eq.
  by rewrite (not_super _ Hr) in Ha.
- unfold memory_CreateInvitation in Hm. case_match; [done|]. simplify_eq. split; [|done].
  intros k j. cbn. rewrite lookup_insert_Some. intros [[_ <-]|[_ ?]]; [done|by eapply Hn].
- unfold memory_AcceptInvitation in Hm. rewrite Hl in Hm. repeat case_match; try done. simplify_eq. split.
  + intros k j. cbn. rewrite lookup_insert_Some. intros [[<- <-]|[_ ?]]; [|by eapply Hn]. cbn. by eapply Hn.
  + apply (super_insert s _ (u_ID u) u); [done|]. destruct Hf as [Hf _]. split.
    * intros Hs. by destruct (super_none _ _ Hf).
    * rewrite not_super; [done|]. rewrite Hr. by eapply Hn.
- unfold_step; done.
- unfold_step; done.
- done.
- done.
- unfold_step; done.
- unfold_step; done.
- done.
Qed.

(** The token a hash leads to is revoked. *)
Definition revoked (s : IdentityStore) (h : string) : Prop :=
  ∃ id t, refreshIDByHash s !! h = Some id ∧ refreshByID s !! id = Some t ∧ live (rt_RevokedAt t) = false.

Lemma revoke_not_live now t : live (rt_RevokedAt (revoke now t)) = false.
Proof using Type. unfold revoke. by destruct (rt_RevokedAt t) eqn:Ht; cbn; rewrite ?Ht. Qed.

Lemma revoke_if_not_live now (b : bool) t : live (rt_RevokedAt t) = false →
  live (rt_RevokedAt (if b then revoke now t else t)) = false.
Proof using Type. intros Ht. destruct b; [apply revoke_not_live|done]. Qed.

Lemma step_revoked s s' h : auth_step s s' → revoked s h → revoked s' h.
Proof using Type.
intros Hstep (id & t & Hh & Ht & Hrev).
assert (∀ t', refreshByID s !! rt_ID t' = None → rt_ID t' ≠ id) as Hfr by (intros ? Hn <-; by rewrite Hn in Ht).
destruct Hstep as [| | | | |t' s' Hf _ Hm|now old t' s' Hf _ Hm|now k|now k| | | ];
  unfold_step; try (by exists id, t); unfold revoked; cbn.
- exists id, t. destruct Hf as (_ & Hf & _). rewrite !lookup_insert_ne; [done|by apply Hfr|congruence].
- destruct Hf as (_ & Hf & _). exists id, t. rewrite !lookup_insert_ne; [done| |by apply Hfr|congruence].
  intros ->. simplify_eq. by rewrite Hrev in *.
- destruct (decide (k = id)) as [->|Hne].
  + exists id, (revoke now t). rewrite lookup_alter_eq, Ht. split; [done|]. split; [done|]. apply revoke_not_live.
  + exists id, t. by rewrite lookup_alter_ne.
- exists id. rewrite lookup_fmap, Ht. eexists. split; [done|]. split; [done|]. by apply revoke_if_not_live.
Qed.

Lemma steps_revoked s s' h : rtc auth_step s s' → revoked s h → revoked s' h.
Proof using Type. induction 1; [done|]. intros Hr. eapply IHrtc, step_revoked; done. Qed.

Lemma refresh_revoked raw w : revoked (lens_get l w) (tokenHash raw) →
  (Refresh config raw w).2 = inl ErrUnauthorized.
Proof using All.
intros (id & t & Hh & Ht & Hrev). unfold Refresh, or_error, map_err, mbind, M_bind. cbn. unfold zoom, by_index.
rewrite Hh. cbn. rewrite Ht. cbn. by destruct (rt_RevokedAt t).
Qed.
Lemma rotate_revokes now id t t' s s' u h : refreshIDByHash s !! h = Some id → refreshByID s !! id = Some t →
  fresh (rt_ID t') s → memory_RotateRefreshToken now id t' s = (s', inr u) → revoked s' h.
Proof using Type.
intros Hh Ht (_ & Hf & _) Hm. assert (rt_ID t' ≠ id) as Hne by (intros <-; by rewrite Hf in Ht).
unfold memory_RotateRefreshToken in Hm. rewrite Ht in Hm. repeat case_match; try done. simplify_eq.
unfold revoked. cbn. exists id. rewrite lookup_insert_ne by congruence. rewrite lookup_insert_ne by done.
rewrite lookup_insert_eq. eauto.
Qed.

Lemma refresh_lookup s h t : well_keyed s →
  by_index (refreshIDByHash s) (refreshByID s) zero_refresh h = inr t →
  refreshIDByHash s !! h = Some (rt_ID t) ∧ refreshByID s !! rt_ID t = Some t ∧ rt_ID t ≠ "".
Proof using Type.
intros (_ & _ & Hid & Hh) Hidx. unfold by_index in Hidx.
destruct (refreshIDByHash s !! h) as [id|] eqn:Hl; [|done]. destruct (Hh _ _ Hl) as [t' Ht'].
rewrite Ht' in Hidx. cbn in Hidx. simplify_eq. by destruct (Hid _ _ Ht') as [-> ?].
Qed.

(** A rotation leaves the presented token revoked. *)
Lemma refresh_marks raw w w' session : well_keyed (lens_get l w) →
  Refresh config raw w = (w', inr session) → revoked (lens_get l w') (tokenHash raw).
Proof using All.
intros Hk Hrun. set (h := tokenHash raw).
assert (hoare (holds (λ s, s = lens_get l w)) (Refresh config raw) (λ _, holds (λ s, revoked s h))
  (λ _, True)) as Ht; [|specialize (Ht w eq_refl); by rewrite Hrun in Ht].
clear Hrun. set (E := holds (λ _, True)). change (λ _ : W, True) with E. unfold Refresh.
eapply hoare_bind; [apply hoare_map_err, get_refresh_value_hoare; done|intros t]. cbn beta.
case_match; [by apply hoare_throw|].
eapply hoare_bind; [apply frames_hoare; [apply frame_now|done]|intros now]. cbn beta.
case_match; [by apply hoare_throw|].
eapply hoare_bind; [apply hoare_map_err, get_user_hoare; done|intros user]. cbn beta.
case_match; [by apply hoare_throw|]. unfold issueSession.
do 3 (eapply hoare_bind; [repeat apply hoare_map_err; apply frames_hoare;
  [first [apply frame_now|apply frame_sign|apply frame_random]|done]|intros ?]; cbn beta).
eapply hoare_bind; [apply new_hoare; done|intros id]; cbn beta.
eapply hoare_bind; [apply frames_hoare; [apply frame_new|done]|intros ?]; cbn beta.
apply (hoare_bind _ _ _ (λ _, holds (λ s, revoked s h))); [|intros ?; by apply hoare_ret].
apply hoare_map_err. case_match.
- intros w1 (([-> Hidx] & _) & _). apply (refresh_lookup _ _ _ Hk) in Hidx as (_ & _ & Hne).
  by apply String.eqb_eq in H6.
- eapply hoare_bind; [apply frames_hoare; [apply frame_now|done]|intros now']. cbn beta.
  apply write_hoare. intros s (([-> Hidx] & _) & Hf & _). apply (refresh_lookup _ _ _ Hk) in Hidx as (Hh & Ht & Hne).
  destruct (memory_RotateRefreshToken now' (rt_ID t) _) as [s2 [e|u]] eqn:Hm; [done|]. by eapply rotate_revokes; [exact Hh|exact Ht| |exact Hm].
Qed.
(** A reset that returns has revoked the user's tokens and used up the user's
    resets. *)
Definition locked_out (s : IdentityStore) (userID : string) : Prop :=
  (∀ id t, refreshByID s !! id = Some t → rt_UserID t = userID → live (rt_RevokedAt t) = false) ∧
  (∀ id r, passwordResetsByID s !! id = Some r → pr_UserID r = userID → live (pr_UsedAt r) = false).

Lemma lock_out now1 now2 userID s :
  locked_out (memory_RevokeAllRefreshTokens now2 userID
    (memory_InvalidatePendingPasswordResets now1 userID s)) userID.
Proof using Type.
split; intros k v; cbn; rewrite lookup_fmap_Some; intros (x & <- & Hx) Hu.
- case_match eqn:He; [apply revoke_not_live|]. by rewrite Hu, eqs_refl in He.
- unfold use_reset in *. destruct (pr_UserID x =s userID) eqn:He; cbn in *.
  + by destruct (live (pr_UsedAt x)) eqn:Hl.
  + by rewrite Hu, eqs_refl in He.
Qed.

Lemma close_hoare I userID :
  hoare (holds I) (wrap_err "invalidate pending password resets" (InvalidatePendingPasswordResets userID);;
    RevokeAllRefreshTokens userID) (λ _, holds (λ s, locked_out s userID)) (holds (λ _, True)).
Proof using All.
set (mid := λ s, ∃ now s0, I s0 ∧ s = memory_InvalidatePendingPasswordResets now userID s0).
apply (hoare_bind _ _ _ (λ _, holds mid)).
- apply hoare_map_err. eapply hoare_bind; [apply frames_hoare; [apply frame_now|done]|intros now]. cbn beta.
  apply write_hoare. intros s Hs. exists now, s. eauto.
- intros ?. eapply hoare_bind; [apply frames_hoare; [apply frame_now|done]|intros now]. cbn beta.
  apply write_hoare. intros s (now0 & s0 & _ & ->). apply lock_out.
Qed.
Lemma reset_locks raw password w w' : well_keyed (lens_get l w) →
  ResetPassword raw password w = (w', inr ()) →
  ∃ r, by_index (passwordResetByHash (lens_get l w)) (passwordResetsByID (lens_get l w)) zero_reset
    (tokenHash raw) = inr r ∧ locked_out (lens_get l w') (pr_UserID r).
Proof using All.
intros Hk Hrun. set (s0 := lens_get l w).
assert (hoare (holds (λ s, s = s0)) (ResetPassword raw password)
  (λ _, holds (λ s, ∃ r, by_index (passwordResetByHash s0) (passwordResetsByID s0) zero_reset
    (tokenHash raw) = inr r ∧ locked_out s (pr_UserID r))) (holds (λ _, True))) as Ht;
  [|specialize (Ht w eq_refl); by rewrite Hrun in Ht].
clear Hrun. unfold ResetPassword.
eapply hoare_bind; [apply hoare_map_err, get_reset_value_hoare; done|intros r]. cbn beta.
case_match; [by apply hoare_throw|].
eapply hoare_bind; [apply frames_hoare; [apply frame_now|done]|intros now]. cbn beta.
case_match; [by apply hoare_throw|]. case_match; [by apply hoare_throw|].
eapply hoare_bind; [apply hoare_map_err, get_user_hoare; done|intros user]. cbn beta.
case_match; [by apply hoare_throw|].
eapply hoare_bind; [apply hoare_map_err, frames_hoare; [apply frame_bcrypt|done]|intros hash]. cbn beta.
eapply hoare_bind; [apply frames_hoare; [apply frame_now|done]|intros now2]. cbn beta.
set (known := by_index (passwordResetByHash s0) (passwordResetsByID s0) zero_reset (tokenHash raw) = inr r ∧
  u_ID user = pr_UserID r).
apply (hoare_bind _ _ _ (λ _, holds (λ _, known))).
{ apply write_hoare. intros s [[-> Hr] Hu]. case_match. case_match; [done|]. split; [exact Hr|].
  destruct Hk as [Hk _]. by apply (Hk _ _ Hu). }
intros ?. apply (hoare_bind _ _ _ (λ _, holds (λ _, known))).
{ apply hoare_map_err. eapply hoare_bind; [apply frames_hoare; [apply frame_now|done]|intros now3]. cbn beta.
  apply write_hoare. intros s Hs. case_match. by case_match. }
intros ? w0 [Hr Hid]. pose proof (close_hoare (λ _, True) (u_ID user) w0 Logic.I) as Hc.
case_match. case_match; [done|]. exists r. split; [exact Hr|]. by rewrite <- Hid.
Qed.

Lemma locked_out_revoked s userID h id t : locked_out s userID → refreshIDByHash s !! h = Some id →
  refreshByID s !! id = Some t → rt_UserID t = userID → revoked s h.
Proof using Type. intros [Hl _] Hh Ht Hu. exists id, t. eauto. Qed.

(** ** The start of the service *)

Lemma bootstrap_hoare s0 : well_keyed s0 → no_super_invitation s0 →
  hoare (holds (λ s, s = s0)) (EnsureBootstrapSuperAdmin config)
    (λ _, holds (λ s, well_keyed s ∧ no_super_invitation s ∧ ∃ id, super_admin s id)) (holds (λ _, True)).
Proof using All.
intros Hk Hn. unfold EnsureBootstrapSuperAdmin.
set (count s := Z.of_nat (length (range_values active_super_admin (usersByID s)))).
eapply (hoare_bind _ _ _ (λ n, holds (λ s, s = s0 ∧ n = count s0))).
{ apply hoare_map_err. intros w Hw. unfold holds in Hw. unfold CountSuperAdmins. cbn. unfold zoom, holds. by rewrite lens_get_set, Hw. }
intros n. case_match eqn:Hc.
{ apply hoare_ret. intros w [Hw ->]. unfold holds in *. rewrite Hw. split; [done|]. split; [done|].
  unfold count in Hc. destruct (range_values _ _) as [|u us] eqn:Hus; [done|].
  assert (u ∈ range_values active_super_admin (usersByID s0)) as Hu by (rewrite Hus; left).
  apply range_values_elem in Hu as [Ha [id Hl]]. exists id, u. done. }
case_match; [by apply hoare_throw|].
eapply hoare_bind; [apply frames_hoare; [apply frame_now|done]|intros now]. cbn beta.
eapply hoare_bind; [apply new_user_hoare; done|intros u]. cbn beta.
apply hoare_map_err, write_hoare. intros s ([-> _] & Hf & Hr & Hb). unfold memory_CreateUser.
do 2 (case_decide; [done|]). destruct Hk as (Hu & Hi & Ht & Hh). split.
- split; [|done]. intros id v. cbn. rewrite lookup_insert_Some. intros [[<- <-]|[_ ?]]; auto.
- split; [exact Hn|]. exists (u_ID u), u. cbn. rewrite lookup_insert_eq. split; [done|].
  unfold active_super_admin. by rewrite Hr, Hb.
Qed.

Lemma steps_super s s' : rtc auth_step s s' → no_super_invitation s →
  no_super_invitation s' ∧ ∀ id, super_admin s' id ↔ super_admin s id.
Proof using Type.
induction 1 as [|s1 s2 s3 Hstep _ IH]; [done|]. intros Hn.
destruct (step_super _ _ Hstep Hn) as [Hn2 H12]. destruct (IH Hn2) as [Hn3 H23]. split; [exact Hn3|].
intros id. by rewrite H23.
Qed.

(** ** The theorems *)

(** [C19] Whatever sequence of calls the authentication service receives, and
    however they fail, everything it does to the identity repository is a
    sequence of the guarded primitive steps of the specification: roles change
    only away from and never to super-admin, users are created only from an
    invitation with that invitation's role, and ids are never reused. *)
Theorem service_refines_guarded_steps cs w : well_keyed (lens_get l w) →
  rtc auth_step (lens_get l w) (lens_get l (run_commands cs w).1).
Proof using All. intros Hk. apply (commands_reach cs w Hk). Qed.

(** No call of the service makes or unmakes a super-administrator: in a
    store without super-admin invitations, the unblocked super-administrators
    after any calls are exactly those before. *)
Theorem super_admins_fixed cs w id : well_keyed (lens_get l w) → no_super_invitation (lens_get l w) →
  super_admin (lens_get l (run_commands cs w).1) id ↔ super_admin (lens_get l w) id.
Proof using All.
intros Hk Hn. destruct (commands_reach cs w Hk) as [_ Hr]. apply (steps_super _ _ Hr Hn).
Qed.

(** Once the start-up check of the service has succeeded, there is an
    unblocked super-administrator, and there is one after any calls. *)
Theorem bootstrap_never_lost w w' cs : well_keyed (lens_get l w) → no_super_invitation (lens_get l w) →
  EnsureBootstrapSuperAdmin config w = (w', inr ()) →
  ∃ id, super_admin (lens_get l (run_commands cs w').1) id.
Proof using All.
intros Hk Hn Hrun. pose proof (bootstrap_hoare _ Hk Hn w eq_refl) as Hb. rewrite Hrun in Hb.
destruct Hb as (Hk' & Hn' & id & Hid). exists id. destruct (commands_reach cs w' Hk') as [_ Hr].
by apply (steps_super _ _ Hr Hn').
Qed.

(** A refresh token works once: after a refresh with it has succeeded, and
    whatever else the service did since, presenting it again is unauthorized. *)
Theorem refresh_token_single_use raw cs w w' session : well_keyed (lens_get l w) →
  Refresh config raw w = (w', inr session) →
  (Refresh config raw (run_commands cs w').1).2 = inl ErrUnauthorized.
Proof using All.
intros Hk Hrun. pose proof (refresh_marks _ _ _ _ Hk Hrun) as Hrev.
pose proof (refresh_keeps raw _ w (conj Hk (rtc_refl _ _))) as Hkeep. rewrite Hrun in Hkeep.
destruct Hkeep as [Hk' _]. apply refresh_revoked.
eapply steps_revoked; [apply (commands_reach cs w' Hk')|exact Hrev].
Qed.

(** [C26] A password reset closes every other way in: after it succeeds, each
    refresh token the user held is unauthorized for good, and each reset of
    that user, the presented one included, is used up. *)
Theorem reset_closes_sessions raw password cs w w' : well_keyed (lens_get l w) →
  ResetPassword raw password w = (w', inr ()) →
  ∃ r, by_index (passwordResetByHash (lens_get l w)) (passwordResetsByID (lens_get l w)) zero_reset
    (tokenHash raw) = inr r ∧
  (∀ id r', passwordResetsByID (lens_get l w') !! id = Some r' → pr_UserID r' = pr_UserID r →
     pr_UsedAt r' ≠ None) ∧
  (∀ raw' id t, refreshIDByHash (lens_get l w') !! tokenHash raw' = Some id →
     refreshByID (lens_get l w') !! id = Some t → rt_UserID t = pr_UserID r →
     (Refresh config raw' (run_commands cs w').1).2 = inl ErrUnauthorized).
Proof using All.
intros Hk Hrun. destruct (reset_locks _ _ _ _ Hk Hrun) as (r & Hr & Hl).
pose proof (reset_keeps raw password _ w (conj Hk (rtc_refl _ _))) as Hkeep. rewrite Hrun in Hkeep.
destruct Hkeep as [Hk' _]. exists r. split; [exact Hr|]. split.
- intros id r' Hid Hu Hn. destruct Hl as [_ Hl]. specialize (Hl _ _ Hid Hu). by rewrite Hn in Hl.
- intros raw' id t Hh Ht Hu. apply refresh_revoked.
  eapply steps_revoked; [apply (commands_reach cs w' Hk')|by eapply locked_out_revoked].
Qed.
End Safety.

(** ** A sample environment

    The store alone is the state; a clock at rest; the first unused id of a
    numbered supply; a hash that is visibly a hash. *)

Module Sample.
#[local] Existing Instance default_runtime.

Definition numbered (prefix : string) (n : nat) : string := prefix +:+ String.concat "" (repeat "1" n).

Definition is_fresh (id : string) (s : IdentityStore) : bool :=
  match usersByID s !! id, refreshByID s !! id, invitationsByID s !! id, passwordResetsByID s !! id with
  | None, None, None, None => true
  | _, _, _, _ => false
  end.

Definition population (s : IdentityStore) : nat :=
  length (map_to_list (usersByID s)) + length (map_to_list (refreshByID s)) +
  length (map_to_list (invitationsByID s)) + length (map_to_list (passwordResetsByID s)).

#[global] Instance sample_env : Env IdentityStore := {|
  Now := mret 1000;
  NewString := λ s, let id := numbered "id" (population s) in
    if is_fresh id s then (s, inr id) else (s, inl (ErrorsNew "no id"))
|}.

#[global] Instance sample_crypto : Crypto IdentityStore := {|
  CompareHashAndPassword hash password := hash =s ("hash of " +:+ password);
  GenerateFromPassword password := mret ("hash of " +:+ password);
  SignedString key claims := mret (cl_Subject claims +:+ " signed");
  ParseWithClaims key issuer token := throw (ErrorsNew "invalid token");
  rand_Read n := λ s, (s, inr (repeat (Z.of_nat (population s)) n));
  sha256_Sum256 token := map (λ c, Z.of_nat (Ascii.nat_of_ascii c)) (String.list_ascii_of_string token)
|}.

#[global] Instance sample_environment : AuthEnvironment id_lens None None.
Proof.
split; try done.
- intros w. cbn. unfold frames. cbn. by case_match.
- intros w. cbn -[numbered]. destruct (is_fresh _ w) eqn:Hf; [|done]. split; [|done].
  unfold is_fresh in Hf. unfold fresh. cbn -[numbered]. by repeat case_match.
Qed.

Definition config : AuthConfig :=
  mkAuthConfig "a secret of at least thirty-two bytes" "billpiggy" 900 2592000 604800 3600
    "root@example.com" "correct horse battery" "".

Definition ann : AppUser :=
  mkAppUser "ann" "ann@example.com" "hash of swordfish-123" "Ann" "" RoleMember false true ∅ true 0 0.

Definition store : IdentityStore :=
  NewIdentityRepository <| usersByID := {["ann" := ann]} |> <| userIDByEmail := {["ann@example.com" := "ann"]} |>.

#[local] Existing Instance memory_IdentityRepository.
#[local] Instance sample_identity : IdentityRepository IdentityStore := memory_IdentityRepository id_lens.

Lemma store_keyed : well_keyed store.
Proof.
split; [intros id u; cbn; rewrite lookup_singleton_Some; by intros [<- <-]|].
split; [intros id i; cbn; by rewrite lookup_empty|].
split; [intros id t; cbn; by rewrite lookup_empty|intros h id; cbn; by rewrite lookup_empty].
Qed.

Lemma store_invitations : no_super_invitation store.
Proof. intros id i. cbn. by rewrite lookup_empty. Qed.

(** Ann logs in, twice, and asks for a reset. *)
Definition setup : list AuthCommand :=
  [CmdLogin "ann@example.com" "swordfish-123"; CmdLogin "Ann@example.com" "swordfish-123";
   CmdRequestPasswordReset "ann@example.com"].

Definition busy : IdentityStore := (run_commands id_lens config None None setup store).1.

Lemma busy_keyed : well_keyed busy.
Proof. apply (commands_reach id_lens config None None setup store store_keyed). Qed.

Lemma service_refines_guarded_steps_witness :
  well_keyed store ∧ rtc auth_step store busy.
Proof.
split; [exact store_keyed|].
exact (service_refines_guarded_steps id_lens config None None setup store store_keyed).
Defined.

Definition promote : list AuthCommand :=
  [CmdManageUser (ann <| u_Role := RoleAdmin |>) "ann" RoleSuperAdmin false;
   CmdInvite (ann <| u_Role := RoleAdmin |>) "eve@example.com" RoleSuperAdmin].

Lemma super_admins_fixed_witness :
  well_keyed store ∧ no_super_invitation store ∧
  (super_admin (run_commands id_lens config None None promote store).1 "ann" ↔ super_admin store "ann").
Proof.
split; [exact store_keyed|]. split; [exact store_invitations|].
exact (super_admins_fixed id_lens config None None promote store "ann" store_keyed store_invitations).
Defined.

Definition started : IdentityStore := (EnsureBootstrapSuperAdmin config store).1.

Lemma bootstrap_never_lost_witness :
  EnsureBootstrapSuperAdmin config store = (started, inr ()) ∧
  ∃ id, super_admin (run_commands id_lens config None None setup started).1 id.
Proof.
assert (EnsureBootstrapSuperAdmin config store = (started, inr ())) as Hrun by (vm_compute; reflexivity).
split; [exact Hrun|].
exact (bootstrap_never_lost id_lens config None None store started setup store_keyed store_invitations Hrun).
Defined.

(** The refresh token of the first login. *)
Definition first_token : string :=
  match Login config "ann@example.com" "swordfish-123" store with
  | (_, inr session) => SessionRefreshToken session
  | _ => ""
  end.

Definition refreshed : IdentityStore := (Refresh config first_token busy).1.
Definition refreshed_session : Session :=
  match Refresh config first_token busy with (_, inr session) => session | _ => mkSession "" 0 "" 0 end.

Lemma refresh_token_single_use_witness :
  Refresh config first_token busy = (refreshed, inr refreshed_session) ∧
  (Refresh config first_token (run_commands id_lens config None None setup refreshed).1).2 = inl ErrUnauthorized.
Proof.
assert (Refresh config first_token busy = (refreshed, inr refreshed_session)) as Hrun by (vm_compute; reflexivity).
split; [exact Hrun|].
exact (refresh_token_single_use id_lens config None None first_token setup busy refreshed refreshed_session
  busy_keyed Hrun).
Defined.

Definition logged_in : IdentityStore := (run_commands id_lens config None None
  [CmdLogin "ann@example.com" "swordfish-123"; CmdLogin "ann@example.com" "swordfish-123"] store).1.

Definition reset_token : string :=
  match randomToken logged_in with (_, inr token) => token | _ => "" end.

Definition reset_store : IdentityStore := (ResetPassword reset_token "a new password" busy).1.

Definition first_id : string := default "" (refreshIDByHash reset_store !! tokenHash first_token).
Definition first_refresh : RefreshToken := default zero_refresh (refreshByID reset_store !! first_id).

Lemma reset_closes_sessions_witness :
  ResetPassword reset_token "a new password" busy = (reset_store, inr ()) ∧
  (Refresh config first_token (run_commands id_lens config None None setup reset_store).1).2
    = inl ErrUnauthorized.
Proof.
assert (ResetPassword reset_token "a new password" busy = (reset_store, inr ())) as Hrun
  by (vm_compute; reflexivity).
split; [exact Hrun|].
destruct (reset_closes_sessions id_lens config None None reset_token "a new password" setup busy reset_store
  busy_keyed Hrun) as (r & Hr & _ & Hrefresh).
assert (pr_UserID r = "ann") as Hu.
{ transitivity (match by_index (passwordResetByHash busy) (passwordResetsByID busy) zero_reset
    (tokenHash reset_token) with inr r => pr_UserID r | inl _ => "" end);
    [cbn in Hr; cbn; by rewrite Hr|by vm_compute]. }
rewrite Hu in Hrefresh. refine (Hrefresh first_token first_id first_refresh _ _ _); vm_compute; reflexivity.
Defined.
End Sample.
