(* ===== verification/World.v ===== *)
(** * The service in one process (memoryStores in src/cmd/billpiggy/main.go)

    All in-memory adapters side by side, the ports they implement, and the unit
    of work over the ones that can be rolled back.  The clock and the random
    identifiers are part of the state: any sequence of readings and any supply
    of identifiers, so that a theorem about every world is a theorem about
    every run. *)

From S2P Require Export Prelude GoTime GoStrings Domain Json UnitOfWork EventStore AnalyticsProjection.
From S2P Require Export Ports Memory MemoryStores IdentityStore.
#[global] Open Scope Z_scope.

Record World := mkWorld {
  w_expenses : ExpenseStore;
  w_budgets : BudgetStore;
  w_analytics : AnalyticsState;
  w_usage : UsageStore;
  w_audit : AuditStore;
  w_notifications : NotificationStore;
  w_references : ReferenceStore;
  w_taxonomy : TaxonomyStore;
  w_reports : ReportStore;
  w_payments : PaymentStore;
  w_events : EventStore.EventStore;
  w_groups : GroupStore;
  w_identity : IdentityStore;
  w_requests : list AIRequestRecord;
  w_objects : ObjectMap;
  w_clock : nat → Time;
  w_ticks : nat;
  w_ids : nat → string;
  w_drawn : nat
}.
#[export] Instance eta_World : Eta World := λ r,
  mkWorld (w_expenses r) (w_budgets r) (w_analytics r) (w_usage r) (w_audit r) (w_notifications r)
    (w_references r) (w_taxonomy r) (w_reports r) (w_payments r) (w_events r) (w_groups r)
    (w_identity r) (w_requests r) (w_objects r) (w_clock r) (w_ticks r) (w_ids r) (w_drawn r).

(** ** The adapters' parts of the state *)

Definition L_expenses : Lens World ExpenseStore :=
  {| lens_get := w_expenses; lens_set s w := w <| w_expenses := s |> |}.
Definition L_budgets : Lens World BudgetStore :=
  {| lens_get := w_budgets; lens_set s w := w <| w_budgets := s |> |}.
Definition L_analytics : Lens World AnalyticsState :=
  {| lens_get := w_analytics; lens_set s w := w <| w_analytics := s |> |}.
Definition L_usage : Lens World UsageStore :=
  {| lens_get := w_usage; lens_set s w := w <| w_usage := s |> |}.
Definition L_audit : Lens World AuditStore :=
  {| lens_get := w_audit; lens_set s w := w <| w_audit := s |> |}.
Definition L_notifications : Lens World NotificationStore :=
  {| lens_get := w_notifications; lens_set s w := w <| w_notifications := s |> |}.
Definition L_references : Lens World ReferenceStore :=
  {| lens_get := w_references; lens_set s w := w <| w_references := s |> |}.
Definition L_taxonomy : Lens World TaxonomyStore :=
  {| lens_get := w_taxonomy; lens_set s w := w <| w_taxonomy := s |> |}.
Definition L_reports : Lens World ReportStore :=
  {| lens_get := w_reports; lens_set s w := w <| w_reports := s |> |}.
Definition L_payments : Lens World PaymentStore :=
  {| lens_get := w_payments; lens_set s w := w <| w_payments := s |> |}.
Definition L_events : Lens World EventStore.EventStore :=
  {| lens_get := w_events; lens_set s w := w <| w_events := s |> |}.
Definition L_groups : Lens World GroupStore :=
  {| lens_get := w_groups; lens_set s w := w <| w_groups := s |> |}.
Definition L_identity : Lens World IdentityStore :=
  {| lens_get := w_identity; lens_set s w := w <| w_identity := s |> |}.
Definition L_requests : Lens World (list AIRequestRecord) :=
  {| lens_get := w_requests; lens_set s w := w <| w_requests := s |> |}.
Definition L_objects : Lens World ObjectMap :=
  {| lens_get := w_objects; lens_set s w := w <| w_objects := s |> |}.

(** The clock and the identifier source. *)
#[export] Instance world_Env : Env World := {|
  Now w := (w <| w_ticks ::= S |>, inr (w_clock w (w_ticks w)));
  NewString w := (w <| w_drawn ::= S |>, inr (w_ids w (w_drawn w)))
|}.

(** ** The ports *)

Section Ports.
Context `{GoRuntime}.

#[export] Instance world_expenses : ExpenseRepository World := memory_ExpenseRepository L_expenses.
#[export] Instance world_budgets : BudgetRepository World := memory_BudgetRepository L_budgets.
#[export] Instance world_usage : BudgetUsageRepository World :=
  memory_BudgetUsageRepository L_budgets L_usage.
#[export] Instance world_audit : AuditRepository World := memory_AuditRepository L_audit.
#[export] Instance world_groups : GroupRepository World := memory_GroupRepository L_groups.
#[export] Instance world_taxonomy : TaxonomyRepository World := memory_TaxonomyRepository L_taxonomy.
#[export] Instance world_references : ObjectReferenceRepository World :=
  memory_ObjectReferenceRepository L_references.
#[export] Instance world_notifications : NotificationRepository World :=
  memory_NotificationRepository L_notifications.
#[export] Instance world_payments : ScheduledPaymentRepository World :=
  memory_ScheduledPaymentRepository L_payments.
#[export] Instance world_identity : IdentityRepository World := memory_IdentityRepository L_identity.
#[export] Instance world_reports : ReportRepository World := memory_ReportRepository L_reports.
#[export] Instance world_requests : AIRequestRepository World := memory_AIRequestRepository L_requests.
#[export] Instance world_objects : ObjectStore World := memory_ObjectStore L_objects.
#[export] Instance world_reader : AnalyticsReader World :=
  {| ListExpenseRollups f := zoom L_analytics (gets (memory_ListExpenseRollups f)) |}.
#[export] Instance world_log : EventLog World := {| Append e := zoom L_events (EventStore.Append e) |}.
End Ports.

(** ** The unit of work, its participants in main.go's order *)

Definition participants : list (Snapshotter World) :=
  [copy_snapshot L_expenses; copy_snapshot L_budgets; copy_snapshot L_analytics; copy_snapshot L_usage;
   Audit_Snapshot L_audit; copy_snapshot L_notifications; copy_snapshot L_references;
   copy_snapshot L_taxonomy; copy_snapshot L_reports; copy_snapshot L_payments;
   EventStore_Snapshot L_events].

#[export] Instance world_unit : UnitOfWork World := memory_UnitOfWork participants.

(** What a failed unit leaves behind: every participant's part as before, and
    nothing else undone. *)
Lemma restored saved w : let w' := restore_all participants saved w in
  w_expenses w' = w_expenses saved ∧ w_budgets w' = w_budgets saved ∧
  w_analytics w' = w_analytics saved ∧ w_usage w' = w_usage saved ∧
  w_notifications w' = w_notifications saved ∧ w_references w' = w_references saved ∧
  w_taxonomy w' = w_taxonomy saved ∧ w_reports w' = w_reports saved ∧ w_payments w' = w_payments saved ∧
  as_entries (w_audit w') = as_entries (w_audit saved) ∧
  es_events (w_events w') = es_events (w_events saved) ∧
  w_groups w' = w_groups w ∧ w_identity w' = w_identity w.
Proof. by repeat split. Qed.

(** The rules for a unit: the callback's postcondition on success; on failure
    what held before, with what the failed callback left, survives the restore. *)
Lemma hoare_within_frame {A} (P F : World → Prop) (fn : Ctx → M World A) Q E :
  hoare P (fn true) Q F →
  (∀ saved w, P saved → F w → E (restore_all participants saved w)) →
  hoare P (Within background fn) Q E.
Proof using Type.
intros Hfn HE w Hw. unfold Within, world_unit, memory_UnitOfWork, memory_Within, background.
specialize (Hfn w Hw). destruct (fn true w) as [w' [e|a]]; auto.
Qed.

Lemma hoare_within {A} (P : World → Prop) (fn : Ctx → M World A) Q E :
  hoare P (fn true) Q (λ _, True) →
  (∀ saved w, P saved → E (restore_all participants saved w)) →
  hoare P (Within background fn) Q E.
Proof using Type. intros Hfn HE. eapply hoare_within_frame; [exact Hfn|auto]. Qed.

(** ** A world to run examples in: empty adapters, a clock that ticks once a
    second and numbered identifiers *)

Module Sample.
Definition sample_id (n : nat) : string := "id" +:+ String.concat "" (repeat "1" n).

Definition empty_world : World := mkWorld ∅ ∅ NewAnalyticsRepository (mkUsageStore ∅ ∅)
  (mkAuditStore [] ∅ 0) ∅ ∅ (mkTaxonomyStore ∅ ∅) (mkReportStore ∅ ∅) (mkPaymentStore ∅ ∅)
  NewEventStore ∅ NewIdentityRepository [] ∅
  (λ n, 63000000000 * Second + Z.of_nat n * Second) 0 sample_id 0.
(** A run's outcome gives the run. *)
Lemma run_is {W A} (r : W * A) a : r.2 = a → r = (r.1, a).
Proof. destruct r. by intros <-. Qed.

(** Numbered identifiers are distinct. *)
Lemma sample_id_inj n m : sample_id n = sample_id m → n = m.
Proof.
assert (∀ k, String.length (String.concat "" (repeat "1" k)) = k) as Hlen.
{ intros k. induction k as [|k IH]; [done|]. destruct k; [done|]. exact (f_equal S IH). }
intros Heq%(f_equal String.length). change (S (S (String.length (String.concat "" (repeat "1" n)))) =
  S (S (String.length (String.concat "" (repeat "1" m))))) in Heq. rewrite !Hlen in Heq. lia.
Qed.
End Sample.
