(* ===== verification/Expenses.v ===== *)
(** * Expenses (src/internal/core/service/expenses.go)

    Commands on expenses, each an event appended to the log and a write to the
    expense projection in one unit of work, and the owner- and viewer-scoped
    reads.  The optional collaborators of the service are [option]s. *)

From S2P Require Export Prelude GoTime GoStrings Domain UnitOfWork Ports.
#[global] Open Scope Z_scope.

Definition ErrInvalidExpense : error := Sentinel "ErrInvalidExpense" "invalid expense".

Definition maxExpenseTitleLength : Z := 200.
Definition maxCategoryNameLength : Z := 100.
Definition maxAddressLength : Z := 300.
Definition maxExpenseItems : Z := 100.
Definition maxItemTitleLength : Z := 200.
Definition maxAmountMinor : Z := 100000000000.

Definition ObjectResourceExpenseReceipt : string := "expense_receipt".

(** [UpdateExpenseCommand] is the same type. *)
Record CreateExpenseCommand := mkCreateExpenseCommand {
  c_Title : string; c_Currency : string; c_CategoryID : string; c_CategoryName : string;
  c_SharedGroupID : string; c_Address : string; c_ReceiptObjectKey : string; c_AmountMinor : Z;
  c_OccurredAt : Time; c_TagIDs : list string; c_Status : ExpenseStatus;
  c_Items : list ExpenseItem; c_Latitude : option float64; c_Longitude : option float64
}.

Definition is_nil {A} (p : option A) : bool := match p with None => true | Some _ => false end.

Definition invalid_item (item : ExpenseItem) : bool :=
  (maxItemTitleLength <? len (it_Title item)) || (it_AmountMinor item <? 0) ||
  (maxAmountMinor <? it_AmountMinor item).

Definition validateExpense (expense : ExpenseRecord) : option error :=
  if (ex_OwnerID expense =s "") || (ex_Title expense =s "") || (ex_AmountMinor expense <? 0) ||
     negb (len (ex_Currency expense) =? 3) || IsZero (ex_OccurredAt expense)
  then Some ErrInvalidExpense
  else if (maxExpenseTitleLength <? len (ex_Title expense)) ||
          (maxCategoryNameLength <? len (ex_CategoryName expense)) ||
          (maxAddressLength <? len (ex_Address expense))
  then Some ErrInvalidExpense
  else if maxAmountMinor <? ex_AmountMinor expense then Some ErrInvalidExpense
  else if maxExpenseItems <? Z.of_nat (length (ex_Items expense)) then Some ErrInvalidExpense
  else if existsb invalid_item (ex_Items expense) then Some ErrInvalidExpense
  else if negb (str_in (ex_Status expense)
                  [ExpenseDraft; ExpenseConfirmed; ExpenseShared; ExpenseReimbursed])
  then Some ErrInvalidExpense
  else if xorb (is_nil (ex_Latitude expense)) (is_nil (ex_Longitude expense))
  then Some ErrInvalidExpense
  else None.

(** [if err := check; err != nil { return err }]. *)
Definition check {W} (e : option error) : M W () :=
  match e with Some e => throw e | None => mret () end.

Section Expenses.
Context `{GoRuntime} {W : Type} `{Env W} `{ExpenseRepository W} `{EventLog W} `{UnitOfWork W}.
Context (objectRefs : option (ObjectReferenceRepository W)).
Context (groups : option (GroupRepository W)).
Context (taxonomy : option (TaxonomyRepository W)).

Definition validateOwnership (ownerID categoryID : string) (tagIDs : list string) : M W () :=
  match taxonomy with
  | None => mret ()
  | Some port =>
      (if categoryID ≠s "" then
         categories ← wrap_err "list categories" (ListCategories ownerID);
         if existsb (λ category, cat_ID category =s categoryID) categories then mret ()
         else throw ErrForbidden
       else mret ());;
      if 0 <? Z.of_nat (length tagIDs) then
        tags ← wrap_err "list tags" (ListTags ownerID);
        if forallb (λ tagID, str_in tagID (map tag_ID tags)) tagIDs then mret ()
        else throw ErrForbidden
      else mret ()
  end.

Definition visibleGroupIDs (viewer : AppUser) : M W (list string) :=
  match groups with
  | None => mret []
  | Some port =>
      groups ← ListVisibleGroups (u_ID viewer) (u_Role viewer =s RoleSuperAdmin);
      mret (map ug_ID groups)
  end.

Definition newExpenseEvent (eventType aggregateID actorID : string) (payload : EventPayload)
    (occurredAt : Time) : M W DomainEvent :=
  id ← NewString;
  mret (mkDomainEvent id "expense" aggregateID eventType payload (UnixMilli occurredAt) actorID).

Definition append_expense_event (eventType aggregateID actorID : string) (payload : EventPayload)
    (occurredAt : Time) : M W () :=
  event ← newExpenseEvent eventType aggregateID actorID payload occurredAt;
  Append event.

Definition default_status (expense : ExpenseRecord) : ExpenseRecord :=
  if ex_Status expense =s "" then expense <| ex_Status := ExpenseConfirmed |> else expense.

Definition CreateExpense_service (ctx : Ctx) (ownerID : string) (command : CreateExpenseCommand)
    : M W ExpenseRecord :=
  now ← Now;
  id ← NewString;
  let expense := default_status (mkExpenseRecord id ownerID (TrimSpace (c_Title command))
    (c_AmountMinor command) (ToUpper (TrimSpace (c_Currency command))) (c_OccurredAt command)
    (c_CategoryID command) (TrimSpace (c_CategoryName command)) (c_TagIDs command)
    (c_Status command) (c_SharedGroupID command) (c_Items command) (c_Latitude command)
    (c_Longitude command) (TrimSpace (c_Address command)) (c_ReceiptObjectKey command) now now None) in
  check (validateExpense expense);;
  validateOwnership ownerID (ex_CategoryID expense) (ex_TagIDs expense);;
  Within ctx (λ ctx,
    wrap_err "append expense_added"
      (append_expense_event "expense_added" (ex_ID expense) ownerID (ExpenseAdded expense) now);;
    wrap_err "create expense projection" (CreateExpense expense));;
  mret expense.

(** The assignments of [UpdateExpense]; the receipt key is left untouched. *)
Definition edit_expense (command : CreateExpenseCommand) (now : Time) (expense : ExpenseRecord)
    : ExpenseRecord :=
  default_status (mkExpenseRecord (ex_ID expense) (ex_OwnerID expense) (TrimSpace (c_Title command))
    (c_AmountMinor command) (ToUpper (TrimSpace (c_Currency command))) (c_OccurredAt command)
    (c_CategoryID command) (TrimSpace (c_CategoryName command)) (c_TagIDs command)
    (c_Status command) (c_SharedGroupID command) (c_Items command) (c_Latitude command)
    (c_Longitude command) (TrimSpace (c_Address command)) (ex_ReceiptObjectKey expense)
    (ex_CreatedAt expense) now (ex_DeletedAt expense)).

Definition UpdateExpense_service (ctx : Ctx) (ownerID expenseID : string)
    (command : CreateExpenseCommand) : M W ExpenseRecord :=
  expense ← map_err (λ _, ErrNotFound) (GetExpense ownerID expenseID);
  now ← Now;
  let expense := edit_expense command now expense in
  check (validateExpense expense);;
  validateOwnership ownerID (ex_CategoryID expense) (ex_TagIDs expense);;
  Within ctx (λ ctx,
    wrap_err "append expense_updated" (append_expense_event "expense_updated" (ex_ID expense) ownerID
      (ExpenseUpdated expense) (ex_UpdatedAt expense));;
    wrap_err "update expense projection" (UpdateExpense expense));;
  mret expense.

Definition DeleteExpense_service (ctx : Ctx) (ownerID expenseID : string) : M W () :=
  map_err (λ _, ErrNotFound) (GetExpense ownerID expenseID);;
  now ← Now;
  Within ctx (λ ctx,
    wrap_err "append expense_removed" (append_expense_event "expense_removed" expenseID ownerID
      (ExpenseRemoved expenseID ownerID now) now);;
    wrap_err "delete expense projection" (DeleteExpense ownerID expenseID);;
    match objectRefs with
    | None => mret ()
    | Some port => wrap_err "orphan receipt for deleted expense"
        (OrphanObjectsFor ObjectResourceExpenseReceipt expenseID "")
    end).

Definition AttachReceipt (ctx : Ctx) (ownerID expenseID objectKey : string) : M W ExpenseRecord :=
  expense ← map_err (λ _, ErrNotFound) (GetExpense ownerID expenseID);
  if TrimSpace objectKey =s "" then throw ErrInvalidExpense
  else
    let previousKey := ex_ReceiptObjectKey expense in
    now ← Now;
    let expense := expense <| ex_ReceiptObjectKey := objectKey |> <| ex_UpdatedAt := now |> in
    Within ctx (λ ctx,
      append_expense_event "expense_updated" (ex_ID expense) ownerID (ExpenseUpdated expense)
        (ex_UpdatedAt expense);;
      UpdateExpense expense;;
      match objectRefs with
      | None => mret ()
      | Some port =>
          wrap_err "track receipt object" (TrackObject
            (mkObjectReference objectKey ownerID ObjectResourceExpenseReceipt expenseID "" 0));;
          if (previousKey ≠s "") && (previousKey ≠s objectKey)
          then wrap_err "orphan previous receipt"
                 (OrphanObjectsFor ObjectResourceExpenseReceipt expenseID objectKey)
          else mret ()
      end);;
    mret expense.

(** ** Reads *)

Definition ListExpenses_service (filter : ExpenseListFilter) : M W (list ExpenseRecord) :=
  if lf_OwnerID filter =s "" then throw ErrForbidden
  else
    let filter := if (lf_Limit filter <=? 0) || (100 <? lf_Limit filter)
                  then filter <| lf_Limit := 25 |> else filter in
    ListExpenses filter.

Definition GetExpense_service (ownerID expenseID : string) : M W ExpenseRecord :=
  map_err (λ _, ErrNotFound) (GetExpense ownerID expenseID).

Definition ListExpensesForViewer (viewer : AppUser) (filter : ExpenseListFilter)
    : M W (list ExpenseRecord) :=
  groupIDs ← visibleGroupIDs viewer;
  ListExpenses_service (filter <| lf_OwnerID := u_ID viewer |> <| lf_SharedGroupIDs := groupIDs |>).

Definition GetExpenseForViewer (viewer : AppUser) (expenseID : string) : M W ExpenseRecord :=
  groupIDs ← visibleGroupIDs viewer;
  map_err (λ _, ErrNotFound) (GetExpenseVisible (u_ID viewer) expenseID groupIDs).
End Expenses.
