(* ===== verification/ExpenseLog.v ===== *)
(** * Expenses: the log and the projection agree

    In one process with the in-memory adapters (World), every command of the
    expense service is one atomic step: it appends exactly one event and
    applies that event to the projection, or it changes neither. *)

From S2P Require Export Prelude GoTime GoStrings Domain UnitOfWork EventStore Ports Memory World Expenses.
#[global] Open Scope Z_scope.

(** ** Replaying the log *)

Definition replay_payload (s : ExpenseStore) (p : EventPayload) : ExpenseStore :=
  match p with
  | ExpenseAdded e | ExpenseUpdated e => <[ex_ID e := e]> s
  | ExpenseRemoved id _ _ => alter (λ e, e <| ex_DeletedAt := Some (ex_UpdatedAt e) |>) id s
  | _ => s
  end.

Definition replay (events : list DomainEvent) : ExpenseStore :=
  foldl (λ s ev, replay_payload s (ev_Payload ev)) ∅ events.

Lemma replay_app events ev : replay (events ++ [ev]) = replay_payload (replay events) (ev_Payload ev).
Proof. unfold replay. by rewrite foldl_app. Qed.

Lemma alter_insert_same {A} (f : A → A) (m : gmap string A) i x : m !! i = Some x → alter f i m = <[i := f x]> m.
Proof.
intros Hx. apply map_eq. intros j. destruct (decide (i = j)) as [<-|Hne].
- by rewrite lookup_alter_eq, lookup_insert_eq, Hx.
- by rewrite lookup_alter_ne, lookup_insert_ne.
Qed.

Section Log.
Context `{GoRuntime}.

(** ** Triples over the projection and the log *)

(** The projection is [s] and the log is [es]. *)
Definition state_is (s : ExpenseStore) (es : list DomainEvent) (w : World) : Prop :=
  w_expenses w = s ∧ Events (w_events w) = es.

(** Operations that leave the projection and the log alone. *)
#[local] Notation untouched m := (keeps (λ w, (w_expenses w, w_events w)) m).

Lemma untouched_hoare {A} (m : M World A) s es :
  untouched m → hoare (state_is s es) m (λ _, state_is s es) (state_is s es).
Proof using Type.
intros Hm w [Hs Hes]. injection (Hm w) as H1 H2. unfold state_is in *.
destruct (m w) as [w' [e|a]]; cbn in *; by rewrite H1, H2.
Qed.

Lemma keeps_ownership {T} (f : World → T) owner category tags : (∀ w t, f (w <| w_taxonomy := t |>) = f w) →
  keeps f (validateOwnership (Some world_taxonomy) owner category tags).
Proof using Type.
intros Hf. unfold validateOwnership, wrap_err. apply keeps_bind.
- case_match; [|done]. apply keeps_bind; [apply keeps_map_err; by intros w; apply Hf|]. intros cs. by case_match.
- intros ?. case_match; [|done]. apply keeps_bind; [apply keeps_map_err; by intros w; apply Hf|]. intros ts. by case_match.
Qed.

(** What [EventStore.Append] does to the log. *)
Lemma append_events ev s s' : EventStore.Append ev s = (s', inr ()) → Events s' = Events s ++ [ev].
Proof using Type.
unfold EventStore.Append. case_match; [done|]. intros [= <-].
unfold Events. assert (∀ subs b st s, es_events (foldl (queue_delivery b st) s subs) = es_events s) as Hq.
{ induction subs as [|x xs IH]; intros; [done|]. cbn. by rewrite IH. }
rewrite Hq. cbn. by rewrite map_app.
Qed.

Lemma append_hoare ty id actor p t s es :
  hoare (state_is s es) (append_expense_event ty id actor p t)
    (λ _ w, ∃ ev, ev_Payload ev = p ∧ state_is s (es ++ [ev]) w) (λ _, True).
Proof using Type.
intros w [Hs Hes]. unfold append_expense_event, newExpenseEvent, mbind, M_bind. cbn.
unfold zoom. cbn.
destruct (EventStore.Append _ (w_events w)) as [st [e|[]]] eqn:Ha; [done|].
apply append_events in Ha. eexists. split; [|split; [exact Hs|cbn; rewrite Ha, Hes; reflexivity]]. done.
Qed.
(** ** The commands *)

Inductive ExpenseCommand :=
  | CmdCreate (ownerID : string) (command : CreateExpenseCommand)
  | CmdUpdate (ownerID expenseID : string) (command : CreateExpenseCommand)
  | CmdDelete (ownerID expenseID : string)
  | CmdAttach (ownerID expenseID objectKey : string).

Definition actor (c : ExpenseCommand) : string :=
  match c with
  | CmdCreate o _ | CmdUpdate o _ _ | CmdDelete o _ | CmdAttach o _ _ => o
  end.

(** The service as main.go wires it. *)
Definition run_expense (c : ExpenseCommand) : M World () :=
  match c with
  | CmdCreate o command =>
      CreateExpense_service (Some world_taxonomy) background o command;; mret ()
  | CmdUpdate o id command =>
      UpdateExpense_service (Some world_taxonomy) background o id command;; mret ()
  | CmdDelete o id => DeleteExpense_service (Some world_references) background o id
  | CmdAttach o id key => AttachReceipt (Some world_references) background o id key;; mret ()
  end.

(** What a command may record against a projection [s]: a valid new expense of
    the actor under an unused id, a valid new version of a live expense of the
    actor, or the removal of one. *)
Definition allowed (o : string) (s : ExpenseStore) (p : EventPayload) : Prop :=
  match p with
  | ExpenseAdded e => validateExpense e = None ∧ ex_OwnerID e = o ∧ s !! ex_ID e = None
  | ExpenseUpdated e => validateExpense e = None ∧ ex_OwnerID e = o ∧ is_Some (expense_get o (ex_ID e) s)
  | ExpenseRemoved id o' _ => o' = o ∧ is_Some (expense_get o id s)
  | _ => False
  end.

(** One atomic step: an event appended and applied. *)
Definition stepped (o : string) (s : ExpenseStore) (es : list DomainEvent) (w : World) : Prop :=
  ∃ ev, allowed o s (ev_Payload ev) ∧ state_is (replay_payload s (ev_Payload ev)) (es ++ [ev]) w.

Lemma get_hoare o id s es :
  hoare (state_is s es) (GetExpense o id) (λ e w, expense_get o id s = Some e ∧ state_is s es w) (state_is s es).
Proof using Type.
intros w [Hs Hes]. cbn. unfold zoom, memory_GetExpense. cbn. rewrite Hs.
destruct (expense_get o id s) eqn:Hg; unfold state_is; cbn; by rewrite ?Hs.
Qed.

Lemma check_hoare e s es :
  hoare (state_is s es) (check e) (λ _ w, e = None ∧ state_is s es w) (state_is s es).
Proof using Type. intros w Hw. by destruct e. Qed.

(** Writing the projection inside the unit. *)
Lemma project_hoare {A} (φ : Prop) (m : M ExpenseStore A) f s es s' :
  (match m s with (s1, inr _) => φ ∧ s1 = s' | _ => True end) →
  hoare (state_is s es) (map_err f (zoom L_expenses m)) (λ _ w, φ ∧ state_is s' es w) (λ _, True).
Proof using Type.
intros Hm. apply hoare_map_err. intros w [Hs Hes]. unfold zoom. cbn. rewrite Hs.
destruct (m s) as [s1 [e|a]]; [done|]. destruct Hm as [Hφ ->]. split; [exact Hφ|]. by split.
Qed.

Lemma unit_hoare {A} (fn : Ctx → M World A) s es Q :
  hoare (state_is s es) (fn true) Q (λ _, True) →
  hoare (state_is s es) (Within background fn) Q (state_is s es).
Proof using Type.
intros Hfn. apply hoare_within; [exact Hfn|]. intros saved w [Hs Hes].
destruct (restored saved w) as (H1 & _ & _ & _ & _ & _ & _ & _ & _ & _ & H2 & _).
unfold state_is, Events in *. by rewrite H1, H2.
Qed.

(** Append, then project: the body of every unit. *)
Lemma record_hoare {A} f ty id act p t s es o (rest : M World A) :
  (∀ es', hoare (state_is s es') rest (λ _ w, allowed o s p ∧ state_is (replay_payload s p) es' w) (λ _, True)) →
  hoare (state_is s es) (map_err f (append_expense_event ty id act p t);; rest)
    (λ _, stepped o s es) (λ _, True).
Proof using Type.
intros Hrest. apply (hoare_bind _ _ _ (λ _ w, ∃ ev, ev_Payload ev = p ∧ state_is s (es ++ [ev]) w)).
- apply hoare_map_err, append_hoare.
- intros _ w (ev & Hev & Hw). specialize (Hrest _ w Hw). destruct (rest w) as [w' [e|a]]; [done|].
  exists ev. by rewrite Hev.
Qed.

#[local] Ltac reads :=
  eapply hoare_bind; [first [apply untouched_hoare; first [done|by apply keeps_ownership]|apply check_hoare]|intros ?].

Lemma create_hoare o command s es :
  hoare (state_is s es) (CreateExpense_service (Some world_taxonomy) background o command)
    (λ _, stepped o s es) (state_is s es).
Proof using Type.
unfold CreateExpense_service. do 2 reads.
set (e := default_status _). assert (ex_OwnerID e = o) as Ho by (unfold e, default_status; by case_match).
eapply hoare_bind; [apply check_hoare|intros ?]. apply hoare_pure. intros Hv. reads.
apply (hoare_bind _ _ _ (λ _, stepped o s es)); [|intros ?; by apply hoare_ret].
apply unit_hoare, record_hoare. intros es'. apply project_hoare. unfold memory_CreateExpense.
destruct (s !! ex_ID e) eqn:Hid; [done|]. by repeat split.
Qed.

Lemma expense_get_spec o id s e : expense_get o id s = Some e ↔
  s !! id = Some e ∧ ex_OwnerID e = o ∧ ex_DeletedAt e = None.
Proof using Type.
unfold expense_get. destruct (s !! id) as [x|]; [|naive_solver].
destruct (String.eqb_spec (ex_OwnerID x) o), (ex_DeletedAt x) eqn:Hd; cbn; naive_solver.
Qed.
(** The projection is a table of valid expenses under their ids. *)
Definition well_formed (s : ExpenseStore) : Prop :=
  ∀ id e, s !! id = Some e → ex_ID e = id ∧ validateExpense e = None.

Lemma edit_owner command now e : ex_OwnerID (edit_expense command now e) = ex_OwnerID e.
Proof using Type. unfold edit_expense, default_status. by case_match. Qed.
Lemma edit_id command now e : ex_ID (edit_expense command now e) = ex_ID e.
Proof using Type. unfold edit_expense, default_status. by case_match. Qed.

Lemma update_row o s e0 e : expense_get o (ex_ID e0) s = Some e0 → ex_ID e = ex_ID e0 → ex_OwnerID e = o →
  validateExpense e = None →
  match memory_UpdateExpense e s with
  | (s1, inr _) => allowed o s (ExpenseUpdated e) ∧ s1 = replay_payload s (ExpenseUpdated e)
  | _ => True
  end.
Proof using Type.
intros Hg Hid Ho Hv. unfold memory_UpdateExpense. destruct (s !! ex_ID e); [|done]. split; [|done]. cbn. rewrite Hid.
by repeat split; eauto.
Qed.

Lemma update_hoare o id command s es : well_formed s →
  hoare (state_is s es) (UpdateExpense_service (Some world_taxonomy) background o id command)
    (λ _, stepped o s es) (state_is s es).
Proof using Type.
intros Hwf. unfold UpdateExpense_service. eapply hoare_bind; [apply hoare_map_err, get_hoare|intros e0].
apply hoare_pure. intros Hg. reads. set (e := edit_expense _ _ _).
eapply hoare_bind; [apply check_hoare|intros ?]. apply hoare_pure. intros Hv. reads.
apply (hoare_bind _ _ _ (λ _, stepped o s es)); [|intros ?; by apply hoare_ret].
apply unit_hoare, record_hoare. intros es'. apply project_hoare.
pose proof Hg as Hg'. apply expense_get_spec in Hg' as (Hl & Ho & _).
apply (update_row o s e0); [by rewrite (proj1 (Hwf _ _ Hl))|apply edit_id|by unfold e; rewrite edit_owner|done].
Qed.

Lemma references_hoare {A} (m : M ReferenceStore A) f (φ : World → Prop) :
  (∀ w s, φ w → φ (w <| w_references := s |>)) →
  hoare φ (map_err f (zoom L_references m)) (λ _, φ) (λ _, True).
Proof using Type.
intros Hφ. apply hoare_map_err. intros w Hw. unfold zoom. cbn. destruct (m (w_references w)) as [s' [e|a]]; [done|].
by apply Hφ.
Qed.

Lemma delete_expense_hoare o id s es :
  hoare (state_is s es) (DeleteExpense_service (Some world_references) background o id)
    (λ _, stepped o s es) (state_is s es).
Proof using Type.
unfold DeleteExpense_service. eapply hoare_bind; [apply hoare_map_err, get_hoare|intros e0].
apply hoare_pure. intros Hg. reads. apply unit_hoare, record_hoare. intros es'.
eapply hoare_bind.
- apply (project_hoare (allowed o s (ExpenseRemoved id o a)) (memory_DeleteExpense o id) _ s es'
    (replay_payload s (ExpenseRemoved id o a))).
  unfold memory_DeleteExpense. rewrite Hg. split; [split; [done|eauto]|]. cbn.
  apply expense_get_spec in Hg as (Hl & _). by rewrite (alter_insert_same _ _ _ _ Hl).
- intros ?. apply (references_hoare _ _ _). done.
Qed.
Lemma map_err_id {W A} (m : M W A) w : map_err (λ e, e) m w = m w.
Proof using Type. unfold map_err. by destruct (m w) as [w' [e|a]]. Qed.

Lemma hoare_ext {W A} P (m m' : M W A) Q E : (∀ w, m w = m' w) → hoare P m Q E → hoare P m' Q E.
Proof using Type. intros He Hm w Hw. rewrite <- He. by apply Hm. Qed.

Lemma attach_hoare o id key s es : well_formed s →
  hoare (state_is s es) (AttachReceipt (Some world_references) background o id key)
    (λ _, stepped o s es) (state_is s es).
Proof using Type.
intros Hwf. unfold AttachReceipt. eapply hoare_bind; [apply hoare_map_err, get_hoare|intros e0].
apply hoare_pure. intros Hg. case_match; [by apply hoare_throw|]. reads.
set (e := e0 <| _ := _ |> <| _ := _ |>). pose proof Hg as Hg'. apply expense_get_spec in Hg' as (Hl & Ho & _).
destruct (Hwf _ _ Hl) as [Hid Hv].
apply (hoare_bind _ _ _ (λ _, stepped o s es)); [|intros ?; by apply hoare_ret].
apply unit_hoare. eapply hoare_ext; [|apply (record_hoare (λ e, e))].
{ intros w. unfold mbind, M_bind. rewrite map_err_id. reflexivity. }
intros es'. eapply hoare_bind.
- eapply hoare_ext; [intros w; apply (map_err_id (UpdateExpense e))|].
  apply (project_hoare (allowed o s (ExpenseUpdated e)) (memory_UpdateExpense e) (λ e, e) s es'
    (replay_payload s (ExpenseUpdated e))). apply (update_row o s e0); [by rewrite Hid|done|done|exact Hv].
- intros ?. cbn beta. eapply hoare_bind; [by apply (references_hoare _ _ _)|intros ?]. cbn beta.
  case_match; [by apply (references_hoare _ _ _)|by apply hoare_ret].
Qed.

Lemma command_hoare c s es : well_formed s →
  hoare (state_is s es) (run_expense c) (λ _, stepped (actor c) s es) (state_is s es).
Proof using Type.
intros Hwf. destruct c; unfold run_expense, actor.
- eapply hoare_bind; [apply create_hoare|]. intros a. apply hoare_ret. done.
- eapply hoare_bind; [by apply update_hoare|]. intros a. apply hoare_ret. done.
- apply delete_expense_hoare.
- eapply hoare_bind; [by apply attach_hoare|]. intros a. apply hoare_ret. done.
Qed.

(** ** What an allowed step preserves *)

Lemma step_well_formed o s p : well_formed s → allowed o s p → well_formed (replay_payload s p).
Proof using Type.
intros Hwf Hp id e. destruct p; cbn in *; try done; unfold ExpenseStore in *.
- rewrite lookup_insert_Some. destruct Hp as (Hv & _). intros [[<- <-]|[_ Hl]]; [by split|eauto].
- rewrite lookup_insert_Some. destruct Hp as (Hv & _). intros [[<- <-]|[_ Hl]]; [by split|eauto].
- rewrite lookup_alter_Some. intros [(<- & x & Hx & ->)|[_ Hl]]; [|eauto]. apply (Hwf _ _ Hx).
Qed.

(** Rows of other owners are out of reach. *)
Lemma step_isolated o s p id e : well_formed s → allowed o s p → s !! id = Some e → ex_OwnerID e ≠ o →
  replay_payload s p !! id = Some e.
Proof using Type.
intros Hwf Hp He Ho. destruct p; cbn in *; try done; unfold ExpenseStore in *.
- rewrite lookup_insert_ne; [done|]. intros <-. destruct Hp as (_ & _ & Hn). congruence.
- rewrite lookup_insert_ne; [done|]. intros <-. destruct Hp as (_ & _ & x & Hx).
  apply expense_get_spec in Hx as (Hl & Hx & _). by pose proof (eq_trans (eq_sym Hl) He) as [= ->].
- rewrite lookup_alter_ne; [done|]. intros <-. destruct Hp as (_ & x & Hx).
  apply expense_get_spec in Hx as (Hl & Hx & _). by pose proof (eq_trans (eq_sym Hl) He) as [= ->].
Qed.

(** ** The theorems *)

(** [C15] Each expense command is one atomic step of the abstract log: it either
    appends exactly one event, allowed for its actor, and the projection is the
    old one with that event applied, or it fails and both are unchanged. *)
Theorem expense_command_atomic c w w' r : well_formed (w_expenses w) → run_expense c w = (w', r) →
  match r with
  | inr _ => ∃ ev, allowed (actor c) (w_expenses w) (ev_Payload ev) ∧
      Events (w_events w') = Events (w_events w) ++ [ev] ∧
      w_expenses w' = replay_payload (w_expenses w) (ev_Payload ev)
  | inl _ => w_expenses w' = w_expenses w ∧ Events (w_events w') = Events (w_events w)
  end.
Proof using Type.
intros Hwf Hrun. pose proof (command_hoare c _ _ Hwf w (conj eq_refl eq_refl)) as Hc.
rewrite Hrun in Hc. destruct r as [e|a]; [exact Hc|]. destruct Hc as (ev & Hev & Hs & Hes). eauto.
Qed.

(** Any number of commands, the failures included. *)
Definition run_expenses (cs : list ExpenseCommand) : M World () :=
  for_each (λ c, r ← catch (run_expense c); mret ()) cs.

Definition log_consistent (w : World) : Prop :=
  well_formed (w_expenses w) ∧ w_expenses w = replay (Events (w_events w)).

Lemma run_expenses_ind (I : World → Prop) cs w :
  (∀ c w, c ∈ cs → I w → I (run_expense c w).1) → I w → I (run_expenses cs w).1.
Proof using Type.
intros Hc. apply for_each_inv. intros c w1 Hin Hw. specialize (Hc c w1 Hin Hw).
unfold mbind, M_bind, catch. by destruct (run_expense c w1) as [w' r].
Qed.

Lemma command_consistent c w : log_consistent w → log_consistent (run_expense c w).1.
Proof using Type.
intros [Hwf Hr]. pose proof (command_hoare c _ _ Hwf w (conj eq_refl eq_refl)) as Hc. unfold log_consistent.
destruct (run_expense c w) as [w' [e|a]]; cbn.
- destruct Hc as [-> ->]. by split.
- destruct Hc as (ev & Hev & -> & ->). split; [by eapply step_well_formed|]. by rewrite replay_app, Hr.
Qed.

(** [C22] After any commands, successful or not, the expense projection is
    exactly what replaying the event log rebuilds, and every expense in it is
    valid and filed under its own id. *)
Theorem projection_is_replay cs w : log_consistent w →
  let w' := (run_expenses cs w).1 in
  w_expenses w' = replay (Events (w_events w')) ∧ well_formed (w_expenses w').
Proof using Type.
intros Hw. pose proof (run_expenses_ind log_consistent cs w (λ c w _, command_consistent c w) Hw) as [H1 H2].
by split.
Qed.

(** Ownership: however commands of other owners are interleaved, an
    expense stays exactly as its owner left it. *)
Theorem other_owners_untouched cs w id e : log_consistent w → w_expenses w !! id = Some e →
  (∀ c, c ∈ cs → actor c ≠ ex_OwnerID e) →
  w_expenses (run_expenses cs w).1 !! id = Some e.
Proof using Type.
intros Hw He Hcs. enough (log_consistent (run_expenses cs w).1 ∧ w_expenses (run_expenses cs w).1 !! id = Some e)
  as [_ ?] by done.
apply (run_expenses_ind (λ w, log_consistent w ∧ w_expenses w !! id = Some e)); [|done].
intros c w1 Hin [Hw1 He1]. split; [by apply command_consistent|].
destruct Hw1 as [Hwf _]. pose proof (command_hoare c _ _ Hwf w1 (conj eq_refl eq_refl)) as Hc.
destruct (run_expense c w1) as [w' [er|a]]; cbn.
- destruct Hc as [-> _]. done.
- destruct Hc as (ev & Hev & -> & _). eapply step_isolated; [done|done|done|]. intros Heq. by apply (Hcs c Hin).
Qed.
(** ** Categories and tags *)

(** The category is empty, a default one or the owner's; the tags are the owner's. *)
Definition taxonomy_owned (o category : string) (tags : list string) (s : TaxonomyStore) : Prop :=
  (category = "" ∨ ∃ c, c ∈ DefaultCategories ++ owned o (ts_categories s) ∧ cat_ID c = category) ∧
  (∀ t, t ∈ tags → ∃ tag, tag ∈ owned o (ts_tags s) ∧ tag_ID tag = t).

Lemma ownership_hoare o category tags s :
  hoare (λ w, w_taxonomy w = s) (validateOwnership (Some world_taxonomy) o category tags)
    (λ _ w, taxonomy_owned o category tags s ∧ w_taxonomy w = s) (λ _, True).
Proof using Type.
unfold validateOwnership.
apply (hoare_bind _ _ _ (λ _ w, (category = "" ∨ ∃ c, c ∈ DefaultCategories ++ owned o (ts_categories s) ∧
  cat_ID c = category) ∧ w_taxonomy w = s)).
- destruct (String.eqb_spec category "") as [->|Hne]; cbn -[wrap_err ListCategories]; [apply hoare_ret; auto|].
  intros w Hw. unfold mbind, M_bind, wrap_err, map_err. cbn -[DefaultCategories]. rewrite Hw.
  destruct (existsb _ _) eqn:Hc; [|done]. cbn. split; [|done]. right.
  apply existsb_exists in Hc as (c & Hin & He%String.eqb_eq). exists c. by rewrite list_elem_of_In.
- intros _. apply hoare_pure. intros Hcat. case_match eqn:Hlen.
  + intros w Hw. unfold mbind, M_bind, wrap_err, map_err. cbn. rewrite Hw.
    destruct (forallb _ _) eqn:Ht; [|done]. cbn. split; [|done]. split; [exact Hcat|]. intros t Hin.
    rewrite forallb_forall in Ht. apply list_elem_of_In in Hin. specialize (Ht t Hin).
    apply str_in_spec in Ht. change (map tag_ID) with (fmap (M:=list) tag_ID) in Ht.
    apply list_elem_of_fmap in Ht as (tag & -> & Htag). eauto.
  + destruct tags; [|apply Z.ltb_ge in Hlen; cbn in Hlen; lia]. apply hoare_ret. intros w Hw. split; [|done]. split; [exact Hcat|].
    intros t Ht. by apply elem_of_nil in Ht.
Qed.

Lemma owned_hoare {A} o category tags s (e : option error) (m : M World A) :
  hoare (λ w, w_taxonomy w = s) (check e;; validateOwnership (Some world_taxonomy) o category tags;; m)
    (λ _ _, taxonomy_owned o category tags s) (λ _, True).
Proof using Type.
apply (hoare_bind _ _ _ (λ _ w, w_taxonomy w = s)).
- destruct e; [by apply hoare_throw|by apply hoare_ret].
- intros u. eapply hoare_bind; [apply ownership_hoare|]. intros u'. apply hoare_pure. intros Ho w _.
  by destruct (m w) as [w' [er|a]].
Qed.

Lemma create_owned o command s :
  hoare (λ w, w_taxonomy w = s) (CreateExpense_service (Some world_taxonomy) background o command)
    (λ _ _, taxonomy_owned o (c_CategoryID command) (c_TagIDs command) s) (λ _, True).
Proof using Type.
unfold CreateExpense_service. eapply (hoare_bind _ _ _ (λ _ w, w_taxonomy w = s)); [by intros w Hw|intros now].
eapply (hoare_bind _ _ _ (λ _ w, w_taxonomy w = s)); [by intros w Hw|intros id].
set (e := default_status _).
assert (c_CategoryID command = ex_CategoryID e) as -> by (unfold e, default_status; by case_match).
assert (c_TagIDs command = ex_TagIDs e) as -> by (unfold e, default_status; by case_match).
apply owned_hoare.
Qed.

Lemma update_owned o id command s :
  hoare (λ w, w_taxonomy w = s) (UpdateExpense_service (Some world_taxonomy) background o id command)
    (λ _ _, taxonomy_owned o (c_CategoryID command) (c_TagIDs command) s) (λ _, True).
Proof using Type.
unfold UpdateExpense_service. apply (hoare_bind _ _ _ (λ _ w, w_taxonomy w = s)).
{ apply hoare_map_err. intros w Hw. cbn. unfold zoom, memory_GetExpense. cbn.
  by destruct (expense_get o id (w_expenses w)). }
intros e0. eapply (hoare_bind _ _ _ (λ _ w, w_taxonomy w = s)); [by intros w Hw|intros now].
set (e := edit_expense _ _ _).
assert (c_CategoryID command = ex_CategoryID e) as -> by (unfold e, edit_expense, default_status; by case_match).
assert (c_TagIDs command = ex_TagIDs e) as -> by (unfold e, edit_expense, default_status; by case_match).
apply owned_hoare.
Qed.

(** An expense that was created or edited refers only to a default
    category or one of its owner's and only to its owner's tags, never to
    another user's. *)
Theorem expense_taxonomy_owned c w w' : run_expense c w = (w', inr ()) →
  match c with
  | CmdCreate o command | CmdUpdate o _ command =>
      taxonomy_owned o (c_CategoryID command) (c_TagIDs command) (w_taxonomy w)
  | _ => True
  end.
Proof using Type.
intros Hrun. destruct c as [o command|o id command| |]; try done; unfold run_expense in Hrun;
  apply bind_ok in Hrun as (w1 & e & Hrun & _).
- pose proof (create_owned o command _ w eq_refl) as Hc. by rewrite Hrun in Hc.
- pose proof (update_owned o id command _ w eq_refl) as Hc. by rewrite Hrun in Hc.
Qed.

(** ** Visibility *)

Lemma shared_spec viewer role gid (m : GroupStore) :
  str_in gid (map ug_ID (range_values (group_visible viewer (role =s RoleSuperAdmin)) m)) = true ↔
  ∃ k g, m !! k = Some g ∧ ug_ID g = gid ∧
    (role = RoleSuperAdmin ∨ ug_CreatedBy g = viewer ∨ viewer ∈ ug_MemberIDs g).
Proof using Type.
rewrite str_in_spec. change (map ug_ID) with (fmap (M:=list) ug_ID). rewrite list_elem_of_fmap.
setoid_rewrite range_values_elem. unfold group_visible.
setoid_rewrite orb_true_iff. setoid_rewrite orb_true_iff. setoid_rewrite String.eqb_eq. setoid_rewrite str_in_spec.
naive_solver.
Qed.

(** The viewer may read the expense: it is live, and the viewer's own or shared
    with a group the viewer created, belongs to, or may see as
    super-administrator. *)
Definition readable (viewer : AppUser) (w : World) (e : ExpenseRecord) : Prop :=
  ex_DeletedAt e = None ∧
  (ex_OwnerID e = u_ID viewer ∨ ∃ k g, w_groups w !! k = Some g ∧ ug_ID g = ex_SharedGroupID e ∧
     (u_Role viewer = RoleSuperAdmin ∨ ug_CreatedBy g = u_ID viewer ∨ u_ID viewer ∈ ug_MemberIDs g)).

(** [C30] A viewer reads an expense exactly when it is not deleted and is the
    viewer's own or shared with a group the viewer created, belongs to, or may
    see as super-administrator. *)
Theorem expense_visible_iff viewer id w e :
  (GetExpenseForViewer (Some world_groups) viewer id w).2 = inr e ↔
  w_expenses w !! id = Some e ∧ readable viewer w e.
Proof using Type.
unfold readable, GetExpenseForViewer, visibleGroupIDs, mbind, M_bind, map_err. cbn. unfold memory_GetExpenseVisible, zoom.
cbn. rewrite <- (shared_spec (u_ID viewer) (u_Role viewer) (ex_SharedGroupID e)).
destruct (w_expenses w !! id) as [x|]; cbn; [|naive_solver].
set (groups := map ug_ID _).
destruct (ex_DeletedAt x) eqn:Hd; cbn; [split; [done|intros ([= ->] & Hd' & _); congruence]|].
destruct (String.eqb_spec (ex_OwnerID x) (u_ID viewer)) as [Ho|Ho], (str_in (ex_SharedGroupID x) groups) eqn:Hs; cbn;
  (split; [intros [= ->]; auto|intros ([= ->] & _ & [?|?]); congruence]).
Qed.
End Log.

(** ** A run *)

Module Sample.
Import World.Sample.
#[local] Existing Instance default_runtime.

Definition coffee : CreateExpenseCommand :=
  mkCreateExpenseCommand " Coffee " "eur" "0197c1a0-0000-4000-8000-000000000002" "Groceries" "" "" "" 350
    (63000000000 * Second) [] "" [] None None.

Lemma empty_consistent : log_consistent empty_world.
Proof. split; [|done]. intros id e He. discriminate He. Qed.

Lemma empty_well_formed : well_formed (w_expenses empty_world).
Proof. apply empty_consistent. Qed.

Definition commands : list ExpenseCommand :=
  [CmdCreate "ann" coffee; CmdUpdate "ann" "id" coffee; CmdDelete "bob" "id";
   CmdAttach "ann" "id" "receipts/1"].

Definition after_create : World := (run_expense (CmdCreate "ann" coffee) empty_world).1.

Lemma create_runs : (run_expense (CmdCreate "ann" coffee) empty_world).2 = inr ().
Proof. vm_compute. reflexivity. Qed.

Lemma expense_command_atomic_witness :
  ∃ ev, allowed (actor (CmdCreate "ann" coffee)) (w_expenses empty_world) (ev_Payload ev) ∧
    Events (w_events (run_expense (CmdCreate "ann" coffee) empty_world).1) =
      Events (w_events empty_world) ++ [ev] ∧
    w_expenses (run_expense (CmdCreate "ann" coffee) empty_world).1 =
      replay_payload (w_expenses empty_world) (ev_Payload ev).
Proof.
exact (expense_command_atomic (CmdCreate "ann" coffee) empty_world _ _ empty_well_formed
  (run_is _ _ create_runs)).
Defined.

Lemma projection_is_replay_witness :
  let w' := (run_expenses commands empty_world).1 in
  w_expenses w' = replay (Events (w_events w')) ∧ well_formed (w_expenses w').
Proof. exact (projection_is_replay commands empty_world empty_consistent). Defined.

Definition created : ExpenseRecord :=
  default (mkExpenseRecord "" "" "" 0 "" 0 "" "" [] "" "" [] None None "" "" 0 0 None)
    (w_expenses after_create !! "id").

Lemma other_owners_untouched_witness :
  w_expenses (run_expenses [CmdDelete "bob" "id"; CmdUpdate "eve" "id" coffee] after_create).1 !! "id"
    = Some created.
Proof.
apply (other_owners_untouched [CmdDelete "bob" "id"; CmdUpdate "eve" "id" coffee] after_create "id" created).
- apply command_consistent, empty_consistent.
- vm_compute. reflexivity.
- intros c Hc. apply list_elem_of_In in Hc. destruct Hc as [<-|[<-|[]]]; vm_compute; discriminate.
Defined.

Lemma expense_taxonomy_owned_witness :
  (run_expense (CmdCreate "ann" coffee) empty_world).2 = inr () ∧
  taxonomy_owned "ann" "0197c1a0-0000-4000-8000-000000000002" [] (w_taxonomy empty_world).
Proof.
split; [exact create_runs|].
exact (expense_taxonomy_owned (CmdCreate "ann" coffee) _ _ (run_is _ _ create_runs)).
Defined.
End Sample.
