(* ===== verification/Groups.v ===== *)
(** * Groups and taxonomy (src/internal/core/service/groups.go, taxonomy.go)

    User groups under their creator's or a super-administrator's control, and
    each owner's categories and tags. *)

From S2P Require Export Prelude GoTime GoStrings Domain UnitOfWork Ports.
#[global] Open Scope Z_scope.

Definition group_name_required : error := ErrorsNew "group name is required".

Section Groups.
Context {W : Type} `{Env W} `{GroupRepository W}.

Definition CreateGroup_service (actor : AppUser) (name : string) (members : list string)
    : M W UserGroup :=
  if (u_Role actor ≠s RoleAdmin) && (u_Role actor ≠s RoleSuperAdmin) then throw ErrForbidden
  else
    let name := TrimSpace name in
    if name =s "" then throw group_name_required
    else
      id ← NewString;
      now ← Now;
      let value := mkUserGroup id name (u_ID actor) now members in
      CreateGroup value;;
      mret value.

Definition ListVisibleGroups_service (viewer : AppUser) : M W (list UserGroup) :=
  ListVisibleGroups (u_ID viewer) (u_Role viewer =s RoleSuperAdmin).

Definition requireGroupOwner (actor : AppUser) (groupID : string) : M W UserGroup :=
  group ← map_err (λ _, ErrNotFound) (GetGroup groupID);
  if (u_Role actor ≠s RoleSuperAdmin) && (ug_CreatedBy group ≠s u_ID actor) then throw ErrForbidden
  else mret group.

Definition UpdateGroup_service (actor : AppUser) (groupID name : string) : M W UserGroup :=
  group ← requireGroupOwner actor groupID;
  let name := TrimSpace name in
  if name =s "" then throw group_name_required
  else
    UpdateGroup groupID name;;
    mret (group <| ug_Name := name |>).

Definition DeleteGroup_service (actor : AppUser) (groupID : string) : M W () :=
  requireGroupOwner actor groupID;;
  DeleteGroup groupID.

Definition AddMember_service (actor : AppUser) (groupID userID : string) : M W () :=
  requireGroupOwner actor groupID;;
  if TrimSpace userID =s "" then throw (ErrorsNew "user id is required")
  else AddMember groupID userID.

Definition RemoveMember_service (actor : AppUser) (groupID userID : string) : M W () :=
  requireGroupOwner actor groupID;;
  RemoveMember groupID userID.
End Groups.

Section Taxonomy.
Context {W : Type} `{Env W} `{TaxonomyRepository W}.

Definition category_name_required : error := ErrorsNew "category name is required".
Definition tag_name_required : error := ErrorsNew "tag name is required".

Definition ListCategories_service (owner : string) : M W (list ExpenseCategory) := ListCategories owner.

Definition CreateCategory_service (owner name color : string) : M W ExpenseCategory :=
  id ← NewString;
  now ← Now;
  let value := mkExpenseCategory id (TrimSpace name) (TrimSpace color) false now in
  if (owner =s "") || (cat_Name value =s "") then throw category_name_required
  else CreateCategory owner value;; mret value.

Definition UpdateCategory_service (owner categoryID name color : string) : M W ExpenseCategory :=
  let value := mkExpenseCategory categoryID (TrimSpace name) (TrimSpace color) false 0 in
  if cat_Name value =s "" then throw category_name_required
  else map_err (λ _, ErrNotFound) (UpdateCategory owner value);; mret value.

Definition DeleteCategory_service (owner categoryID : string) : M W () :=
  map_err (λ _, ErrNotFound) (DeleteCategory owner categoryID).

Definition ListTags_service (owner : string) : M W (list ExpenseTag) := ListTags owner.

Definition CreateTag_service (owner name color : string) : M W ExpenseTag :=
  id ← NewString;
  now ← Now;
  let value := mkExpenseTag id (TrimSpace name) (TrimSpace color) now in
  if (owner =s "") || (tag_Name value =s "") then throw tag_name_required
  else CreateTag owner value;; mret value.

Definition UpdateTag_service (owner tagID name color : string) : M W ExpenseTag :=
  let value := mkExpenseTag tagID (TrimSpace name) (TrimSpace color) 0 in
  if tag_Name value =s "" then throw tag_name_required
  else map_err (λ _, ErrNotFound) (UpdateTag owner value);; mret value.

Definition DeleteTag_service (owner tagID : string) : M W () :=
  map_err (λ _, ErrNotFound) (DeleteTag owner tagID).
End Taxonomy.
