(* ===== verification/Budgets.v ===== *)
(** * Budgets (src/internal/core/service/budgets.go)

    Budget commands, each an event and a projection write in one unit of work,
    and the reads scoped to the viewer and the groups the viewer may see. *)

From S2P Require Export Prelude GoTime GoStrings Domain UnitOfWork Ports Expenses.
#[global] Open Scope Z_scope.

Definition validateBudget (b : BudgetRecord) : option error :=
  if (bd_OwnerID b =s "") || (bd_Name b =s "") || (bd_CategoryID b =s "") ||
     (bd_AmountLimitMinor b <=? 0) || negb (len (bd_Currency b) =? 3) ||
     (bd_ThresholdPercent b <? 1) || (100 <? bd_ThresholdPercent b)
  then Some (ErrorsNew "invalid budget")
  else if str_in (bd_Period b) [BudgetDaily; BudgetWeekly; BudgetMonthly; BudgetYearly; BudgetCustom]
  then None
  else Some (ErrorsNew "invalid budget period").

Section Budgets.
Context `{GoRuntime} {W : Type} `{Env W} `{BudgetRepository W} `{EventLog W} `{GroupRepository W} `{UnitOfWork W}.

Definition budget_visibleGroupIDs (viewer : AppUser) : M W (list string) :=
  groups ← ListVisibleGroups (u_ID viewer) (u_Role viewer =s RoleSuperAdmin);
  mret (map ug_ID groups).

Definition validateSharedGroup (owner : AppUser) (groupID : string) : M W () :=
  if groupID =s "" then mret ()
  else
    groupIDs ← budget_visibleGroupIDs owner;
    if str_in groupID groupIDs then mret () else throw ErrForbidden.

Definition append_budget_event (eventType aggregateID : string) (payload : EventPayload)
    (occurredAt : Time) (actorID : string) : M W () :=
  id ← NewString;
  Append (mkDomainEvent id "budget" aggregateID eventType payload (UnixMilli occurredAt) actorID).

Definition CreateBudget_service (ctx : Ctx) (owner : AppUser) (budget : BudgetRecord)
    : M W BudgetRecord :=
  id ← NewString;
  now ← Now;
  let budget := mkBudgetRecord id (u_ID owner) (bd_CategoryID budget) (TrimSpace (bd_Name budget))
    (ToUpper (bd_Currency budget)) (bd_SharedGroupID budget) (bd_AmountLimitMinor budget)
    (bd_ThresholdPercent budget) (bd_Period budget) (bd_DueAt budget) now now (bd_DeletedAt budget) in
  check (validateBudget budget);;
  validateSharedGroup owner (bd_SharedGroupID budget);;
  Within ctx (λ ctx,
    append_budget_event "budget_created" (bd_ID budget) (BudgetCreated budget) (bd_CreatedAt budget)
      (u_ID owner);;
    CreateBudget budget);;
  mret budget.

Definition ListBudgets_service (viewer : AppUser) : M W (list BudgetRecord) :=
  groupIDs ← budget_visibleGroupIDs viewer;
  ListBudgets (u_ID viewer) groupIDs.

Definition GetBudget_service (viewer : AppUser) (budgetID : string) : M W BudgetRecord :=
  groupIDs ← budget_visibleGroupIDs viewer;
  map_err (λ _, ErrNotFound) (GetBudget (u_ID viewer) budgetID groupIDs).

(** [budget, err := GetBudget(...); if err != nil || budget.OwnerID != owner.ID]. *)
Definition own_budget (owner : AppUser) (budgetID : string) : M W BudgetRecord :=
  budget ← map_err (λ _, ErrNotFound) (GetBudget (u_ID owner) budgetID []);
  if bd_OwnerID budget ≠s u_ID owner then throw ErrNotFound else mret budget.

Definition UpdateBudget_service (ctx : Ctx) (owner : AppUser) (budgetID : string)
    (update : BudgetRecord) : M W BudgetRecord :=
  budget ← own_budget owner budgetID;
  now ← Now;
  let budget := mkBudgetRecord (bd_ID budget) (bd_OwnerID budget) (bd_CategoryID update)
    (TrimSpace (bd_Name update)) (ToUpper (TrimSpace (bd_Currency update)))
    (bd_SharedGroupID update) (bd_AmountLimitMinor update) (bd_ThresholdPercent update)
    (bd_Period update) (bd_DueAt update) (bd_CreatedAt budget) now (bd_DeletedAt budget) in
  check (validateBudget budget);;
  validateSharedGroup owner (bd_SharedGroupID budget);;
  Within ctx (λ ctx,
    append_budget_event "budget_updated" (bd_ID budget) (BudgetUpdated budget) (bd_UpdatedAt budget)
      (u_ID owner);;
    UpdateBudget budget);;
  mret budget.

Definition DeleteBudget_service (ctx : Ctx) (owner : AppUser) (budgetID : string) : M W () :=
  budget ← own_budget owner budgetID;
  now ← Now;
  Within ctx (λ ctx,
    append_budget_event "budget_removed" (bd_ID budget)
      (BudgetRemoved (bd_ID budget) (u_ID owner) now) now (u_ID owner);;
    DeleteBudget (u_ID owner) budgetID).
End Budgets.
