(* ===== verification/Payments.v ===== *)
(** * Scheduled payments (src/internal/core/service/scheduled_payments.go)

    Commands on recurring payments, and the scheduler pass that runs the
    occurrences that have come due: a ledger row claimed once per occurrence, a
    notification, an expense posted through the event log, and the cursor moved
    to the next occurrence. *)

From S2P Require Export Prelude GoTime GoStrings Domain Schedule UnitOfWork Ports Expenses.
#[global] Open Scope Z_scope.

Definition ErrInvalidScheduledPayment : error :=
  Sentinel "ErrInvalidScheduledPayment" "invalid scheduled payment".

Definition duePaymentBatchSize : Z := 500.
Definition maxReminderLeadDays : Z := 60.

Definition boolText (value : bool) : string := if value then "true" else "false".

Definition validateScheduledPayment (payment : ScheduledPayment) : option error :=
  if (sp_OwnerID payment =s "") || (sp_Title payment =s "") || (sp_AmountMinor payment <=? 0) ||
     negb (len (sp_Currency payment) =? 3) then Some ErrInvalidScheduledPayment
  else if IsZero (sp_StartDate payment) then Some ErrInvalidScheduledPayment
  else if negb (ValidPaymentFrequency (sp_Frequency payment)) then Some ErrInvalidScheduledPayment
  else if (sp_Frequency payment =s PaymentCustom) &&
          ((sp_CustomIntervalDays payment <? 1) || (3650 <? sp_CustomIntervalDays payment))
  then Some ErrInvalidScheduledPayment
  else if (sp_ReminderDaysBefore payment <? 0) || (maxReminderLeadDays <? sp_ReminderDaysBefore payment)
  then Some ErrInvalidScheduledPayment
  else if (match sp_EndDate payment with
           | Some end_ => Before end_ (sp_StartDate payment)
           | None => false
           end : bool)
  then Some ErrInvalidScheduledPayment
  else None.

(** The loop of [rescheduleFrom]: at most [fuel] steps past [last]. *)
Fixpoint reschedule_loop (fuel : nat) (payment : ScheduledPayment) (last next : Time) : Time :=
  match fuel with
  | O => next
  | S fuel => if After next last then next
              else reschedule_loop fuel payment last (NextDueFor payment next)
  end.

Definition rescheduleFrom (payment : ScheduledPayment) : Time :=
  match sp_LastPostedAt payment with
  | None => sp_StartDate payment
  | Some last => reschedule_loop 1000 payment last (sp_StartDate payment)
  end.

Section Payments.
Context `{GoRuntime} {W : Type} `{Env W} `{ScheduledPaymentRepository W} `{EventLog W}
  `{GroupRepository W} `{UnitOfWork W}.
Context (expenses : option (ExpenseRepository W)).
Context (notifications : option (NotificationRepository W)).
Context (taxonomy : option (TaxonomyRepository W)).

Definition payment_visibleGroupIDs (viewer : AppUser) : M W (list string) :=
  groups ← ListVisibleGroups (u_ID viewer) (u_Role viewer =s RoleSuperAdmin);
  mret (map ug_ID groups).

Definition payment_validateSharedGroup (owner : AppUser) (groupID : string) : M W () :=
  if groupID =s "" then mret ()
  else
    groupIDs ← payment_visibleGroupIDs owner;
    if str_in groupID groupIDs then mret () else throw ErrForbidden.

(** [validateOwnership] mirrors the one of the expense service. *)
Definition payment_validateOwnership (ownerID categoryID : string) (tagIDs : list string) : M W () :=
  match taxonomy with
  | None => mret ()
  | Some port =>
      (if categoryID ≠s "" then
         categories ← wrap_err "list categories" (ListCategories ownerID);
         if existsb (λ category, cat_ID category =s categoryID) categories then mret ()
         else throw ErrForbidden
       else mret ());;
      if Z.of_nat (length tagIDs) =? 0 then mret ()
      else
        tags ← wrap_err "list tags" (ListTags ownerID);
        if forallb (λ tagID, str_in tagID (map tag_ID tags)) tagIDs then mret ()
        else throw ErrForbidden
  end.

Definition payment_event (eventType aggregateID actorID : string) (payload : EventPayload)
    (occurredAt : Time) : M W DomainEvent :=
  id ← NewString;
  mret (mkDomainEvent id "scheduled_payment" aggregateID eventType payload (UnixMilli occurredAt) actorID).

Definition append_payment_event (eventType aggregateID actorID : string) (payload : EventPayload)
    (occurredAt : Time) : M W () :=
  event ← payment_event eventType aggregateID actorID payload occurredAt;
  Append event.

Definition CreateScheduledPayment_service (ctx : Ctx) (owner : AppUser) (payment : ScheduledPayment)
    : M W ScheduledPayment :=
  now ← Now;
  id ← NewString;
  let payment := mkScheduledPayment id (u_ID owner) (TrimSpace (sp_Title payment))
    (sp_AmountMinor payment) (ToUpper (TrimSpace (sp_Currency payment))) (sp_CategoryID payment)
    (TrimSpace (sp_CategoryName payment)) (sp_TagIDs payment) (sp_SharedGroupID payment)
    (sp_Frequency payment) (sp_CustomIntervalDays payment) (sp_StartDate payment)
    (sp_EndDate payment) (sp_StartDate payment) (sp_LastPostedAt payment) (sp_AutoPost payment)
    (sp_ReminderDaysBefore payment) (sp_Paused payment) now now (sp_DeletedAt payment) in
  check (validateScheduledPayment payment);;
  payment_validateSharedGroup owner (sp_SharedGroupID payment);;
  payment_validateOwnership (u_ID owner) (sp_CategoryID payment) (sp_TagIDs payment);;
  Within ctx (λ ctx,
    wrap_err "append scheduled_payment_created" (append_payment_event "scheduled_payment_created"
      (sp_ID payment) (u_ID owner) (ScheduledPaymentCreated payment) now);;
    CreateScheduledPayment payment);;
  mret payment.

Definition ListScheduledPayments_service (viewer : AppUser) : M W (list ScheduledPayment) :=
  groupIDs ← payment_visibleGroupIDs viewer;
  ListScheduledPayments (u_ID viewer) groupIDs.

Definition GetScheduledPayment_service (viewer : AppUser) (paymentID : string) : M W ScheduledPayment :=
  groupIDs ← payment_visibleGroupIDs viewer;
  map_err (λ _, ErrNotFound) (GetScheduledPayment (u_ID viewer) paymentID groupIDs).

Definition own_payment (owner : AppUser) (paymentID : string) : M W ScheduledPayment :=
  payment ← map_err (λ _, ErrNotFound) (GetScheduledPayment (u_ID owner) paymentID []);
  if sp_OwnerID payment ≠s u_ID owner then throw ErrNotFound else mret payment.

Definition rescheduled (payment update : ScheduledPayment) : bool :=
  negb (sp_StartDate payment =? sp_StartDate update) ||
  (sp_Frequency payment ≠s sp_Frequency update) ||
  negb (sp_CustomIntervalDays payment =? sp_CustomIntervalDays update).

(** The assignments of [UpdateScheduledPayment]. *)
Definition edit_payment (update : ScheduledPayment) (now : Time) (payment : ScheduledPayment)
    : ScheduledPayment :=
  let edited := mkScheduledPayment (sp_ID payment) (sp_OwnerID payment) (TrimSpace (sp_Title update))
    (sp_AmountMinor update) (ToUpper (TrimSpace (sp_Currency update))) (sp_CategoryID update)
    (TrimSpace (sp_CategoryName update)) (sp_TagIDs update) (sp_SharedGroupID update)
    (sp_Frequency update) (sp_CustomIntervalDays update) (sp_StartDate update)
    (sp_EndDate update) (sp_NextDueAt payment) (sp_LastPostedAt payment) (sp_AutoPost update)
    (sp_ReminderDaysBefore update) (sp_Paused update) (sp_CreatedAt payment) now
    (sp_DeletedAt payment) in
  if rescheduled payment update then edited <| sp_NextDueAt := rescheduleFrom edited |> else edited.

Definition UpdateScheduledPayment_service (ctx : Ctx) (owner : AppUser) (paymentID : string)
    (update : ScheduledPayment) : M W ScheduledPayment :=
  payment ← own_payment owner paymentID;
  now ← Now;
  let payment := edit_payment update now payment in
  check (validateScheduledPayment payment);;
  payment_validateSharedGroup owner (sp_SharedGroupID payment);;
  payment_validateOwnership (u_ID owner) (sp_CategoryID payment) (sp_TagIDs payment);;
  Within ctx (λ ctx,
    wrap_err "append scheduled_payment_updated" (append_payment_event "scheduled_payment_updated"
      (sp_ID payment) (u_ID owner) (ScheduledPaymentUpdated payment) (sp_UpdatedAt payment));;
    UpdateScheduledPayment payment);;
  mret payment.

Definition DeleteScheduledPayment_service (ctx : Ctx) (owner : AppUser) (paymentID : string) : M W () :=
  payment ← own_payment owner paymentID;
  now ← Now;
  Within ctx (λ ctx,
    wrap_err "append scheduled_payment_removed" (append_payment_event "scheduled_payment_removed"
      (sp_ID payment) (u_ID owner) (ScheduledPaymentRemoved (sp_ID payment) (u_ID owner) now) now);;
    DeleteScheduledPayment (u_ID owner) paymentID).

(** ** The scheduler *)

Definition queueDueNotification (payment : ScheduledPayment) (kind : PostingKind) (autoPosted : bool)
    (now : Time) : M W () :=
  match notifications with
  | None => mret ()
  | Some port =>
      id ← NewString;
      wrap_err "queue payment due notification" (QueueNotification
        (mkNotificationDelivery id (sp_OwnerID payment) "" NotificationPaymentDue
          (list_to_map [("payment_title", sp_Title payment);
                        ("amount_minor", Itoa (sp_AmountMinor payment));
                        ("currency", sp_Currency payment);
                        ("due_at", FormatRFC3339 (sp_NextDueAt payment));
                        ("frequency", sp_Frequency payment);
                        ("reminder", boolText (kind =s PostingReminder));
                        ("auto_posted", boolText autoPosted)])
          now NotificationPending 0))
  end.

Definition claimAndNotify (payment : ScheduledPayment) (kind : PostingKind) (expenseID : string)
    (now : Time) : M W () :=
  map_err (λ err, if ErrorIs err "ErrPostingExists" then err
                  else Errorf ("claim " +:+ kind +:+ " posting: ") err "")
    (ClaimPosting (mkScheduledPaymentPosting (sp_ID payment) (sp_NextDueAt payment) kind expenseID now));;
  queueDueNotification payment kind (expenseID ≠s "") now.

Definition posted_expense (payment : ScheduledPayment) (expenseID : string) (dueAt now : Time)
    : ExpenseRecord :=
  mkExpenseRecord expenseID (sp_OwnerID payment) (sp_Title payment) (sp_AmountMinor payment)
    (sp_Currency payment) dueAt (sp_CategoryID payment) (sp_CategoryName payment) (sp_TagIDs payment)
    (if sp_SharedGroupID payment ≠s "" then ExpenseShared else ExpenseConfirmed)
    (sp_SharedGroupID payment) [] None None "" "" now now None.

Definition postExpense (ctx : Ctx) (port : ExpenseRepository W) (payment : ScheduledPayment)
    (expenseID : string) (dueAt now : Time) : M W () :=
  let expense := posted_expense payment expenseID dueAt now in
  Within ctx (λ ctx,
    wrap_err "append expense_added" (append_expense_event "expense_added" (ex_ID expense)
      (sp_OwnerID payment) (ExpenseAdded expense) now);;
    wrap_err "create expense projection" (CreateExpense expense);;
    wrap_err "append scheduled_payment_posted" (append_payment_event "scheduled_payment_posted"
      (sp_ID payment) (sp_OwnerID payment)
      (ScheduledPaymentPosted (sp_ID payment) (sp_OwnerID payment) (ex_ID expense) dueAt now) now)).

(** [if err := m; err != nil && !errors.Is(err, ErrPostingExists) { return err }],
    telling whether the posting existed. *)
Definition unless_posted (m : M W ()) : M W bool :=
  outcome ← catch m;
  match outcome with
  | inr _ => mret false
  | inl err => if ErrorIs err "ErrPostingExists" then mret true else throw err
  end.

Definition runOccurrence (ctx : Ctx) (payment : ScheduledPayment) (now : Time) : M W Z :=
  if sp_Paused payment || negb (is_nil (sp_DeletedAt payment)) then mret 0
  else if (match ReminderDueAt payment (sp_NextDueAt payment) with
           | Some at_ => negb (Before now at_) && Before now (sp_NextDueAt payment)
           | None => false
           end : bool)
  then unless_posted (claimAndNotify payment PostingReminder "" now);; mret 0
  else if Before now (sp_NextDueAt payment) then mret 0
  else if ScheduledPaymentFinished payment (sp_NextDueAt payment) then
    wrap_err "pause finished payment"
      (AdvanceSchedule (sp_ID payment) (sp_NextDueAt payment) (sp_NextDueAt payment) true);;
    mret 0
  else
    let dueAt := sp_NextDueAt payment in
    expenseID ← (if sp_AutoPost payment && negb (is_nil expenses) then NewString else mret "");
    exists_ ← unless_posted (claimAndNotify payment PostingDue expenseID now);
    if exists_ : bool then mret 0
    else
      (if expenseID ≠s "" then
         match expenses with
         | Some port => wrap_err "post expense" (postExpense ctx port payment expenseID dueAt now)
         | None => mret ()
         end
       else mret ());;
      let next := NextDueFor payment dueAt in
      let paused := ScheduledPaymentFinished payment next in
      wrap_err "advance schedule" (AdvanceSchedule (sp_ID payment) next dueAt paused);;
      mret 1.

(** The loop of [PostDue]: errors are collected, the pass continues. *)
Definition post_one (ctx : Ctx) (now : Time) (acc : Z * list error) (payment : ScheduledPayment)
    : M W (Z * list error) :=
  outcome ← catch (runOccurrence ctx payment now);
  match outcome with
  | inl err =>
      mret (acc.1, acc.2 ++ [Errorf ("scheduled payment " +:+ sp_ID payment +:+ ": ") err ""])
  | inr count => mret (wrap64 (acc.1 + count), acc.2)
  end.

(** The count and the joined error, which the code returns together. *)
Definition PostDue (ctx : Ctx) (now : Time) : M W (Z * option error) :=
  let horizon := AddDate now 0 0 maxReminderLeadDays in
  payments ← wrap_err "list due scheduled payments" (ListDueScheduledPayments horizon duePaymentBatchSize);
  '(posted, errs) ← fold_m (post_one ctx now) (0, []) payments;
  mret (posted, match errs with [] => None | _ => Some (ErrorsJoin errs) end).
End Payments.
