(* ===== verification/PaymentSafety.v ===== *)
(** * What the payment scheduler guarantees

    In one process with the in-memory adapters (World): no occurrence is ever
    posted twice, however passes and edits follow each other; and what happens
    to an occurrence whose posting failed after it was claimed. *)

From S2P Require Export Prelude GoTime GoStrings Domain Schedule UnitOfWork EventStore Ports Memory.
From S2P Require Export MemoryStores World Expenses Payments ExpenseLog.
#[global] Open Scope Z_scope.

Section Safety.
Context `{GoRuntime}.

(** ** Triples over the payments and the log *)

Definition about (I : PaymentStore → list DomainEvent → Prop) (w : World) : Prop :=
  I (w_payments w) (Events (w_events w)).

(** Operations that leave the payments and the log alone. *)
#[local] Notation quiet m := (keeps (λ w, (w_payments w, w_events w)) m).

Implicit Types I : PaymentStore → list DomainEvent → Prop.

Lemma quiet_hoare {A} (m : M World A) I I0 : quiet m → (∀ ps es, I ps es → I0 ps es) →
  hoare (about I) m (λ _, about I) (about I0).
Proof using Type.
intros Hm HI w Hw. injection (Hm w) as H1 H2. unfold about in *.
destruct (m w) as [w' [e|a]]; cbn in *; rewrite H1, H2; auto.
Qed.

Lemma quiet_notify p kind auto now : quiet (queueDueNotification (Some world_notifications) p kind auto now).
Proof using Type. apply keeps_bind; [done|]. intros id. by apply keeps_map_err. Qed.

Lemma quiet_group owner gid : quiet (payment_validateSharedGroup owner gid).
Proof using Type.
unfold payment_validateSharedGroup. case_match; [done|]. apply keeps_bind.
- unfold payment_visibleGroupIDs. by apply keeps_bind.
- intros ids. by case_match.
Qed.

Lemma quiet_ownership owner category tags :
  quiet (payment_validateOwnership (Some world_taxonomy) owner category tags).
Proof using Type.
unfold payment_validateOwnership, wrap_err. apply keeps_bind.
- case_match; [|done]. apply keeps_bind; [by apply keeps_map_err|]. intros cs. by case_match.
- intros ?. case_match; [done|]. apply keeps_bind; [by apply keeps_map_err|]. intros ts. by case_match.
Qed.

(** Appending an event with payload [p]. *)
Lemma log_hoare (m : M World DomainEvent) p I I' : quiet m →
  (∀ w, match m w with (_, inr ev) => ev_Payload ev = p | _ => True end) →
  (∀ ps es ev, I ps es → ev_Payload ev = p → I' ps (es ++ [ev])) →
  hoare (about I) (ev ← m; Append ev) (λ _, about I') (λ _, True).
Proof using Type.
intros Hm Hp HI w Hw. unfold mbind, M_bind. injection (Hm w) as H1 H2. specialize (Hp w).
destruct (m w) as [w1 [e|ev]]; [done|]. cbn in *. unfold zoom. cbn.
destruct (EventStore.Append ev (w_events w1)) as [st [e|[]]] eqn:Ha; [done|]. apply append_events in Ha.
unfold about in *. cbn. rewrite Ha, H1, H2. by apply HI.
Qed.

Lemma payment_event_hoare f ty id actor p t I I' :
  (∀ ps es ev, I ps es → ev_Payload ev = p → I' ps (es ++ [ev])) →
  hoare (about I) (map_err f (append_payment_event ty id actor p t)) (λ _, about I') (λ _, True).
Proof using Type. intros HI. apply hoare_map_err. by apply (log_hoare _ p). Qed.

Lemma expense_event_hoare f ty id actor p t I I' :
  (∀ ps es ev, I ps es → ev_Payload ev = p → I' ps (es ++ [ev])) →
  hoare (about I) (map_err f (append_expense_event ty id actor p t)) (λ _, about I') (λ _, True).
Proof using Type. intros HI. apply hoare_map_err. by apply (log_hoare _ p). Qed.

(** A write to the payments. *)
Lemma payment_write_hoare {A} (m : M PaymentStore A) I I' I0 :
  (∀ ps es, I ps es → match m ps with (ps', inr _) => I' ps' es | (ps', inl _) => I0 ps' es end) →
  hoare (about I) (zoom L_payments m) (λ _, about I') (about I0).
Proof using Type.
intros Hm w Hw. unfold zoom, about in *. cbn. specialize (Hm _ _ Hw).
by destruct (m (w_payments w)) as [ps' [e|a]].
Qed.

(** A unit of work. *)
Lemma payment_unit_hoare {A} (fn : Ctx → M World A) I I' I0 :
  hoare (about I) (fn true) (λ _, about I') (λ _, True) → (∀ ps es, I ps es → I0 ps es) →
  hoare (about I) (Within background fn) (λ _, about I') (about I0).
Proof using Type.
intros Hfn HI. apply hoare_within; [exact Hfn|]. intros saved w Hw.
destruct (restored saved w) as (_ & _ & _ & _ & _ & _ & _ & _ & H1 & _ & H2 & _).
unfold about, Events in *. rewrite H1, H2. auto.
Qed.
(** ** At most one posting per occurrence *)

(** The occurrence an event posts. *)
Definition posting_of (ev : DomainEvent) : option (string * Time) :=
  match ev_Payload ev with
  | ScheduledPaymentPosted id _ _ due _ => Some (id, due)
  | _ => None
  end.

Definition postings_for (k : string * Time) (es : list DomainEvent) : list DomainEvent :=
  filter (λ ev, posting_of ev = Some k) es.

Definition claimed (ps : PaymentStore) (k : string * Time) : Prop :=
  is_Some (pp_postings ps !! (k.1, UnixNano k.2, PostingDue)).

(** Each occurrence is posted at most once, and only after it was claimed. *)
Definition once (ps : PaymentStore) (es : list DomainEvent) : Prop :=
  ∀ k, (length (postings_for k es) ≤ 1)%nat ∧ (postings_for k es ≠ [] → claimed ps k).

(** The scheduler holds the claim on [k]. *)
Definition holding (k : string * Time) (ps : PaymentStore) (es : list DomainEvent) : Prop :=
  once ps es ∧ claimed ps k ∧ postings_for k es = [].

Lemma postings_other k es ev : posting_of ev = None → postings_for k (es ++ [ev]) = postings_for k es.
Proof using Type.
intros Hev. unfold postings_for. rewrite filter_app. cbn. rewrite decide_False by congruence. by rewrite app_nil_r.
Qed.

Lemma once_other ps es ev : once ps es → posting_of ev = None → once ps (es ++ [ev]).
Proof using Type. intros Ho Hev k. by rewrite (postings_other k es ev Hev). Qed.

Lemma holding_other k ps es ev : holding k ps es → posting_of ev = None → holding k ps (es ++ [ev]).
Proof using Type.
intros (Ho & Hc & Hn) Hev. split; [by apply once_other|]. split; [done|]. by rewrite postings_other.
Qed.

Lemma once_posted k ps es ev : holding k ps es → posting_of ev = Some k → once ps (es ++ [ev]).
Proof using Type.
intros (Ho & Hc & Hn) Hev k'. destruct (Ho k') as [H1 H2]. unfold postings_for in *. rewrite filter_app. cbn.
destruct (decide (k' = k)) as [->|Hne].
- rewrite decide_True by done. rewrite Hn. by split.
- rewrite decide_False by congruence. by rewrite app_nil_r.
Qed.

(** Only the ledger matters, and it may grow. *)
Lemma once_ledger ps ps' es : once ps es →
  (∀ key, is_Some (pp_postings ps !! key) → is_Some (pp_postings ps' !! key)) → once ps' es.
Proof using Type. intros Ho Hl k. destruct (Ho k) as [H1 H2]. split; [done|]. intros Hp. by apply Hl, H2. Qed.

Lemma claim_hoare p kind eid now :
  hoare (about once) (claimAndNotify (Some world_notifications) p kind eid now)
    (λ _, about (λ ps es, once ps es ∧ (kind = PostingDue → holding (sp_ID p, sp_NextDueAt p) ps es)))
    (about once).
Proof using Type.
unfold claimAndNotify. set (I' := λ ps es, once ps es ∧ (kind = PostingDue → holding (sp_ID p, sp_NextDueAt p) ps es)).
apply (hoare_bind _ _ _ (λ _, about I')); [|intros ?; apply quiet_hoare; [apply quiet_notify|by intros ?? [? _]]].
apply hoare_map_err, payment_write_hoare. intros ps es Ho. unfold memory_ClaimPosting.
destruct (pp_postings ps !! _) eqn:Hk; [done|]. unfold posting_key in *. cbn in Hk.
assert (once (ps <| pp_postings ::= <[(sp_ID p, UnixNano (sp_NextDueAt p), kind) :=
  mkScheduledPaymentPosting (sp_ID p) (sp_NextDueAt p) kind eid now]> |>) es) as Ho'.
{ apply (once_ledger ps); [done|]. intros key Hs. cbn. rewrite lookup_insert_is_Some'. by right. }
split; [exact Ho'|]. intros ->. split; [exact Ho'|]. split.
- unfold claimed. cbn. by rewrite lookup_insert_eq.
- destruct (Ho (sp_ID p, sp_NextDueAt p)) as [_ Hc]. destruct (postings_for _ es); [done|].
  destruct (Hc ltac:(done)) as [x Hx]. cbn in Hx. by rewrite Hk in Hx.
Qed.

Lemma unless_hoare m I I0 : hoare (about I0) m (λ _, about I) (about I0) →
  hoare (about I0) (unless_posted m) (λ existed, about (if existed then I0 else I)) (about I0).
Proof using Type.
intros Hm. unfold unless_posted.
apply (hoare_bind _ _ _ (λ r, about (match r with inr _ => I | inl _ => I0 end))).
- apply hoare_catch. eapply hoare_weaken; [exact Hm|..]; auto.
- intros [e|[]]; [case_match|]; [by apply hoare_ret|by apply hoare_throw|by apply hoare_ret].
Qed.

Lemma post_hoare p eid due now : 
  hoare (about (holding (sp_ID p, due))) (postExpense background world_expenses p eid due now)
    (λ _, about once) (about once).
Proof using Type.
unfold postExpense. apply payment_unit_hoare; [|by intros ps es [? _]].
apply (hoare_bind _ _ _ (λ _, about (holding (sp_ID p, due)))).
{ apply expense_event_hoare. intros ps es ev Hh Hev. apply holding_other; [done|]. unfold posting_of. by rewrite Hev. }
intros ?. apply (hoare_bind _ _ _ (λ _, about (holding (sp_ID p, due)))).
{ apply hoare_map_err. eapply hoare_weaken; [apply (quiet_hoare _ (holding (sp_ID p, due)) (λ _ _, True))|..]; try done.
  intros w. cbn. unfold zoom. cbn. unfold memory_CreateExpense. by destruct (w_expenses w !! ex_ID (posted_expense p eid due now)). }
intros ?. apply payment_event_hoare. intros ps es ev Hh Hev. apply (once_posted _ _ _ _ Hh).
unfold posting_of. by rewrite Hev.
Qed.

Lemma advance_hoare id next last paused f :
  hoare (about once) (map_err f (AdvanceSchedule id next last paused)) (λ _, about once) (about once).
Proof using Type.
apply hoare_map_err, payment_write_hoare. intros ps es Ho. unfold with_payment.
destruct (pp_payments ps !! id) as [x|]; [|done]. destruct (live (sp_DeletedAt x)); [|done]. by apply (once_ledger ps).
Qed.

(** Case analysis on the condition at the head of the program. *)
#[local] Ltac branch := lazymatch goal with |- hoare _ (if ?b then _ else _) _ _ => destruct b eqn:? end.

Lemma occurrence_hoare p now :
  hoare (about once) (runOccurrence (Some world_expenses) (Some world_notifications) background p now)
    (λ _, about once) (about once).
Proof using Type.
unfold runOccurrence. branch; [by apply hoare_ret|]. branch.
{ eapply hoare_bind; [apply unless_hoare, claim_hoare|]. intros b. apply hoare_ret.
  intros w. destruct b; [done|]. by intros [? _]. }
branch; [by apply hoare_ret|]. branch.
{ eapply hoare_bind; [apply advance_hoare|]. intros ?. by apply hoare_ret. }
eapply (hoare_bind _ _ _ (λ _, about once)); [branch; (apply quiet_hoare; [by intros w|done])|]. intros eid.
eapply hoare_bind; [apply unless_hoare, claim_hoare|]. intros [|]; [by apply hoare_ret|].
apply (hoare_bind _ _ _ (λ _, about once)).
- branch; [|by apply hoare_ret; intros w [? _]]. apply hoare_map_err.
  eapply hoare_weaken; [apply post_hoare| | |]; try done. intros w [_ Hw]. by apply Hw.
- intros ?. eapply hoare_bind; [apply advance_hoare|]. intros ?. by apply hoare_ret.
Qed.
Lemma hoare_fold {A B} (body : B → A → M World B) acc l P E :
  (∀ acc x, x ∈ l → hoare P (body acc x) (λ _, P) E) → hoare P (fold_m body acc l) (λ _, P) E.
Proof using Type.
revert acc. induction l as [|x l IH]; intros acc Hb; [by apply hoare_ret|]. cbn.
apply (hoare_bind _ _ _ (λ _, P)); [apply Hb; left|]. intros acc'. apply IH. intros. apply Hb. by right.
Qed.

(** The pass keeps what running each due occurrence keeps. *)
Lemma pass_hoare (I : PaymentStore → list DomainEvent → Prop) (φ : ScheduledPayment → Prop) now :
  (∀ ps es p, I ps es → (∃ id, pp_payments ps !! id = Some p) → φ p) →
  (∀ p, φ p →
     hoare (about I) (runOccurrence (Some world_expenses) (Some world_notifications) background p now)
       (λ _, about I) (about I)) →
  hoare (about I) (PostDue (Some world_expenses) (Some world_notifications) background now)
    (λ _, about I) (about I).
Proof using Type.
intros Hφ Hrun. unfold PostDue. apply (hoare_bind _ _ _ (λ ps w, Forall φ ps ∧ about I w)).
{ apply hoare_map_err. intros w Hw. cbn. unfold zoom, about in *. cbn. split; [|exact Hw].
  apply Forall_forall. intros p Hp. unfold list_due in Hp. case_match.
  - apply elem_take in Hp.
    rewrite sort_slice_perm in Hp. apply range_values_elem in Hp as [_ Hp]. by eapply Hφ.
  - rewrite sort_slice_perm in Hp. apply range_values_elem in Hp as [_ Hp]. by eapply Hφ. }
intros ps. apply hoare_pure. intros Hps. apply (hoare_bind _ _ _ (λ _, about I)); [|intros [n errs]; by apply hoare_ret].
apply hoare_fold. intros acc p Hp. unfold post_one. rewrite Forall_forall in Hps. apply (hoare_bind _ _ _ (λ _, about I)).
- apply hoare_catch. eapply hoare_weaken; [apply Hrun, Hps, Hp|..]; auto.
- intros [e|n]; by apply hoare_ret.
Qed.

(** The calls of the service and the passes of the scheduler. *)
Inductive PaymentCommand :=
  | CmdSchedule (owner : AppUser) (payment : ScheduledPayment)
  | CmdReschedule (owner : AppUser) (paymentID : string) (update : ScheduledPayment)
  | CmdUnschedule (owner : AppUser) (paymentID : string)
  | CmdPostDue (now : Time).

Definition run_payment (c : PaymentCommand) : M World () :=
  match c with
  | CmdSchedule o p =>
      CreateScheduledPayment_service (Some world_taxonomy) background o p;; mret ()
  | CmdReschedule o id p =>
      UpdateScheduledPayment_service (Some world_taxonomy) background o id p;; mret ()
  | CmdUnschedule o id => DeleteScheduledPayment_service background o id
  | CmdPostDue now => PostDue (Some world_expenses) (Some world_notifications) background now;; mret ()
  end.

Definition run_payments (cs : list PaymentCommand) : M World () :=
  for_each (λ c, r ← catch (run_payment c); mret ()) cs.

Lemma check_quiet e : quiet (check e).
Proof using Type. intros w. by destruct e. Qed.

Lemma own_quiet o id : quiet (own_payment o id).
Proof using Type.
unfold own_payment. apply keeps_bind; [apply keeps_map_err|intros p; by case_match].
intros w. cbn. unfold zoom. cbn. destruct (pp_payments (w_payments w) !! id) as [p|] eqn:Hp; cbn; [|done].
by destruct (payment_visible _ _ _).
Qed.

#[local] Ltac quiet_step :=
  apply (hoare_bind _ _ _ (λ _, about once));
    [apply quiet_hoare; [first [apply check_quiet|apply own_quiet|apply quiet_group|apply quiet_ownership|by intros w]|done]
    |intros ?].

(** A unit that records an event of another kind and writes only payments. *)
Lemma other_unit_hoare f ty id actor p t (rest : M World ()) :
  (∀ ev, ev_Payload ev = p → posting_of ev = None) →
  hoare (about once) rest (λ _, about once) (λ _, True) →
  hoare (about once) (Within background (λ _, map_err f (append_payment_event ty id actor p t);; rest))
    (λ _, about once) (about once).
Proof using Type.
intros Hp Hrest. apply payment_unit_hoare; [|done]. apply (hoare_bind _ _ _ (λ _, about once)); [|intros ?; exact Hrest].
apply payment_event_hoare. intros ps es ev Ho Hev. apply once_other; auto.
Qed.

Lemma write_once_hoare (m : M PaymentStore ()) :
  (∀ ps, pp_postings (m ps).1 = pp_postings ps) →
  hoare (about once) (zoom L_payments m) (λ _, about once) (λ _, True).
Proof using Type.
intros Hm. eapply hoare_weaken; [apply (payment_write_hoare m once once (λ _ _, True))|..]; try done.
intros ps es Ho. specialize (Hm ps). destruct (m ps) as [ps' [e|[]]]; [done|]. apply (once_ledger ps); [done|].
cbn in Hm. by rewrite Hm.
Qed.

Lemma with_payment_ledger id ok f ps : pp_postings (with_payment id ok f ps).1 = pp_postings ps.
Proof using Type. unfold with_payment. destruct (pp_payments ps !! id) as [p|]; [|done]. by destruct (ok p). Qed.

Lemma payment_command_hoare c : hoare (about once) (run_payment c) (λ _, about once) (about once).
Proof using Type.
destruct c as [o p|o id u|o id|now]; unfold run_payment.
- apply (hoare_bind _ _ _ (λ _, about once)); [|intros ?; by apply hoare_ret].
  unfold CreateScheduledPayment_service. do 5 quiet_step.
  apply (hoare_bind _ _ _ (λ _, about once)); [|intros ?; by apply hoare_ret].
  apply other_unit_hoare; [intros ev Hev; unfold posting_of; by rewrite Hev|]. by apply write_once_hoare.
- apply (hoare_bind _ _ _ (λ _, about once)); [|intros ?; by apply hoare_ret].
  unfold UpdateScheduledPayment_service. do 5 quiet_step.
  apply (hoare_bind _ _ _ (λ _, about once)); [|intros ?; by apply hoare_ret].
  apply other_unit_hoare; [intros ev Hev; unfold posting_of; by rewrite Hev|]. apply write_once_hoare.
  intros ps. apply with_payment_ledger.
- unfold DeleteScheduledPayment_service. do 2 quiet_step.
  apply other_unit_hoare; [intros ev Hev; unfold posting_of; by rewrite Hev|].
  apply (hoare_bind _ _ _ (λ _, about once)); [eapply hoare_weaken; [apply (quiet_hoare _ once (λ _ _, True))|..]; try done; by intros w|].
  intros b. branch; [|by apply hoare_throw].
  apply (hoare_bind _ _ _ (λ _, about once)); [eapply hoare_weaken; [apply (quiet_hoare _ once (λ _ _, True))|..]; try done; by intros w|].
  intros t. apply write_once_hoare. intros ps. apply with_payment_ledger.
- apply (hoare_bind _ _ _ (λ _, about once)); [|intros ?; by apply hoare_ret].
  apply (pass_hoare once (λ _, True)); [done|]. intros p _. apply occurrence_hoare.
Qed.

Lemma payments_inv (I : World → Prop) cs w :
  (∀ c, c ∈ cs → hoare I (run_payment c) (λ _, I) I) → I w → I (run_payments cs w).1.
Proof using Type.
intros Hc. apply for_each_inv. intros c w1 Hin Hw. specialize (Hc c Hin w1 Hw).
unfold mbind, M_bind, catch. by destruct (run_payment c w1) as [w' [e|u]].
Qed.

(** [C16] Whatever users and the scheduler do, and whatever fails in between, the
    log never carries two postings of the same occurrence of a payment, and
    every posting is backed by a row of the ledger. *)
Theorem posted_at_most_once cs w k : about once w →
  let w' := (run_payments cs w).1 in
  (length (postings_for k (Events (w_events w'))) ≤ 1)%nat ∧
  (postings_for k (Events (w_events w')) ≠ [] → claimed (w_payments w') k).
Proof using Type.
intros Hw. exact (payments_inv _ cs w (λ c _, payment_command_hoare c) Hw k).
Qed.
(** ** A claimed occurrence is never posted *)

(** The payment [p] as stored, its current occurrence claimed, and the postings
    of [p] in the log. *)
Definition stalled (p : ScheduledPayment) (posted : list DomainEvent) (ps : PaymentStore)
    (es : list DomainEvent) : Prop :=
  (∀ id q, pp_payments ps !! id = Some q → sp_ID q = id) ∧
  pp_payments ps !! sp_ID p = Some p ∧ claimed ps (sp_ID p, sp_NextDueAt p) ∧
  filter (λ ev, fst <$> posting_of ev = Some (sp_ID p)) es = posted.

Lemma stalled_event p posted ps es ev : stalled p posted ps es →
  fst <$> posting_of ev ≠ Some (sp_ID p) → stalled p posted ps (es ++ [ev]).
Proof using Type.
intros (Hk & Hp & Hc & He) Hev. split; [done|]. split; [done|]. split; [done|].
rewrite filter_app. cbn. rewrite decide_False by done. by rewrite app_nil_r.
Qed.

Lemma stalled_ledger p posted ps es f : stalled p posted ps es →
  (∀ key, is_Some (pp_postings ps !! key) → is_Some (f (pp_postings ps) !! key)) →
  stalled p posted (ps <| pp_postings ::= f |>) es.
Proof using Type. intros (Hk & Hp & Hc & He) Hf. split; [done|]. split; [done|]. split; [by apply Hf|done]. Qed.

Lemma stalled_claim p posted q kind eid now :
  hoare (about (stalled p posted)) (claimAndNotify (Some world_notifications) q kind eid now)
    (λ _, about (λ ps es, stalled p posted ps es ∧ ¬ (q = p ∧ kind = PostingDue))) (about (stalled p posted)).
Proof using Type.
unfold claimAndNotify. set (I' := λ ps es, stalled p posted ps es ∧ ¬ (q = p ∧ kind = PostingDue)).
apply (hoare_bind _ _ _ (λ _, about I')); [|intros ?; apply quiet_hoare; [apply quiet_notify|by intros ?? [? _]]].
apply hoare_map_err, payment_write_hoare. intros ps es Hs. unfold memory_ClaimPosting.
destruct (pp_postings ps !! _) eqn:Hk; [done|]. split.
- apply stalled_ledger; [done|]. intros key Hkey. rewrite lookup_insert_is_Some'. by right.
- intros [-> ->]. destruct Hs as (_ & _ & [x Hx] & _). unfold posting_key in Hk. cbn in *. by rewrite Hk in Hx.
Qed.

Lemma stalled_post p posted q eid due now : sp_ID q ≠ sp_ID p →
  hoare (about (stalled p posted)) (postExpense background world_expenses q eid due now)
    (λ _, about (stalled p posted)) (about (stalled p posted)).
Proof using Type.
intros Hq. unfold postExpense. apply payment_unit_hoare; [|done].
apply (hoare_bind _ _ _ (λ _, about (stalled p posted))).
{ apply expense_event_hoare. intros ps es ev Hh Hev. apply stalled_event; [done|]. unfold posting_of. by rewrite Hev. }
intros ?. apply (hoare_bind _ _ _ (λ _, about (stalled p posted))).
{ apply hoare_map_err. eapply hoare_weaken; [apply (quiet_hoare _ (stalled p posted) (λ _ _, True))|..]; try done.
  intros w. cbn. unfold zoom. cbn. unfold memory_CreateExpense. by destruct (w_expenses w !! ex_ID (posted_expense q eid due now)). }
intros ?. apply payment_event_hoare. intros ps es ev Hh Hev. apply stalled_event; [done|].
unfold posting_of. rewrite Hev. cbn. congruence.
Qed.

Lemma stalled_advance p posted q next last paused f : sp_ID q ≠ sp_ID p →
  hoare (about (stalled p posted)) (map_err f (AdvanceSchedule (sp_ID q) next last paused))
    (λ _, about (stalled p posted)) (about (stalled p posted)).
Proof using Type.
intros Hq. apply hoare_map_err, payment_write_hoare. intros ps es Hs. unfold with_payment.
destruct (pp_payments ps !! sp_ID q) as [x|] eqn:Hx; [|done]. destruct (live (sp_DeletedAt x)); [|done].
destruct Hs as (Hk & Hp & Hc & He). split; [|split; [|by split]].
- intros id y. cbn. rewrite lookup_insert_Some. intros [[<- <-]|[_ Hy]]; [apply (Hk _ _ Hx)|by apply Hk].
- cbn. by rewrite lookup_insert_ne.
Qed.

Lemma stalled_occurrence p posted q now : ScheduledPaymentFinished p (sp_NextDueAt p) = false →
  (sp_ID q = sp_ID p → q = p) →
  hoare (about (stalled p posted))
    (runOccurrence (Some world_expenses) (Some world_notifications) background q now)
    (λ _, about (stalled p posted)) (about (stalled p posted)).
Proof using Type.
intros Hfin Hq. unfold runOccurrence. branch; [by apply hoare_ret|]. branch.
{ eapply hoare_bind; [apply unless_hoare, stalled_claim|]. intros b. apply hoare_ret.
  intros w. destruct b; [done|]. by intros [? _]. }
branch; [by apply hoare_ret|]. branch.
{ eapply hoare_bind; [apply stalled_advance|]; [|intros ?; by apply hoare_ret]. intros He. rewrite (Hq He) in *. congruence. }
eapply (hoare_bind _ _ _ (λ _, about (stalled p posted))); [branch; (apply quiet_hoare; [by intros w|done])|]. intros eid.
eapply hoare_bind; [apply unless_hoare, stalled_claim|]. intros [|]; [by apply hoare_ret|].
destruct (decide (sp_ID q = sp_ID p)) as [He|Hne].
{ intros w [_ Hw]. exfalso. apply Hw. split; [by apply Hq|done]. }
apply (hoare_bind _ _ _ (λ _, about (stalled p posted))).
- branch; [|by apply hoare_ret; intros w [? _]]. apply hoare_map_err.
  eapply hoare_weaken; [by apply (stalled_post p posted)| | |]; try done. by intros w [Hw _].
- intros ?. eapply hoare_bind; [by apply stalled_advance|]. intros ?. by apply hoare_ret.
Qed.

(** An occurrence that was claimed but not posted, as when posting its
    expense failed after the claim, is never posted: no later pass of the
    scheduler adds a posting of the payment or moves its cursor, so the payment
    does not run again until its owner edits it. *)
Theorem claimed_occurrence_stalls p nows w :
  (∀ id q, pp_payments (w_payments w) !! id = Some q → sp_ID q = id) →
  pp_payments (w_payments w) !! sp_ID p = Some p →
  claimed (w_payments w) (sp_ID p, sp_NextDueAt p) →
  ScheduledPaymentFinished p (sp_NextDueAt p) = false →
  let w' := (run_payments (map CmdPostDue nows) w).1 in
  let posted := filter (λ ev, fst <$> posting_of ev = Some (sp_ID p)) in
  pp_payments (w_payments w') !! sp_ID p = Some p ∧
  posted (Events (w_events w')) = posted (Events (w_events w)).
Proof using Type.
intros Hk Hp Hc Hfin w' posted.
assert (about (stalled p (posted (Events (w_events w)))) w') as (_ & Hp' & _ & He'); [|by split].
apply payments_inv; [|by split_and!]. intros c Hin. apply list_elem_of_In, in_map_iff in Hin as (now & <- & _).
unfold run_payment. apply (hoare_bind _ _ _ (λ _, about (stalled p (posted (Events (w_events w))))));
  [|intros ?; by apply hoare_ret].
apply (pass_hoare _ (λ q, sp_ID q = sp_ID p → q = p)).
- intros ps es q (Hk' & Hp' & _) [id Hq] He. specialize (Hk' _ _ Hq). subst id. rewrite He in Hq.
  rewrite Hp' in Hq. by simplify_eq.
- intros q Hq. by apply stalled_occurrence.
Qed.
End Safety.

(** ** A run *)

Module Sample.
Import World.Sample.
#[local] Existing Instance default_runtime.

(** An auto-posted monthly rent, due at its start date. *)
Definition rent : ScheduledPayment :=
  sample_rent <| sp_ID := "rent" |> <| sp_AutoPost := true |> <| sp_NextDueAt := sp_StartDate sample_rent |>
    <| sp_DeletedAt := None |> <| sp_Paused := false |>.

Definition rented (expenses : ExpenseStore) : World :=
  empty_world <| w_payments := mkPaymentStore {["rent" := rent]} ∅ |> <| w_expenses := expenses |>.

Definition three_passes : list PaymentCommand :=
  [CmdPostDue (sp_StartDate rent); CmdPostDue (sp_StartDate rent);
   CmdPostDue (sp_StartDate rent + 40 * 24 * Hour)].

Lemma rented_once expenses : about once (rented expenses).
Proof. intros k. split; [cbn; lia|done]. Qed.

Lemma posted_at_most_once_witness :
  let w' := (run_payments three_passes (rented ∅)).1 in
  (length (postings_for ("rent", sp_StartDate rent) (Events (w_events w'))) ≤ 1)%nat ∧
  (postings_for ("rent", sp_StartDate rent) (Events (w_events w')) ≠ [] →
     claimed (w_payments w') ("rent", sp_StartDate rent)).
Proof.
exact (posted_at_most_once three_passes (rented ∅) ("rent", sp_StartDate rent) (rented_once ∅)).
Defined.

(** The passes post the rent of each of the two due dates. *)
Example passes_post :
  length (Events (w_events (run_payments three_passes (rented ∅)).1)) = 4%nat.
Proof. vm_compute. reflexivity. Qed.

(** An expense is already filed under the id drawn for the rent: the pass fails
    after the claim, and no later pass posts the rent. *)
Definition taken : ExpenseStore :=
  {["id" := posted_expense rent "id" 0 0]}.

Definition failed : World := (run_payment (CmdPostDue (sp_StartDate rent)) (rented taken)).1.

Definition later : list Time := [sp_StartDate rent; sp_StartDate rent + 400 * 24 * Hour].

Lemma claimed_occurrence_stalls_witness :
  pp_payments (w_payments (run_payments (map CmdPostDue later) failed).1) !! "rent" = Some rent.
Proof.
apply (claimed_occurrence_stalls rent later failed).
- intros id q. assert (pp_payments (w_payments failed) = {["rent" := rent]}) as ->
    by (vm_compute; reflexivity).
  rewrite lookup_singleton_Some. by intros [<- <-].
- vm_compute. reflexivity.
- vm_compute. by eexists.
- vm_compute. reflexivity.
Defined.
End Sample.
