(* ===== verification/BudgetUsage.v ===== *)
(** * Budget usage (src/internal/core/service/budget_usage_projection.go)

    The projection that mirrors expense contributions into the budgets context,
    recomputes the spend of every budget period a change touches, and queues an
    alert when a threshold rung is newly crossed. *)

From S2P Require Export Prelude GoTime GoStrings Domain Periods Json Outbox UnitOfWork Ports.
#[global] Open Scope Z_scope.

Definition BudgetUsageProjectionName : string := "budget_usage".

Record budgetWindow := mkBudgetWindow {
  bw_budget : BudgetRecord; bw_start : Time; bw_end : Time
}.

(** [add] of [affectedWindows]: the times at which a scope changed. *)
Definition add_scope (c : ExpenseContribution) (scopes : gmap (string * string) (list Time))
    : gmap (string * string) (list Time) :=
  if (ec_OwnerID c =s "") || (ec_CategoryID c =s "") || IsZero (ec_OccurredAt c) then scopes
  else
    let key := (ec_OwnerID c, ec_CategoryID c) in
    <[key := default [] (scopes !! key) ++ [ec_OccurredAt c]]> scopes.

Definition window_identity (budget : BudgetRecord) (start : Time) : string :=
  bd_ID budget +:+ "@" +:+ Itoa (UnixNano start).

(** One window per identity, in the order of appearance. *)
Definition add_window (acc : gmap string () * list budgetWindow) (budget : BudgetRecord) (at_ : Time)
    : gmap string () * list budgetWindow :=
  let '(start, end_) := BudgetWindow budget at_ in
  let identity := window_identity budget start in
  match acc.1 !! identity with
  | Some _ => acc
  | None => (<[identity := ()]> acc.1, acc.2 ++ [mkBudgetWindow budget start end_])
  end.

Section Projection.
Context `{GoRuntime} {W : Type} `{Env W} `{BudgetUsageRepository W} `{NotificationRepository W}.

Definition affectedWindows (previous : ExpenseContribution) (found : bool) (next : ExpenseContribution)
    : M W (list budgetWindow) :=
  let scopes := add_scope next (if found then add_scope previous ∅ else ∅) in
  '(_, windows) ← fold_m (λ acc '(key, times),
      budgets ← ListBudgetsForCategory key.1 key.2;
      mret (foldl (λ acc budget, foldl (λ acc at_, add_window acc budget at_) acc times) acc budgets))
    (∅, []) (map_range scopes);
  mret windows.

Definition queueAlert (alert : BudgetAlert) : M W () :=
  id ← NewString;
  now ← Now;
  map_err (λ e, Errorf ("queue budget alert for " +:+ ba_BudgetID alert +:+ ": ") e "")
    (QueueNotification (mkNotificationDelivery id (ba_OwnerID alert) "" NotificationBudgetAlert
      (list_to_map [("budget_id", ba_BudgetID alert); ("budget_name", ba_BudgetName alert);
                    ("currency", ba_Currency alert); ("spent_minor", Itoa (ba_SpentMinor alert));
                    ("limit_minor", Itoa (ba_LimitMinor alert));
                    ("percent_used", Itoa (ba_PercentUsed alert));
                    ("exceeded", FormatBool (ba_Exceeded alert));
                    ("period_start", FormatRFC3339 (ba_PeriodStart alert))])
      now NotificationPending 0)).

(** One turn of the loop of [recompute]. *)
Definition recompute_window (replay : bool) (window : budgetWindow) : M W () :=
  let budget := bw_budget window in
  spent ← SumContributions (bd_OwnerID budget) (bd_CategoryID budget) (bw_start window) (bw_end window);
  '(stored, _) ← LoadUsage (bd_ID budget) (bw_start window);
  let stored := stored <| bu_PeriodStart := bw_start window |> in
  let crossing := BudgetThresholdCrossing budget stored spent in
  let alerted := AlertedPercentFor budget (stored <| bu_SpentMinor := spent |>) spent in
  now ← Now;
  SaveUsage (mkBudgetUsage (bu_BudgetID stored) (bu_PeriodStart stored) spent alerted now);;
  match crossing with
  | Some alert => if replay then mret () else queueAlert alert
  | None => mret ()
  end.

Definition recompute (windows : list budgetWindow) (replay : bool) : M W () :=
  for_each (recompute_window replay) windows.

Definition handleExpense (message : Message) : M W () :=
  match DecodeExpenseContribution (EventType message) (Payload message) with
  | inl err => throw err
  | inr (_, false) => mret ()
  | inr (next, true) =>
      '(previous, found) ← usage_LoadContribution (ec_ExpenseID next);
      if negb (ec_Active next) && negb found then mret ()
      else
        let next := if negb (ec_Active next) then previous <| ec_Active := false |> else next in
        usage_SaveContribution next;;
        windows ← affectedWindows previous found next;
        recompute windows (Replay message)
  end.

Definition handleBudget (message : Message) : M W () :=
  decoded_at ← Now;
  match DecodeBudget decoded_at (EventType message) (Payload message) with
  | inl err => throw err
  | inr (_, false) => mret ()
  | inr (budget, true) =>
      if (EventType message =s "budget_removed") ||
         match bd_DeletedAt budget with Some _ => true | None => false end
      then DeleteUsage (bd_ID budget)
      else
        '(current, found) ← usage_GetBudget (bd_ID budget);
        if negb found then DeleteUsage (bd_ID budget)
        else
          now ← Now;
          let '(start, end_) := BudgetWindow current now in
          recompute [mkBudgetWindow current start end_] (Replay message)
  end.

Definition Handle_budget_usage (message : Message) : M W () :=
  if AggregateType message =s "expense" then handleExpense message
  else if AggregateType message =s "budget" then handleBudget message
  else mret ().

Definition budget_usage_handler : Handler W :=
  mkHandler BudgetUsageProjectionName ["expense"; "budget"] Handle_budget_usage.
End Projection.
