(* ===== verification/BudgetSpend.v ===== *)
(** * Budget spend equals the recorded contributions

    Whatever events the budget-usage projection is delivered, in any order and any
    number of times, every usage row of a live budget holds exactly the sum of the
    active contributions in its window.  Proved against what the projection relies on of
    its repositories ([UsageLaws]), which the in-memory ones provide here and those of
    PostgreSQL in PgBudgets. *)

From Stdlib Require Import Ascii.
From S2P Require Export Prelude GoTime GoStrings Domain Periods Json Outbox UnitOfWork Ports Memory.
From S2P Require Export MemoryStores World BudgetUsage.
#[global] Open Scope Z_scope.

(** ** Windows *)

Lemma window_of_start b t u : (BudgetWindow b t).1 = (BudgetWindow b u).1 → BudgetWindow b t = BudgetWindow b u.
Proof. unfold BudgetWindow. repeat case_decide; cbn; try intros ->; done. Qed.

(** A period outside the known ones is counted monthly. *)
Lemma window_monthly b t :
  bd_Period b ∉ [BudgetDaily; BudgetWeekly; BudgetYearly; BudgetCustom] →
  BudgetWindow b t = BudgetWindow (b <| bd_Period := BudgetMonthly |>) t.
Proof.
rewrite !not_elem_of_cons. intros (H1 & H2 & H3 & H4 & _). unfold BudgetWindow at 1.
do 4 (case_decide; [contradiction|]). reflexivity.
Qed.

Lemma window_custom b t u : bd_Period b = BudgetCustom → BudgetWindow b t = BudgetWindow b u.
Proof. unfold BudgetWindow. intros ->. reflexivity. Qed.

(** An instant in a window of the budget is in its own window: that one. *)
Lemma window_contains b t u : (BudgetWindow b t).1 ≤ u < (BudgetWindow b t).2 → BudgetWindow b u = BudgetWindow b t.
Proof.
assert (∀ b', bd_Period b' ∈ [BudgetDaily; BudgetWeekly; BudgetMonthly; BudgetYearly] →
  (BudgetWindow b' t).1 ≤ u < (BudgetWindow b' t).2 → BudgetWindow b' u = BudgetWindow b' t) as Hcal.
{ intros b' Hb Hu. pose proof (calendar_window b' t u Hb) as Hp. destruct (BudgetWindow b' t). by apply Hp. }
intros Hu. destruct (decide (bd_Period b = BudgetCustom)) as [Hc|Hc]; [by apply window_custom|].
destruct (decide (bd_Period b ∈ [BudgetDaily; BudgetWeekly; BudgetMonthly; BudgetYearly])) as [Hb|Hb]; [by apply Hcal|].
assert (bd_Period b ∉ [BudgetDaily; BudgetWeekly; BudgetYearly; BudgetCustom]) as Hm.
{ rewrite !not_elem_of_cons in *. pose proof (not_elem_of_nil (bd_Period b)). tauto. }
rewrite (window_monthly b t Hm) in Hu |- *. rewrite (window_monthly b u Hm).
apply Hcal; [|exact Hu]. right; right; left.
Qed.

(** ** Identities *)

Lemma Itoa_no_at n : no_char "@"%char (Itoa n) = true.
Proof. apply Itoa_no_char; [|done..]. intros m. unfold pretty_N_char. by repeat case_match. Qed.

Lemma identity_inj b b' s s' : window_identity b s = window_identity b' s' →
  usage_key (bd_ID b) s = usage_key (bd_ID b') s'.
Proof.
unfold window_identity, usage_key. intros Heq.
apply (split_last_char "@"%char) in Heq as [-> He]; [|apply Itoa_no_at..].
unfold Itoa in He. by rewrite (inj pretty _ _ He).
Qed.

Section Spend.
Context `{GoRuntime}.

(** ** Sums *)

Definition amounts (l : list ExpenseContribution) : Z := foldr (λ c t, ec_AmountMinor c + t) 0 l.

Lemma foldl_amounts l z :
  foldl (λ total c, wrap64 (total + ec_AmountMinor c)) (wrap64 z) l = wrap64 (z + amounts l).
Proof using Type.
revert z. induction l as [|c l IH]; intros z; simpl; [by rewrite Z.add_0_r|].
rewrite wrap64_add_l, IH. f_equal. unfold amounts. simpl. apply eq_sym, Z.add_assoc.
Qed.

#[local] Instance amounts_perm : Proper ((≡ₚ) ==> (=)) amounts.
Proof using Type.
intros l l' Hl. induction Hl as [|c l l' _ IH|c c' l|l1 l2 l3 _ IH1 _ IH2]; unfold amounts in *; simpl;
  [done|by rewrite IH|lia|by rewrite IH1].
Qed.

(** The values of a map with an entry set: the new one and the others. *)
Lemma values_insert {V} (test : V → bool) (m : gmap string V) id c :
  List.filter test (map snd (map_to_list (<[id := c]> m))) ≡ₚ
  List.filter test (c :: map snd (map_to_list (delete id m))).
Proof using Type.
apply filter_perm. rewrite <- insert_delete_eq.
change (c :: map snd (map_to_list (delete id m))) with (map snd ((id, c) :: map_to_list (delete id m))).
apply Permutation_map, map_to_list_insert, lookup_delete_eq.
Qed.

Lemma sum_spec o k f t s :
  sum_contributions o k f t s = wrap64 (amounts (range_values (counts_in o k f t) (bs_contributions s))).
Proof using Type.
unfold sum_contributions. change 0 with (wrap64 0) at 1. by rewrite foldl_amounts.
Qed.

(** The sum before it wraps around. *)
Definition raw_sum (owner category : string) (from to : Time) (s : UsageStore) : Z :=
  amounts (range_values (counts_in owner category from to) (bs_contributions s)).

(** A contribution that counts neither before nor after leaves a sum alone. *)
Lemma raw_insert o k f t s id c :
  counts_in o k f t c = false →
  (∀ p, bs_contributions s !! id = Some p → counts_in o k f t p = false) →
  raw_sum o k f t (s <| bs_contributions ::= <[id := c]> |>) = raw_sum o k f t s.
Proof using Type.
intros Hc Hp. unfold raw_sum. cbn. apply amounts_perm.
etrans; [apply range_values_perm|]. etrans; [|symmetry; apply range_values_perm].
set (m := bs_contributions s) in *. etrans; [apply values_insert|]. cbn. rewrite Hc.
destruct (m !! id) as [p|] eqn:Hm.
- rewrite <- (insert_id m id p Hm) at 2. etrans; [|symmetry; apply values_insert]. cbn. by rewrite (Hp p).
- by rewrite delete_id.
Qed.

(** ** The windows a change affects *)

(** The budgets as the commands leave them: under their ids, with an owner and a
    category. *)
Definition sane_budgets (B : BudgetStore) : Prop :=
  ∀ id b, B !! id = Some b → bd_ID b = id ∧ bd_OwnerID b ≠ "" ∧ bd_CategoryID b ≠ "".

Definition live_budget (B : BudgetStore) (b : BudgetRecord) : Prop :=
  B !! bd_ID b = Some b ∧ bd_DeletedAt b = None.

Definition valid_window (B : BudgetStore) (w : budgetWindow) : Prop :=
  live_budget B (bw_budget w) ∧ ∃ t, BudgetWindow (bw_budget w) t = (bw_start w, bw_end w).

Definition window_key (w : budgetWindow) : string * Z := usage_key (bd_ID (bw_budget w)) (bw_start w).

Definition listed (acc : gmap string () * list budgetWindow) (i : string) : Prop :=
  ∃ w, w ∈ acc.2 ∧ window_identity (bw_budget w) (bw_start w) = i.

Definition acc_ok (B : BudgetStore) (acc : gmap string () * list budgetWindow) : Prop :=
  (∀ i, is_Some (acc.1 !! i) → listed acc i) ∧ (∀ w, w ∈ acc.2 → valid_window B w).

Lemma add_window_ok B acc b at_ : acc_ok B acc → live_budget B b →
  let acc' := add_window acc b at_ in
  acc_ok B acc' ∧ listed acc' (window_identity b (BudgetWindow b at_).1) ∧ (∀ i, listed acc i → listed acc' i).
Proof using Type.
intros [Hs Hv] Hb. unfold add_window. destruct (BudgetWindow b at_) as [start end_] eqn:Hw. cbn.
destruct (acc.1 !! window_identity b start) eqn:Hi.
{ split; [by split|]. split; [apply Hs; by rewrite Hi|done]. }
assert (∀ i, listed acc i → listed (<[window_identity b start := ()]> acc.1,
  acc.2 ++ [mkBudgetWindow b start end_]) i) as Hmono.
{ intros i (w & Hin & Hid). exists w. split; [|done]. cbn. rewrite elem_of_app. by left. }
assert (listed (<[window_identity b start := ()]> acc.1, acc.2 ++ [mkBudgetWindow b start end_])
  (window_identity b start)) as Hnew.
{ exists (mkBudgetWindow b start end_). split; [|done]. cbn. rewrite elem_of_app. right. left. }
split; [split|by split]; cbn.
- intros i. rewrite lookup_insert_is_Some'. intros [<-|Hold]; [exact Hnew|by apply Hmono, Hs].
- intros w. rewrite elem_of_app, list_elem_of_singleton. intros [Hin| ->]; [by apply Hv|]. split; [done|]. by exists at_.
Qed.

(** The two inner loops. *)
Lemma add_times_ok B b times acc : acc_ok B acc → live_budget B b →
  let acc' := foldl (λ acc at_, add_window acc b at_) acc times in
  acc_ok B acc' ∧ (∀ at_, at_ ∈ times → listed acc' (window_identity b (BudgetWindow b at_).1)) ∧
  (∀ i, listed acc i → listed acc' i).
Proof using Type.
intros Hacc Hb. revert acc Hacc. induction times as [|t times IH]; intros acc Hacc; cbn.
{ split; [done|]. split; [by intros ? ?%elem_of_nil|done]. }
destruct (add_window_ok B acc b t Hacc Hb) as (H1 & H2 & H3). destruct (IH _ H1) as (H4 & H5 & H6).
split; [exact H4|]. split; [|auto]. intros at_. rewrite elem_of_cons. intros [->|Hin]; auto.
Qed.

Lemma add_budgets_ok B budgets times acc : acc_ok B acc → (∀ b, b ∈ budgets → live_budget B b) →
  let acc' := foldl (λ acc b, foldl (λ acc at_, add_window acc b at_) acc times) acc budgets in
  acc_ok B acc' ∧
  (∀ b at_, b ∈ budgets → at_ ∈ times → listed acc' (window_identity b (BudgetWindow b at_).1)) ∧
  (∀ i, listed acc i → listed acc' i).
Proof using Type.
revert acc. induction budgets as [|b bs IH]; intros acc Hacc Hb; cbn.
{ split; [done|]. split; [by intros ?? ?%elem_of_nil|done]. }
destruct (add_times_ok B b times acc Hacc (Hb b ltac:(left))) as (H1 & H2 & H3).
destruct (IH _ H1 (λ x Hx, Hb x ltac:(by right))) as (H4 & H5 & H6).
split; [exact H4|]. split; [|auto]. intros b' at_. rewrite elem_of_cons. intros [->|Hin] Ht; auto.
Qed.

(** ** What the repositories keep *)

(** A contribution as it is kept, its time as the repository keeps times. *)
Definition same_scope (kept : Time → Time) (c c' : ExpenseContribution) : Prop :=
  ec_ExpenseID c' = ec_ExpenseID c ∧ ec_OwnerID c' = ec_OwnerID c ∧ ec_CategoryID c' = ec_CategoryID c ∧
  ec_AmountMinor c' = ec_AmountMinor c ∧ ec_OccurredAt c' = kept (ec_OccurredAt c) ∧ ec_Active c' = ec_Active c.
Definition same_spend (u u' : BudgetUsage) : Prop :=
  bu_BudgetID u' = bu_BudgetID u ∧ bu_PeriodStart u' = bu_PeriodStart u ∧ bu_SpentMinor u' = bu_SpentMinor u.

(** Between times the repository compares exactly it counts the same. *)
Lemma same_scope_counts kept o k f t c c' :
  (∀ u, kept u < f ↔ u < f) → (∀ u, kept u < t ↔ u < t) → same_scope kept c c' → counts_in o k f t c' = counts_in o k f t c.
Proof using Type.
intros Hf Ht (_ & H2 & H3 & _ & H5 & H6). unfold counts_in, Before. rewrite H2, H3, H5, H6.
assert (∀ e, (∀ u, kept u < e ↔ u < e) → (kept (ec_OccurredAt c) <? e) = (ec_OccurredAt c <? e)) as Heq.
{ intros e He. apply eq_true_iff_eq. by rewrite !Z.ltb_lt. }
by rewrite !Heq.
Qed.

(** ** Triples over the budgets and their usage *)


(** What the projection relies on of its repositories, told of the budgets and the usage
    they hold: [dated] times of contributions, [kept] as the repository keeps them, [edge]
    ones it compares exactly, [opening] ones it keys periods by, [summed] the sums it gives
    unwrapped; [broken] holds after a call has failed. *)
Class UsageLaws (W : Type) `{Env W} `{BudgetUsageRepository W} `{NotificationRepository W} := {
  budgets_of : W → BudgetStore;
  usage_of : W → UsageStore;
  dated : Time → Prop;
  kept : Time → Time;
  summed : Z → Prop;
  edge : Time → Prop;
  opening : Time → Prop;
  broken : W → Prop;
  usage_is (B : BudgetStore) (I : UsageStore → Prop) (w : W) : Prop := budgets_of w = B ∧ I (usage_of w);
  dated_time t : dated t → t ≠ 0;
  dated_kept t : dated t → dated (kept t);
  kept_edge e : edge e → ∀ t, kept t < e ↔ t < e;
  now_law B I : hoare (usage_is B I) Now (λ _, usage_is B I) broken;
  id_law B I : hoare (usage_is B I) NewString (λ _, usage_is B I) broken;
  queue_law B I d : hoare (usage_is B I) (QueueNotification d) (λ _, usage_is B I) broken;
  load_law B (I : UsageStore → Prop) id : hoare (usage_is B I) (usage_LoadContribution id)
    (λ r, usage_is B (λ s, I s ∧ match bs_contributions s !! id with Some p => r = (p, true) | None => r.2 = false end)) broken;
  save_law B (I : UsageStore → Prop) c : dated (ec_OccurredAt c) → hoare (usage_is B I) (usage_SaveContribution c)
    (λ _, usage_is B (λ s, ∃ s0 c', I s0 ∧ same_scope kept c c' ∧ s = s0 <| bs_contributions ::= <[ec_ExpenseID c := c']> |>)) broken;
  budgets_law B I o k : hoare (usage_is B I) (ListBudgetsForCategory o k) (λ bs w, (∀ b, b ∈ bs ↔
    o ≠ "" ∧ k ≠ "" ∧ (∃ id, B !! id = Some b) ∧ bd_DeletedAt b = None ∧ bd_OwnerID b = o ∧ bd_CategoryID b = k) ∧
    usage_is B I w) broken;
  budget_law B I id : hoare (usage_is B I) (usage_GetBudget id)
    (λ r w, (r.2 = true → B !! id = Some r.1 ∧ bd_DeletedAt r.1 = None) ∧ usage_is B I w) broken;
  sum_law B (I : UsageStore → Prop) o k f t : edge f → edge t → hoare (usage_is B I) (SumContributions o k f t)
    (λ spent, usage_is B (λ s, I s ∧ spent = sum_contributions o k f t s ∧ summed (raw_sum o k f t s))) broken;
  usage_law B (I : UsageStore → Prop) id start : opening start → hoare (usage_is B I) (LoadUsage id start)
    (λ r, usage_is B (λ s, I s ∧ (bu_BudgetID r.1 = id ∨ bs_usage s !! usage_key id start = Some r.1))) broken;
  save_usage_law B (I : UsageStore → Prop) u : opening (bu_PeriodStart u) → hoare (usage_is B I) (SaveUsage u)
    (λ _, usage_is B (λ s, ∃ s0 u', I s0 ∧ same_spend u u' ∧
       s = s0 <| bs_usage ::= <[usage_key (bu_BudgetID u) (bu_PeriodStart u) := u']> |>)) broken;
  delete_law B (I : UsageStore → Prop) id : hoare (usage_is B I) (DeleteUsage id)
    (λ _, usage_is B (λ s, ∃ s0, I s0 ∧ s = s0 <| bs_usage ::= filter (λ kv, kv.1.1 ≠ id) |>)) broken
}.

Section Laws.
Context {W : Type} {env : Env W} {repo : BudgetUsageRepository W} {queue : NotificationRepository W} {laws : UsageLaws W}.

(** The windows of the budgets lie between times the repositories compare exactly. *)
Definition edged (B : BudgetStore) : Prop :=
  ∀ id b t, B !! id = Some b → opening (BudgetWindow b t).1 ∧ edge (BudgetWindow b t).1 ∧ edge (BudgetWindow b t).2.

Lemma affected_hoare B I previous found next : sane_budgets B →
  hoare (usage_is B I) (affectedWindows previous found next)
    (λ ws w, (∀ x, x ∈ ws → valid_window B x) ∧
       (∀ key times b at_, add_scope next (if found then add_scope previous ∅ else ∅) !! key = Some times →
          at_ ∈ times → live_budget B b → bd_OwnerID b = key.1 → bd_CategoryID b = key.2 →
          ∃ x, x ∈ ws ∧ window_key x = usage_key (bd_ID b) (BudgetWindow b at_).1) ∧
       usage_is B I w) broken.
Proof using Type.
intros HB. unfold affectedWindows. set (scopes := add_scope _ _).
assert (∀ entries acc, acc_ok B acc → hoare (usage_is B I)
  (fold_m (λ acc '(key, times),
      budgets ← ListBudgetsForCategory key.1 key.2;
      mret (foldl (λ acc budget, foldl (λ acc at_, add_window acc budget at_) acc times) acc budgets))
    acc entries)
  (λ acc' w, acc_ok B acc' ∧ (∀ i, listed acc i → listed acc' i) ∧
     (∀ key times b at_, (key, times) ∈ entries → at_ ∈ times → live_budget B b → bd_OwnerID b = key.1 →
        bd_CategoryID b = key.2 → listed acc' (window_identity b (BudgetWindow b at_).1)) ∧
     usage_is B I w) broken) as Hfold.
{ intros entries. induction entries as [|[key times] entries IH]; intros acc Hacc.
  { apply hoare_ret. intros w Hw. split; [done|]. split; [done|]. split; [|done].
    intros ???? ?%elem_of_nil. done. }
  cbn [fold_m]. eapply hoare_bind.
  { eapply hoare_bind; [apply budgets_law|]. intros bs. apply hoare_pure. intros Hbs.
    set (acc1 := foldl _ _ _). destruct (add_budgets_ok B bs times acc Hacc) as (H1 & H2 & H3).
    { intros b (_ & _ & [id Hid] & Hd & _)%Hbs. split; [|done]. by rewrite (proj1 (HB _ _ Hid)). }
    apply (hoare_ret _ acc1 (λ acc1 w, (acc_ok B acc1 ∧ (∀ i, listed acc i → listed acc1 i) ∧
      (∀ b at_, at_ ∈ times → live_budget B b → bd_OwnerID b = key.1 → bd_CategoryID b = key.2 →
         listed acc1 (window_identity b (BudgetWindow b at_).1))) ∧ usage_is B I w)).
    intros w Hw. split; [|exact Hw]. split; [exact H1|]. split; [exact H3|].
    intros b at_ Ht [Hb Hd] Ho Hk. apply H2; [|exact Ht]. apply Hbs.
    destruct (HB _ _ Hb) as (_ & Hno & Hnk). rewrite <- Ho, <- Hk. eauto 10. }
  intros acc1. apply hoare_pure. intros (H1 & H2 & H3).
  eapply hoare_weaken; [by apply (IH acc1)|done| |done].
  intros acc2 w (H4 & H5 & H6 & Hw). split; [exact H4|]. split; [auto|]. split; [|exact Hw].
  intros key' times' b at_. rewrite elem_of_cons. intros [[= -> ->]|Hin]; eauto. }
eapply hoare_bind; [apply Hfold; split; [by intros i [? ?]|by intros ? ?%elem_of_nil]|].
intros [seen ws]. apply hoare_ret. intros w ([Hseen Hv] & _ & Hall & Hw). split; [exact Hv|]. split; [|exact Hw].
intros key times b at_ Hkey Ht Hb Ho Hk.
destruct (Hall key times b at_) as (x & Hin & Hid); try done.
- rewrite map_range_perm. by apply elem_of_map_to_list.
- exists x. split; [exact Hin|]. by apply identity_inj.
Qed.
(** ** Fresh rows *)

Definition window_sum (b : BudgetRecord) (t : Time) (s : UsageStore) : Z :=
  sum_contributions (bd_OwnerID b) (bd_CategoryID b) (BudgetWindow b t).1 (BudgetWindow b t).2 s.

Definition window_raw (b : BudgetRecord) (t : Time) (s : UsageStore) : Z :=
  raw_sum (bd_OwnerID b) (bd_CategoryID b) (BudgetWindow b t).1 (BudgetWindow b t).2 s.

(** The row holds the spend of the live budget's window it belongs to. *)
Definition row_fresh (B : BudgetStore) (s : UsageStore) (u : BudgetUsage) : Prop :=
  ∀ b t, live_budget B b → bd_ID b = bu_BudgetID u → (BudgetWindow b t).1 = bu_PeriodStart u →
    bu_SpentMinor u = window_sum b t s ∧ summed (window_raw b t s).

Definition keyed (s : UsageStore) : Prop :=
  (∀ id c, bs_contributions s !! id = Some c → ec_ExpenseID c = id ∧ dated (ec_OccurredAt c)) ∧
  (∀ key u, bs_usage s !! key = Some u → key = usage_key (bu_BudgetID u) (bu_PeriodStart u)).

(** Every row is fresh but those of the windows still to recompute. *)
Definition fresh_but (B : BudgetStore) (ws : list budgetWindow) (s : UsageStore) : Prop :=
  keyed s ∧ ∀ key u, bs_usage s !! key = Some u →
    row_fresh B s u ∨ ∃ x, x ∈ ws ∧ key = window_key x.

Lemma alert_hoare B I a : hoare (usage_is B I) (queueAlert a) (λ _, usage_is B I) broken.
Proof using Type.
unfold queueAlert. eapply hoare_bind; [apply id_law|]. intros id. eapply hoare_bind; [apply now_law|]. intros now.
apply hoare_map_err, queue_law.
Qed.

(** The rows that exist. *)
Definition rows (K : string * Z → Prop) (s : UsageStore) : Prop :=
  ∀ key, K key → is_Some (bs_usage s !! key).

Lemma recompute_window_hoare B replay x ws K : edged B → valid_window B x →
  hoare (usage_is B (λ s, fresh_but B (x :: ws) s ∧ rows K s)) (recompute_window replay x)
    (λ _, usage_is B (λ s, fresh_but B ws s ∧ rows (λ key, K key ∨ key = window_key x) s)) broken.
Proof using Type.
intros HE [[Hb Hd] [t Ht]]. set (b := bw_budget x) in *. unfold recompute_window. fold b.
destruct (HE _ _ t Hb) as (Hop & Hes & Hee). rewrite Ht in Hop, Hes, Hee. cbn [fst snd] in Hop, Hes, Hee.
set (I s := fresh_but B (x :: ws) s ∧ rows K s).
set (sum := sum_contributions (bd_OwnerID b) (bd_CategoryID b) (bw_start x) (bw_end x)).
set (exact := λ spent s, spent = sum s ∧ summed (raw_sum (bd_OwnerID b) (bd_CategoryID b) (bw_start x) (bw_end x) s)).
apply (hoare_bind _ _ _ (λ spent, usage_is B (λ s, I s ∧ exact spent s))); [by apply sum_law|]. intros spent.
apply (hoare_bind _ _ _ (λ r, usage_is B (λ s, I s ∧ exact spent s ∧ bu_BudgetID r.1 = bd_ID b))).
{ eapply hoare_weaken; [apply (usage_law B (λ s, I s ∧ exact spent s) _ _ Hop)|done| |done].
  intros r w (HB & [HI Hs] & Hr). split; [exact HB|]. split; [exact HI|]. split; [exact Hs|].
  destruct Hr as [Hr|Hr]; [exact Hr|]. destruct HI as [[[_ Hk] _] _]. exact (eq_sym (f_equal fst (Hk _ _ Hr))). }
intros [stored found]. cbn [fst snd].
apply (hoare_bind _ _ _ (λ _, usage_is B (λ s, I s ∧ exact spent s ∧ bu_BudgetID stored = bd_ID b))); [apply now_law|].
intros now. set (row := mkBudgetUsage _ _ _ _ _).
apply (hoare_bind _ _ _ (λ _, usage_is B (λ s, fresh_but B ws s ∧ rows (λ key, K key ∨ key = window_key x) s)));
  [|intros ?; repeat case_match; try (by apply hoare_ret); apply alert_hoare].
eapply hoare_weaken; [apply (save_usage_law B (λ s, I s ∧ exact spent s ∧ bu_BudgetID stored = bd_ID b) row Hop)|done| |done].
intros ? w (HB & s & u' & ([[[Hkc Hku] HI] HK] & [Hs Hsummed] & Hid) & (Hu1 & Hu2 & Hu3) & Heq). split; [exact HB|]. rewrite Heq.
assert (usage_key (bu_BudgetID row) (bu_PeriodStart row) = window_key x) as -> by (unfold window_key, row; cbn; by rewrite Hid).
set (s' := _ <| bs_usage ::= _ |>).
assert (row_fresh B s' u') as Hrow.
{ intros b' t' [Hb' _] Hidb Hst. rewrite Hu1 in Hidb. rewrite Hu2 in Hst. cbn in Hidb, Hst. rewrite Hid in Hidb. rewrite Hidb in Hb'.
  assert (b' = b) as -> by congruence. rewrite Hu3. cbn. rewrite Hs. unfold window_sum, window_raw.
  rewrite (window_of_start b t' t) by (by rewrite Ht). by rewrite Ht. }
split; [split; [split; [exact Hkc|]|]|].
- intros key u. cbn. rewrite lookup_insert_Some. intros [[<- <-]|[_ Hu]]; [|by apply Hku]. rewrite Hu1, Hu2. unfold window_key, row. cbn. by rewrite Hid.
- intros key u. cbn. rewrite lookup_insert_Some. intros [[<- <-]|[Hne Hu]]; [by left|].
  destruct (HI _ _ Hu) as [Hf|(y & Hy & ->)]; [by left|]. apply elem_of_cons in Hy as [->|Hy]; [done|]. right. eauto.
- intros key Hor. cbn. rewrite lookup_insert_is_Some'. destruct Hor as [Hor| ->]; [right; by apply HK|by left].
Qed.

Lemma recompute_hoare B replay ws K : edged B → (∀ x, x ∈ ws → valid_window B x) →
  hoare (usage_is B (λ s, fresh_but B ws s ∧ rows K s)) (recompute ws replay)
    (λ _, usage_is B (λ s, fresh_but B [] s ∧ rows (λ key, K key ∨ ∃ x, x ∈ ws ∧ key = window_key x) s))
    broken.
Proof using Type.
intros HE. revert K. induction ws as [|x ws IH]; intros K Hv.
{ apply hoare_ret. intros w (HB & HI & HK). split; [done|]. split; [done|].
  intros key [Hk|(? & []%elem_of_nil & _)]. by apply HK. }
unfold recompute. cbn [for_each]. eapply hoare_bind; [apply recompute_window_hoare; [exact HE|apply Hv; left]|]. intros ?.
eapply hoare_weaken; [apply IH; intros y Hy; apply Hv; by right|done| |done].
intros ? w (HB & HI & HK). split; [done|]. split; [done|]. intros key [Hk|(y & Hy & ->)]; apply HK; [by left; left|].
apply elem_of_cons in Hy as [->|Hy]; [left; by right|right; eauto].
Qed.

(** ** The handler *)

Definition usage_fresh (B : BudgetStore) (s : UsageStore) : Prop := fresh_but B [] s.

(** Messages whose live contributions occurred at some time. *)
Definition sane_message (m : Message) : Prop :=
  ∀ c, DecodeExpenseContribution (EventType m) (Payload m) = inr (c, true) → ec_Active c = true →
    dated (ec_OccurredAt c).

Lemma scope_new c scopes : ec_OwnerID c ≠ "" → ec_CategoryID c ≠ "" → ec_OccurredAt c ≠ 0 →
  ∃ times, add_scope c scopes !! (ec_OwnerID c, ec_CategoryID c) = Some times ∧ ec_OccurredAt c ∈ times.
Proof using Type.
intros Ho Hk Ht. unfold add_scope. rewrite (eqs_ne _ _ Ho), (eqs_ne _ _ Hk). unfold IsZero.
rewrite (proj2 (Z.eqb_neq _ _) Ht). cbn. rewrite lookup_insert_eq. eexists. split; [done|].
rewrite elem_of_app. right. left.
Qed.

Lemma scope_old c scopes key times at_ : scopes !! key = Some times → at_ ∈ times →
  ∃ times', add_scope c scopes !! key = Some times' ∧ at_ ∈ times'.
Proof using Type.
intros Hk Ht. unfold add_scope. case_match; [eauto|].
destruct (decide ((ec_OwnerID c, ec_CategoryID c) = key)) as [<-|Hne].
- rewrite lookup_insert_eq, Hk. eexists. split; [done|]. cbn. rewrite elem_of_app. by left.
- rewrite lookup_insert_ne by done. eauto.
Qed.

Lemma counts_in_spec o k f e c : counts_in o k f e c = true →
  ec_OwnerID c = o ∧ ec_CategoryID c = k ∧ f ≤ ec_OccurredAt c < e.
Proof using Type.
unfold counts_in, Before. rewrite !andb_true_iff, !String.eqb_eq, negb_true_iff, Z.ltb_ge, Z.ltb_lt. lia || naive_solver.
Qed.

(** Saving a contribution leaves fresh every row but those of the windows of
    the scopes it leaves and enters. *)
Lemma save_fresh B s next next' ws : sane_budgets B → edged B → usage_fresh B s →
  dated (ec_OccurredAt next) → same_scope kept next next' →
  (∀ key times b at_,
     add_scope next (match bs_contributions s !! ec_ExpenseID next with
                     | Some previous => add_scope previous ∅ | None => ∅ end) !! key = Some times →
     at_ ∈ times → live_budget B b → bd_OwnerID b = key.1 → bd_CategoryID b = key.2 →
     ∃ x, x ∈ ws ∧ window_key x = usage_key (bd_ID b) (BudgetWindow b at_).1) →
  fresh_but B ws (s <| bs_contributions ::= <[ec_ExpenseID next := next']> |>).
Proof using Type.
intros HB HE [[Hkc Hku] HI] Hocc Hsame Hws. pose proof Hsame as (Hsid & _ & _ & _ & Hsocc & _). split; [split; [|exact Hku]|].
{ intros id c. cbn. rewrite lookup_insert_Some. intros [[<- <-]|[_ Hc]]; [rewrite Hsid, Hsocc; by split; [|apply dated_kept]|by apply Hkc]. }
intros key u Hu. cbn in Hu. destruct (HI _ _ Hu) as [Hf|(? & []%elem_of_nil & _)].
destruct (decide (key ∈ window_key <$> ws)) as [(x & -> & Hx)%list_elem_of_fmap|Hout]; [eauto|]. left.
intros b t Hb Hid Hst. destruct (Hf b t Hb Hid Hst) as [-> Hsum]. unfold window_sum, window_raw in *. rewrite !sum_spec.
fold (raw_sum (bd_OwnerID b) (bd_CategoryID b) (BudgetWindow b t).1 (BudgetWindow b t).2).
enough (raw_sum (bd_OwnerID b) (bd_CategoryID b) (BudgetWindow b t).1 (BudgetWindow b t).2
  (s <| bs_contributions ::= <[ec_ExpenseID next := next']> |>) = raw_sum (bd_OwnerID b) (bd_CategoryID b) (BudgetWindow b t).1 (BudgetWindow b t).2 s)
  as Hraw by (unfold raw_sum in *; by rewrite Hraw).
destruct (HE _ _ t (proj1 Hb)) as (_ & He1 & He2).
apply raw_insert.
all: destruct (HB _ _ (proj1 Hb)) as (_ & Hno & Hnk).
all: assert (∀ c times, counts_in (bd_OwnerID b) (bd_CategoryID b) (BudgetWindow b t).1 (BudgetWindow b t).2 c = true →
  add_scope next (match bs_contributions s !! ec_ExpenseID next with
     | Some previous => add_scope previous ∅ | None => ∅ end) !! (bd_OwnerID b, bd_CategoryID b) = Some times →
  ec_OccurredAt c ∈ times → False) as Hno_scope.
1, 3: intros c times Hc Hk Ht; apply counts_in_spec in Hc as (_ & _ & Hwin);
  destruct (Hws _ _ b _ Hk Ht Hb eq_refl eq_refl) as (x & Hx & Hkey); apply Hout, list_elem_of_fmap;
  exists x; split; [|exact Hx]; rewrite Hkey, (window_contains b t _ Hwin), Hid, Hst; by apply Hku.
- rewrite (same_scope_counts kept _ _ _ _ _ _ (kept_edge _ He1) (kept_edge _ He2) Hsame). destruct (counts_in _ _ _ _ next) eqn:Hc; [|done]. exfalso.
  destruct (counts_in_spec _ _ _ _ _ Hc) as (Ho & Hk & _). rewrite <- Ho, <- Hk in *.
  edestruct (scope_new next) as (times & Hs & Ht); [..|by eapply Hno_scope]; try done. by apply dated_time.
- intros p Hp. destruct (counts_in _ _ _ _ p) eqn:Hc; [|done]. exfalso.
  destruct (counts_in_spec _ _ _ _ _ Hc) as (Ho & Hk & _). rewrite Hp in Hno_scope.
  destruct (Hkc _ _ Hp) as [_ Hpo%dated_time]. rewrite <- Ho, <- Hk in *.
  destruct (scope_new p ∅) as (times & Hs & Ht); try done.
  edestruct (scope_old next (add_scope p ∅)) as (times' & Hs' & Ht'); [exact Hs|exact Ht|]. by eapply Hno_scope.
Qed.
(** The budgets of the contribution have a row for its window. *)
Definition reached (B : BudgetStore) (c : ExpenseContribution) (s : UsageStore) : Prop :=
  ∀ b, live_budget B b → bd_OwnerID b = ec_OwnerID c → bd_CategoryID b = ec_CategoryID c →
    ∃ u, bs_usage s !! usage_key (bd_ID b) (BudgetWindow b (ec_OccurredAt c)).1 = Some u.

Definition loaded (previous : ExpenseContribution) (found : bool) (id : string) (s : UsageStore) : Prop :=
  match bs_contributions s !! id with
  | Some p => previous = p ∧ found = true
  | None => found = false
  end.

Lemma apply_expense_hoare B K previous found next replay : sane_budgets B → edged B → dated (ec_OccurredAt next) →
  hoare (usage_is B (λ s, (usage_fresh B s ∧ loaded previous found (ec_ExpenseID next) s) ∧ rows K s))
    (usage_SaveContribution next;; windows ← affectedWindows previous found next; recompute windows replay)
    (λ _, usage_is B (λ s, (usage_fresh B s ∧ reached B next s) ∧ rows K s)) broken.
Proof using Type.
intros HB HE Hocc. set (I0 s := (usage_fresh B s ∧ loaded previous found (ec_ExpenseID next) s) ∧ rows K s).
set (I s := ∃ s0 c', I0 s0 ∧ same_scope kept next c' ∧ s = s0 <| bs_contributions ::= <[ec_ExpenseID next := c']> |>).
apply (hoare_bind _ _ _ (λ _, usage_is B I)); [by apply save_law|].
intros ?. eapply hoare_bind; [by apply affected_hoare|]. intros ws. cbn beta.
intros w (Hv & Hws & Hw & s0 & c' & ((Hf & Hl) & Hk) & Hsame & Hs).
assert (add_scope next (if found then add_scope previous ∅ else ∅) =
  add_scope next (match bs_contributions s0 !! ec_ExpenseID next with
                  | Some previous => add_scope previous ∅ | None => ∅ end)) as Hsc.
{ unfold loaded in Hl. destruct (bs_contributions s0 !! ec_ExpenseID next); [by destruct Hl as [-> ->]|by rewrite Hl]. }
assert (usage_is B (λ s, fresh_but B ws s ∧ rows K s) w) as Hpre.
{ split; [exact Hw|]. rewrite Hs. split; [|exact Hk]. apply save_fresh; [done..|].
  intros key times b at_. rewrite <- Hsc. apply Hws. }
pose proof (recompute_hoare B replay ws K HE Hv w Hpre) as Hr.
destruct (recompute ws replay w) as [w' [e|[]]]; [exact Hr|]. destruct Hr as (HB' & Hfr & Hrows).
split; [exact HB'|]. split; [|intros key HK; apply Hrows; by left]. split; [exact Hfr|]. intros b Hb Ho Hkb.
destruct (HB _ _ (proj1 Hb)) as (_ & Hno & Hnk). rewrite Ho in Hno. rewrite Hkb in Hnk.
destruct (scope_new next (if found then add_scope previous ∅ else ∅) Hno Hnk (dated_time _ Hocc)) as (times & Hsn & Ht).
destruct (Hws _ _ b _ Hsn Ht Hb Ho Hkb) as (x & Hx & Hkey). destruct (Hrows (window_key x)) as [u Hu]; [right; eauto|].
exists u. by rewrite <- Hkey.
Qed.

(** After a handler that fails. *)
Definition after_failure (B : BudgetStore) (w : W) : Prop := usage_is B (usage_fresh B) w ∨ broken w.

Lemma expense_handled B K m : sane_budgets B → edged B → sane_message m →
  hoare (usage_is B (λ s, usage_fresh B s ∧ rows K s)) (handleExpense m)
    (λ _, usage_is B (λ s, (usage_fresh B s ∧ rows K s) ∧ ∀ c,
       DecodeExpenseContribution (EventType m) (Payload m) = inr (c, true) → ec_Active c = true → reached B c s))
    (after_failure B).
Proof using Type.
intros HB HE Hm. unfold handleExpense.
destruct (DecodeExpenseContribution (EventType m) (Payload m)) as [e|[next [|]]] eqn:Hdec;
  [apply hoare_throw; intros w (? & ? & ?); by left| |by apply hoare_ret; intros w [? ?]].
set (I s := usage_fresh B s ∧ rows K s).
apply (hoare_bind _ _ _ (λ r, usage_is B (λ s, (usage_fresh B s ∧ loaded r.1 r.2 (ec_ExpenseID next) s) ∧ rows K s))).
{ eapply hoare_weaken; [apply (load_law B I)|done| |by right]. intros [p found] w (Hw & [Hf HK] & Hl). split; [exact Hw|].
  split; [|exact HK]. split; [exact Hf|]. unfold loaded. cbn [fst snd]. destruct (bs_contributions (usage_of w) !! _); [by injection Hl as -> ->|exact Hl]. }
intros [previous found]. cbn [fst snd]. destruct (ec_Active next) eqn:Hact; cbn [negb andb].
- eapply hoare_weaken; [apply (apply_expense_hoare B K previous found next (Replay m) HB HE); by apply (Hm next)|done| |by right].
  intros _ w (Hw & (Hf & Hr) & HK). split; [exact Hw|]. split; [by split|]. intros c [= <-] _. exact Hr.
- destruct found; cbn [negb].
  + set (next' := previous <| ec_Active := false |>).
    intros w (Hw & (Hf & Hl) & HK). pose proof Hl as Hl0. unfold loaded in Hl.
    destruct (bs_contributions (usage_of w) !! ec_ExpenseID next) as [p|] eqn:Hp; [|done].
    destruct Hl as [-> Hfd]. destruct (proj1 (proj1 Hf) _ _ Hp) as [Hid Hocc].
    pose proof (apply_expense_hoare B K p true next' (Replay m) HB HE Hocc w) as Ha.
    assert (ec_ExpenseID next' = ec_ExpenseID next) as Hid' by exact Hid. rewrite Hid' in Ha.
    specialize (Ha (conj Hw (conj (conj Hf Hl0) HK))).
    case_match. case_match; [by right|]. destruct Ha as (Ha1 & (Ha2 & _) & Ha3). split; [exact Ha1|]. split; [by split|].
    intros c [= <-]. congruence.
  + apply hoare_ret. intros w (Hw & (Hf & _) & HK). split; [exact Hw|]. split; [by split|]. intros c [= <-]. congruence.
Qed.

Lemma delete_usage_hoare B id :
  hoare (usage_is B (usage_fresh B)) (DeleteUsage id) (λ _, usage_is B (usage_fresh B)) (after_failure B).
Proof using Type.
eapply hoare_weaken; [apply (delete_law B (usage_fresh B))|done| |by right].
intros ? w (Hw & s & [[Hkc Hku] HI] & Hs). split; [exact Hw|]. rewrite Hs. split; [split; [exact Hkc|]|].
- intros key u. cbn. rewrite map_lookup_filter_Some. intros [Hu _]. by apply Hku.
- intros key u. cbn. rewrite map_lookup_filter_Some. intros [Hu _]. apply (HI _ _ Hu).
Qed.

Lemma budget_handled B m : sane_budgets B → edged B →
  hoare (usage_is B (usage_fresh B)) (handleBudget m) (λ _, usage_is B (usage_fresh B)) (after_failure B).
Proof using Type.
intros HB HE. unfold handleBudget. apply (hoare_bind _ _ _ (λ _, usage_is B (usage_fresh B))).
{ eapply hoare_weaken; [apply now_law|done|done|by right]. }
intros t. destruct (DecodeBudget t (EventType m) (Payload m)) as [e|[b [|]]]; [apply hoare_throw; by left| |by apply hoare_ret].
destruct ((EventType m =s "budget_removed") || _); [apply delete_usage_hoare|].
apply (hoare_bind _ _ _ (λ r w, (r.2 = true → live_budget B r.1) ∧ usage_is B (usage_fresh B) w)).
{ eapply hoare_weaken; [apply (budget_law B)|done| |by right]. intros [c found] w [Hc Hw]. split; [|exact Hw].
  cbn. intros Hfound. destruct (Hc Hfound) as [Hid Hd]. split; [|exact Hd]. cbn in Hid. by rewrite (proj1 (HB _ _ Hid)). }
intros [current [|]]; cbn [fst snd negb]; apply hoare_pure; intros Hlive; [|apply delete_usage_hoare].
apply (hoare_bind _ _ _ (λ _, usage_is B (usage_fresh B))).
{ eapply hoare_weaken; [apply now_law|done|done|by right]. }
intros now. destruct (BudgetWindow current now) as [start end_] eqn:Hwin.
eapply hoare_weaken; [apply (recompute_hoare B (Replay m) [mkBudgetWindow current start end_] (λ _, False) HE)| | |by right].
- intros x Hx%list_elem_of_singleton. subst x. split; [by apply Hlive|]. by exists now.
- intros w [Hw [Hk HI]]. split; [exact Hw|]. split; [|by intros ? []]. split; [exact Hk|].
  intros key u Hu. destruct (HI _ _ Hu) as [?|(? & []%elem_of_nil & _)]. by left.
- by intros ? w (Hw & Hf & _).
Qed.

Lemma usage_handled B m : sane_budgets B → edged B → sane_message m →
  hoare (usage_is B (usage_fresh B)) (Handle_budget_usage m) (λ _, usage_is B (usage_fresh B)) (after_failure B).
Proof using Type.
intros HB HE Hm. unfold Handle_budget_usage. case_match.
- eapply hoare_weaken; [by apply (expense_handled B (λ _, False))| | |done].
  + intros w [Hw Hf]. split; [exact Hw|]. split; [exact Hf|by intros ? []].
  + by intros ? w (? & (? & _) & _).
- case_match; [by apply budget_handled|by apply hoare_ret].
Qed.

(** What a fresh state says of a row. *)
Lemma fresh_row B s b t u : usage_fresh B s → live_budget B b → bs_usage s !! usage_key (bd_ID b) (BudgetWindow b t).1 = Some u →
  bu_PeriodStart u = (BudgetWindow b t).1 → bu_SpentMinor u = window_sum b t s ∧ summed (window_raw b t s).
Proof using Type.
intros [[_ Hku] HI] Hb Hu Hst. destruct (HI _ _ Hu) as [Hfr|(? & []%elem_of_nil & _)]. apply (Hfr b t); [done| |done].
exact (f_equal fst (Hku _ _ Hu)).
Qed.
End Laws.

(** ** The in-memory repositories *)

#[export] Program Instance world_usage_laws : UsageLaws World := {|
  budgets_of := w_budgets; usage_of := w_usage; dated t := t ≠ 0; kept t := t; summed _ := True; edge _ := True; opening _ := True; broken _ := False
|}.
Next Obligation. done. Qed.
Next Obligation. done. Qed.
Next Obligation. done. Qed.
Next Obligation. by intros B I w Hw. Qed.
Next Obligation. by intros B I w Hw. Qed.
Next Obligation. by intros B I d w Hw. Qed.
Next Obligation.
intros B I id w [Hw HI]. cbn. unfold zoom. cbn. split; [exact Hw|]. split; [exact HI|]. cbn.
by destruct (bs_contributions (w_usage w) !! id).
Qed.
Next Obligation. intros B I c _ w [Hw HI]. split; [exact Hw|]. exists (w_usage w), c. done. Qed.
Next Obligation.
intros B I o k w [HB HI]. cbn -[range_values]. destruct (String.eqb_spec o "") as [->|Ho]; cbn.
{ split; [|by split]. intros b. split; [by intros ?%elem_of_nil|tauto]. }
destruct (String.eqb_spec k "") as [->|Hk]; cbn.
{ split; [|by split]. intros b. split; [by intros ?%elem_of_nil|tauto]. }
unfold mbind, M_bind, zoom. cbn -[range_values]. rewrite HB.
split; [|by split]. intros b. rewrite list_elem_of_In, filter_In, <- list_elem_of_In, range_values_elem.
unfold budget_visible. cbn. rewrite !andb_true_iff, orb_false_r, !String.eqb_eq.
destruct (bd_DeletedAt b); cbn; naive_solver.
Qed.
Next Obligation.
intros B I id w [Hw HI]. cbn. unfold zoom. cbn. rewrite Hw. split; [|by split].
destruct (B !! id) as [c|]; [|done]. by destruct (bd_DeletedAt c) eqn:Hd.
Qed.
Next Obligation. intros B I o k f t _ _ w [Hw HI]. split; [exact Hw|]. split; [exact HI|done]. Qed.
Next Obligation.
intros B I id start _ w [Hw HI]. cbn. unfold zoom. cbn. split; [exact Hw|]. split; [exact HI|]. cbn.
destruct (bs_usage (w_usage w) !! usage_key id start); [by right|by left].
Qed.
Next Obligation. intros B I u _ w [Hw HI]. split; [exact Hw|]. exists (w_usage w), u. done. Qed.
Next Obligation. intros B I id w [Hw HI]. split; [exact Hw|]. exists (w_usage w). done. Qed.

Lemma world_edged B : edged B.
Proof using Type. by intros id b t _. Qed.

Lemma failed_unbroken B (w : World) : after_failure B w → usage_is B (usage_fresh B) w.
Proof using Type. by intros [Hw|[]]. Qed.

Lemma expense_hoare B K m : sane_budgets B → sane_message m →
  hoare (usage_is B (λ s, usage_fresh B s ∧ rows K s)) (handleExpense (W := World) m)
    (λ _, usage_is B (λ s, (usage_fresh B s ∧ rows K s) ∧ ∀ c,
       DecodeExpenseContribution (EventType m) (Payload m) = inr (c, true) → ec_Active c = true → reached B c s))
    (usage_is B (usage_fresh B)).
Proof using Type.
intros HB Hm. eapply hoare_weaken; [by apply (expense_handled B K m HB (world_edged B))|done|done|apply failed_unbroken].
Qed.

Lemma handle_hoare B m : sane_budgets B → sane_message m →
  hoare (usage_is B (usage_fresh B)) (Handle_budget_usage (W := World) m)
    (λ _, usage_is B (usage_fresh B)) (usage_is B (usage_fresh B)).
Proof using Type.
intros HB Hm. eapply hoare_weaken; [by apply (usage_handled B m HB (world_edged B))|done|done|apply failed_unbroken].
Qed.

(** One delivery, and a delivery list. *)
Definition deliver_usage (m : Message) : M World () := r ← catch (Handle_budget_usage m); mret ().

(** [C14] Budget spend, while the budgets stand: nothing edits them in the run, which
    starts with usage rows that are right for them.  Whatever events of expenses and
    budgets the projection is delivered, in any order and with any redeliveries, as long
    as those of live expenses tell when these occurred: every usage row of a live
    budget's period holds exactly the sum, in 64-bit arithmetic, of the active
    contributions the period contains. *)
Theorem budget_spend_is_sum ms w b t u :
  sane_budgets (w_budgets w) → usage_fresh (w_budgets w) (w_usage w) → Forall sane_message ms →
  live_budget (w_budgets w) b →
  let s' := w_usage (for_each deliver_usage ms w).1 in
  bs_usage s' !! usage_key (bd_ID b) (BudgetWindow b t).1 = Some u →
  bu_PeriodStart u = (BudgetWindow b t).1 →
  bu_SpentMinor u =
    sum_contributions (bd_OwnerID b) (bd_CategoryID b) (BudgetWindow b t).1 (BudgetWindow b t).2 s'.
Proof using Type.
intros HB Hf Hms Hb s' Hu Hst. set (B := w_budgets w) in *.
assert (usage_is B (usage_fresh B) (for_each deliver_usage ms w).1) as [_ Hfr]; [|by apply (fresh_row B)].
apply for_each_inv; [|by split]. intros m w1 Hin Hw1. rewrite Forall_forall in Hms.
pose proof (handle_hoare B m HB (Hms m Hin) w1 Hw1) as Hr. unfold deliver_usage, mbind, M_bind, catch.
by destruct (Handle_budget_usage m w1) as [w2 [e|[]]].
Qed.

(** A delivered expense reaches its budgets: after the event of a live
    contribution is handled, each live budget of its owner and category has a
    usage row for the period the expense fell in. *)
Theorem expense_reaches_budgets m w w' c b :
  sane_budgets (w_budgets w) → usage_fresh (w_budgets w) (w_usage w) → sane_message m →
  AggregateType m = "expense" → Handle_budget_usage m w = (w', inr ()) →
  DecodeExpenseContribution (EventType m) (Payload m) = inr (c, true) → ec_Active c = true →
  live_budget (w_budgets w) b → bd_OwnerID b = ec_OwnerID c → bd_CategoryID b = ec_CategoryID c →
  ∃ u, bs_usage (w_usage w') !! usage_key (bd_ID b) (BudgetWindow b (ec_OccurredAt c)).1 = Some u.
Proof using Type.
intros HB Hf Hm Hty Hrun Hdec Hact Hb Ho Hk.
assert (rows (λ _, False) (w_usage w)) as HK by (by intros ? []).
pose proof (expense_hoare (w_budgets w) (λ _, False) m HB Hm w (conj eq_refl (conj Hf HK))) as Hr.
unfold Handle_budget_usage in Hrun. rewrite Hty, eqs_refl in Hrun. rewrite Hrun in Hr.
destruct Hr as (_ & _ & Hreach). by apply (Hreach c Hdec Hact b).
Qed.
End Spend.

Module Sample.
Import World.Sample.
#[local] Existing Instance default_runtime.

Definition food : BudgetRecord :=
  zero_budget <| bd_ID := "food-budget" |> <| bd_OwnerID := "u1" |> <| bd_CategoryID := "food" |>
    <| bd_Currency := "EUR" |> <| bd_AmountLimitMinor := 2000 |> <| bd_ThresholdPercent := 80 |>
    <| bd_Period := BudgetMonthly |>.

Definition budgeted : World := empty_world <| w_budgets := {["food-budget" := food]} |>.

Definition recorded (id : string) (amount : Z) : Message :=
  zero_Message <| EventID := id |> <| AggregateType := "expense" |> <| EventType := "expense_added" |>
    <| Payload := enc_payload (ExpenseAdded (sample_expense <| ex_ID := id |> <| ex_AmountMinor := amount |>)) |>.

Definition stream : list Message := [recorded "e1" 1250; recorded "e2" 900; recorded "e1" 300; recorded "e2" 900].

Definition month : Time := (BudgetWindow food (FromUnixMilli 1000)).1.

Lemma food_sane : sane_budgets (w_budgets budgeted).
Proof. intros id b Hb. apply (lookup_singleton_Some (M := gmap string) "food-budget" id food b) in Hb as [<- <-]. done. Qed.

Lemma food_live : live_budget (w_budgets budgeted) food.
Proof. by split. Qed.

Lemma no_usage : usage_fresh (w_budgets budgeted) (w_usage budgeted).
Proof. by repeat split. Qed.

Lemma recorded_contribution id amount : id ≠ "" → is_int64 amount →
  DecodeExpenseContribution "expense_added" (Payload (recorded id amount)) =
    inr (contribution_of (sample_expense <| ex_ID := id |> <| ex_AmountMinor := amount |>), true).
Proof.
intros Hid Hn.
apply (contribution_event_roundtrip (ExpenseAdded (sample_expense <| ex_ID := id |> <| ex_AmountMinor := amount |>)));
  [by vm_compute|]. split; [|exact Hid]. split; [exact Hn|]. apply sample_expense_fits.
Qed.

Lemma recorded_sane id amount : id ≠ "" → is_int64 amount → sane_message (recorded id amount).
Proof. intros Hid Hn c Hc _. change (EventType (recorded id amount)) with "expense_added" in Hc. 
rewrite recorded_contribution in Hc by done. by injection Hc as <-. Qed.

Lemma stream_sane : Forall sane_message stream.
Proof. repeat constructor; apply recorded_sane; done. Qed.

Definition after_stream : World := (for_each deliver_usage stream budgeted).1.

Definition food_row : BudgetUsage :=
  default (mkBudgetUsage "" 0 0 0 0) (bs_usage (w_usage after_stream) !! usage_key "food-budget" month).

Lemma budget_spend_is_sum_witness :
  bu_SpentMinor food_row = sum_contributions "u1" "food" month (BudgetWindow food (FromUnixMilli 1000)).2
    (w_usage after_stream) ∧ bu_SpentMinor food_row = 1200.
Proof.
split; [|vm_compute; reflexivity].
apply (budget_spend_is_sum stream budgeted food (FromUnixMilli 1000) food_row food_sane no_usage stream_sane food_live).
- vm_compute. reflexivity.
- vm_compute. reflexivity.
Defined.

Lemma first_runs : (Handle_budget_usage (recorded "e1" 1250) budgeted).2 = inr ().
Proof. vm_compute. reflexivity. Qed.

Lemma expense_reaches_budgets_witness :
  ∃ u, bs_usage (w_usage (Handle_budget_usage (recorded "e1" 1250) budgeted).1) !! usage_key "food-budget" month = Some u.
Proof.
exact (expense_reaches_budgets (recorded "e1" 1250) budgeted _
  (contribution_of (sample_expense <| ex_ID := "e1" |> <| ex_AmountMinor := 1250 |>)) food food_sane no_usage
  (recorded_sane "e1" 1250 ltac:(done) ltac:(done)) eq_refl (run_is _ _ first_runs)
  (recorded_contribution "e1" 1250 ltac:(done) ltac:(done)) eq_refl food_live eq_refl eq_refl).
Defined.
End Sample.
