(* ===== verification/AuditTrail.v ===== *)
(** * The audit trail and the operators' services

    The projection that records one audit entry per domain event
    (src/internal/core/service/audit_projection.go), the services restricted to
    super-administrators (audit.go, outbox_admin.go) and the sweeper that
    reclaims orphaned objects (retention.go). *)

From S2P Require Export Prelude GoTime GoStrings Domain Json Outbox UnitOfWork Ports.
#[global] Open Scope Z_scope.

Definition AuditProjectionName : string := "audit_trail".
Definition deadLetterPageSize : Z := 50.
Definition maxDeadLetterPageSize : Z := 200.

Section Audit.
Context {W : Type} `{AuditRepository W}.

Definition audit_entry (message : Message) : AuditEntry :=
  mkAuditEntry (EventID message) (actorFromMetadata (Metadata message)) (EventType message)
    (AggregateType message) (AggregateID message)
    (list_to_map [("aggregate_version", Itoa (AggregateVersion message));
                  ("global_seq", Itoa (GlobalSeq message))])
    (OccurredAt message).

Definition Handle_audit (message : Message) : M W () := AppendEntry (audit_entry message).

Definition audit_handler : Handler W := mkHandler AuditProjectionName [] Handle_audit.

Definition ListEntries_service (actor : AppUser) (filter : AuditFilter) : M W (list AuditEntry) :=
  if negb (Allows (u_Role actor) PermissionAuditRead) then throw ErrForbidden
  else
    let filter := if (au_Limit filter <=? 0) || (200 <? au_Limit filter)
                  then filter <| au_Limit := 50 |> else filter in
    ListEntries filter.
End Audit.

Section OutboxAdmin.
Context {W : Type} `{OutboxAdminRepository W}.

Definition ListDeadLetters_service (actor : AppUser) (subscription : string) (limit : Z)
    : M W (list DeadLetter) :=
  if negb (Allows (u_Role actor) PermissionAuditRead) then throw ErrForbidden
  else
    let limit := if limit <=? 0 then deadLetterPageSize else limit in
    let limit := if maxDeadLetterPageSize <? limit then maxDeadLetterPageSize else limit in
    ListDeadLetters subscription limit.

Definition RequeueDeadLetter_service (actor : AppUser) (outboxID : string) : M W () :=
  if negb (Allows (u_Role actor) PermissionAuditRead) then throw ErrForbidden
  else if outboxID =s "" then throw (ErrorsNew "outbox id is required")
  else
    found ← RequeueDeadLetter outboxID;
    if negb found then throw ErrNotFound else mret ().
End OutboxAdmin.

Section Retention.
Context {W : Type} `{ObjectReferenceRepository W} `{ObjectStore W}.

(** The loop of [SweepOrphans] and the count it has reached; an object that
    cannot be deleted is skipped, a reference that cannot be forgotten ends it. *)
Fixpoint sweep (orphans : list ObjectReference) (swept : Z) : M W (Z * option error) :=
  match orphans with
  | [] => mret (swept, None)
  | orphan :: orphans =>
      deleted ← catch (Delete (or_ObjectKey orphan));
      match deleted with
      | inl _ => sweep orphans swept
      | inr _ =>
          forgotten ← catch (ForgetObject (or_ObjectKey orphan));
          match forgotten with
          | inl err => mret (swept, Some (Errorf ("forget object " +:+ or_ObjectKey orphan +:+ ": ") err ""))
          | inr _ => sweep orphans (wrap64 (swept + 1))
          end
      end
  end.

Definition SweepOrphans (limit : Z) : M W (Z * option error) :=
  orphans ← catch (ClaimOrphans limit);
  match orphans with
  | inl err => mret (0, Some (Errorf "claim orphaned objects: " err ""))
  | inr orphans => sweep orphans 0
  end.
End Retention.
