(* ===== verification/Notifications.v ===== *)
(** * Notification delivery (src/internal/core/service/notifications.go)

    Queueing, and the worker that claims a batch and resolves each delivery to
    sent, retried with backoff, put back for the quota, or dead-lettered.  The
    e-mail templates ([Render]) and the provider ([Send]) are parameters. *)

From S2P Require Export Prelude GoTime GoStrings Domain UnitOfWork Ports Memory MemoryStores World.
#[global] Open Scope Z_scope.

Definition notificationMaxAttempts : Z := 5.
Definition notificationBaseBackoff : Duration := Minute.
Definition notificationMaxBackoff : Duration := Hour.
Definition notificationLeaseTTL : Duration := 2 * Minute.
Definition notificationQuotaBackoff : Duration := Hour.

(** pkg/email: the sentinel of the limited sender. *)
Definition ErrSendLimitExceeded : error :=
  Sentinel "ErrSendLimitExceeded" "email send limit exceeded for this period".

(** The loop of [notificationRetryDelay]: [attempts - 1] doublings, stopped at
    the cap. *)
Fixpoint backoff_loop (turns : nat) (delay : Duration) : Duration :=
  match turns with
  | O => delay
  | S turns => if delay <? notificationMaxBackoff then backoff_loop turns (wrap64 (delay * 2)) else delay
  end.

Definition notificationRetryDelay (attempts : Z) : Duration :=
  let delay := backoff_loop (Z.to_nat (attempts - 1)) notificationBaseBackoff in
  if notificationMaxBackoff <? delay then notificationMaxBackoff else delay.

Record Rendered := mkRendered { rn_Subject : string; rn_Text : string; rn_HTML : string }.

Class EmailSender (W : Type) := {
  Send : string → string → string → string → M W ()
}.

Section Delivery.
Context {W : Type} `{Env W} `{NotificationRepository W} `{IdentityRepository W} `{EmailSender W}.
Context (Render : NotificationKind → gmap string string → error + Rendered).

Definition Queue (userID : string) (kind : NotificationKind) (payload : gmap string string) : M W () :=
  if (userID =s "") || (kind =s "")
  then throw (ErrorsNew "notification recipient and kind are required")
  else
    id ← NewString;
    now ← Now;
    QueueNotification (mkNotificationDelivery id userID "" kind payload now NotificationPending 0).

Definition resolveRecipient (delivery : NotificationDelivery) : M W string :=
  if nd_RecipientEmail delivery ≠s "" then mret (nd_RecipientEmail delivery)
  else
    user ← GetUserByID (nd_UserID delivery);
    if negb (WantsNotification user (nd_Kind delivery)) then mret "" else mret (u_Email user).

(** The attempt to send: [None] when the recipient opted out, otherwise the
    outcome [sendErr]. *)
Definition attempt_send (delivery : NotificationDelivery) : M W (option (error + ())) :=
  to ← catch (resolveRecipient delivery);
  match to with
  | inl err => mret (Some (inl err))
  | inr to =>
      if to =s "" then mret None
      else match Render (nd_Kind delivery) (nd_Payload delivery) with
      | inl err => mret (Some (inl err))
      | inr r =>
          outcome ← catch (Send to (rn_Subject r) (rn_Text r) (rn_HTML r));
          mret (Some outcome)
      end
  end.

Definition deliverOne (delivery : NotificationDelivery) : M W bool :=
  attempt ← attempt_send delivery;
  match attempt with
  | None | Some (inr _) => MarkNotificationSent (nd_ID delivery);; mret false
  | Some (inl sendErr) =>
      if ErrorIs sendErr "ErrSendLimitExceeded" then
        now ← Now;
        MarkNotificationRetry (nd_ID delivery) (TimeAdd now notificationQuotaBackoff) (ErrorText sendErr);;
        mret true
      else if notificationMaxAttempts <=? nd_Attempts delivery then
        MarkNotificationDeadLettered (nd_ID delivery) (ErrorText sendErr);; mret false
      else
        now ← Now;
        MarkNotificationRetry (nd_ID delivery)
          (TimeAdd now (notificationRetryDelay (nd_Attempts delivery))) (ErrorText sendErr);;
        mret false
  end.

(** One turn of the loop of [DeliverPending]; the accumulator is [quotaExceeded]. *)
Definition deliver_turn (quotaExceeded : bool) (delivery : NotificationDelivery) : M W bool :=
  if quotaExceeded then
    now ← Now;
    MarkNotificationRetry (nd_ID delivery) (TimeAdd now notificationQuotaBackoff)
      (ErrorText ErrSendLimitExceeded);;
    mret true
  else deliverOne delivery.

Definition DeliverPending (workerID : string) (limit : Z) : M W () :=
  let limit := if (limit <=? 0) || (100 <? limit) then 25 else limit in
  deliveries ← ClaimNotifications workerID notificationLeaseTTL limit;
  fold_m deliver_turn false deliveries;;
  mret ().
End Delivery.

(** * Notification delivery resolves what it claims

    In one process, with any mailer that leaves the queue, the accounts and the clock
    alone, and a record of every mail it is handed: a batch always finishes, claims what
    is due, hands each delivery over at most once, and marks it sent, puts it off or gives
    it up by what the mailer answered. *)

(** ** The backoff *)

Lemma backoff_loop_spec turns delay : 0 < delay ≤ notificationMaxBackoff →
  Z.min (backoff_loop turns delay) notificationMaxBackoff =
    Z.min (delay * 2 ^ Z.of_nat turns) notificationMaxBackoff ∧
  0 < backoff_loop turns delay < 2 * notificationMaxBackoff.
Proof.
assert (notificationMaxBackoff = 3_600_000_000_000) as Hmax by reflexivity.
revert delay. induction turns as [|n IH]; intros delay Hd; cbn [backoff_loop].
{ rewrite Z.pow_0_r, Z.mul_1_r. split; [done|lia]. }
rewrite Nat2Z.inj_succ, Z.pow_succ_r by lia. pose proof (Z.pow_pos_nonneg 2 (Z.of_nat n)) as Hp.
destruct (Z.ltb_spec delay notificationMaxBackoff); [|split; [nia|lia]].
rewrite wrap64_id by (unfold is_int64, min_int64, max_int64; lia).
destruct (Z.le_gt_cases (delay * 2) notificationMaxBackoff) as [Hle|Hgt].
- destruct (IH (delay * 2)) as [IH1 IH2]; [lia|]. rewrite IH1. split; [f_equal; ring|exact IH2].
- assert (backoff_loop n (delay * 2) = delay * 2) as ->.
  { destruct n; [done|]. cbn. destruct (Z.ltb_spec (delay * 2) notificationMaxBackoff); [lia|done]. }
  split; [nia|lia].
Qed.

Lemma retry_delay_spec attempts :
  notificationRetryDelay attempts = Z.min (Minute * 2 ^ Z.of_nat (Z.to_nat (attempts - 1))) Hour ∧
  Minute ≤ notificationRetryDelay attempts ≤ Hour.
Proof.
unfold notificationRetryDelay.
destruct (backoff_loop_spec (Z.to_nat (attempts - 1)) notificationBaseBackoff) as [Hm _]; [done|].
change notificationMaxBackoff with Hour in *. change notificationBaseBackoff with Minute in *.
set (b := backoff_loop _ _) in *.
assert ((if Hour <? b then Hour else b) = Z.min b Hour) as -> by (destruct (Z.ltb_spec Hour b); lia).
rewrite Hm. split; [done|]. pose proof (Z.pow_pos_nonneg 2 (Z.of_nat (Z.to_nat (attempts - 1)))).
assert (0 < Minute ≤ Hour) by done. nia.
Qed.

(** The wait after the n-th failed attempt is one minute doubled n - 1
    times, capped at an hour: no overflow, never less than a minute. *)
Theorem notification_backoff attempts : 1 ≤ attempts →
  notificationRetryDelay attempts = Z.min (Minute * 2 ^ (attempts - 1)) Hour ∧
  Minute ≤ notificationRetryDelay attempts ≤ Hour.
Proof. intros Ha. pose proof (retry_delay_spec attempts) as Hs. by rewrite Z2Nat.id in Hs by lia. Qed.

Lemma notification_backoff_witness : notificationRetryDelay 5 = 16 * Minute.
Proof. exact (proj1 (notification_backoff 5 ltac:(done))). Defined.

(** ** A mailer whose mails are written down *)

Record mail := mkMail { ml_to : string; ml_subject : string; ml_text : string; ml_html : string; ml_answer : error + () }.

(** The process, and every mail the mailer was handed with what it answered. *)
Definition Office : Type := World * list mail.
Definition L_world : Lens Office World := {| lens_get := fst; lens_set s w := (s, w.2) |}.
Definition L_queue : Lens Office NotificationStore :=
  {| lens_get w := w_notifications w.1; lens_set s w := (w.1 <| w_notifications := s |>, w.2) |}.
Definition L_accounts : Lens Office IdentityStore :=
  {| lens_get w := w_identity w.1; lens_set s w := (w.1 <| w_identity := s |>, w.2) |}.

Section Delivery.
Context `{GoRuntime} {mailer : EmailSender World}.
Context (Render : NotificationKind → gmap string string → error + Rendered).

#[local] Instance office_env : Env Office := {| Now := zoom L_world Now; NewString := zoom L_world NewString |}.
#[local] Instance office_notifications : NotificationRepository Office := memory_NotificationRepository L_queue.
#[local] Instance office_identity : IdentityRepository Office := memory_IdentityRepository L_accounts.
#[local] Instance office_mailer : EmailSender Office := {|
  Send to subject text html := λ w,
    let '(w1, answer) := Send to subject text html w.1 in
    ((w1, w.2 ++ [mkMail to subject text html answer]), answer)
|}.
(** The worker's batch, over the office. *)
Definition office_batch (workerID : string) (limit : Z) : M Office () := DeliverPending Render workerID limit.

(** ** What a mailer may do *)

Definition mail_frame (w w' : World) : Prop :=
  w_notifications w' = w_notifications w ∧ w_identity w' = w_identity w ∧ w_clock w' = w_clock w.

(** Sending a mail leaves the queue, the accounts and the clock alone. *)
Definition mailer_apart : Prop := ∀ to subject text html w, mail_frame w (Send to subject text html w).1.
(** A template that cannot be rendered does not speak of the send quota. *)
Definition render_apart : Prop := ∀ kind payload e, Render kind payload = inl e → ErrorIs e "ErrSendLimitExceeded" = false.

(** ** Claiming *)

Definition keyed_queue (s : gmap string storedDelivery) : Prop := ∀ id d, s !! id = Some d → nd_ID (sd_delivery d) = id.

(** The claim of [v]: it was due in [s], and in [s'] it is locked at [now]. *)
Definition claimed_from (now : Time) (s s' : gmap string storedDelivery) (v : NotificationDelivery) : Prop :=
  ∃ d, s !! nd_ID v = Some d ∧ notification_due now notificationLeaseTTL d = true ∧
    v = sd_delivery (claim_delivery now d) ∧ s' !! nd_ID v = Some (claim_delivery now d).

Definition claims (now : Time) (s s' : gmap string storedDelivery) (values : list NotificationDelivery) : Prop :=
  NoDup (map nd_ID values) ∧ (∀ v, v ∈ values → claimed_from now s s' v) ∧
  ∀ id, id ∉ map nd_ID values → s' !! id = s !! id.

Lemma claim_loop_spec now limit s entries : keyed_queue s → NoDup (map fst entries) →
  (∀ id d, (id, d) ∈ entries → s !! id = Some d) →
  ∀ values s1, claims now s s1 values → (∀ id, id ∈ map fst entries → id ∉ map nd_ID values) →
  let '(s', values') := claim_loop now notificationLeaseTTL limit entries values s1 in claims now s s' values'.
Proof using Type.
intros Hk. induction entries as [|[id d] entries IH]; intros Hnd Hin values s1 Hc Hfresh; [exact Hc|].
cbn [claim_loop map fst] in *. unfold NotificationStore in *. apply NoDup_cons in Hnd as [Hid Hnd].
destruct (limit <=? _); [exact Hc|].
assert (∀ i x, (i, x) ∈ entries → s !! i = Some x) as Hin' by (intros i x Hx; apply Hin; by right).
assert (s !! id = Some d) as Hd by (apply Hin; left).
destruct (notification_due now notificationLeaseTTL d) eqn:Hdue; cbn [negb].
2: { apply IH; [done|done|done|]. intros i Hi. apply Hfresh. by right. }
pose proof (Hk _ _ Hd) as Hnid. destruct Hc as (Hn & Hv & Hrest).
assert (nd_ID (sd_delivery (claim_delivery now d)) = id) as Hcid by exact Hnid.
assert (id ∉ map nd_ID values) as Hnew by (apply Hfresh; left).
apply IH; [done|done| |].
- split; [|split].
  + rewrite map_last, Hcid, NoDup_app. split; [done|]. split; [|apply NoDup_singleton].
    intros x Hx. rewrite list_elem_of_singleton. by intros ->.
  + intros v. rewrite elem_of_app, list_elem_of_singleton. intros [Hin1| ->].
    * destruct (Hv v Hin1) as (d1 & H1 & H2 & H3 & H4). exists d1. split_and!; [done..|].
      rewrite lookup_insert_ne; [done|]. intros Heq. apply Hnew. rewrite Heq. apply list_elem_of_fmap. eauto.
    * exists d. rewrite Hcid. split_and!; [done..|]. by rewrite lookup_insert_eq.
  + intros i. rewrite map_last, Hcid, not_elem_of_app, list_elem_of_singleton. intros [Hi Hne].
    rewrite lookup_insert_ne by congruence. by apply Hrest.
- intros i Hi. rewrite map_last, Hcid, not_elem_of_app, list_elem_of_singleton.
  split; [apply Hfresh; by right|]. intros ->. done.
Qed.

Lemma claim_due_spec now limit s : keyed_queue s →
  let '(s', values) := claim_loop now notificationLeaseTTL limit (map_range s) [] s in claims now s s' values.
Proof using Type.
intros Hk. apply claim_loop_spec; [done| | | |].
- rewrite (Permutation_map fst (map_range_perm s)). apply NoDup_fst_map_to_list.
- intros id d. rewrite (map_range_perm s). apply elem_of_map_to_list.
- split; [constructor|]. split; [by intros v ?%elem_of_nil|done].
- intros id _ ?%elem_of_nil. done.
Qed.

(** ** Resolving *)

(** One claimed delivery: as claimed, the mails handed over for it, and as it is left. *)
Record attempt := mkAttempt { at_delivery : NotificationDelivery; at_mails : list mail; at_after : storedDelivery }.

Definition over_quota (m : mail) : bool :=
  match ml_answer m with inl e => ErrorIs e "ErrSendLimitExceeded" | inr _ => false end.

(** Whom a delivery goes to: the address it was queued with, or that of its user;
    nobody when the user does not want it. *)
Definition recipient (w : World) (v : NotificationDelivery) : error + string :=
  if nd_RecipientEmail v ≠s "" then inr (nd_RecipientEmail v)
  else match (GetUserByID (nd_UserID v) w).2 with
       | inl e => inl e
       | inr user => inr (if WantsNotification user (nd_Kind v) then u_Email user else "")
       end.

Definition delivered (d : storedDelivery) : Prop := nd_Status (sd_delivery d) = NotificationSent.
Definition put_off (clock : nat → Time) (d : storedDelivery) : Prop :=
  nd_Status (sd_delivery d) = NotificationPending ∧ ∃ n, clock n + Minute ≤ sd_availableAt d ≤ clock n + Hour.
Definition given_up (d : storedDelivery) : Prop :=
  nd_Status (sd_delivery d) = NotificationFailed ∧ notificationMaxAttempts ≤ nd_Attempts (sd_delivery d).

(** There is no mail to hand over: no such user, or no template for it. *)
Definition unsendable (w : World) (v : NotificationDelivery) : Prop :=
  (∃ e, recipient w v = inl e) ∨
  ∃ to e, recipient w v = inr to ∧ to ≠ "" ∧ Render (nd_Kind v) (nd_Payload v) = inl e.

(** What becomes of a claimed delivery, after the mails already handed over in the batch.
    Its mail is handed over once, unless the quota has run out, the recipient does not
    want it or it cannot be sent; it is delivered when the mailer accepted it or nobody
    wants it, and put off or given up otherwise. *)
Definition outcome (w : World) (before : list mail) (a : attempt) : Prop :=
  let v := at_delivery a in let after := at_after a in
  nd_Attempts (sd_delivery after) = nd_Attempts v ∧
  match at_mails a with
  | [m] =>
      existsb over_quota before = false ∧ recipient w v = inr (ml_to m) ∧ ml_to m ≠ "" ∧
      Render (nd_Kind v) (nd_Payload v) = inr (mkRendered (ml_subject m) (ml_text m) (ml_html m)) ∧
      match ml_answer m with
      | inr _ => delivered after
      | inl _ => put_off (w_clock w) after ∨ over_quota m = false ∧ given_up after
      end
  | [] =>
      existsb over_quota before = true ∧ put_off (w_clock w) after ∨
      existsb over_quota before = false ∧
        (recipient w v = inr "" ∧ delivered after ∨ unsendable w v ∧ (put_off (w_clock w) after ∨ given_up after))
  | _ => False
  end.

(** A turn of the loop: the delivery [d] becomes [d'], and the rest stays. *)
Definition turned (id : string) (w w' : World) (d' : storedDelivery) : Prop :=
  w_clock w' = w_clock w ∧ w_identity w' = w_identity w ∧ w_notifications w' = <[id := d']> (w_notifications w).

Lemma mark_sent w box id d : w_notifications w !! id = Some d →
  ∃ w' d', MarkNotificationSent id (w, box) = ((w', box), inr ()) ∧ turned id w w' d' ∧
    nd_Attempts (sd_delivery d') = nd_Attempts (sd_delivery d) ∧ delivered d'.
Proof using Type.
intros Hd. cbn. unfold zoom, with_delivery. cbn. rewrite Hd. eexists _, _. split; [done|]. by split_and!.
Qed.

Lemma mark_dead w box id d text : w_notifications w !! id = Some d →
  notificationMaxAttempts ≤ nd_Attempts (sd_delivery d) →
  ∃ w' d', MarkNotificationDeadLettered id text (w, box) = ((w', box), inr ()) ∧ turned id w w' d' ∧
    nd_Attempts (sd_delivery d') = nd_Attempts (sd_delivery d) ∧ given_up d'.
Proof using Type.
intros Hd Ha. cbn. unfold zoom, with_delivery. cbn. rewrite Hd. eexists _, _. split; [done|]. by split_and!.
Qed.

Lemma mark_retry w box id d delay text : w_notifications w !! id = Some d → Minute ≤ delay ≤ Hour →
  ∃ w' d', (now ← Now; MarkNotificationRetry id (TimeAdd now delay) text : M Office ()) (w, box) = ((w', box), inr ()) ∧
    turned id w w' d' ∧ nd_Attempts (sd_delivery d') = nd_Attempts (sd_delivery d) ∧ put_off (w_clock w) d'.
Proof using Type.
intros Hd Ha. cbn. unfold mbind, M_bind, zoom, with_delivery. cbn. rewrite Hd. eexists _, _. split; [done|].
split; [done|]. split; [done|]. split; [done|]. exists (w_ticks w). unfold TimeAdd. cbn. lia.
Qed.

Lemma frame_refl w : mail_frame w w.
Proof using Type. by repeat split. Qed.

Lemma recipient_frame w w' v : w_identity w' = w_identity w → recipient w' v = recipient w v.
Proof using Type. intros Hi. unfold recipient. cbn. unfold zoom. cbn. rewrite Hi. by destruct (usersByID _ !! _). Qed.

Lemma resolve_run v w box : resolveRecipient v (w, box) = ((w, box), recipient w v).
Proof using Type.
unfold resolveRecipient, recipient. case_match; [done|]. unfold mbind, M_bind. cbn. unfold zoom. cbn.
destruct (usersByID _ !! _) as [u|]; cbn; [|by destruct w]. destruct (WantsNotification _ _); cbn; by destruct w.
Qed.

Lemma turned_frame id w w1 w' d : mail_frame w w1 → turned id w1 w' d → turned id w w' d.
Proof using Type. intros (Hn & Hi & Hc) (H1 & H2 & H3). rewrite Hn, Hi, Hc in *. by split_and!. Qed.

(** Marking, and then telling whether the quota has run out. *)
Lemma marked (mark : M Office ()) (q : bool) id w w1 box1 (Q : storedDelivery → Prop) : mail_frame w w1 →
  (∃ w' d', mark (w1, box1) = ((w', box1), inr ()) ∧ turned id w1 w' d' ∧ Q d') →
  ∃ w' d', (mark;; mret q : M Office bool) (w1, box1) = ((w', box1), inr q) ∧ turned id w w' d' ∧ Q d'.
Proof using Type.
intros Hf (w' & d' & Hm & Ht & HQ). exists w', d'. unfold mbind, M_bind. rewrite Hm. split; [done|].
split; [by eapply turned_frame|done].
Qed.

Lemma retried delay text q id w w1 box1 d : mail_frame w w1 → w_notifications w !! id = Some d → Minute ≤ delay ≤ Hour →
  ∃ w' d', (now ← Now; MarkNotificationRetry id (TimeAdd now delay) text;; mret q : M Office bool) (w1, box1) = ((w', box1), inr q) ∧
    turned id w w' d' ∧ nd_Attempts (sd_delivery d') = nd_Attempts (sd_delivery d) ∧ put_off (w_clock w) d'.
Proof using Type.
intros Hf Hd Hdelay. rewrite <- bind_assoc.
apply (marked _ q id w w1 box1 (λ d', nd_Attempts (sd_delivery d') = nd_Attempts (sd_delivery d) ∧ put_off (w_clock w) d') Hf).
destruct Hf as (Hn & _ & <-). apply mark_retry; [by rewrite Hn|done].
Qed.

(** A failure is put off, or given up when the attempts are used up and it was not the quota. *)
Lemma failure_settled v e w w1 box1 d : mail_frame w w1 → w_notifications w !! nd_ID v = Some d →
  nd_Attempts v = nd_Attempts (sd_delivery d) →
  ∃ w' d', (if ErrorIs e "ErrSendLimitExceeded" then
      now ← Now; MarkNotificationRetry (nd_ID v) (TimeAdd now notificationQuotaBackoff) (ErrorText e);; mret true
    else if notificationMaxAttempts <=? nd_Attempts v then MarkNotificationDeadLettered (nd_ID v) (ErrorText e);; mret false
    else now ← Now;
      MarkNotificationRetry (nd_ID v) (TimeAdd now (notificationRetryDelay (nd_Attempts v))) (ErrorText e);; mret false : M Office bool)
    (w1, box1) = ((w', box1), inr (ErrorIs e "ErrSendLimitExceeded")) ∧ turned (nd_ID v) w w' d' ∧
    nd_Attempts (sd_delivery d') = nd_Attempts v ∧
    (put_off (w_clock w) d' ∨ ErrorIs e "ErrSendLimitExceeded" = false ∧ given_up d').
Proof using Type.
intros Hf Hd Ha. destruct (ErrorIs e _).
{ destruct (retried notificationQuotaBackoff (ErrorText e) true (nd_ID v) w w1 box1 d Hf Hd) as (w' & d' & Hr & Ht & Ha' & Hp); [done|].
  exists w', d'. split_and!; try done; [congruence|by left]. }
destruct (Z.leb_spec notificationMaxAttempts (nd_Attempts v)) as [Hl|Hl].
- destruct (marked (MarkNotificationDeadLettered (nd_ID v) (ErrorText e)) false (nd_ID v) w w1 box1
    (λ d', nd_Attempts (sd_delivery d') = nd_Attempts (sd_delivery d) ∧ given_up d') Hf) as (w' & d' & Hr & Ht & Ha' & Hg).
  { apply mark_dead; [by rewrite (proj1 Hf)|congruence]. }
  exists w', d'. split_and!; try done; [congruence|by right].
- destruct (retried (notificationRetryDelay (nd_Attempts v)) (ErrorText e) false (nd_ID v) w w1 box1 d Hf Hd) as (w' & d' & Hr & Ht & Ha' & Hp);
    [apply retry_delay_spec|]. exists w', d'. split_and!; try done; [congruence|by left].
Qed.

Lemma sent_settled v w w1 box1 d : mail_frame w w1 → w_notifications w !! nd_ID v = Some d →
  nd_Attempts v = nd_Attempts (sd_delivery d) →
  ∃ w' d', (MarkNotificationSent (nd_ID v);; mret false : M Office bool) (w1, box1) = ((w', box1), inr false) ∧
    turned (nd_ID v) w w' d' ∧ nd_Attempts (sd_delivery d') = nd_Attempts v ∧ delivered d'.
Proof using Type.
intros Hf Hd Ha. rewrite Ha.
apply (marked _ false _ w w1 box1 (λ d', nd_Attempts (sd_delivery d') = nd_Attempts (sd_delivery d) ∧ delivered d') Hf).
apply mark_sent. by rewrite (proj1 Hf).
Qed.

Lemma turn_outcome quota v w box before d : mailer_apart → render_apart → w_notifications w !! nd_ID v = Some d →
  nd_Attempts v = nd_Attempts (sd_delivery d) → quota = existsb over_quota before →
  ∃ w' mails d', deliver_turn Render quota v (w, box) = ((w', box ++ mails), inr (existsb over_quota (before ++ mails))) ∧
    turned (nd_ID v) w w' d' ∧ outcome w before (mkAttempt v mails d').
Proof using Type.
intros Hm Hren Hd Ha ->. unfold deliver_turn, outcome. destruct (existsb over_quota before) eqn:Hq.
{ destruct (retried notificationQuotaBackoff (ErrorText ErrSendLimitExceeded) true (nd_ID v) w w box d (frame_refl w) Hd)
    as (w' & d' & Hr & Ht & Ha' & Hp); [done|].
  exists w', [], d'. rewrite !app_nil_r, Hq. cbn [at_delivery at_mails at_after]. split_and!; try done; [congruence|by left]. }
unfold deliverOne, attempt_send. rewrite bind_assoc. unfold mbind at 1, M_bind, catch at 1. rewrite resolve_run.
destruct (recipient w v) as [e|to] eqn:Hto; cbn [at_mails at_delivery at_after].
{ destruct (failure_settled v e w w box d (frame_refl w) Hd Ha) as (w' & d' & Hr & Ht & Ha' & Hp).
  assert (ErrorIs e "ErrSendLimitExceeded" = false) as He.
  { revert Hto. unfold recipient. destruct (nd_RecipientEmail v ≠s ""); [done|]. cbn. unfold zoom. cbn. destruct (usersByID _ !! _); cbn; [done|]. by intros [= <-]. }
  exists w', [], d'. rewrite !app_nil_r, Hq. cbn [at_delivery at_mails at_after]. split; [etrans; [exact Hr|by rewrite He]|]. split; [exact Ht|]. split; [exact Ha'|]. right. split; [done|]. right.
  split; [left; by exists e|]. tauto. }
destruct (String.eqb_spec to "") as [->|Hne].
{ destruct (sent_settled v w w box d (frame_refl w) Hd Ha) as (w' & d' & Hr & Ht & Ha' & Hp).
  exists w', [], d'. rewrite !app_nil_r, Hq. cbn [at_delivery at_mails at_after]. split; [exact Hr|]. split; [exact Ht|]. split; [exact Ha'|]. right. split; [done|]. by left. }
destruct (Render (nd_Kind v) (nd_Payload v)) as [e|r] eqn:Hr0.
{ destruct (failure_settled v e w w box d (frame_refl w) Hd Ha) as (w' & d' & Hr & Ht & Ha' & Hp).
  exists w', [], d'. rewrite !app_nil_r, Hq. cbn [at_delivery at_mails at_after]. split; [etrans; [exact Hr|by rewrite (Hren _ _ _ Hr0)]|]. split; [exact Ht|]. split; [exact Ha'|]. right. split; [done|]. right.
  split; [right; by exists to, e|]. tauto. }
unfold mbind, M_bind, catch. cbn [Send office_mailer fst snd].
pose proof (Hm to (rn_Subject r) (rn_Text r) (rn_HTML r) w) as Hf.
destruct (Send to (rn_Subject r) (rn_Text r) (rn_HTML r) w) as [w1 answer]. cbn [fst] in Hf.
set (m := mkMail to (rn_Subject r) (rn_Text r) (rn_HTML r) answer).
assert (existsb over_quota (before ++ [m]) = over_quota m) as Hquota by (by rewrite existsb_app, Hq; cbn; rewrite orb_false_r).
assert (∃ w' d', (match answer with
    | inr _ => MarkNotificationSent (nd_ID v);; mret false
    | inl e => if ErrorIs e "ErrSendLimitExceeded" then
        now ← Now; MarkNotificationRetry (nd_ID v) (TimeAdd now notificationQuotaBackoff) (ErrorText e);; mret true
      else if notificationMaxAttempts <=? nd_Attempts v then MarkNotificationDeadLettered (nd_ID v) (ErrorText e);; mret false
      else now ← Now;
        MarkNotificationRetry (nd_ID v) (TimeAdd now (notificationRetryDelay (nd_Attempts v))) (ErrorText e);; mret false
    end : M Office bool) (w1, box ++ [m]) = ((w', box ++ [m]), inr (over_quota m)) ∧ turned (nd_ID v) w w' d' ∧
    nd_Attempts (sd_delivery d') = nd_Attempts v ∧
    match answer with inr _ => delivered d' | inl _ => put_off (w_clock w) d' ∨ over_quota m = false ∧ given_up d' end)
  as (w' & d' & Hr & Ht & Ha' & Hp).
{ unfold over_quota. cbn [ml_answer m]. destruct answer as [e|[]]; [by apply failure_settled with (d := d)|by apply sent_settled with (d := d)]. }
exists w', [m], d'. rewrite Hquota. cbn [at_delivery at_mails at_after]. split; [|by destruct r; split_and!].
refine (eq_trans _ Hr). by destruct answer as [e|[]].
Qed.

Lemma claimed_outcome w w' before a : w_identity w' = w_identity w → w_clock w' = w_clock w → outcome w' before a → outcome w before a.
Proof using Type.
intros Hi Hc. unfold outcome, unsendable, put_off. rewrite Hc. destruct a as [v mails after]. cbn [at_delivery at_mails at_after].
by rewrite (recipient_frame w w' v Hi).
Qed.

(** ** The batch *)

Lemma turns_outcome values : ∀ w box before, mailer_apart → render_apart → NoDup (map nd_ID values) →
  (∀ v, v ∈ values → ∃ d, w_notifications w !! nd_ID v = Some d ∧ nd_Attempts v = nd_Attempts (sd_delivery d)) →
  ∃ w' attempts q, fold_m (deliver_turn Render) (existsb over_quota before) values (w, box) =
      ((w', box ++ concat (map at_mails attempts)), inr q) ∧
    map at_delivery attempts = values ∧ w_clock w' = w_clock w ∧ w_identity w' = w_identity w ∧
    (∀ id, id ∉ map nd_ID values → w_notifications w' !! id = w_notifications w !! id) ∧
    ∀ l a r, attempts = l ++ a :: r → w_notifications w' !! nd_ID (at_delivery a) = Some (at_after a) ∧
      outcome w (before ++ concat (map at_mails l)) a.
Proof using Type.
induction values as [|v values IH]; intros w box before Hm Hren Hnd Hin; cbn [map] in *.
{ exists w, [], (existsb over_quota before). rewrite app_nil_r. split_and!; try done. by intros [] ? ?. }
apply NoDup_cons in Hnd as [Hv Hnd]. destruct (Hin v) as (d & Hd & Ha); [left|].
destruct (turn_outcome _ v w box before d Hm Hren Hd Ha eq_refl) as (w1 & mails & d1 & Hrun & (Hc1 & Hi1 & Hn1) & Hout).
assert (∀ id, id ≠ nd_ID v → w_notifications w1 !! id = w_notifications w !! id) as Hother.
{ intros id Hne. rewrite Hn1. by apply (lookup_insert_ne (M := gmap string)). }
destruct (IH w1 (box ++ mails) (before ++ mails) Hm Hren Hnd) as (w2 & attempts & q & Hrun2 & Hvs & Hc2 & Hi2 & Hrest & Hall).
{ intros x Hx. destruct (Hin x) as (dx & Hdx & Hax); [by right|]. exists dx. rewrite Hother; [done|].
  intros Heq. apply Hv. rewrite <- Heq. by apply (list_elem_of_fmap_2 nd_ID). }
exists w2, (mkAttempt v mails d1 :: attempts), q. cbn [fold_m map concat at_mails at_delivery].
unfold mbind, M_bind. rewrite Hrun, Hrun2, <- app_assoc. split_and!; [done|by rewrite Hvs|congruence|congruence|..].
- intros id. rewrite not_elem_of_cons. intros [Hid1 Hid2]. by rewrite Hrest, Hother.
- intros [|x l] a r [= <- Heq].
  + cbn. rewrite app_nil_r. split; [|exact Hout]. rewrite Hrest by done. rewrite Hn1.
    apply (lookup_insert_eq (M := gmap string)).
  + destruct (Hall l a r Heq) as [Ha1 Ha2]. split; [exact Ha1|]. cbn [map concat at_mails]. rewrite app_assoc.
    by apply (claimed_outcome w w1).
Qed.

(** Claiming stops only at the limit. *)
Lemma claim_loop_full now limit entries : ∀ values s,
  (∀ id d, (id, d) ∈ entries → nd_ID (sd_delivery d) = id) → Z.of_nat (length values) ≤ limit →
  let values' := (claim_loop now notificationLeaseTTL limit entries values s).2 in
  Z.of_nat (length values') ≤ limit ∧ values `prefix_of` values' ∧
  (Z.of_nat (length values') < limit → ∀ id d, (id, d) ∈ entries → notification_due now notificationLeaseTTL d = true →
     id ∈ map nd_ID values').
Proof using Type.
induction entries as [|[id d] entries IH]; intros values s Hk Hl; cbn [claim_loop].
{ split_and!; [done|done|]. intros _ id d ?%elem_of_nil. done. }
destruct (Z.leb_spec limit (Z.of_nat (length values))) as [Hle|Hlt]; [split_and!; [done|done|cbn; lia]|].
assert (∀ i x, (i, x) ∈ entries → nd_ID (sd_delivery x) = i) as Hk' by (intros i x Hx; apply Hk; by right).
destruct (notification_due now notificationLeaseTTL d) eqn:Hdue; cbn [negb]; cbv zeta.
- destruct (IH (values ++ [sd_delivery (claim_delivery now d)]) (<[id := claim_delivery now d]> s) Hk') as (H1 & H2 & H3).
  { rewrite length_app. cbn. lia. }
  split; [exact H1|]. split; [etrans; [apply prefix_app_r; reflexivity|exact H2]|]. intros Hfull i x.
  rewrite elem_of_cons. intros [[= -> ->]|Hx] Hd; [|by apply (H3 Hfull i x)].
  destruct H2 as [l Hpre]. rewrite Hpre, <- app_assoc, map_app, elem_of_app. right. cbn [app map].
  assert (nd_ID (sd_delivery (claim_delivery now d)) = id) as -> by (apply (Hk id d); by left). by left.
- destruct (IH values s Hk' Hl) as (H1 & H2 & H3). split; [exact H1|]. split; [exact H2|].
  intros Hfull i x. rewrite elem_of_cons. intros [[= -> ->]|Hx] Hd; [congruence|by apply (H3 Hfull i x)].
Qed.

Definition batch_size (limit : Z) : Z := if (limit <=? 0) || (100 <? limit) then 25 else limit.

(** [C29] A batch always finishes, whatever the mailer answers (it leaves the queue, the
    accounts and the clock alone; no template error speaks of the send quota).  It claims
    deliveries that are due, each once, and all of them unless it is full.  For each, in
    turn, exactly one mail, addressed and rendered for it, is handed to the mailer, unless
    an earlier mail of the batch hit the quota, the recipient does not want it, or it
    cannot be addressed or rendered; nothing else is mailed.  A delivery is marked sent
    exactly when the mailer accepted its mail or nobody wants it, and otherwise waits
    between a minute and an hour, or is dead-lettered with its attempts used up, and never
    for the quota.  Every claim counts one attempt, and what was not claimed stays. *)
Theorem batch_resolves (workerID : string) (limit : Z) (w : World) (box : list mail) :
  mailer_apart → render_apart → keyed_queue (w_notifications w) →
  let now := w_clock w (w_ticks w) in
  ∃ w' attempts, office_batch workerID limit (w, box) = ((w', box ++ concat (map at_mails attempts)), inr ()) ∧
    let claimed := map (λ a, nd_ID (at_delivery a)) attempts in
    NoDup claimed ∧ Z.of_nat (length claimed) ≤ batch_size limit ∧
    (Z.of_nat (length claimed) < batch_size limit → ∀ id d, w_notifications w !! id = Some d →
       notification_due now notificationLeaseTTL d = true → id ∈ claimed) ∧
    (∀ id, id ∉ claimed → w_notifications w' !! id = w_notifications w !! id) ∧
    ∀ before a after, attempts = before ++ a :: after →
      (∃ d, w_notifications w !! nd_ID (at_delivery a) = Some d ∧ notification_due now notificationLeaseTTL d = true ∧
         at_delivery a = sd_delivery (claim_delivery now d)) ∧
      w_notifications w' !! nd_ID (at_delivery a) = Some (at_after a) ∧
      outcome w (concat (map at_mails before)) a.
Proof using Type.
intros Hm Hren Hk now. unfold office_batch, DeliverPending. fold (batch_size limit).
pose proof (claim_due_spec now (batch_size limit) (w_notifications w) Hk) as Hc.
destruct (claim_loop_full now (batch_size limit) (map_range (w_notifications w)) [] (w_notifications w)) as (Hlen & _ & Hfull).
{ intros id d. rewrite (map_range_perm (w_notifications w)). intros Hd%elem_of_map_to_list. exact (Hk id d Hd). }
{ unfold batch_size. cbn [length]. destruct (Z.leb_spec limit 0); cbn [orb]; [done|]. destruct (100 <? limit); lia. }
cbn [ClaimNotifications office_notifications memory_NotificationRepository]. unfold mbind, M_bind.
cbn [Now office_env zoom L_world L_queue lens_get lens_set world_Env fst snd]. unfold zoom, memory_ClaimNotifications. cbn [lens_get lens_set L_world L_queue fst snd].
change (w_clock w (w_ticks w)) with now. change (w_notifications (w <| w_ticks ::= S |>)) with (w_notifications w).
destruct (claim_loop now notificationLeaseTTL (batch_size limit) (map_range (w_notifications w)) [] (w_notifications w)) as [s1 values] eqn:Hloop.
destruct Hc as (Hnd & Hv & Hrest). cbn [snd] in Hlen, Hfull. set (w1 := set_field _ _).
destruct (turns_outcome values w1 box [] Hm Hren Hnd) as (w2 & attempts & q & Hrun & Hvs & _ & _ & Hsame & Hall).
{ intros v Hin. destruct (Hv v Hin) as (d & _ & _ & Hvd & Hd). eexists. split; [exact Hd|]. by rewrite Hvd. }
cbn [existsb app] in Hrun. exists w2, attempts. split.
{ match goal with |- (let (_, _) := ?x in _) = _ => assert (x = ((w2, box ++ concat (map at_mails attempts)), inr q)) as -> by exact Hrun end.
  done. }
assert (map (λ a, nd_ID (at_delivery a)) attempts = map nd_ID values) as -> by (by rewrite <- Hvs, map_map).
rewrite length_map. split_and!; [done|done|..].
- intros Hlt id d Hd. apply (Hfull Hlt id d). rewrite (map_range_perm (w_notifications w)). by apply elem_of_map_to_list.
- intros id Hid. rewrite Hsame by done. cbn. by apply Hrest.
- intros before a after Heq. destruct (Hall before a after Heq) as [Ha Hout].
  destruct (Hv (at_delivery a)) as (d & Hd & Hdue & Hvd & _).
  { rewrite <- Hvs, Heq, map_app, elem_of_app. right. by left. }
  split; [by exists d|]. split; [exact Ha|]. by apply (claimed_outcome w w1).
Qed.
End Delivery.

Module Sample.
Import World.Sample.
#[local] Existing Instance default_runtime.

(** A mailer that fails for one recipient and is out of quota for another. *)
#[local] Instance fickle : EmailSender World := {|
  Send to _ _ _ :=
    if to =s "down@example.com" then throw (ErrorsNew "connection refused")
    else if to =s "late@example.com" then throw ErrSendLimitExceeded else mret ()
|}.

Lemma fickle_apart : mailer_apart.
Proof. intros to subject text html w. cbn. by repeat case_match. Qed.

Definition plain (kind : NotificationKind) (payload : gmap string string) : error + Rendered :=
  inr (mkRendered kind "" "").
Lemma plain_render_apart : render_apart plain.
Proof. by intros ???. Qed.

Definition queued (id email : string) (attempts : Z) : storedDelivery :=
  mkStoredDelivery (mkNotificationDelivery id "" email NotificationInvitation ∅ 0 NotificationPending attempts) 0 0.

Definition waiting : World :=
  empty_world <| w_notifications := {["a" := queued "a" "ok@example.com" 0;
    "b" := queued "b" "down@example.com" 4; "c" := queued "c" "down@example.com" 1]} |>.

Definition finished : Office := (office_batch plain "worker" 10 (waiting, [])).1.

(** The three fates in one batch, and the mails handed over. *)
Example fates :
  map (λ id, nd_Status (sd_delivery (default (queued "" "" 0) (w_notifications finished.1 !! id)))) ["a"; "b"; "c"]
    = [NotificationSent; NotificationFailed; NotificationPending] ∧
  length finished.2 = 3%nat ∧ List.filter (λ m, match ml_answer m with inr _ => true | _ => false end) finished.2 =
    [mkMail "ok@example.com" NotificationInvitation "" "" (inr ())].
Proof. vm_compute. done. Qed.

(** Once the quota has run out nothing more is handed over. *)
Definition limited : World :=
  empty_world <| w_notifications := {["a" := queued "a" "late@example.com" 9; "b" := queued "b" "late@example.com" 9]} |>.
Example quota_stops : length (office_batch plain "worker" 10 (limited, [])).1.2 = 1%nat ∧
  map (λ id, nd_Status (sd_delivery (default (queued "" "" 0) (w_notifications (office_batch plain "worker" 10 (limited, [])).1.1 !! id)))) ["a"; "b"]
    = [NotificationPending; NotificationPending].
Proof. vm_compute. done. Qed.

Lemma waiting_keyed : keyed_queue (w_notifications waiting).
Proof.
intros id d Hd. change (({["a" := queued "a" "ok@example.com" 0; "b" := queued "b" "down@example.com" 4;
  "c" := queued "c" "down@example.com" 1]} : gmap string storedDelivery) !! id = Some d) in Hd.
repeat (apply lookup_insert_Some in Hd as [[<- <-]|[_ Hd]]; [done|]). by apply lookup_singleton_Some in Hd as [<- <-].
Qed.

Lemma batch_resolves_witness :
  ∃ w' attempts, office_batch plain "worker" 10 (waiting, []) = ((w', concat (map at_mails attempts)), inr ()) ∧
    (Z.of_nat (length (map (λ a, nd_ID (at_delivery a)) attempts)) < 10 → "a" ∈ map (λ a, nd_ID (at_delivery a)) attempts).
Proof.
destruct (batch_resolves plain "worker" 10 waiting [] fickle_apart plain_render_apart waiting_keyed)
  as (w' & attempts & Hrun & _ & _ & Hfull & _).
exists w', attempts. split; [exact Hrun|]. intros Hlt.
exact (Hfull Hlt "a" (queued "a" "ok@example.com" 0) eq_refl eq_refl).
Defined.
End Sample.
