(* ===== verification/ImageProc.v ===== *)
(** * Image normalisation (src/pkg/imageproc/imageproc.go)

    Sniffing, the area-average downscaling and the pipeline that re-encodes an
    upload.  An image is its bounds and the premultiplied 16-bit colour of each
    pixel; the codecs, the content sniffer and the luminance of the standard
    library are parameters. *)

From Stdlib Require Import Ascii.
From S2P Require Export Prelude GoStrings.
#[global] Open Scope Z_scope.

Definition ErrUnsupportedType : error := Sentinel "ErrUnsupportedType" "unsupported image type".
Definition ErrContentMismatch : error :=
  Sentinel "ErrContentMismatch" "declared content type does not match file contents".

Definition sniffLength : Z := 512.

Record Options := mkOptions { MaxDimension : Z; Grayscale : bool; JPEGQuality : Z }.

Definition ReceiptOptions : Options := mkOptions 2048 true 85.
Definition ProfileImageOptions : Options := mkOptions 512 false 82.

Record Result := mkResult { res_Data : string; res_ContentType : string; res_Width : Z; res_Height : Z }.

(** The colour of a pixel: the four results of [RGBA()]. *)
Record RGBA := mkRGBA { px_R : Z; px_G : Z; px_B : Z; px_A : Z }.

Record Image := mkImage {
  MinX : Z; MinY : Z; Dx : Z; Dy : Z; At : Z → Z → RGBA
}.

Fixpoint before_semicolon (s : string) : string :=
  match s with
  | EmptyString => ""
  | String c s => if Ascii.eqb c ";"%char then "" else String c (before_semicolon s)
  end.

Definition baseMediaType `{GoRuntime} (mediaType : string) : string :=
  ToLower (TrimSpace (before_semicolon mediaType)).

Definition IsSupportedImage `{GoRuntime} (mediaType : string) : bool :=
  str_in (baseMediaType mediaType) ["image/jpeg"; "image/png"; "image/gif"].

(** ** Downscaling *)

(** The pixels of the block, row by row. *)
Definition span (a b : Z) : list Z := map (λ i, a + Z.of_nat i) (seq 0 (Z.to_nat (b - a))).

Definition wrapU64 (z : Z) : Z := z mod 2 ^ 64.

Definition total (f : RGBA → Z) (pixels : list RGBA) : Z :=
  foldl (λ t p, wrapU64 (t + f p)) 0 pixels.

Definition block (source : Image) (left_ top right_ bottom : Z) : list RGBA :=
  flat_map (λ y, map (λ x, At source x y) (span left_ right_)) (span top bottom).

(** 8 bits of a 16-bit average. *)
Definition channel (f : RGBA → Z) (pixels : list RGBA) : Z :=
  Z.shiftr (total f pixels / Z.of_nat (length pixels)) 8 mod 256.

Definition averageColor (source : Image) (left_ top right_ bottom : Z) : RGBA :=
  let pixels := block source left_ top right_ bottom in
  match pixels with
  | [] => mkRGBA 0 0 0 0
  | _ => mkRGBA (channel px_R pixels) (channel px_G pixels) (channel px_B pixels) (channel px_A pixels)
  end.

(** The half-open range of source positions that position [i] of [n] covers. *)
Definition cell (origin len n i : Z) : Z * Z :=
  let first := wrap64 (origin + Z.quot (wrap64 (i * len)) n) in
  let last := wrap64 (origin + Z.quot (wrap64 ((i + 1) * len)) n) in
  (first, if last <=? first then first + 1 else last).

Definition target_size (width height maxDimension : Z) : Z * Z :=
  if height <=? width
  then (maxDimension, Z.max 1 (Z.quot (wrap64 (height * maxDimension)) width))
  else (Z.max 1 (Z.quot (wrap64 (width * maxDimension)) height), maxDimension).

(** [color.RGBA.RGBA()]: an 8-bit component widened to 16 bits. *)
Definition widen (c : RGBA) : RGBA := mkRGBA (257 * px_R c) (257 * px_G c) (257 * px_B c) (257 * px_A c).

Definition resize (source : Image) (maxDimension : Z) : Image :=
  let width := Dx source in
  let height := Dy source in
  if (maxDimension <=? 0) || ((width <=? maxDimension) && (height <=? maxDimension)) then source
  else
    let '(targetWidth, targetHeight) := target_size width height maxDimension in
    mkImage 0 0 targetWidth targetHeight (λ x y,
      let '(top, bottom) := cell (MinY source) height targetHeight y in
      let '(left_, right_) := cell (MinX source) width targetWidth x in
      widen (averageColor source left_ top right_ bottom)).

Section Normalize.
Context `{GoRuntime}.
Context (http_DetectContentType : string → string) (image_Decode : string → error + Image).
Context (jpeg_Encode : Image → Z → error + string) (grayscale : Image → Image).

Definition DetectContentType (head : string) : string :=
  http_DetectContentType (if sniffLength <? len head then String.substring 0 (Z.to_nat sniffLength) head else head).

Definition Normalize (data : string) (options : Options) : error + Result :=
  if negb (IsSupportedImage (DetectContentType data)) then inl ErrUnsupportedType
  else match image_Decode data with
  | inl err => inl (Errorf "" ErrUnsupportedType (": " +:+ ErrorText err))
  | inr source =>
      let normalised := resize source (MaxDimension options) in
      let normalised := if Grayscale options then grayscale normalised else normalised in
      let quality := if (JPEGQuality options <? 1) || (100 <? JPEGQuality options) then 80
                     else JPEGQuality options in
      match jpeg_Encode normalised quality with
      | inl err => inl (Errorf "encode image: " err "")
      | inr encoded => inr (mkResult encoded "image/jpeg" (Dx normalised) (Dy normalised))
      end
  end.
End Normalize.

(** ** The downscaling loses and repeats no pixel *)

(** Image sizes for which the index products stay within [int]. *)
Definition measurable (origin len : Z) : Prop := 0 < len < 2 ^ 31 ∧ Z.abs origin < 2 ^ 31.

Lemma cell_spec origin len n i : measurable origin len → 0 < n ≤ len → 0 ≤ i < n →
  cell origin len n i = (origin + i * len / n, origin + (i + 1) * len / n) ∧
  origin + i * len / n < origin + (i + 1) * len / n ≤ origin + len.
Proof.
intros [Hl Ho] Hn Hi.
assert (0 ≤ i * len / n ∧ i * len / n < (i + 1) * len / n ≤ len) as (H1 & H2 & H3).
{ split; [apply Z.div_pos; nia|]. split.
  - apply Z.lt_le_trans with (i * len / n + 1); [lia|]. rewrite <- Z.div_add by lia. apply Z.div_le_mono; nia.
  - apply Z.div_le_upper_bound; nia. }
unfold cell. rewrite !(wrap64_id ((_) * len)) by (unfold is_int64, min_int64, max_int64; nia).
rewrite !Z.quot_div_nonneg by nia. rewrite !wrap64_id by (unfold is_int64, min_int64, max_int64; lia).
destruct (Z.leb_spec (origin + (i + 1) * len / n) (origin + i * len / n)); [lia|]. split; [done|lia].
Qed.

(** Each source position belongs to exactly one cell. *)
Lemma cells_partition origin len n p : measurable origin len → 0 < n ≤ len → origin ≤ p < origin + len →
  exists! i, 0 ≤ i < n ∧ (cell origin len n i).1 ≤ p < (cell origin len n i).2.
Proof.
intros Hm Hn Hp. set (q := p - origin). set (i := ((q + 1) * n - 1) / len).
assert (0 ≤ q < len) as Hq by lia. destruct Hm as [Hl Ho].
assert (0 ≤ i < n) as Hi by (split; [apply Z.div_pos; nia|apply Z.div_lt_upper_bound; nia]).
assert (i * len ≤ (q + 1) * n - 1 < (i + 1) * len) as Hb.
{ pose proof (Z.div_mod ((q + 1) * n - 1) len ltac:(lia)). pose proof (Z.mod_pos_bound ((q + 1) * n - 1) len ltac:(lia)).
  fold i in H. nia. }
exists i. split.
- split; [done|]. destruct (cell_spec origin len n i) as [-> _]; [done..|]. cbn. split.
  + assert (i * len / n < q + 1) by (apply Z.div_lt_upper_bound; nia). lia.
  + assert (q + 1 ≤ (i + 1) * len / n) by (apply Z.div_le_lower_bound; nia). lia.
- intros j [Hj Hc]. destruct (cell_spec origin len n j) as [Heq _]; [done..|]. rewrite Heq in Hc. cbn in Hc.
  assert (j * len < (q + 1) * n) by (assert (j * len / n < q + 1) as Hd by lia;
    pose proof (Z.mul_succ_div_gt (j * len) n ltac:(lia)); nia).
  assert ((q + 1) * n ≤ (j + 1) * len) by (assert (q + 1 ≤ (j + 1) * len / n) as Hd by lia;
    pose proof (Z.mul_div_le ((j + 1) * len) n ltac:(lia)); nia).
  nia.
Qed.

(** The target pixel [(i, j)] averages a block that contains the source pixel [(x, y)]. *)
Definition covers (source : Image) (maxDimension i j x y : Z) : Prop :=
  let '(tw, th) := target_size (Dx source) (Dy source) maxDimension in
  let cx := cell (MinX source) (Dx source) tw i in
  let cy := cell (MinY source) (Dy source) th j in
  0 ≤ i < tw ∧ 0 ≤ j < th ∧ cx.1 ≤ x < cx.2 ∧ cy.1 ≤ y < cy.2.

Lemma target_size_fits width height m : 0 < width < 2 ^ 31 → 0 < height < 2 ^ 31 → 0 < m →
  m < width ∨ m < height →
  let '(tw, th) := target_size width height m in
  0 < tw ≤ Z.min m width ∧ 0 < th ≤ Z.min m height.
Proof.
intros Hw Hh Hm Hbig. unfold target_size.
destruct (Z.leb_spec height width).
- rewrite wrap64_id by (unfold is_int64, min_int64, max_int64; nia). rewrite Z.quot_div_nonneg by nia.
  assert (height * m / width ≤ m) by (apply Z.div_le_upper_bound; nia).
  assert (height * m / width ≤ height) by (apply Z.div_le_upper_bound; nia). lia.
- rewrite wrap64_id by (unfold is_int64, min_int64, max_int64; nia). rewrite Z.quot_div_nonneg by nia.
  assert (width * m / height ≤ m) by (apply Z.div_le_upper_bound; nia).
  assert (width * m / height ≤ width) by (apply Z.div_le_upper_bound; nia). lia.
Qed.

Lemma resize_big source m : 0 < m → m < Dx source ∨ m < Dy source →
  Dx (resize source m) = (target_size (Dx source) (Dy source) m).1 ∧
  Dy (resize source m) = (target_size (Dx source) (Dy source) m).2.
Proof.
intros Hm Hbig. unfold resize. destruct (Z.leb_spec m 0); [lia|].
destruct (Z.leb_spec (Dx source) m), (Z.leb_spec (Dy source) m); cbn; try lia;
  by destruct (target_size _ _ _).
Qed.

(** A resized image fits the bound and is never larger than its source; an
    image already within the bound is untouched; and the blocks averaged into
    the target pixels partition the source, so that every source pixel counts in
    exactly one of them. *)
Theorem resize_partitions source m :
  measurable (MinX source) (Dx source) → measurable (MinY source) (Dy source) → 0 < m →
  let t := resize source m in
  (0 < Dx t ≤ Z.min m (Dx source) ∧ 0 < Dy t ≤ Z.min m (Dy source)) ∧
  (Dx source ≤ m → Dy source ≤ m → t = source) ∧
  (m < Dx source ∨ m < Dy source → ∀ x y,
     MinX source ≤ x < MinX source + Dx source → MinY source ≤ y < MinY source + Dy source →
     exists! ij, covers source m ij.1 ij.2 x y).
Proof.
intros Hx Hy Hm. destruct (Z.le_gt_cases (Dx source) m) as [H1|H1], (Z.le_gt_cases (Dy source) m) as [H2|H2].
1: { assert (resize source m = source) as Hr.
  { unfold resize. rewrite (proj2 (Z.leb_le _ _) H1), (proj2 (Z.leb_le _ _) H2), orb_true_r. reflexivity. }
  cbv zeta. rewrite Hr. destruct Hx, Hy. split; [lia|]. split; [done|lia]. }
all: assert (m < Dx source ∨ m < Dy source) as Hbig by lia;
  destruct (resize_big source m Hm Hbig) as [Hrx Hry]; destruct (proj1 Hx), (proj1 Hy);
  pose proof (target_size_fits (Dx source) (Dy source) m (proj1 Hx) (proj1 Hy) Hm Hbig) as Hfit;
  cbv zeta; rewrite Hrx, Hry; unfold covers;
  destruct (target_size (Dx source) (Dy source) m) as [tw th]; cbn;
  (split; [lia|]); (split; [lia|]); intros _ x y Hxb Hyb;
  destruct (cells_partition (MinX source) (Dx source) tw x Hx ltac:(lia) Hxb) as (i & [Hi Hci] & Hui);
  destruct (cells_partition (MinY source) (Dy source) th y Hy ltac:(lia) Hyb) as (j & [Hj Hcj] & Huj);
  exists (i, j); (split; [done|]); intros [i' j'] (? & ? & ? & ?); cbn in *;
  by rewrite (Hui i'), (Huj j').
Qed.

Lemma total_sum f pixels : Forall (λ p, 0 ≤ f p < 2 ^ 16) pixels → Z.of_nat (length pixels) < 2 ^ 47 →
  total f pixels = foldr (λ p t, f p + t) 0 pixels.
Proof.
intros Hf Hn. unfold total.
enough (∀ t, 0 ≤ t → t + Z.of_nat (length pixels) * 2 ^ 16 < 2 ^ 64 →
  foldl (λ t p, wrapU64 (t + f p)) t pixels = t + foldr (λ p t, f p + t) 0 pixels) as He.
{ rewrite He; [done..|lia]. }
clear Hn. induction Hf as [|p pixels Hp _ IH]; intros t Ht Hb; simpl in *; [lia|].
unfold wrapU64 at 2. rewrite Z.mod_small by lia. rewrite IH by lia. lia.
Qed.

(** The average of a block lies between the darkest and the brightest of its
    pixels, in each channel: the sums do not overflow. *)
Theorem average_between f pixels lo hi : pixels ≠ [] → Z.of_nat (length pixels) < 2 ^ 47 →
  Forall (λ p, lo ≤ f p ≤ hi) pixels → 0 ≤ lo → hi < 2 ^ 16 →
  lo / 256 ≤ channel f pixels ≤ hi / 256.
Proof.
intros Hne Hn Hb Hlo Hhi.
assert (total f pixels = foldr (λ p t, f p + t) 0 pixels) as Ht.
{ apply total_sum; [|done]. eapply Forall_impl; [exact Hb|]. cbn. lia. }
assert (lo * Z.of_nat (length pixels) ≤ total f pixels ≤ hi * Z.of_nat (length pixels)) as Hsum.
{ rewrite Ht. clear -Hb. induction Hb; cbn [foldr length]; lia. }
assert (0 < Z.of_nat (length pixels)) by (destruct pixels; [done|cbn; lia]).
unfold channel. rewrite Z.shiftr_div_pow2 by lia. change (2 ^ 8) with 256.
set (a := total f pixels / Z.of_nat (length pixels)).
assert (lo ≤ a ≤ hi) as Ha by (split; [apply Z.div_le_lower_bound|apply Z.div_le_upper_bound]; lia).
assert (lo / 256 ≤ a / 256 ≤ hi / 256) by (split; apply Z.div_le_mono; lia).
rewrite Z.mod_small; [done|]. assert (hi / 256 < 256) by (apply Z.div_lt_upper_bound; lia).
assert (0 ≤ lo / 256) by (apply Z.div_pos; lia). lia.
Qed.

Module Sample.
(** Five by two pixels, the colour of a pixel being its column. *)
Definition strip : Image := mkImage 0 0 5 2 (λ x _, mkRGBA (256 * x) (256 * x) (256 * x) 65535).

Example strip_resized : (Dx (resize strip 3), Dy (resize strip 3)) = (3, 1) ∧
  px_R (At (resize strip 3) 1 0) = 257 * 1.
Proof. vm_compute. done. Qed.

Lemma resize_partitions_witness :
  0 < Dx (resize strip 3) ≤ 3 ∧ exists! ij, covers strip 3 ij.1 ij.2 4 1.
Proof.
assert (measurable (MinX strip) (Dx strip) ∧ measurable (MinY strip) (Dy strip)) as [Hx Hy].
{ unfold measurable. cbn. lia. }
destruct (resize_partitions strip 3 Hx Hy ltac:(lia)) as ([Hw _] & _ & Hp).
split; [exact Hw|]. apply Hp; cbn; lia.
Defined.

Lemma average_between_witness :
  1 ≤ channel px_R (block strip 1 0 3 2) ≤ 2.
Proof.
apply (average_between px_R (block strip 1 0 3 2) 256 512); [by vm_compute|by vm_compute| |done|done].
vm_compute. by repeat constructor.
Defined.
End Sample.
