(* ===== verification/Http.v ===== *)
(** * Requests, responses and who may make them (src/pkg/auth/http.go, the helpers of
    src/internal/adapter/inbound/http/v1/handler/auth.go)

    A request as net/http and chi hand it to a handler: the header by canonical
    names, the cookies, the query and the path parameters in order, the body by the
    document it starts with, if it starts with one.  A middleware is a function on handlers, as in the
    source; the identity it finds travels in the request's context. *)

From S2P Require Export Prelude GoTime GoStrings Domain Json.
From Stdlib Require Import Ascii.
#[global] Open Scope Z_scope.

(** ** The standard library: [strings.Fields] and [strconv.Atoi] *)

Definition flush_field (word : bytes) : list bytes := match word with [] => [] | _ => [rev word] end.

(** [word] is the field being read, reversed. *)
Fixpoint fields_of (word l : bytes) : list bytes :=
  match l with
  | [] => flush_field word
  | c1 :: l1 =>
      if space1 c1 then flush_field word ++ fields_of [] l1 else
      match l1 with
      | [] => fields_of (c1 :: word) l1
      | c2 :: l2 =>
          if space2 c1 c2 then flush_field word ++ fields_of [] l2 else
          match l2 with
          | [] => fields_of (c1 :: word) l1
          | c3 :: l3 =>
              if space3 c1 c2 c3 then flush_field word ++ fields_of [] l3 else fields_of (c1 :: word) l1
          end
      end
  end.
Definition Fields (s : string) : list string :=
  map String.string_of_list_ascii (fields_of [] (String.list_ascii_of_string s)).

Example Fields_ex : Fields "  Bearer	 abc " = ["Bearer"; "abc"] ∧ Fields " " = [].
Proof. done. Qed.

Definition max_uint64 : Z := 2 ^ 64 - 1.

(** [strconv.ParseUint(s, 10, 64)] after its check for the empty text: the number,
    and whether it is a syntax error ([None]) or out of range. *)
Fixpoint parse_uint (acc : Z) (l : bytes) : option (Z * bool) :=
  match l with
  | [] => Some (acc, false)
  | c :: l =>
      match digit c with
      | None => None
      | Some d => let n := 10 * acc + d in if max_uint64 <? n then Some (max_uint64, true) else parse_uint n l
      end
  end.

Definition parse_magnitude (l : bytes) : option (Z * bool) :=
  match l with [] => None | _ => parse_uint 0 l end.

(** [strconv.Atoi]: the value and whether the error is nil.  A syntax error gives
    zero, a number out of range the nearest [int]. *)
Definition Atoi (s : string) : Z * bool :=
  let '(negative, l) :=
    match String.list_ascii_of_string s with
    | c :: l => if Ascii.eqb c "-" then (true, l) else if Ascii.eqb c "+" then (false, l) else (false, c :: l)
    | [] => (false, [])
    end in
  match parse_magnitude l with
  | None => (0, false)
  | Some (n, overflow) =>
      if negative then (if - n <? min_int64 then (min_int64, false) else (- n, negb overflow))
      else if max_int64 <? n then (max_int64, false) else (n, negb overflow)
  end.

Example Atoi_ex : Atoi "-25" = (-25, true) ∧ Atoi "+7" = (7, true) ∧ Atoi "" = (0, false) ∧ Atoi "1_0" = (0, false) ∧
  Atoi "99999999999999999999x" = (max_int64, false) ∧ Atoi "-9223372036854775808" = (min_int64, true).
Proof. done. Qed.

(** ** Requests *)

(** [Identity], the authenticated principal. *)
Record Identity := mkIdentity { id_Subject : string; id_Email : string; id_Role : string }.

(** What [ParseMultipartForm] and [FormFile("file")] make of the body: no form, or
    one over the limit; no such file; its bytes, its name and its declared type.  A
    file of a parsed form can be read. *)
Inductive Upload :=
  | UploadInvalid
  | UploadMissing
  | UploadFile (data filename contentType : string).

Record Request := mkRequest {
  rq_Method : string; rq_Header : list (string * string); rq_Cookies : list (string * string);
  rq_Query : list (string * string); rq_Params : list (string * string); rq_Body : option json;
  rq_Upload : Upload; rq_Identity : option Identity
}.
#[export] Instance eta_Request : Eta Request := λ r,
  mkRequest (rq_Method r) (rq_Header r) (rq_Cookies r) (rq_Query r) (rq_Params r) (rq_Body r) (rq_Upload r)
    (rq_Identity r).

(** The first value under a name, and all of them. *)
Definition values_of (name : string) (l : list (string * string)) : list string :=
  map snd (List.filter (λ kv, kv.1 =s name) l).
Definition first_of (name : string) (l : list (string * string)) : option string := head (values_of name l).

Definition Header_Get (r : Request) (name : string) : string := default "" (first_of name (rq_Header r)).
Definition Query_Get (r : Request) (name : string) : string := default "" (first_of name (rq_Query r)).
Definition Query_All (r : Request) (name : string) : list string := values_of name (rq_Query r).
Definition Request_Cookie (r : Request) (name : string) : option string := first_of name (rq_Cookies r).
Definition URLParam (r : Request) (name : string) : string := default "" (first_of name (rq_Params r)).

(** ** Responses *)

Record Cookie := mkCookie {
  ck_Name : string; ck_Value : string; ck_Path : string; ck_Expires : Time; ck_MaxAge : Z;
  ck_HttpOnly : bool; ck_Secure : bool; ck_SameSiteStrict : bool
}.

(** What a handler writes to the response; [EventStream] stands for the server-sent
    events written on the way. *)
Inductive Response (A : Type) :=
  | WriteJSON (status : Z) (value : A)
  | WriteJSONError (status : Z) (message : string)
  | WriteHeader (status : Z)
  | WriteText (status : Z) (text : string)
  | Redirect (url : string)
  | Stream (contentType : string) (size : Z) (body : string)
  | SetCookie (cookie : Cookie) (rest : Response A)
  | EventStream.
Arguments WriteJSON {A}. Arguments WriteJSONError {A}. Arguments WriteHeader {A}. Arguments WriteText {A}.
Arguments Redirect {A}. Arguments Stream {A}. Arguments SetCookie {A}. Arguments EventStream {A}.

Fixpoint map_response {A B} (f : A → B) (r : Response A) : Response B :=
  match r with
  | WriteJSON status v => WriteJSON status (f v)
  | WriteJSONError status message => WriteJSONError status message
  | WriteHeader status => WriteHeader status
  | WriteText status text => WriteText status text
  | Redirect url => Redirect url
  | Stream contentType size body => Stream contentType size body
  | SetCookie c rest => SetCookie c (map_response f rest)
  | EventStream => EventStream
  end.

(** A handler fails only by a panic, which net/http turns into an aborted
    connection; the errors of the services are answered. *)
Definition HandlerFunc (W V : Type) : Type := Request → M W (Response V).

Section Handlers.
Context {W V : Type}.

(** [v, err := m()]: a panic is no error value. *)
Definition call {A} (m : M W A) : M W (error + A) := λ w,
  match m w with
  | (w', inr a) => (w', inr (inr a))
  | (w', inl e) => (w', if ErrorIs e "panic" then inl e else inr (inl e))
  end.

(** [decodeJSON] into a zero value. *)
Definition decodeJSON {T} (d : dec T) (zero : T) (r : Request) (next : T → M W (Response V)) : M W (Response V) :=
  match (rq_Body r ≫= λ body, d body zero) with
  | None => mret (WriteJSONError 400 "invalid JSON request")
  | Some request => next request
  end.

(** [value, err := m(); if err != nil { write f(err); return }; write k(value)]. *)
Definition answer {A} (m : M W A) (f : error → Response V) (k : A → Response V) : M W (Response V) :=
  result ← call m;
  mret (match result with inl err => f err | inr a => k a end).

(** ** Middleware (pkg/auth) *)

Class Authenticator := { Authenticate : string → M W Identity }.
Class Authorizer := { Identity_Allows : Identity → string → bool }.

Definition bearerToken (header : string) : option string :=
  match Fields header with
  | [scheme; token] =>
      if negb (map_bytes lower_byte scheme =s "bearer") || (token =s "") then None else Some token
  | _ => None
  end.

Definition authentication_required : Response V := WriteJSONError 401 "authentication required".
Definition permission_denied : Response V := WriteJSONError 403 "permission denied".

Definition RequireAuthentication (authenticator : option Authenticator) (next : HandlerFunc W V)
    : HandlerFunc W V := λ r,
  match authenticator with
  | None => mret (WriteJSONError 500 "authentication is not configured")
  | Some authenticator =>
      match bearerToken (Header_Get r "Authorization") with
      | None => mret authentication_required
      | Some token =>
          identity ← call (Authenticate token);
          match identity with
          | inl _ => mret authentication_required
          | inr identity => next (r <| rq_Identity := Some identity |>)
          end
      end
  end.

Definition RequirePermission (authorizer : option Authorizer) (permission : string) (next : HandlerFunc W V)
    : HandlerFunc W V := λ r,
  match rq_Identity r with
  | None => mret authentication_required
  | Some identity =>
      if negb (match authorizer with Some a => Identity_Allows identity permission | None => false end)
      then mret permission_denied
      else next r
  end.

Definition RequireBearerToken (want : string) (next : HandlerFunc W V) : HandlerFunc W V := λ r,
  match bearerToken (Header_Get r "Authorization") with
  | None => mret authentication_required
  | Some token =>
      if (want =s "") || negb (token =s want) then mret authentication_required else next r
  end.
End Handlers.
Arguments Authenticator : clear implicits.
Arguments authentication_required {V}. Arguments permission_denied {V}.

Definition zero_identity : Identity := mkIdentity "" "" "".

(** [identity, _ := IdentityFromContext(r.Context())]. *)
Definition IdentityFromContext (r : Request) : Identity := default zero_identity (rq_Identity r).

(** A token is one field: the scheme and the token of a header say which. *)
Lemma bearer_one_field header token : bearerToken header = Some token →
  token ≠ "" ∧ ∃ scheme, Fields header = [scheme; token] ∧ map_bytes lower_byte scheme = "bearer".
Proof.
unfold bearerToken. destruct (Fields header) as [|scheme [|t [|]]]; try done.
destruct (String.eqb_spec (map_bytes lower_byte scheme) "bearer"); [|done].
destruct (String.eqb_spec t ""); [done|]. cbn. intros [= ->]. eauto.
Qed.

(** ** What runs under [call] and [answer] *)

Section Rules.
Context {W V : Type}.
Implicit Types P E : W → Prop.

Lemma hoare_call {A} P (m : M W A) (Q : error + A → W → Prop) E :
  hoare P m (λ a, Q (inr a)) (λ w, E w ∧ ∀ e, Q (inl e) w) → hoare P (call m) Q E.
Proof.
intros Hm w Hw. unfold call. specialize (Hm w Hw). destruct (m w) as [w1 [e|a]]; [|done].
destruct (ErrorIs e "panic"); by destruct Hm.
Qed.

Lemma hoare_answer {A} P (m : M W A) f (k : A → Response V) :
  hoare P m (λ _, P) P → hoare P (answer m f k) (λ _, P) P.
Proof.
intros Hm. eapply hoare_bind; [apply (hoare_call _ _ (λ _, P) P)|intros a; by apply hoare_ret].
eapply hoare_weaken; [exact Hm|done..].
Qed.

Lemma hoare_decode {T} P (d : dec T) zero r (next : T → M W (Response V)) :
  (∀ t, hoare P (next t) (λ _, P) P) → hoare P (decodeJSON d zero r next) (λ _, P) P.
Proof. intros Hn. unfold decodeJSON. destruct (rq_Body r ≫= _); [apply Hn|by apply hoare_ret]. Qed.
End Rules.
