(* ===== verification/Frames.v ===== *)
(** * What a computation leaves alone

    A preorder on states says what may change; it lifts to computations, and one
    tactic walks through a service's definition, stopping at the calls to operations
    a lemma has to speak about. *)

From S2P Require Export Prelude Http Auth Expenses.

(** Every preorder on states lifts to computations the same way. *)
Section Lift.
Context {W : Type} (R : relation W) `{!PreOrder R}.

Definition lifted {A} (m : M W A) : Prop := ∀ w, R w (m w).1.

Lemma lifted_ret {A} (a : A) : lifted (mret a). Proof. intros w. cbn. reflexivity. Qed.
Lemma lifted_throw {A} e : lifted (A:=A) (throw e). Proof. intros w. cbn. reflexivity. Qed.
Lemma lifted_bind {A B} (m : M W A) (k : A → M W B) : lifted m → (∀ a, lifted (k a)) → lifted (m ≫= k).
Proof.
intros Hm Hk w. unfold mbind, M_bind. specialize (Hm w). destruct (m w) as [w1 [e|a]]; [exact Hm|].
etrans; [exact Hm|apply Hk].
Qed.
Lemma lifted_map_err {A} f (m : M W A) : lifted m → lifted (map_err f m).
Proof. intros Hm w. unfold map_err. specialize (Hm w). by destruct (m w) as [w1 [e|a]]. Qed.
Lemma lifted_catch {A} (m : M W A) : lifted m → lifted (catch m).
Proof. intros Hm w. unfold catch. specialize (Hm w). by destruct (m w) as [w1 r]. Qed.
Lemma lifted_call {A} (m : M W A) : lifted m → lifted (call m).
Proof. intros Hm w. unfold call. specialize (Hm w). by destruct (m w) as [w1 [e|a]]. Qed.
Lemma lifted_fold {A B} (body : B → A → M W B) l acc :
  (∀ b a, lifted (body b a)) → lifted (fold_m body acc l).
Proof. intros Hb. revert acc. induction l as [|x l IH]; intros acc; [by apply lifted_ret|]. by apply lifted_bind. Qed.
Lemma lifted_for_each {A} (body : A → M W ()) l : (∀ a, lifted (body a)) → lifted (for_each body l).
Proof. intros Hb. induction l as [|x l IH]; [by apply lifted_ret|]. apply lifted_bind; [apply Hb|done]. Qed.
Lemma lifted_zoom {S A} (l : Lens W S) (m : M S A) :
  (∀ w, R w (lens_set l (m (lens_get l w)).1 w)) → lifted (zoom l m).
Proof. intros Hm w. unfold zoom. specialize (Hm w). by destruct (m (lens_get l w)) as [s r]. Qed.
End Lift.

(** Leaving a part of the state as it is, a special case. *)
Definition keeping {W T} (f : W → T) (w w' : W) : Prop := f w' = f w.
#[export] Instance keeping_preorder {W T} (f : W → T) : PreOrder (keeping f).
Proof. split; [done|]. intros w1 w2 w3 H1 H2. unfold keeping in *. by rewrite H2. Qed.

Lemma keeping_hoare {W T A} (f : W → T) (m : M W A) (x : T) : lifted (keeping f) m →
  hoare (λ w, f w = x) m (λ _ w, f w = x) (λ w, f w = x).
Proof. intros Hm w <-. specialize (Hm w). unfold keeping in Hm. by destruct (m w) as [w' [e|a]]. Qed.

(** The lemmas about operations. *)
Create HintDb quiet discriminated.

(** One step into a computation; what is left are calls to other operations. *)
Ltac lifted_step R :=
  first
    [ assumption
    | match goal with
      | |- _ (mret _) => apply (lifted_ret R)
      | |- _ (throw _) => apply (lifted_throw R)
      | |- _ (_ ≫= _) => apply (lifted_bind R); [|intros ?]
      | |- _ (map_err _ _) => apply (lifted_map_err R)
      | |- _ (wrap_err _ _) => apply (lifted_map_err R)
      | |- _ (or_error _ _) => apply (lifted_map_err R)
      | |- _ (catch _) => apply (lifted_catch R)
      | |- _ (call _) => apply (lifted_call R)
      | |- _ (check ?e) => unfold check; destruct e
      | |- _ (fold_m _ _ _) => apply (lifted_fold R); intros ? ?
      | |- _ (for_each _ _) => apply (lifted_for_each R); intros ?
      | |- _ (if ?b then _ else _) => destruct b
      | |- _ (match ?x with _ => _ end) => destruct x
      | |- _ (let _ := _ in _) => cbv zeta
      end
    | progress cbv beta
    | solve [eauto 1 with quiet nocore]
    | solve [apply (lifted_zoom R); intros w; first [reflexivity|split; [done|done]]]
    | solve [apply (lifted_bind R); [by intros w|intros ?; apply (lifted_zoom R); intros w; split; [done|done]]] ].
