(* ===== verification/Uploads.v ===== *)
(** * Uploads and downloads (src/internal/adapter/inbound/http/v1/handler/uploads.go)

    The handlers that store an uploaded file under a fresh key and attach it to
    an expense or a profile, and those that serve it back.  The request is the
    file's bytes and the authenticated identity; the image codec and the content
    sniffer of the standard library are parameters. *)

From S2P Require Export Prelude GoTime GoStrings Domain UnitOfWork Ports Expenses Auth ImageProc Http.
#[global] Open Scope Z_scope.

Definition presignTTL : Duration := 5 * Minute.

Definition extensionFor (contentType : string) : string :=
  if contentType =s "application/pdf" then ".pdf"
  else if contentType =s "image/jpeg" then ".jpg"
  else if contentType =s "image/png" then ".png"
  else if contentType =s "image/gif" then ".gif"
  else "".

Section Uploads.
Context `{GoRuntime} {W : Type} `{Env W} `{ExpenseRepository W} `{EventLog W} `{UnitOfWork W}.
Context `{IdentityRepository W} `{ObjectStore W}.
Context (objectRefs : option (ObjectReferenceRepository W)) (groups : option (GroupRepository W)).
Context (http_DetectContentType : string → string) (image_Decode : string → error + Image).
Context (jpeg_Encode : Image → Z → error + string) (grayscale : Image → Image).

(** The checks of [readUpload] on the bytes read. *)
Definition readUpload (data : string) (imageOnly : bool) : option (string * string) :=
  let detected := DetectContentType http_DetectContentType data in
  let valid := IsSupportedImage detected in
  let valid := if negb imageOnly then valid || (detected =s "application/pdf") else valid in
  if valid then Some (data, detected) else None.

Definition receipt_key (owner id token extension : string) : string :=
  "receipts/" +:+ owner +:+ "/" +:+ id +:+ "/" +:+ token +:+ extension.

Definition store_receipt (ctx : Ctx) (owner id body contentType extension : string)
    : M W (Response ExpenseRecord) :=
  token ← NewString;
  let objectKey := receipt_key owner id token extension in
  stored ← catch (Put objectKey body contentType);
  match stored with
  | inl _ => mret (WriteJSONError 502 "could not store receipt")
  | inr _ =>
      attached ← catch (AttachReceipt objectRefs ctx owner id objectKey);
      match attached with
      | inl _ => mret (WriteJSONError 404 "expense not found")
      | inr expense => mret (WriteJSON 200 expense)
      end
  end.

Definition receipt (ctx : Ctx) (owner id data : string) : M W (Response ExpenseRecord) :=
  match readUpload data false with
  | None => mret (WriteJSONError 400 "unsupported file type")
  | Some (data, detected) =>
      if IsSupportedImage detected then
        match Normalize http_DetectContentType image_Decode jpeg_Encode grayscale data ReceiptOptions with
        | inl _ => mret (WriteJSONError 400 "could not process receipt image")
        | inr result => store_receipt ctx owner id (res_Data result) (res_ContentType result) ".jpg"
        end
      else store_receipt ctx owner id data detected (extensionFor detected)
  end.

Definition profileImage (owner data : string) : M W (Response AppUser) :=
  match readUpload data true with
  | None => mret (WriteJSONError 400 "unsupported file type")
  | Some (data, _) =>
      match Normalize http_DetectContentType image_Decode jpeg_Encode grayscale data ProfileImageOptions with
      | inl _ => mret (WriteJSONError 400 "could not process image")
      | inr result =>
          token ← NewString;
          let objectKey := "profiles/" +:+ owner +:+ "/" +:+ token +:+ ".jpg" in
          stored ← catch (Put objectKey (res_Data result) (res_ContentType result));
          match stored with
          | inl _ => mret (WriteJSONError 502 "could not store profile image")
          | inr _ =>
              updated ← catch (UpdateProfileImage objectRefs owner objectKey);
              match updated with
              | inl _ => mret (WriteJSONError 400 "could not update profile image")
              | inr user => mret (WriteJSON 200 user)
              end
          end
      end
  end.

Definition serveObject {A} (objectKey : string) : M W (Response A) :=
  url ← catch (PresignedGetURL objectKey presignTTL);
  match url with
  | inr url => mret (Redirect url)
  | inl err =>
      if ErrorIs err "ErrObjectNotFound" then mret (WriteJSONError 404 "object not found")
      else if negb (ErrorIs err "ErrPresignUnsupported")
      then mret (WriteJSONError 502 "could not access object")
      else
        object ← catch (Get objectKey);
        match object with
        | inl err =>
            if ErrorIs err "ErrObjectNotFound" then mret (WriteJSONError 404 "object not found")
            else mret (WriteJSONError 502 "could not access object")
        | inr (info, body) => mret (Stream (oi_ContentType info) (oi_Size info) body)
        end
  end.

Definition downloadReceipt (viewer : AppUser) (expenseID : string) : M W (Response ExpenseRecord) :=
  expense ← catch (GetExpenseForViewer groups viewer expenseID);
  match expense with
  | inl _ => mret (WriteJSONError 404 "receipt not found")
  | inr expense =>
      if ex_ReceiptObjectKey expense =s "" then mret (WriteJSONError 404 "receipt not found")
      else serveObject (ex_ReceiptObjectKey expense)
  end.

Definition downloadProfileImage (owner : string) : M W (Response AppUser) :=
  user ← catch (GetProfile owner);
  match user with
  | inl _ => mret (WriteJSONError 404 "profile image not found")
  | inr user =>
      if u_ProfileImageObjectKey user =s "" then mret (WriteJSONError 404 "profile image not found")
      else serveObject (u_ProfileImageObjectKey user)
  end.
End Uploads.
