(* ===== verification/ReceiptSafety.v ===== *)
(** * Receipts survive

    In one process (World), for any interleaving of expense commands, receipt
    uploads and retention sweeps: the receipt of every live expense is tracked
    as active and its object is in storage, and a sweep leaves no orphan. *)

From S2P Require Export Prelude GoTime GoStrings Domain UnitOfWork EventStore Ports Memory MemoryStores World.
From S2P Require Export Expenses ExpenseLog AuditTrail ImageProc Uploads.
From Stdlib Require Import Ascii.
#[global] Open Scope Z_scope.

(** ** The invariant *)

Definition no_slash (s : string) : Prop := no_char "/"%char s = true.

Definition receipt_prefix (owner id : string) : string := "receipts/" +:+ owner +:+ "/" +:+ id +:+ "/".

(** The receipt of an expense: its key is the expense's own, the reference is
    active and the object is there. *)
Definition secured (R : gmap string ObjectReference) (O : gmap string storedObject) (owner id key : string) : Prop :=
  (∃ rest, key = receipt_prefix owner id +:+ rest) ∧
  (∃ r, R !! key = Some r ∧ or_State r = ObjectReferenceActive ∧
     or_ResourceType r = ObjectResourceExpenseReceipt ∧ or_ResourceID r = id) ∧
  is_Some (O !! key).

Definition ok (s : gmap string ExpenseRecord) (R : gmap string ObjectReference)
    (O : gmap string storedObject) : Prop :=
  (∀ id e, s !! id = Some e → ex_ID e = id ∧ no_slash id ∧ no_slash (ex_OwnerID e)) ∧
  (∀ id e, s !! id = Some e → ex_DeletedAt e = None → ex_ReceiptObjectKey e ≠ "" →
     secured R O (ex_OwnerID e) id (ex_ReceiptObjectKey e)).

(** References are filed under the key of their object. *)
Definition keyed (R : gmap string ObjectReference) : Prop := ∀ k r, R !! k = Some r → or_ObjectKey r = k.

Lemma prefix_inj o i r o' i' r' : no_slash o → no_slash i → no_slash o' → no_slash i' →
  receipt_prefix o i +:+ r = receipt_prefix o' i' +:+ r' → o = o' ∧ i = i'.
Proof.
unfold no_slash, receipt_prefix. intros Ho Hi Ho' Hi' Heq. rewrite !str_app_assoc in Heq.
change ("receipts/" +:+ (o +:+ String "/" (i +:+ String "/" r)) = "receipts/" +:+ (o' +:+ String "/" (i' +:+ String "/" r'))) in Heq.
injection Heq as Heq. apply split_first_char in Heq as [-> Heq]; [|done..].
by apply split_first_char in Heq as [-> _].
Qed.

Lemma secured_put R O o i k k' x : secured R O o i k → secured R (<[k' := x]> O) o i k.
Proof.
intros (H1 & H2 & H3). split; [done|]. split; [done|]. destruct (decide (k' = k)) as [->|Hne].
- by rewrite lookup_insert_eq.
- by rewrite lookup_insert_ne.
Qed.

Lemma ok_put s R O k x : ok s R O → ok s R (<[k := x]> O).
Proof. intros [H1 H2]. split; [done|]. intros. apply secured_put. by apply H2. Qed.

(** ** What each change preserves *)

Lemma ok_create s R O e : ok s R O → no_slash (ex_ID e) → no_slash (ex_OwnerID e) → ex_ReceiptObjectKey e = "" →
  ok (<[ex_ID e := e]> s) R O.
Proof.
intros [H1 H2] Hid Ho Hk. split; intros id x; rewrite lookup_insert_Some; intros [[<- <-]|[_ Hx]]; eauto. done.
Qed.

Lemma ok_update s R O id e0 e : ok s R O → s !! id = Some e0 → ex_ID e = id → ex_OwnerID e = ex_OwnerID e0 →
  ex_ReceiptObjectKey e = ex_ReceiptObjectKey e0 → ex_DeletedAt e = ex_DeletedAt e0 →
  ok (<[id := e]> s) R O.
Proof.
intros [H1 H2] Hl Hid Ho Hk Hd. split; intros id' x; rewrite lookup_insert_Some; intros [[<- <-]|[_ Hx]]; eauto.
- rewrite Hid, Ho. split; [done|]. by apply (H1 _ _ Hl).
- rewrite Ho, Hk, Hd. by apply H2.
Qed.

Definition orphaned (id keep : string) (R : gmap string ObjectReference) : gmap string ObjectReference :=
  map_imap (λ key r, Some (orphan_for ObjectResourceExpenseReceipt id keep key r)) R.

Lemma orphaned_lookup id keep R k :
  orphaned id keep R !! k = orphan_for ObjectResourceExpenseReceipt id keep k <$> R !! k.
Proof. unfold orphaned. rewrite map_lookup_imap. by destruct (R !! k). Qed.

Lemma orphan_other id keep k r : or_ResourceID r ≠ id ∨ k = keep →
  orphan_for ObjectResourceExpenseReceipt id keep k r = r.
Proof.
intros Hor. unfold orphan_for.
destruct (String.eqb_spec (or_ResourceID r) id), (String.eqb_spec k keep);
  rewrite ?andb_false_r; try done; naive_solver.
Qed.

Lemma keyed_orphaned id keep R : keyed R → keyed (orphaned id keep R).
Proof.
intros HR k r. rewrite orphaned_lookup. intros (x & Hx & ->)%fmap_Some.
rewrite <- (HR _ _ Hx). unfold orphan_for. by case_match.
Qed.

Lemma keyed_insert R r : keyed R → keyed (<[or_ObjectKey r := r]> R).
Proof. intros HR k x. rewrite lookup_insert_Some. intros [[<- <-]|[_ Hx]]; eauto. Qed.

Lemma secured_orphaned R O o i k id keep : secured R O o i k → i ≠ id ∨ k = keep →
  secured (orphaned id keep R) O o i k.
Proof.
intros (H1 & (r & Hr & Ha & Ht & Hi) & H3) Hor. split; [done|]. split; [|done]. exists r.
rewrite orphaned_lookup, Hr. cbn. rewrite orphan_other; [done|]. by rewrite Hi.
Qed.

Lemma ok_delete s R O id e : ok s R O → s !! id = Some e → is_Some (ex_DeletedAt e) →
  ok s (orphaned id "" R) O.
Proof.
intros [H1 H2] He [t Ht]. split; [done|]. intros id' x Hx Hd Hk. apply secured_orphaned; [by apply H2|].
left. intros ->. congruence.
Qed.

(** Attaching: the key is the expense's own and its object was just stored. *)
Lemma ok_attach s R O id e0 e key r rest : ok s R O → s !! id = Some e0 → ex_DeletedAt e0 = None →
  ex_ID e = id → ex_OwnerID e = ex_OwnerID e0 → ex_ReceiptObjectKey e = key →
  key = receipt_prefix (ex_OwnerID e) id +:+ rest → is_Some (O !! key) →
  or_State r = ObjectReferenceActive → or_ResourceType r = ObjectResourceExpenseReceipt → or_ResourceID r = id →
  ok (<[id := e]> s) (<[key := r]> R) O ∧ ok (<[id := e]> s) (orphaned id key (<[key := r]> R)) O.
Proof.
intros [H1 H2] Hl Hlive Hid Ho Hk Hkey Hin Hs Ht Hr. destruct (H1 _ _ Hl) as (_ & Hns & Hno).
assert (∀ id' x, <[id := e]> s !! id' = Some x → ex_ID x = id' ∧ no_slash id' ∧ no_slash (ex_OwnerID x)) as Hrows.
{ intros id' x. rewrite lookup_insert_Some. intros [[<- <-]|[_ Hx]]; [|eauto]. by rewrite Ho. }
assert (∀ id' x, <[id := e]> s !! id' = Some x → ex_DeletedAt x = None → ex_ReceiptObjectKey x ≠ "" →
  secured (<[key := r]> R) O (ex_OwnerID x) id' (ex_ReceiptObjectKey x) ∧ (id' ≠ id ∨ ex_ReceiptObjectKey x = key)) as Hsec.
{ intros id' x. rewrite lookup_insert_Some. intros [[<- <-]|[Hne Hx]] Hd Hkx.
  - rewrite Hk. split; [|by right]. split; [by exists rest|]. split; [|done]. exists r. by rewrite lookup_insert_eq.
  - destruct (H2 id' x Hx Hd Hkx) as ((rest' & Hpre) & Href & Hob). split; [|by left].
    assert (ex_ReceiptObjectKey x ≠ key) as Hnk.
    { intros Heq. rewrite Heq, Hkey in Hpre. destruct (H1 _ _ Hx) as (_ & Hns' & Hno').
      apply prefix_inj in Hpre as [_ Hpre]; [by apply Hne|by rewrite Ho|done..]. }
    split; [by exists rest'|]. split; [|done]. by rewrite lookup_insert_ne by congruence. }
split; (split; [exact Hrows|]); intros id' x Hx Hd Hkx; destruct (Hsec id' x Hx Hd Hkx); [done|].
by apply secured_orphaned.
Qed.

(** Sweeping a key that no active reference holds. *)
Definition inactive (R : gmap string ObjectReference) (key : string) : Prop :=
  ∀ r, R !! key = Some r → or_State r ≠ ObjectReferenceActive.

Lemma ok_sweep s R O key : ok s R O → inactive R key → ok s (delete key R) (delete key O).
Proof.
intros [H1 H2] Hi. split; [done|]. intros id e He Hd Hk.
destruct (H2 id e He Hd Hk) as (Hp & (r & Hr & Ha & Hrest) & Ho).
assert (key ≠ ex_ReceiptObjectKey e) as Hne by (intros ->; by apply (Hi r)).
split; [done|]. rewrite !lookup_delete_ne by done. eauto.
Qed.

Lemma inactive_delete R key key' : inactive R key → inactive (delete key' R) key.
Proof. intros Hi r. rewrite lookup_delete_Some. intros [_ Hr]. by apply Hi. Qed.

Section Receipts.
Context `{GoRuntime}.
Context (http_DetectContentType : string → string) (image_Decode : string → error + Image).
Context (jpeg_Encode : Image → Z → error + string) (grayscale : Image → Image).

(** ** Triples over the expenses, the references and the objects *)

Definition parts (w : World) : ExpenseStore * ReferenceStore * ObjectMap * (nat → string) :=
  (w_expenses w, w_references w, w_objects w, w_ids w).

Definition safe (w : World) : Prop :=
  ok (w_expenses w) (w_references w) (w_objects w) ∧ keyed (w_references w) ∧ ∀ n, no_slash (w_ids w n).

Lemma keeps_zoom {T S A} (f : World → T) (l : Lens World S) (m : M S A) :
  (∀ s w, f (lens_set l s w) = f w) → keeps f (zoom l m).
Proof using Type. intros Hf w. unfold zoom. destruct (m (lens_get l w)) as [s r]. apply Hf. Qed.

Lemma keeps_append ty id actor p t : keeps parts (append_expense_event ty id actor p t).
Proof using Type.
unfold append_expense_event, newExpenseEvent. apply keeps_bind; [by apply keeps_bind|]. intros ev.
by apply keeps_zoom.
Qed.

Lemma stays {A} (m : M World A) p : keeps parts m →
  hoare (λ w, parts w = p) m (λ _ w, parts w = p) (λ w, parts w = p).
Proof using Type. intros Hm. apply (keeps_hoare parts m (λ q, q = p) Hm). Qed.

Lemma get_stays o id s R O i :
  hoare (λ w, parts w = (s, R, O, i)) (map_err (λ _, ErrNotFound) (GetExpense o id))
    (λ e w, expense_get o id s = Some e ∧ parts w = (s, R, O, i)) (λ w, parts w = (s, R, O, i)).
Proof using Type.
apply hoare_map_err. intros w Hw. injection Hw as <- <- <- <-. cbn. unfold zoom, memory_GetExpense. cbn.
by destruct (expense_get o id (w_expenses w)) eqn:Hg.
Qed.

(** Objects and identifiers are what an aborted unit leaves. *)
Definition outside (w : World) : ObjectMap * (nat → string) := (w_objects w, w_ids w).

Lemma unit_stays {A} (fn : Ctx → M World A) s R O i Q :
  hoare (λ w, parts w = (s, R, O, i)) (fn true) Q (λ w, outside w = (O, i)) →
  hoare (λ w, parts w = (s, R, O, i)) (Within background fn) Q (λ w, parts w = (s, R, O, i)).
Proof using Type.
intros Hfn. eapply hoare_within_frame; [exact Hfn|]. intros saved w Hs Ho.
destruct (restored saved w) as (H1 & _ & _ & _ & _ & H2 & _).
unfold parts in *. injection Hs as Hs1 Hs2 _ _. injection Ho as Ho1 Ho2. rewrite H1, H2, Hs1, Hs2.
by rewrite <- Ho1, <- Ho2.
Qed.

Lemma log_stays ty id actor p t s R O i :
  hoare (λ w, parts w = (s, R, O, i)) (append_expense_event ty id actor p t)
    (λ _ w, parts w = (s, R, O, i)) (λ w, outside w = (O, i)).
Proof using Type.
apply (hoare_weaken _ _ _ _ _ _ _ (stays _ (s, R, O, i) (keeps_append ty id actor p t))); [by intros..|].
intros w Hw. unfold outside. by injection Hw as _ _ -> ->.
Qed.

(** A write to the projection, and one to the references. *)
Lemma project_stays {A} (m : M ExpenseStore A) s R O i s' :
  (match m s with (s1, inr _) => s1 = s' | _ => True end) →
  hoare (λ w, parts w = (s, R, O, i)) (zoom L_expenses m)
    (λ _ w, parts w = (s', R, O, i)) (λ w, outside w = (O, i)).
Proof using Type.
intros Hm. intros w Hw. unfold zoom. cbn. injection Hw as <- <- <- <-.
by destruct (m (w_expenses w)) as [s1 [e|a]]; subst.
Qed.

Lemma references_stays f g s R O i (R' : ReferenceStore) : g R = R' →
  hoare (λ w, parts w = (s, R, O, i)) (map_err f (zoom L_references (modify g)))
    (λ _ w, parts w = (s, R', O, i)) (λ w, outside w = (O, i)).
Proof using Type. intros Hg. apply hoare_map_err. intros w Hw. cbn. injection Hw as <- <- <- <-. by rewrite <- Hg. Qed.

(** From exact states to the invariant. *)
Lemma from_exact {A} (m : M World A) :
  (∀ s R O i, ok s R O → keyed R → (∀ n, no_slash (i n)) →
     hoare (λ w, parts w = (s, R, O, i)) m (λ _, safe) (λ w, parts w = (s, R, O, i))) →
  hoare safe m (λ _, safe) safe.
Proof using Type.
intros Hm w (Hok & Hkeyed & Hids). specialize (Hm _ _ _ _ Hok Hkeyed Hids w eq_refl). destruct (m w) as [w' [e|a]]; [|done].
unfold safe. by injection Hm as -> -> -> ->.
Qed.

Lemma reach_safe s R O i w : ok s R O → keyed R → (∀ n, no_slash (i n)) → parts w = (s, R, O, i) → safe w.
Proof using Type. intros Hok Hk Hi Hw. unfold safe. by injection Hw as -> -> -> ->. Qed.

Lemma draw_stays s R O i :
  hoare (λ w, parts w = (s, R, O, i)) NewString (λ id w, (∃ n, id = i n) ∧ parts w = (s, R, O, i)) (λ _, False).
Proof using Type. intros w Hw. cbn. split; [|done]. exists (w_drawn w). by injection Hw as _ _ _ <-. Qed.

Lemma checked e p :
  hoare (λ w, parts w = p) (check e) (λ _ w, e = None ∧ parts w = p) (λ w, parts w = p).
Proof using Type. intros w Hw. by destruct e. Qed.

Lemma hoare_false {A} (P : World → Prop) (m : M World A) Q E : hoare P m Q (λ _, False) → hoare P m Q E.
Proof using Type. intros Hm. by eapply hoare_weaken; [exact Hm|..]. Qed.

#[local] Ltac step_stays :=
  eapply hoare_bind;
    [first [apply checked|apply get_stays|apply hoare_false, draw_stays
           |apply stays; first [by intros w|by apply keeps_ownership]]
    |let a := fresh "a" in intros a; try (apply hoare_pure; intros ?)].

Lemma create_safe o command : no_slash o → c_ReceiptObjectKey command = "" →
  hoare safe (CreateExpense_service (Some world_taxonomy) background o command) (λ _, safe) safe.
Proof using Type.
intros Ho Hk. apply from_exact. intros s R O i Hok Hkd Hids. unfold CreateExpense_service.
step_stays. step_stays. set (e := default_status _). destruct H0 as [n Hn].
assert (ex_OwnerID e = o ∧ ex_ID e = i n ∧ ex_ReceiptObjectKey e = "") as (He1 & He2 & He3).
{ unfold e, default_status. by case_match. }
do 2 step_stays. apply (hoare_bind _ _ _ (λ _, safe)); [|intros ?; by apply hoare_ret].
apply unit_stays. eapply hoare_bind; [apply hoare_map_err, log_stays|]. intros ?. cbn beta.
eapply hoare_weaken; [apply hoare_map_err, (project_stays _ s R O i (<[ex_ID e := e]> s))|done| |done].
- unfold memory_CreateExpense. by opt_case.
- intros u w Hw. cbn in Hw. eapply reach_safe; [|exact Hkd|exact Hids|exact Hw].
  apply ok_create; [done|by rewrite He2|by rewrite He1|done].
Qed.

Lemma update_safe o id command :
  hoare safe (UpdateExpense_service (Some world_taxonomy) background o id command) (λ _, safe) safe.
Proof using Type.
apply from_exact. intros s R O i Hok Hkd Hids. unfold UpdateExpense_service. step_stays. step_stays.
set (e := edit_expense _ _ _). do 2 step_stays.
apply expense_get_spec in H0 as (Hl & Hown & Hlive). destruct (proj1 Hok _ _ Hl) as (Hid & _).
assert (ex_ID e = id ∧ ex_OwnerID e = ex_OwnerID a ∧ ex_ReceiptObjectKey e = ex_ReceiptObjectKey a ∧
  ex_DeletedAt e = ex_DeletedAt a) as (He1 & He2 & He3 & He4).
{ unfold e, edit_expense, default_status. by case_match. }
apply (hoare_bind _ _ _ (λ _, safe)); [|intros ?; by apply hoare_ret].
apply unit_stays. eapply hoare_bind; [apply hoare_map_err, log_stays|]. intros ?. cbn beta.
eapply hoare_weaken; [apply hoare_map_err, (project_stays _ s R O i (<[id := e]> s))|done| |done].
- unfold memory_UpdateExpense. rewrite He1. by opt_case.
- intros u w Hw. cbn in Hw. eapply reach_safe; [|exact Hkd|exact Hids|exact Hw]. by eapply ok_update.
Qed.

Lemma delete_safe o id :
  hoare safe (DeleteExpense_service (Some world_references) background o id) (λ _, safe) safe.
Proof using Type.
apply from_exact. intros s R O i Hok Hkd Hids. unfold DeleteExpense_service. do 2 step_stays.
apply unit_stays. eapply hoare_bind; [apply hoare_map_err, log_stays|]. intros ?. cbn beta. unfold memory_DeleteExpense.
set (e := a <| ex_DeletedAt := Some (ex_UpdatedAt a) |>).
pose proof H0 as Hg. apply expense_get_spec in H0 as (Hl & Hown & Hlive). destruct (proj1 Hok _ _ Hl) as (Hid & Hs & Ho).
eapply hoare_bind; [apply hoare_map_err, (project_stays _ s R O i (<[id := e]> s))|intros ?; cbn beta].
{ unfold memory_DeleteExpense. by rewrite Hg. }
eapply hoare_weaken; [refine (references_stays _ (orphaned id "") (<[id := e]> s) R O i _ eq_refl)|done| |done].
intros u w Hw. eapply reach_safe; [|by apply keyed_orphaned|exact Hids|exact Hw].
eapply (ok_delete _ _ _ id e); [|by apply lookup_insert_eq|by eexists].
split; intros id' x; rewrite lookup_insert_Some; intros [[<- <-]|[Hne Hx]].
- done.
- by apply (proj1 Hok).
- done.
- by apply (proj2 Hok).
Qed.

Lemma attach_safe s R O i owner id key rest : ok s R O → keyed R → (∀ n, no_slash (i n)) →
  key = receipt_prefix owner id +:+ rest → is_Some (O !! key) →
  hoare (λ w, parts w = (s, R, O, i)) (AttachReceipt (Some world_references) background owner id key)
    (λ _, safe) (λ w, parts w = (s, R, O, i)).
Proof using Type.
intros Hok Hkd Hids Hkey Hin. unfold AttachReceipt. step_stays. case_match; [by apply hoare_throw|]. step_stays.
set (e := a <| _ := _ |> <| _ := _ |>). apply expense_get_spec in H0 as (Hl & Hown & Hlive).
destruct (proj1 Hok _ _ Hl) as (Hid & _).
set (r := mkObjectReference key owner ObjectResourceExpenseReceipt id ObjectReferenceActive 0).
assert (keyed (<[key := r]> R)) as Hkr by apply (keyed_insert R r Hkd).
assert (ok (<[id := e]> s) (<[key := r]> R) O ∧ ok (<[id := e]> s) (orphaned id key (<[key := r]> R)) O) as [Hok1 Hok2].
{ apply (ok_attach s R O id a e key r rest); try done. cbn. by rewrite Hown. }
apply (hoare_bind _ _ _ (λ _, safe)); [|intros ?; by apply hoare_ret].
apply unit_stays. eapply hoare_bind; [apply log_stays|]. intros ?. cbn beta.
eapply hoare_bind; [apply (project_stays _ s R O i (<[id := e]> s))|intros ?; cbn beta].
{ unfold memory_UpdateExpense. change (ex_ID e) with (ex_ID a). rewrite Hid. by opt_case. }
eapply hoare_bind; [refine (references_stays _ (insert key r) (<[id := e]> s) R O i _ eq_refl)|intros ?; cbn beta].
destruct ((ex_ReceiptObjectKey a ≠s "") && (ex_ReceiptObjectKey a ≠s key)).
- eapply hoare_weaken;
    [refine (references_stays _ (orphaned id key) (<[id := e]> s) (<[key := r]> R) O i _ eq_refl)|done| |done].
  intros u w Hw. eapply reach_safe; [exact Hok2|by apply keyed_orphaned|exact Hids|exact Hw].
- apply hoare_ret. intros w Hw. eapply reach_safe; [exact Hok1|exact Hkr|exact Hids|exact Hw].
Qed.

Lemma store_safe owner id body contentType extension :
  hoare safe (store_receipt (Some world_references) background owner id body contentType extension)
    (λ _, safe) (λ _, False).
Proof using Type.
intros w (Hok & Hkd & Hids). unfold store_receipt. cbn -[AttachReceipt]. unfold mbind, M_bind, catch at 1, zoom at 1.
cbn -[AttachReceipt]. set (key := receipt_key _ _ _ _).
set (w1 := set_field _ _). set (O := w_objects w1).
assert (key = receipt_prefix owner id +:+ (w_ids w (w_drawn w) +:+ extension)) as Hkey.
{ unfold key, receipt_key, receipt_prefix. by rewrite !str_app_assoc. }
assert (is_Some (O !! key)) as Hin by (eexists; refine (lookup_insert_eq (M := gmap string) (w_objects w) key _)).
assert (ok (w_expenses w1) (w_references w1) O) as Hok1 by apply ok_put, Hok.
assert (∀ n, no_slash (w_ids w1 n)) as Hids1 by exact Hids.
pose proof (attach_safe _ _ O _ owner id key _ Hok1 Hkd Hids1 Hkey Hin w1 eq_refl) as Ha.
unfold catch. destruct (AttachReceipt (Some world_references) background owner id key w1) as [w2 [e|x]]; cbn.
- eapply reach_safe; [exact Hok1|exact Hkd|exact Hids1|exact Ha].
- exact Ha.
Qed.

(** ** Sweeping *)

Lemma sweep_safe orphans swept :
  hoare (λ w, safe w ∧ ∀ o, o ∈ orphans → inactive (w_references w) (or_ObjectKey o))
    (sweep orphans swept) (λ _, safe) (λ _, False).
Proof using Type.
revert swept. induction orphans as [|o orphans IH]; intros swept; [apply hoare_ret; by intros w [? _]|].
intros w [(Hok & Hkd & Hids) Hin]. cbn. unfold mbind, M_bind, catch, zoom. cbn.
apply IH. split; [split; [|split]|]; cbn.
- apply ok_sweep; [done|]. apply Hin. left.
- intros k r. rewrite lookup_delete_Some. intros [_ Hr]. by apply Hkd.
- done.
- intros x Hx. apply inactive_delete, Hin. by right.
Qed.

Lemma claimed_orphans limit R o : keyed R → o ∈ memory_ClaimOrphans limit R →
  R !! or_ObjectKey o = Some o ∧ or_State o = ObjectReferenceOrphaned.
Proof using Type.
intros HR Ho. unfold memory_ClaimOrphans in Ho.
assert (o ∈ sort_slice (λ x y, Before (or_UpdatedAt x) (or_UpdatedAt y))
  (range_values (λ r, or_State r =s ObjectReferenceOrphaned) R)) as Hs.
{ case_match; [|done]. by apply elem_take in Ho. }
rewrite sort_slice_perm, range_values_elem in Hs. destruct Hs as [Hst [k Hk]].
apply String.eqb_eq in Hst. by rewrite (HR _ _ Hk).
Qed.

Lemma sweep_all_safe limit : hoare safe (SweepOrphans limit) (λ _, safe) (λ _, False).
Proof using Type.
intros w Hw. unfold SweepOrphans. cbn. unfold mbind, M_bind, catch, zoom. cbn.
apply (sweep_safe _ 0 _). destruct Hw as (Hok & Hkd & Hids). split; [done|]. cbn. intros o Ho r Hr.
destruct (claimed_orphans limit _ o Hkd Ho) as [Ho1 Ho2].
assert (Some r = Some o) as [= ->] by (etrans; [symmetry; exact Hr|exact Ho1]). by rewrite Ho2.
Qed.

(** ** What a sweep reclaims *)

Definition without {V} (keys : list string) (m : gmap string V) : gmap string V :=
  foldl (λ m key, delete key m) m keys.

Lemma without_lookup {V} keys (m : gmap string V) k :
  without keys m !! k = if decide (k ∈ keys) then None else m !! k.
Proof using Type.
revert m. induction keys as [|key keys IH]; intros m; [by rewrite decide_False by apply not_elem_of_nil|].
change (without (key :: keys) m) with (without keys (delete key m)). rewrite IH. destruct (decide (k ∈ keys)) as [Hin|Hin].
- rewrite decide_True; [done|by right].
- destruct (decide (k = key)) as [->|Hne].
  + rewrite decide_True by left. apply lookup_delete_eq.
  + rewrite lookup_delete_ne by congruence. rewrite decide_False; [done|]. by rewrite not_elem_of_cons.
Qed.

Lemma sweep_runs orphans swept w : ∃ w', sweep orphans swept w = (w', inr (foldl (λ n _, wrap64 (n + 1)) swept orphans, None)) ∧
  w_references w' = without (map or_ObjectKey orphans) (w_references w) ∧
  w_objects w' = without (map or_ObjectKey orphans) (w_objects w).
Proof using Type.
revert swept w. induction orphans as [|o orphans IH]; intros swept w; [by exists w|].
cbn. unfold mbind, M_bind, catch, zoom. cbn.
edestruct (IH (wrap64 (swept + 1))) as (w' & Hrun & Hr & Ho). rewrite Hrun. exists w'. by rewrite Hr, Ho.
Qed.

(** A sweep never fails here: it deletes the objects of the references it
    claimed, all of them orphaned and at most [limit], forgets those references,
    and touches nothing else; without a limit no orphan remains. *)
Theorem sweep_reclaims limit w : keyed (w_references w) →
  let claimed := map or_ObjectKey (memory_ClaimOrphans limit (w_references w)) in
  ∃ w' n, SweepOrphans limit w = (w', inr (n, None)) ∧
    (∀ k, w_references w' !! k = if decide (k ∈ claimed) then None else w_references w !! k) ∧
    (∀ k, w_objects w' !! k = if decide (k ∈ claimed) then None else w_objects w !! k) ∧
    (∀ k, k ∈ claimed → ∃ r, w_references w !! k = Some r ∧ or_State r = ObjectReferenceOrphaned) ∧
    (0 < limit → Z.of_nat (length claimed) ≤ limit) ∧
    (limit ≤ 0 → ∀ k r, w_references w' !! k = Some r → or_State r ≠ ObjectReferenceOrphaned).
Proof using Type.
intros Hk claimed. unfold SweepOrphans. cbn. unfold mbind, M_bind, catch, zoom. cbn.
destruct (sweep_runs (memory_ClaimOrphans limit (w_references w)) 0 (w <| w_references := w_references w |>))
  as (w' & Hrun & Hr & Ho).
rewrite Hrun. eexists w', _. split; [done|]. fold claimed in Hr, Ho.
assert (∀ k, w_references w' !! k = if decide (k ∈ claimed) then None else w_references w !! k) as Hrefs.
{ intros k. rewrite Hr. apply without_lookup. }
split; [exact Hrefs|]. split; [intros k; rewrite Ho; apply without_lookup|]. split; [|split].
- intros k (o & -> & Hin)%list_elem_of_fmap. destruct (claimed_orphans limit _ o Hk Hin) as [H1 H2]. by exists o.
- intros Hlim. unfold claimed, memory_ClaimOrphans. rewrite length_map.
  destruct (Z.ltb_spec 0 limit); [|lia]. cbn. case_match; [|by apply Z.ltb_ge]. rewrite length_take. lia.
- intros Hlim k r Hkr Hst. rewrite Hrefs in Hkr. destruct (decide (k ∈ claimed)) as [|Hout]; [done|].
  apply Hout. rewrite <- (Hk _ _ Hkr). apply list_elem_of_fmap. exists r. split; [done|]. unfold memory_ClaimOrphans.
  destruct (Z.ltb_spec 0 limit); [lia|]. cbn. rewrite sort_slice_perm, range_values_elem.
  split; [by apply String.eqb_eq|]. by exists k.
Qed.

(** ** Everything together *)

Inductive Activity :=
  | ExpenseActivity (c : ExpenseCommand)
  | UploadActivity (owner id data : string)
  | SweepActivity (limit : Z).

Definition run_activity (a : Activity) : M World () :=
  match a with
  | ExpenseActivity c => run_expense c
  | UploadActivity owner id data =>
      receipt (Some world_references) http_DetectContentType image_Decode jpeg_Encode grayscale
        background owner id data;; mret ()
  | SweepActivity limit => SweepOrphans limit;; mret ()
  end.

Definition run_activities (l : list Activity) : M World () := for_each (λ a, r ← catch (run_activity a); mret ()) l.

(** What reaches the services through the API: an expense is created without a
    receipt, and receipts are attached by uploads only. *)
Definition permitted (a : Activity) : Prop :=
  match a with
  | ExpenseActivity (CmdCreate o c) => no_slash o ∧ c_ReceiptObjectKey c = ""
  | ExpenseActivity (CmdAttach _ _ _) => False
  | _ => True
  end.

Lemma discard_safe {A} (m : M World A) (E : World → Prop) :
  hoare safe m (λ _, safe) E → hoare safe (m;; mret ()) (λ _, safe) E.
Proof using Type. intros Hm. eapply hoare_bind; [exact Hm|]. intros ?. by apply hoare_ret. Qed.

Lemma receipt_safe owner id data :
  hoare safe (receipt (Some world_references) http_DetectContentType image_Decode jpeg_Encode grayscale
    background owner id data) (λ _, safe) safe.
Proof using Type.
unfold receipt. destruct (readUpload _ data false) as [[d t]|]; [|by apply hoare_ret].
case_match; [case_match; [by apply hoare_ret|]|]; apply hoare_false, store_safe.
Qed.

Lemma activity_safe a : permitted a → hoare safe (run_activity a) (λ _, safe) safe.
Proof using Type.
destruct a as [[o c|o id c|o id|o id key]|owner id data|limit]; cbn [permitted run_activity run_expense]; intros Hp.
- destruct Hp as [Ho Hk]. apply discard_safe. by apply create_safe.
- apply discard_safe, update_safe.
- apply delete_safe.
- done.
- apply discard_safe, receipt_safe.
- apply discard_safe, hoare_false, sweep_all_safe.
Qed.

Lemma activities_safe l w : Forall permitted l → safe w → safe (run_activities l w).1.
Proof using Type.
intros Hl. apply for_each_inv. intros a w1 Ha Hw1. rewrite Forall_forall in Hl.
pose proof (activity_safe a (Hl a Ha) w1 Hw1) as Hs. unfold mbind, M_bind, catch.
by destruct (run_activity a w1) as [w2 [e|x]].
Qed.

Lemma serve_stored {A} key w o : w_objects w !! key = Some o →
  (serveObject (A := A) key w).2 = inr (Stream (so_contentType o) (len (so_data o)) (so_data o)).
Proof using Type.
intros Ho. unfold serveObject, mbind, M_bind, catch. cbn. unfold zoom. cbn. by rewrite Ho.
Qed.

(** [C20] After any expense commands, uploads and sweeps, the receipt of every live
    expense is referenced as active and its object is stored: its owner
    downloads exactly that object. *)
Theorem receipts_survive l w id e viewer : safe w → Forall permitted l →
  let w' := (run_activities l w).1 in
  w_expenses w' !! id = Some e → ex_DeletedAt e = None → ex_ReceiptObjectKey e ≠ "" →
  u_ID viewer = ex_OwnerID e →
  (∃ r, w_references w' !! ex_ReceiptObjectKey e = Some r ∧ or_State r = ObjectReferenceActive) ∧
  ∃ o, w_objects w' !! ex_ReceiptObjectKey e = Some o ∧
    (downloadReceipt (Some world_groups) viewer id w').2 =
      inr (Stream (so_contentType o) (len (so_data o)) (so_data o)).
Proof using Type.
intros Hw Hl w' He Hd Hk Hv. destruct (activities_safe l w Hl Hw) as ([_ Hsec] & _ & _). fold w' in Hsec.
destruct (Hsec id e He Hd Hk) as (_ & (r & Hr & Hst & _) & [o Ho]).
split; [by exists r|]. exists o. split; [exact Ho|].
unfold downloadReceipt, GetExpenseForViewer, visibleGroupIDs, mbind, M_bind, map_err, catch at 1. cbn.
unfold memory_GetExpenseVisible, zoom. cbn -[run_activities]. rewrite He. cbn -[run_activities].
rewrite Hd, Hv, eqs_refl. cbn -[run_activities]. rewrite (eqs_ne _ _ Hk). by apply serve_stored.
Qed.
End Receipts.

Module Sample.
Import World.Sample.
#[local] Existing Instance default_runtime.

Definition sniff (data : string) : string := "application/pdf".
Definition no_image (data : string) : error + Image := inl (ErrorsNew "image: unknown format").
Definition no_jpeg (i : Image) (quality : Z) : error + string := inr "".

Definition lunch : CreateExpenseCommand :=
  mkCreateExpenseCommand "Lunch" "eur" "" "" "" "" "" 1250 (63000000000 * Second) [] "" [] None None.

(** Two receipts are attached, the first replaced and swept; another user's
    upload and deletion change nothing. *)
Definition day : list Activity :=
  [ExpenseActivity (CmdCreate "ann" lunch); UploadActivity "ann" "id" "first"; UploadActivity "ann" "id" "second";
   UploadActivity "eve" "id" "third"; SweepActivity 10; ExpenseActivity (CmdDelete "eve" "id"); SweepActivity 0].

Notation run l := (run_activities sniff no_image no_jpeg (λ i, i) l empty_world).1.

Definition lunch_record : ExpenseRecord :=
  default (mkExpenseRecord "" "" "" 0 "" 0 "" "" [] "" "" [] None None "" "" 0 0 None) (w_expenses (run day) !! "id").

Example one_left : length (map_to_list (w_objects (run day))) = 2%nat ∧ length (map_to_list (w_references (run day))) = 1%nat.
Proof. vm_compute. done. Qed.

Lemma no_slash_ids n : no_slash (sample_id n).
Proof.
unfold sample_id, no_slash. rewrite no_char_app. cbn [no_char]. induction n as [|[|n] IH]; [done|done|].
change (String.concat "" (repeat "1" (S (S n)))) with ("1" +:+ "" +:+ String.concat "" (repeat "1" (S n))).
rewrite no_char_app. exact IH.
Qed.

Lemma empty_safe : safe empty_world.
Proof. split; [split; by intros ?? [=]|]. split; [by intros ?? [=]|]. exact no_slash_ids. Qed.

Lemma day_permitted : Forall permitted day.
Proof. repeat constructor. Qed.

Lemma receipts_survive_witness :
  ∃ r, w_references (run day) !! ex_ReceiptObjectKey lunch_record = Some r ∧ or_State r = ObjectReferenceActive.
Proof.
refine (proj1 (receipts_survive sniff no_image no_jpeg (λ i, i) day empty_world "id" lunch_record
  (mkAppUser "ann" "" "" "" "" RoleMember false false ∅ false 0 0) empty_safe day_permitted _ _ _ _)).
all: vm_compute; first [reflexivity|discriminate].
Defined.

Lemma keyed_before : keyed (w_references (run (take 3 day))).
Proof.
destruct (activities_safe sniff no_image no_jpeg (λ i, i) (take 3 day) empty_world) as (_ & Hk & _);
  [by repeat constructor|exact empty_safe|exact Hk].
Qed.

Lemma sweep_reclaims_witness : ∃ w' n, SweepOrphans 10 (run (take 3 day)) = (w', inr (n, None)).
Proof.
destruct (sweep_reclaims 10 (run (take 3 day)) keyed_before) as (w' & n & Hrun & _). exists w', n. exact Hrun.
Defined.
End Sample.
