(* ===== verification/Cache.v ===== *)
(** * The read cache (src/pkg/cache) and the cached repositories
      (src/internal/adapter/outbound/cached)

    [Cache] is the TTL cache over any state that holds one.  The three adapters
    wrap a repository over a state [S] in a state that also holds their caches
    and a clock.  What an adapter promises is transparency: a client that talks
    to the repositories one call at a time cannot tell the cached ones from the
    ones they wrap, whatever the clock says and however short or long the TTL.
    [LocalWrites] is what the wrapped repositories have to guarantee for that;
    the in-memory adapters meet it. *)

From stdpp Require Import fin_maps.
From Stdlib Require Import Ascii.
From S2P Require Import Prelude.
From S2P Require Import GoTime.
From S2P Require Import GoStrings.
From S2P Require Import Domain.
From S2P Require Import Ports.
From S2P Require Import Memory.
From S2P Require Import IdentityStore.
From S2P Require Import World.
#[global] Open Scope Z_scope.

(** ** The cache (cache.go) *)

Record entry (V : Type) := mkEntry { value : V; expiresAt : Time }.
Arguments mkEntry {V}. Arguments value {V}. Arguments expiresAt {V}.
Record Cache (K V : Type) `{Countable K} := mkCache { ttl : Duration; values : gmap K (entry V) }.
Arguments mkCache {K V _ _}. Arguments ttl {K V _ _}. Arguments values {K V _ _}.
#[export] Instance eta_Cache {K V} `{Countable K} : Eta (Cache K V) := λ r, mkCache (ttl r) (values r).

Definition New {K V} `{Countable K} (ttl : Duration) : Cache K V := mkCache ttl ∅.

Section CacheOps.
Context {K V : Type} `{Countable K} {W : Type} `{Env W} (l : Lens W (Cache K V)).

Definition cache_Get (key : K) : M W (option V) :=
  found ← zoom l (gets (λ c, values c !! key));
  match found with
  | None => mret None
  | Some e =>
      now ← Now;
      if After now (expiresAt e)
      then zoom l (modify (λ c, c <| values ::= delete key |>)) ;; mret None
      else mret (Some (value e))
  end.

Definition cache_Set (key : K) (v : V) : M W () :=
  now ← Now;
  zoom l (modify (λ c, c <| values ::= <[key := mkEntry v (TimeAdd now (ttl c))]> |>)).

Definition cache_Invalidate (key : K) : M W () :=
  zoom l (modify (λ c, c <| values ::= delete key |>)).

Definition cache_Clear : M W () := zoom l (modify (λ c, c <| values := ∅ |>)).

Definition cache_Len : M W Z := zoom l (gets (λ c, Z.of_nat (size (values c)))).

(** The shape of the adapters' cached reads. *)
Definition read_through (key : K) (load : M W V) : M W V :=
  hit ← cache_Get key;
  match hit with
  | Some v => mret v
  | None => v ← load; cache_Set key v ;; mret v
  end.
End CacheOps.

(** ** The adapters' state: the wrapped repositories', the caches, and the
    clock the caches read *)

Record Cached (S : Type) := mkCached {
  c_inner : S;
  c_users : Cache string AppUser;
  c_groups : Cache string (list UserGroup);
  c_categories : Cache string (list ExpenseCategory);
  c_tags : Cache string (list ExpenseTag);
  c_clock : nat → Time;
  c_ticks : nat
}.
Arguments mkCached {S}. Arguments c_inner {S}. Arguments c_users {S}. Arguments c_groups {S}.
Arguments c_categories {S}. Arguments c_tags {S}. Arguments c_clock {S}. Arguments c_ticks {S}.
#[export] Instance eta_Cached {S} : Eta (Cached S) := λ r,
  mkCached (c_inner r) (c_users r) (c_groups r) (c_categories r) (c_tags r) (c_clock r) (c_ticks r).

Section Adapters.
Context {S : Type}.

Definition K_inner : Lens (Cached S) S :=
  {| lens_get := c_inner; lens_set s w := w <| c_inner := s |> |}.
Definition K_users : Lens (Cached S) (Cache string AppUser) :=
  {| lens_get := c_users; lens_set s w := w <| c_users := s |> |}.
Definition K_groups : Lens (Cached S) (Cache string (list UserGroup)) :=
  {| lens_get := c_groups; lens_set s w := w <| c_groups := s |> |}.
Definition K_categories : Lens (Cached S) (Cache string (list ExpenseCategory)) :=
  {| lens_get := c_categories; lens_set s w := w <| c_categories := s |> |}.
Definition K_tags : Lens (Cached S) (Cache string (list ExpenseTag)) :=
  {| lens_get := c_tags; lens_set s w := w <| c_tags := s |> |}.

(** The adapters only ever ask for the time. *)
#[export] Instance cached_Env : Env (Cached S) := {|
  Now w := (w <| c_ticks ::= Datatypes.S |>, inr (c_clock w (c_ticks w)));
  NewString := mret ""
|}.

Definition inner {A} (m : M S A) : M (Cached S) A := zoom K_inner m.

(** *** taxonomy_repository.go *)

Definition cached_TaxonomyRepository (r : TaxonomyRepository S) : TaxonomyRepository (Cached S) := {|
  ListCategories owner := read_through K_categories owner (inner (ListCategories owner));
  CreateCategory owner c := inner (CreateCategory owner c) ;; cache_Invalidate K_categories owner;
  UpdateCategory owner c := inner (UpdateCategory owner c) ;; cache_Invalidate K_categories owner;
  DeleteCategory owner id := inner (DeleteCategory owner id) ;; cache_Invalidate K_categories owner;
  ListTags owner := read_through K_tags owner (inner (ListTags owner));
  CreateTag owner t := inner (CreateTag owner t) ;; cache_Invalidate K_tags owner;
  UpdateTag owner t := inner (UpdateTag owner t) ;; cache_Invalidate K_tags owner;
  DeleteTag owner id := inner (DeleteTag owner id) ;; cache_Invalidate K_tags owner
|}.

(** *** group_repository.go *)

Definition group_key (viewerID : string) (isSuperAdmin : bool) : string :=
  viewerID +:+ ":" +:+ FormatBool isSuperAdmin.

Definition cached_GroupRepository (r : GroupRepository S) : GroupRepository (Cached S) := {|
  CreateGroup g := inner (CreateGroup g) ;; cache_Clear K_groups;
  ListVisibleGroups viewer super :=
    read_through K_groups (group_key viewer super) (inner (ListVisibleGroups viewer super));
  GetGroup id := inner (GetGroup id);
  UpdateGroup id name := inner (UpdateGroup id name) ;; cache_Clear K_groups;
  DeleteGroup id := inner (DeleteGroup id) ;; cache_Clear K_groups;
  AddMember id user := inner (AddMember id user) ;; cache_Clear K_groups;
  RemoveMember id user := inner (RemoveMember id user) ;; cache_Clear K_groups
|}.

(** *** identity_repository.go *)

Definition cached_IdentityRepository (r : IdentityRepository S) : IdentityRepository (Cached S) := {|
  CountSuperAdmins := inner CountSuperAdmins;
  GetUserByID id := read_through K_users id (inner (GetUserByID id));
  GetUserByEmail email := inner (GetUserByEmail email);
  ListUsers := inner ListUsers;
  CreateUser u := inner (CreateUser u);
  UpdateUser u := inner (UpdateUser u) ;; cache_Invalidate K_users (u_ID u);
  DeleteUser id := inner (DeleteUser id) ;; cache_Invalidate K_users id;
  GetInvitationByTokenHash h := inner (GetInvitationByTokenHash h);
  CreateInvitation i := inner (CreateInvitation i);
  AcceptInvitation id u := inner (AcceptInvitation id u);
  GetRefreshTokenByHash h := inner (GetRefreshTokenByHash h);
  CreateRefreshToken t := inner (CreateRefreshToken t);
  RotateRefreshToken id t := inner (RotateRefreshToken id t);
  RevokeRefreshToken id := inner (RevokeRefreshToken id);
  RevokeAllRefreshTokens id := inner (RevokeAllRefreshTokens id);
  GetPasswordResetByTokenHash h := inner (GetPasswordResetByTokenHash h);
  CreatePasswordReset p := inner (CreatePasswordReset p);
  MarkPasswordResetUsed id := inner (MarkPasswordResetUsed id);
  InvalidatePendingPasswordResets id := inner (InvalidatePendingPasswordResets id)
|}.

(** [New...Repository(inner, ttl)]: empty caches. *)
Definition fresh (ttl : Duration) (clock : nat → Time) (s : S) : Cached S :=
  mkCached s (New ttl) (New ttl) (New ttl) (New ttl) clock 0.
End Adapters.

(** ** Clients of the three repositories

    [Call A] is one method call with its arguments; [Client R] a program that
    makes calls, sees each outcome, and ends with an [R]. *)

Inductive Call : Type → Type :=
  | cListCategories (owner : string) : Call (list ExpenseCategory)
  | cCreateCategory (owner : string) (c : ExpenseCategory) : Call ()
  | cUpdateCategory (owner : string) (c : ExpenseCategory) : Call ()
  | cDeleteCategory (owner id : string) : Call ()
  | cListTags (owner : string) : Call (list ExpenseTag)
  | cCreateTag (owner : string) (t : ExpenseTag) : Call ()
  | cUpdateTag (owner : string) (t : ExpenseTag) : Call ()
  | cDeleteTag (owner id : string) : Call ()
  | cCreateGroup (g : UserGroup) : Call ()
  | cListVisibleGroups (viewer : string) (super : bool) : Call (list UserGroup)
  | cGetGroup (id : string) : Call UserGroup
  | cUpdateGroup (id name : string) : Call ()
  | cDeleteGroup (id : string) : Call ()
  | cAddMember (id user : string) : Call ()
  | cRemoveMember (id user : string) : Call ()
  | cCountSuperAdmins : Call Z
  | cGetUserByID (id : string) : Call AppUser
  | cGetUserByEmail (email : string) : Call AppUser
  | cListUsers : Call (list AppUser)
  | cCreateUser (u : AppUser) : Call ()
  | cUpdateUser (u : AppUser) : Call ()
  | cDeleteUser (id : string) : Call ()
  | cGetInvitationByTokenHash (h : string) : Call Invitation
  | cCreateInvitation (i : Invitation) : Call ()
  | cAcceptInvitation (id : string) (u : AppUser) : Call ()
  | cGetRefreshTokenByHash (h : string) : Call RefreshToken
  | cCreateRefreshToken (t : RefreshToken) : Call ()
  | cRotateRefreshToken (id : string) (t : RefreshToken) : Call ()
  | cRevokeRefreshToken (id : string) : Call ()
  | cRevokeAllRefreshTokens (user : string) : Call ()
  | cGetPasswordResetByTokenHash (h : string) : Call PasswordReset
  | cCreatePasswordReset (p : PasswordReset) : Call ()
  | cMarkPasswordResetUsed (id : string) : Call ()
  | cInvalidatePendingPasswordResets (user : string) : Call ().

Definition handle {W} (t : TaxonomyRepository W) (g : GroupRepository W) (i : IdentityRepository W)
    {A} (c : Call A) : M W A :=
  match c with
  | cListCategories owner => ListCategories owner
  | cCreateCategory owner c => CreateCategory owner c
  | cUpdateCategory owner c => UpdateCategory owner c
  | cDeleteCategory owner id => DeleteCategory owner id
  | cListTags owner => ListTags owner
  | cCreateTag owner t => CreateTag owner t
  | cUpdateTag owner t => UpdateTag owner t
  | cDeleteTag owner id => DeleteTag owner id
  | cCreateGroup g => CreateGroup g
  | cListVisibleGroups viewer super => ListVisibleGroups viewer super
  | cGetGroup id => GetGroup id
  | cUpdateGroup id name => UpdateGroup id name
  | cDeleteGroup id => DeleteGroup id
  | cAddMember id user => AddMember id user
  | cRemoveMember id user => RemoveMember id user
  | cCountSuperAdmins => CountSuperAdmins
  | cGetUserByID id => GetUserByID id
  | cGetUserByEmail email => GetUserByEmail email
  | cListUsers => ListUsers
  | cCreateUser u => CreateUser u
  | cUpdateUser u => UpdateUser u
  | cDeleteUser id => DeleteUser id
  | cGetInvitationByTokenHash h => GetInvitationByTokenHash h
  | cCreateInvitation i => CreateInvitation i
  | cAcceptInvitation id u => AcceptInvitation id u
  | cGetRefreshTokenByHash h => GetRefreshTokenByHash h
  | cCreateRefreshToken t => CreateRefreshToken t
  | cRotateRefreshToken id t => RotateRefreshToken id t
  | cRevokeRefreshToken id => RevokeRefreshToken id
  | cRevokeAllRefreshTokens user => RevokeAllRefreshTokens user
  | cGetPasswordResetByTokenHash h => GetPasswordResetByTokenHash h
  | cCreatePasswordReset p => CreatePasswordReset p
  | cMarkPasswordResetUsed id => MarkPasswordResetUsed id
  | cInvalidatePendingPasswordResets user => InvalidatePendingPasswordResets user
  end.

Inductive Client (R : Type) : Type :=
  | Done (r : R)
  | Ask {A} (c : Call A) (k : error + A → Client R).
Arguments Done {R}. Arguments Ask {R A}.

Fixpoint serve {W R} (h : ∀ A, Call A → M W A) (p : Client R) (w : W) : W * R :=
  match p with
  | Done r => (w, r)
  | Ask c k => let '(w', r) := h _ c w in serve h (k r) w'
  end.

(** ** What the wrapped repositories guarantee *)

Inductive Region := Rusers (id : string) | Rgroups | Rcategories (owner : string) | Rtags (owner : string).

(** The cached read a call may change. *)
Definition touched {A} (c : Call A) : option Region :=
  match c with
  | cCreateCategory owner _ | cUpdateCategory owner _ | cDeleteCategory owner _ => Some (Rcategories owner)
  | cCreateTag owner _ | cUpdateTag owner _ | cDeleteTag owner _ => Some (Rtags owner)
  | cCreateGroup _ | cUpdateGroup _ _ | cDeleteGroup _ | cAddMember _ _ | cRemoveMember _ _ => Some Rgroups
  | cCreateUser u | cUpdateUser u | cAcceptInvitation _ u => Some (Rusers (u_ID u))
  | cDeleteUser id => Some (Rusers id)
  | _ => None
  end.

Section Transparency.
Context {S : Type} (t : TaxonomyRepository S) (g : GroupRepository S) (i : IdentityRepository S).

Definition plain : ∀ A, Call A → M S A := λ A, handle t g i.
Definition cached : ∀ A, Call A → M (Cached S) A := λ A,
  handle (cached_TaxonomyRepository t) (cached_GroupRepository g) (cached_IdentityRepository i).

(** Every cached read but [skip] answers the same in [s'] as in [s]. *)
Definition same_reads (skip : option Region) (s s' : S) : Prop :=
  (∀ id, skip ≠ Some (Rusers id) → (GetUserByID id s').2 = (GetUserByID id s).2) ∧
  (skip ≠ Some Rgroups → ∀ v b, (ListVisibleGroups v b s').2 = (ListVisibleGroups v b s).2) ∧
  (∀ owner, skip ≠ Some (Rcategories owner) → (ListCategories owner s').2 = (ListCategories owner s).2) ∧
  (∀ owner, skip ≠ Some (Rtags owner) → (ListTags owner s').2 = (ListTags owner s).2).

(** The cached reads write nothing; a call that fails changes no cached read and
    one that succeeds at most its own; and a user is created under a new id. *)
Class LocalWrites : Prop := {
  users_read id s : (GetUserByID id s).1 = s;
  groups_read v b s : (ListVisibleGroups v b s).1 = s;
  categories_read owner s : (ListCategories owner s).1 = s;
  tags_read owner s : (ListTags owner s).1 = s;
  writes_local {A} (c : Call A) s :
    same_reads (match (plain _ c s).2 with inl _ => None | inr _ => touched c end) s (plain _ c s).1;
  created_new u s : (CreateUser u s).2 = inr () → ∃ e, (GetUserByID (u_ID u) s).2 = inl e
}.

(** An invitation is accepted with a user id no user has: the service draws it
    with [uuid.NewString]. *)
Definition new_user {A} (c : Call A) (s : S) : Prop :=
  match c with
  | cAcceptInvitation _ u => ∃ e, (GetUserByID (u_ID u) s).2 = inl e
  | _ => True
  end.

Fixpoint new_users {R} (p : Client R) (s : S) : Prop :=
  match p with
  | Done _ => True
  | Ask c k => new_user c s ∧ let '(s', r) := plain _ c s in new_users (k r) s'
  end.

(** Every cached entry, expired or not, is what the wrapped read answers now. *)
Definition coherent (w : Cached S) : Prop :=
  (∀ id e, values (c_users w) !! id = Some e → (GetUserByID id (c_inner w)).2 = inr (value e)) ∧
  (∀ v b e, values (c_groups w) !! group_key v b = Some e →
    (ListVisibleGroups v b (c_inner w)).2 = inr (value e)) ∧
  (∀ owner e, values (c_categories w) !! owner = Some e →
    (ListCategories owner (c_inner w)).2 = inr (value e)) ∧
  (∀ owner e, values (c_tags w) !! owner = Some e → (ListTags owner (c_inner w)).2 = inr (value e)).

(** ** Reading through a cache *)

(** A cache of the state: apart from the wrapped state and the clock. *)
Class CacheSlot {V} (l : Lens (Cached S) (Cache string V)) : Prop := {
  slot_laws : LensLaws l;
  slot_inner c w : c_inner (lens_set l c w) = c_inner w;
  slot_tick c w : (lens_set l c w) <| c_ticks ::= Datatypes.S |> = lens_set l c (w <| c_ticks ::= Datatypes.S |>);
  slot_get w : lens_get l (w <| c_ticks ::= Datatypes.S |>) = lens_get l w
}.
#[local] Existing Instance slot_laws.

Lemma inner_read {A} (m : M S A) (w : Cached S) : (m (c_inner w)).1 = c_inner w →
  inner m w = (w, (m (c_inner w)).2).
Proof using Type.
intros Hm. unfold inner, zoom. cbn. destruct (m (c_inner w)) as [s r]. cbn in *. subst s. by destruct w.
Qed.

(** A state that differs from [w] in the clock and one cache only, whose entries
    are old ones or the [answer] to [key]. *)
Definition refreshed {V} (l : Lens (Cached S) (Cache string V)) (key : string) (answer : error + V)
    (w w' : Cached S) : Prop :=
  c_inner w' = c_inner w ∧
  (∃ c n, w' = lens_set l c (w <| c_ticks := n |>) ∧
    ∀ k e, values c !! k = Some e → values (lens_get l w) !! k = Some e ∨ k = key ∧ answer = inr (value e)).

Lemma cache_Get_spec {V} (l : Lens (Cached S) (Cache string V)) `{!CacheSlot l} key answer w :
  (∀ e, values (lens_get l w) !! key = Some e → answer = inr (value e)) →
  let '(w', r) := cache_Get l key w in
  refreshed l key answer w w' ∧ ∃ hit, r = inr hit ∧ ∀ v, hit = Some v → answer = inr v.
Proof using Type.
intros Hc. unfold cache_Get, zoom, gets, modify, mbind, M_bind, Now. cbn. rewrite lens_set_get.
destruct (values (lens_get l w) !! key) as [e|] eqn:He; cbn.
- destruct (After _ _); cbn.
  + rewrite !slot_get. split.
    * split; [by rewrite slot_inner|]. eexists _, _. split; [reflexivity|]. cbn.
      intros k e' [_ Hk]%lookup_delete_Some. by left.
    * exists None. done.
  + split; [split; [done|]|].
    * exists (lens_get l w), (Datatypes.S (c_ticks w)). split; [|by left].
      pose proof (lens_set_get (l := l) (w <| c_ticks ::= Datatypes.S |>)) as Hl. rewrite slot_get in Hl.
      symmetry. exact Hl.
    * eexists. split; [done|]. intros v [= <-]. auto.
- split; [split; [done|]|by exists None].
  exists (lens_get l w), (c_ticks w). split; [|by left].
  assert (w <| c_ticks := c_ticks w |> = w) as -> by (by destruct w). by rewrite lens_set_get.
Qed.

Lemma read_through_spec {V} (l : Lens (Cached S) (Cache string V)) `{!CacheSlot l} key (load : M S V) w :
  (load (c_inner w)).1 = c_inner w →
  (∀ e, values (lens_get l w) !! key = Some e → (load (c_inner w)).2 = inr (value e)) →
  let '(w', r) := read_through l key (inner load) w in
  r = (load (c_inner w)).2 ∧ refreshed l key r w w'.
Proof using Type.
intros Hpure Hc. pose proof (cache_Get_spec l key _ w Hc) as Hg.
unfold read_through. unfold mbind at 1, M_bind at 1. destruct (cache_Get l key w) as [w1 r1].
destruct Hg as [(Hi & c & n & -> & Hold) (hit & -> & Hhit)].
destruct hit as [v|]; [cbn; rewrite (Hhit v eq_refl) in *; split; [done|]; split; [done|]; eauto|].
unfold mbind, M_bind. rewrite inner_read by (by rewrite Hi). rewrite Hi.
destruct (load (c_inner w)) as [s' [e|v]]; cbn in *; (split; [done|]).
- split; [done|]. eauto.
- rewrite slot_tick. split; [by rewrite !slot_inner|]. rewrite !lens_get_set, lens_set_set.
  eexists _, _. split; [reflexivity|]. cbn. intros k e [[<- <-]|[_ Hk]]%lookup_insert_Some; auto.
Qed.

(** ** One call *)

Lemma group_key_inj v b v' b' : group_key v b = group_key v' b' → v = v' ∧ b = b'.
Proof using Type.
unfold group_key. cbn. intros Hk.
apply (split_last_char ":"%char) in Hk as [-> Hb]; [|by destruct b|by destruct b'].
split; [done|]. by destruct b, b'.
Qed.

Definition absent (skip : option Region) (w : Cached S) : Prop :=
  match skip with
  | None => True
  | Some (Rusers id) => values (c_users w) !! id = None
  | Some Rgroups => values (c_groups w) = ∅
  | Some (Rcategories owner) => values (c_categories w) !! owner = None
  | Some (Rtags owner) => values (c_tags w) !! owner = None
  end.

(** The caches of [w'] hold no more than those of [w]. *)
Definition within (w w' : Cached S) : Prop :=
  values (c_users w') ⊆ values (c_users w) ∧ values (c_groups w') ⊆ values (c_groups w) ∧
  values (c_categories w') ⊆ values (c_categories w) ∧ values (c_tags w') ⊆ values (c_tags w).

(** A write keeps the caches coherent when what it may have changed is not cached. *)
Lemma write_coherent skip w w' : coherent w → within w w' → absent skip w' →
  same_reads skip (c_inner w) (c_inner w') → coherent w'.
Proof using Type.
intros (Hu & Hg & Hc & Ht) (Iu & Ig & Ic & It) Hab (Su & Sg & Sc & St).
repeat split.
- intros id e He. rewrite Su; [apply Hu; by eapply lookup_weaken|]. intros ->. cbn in Hab. congruence.
- intros v b e He. rewrite Sg; [apply Hg; by eapply lookup_weaken|]. intros ->. cbn in Hab.
  by rewrite Hab, lookup_empty in He.
- intros o e He. rewrite Sc; [apply Hc; by eapply lookup_weaken|]. intros ->. cbn in Hab. congruence.
- intros o e He. rewrite St; [apply Ht; by eapply lookup_weaken|]. intros ->. cbn in Hab. congruence.
Qed.

Lemma inner_run {A} (m : M S A) w :
  inner m w = (w <| c_inner := (m (c_inner w)).1 |>, (m (c_inner w)).2).
Proof using Type. unfold inner, zoom. cbn. by destruct (m (c_inner w)). Qed.

Context `{!LocalWrites}.

(** [good c w]: the cached call answers as the plain one, leaves the wrapped
    state as it does, and keeps the caches coherent. *)
Definition good {A} (c : Call A) (w : Cached S) : Prop :=
  let '(w', r) := cached _ c w in
  (c_inner w', r) = plain _ c (c_inner w) ∧ coherent w'.

(** A call passed straight through. *)
Lemma good_inner {A} (c : Call A) w : coherent w →
  cached _ c w = inner (plain _ c) w →
  absent (match (plain _ c (c_inner w)).2 with inl _ => None | inr _ => touched c end) w →
  good c w.
Proof using All.
intros Hw Hc Hab. unfold good. rewrite Hc, inner_run. split; [by destruct (plain _ _ _)|].
eapply write_coherent; [exact Hw|by repeat split|exact Hab|apply writes_local].
Qed.

(** A write followed by dropping [skip] from the caches. *)
Lemma good_write (c : Call ()) (drop : M (Cached S) ()) f w : coherent w →
  cached _ c w = (inner (plain _ c) ;; drop) w →
  (∀ w, drop w = (f w, inr ())) →
  (∀ w, within w (f w) ∧ absent (touched c) (f w) ∧ c_inner (f w) = c_inner w) →
  good c w.
Proof using All.
intros Hw Hc Hd Hf. unfold good. rewrite Hc. unfold mbind, M_bind. rewrite inner_run.
pose proof (writes_local c (c_inner w)) as Hl.
destruct (plain () c (c_inner w)) as [s' [e|[]]]; cbn in *.
- split; [done|]. by eapply write_coherent; [exact Hw|by repeat split| |exact Hl].
- rewrite Hd. destruct (Hf (w <| c_inner := s' |>)) as (Hin & Hab & Hi). cbn in Hi.
  split; [by rewrite Hi|]. eapply write_coherent; [exact Hw|exact Hin|exact Hab|by rewrite Hi].
Qed.

#[local] Ltac passes Hw := apply good_inner; [exact Hw|reflexivity|cbn; by case_match].
#[local] Ltac drops Hw := eapply good_write;
  [exact Hw|reflexivity|intros w'; reflexivity
  |intros w'; split; [repeat split; cbn; try done; apply delete_subseteq || apply map_empty_subseteq
                     |split; [cbn; try done; apply lookup_delete_eq|done]]].

#[local] Ltac slot := split; [split|..]; intros; repeat match goal with w : Cached S |- _ => destruct w end; reflexivity.
#[local] Instance slot_users : CacheSlot K_users.
Proof using Type. slot. Qed.
#[local] Instance slot_groups : CacheSlot K_groups.
Proof using Type. slot. Qed.
#[local] Instance slot_categories : CacheSlot K_categories.
Proof using Type. slot. Qed.
#[local] Instance slot_tags : CacheSlot K_tags.
Proof using Type. slot. Qed.

(** A cached read; [Hsame] says what the other caches see of it. *)
Lemma good_read {A} (c : Call A) w w' r (l : Lens (Cached S) (Cache string A)) key :
  cached _ c w = (w', r) → r = (plain _ c (c_inner w)).2 → (plain _ c (c_inner w)).1 = c_inner w →
  refreshed l key r w w' → coherent w' → good c w.
Proof using Type.
intros Hc -> Hp (Hi & _) Hw. unfold good. rewrite Hc. split; [|done].
rewrite Hi, <- Hp at 1. by destruct (plain _ c (c_inner w)).
Qed.

#[local] Ltac reads l key :=
  lazymatch goal with Hw : coherent ?w |- good ?c _ =>
    assert ((plain _ c (c_inner w)).1 = c_inner w) as Hp
      by (cbn; auto using users_read, groups_read, categories_read, tags_read);
    pose proof (read_through_spec l key (plain _ c) w Hp) as Hs;
    destruct (read_through l key (inner (plain _ c)) w) as [w' r] eqn:Hrun;
    destruct Hs as [Hr Href]; [destruct Hw as (? & ? & ? & ?); cbn; eauto|];
    eapply good_read; [exact Hrun|exact Hr|exact Hp|exact Href|];
    destruct Href as (Hi & c' & n & -> & Hnew); destruct Hw as (Hu & Hg & Hc & Ht)
  end.

(** A new user's id is not cached. *)
Lemma new_absent id (w : Cached S) :
  coherent w → (∃ e, (GetUserByID id (c_inner w)).2 = inl e) → values (c_users w) !! id = None.
Proof using Type.
intros (Hu & _) [e He]. destruct (values (c_users w) !! id) as [v|] eqn:Hv; [|done].
rewrite (Hu _ _ Hv) in He. done.
Qed.

Lemma step_good {A} (c : Call A) w : coherent w → new_user c (c_inner w) → good c w.
Proof using All.
intros Hw Hnew. destruct c; cbn in Hnew.
all: try (passes Hw).
all: try (drops Hw).
- clear Hnew. reads (@K_categories S) owner. repeat split; cbn; [done..| |done].
  intros o e He. destruct (Hnew _ _ He) as [?|[-> Hv]]; [auto|etrans; [symmetry; exact Hr|exact Hv]].
- clear Hnew. reads (@K_tags S) owner. repeat split; cbn; [done..|].
  intros o e He. destruct (Hnew _ _ He) as [?|[-> Hv]]; [auto|etrans; [symmetry; exact Hr|exact Hv]].
- clear Hnew. reads (@K_groups S) (group_key viewer super). repeat split; cbn; [done| |done..].
  intros v b e He. destruct (Hnew _ _ He) as [?|[[-> ->]%group_key_inj Hv]]; [auto|etrans; [symmetry; exact Hr|exact Hv]].
- clear Hnew. reads (@K_users S) id. repeat split; cbn; [|done..].
  intros o e He. destruct (Hnew _ _ He) as [?|[-> Hv]]; [auto|etrans; [symmetry; exact Hr|exact Hv]].
- apply good_inner; [exact Hw|reflexivity|]. cbn. destruct (CreateUser u (c_inner w)).2 as [|[]] eqn:Hc; [done|].
  apply new_absent; [exact Hw|]. by apply created_new.
- apply good_inner; [exact Hw|reflexivity|]. cbn. destruct (AcceptInvitation id u (c_inner w)).2; [done|].
  by apply new_absent.
Qed.

Lemma serve_coherent {R} (p : Client R) w : coherent w → new_users p (c_inner w) →
  let '(w', r) := serve cached p w in (c_inner w', r) = serve plain p (c_inner w) ∧ coherent w'.
Proof using All.
revert w. induction p as [r|A c k IH]; intros w Hw Hnew; [done|]. cbn. destruct Hnew as [Hc Hk].
pose proof (step_good c w Hw Hc) as Hg. unfold good in Hg. destruct (cached A c w) as [w' r].
destruct Hg as [Heq Hw']. rewrite <- Heq in *. by apply IH.
Qed.
End Transparency.

(** ** The in-memory adapters meet the interface *)

Section Memory.
Context `{GoRuntime}.

Lemma same_tables skip (w w' : World) :
  (∀ id, skip ≠ Some (Rusers id) → usersByID (w_identity w') !! id = usersByID (w_identity w) !! id) →
  (skip ≠ Some Rgroups → w_groups w' = w_groups w) →
  (∀ o, skip ≠ Some (Rcategories o) → ts_categories (w_taxonomy w') !! o = ts_categories (w_taxonomy w) !! o) →
  (∀ o, skip ≠ Some (Rtags o) → ts_tags (w_taxonomy w') !! o = ts_tags (w_taxonomy w) !! o) →
  same_reads world_taxonomy world_groups world_identity skip w w'.
Proof using Type.
intros Hu Hg Hc Ht. repeat split; cbn.
- intros id Hid. unfold zoom. cbn. rewrite (Hu id Hid). by destruct (usersByID (w_identity w) !! id).
- intros Hs v b. by rewrite (Hg Hs).
- intros o Ho. unfold owned. by rewrite (Hc o Ho).
- intros o Ho. unfold owned. by rewrite (Ht o Ho).
Qed.

#[local] Ltac tables := apply same_tables; cbn;
  [intros ? ?; try done; rewrite lookup_insert_ne || rewrite lookup_delete_ne; congruence
  |intros ?; try done; congruence
  |intros ? ?; try done; rewrite lookup_insert_ne; congruence
  |intros ? ?; try done; rewrite lookup_insert_ne; congruence].

#[export] Instance world_local : LocalWrites world_taxonomy world_groups world_identity.
Proof using Type.
split.
- intros id s. cbn. unfold zoom. cbn. destruct (usersByID (w_identity s) !! id); by destruct s.
- intros v b s. by destruct s.
- intros o s. by destruct s.
- intros o s. by destruct s.
- intros A c s. destruct c; cbn.
  all: unfold zoom, gets, modify, mbind, M_bind, Now; cbn.
  all: unfold update_categories, update_tags, with_group, memory_CreateUser, memory_UpdateUser,
    memory_DeleteUser, memory_CreateInvitation, memory_AcceptInvitation, memory_CreateRefreshToken,
    memory_RotateRefreshToken, memory_CreatePasswordReset, memory_MarkPasswordResetUsed.
  all: repeat case_match; simplify_eq; cbn.
  all: tables.
- intros u s. cbn. unfold zoom, memory_CreateUser. cbn. case_decide as Hu; [done|].
  apply eq_None_not_Some in Hu. rewrite Hu. by exists errNotFound.
Qed.
End Memory.


(** A cached read within the TTL of the read that filled the cache does not reach
    the wrapped repository. *)
Lemma served_until_expiry {K V W} `{Countable K} `{Env W} (l : Lens W (Cache K V)) `{!LensLaws l}
    key v at_ w now w' load :
  values (lens_get l w) !! key = Some (mkEntry v (TimeAdd at_ (ttl (lens_get l w)))) →
  Now w = (w', inr now) → lens_get l w' = lens_get l w →
  now - at_ ≤ ttl (lens_get l w) → read_through l key load w = (w', inr v).
Proof.
intros He Hnow Hl Hle. unfold read_through, cache_Get, zoom, gets, mbind, M_bind. cbn.
rewrite lens_set_get, He, Hnow. cbn. unfold After, TimeAdd in *.
destruct (Z.ltb_spec (at_ + ttl (lens_get l w)) now); [lia|done].
Qed.

Module Sample.
Import World.Sample.
#[local] Existing Instance default_runtime.

Definition user (name : string) : AppUser :=
  mkAppUser "u1" "u1@example.com" "" name "" RoleMember false true ∅ true 0 0.
Definition with_user : World :=
  (handle world_taxonomy world_groups world_identity (cCreateUser (user "Ann")) empty_world).1.

Abbreviation through := (cached world_taxonomy world_groups world_identity).
Abbreviation direct := (plain world_taxonomy world_groups world_identity).

(** Read, read again from the cache, rename, read, read a tag list twice around a
    new tag, and fail to update a user that is not there. *)
Definition session : Client (list string) :=
  Ask (cGetUserByID "u1") (λ a, Ask (cGetUserByID "u1") (λ b,
  Ask (cUpdateUser (user "Bea")) (λ _, Ask (cGetUserByID "u1") (λ c,
  Ask (cListTags "u1") (λ d, Ask (cCreateTag "u1" (mkExpenseTag "t" "Rent" "" 0)) (λ _,
  Ask (cListTags "u1") (λ e, Ask (cDeleteUser "u2") (λ f,
  let name r := match r with inr u => u_DisplayName u | inl _ => "" end in
  let tags r := match r with inr l => String.concat "," (tag_Name <$> l) | inl _ => "" end in
  Done [name a; name b; name c; tags d; tags e;
        match f with inl e => ErrorText e | inr _ => "" end])))))))).

Example session_answers :
  (serve through session (fresh Minute (λ n, Z.of_nat n) with_user)).2 =
  ["Ann"; "Ann"; "Bea"; ""; "Rent"; "not found"].
Proof. vm_compute. done. Qed.


(** The two halves of a read that misses, with a whole update between them: the
    cache then serves the user from before the update. *)
Definition raced : Cached World :=
  let w := fresh Minute (λ n, Z.of_nat n) with_user in
  let loaded := (GetUserByID "u1" (c_inner w)).2 in
  let w := (through _ (cUpdateUser (user "Bea")) w).1 in
  match loaded with inr u => (cache_Set K_users "u1" u w).1 | inl _ => w end.

Example race_serves_stale_user :
  (u_DisplayName <$> match (through _ (cGetUserByID "u1") raced).2 with inr u => Some u | _ => None end) = Some "Ann" ∧
  (u_DisplayName <$> match (direct _ (cGetUserByID "u1") (c_inner raced)).2 with inr u => Some u | _ => None end) = Some "Bea".
Proof. vm_compute. done. Qed.
End Sample.
