(* ===== verification/RateLimit.v ===== *)
(** * Request limits (src/pkg/ratelimit) and the limited e-mail sender
      (src/pkg/email/ratelimit.go)

    The process-local fixed-window limiter with its occasional sweep of closed
    windows.  Its reference is one counter per key that is never swept: the
    sweep is invisible, and no stretch of time as long as the interval sees more
    than two windows' worth of grants. *)

From S2P Require Import Prelude.
From S2P Require Import GoTime.
From S2P Require Import GoStrings.
From S2P Require Import Ports.
From S2P Require Import Notifications.
#[global] Open Scope Z_scope.

(** [Limiter] (ratelimit.go). *)
Class Limiter (W : Type) := { Allow : string → M W bool }.

(** ** The limiter (fixed_window.go) *)

Definition evictAfterCalls : Z := 1000.

Record window_entry := mkWindow { started : Time; count : Z }.
Record FixedWindow := mkFixedWindow {
  fw_limit : Z; fw_interval : Duration; fw_entries : gmap string window_entry; fw_calls : Z
}.
#[export] Instance eta_FixedWindow : Eta FixedWindow := λ r,
  mkFixedWindow (fw_limit r) (fw_interval r) (fw_entries r) (fw_calls r).

Definition NewFixedWindow (limit : Z) (interval : Duration) : FixedWindow :=
  mkFixedWindow limit interval ∅ 0.

Definition zero_entry : window_entry := mkWindow 0 0.

(** [now.Sub(value.started) >= l.interval]. *)
Definition closed (interval : Duration) (now : Time) (e : window_entry) : bool :=
  interval <=? Sub now (started e).

Definition evictExpiredLocked (now : Time) (l : FixedWindow) : FixedWindow :=
  l <| fw_entries ::= filter (λ kv, closed (fw_interval l) now kv.2 = false) |>.

(** [Allow], with the reading of the clock it takes under the lock. *)
Definition allow_at (now : Time) (key : string) (l : FixedWindow) : FixedWindow * bool :=
  let l := l <| fw_calls ::= λ n, (n + 1) mod 2 ^ 64 |> in
  let l := if fw_calls l mod evictAfterCalls =? 0 then evictExpiredLocked now l else l in
  let value := default zero_entry (fw_entries l !! key) in
  if IsZero (started value) || closed (fw_interval l) now value
  then (l <| fw_entries ::= <[key := mkWindow now 1]> |>, true)
  else if fw_limit l <=? count value then (l, false)
  else (l <| fw_entries ::= <[key := mkWindow (started value) (wrap64 (count value + 1))]> |>, true).

Definition fixed_Limiter {W} `{Env W} (l : Lens W FixedWindow) : Limiter W := {|
  Allow key := now ← Now; zoom l (λ s, let '(s', b) := allow_at now key s in (s', inr b))
|}.

Definition fw_Len (l : FixedWindow) : Z := Z.of_nat (size (fw_entries l)).

(** ** The limited sender (pkg/email/ratelimit.go) *)

Definition sendLimitKey : string := "email-send".

Definition rateLimitedSender {W} (next : EmailSender W) (limit : Limiter W) : EmailSender W := {|
  Send to subject text html :=
    allowed ← Allow sendLimitKey;
    if negb allowed then throw ErrSendLimitExceeded else Send to subject text html
|}.

(** ** A run of calls *)

Definition call : Type := Time * string.

(** The calls with their answers. *)
Fixpoint answers (l : FixedWindow) (calls : list call) : list (call * bool) :=
  match calls with
  | [] => []
  | (now, key) :: calls =>
      let '(l', b) := allow_at now key l in ((now, key), b) :: answers l' calls
  end.

(** What one key sees. *)
Definition seen (key : string) (run : list (call * bool)) : list (Time * bool) :=
  omap (λ c, if c.1.2 =s key then Some (c.1.1, c.2) else None) run.

(** ** The reference: one counter, never swept *)

Section Reference.
Variables (limit : Z) (interval : Duration).

Definition counter_step (now : Time) (e : window_entry) : window_entry * bool :=
  if IsZero (started e) || (interval <=? now - started e) then (mkWindow now 1, true)
  else if limit <=? count e then (e, false)
  else (mkWindow (started e) (count e + 1), true).

Fixpoint counter (e : window_entry) (times : list Time) : list (Time * bool) :=
  match times with
  | [] => []
  | now :: times => let '(e', b) := counter_step now e in (now, b) :: counter e' times
  end.
End Reference.

Definition times_of (key : string) (calls : list call) : list Time :=
  omap (λ c, if c.2 =s key then Some c.1 else None) calls.

(** The clock does not go backwards: [time.Now] is monotonic. *)
Fixpoint monotonic (t : Time) (calls : list call) : Prop :=
  match calls with [] => True | (now, _) :: calls => t ≤ now ∧ monotonic now calls end.

Lemma closed_iff interval now e : is_int64 interval → started e ≤ now →
  closed interval now e = (interval <=? now - started e).
Proof.
intros Hi Hs. unfold closed, Sub, is_int64, min_int64, max_int64 in *.
destruct (Z.leb_spec interval (now - started e)); [apply Z.leb_le|apply Z.leb_gt]; lia.
Qed.

(** ** The sweep is invisible *)

Section Sweep.
Variables (limit : Z) (interval : Duration).
Hypothesis (Hlimit : is_int64 limit) (Hinterval : is_int64 interval).

(** At time [t], [key]'s counter is in the table, or its window has closed (or
    never opened) and the table has nothing. *)
Definition tracks (t : Time) (l : FixedWindow) (key : string) (e : window_entry) : Prop :=
  started e ≤ Z.max 0 t ∧ 0 ≤ count e ≤ Z.max 1 limit ∧
  match fw_entries l !! key with
  | Some e' => e' = e
  | None => started e = 0 ∨ interval ≤ t - started e
  end.

Definition sized (l : FixedWindow) : Prop := fw_limit l = limit ∧ fw_interval l = interval.

Lemma tracks_later t t' l key e : t ≤ t' → tracks t l key e → tracks t' l key e.
Proof using Type.
intros Ht (H1 & H2 & H3). split; [lia|]. split; [done|]. destruct (fw_entries l !! key); [done|]. lia.
Qed.

Lemma evict_tracks t l key e : 0 ≤ t → sized l → tracks t l key e → tracks t (evictExpiredLocked t l) key e.
Proof using All.
intros Ht [_ Hi] (H1 & H2 & H3). split; [done|]. split; [done|]. cbn. rewrite Hi, map_lookup_filter.
destruct (fw_entries l !! key) as [e'|] eqn:Hk; cbn; [|done]. subst e'.
case_guard as Hg; cbn; [done|]. right. rewrite closed_iff in Hg by (done || lia).
destruct (Z.leb_spec interval (t - started e)); [done|]. by destruct Hg.
Qed.

(** The table after the call counter and the occasional sweep. *)
Definition swept (now : Time) (l : FixedWindow) : FixedWindow :=
  let l := l <| fw_calls ::= λ n, (n + 1) mod 2 ^ 64 |> in
  if fw_calls l mod evictAfterCalls =? 0 then evictExpiredLocked now l else l.

Lemma swept_tracks t l : 0 < t → sized l →
  sized (swept t l) ∧ ∀ key e, tracks t l key e → tracks t (swept t l) key e.
Proof using All.
intros Ht Hz. unfold swept. cbv zeta. destruct (_ =? 0); (split; [done|]); [|done].
intros k e Hk. apply evict_tracks; [lia|done|exact Hk].
Qed.

Lemma allow_key t key l e : 0 < t → sized l → tracks t l key e →
  let '(l', b) := allow_at t key l in let '(e', b') := counter_step limit interval t e in
  b = b' ∧ tracks t l' key e'.
Proof using All.
intros Ht Hz Htr. destruct (swept_tracks t l Ht Hz) as [[Hl Hi] Hkeep].
apply Hkeep in Htr as (H1 & H2 & H3). clear Hkeep. unfold allow_at. fold (swept t l). cbv zeta.
set (l2 := swept t l) in *. clearbody l2.
assert (IsZero (started (default zero_entry (fw_entries l2 !! key))) ||
        closed (fw_interval l2) t (default zero_entry (fw_entries l2 !! key)) =
        IsZero (started e) || (interval <=? t - started e)) as ->.
{ rewrite Hi. destruct (fw_entries l2 !! key) as [e'|]; cbn.
  - subst e'. rewrite closed_iff by (done || lia). done.
  - unfold IsZero in *. symmetry. apply orb_true_iff. destruct H3 as [->|H3]; [by left|right; lia]. }
unfold counter_step. destruct (IsZero (started e) || (interval <=? t - started e)) eqn:Hopen.
{ split; [done|]. unfold tracks. cbn. rewrite lookup_insert_eq. split_and!; lia || done. }
destruct (fw_entries l2 !! key) as [e'|] eqn:Hk; cbn in *.
2: { exfalso. apply orb_false_iff in Hopen as [Hz0 Hz1]. unfold IsZero in *. lia. }
subst e'. rewrite Hl. destruct (Z.leb_spec limit (count e)) as [Hc|Hc].
{ split; [done|]. by unfold tracks; rewrite Hk. }
rewrite wrap64_id by (unfold is_int64, min_int64, max_int64 in *; lia).
split; [done|]. unfold tracks. cbn. rewrite lookup_insert_eq. cbn. split_and!; lia || done.
Qed.

Lemma allow_others t key l : 0 < t → sized l →
  sized (allow_at t key l).1 ∧
  ∀ key' e, key' ≠ key → tracks t l key' e → tracks t (allow_at t key l).1 key' e.
Proof using All.
intros Ht Hz. destruct (swept_tracks t l Ht Hz) as [Hz2 Hkeep].
unfold allow_at. fold (swept t l). cbv zeta. set (l2 := swept t l) in *. clearbody l2.
assert (∀ e2 key' e, key' ≠ key → tracks t l2 key' e →
  tracks t (l2 <| fw_entries ::= <[key := e2]> |>) key' e) as Hother.
{ intros e2 key' e Hne (? & ? & ?). split; [done|]. split; [done|]. cbn. by rewrite lookup_insert_ne. }
destruct (_ || _); [|destruct (_ <=? _)]; cbn [fst]; (split; [done|]); auto.
Qed.

Lemma answers_counter key calls t l e : 0 < t → monotonic t calls → sized l → tracks t l key e →
  seen key (answers l calls) = counter limit interval e (times_of key calls).
Proof using All.
revert t l e. induction calls as [|[now k] calls IH]; intros t l e Ht Hm Hz Htr; [done|].
destruct Hm as [Hle Hm].
apply (tracks_later _ now) in Htr; [|done].
pose proof (allow_key now k l) as Hkey. destruct (allow_others now k l ltac:(lia) Hz) as [Hz' Hother].
cbn. destruct (allow_at now k l) as [l' b]. unfold seen, times_of. cbn in *.
destruct (String.eqb_spec k key) as [->|Hk]; cbn.
- specialize (Hkey e ltac:(lia) Hz Htr). destruct (counter_step limit interval now e) as [e' b'].
  destruct Hkey as [-> Htr']. cbn. f_equal. apply (IH now); [lia|done..].
- apply (IH now); [lia|done|done|]. apply Hother; [congruence|done].
Qed.
End Sweep.

(** The occasional sweep of closed windows never changes an answer: under a
    clock that does not go backwards, each key of the limiter is answered exactly
    as by a counter of its own that is never swept. *)
Theorem sweep_is_invisible limit interval key calls t :
  is_int64 limit → is_int64 interval → 0 < t → monotonic t calls →
  seen key (answers (NewFixedWindow limit interval) calls) =
  counter limit interval zero_entry (times_of key calls).
Proof.
intros Hl Hi Ht Hm. apply (answers_counter limit interval Hl Hi key calls t); [done..|].
unfold tracks. cbn. rewrite lookup_empty. lia.
Qed.

(** ** How much one stretch of time grants *)

Section Grants.
Variables (limit : Z) (interval : Duration) (a : Time).
Hypothesis Hpos : 0 < interval.

(** The grants among the calls in [[a, a + interval)]. *)
Definition granted_in (run : list (Time * bool)) : Z :=
  Z.of_nat (length (List.filter (λ c, c.2 && (a <=? c.1) && (c.1 <? a + interval)) run)).

Fixpoint ascending (t : Time) (times : list Time) : Prop :=
  match times with [] => True | now :: times => t ≤ now ∧ ascending now times end.

Lemma granted_cons now b run :
  granted_in ((now, b) :: run) =
  (if b && (a <=? now) && (now <? a + interval) then 1 else 0) + granted_in run.
Proof using Type. unfold granted_in. cbn. destruct (b && _ && _); cbn; lia. Qed.

Lemma granted_past times t e : ascending t times → a + interval ≤ t →
  granted_in (counter limit interval e times) = 0.
Proof using Type.
revert t e. induction times as [|now times IH]; intros t e Hasc Ht; [done|]. destruct Hasc as [Hle Hasc].
cbn. destruct (counter_step limit interval now e) as [e' b]. rewrite granted_cons, (IH now) by (done || lia).
destruct (Z.ltb_spec now (a + interval)); [lia|]. by rewrite andb_false_r.
Qed.

Lemma counter_grants times t e g : ascending t times → 0 < t → started e ≤ t →
  0 ≤ count e ≤ Z.max 1 limit → (started e = 0 → count e = 0) →
  (t < a → g = 0) → (started e < a → g ≤ count e) → (a ≤ started e → g ≤ Z.max 1 limit + count e) →
  g + granted_in (counter limit interval e times) ≤ 2 * Z.max 1 limit.
Proof using All.
revert t e g. induction times as [|now times IH]; intros t e g Hasc Ht Hs Hc Hz H0 H1 H2.
{ unfold granted_in. cbn. lia. }
destruct Hasc as [Hle Hasc].
destruct (Z.le_gt_cases (a + interval) now) as [Hpast|Hin].
{ rewrite (granted_past _ now) by (cbn; (split; [lia|done]) || lia). lia. }
cbn [counter]. unfold counter_step, IsZero.
destruct ((started e =? 0) || (interval <=? now - started e)) eqn:Hnew;
  [|destruct (Z.leb_spec limit (count e)) as [Hfull|Hroom]]; rewrite granted_cons, Z.add_assoc.
all: assert ((now <? a + interval) = true) as -> by lia; rewrite andb_true_r; cbn [andb].
all: apply (IH now); cbn; try done; try lia; destruct (Z.leb_spec a now); lia.
Qed.

Lemma times_ascending key t calls : monotonic t calls → ascending t (times_of key calls).
Proof using Type.
assert (∀ times t t', t ≤ t' → ascending t' times → ascending t times) as Hlower.
{ intros [|x times] u u' Hu; cbn; [done|]. intros [? ?]. split; [lia|done]. }
revert t. induction calls as [|[now k] calls IH]; intros t Hm; [done|]. destruct Hm as [Hle Hm].
unfold times_of. cbn. destruct (k =s key); cbn; [split; [done|]|]; [by apply IH|].
eapply Hlower; [exact Hle|]. by apply IH.
Qed.
End Grants.

(** In no stretch of time as long as the interval does the limiter grant a key
    more than twice its limit (or twice one call, for a limit below one): the end
    of one window and the beginning of the next. *)
Theorem grants_bounded limit interval key calls t a :
  is_int64 limit → is_int64 interval → 0 < interval → 0 < t → monotonic t calls →
  granted_in interval a (seen key (answers (NewFixedWindow limit interval) calls)) ≤ 2 * Z.max 1 limit.
Proof.
intros Hl Hi Hpos Ht Hm. rewrite (answers_counter limit interval Hl Hi key calls t _ zero_entry);
  [|done..|unfold tracks; cbn; rewrite lookup_empty; lia].
apply (counter_grants limit interval a Hpos _ t _ 0); cbn; [by apply times_ascending|lia..].
Qed.

Module Sample.
(** Limit two per ten nanoseconds: two keys, across the end of a window. *)
Definition calls : list call :=
  [(1, "a"); (1, "b"); (9, "a"); (10, "a"); (11, "a"); (12, "a"); (13, "a"); (30, "b")].

Example a_sees : seen "a" (answers (NewFixedWindow 2 10) calls) =
  [(1, true); (9, true); (10, false); (11, true); (12, true); (13, false)].
Proof. vm_compute. done. Qed.

Lemma sweep_is_invisible_witness :
  monotonic 1 calls ∧ seen "b" (answers (NewFixedWindow 2 10) calls) = [(1, true); (30, true)].
Proof.
assert (monotonic 1 calls) as Hm by (cbn; lia). split; [exact Hm|].
assert (is_int64 2 ∧ is_int64 10) as [H2 H10] by (unfold is_int64, min_int64, max_int64; lia).
rewrite (sweep_is_invisible 2 10 "b" calls 1 H2 H10 eq_refl Hm). vm_compute. reflexivity.
Defined.

(** Three grants in ten nanoseconds, with a limit of two per window. *)
Lemma grants_bounded_witness :
  granted_in 10 9 (seen "a" (answers (NewFixedWindow 2 10) calls)) = 3 ∧
  granted_in 10 9 (seen "a" (answers (NewFixedWindow 2 10) calls)) ≤ 4.
Proof.
assert (monotonic 1 calls) as Hm by (cbn; lia). split; [vm_compute; reflexivity|].
assert (is_int64 2 ∧ is_int64 10) as [H2 H10] by (unfold is_int64, min_int64, max_int64; lia).
apply (grants_bounded 2 10 "a" calls 1 9 H2 H10 eq_refl eq_refl Hm).
Defined.
End Sample.
