(* ===== verification/ReportFormats.v ===== *)
(** * Report rendering (src/pkg/report)

    The CSV document, with the quoting of [encoding/csv], and the computations
    behind the PDF's charts: colours, the dominant currency, the time buckets and
    the axis bound.  Laying the PDF out is the third-party library's.  A record
    survives the CSV encoding whatever its fields contain, and every amount of the
    charted currency is counted in the bucket its time falls in. *)

From Stdlib Require Import Ascii.
From S2P Require Import Prelude.
From S2P Require Import GoTime.
From S2P Require Import GoStrings.
From S2P Require Import TimeText.
#[global] Open Scope Z_scope.

(** ** The data of a report (report.go) *)

Record ExpenseRow := mkExpenseRow {
  row_OccurredAt : Time; row_Title : string; row_Category : string; row_Currency : string;
  row_AmountMinor : Z; row_Tags : list string
}.
Record CategoryTotal := mkCategoryTotal {
  ct_Category : string; ct_Currency : string; ct_AmountMinor : Z; ct_Count : Z
}.
#[export] Instance eta_CategoryTotal : Eta CategoryTotal := λ r,
  mkCategoryTotal (ct_Category r) (ct_Currency r) (ct_AmountMinor r) (ct_Count r).
Record ReportData := mkReportData {
  rd_PeriodKind : string; rd_PeriodStart : Time; rd_PeriodEnd : Time; rd_GeneratedAt : Time;
  rd_OwnerName : string; rd_Rows : list ExpenseRow; rd_Totals : list CategoryTotal;
  rd_CategoryColors : gmap string string
}.

(** ** CSV (csv.go, over [encoding/csv]) *)

Definition quote : ascii := ascii_of_nat 34.
Definition newline : ascii := ascii_of_nat 10.
Definition return_ : ascii := ascii_of_nat 13.

(** [fieldNeedsQuotes]. *)
Definition special (c : ascii) : bool :=
  Ascii.eqb c newline || Ascii.eqb c return_ || Ascii.eqb c quote || Ascii.eqb c ",".
Definition fieldNeedsQuotes (field : string) : bool :=
  let l := String.list_ascii_of_string field in
  match l with
  | [] => false
  | _ => (field =s "\.") || existsb special l || lead true l
  end.

Definition escape (l : list ascii) : list ascii :=
  l ≫= λ c, if Ascii.eqb c quote then [quote; quote] else [c].

Definition csv_field (field : string) : list ascii :=
  let l := String.list_ascii_of_string field in
  if fieldNeedsQuotes field then quote :: escape l ++ [quote] else l.

(** [Writer.Write]: the fields with commas between them, and a line feed. *)
Fixpoint csv_record (fields : list string) : list ascii :=
  match fields with
  | [] => [newline]
  | [field] => csv_field field ++ [newline]
  | field :: fields => csv_field field ++ (","%char :: csv_record fields)
  end.

Section WriteCSV.
(** shopspring/decimal: [decimal.New(amountMinor, -2).StringFixed(2)]. *)
Context (formatAmount : Z → string).

Definition row_record (row : ExpenseRow) : list string :=
  [FormatDate (row_OccurredAt row); row_Title row; row_Category row; row_Currency row;
   formatAmount (row_AmountMinor row); String.concat ";" (row_Tags row)].

Definition total_record (total : CategoryTotal) : list string :=
  [ct_Category total; ct_Currency total; formatAmount (ct_AmountMinor total); Itoa (ct_Count total)].

Definition WriteCSV (data : ReportData) : string :=
  String.string_of_list_ascii (
    csv_record ["date"; "title"; "category"; "currency"; "amount"; "tags"]
    ++ (rd_Rows data ≫= λ row, csv_record (row_record row))
    ++ csv_record []
    ++ csv_record ["category"; "currency"; "total"; "count"]
    ++ (rd_Totals data ≫= λ total, csv_record (total_record total))).
End WriteCSV.

(** *** Reading a record back: RFC 4180 *)

(** What a field turns out to be, and what follows it. *)
Fixpoint read_quoted (l : list ascii) : option (list ascii * list ascii) :=
  match l with
  | [] => None
  | c :: l1 =>
      if Ascii.eqb c quote then
        match l1 with
        | c2 :: l2 =>
            if Ascii.eqb c2 quote then (λ r, (quote :: r.1, r.2)) <$> read_quoted l2 else Some ([], l1)
        | [] => Some ([], [])
        end
      else (λ r, (c :: r.1, r.2)) <$> read_quoted l1
  end.

Fixpoint read_bare (l : list ascii) : list ascii * list ascii :=
  match l with
  | c :: l1 =>
      if Ascii.eqb c "," || Ascii.eqb c newline then ([], l)
      else let r := read_bare l1 in (c :: r.1, r.2)
  | [] => ([], [])
  end.

Definition read_field (l : list ascii) : option (list ascii * list ascii) :=
  match l with
  | c :: l1 => if Ascii.eqb c quote then read_quoted l1 else Some (read_bare l)
  | [] => Some ([], [])
  end.

(** One record of [n] fields, up to and with its line feed. *)
Fixpoint read_record (n : nat) (l : list ascii) : option (list string * list ascii) :=
  match n with
  | O => None
  | S n =>
      '(f, l) ← read_field l;
      match l with
      | c :: l =>
          let field := String.string_of_list_ascii f in
          if Ascii.eqb c newline then Some ([field], l)
          else if Ascii.eqb c "," then (λ r, (field :: r.1, r.2)) <$> read_record n l
          else None
      | [] => None
      end
  end.

Lemma read_quoted_escape l d rest : Ascii.eqb d quote = false →
  read_quoted (escape l ++ quote :: d :: rest) = Some (l, d :: rest).
Proof.
intros Hd. induction l as [|c l IH]; [cbn -[quote]; by rewrite Ascii.eqb_refl, Hd|].
unfold escape in *. cbn [mbind list_bind]. destruct (Ascii.eqb_spec c quote) as [->|Hc].
- cbn -[quote]. rewrite !Ascii.eqb_refl. by rewrite IH.
- cbn -[quote]. rewrite (proj2 (Ascii.eqb_neq c quote) Hc). by rewrite IH.
Qed.

Lemma read_bare_plain l d rest : existsb special l = false → d = ","%char ∨ d = newline →
  read_bare (l ++ d :: rest) = (l, d :: rest).
Proof.
intros Hl Hd. induction l as [|c l IH]; cbn -[newline].
- by destruct Hd as [->| ->].
- cbn -[newline return_ quote] in Hl. apply orb_false_iff in Hl as [Hc Hl]. unfold special in Hc.
  rewrite !orb_false_iff in Hc. destruct Hc as [[[-> _] _] ->]. by rewrite IH.
Qed.

Lemma read_csv_field field d rest : d = ","%char ∨ d = newline →
  read_field (csv_field field ++ d :: rest) = Some (String.list_ascii_of_string field, d :: rest).
Proof.
intros Hd. unfold csv_field. destruct (fieldNeedsQuotes field) eqn:Hq.
- cbn -[quote]. rewrite Ascii.eqb_refl, <- app_assoc. apply read_quoted_escape. by destruct Hd as [->| ->].
- unfold fieldNeedsQuotes in Hq. destruct (String.list_ascii_of_string field) as [|c l] eqn:Hl.
  + cbn -[quote newline]. by destruct Hd as [->| ->].
  + rewrite !orb_false_iff in Hq. destruct Hq as [[_ Hs] _].
    pose proof (read_bare_plain (c :: l) d rest Hs Hd) as Hb. cbn [app] in Hb |- *.
    unfold read_field. cbn [existsb] in Hs. apply orb_false_iff in Hs as [Hc _]. unfold special in Hc.
    rewrite !orb_false_iff in Hc. destruct Hc as [[_ ->] _]. by rewrite Hb.
Qed.

(** A record read back gives its fields, and leaves what follows. *)
Lemma csv_record_reads fields rest : fields ≠ [] →
  read_record (length fields) (csv_record fields ++ rest) = Some (fields, rest).
Proof.
assert (∀ s, String.string_of_list_ascii (String.list_ascii_of_string s) = s) as Hs
  by apply String.string_of_list_ascii_of_string.
induction fields as [|field [|field' fields] IH]; intros Hne; [done| |].
- cbn -[newline]. rewrite <- app_assoc. cbn [app]. rewrite read_csv_field by by right. cbn -[newline].
  by rewrite Hs.
- specialize (IH ltac:(done)). remember (field' :: fields) as tail eqn:Ht.
  assert (csv_record (field :: tail) = csv_field field ++ ","%char :: csv_record tail) as -> by by rewrite Ht.
  rewrite <- app_assoc. cbn [length app read_record]. rewrite read_csv_field by by left.
  cbn -[newline read_record csv_record]. by rewrite IH, Hs.
Qed.

(** The records up to a blank line or the end. *)
Fixpoint read_rows (fuel n : nat) (l : list ascii) : option (list (list string) * list ascii) :=
  match fuel, l with
  | O, _ => None
  | _, [] => Some ([], [])
  | S fuel, c :: l1 =>
      if Ascii.eqb c newline then Some ([], l1)
      else '(record, l) ← read_record n l; '(records, l) ← read_rows fuel n l; Some (record :: records, l)
  end.

(** The two tables of a report file, each with its header. *)
Definition table : Type := list string * list (list string).
Definition read_tables (file : string) : option (table * table) :=
  '(header, l) ← read_record 6 (String.list_ascii_of_string file);
  '(rows, l) ← read_rows (S (length l)) 6 l;
  '(totals_header, l) ← read_record 4 l;
  '(totals, _) ← read_rows (S (length l)) 4 l;
  Some ((header, rows), (totals_header, totals)).

Lemma csv_record_starts field field' fields :
  ∃ c l, csv_record (field :: field' :: fields) = c :: l ∧ Ascii.eqb c newline = false.
Proof.
cbn [csv_record]. unfold csv_field, fieldNeedsQuotes.
destruct (String.list_ascii_of_string field) as [|c l]; [by do 2 eexists|].
destruct (_ || _) eqn:Hq; [by do 2 eexists|]. do 2 eexists. split; [done|].
rewrite !orb_false_iff in Hq. destruct Hq as [[_ Hs] _]. cbn [existsb] in Hs. unfold special in Hs.
rewrite !orb_false_iff in Hs. by destruct Hs as [[[[? _] _] _] _].
Qed.

Lemma read_rows_written {A} (record : A → list string) n (rows : list A) rest tail fuel :
  (2 ≤ n)%nat → (∀ row, length (record row) = n) → rest = [] ∧ tail = [] ∨ rest = newline :: tail →
  (length ((rows ≫= λ row, csv_record (record row)) ++ rest) < fuel)%nat →
  read_rows fuel n ((rows ≫= λ row, csv_record (record row)) ++ rest) = Some (map record rows, tail).
Proof.
intros Hn Hlen Hrest. revert fuel. induction rows as [|row rows IH]; intros [|fuel] Hf; [cbn in Hf; lia| |cbn in Hf; lia|].
{ by destruct Hrest as [[-> ->]| ->]. }
rewrite bind_cons, <- app_assoc in *. pose proof (Hlen row) as Hr.
destruct (record row) as [|f [|f' fs]] eqn:Hrow; cbn in Hr; [lia..|].
destruct (csv_record_starts f f' fs) as (c & l & Hc & Hnl).
pose proof (csv_record_reads (f :: f' :: fs) ((rows ≫= λ row, csv_record (record row)) ++ rest) ltac:(done)) as Hread.
rewrite Hc in *. cbn [app read_rows length map] in *. rewrite Hnl, <- Hr. cbn [mbind option_bind].
rewrite Hread, Hr. cbn [mbind option_bind]. rewrite IH; [by rewrite Hrow|].
rewrite !length_app in *. lia.
Qed.

(** The tables of the file, record by record. *)
Lemma tables_written formatAmount data :
  read_tables (WriteCSV formatAmount data) =
  Some ((["date"; "title"; "category"; "currency"; "amount"; "tags"], map (row_record formatAmount) (rd_Rows data)),
        (["category"; "currency"; "total"; "count"], map (total_record formatAmount) (rd_Totals data))).
Proof.
unfold read_tables, WriteCSV. rewrite String.list_ascii_of_string_of_list_ascii.
rewrite (csv_record_reads ["date"; _; _; _; _; _]) by done. cbn [mbind option_bind].
match goal with |- context [(_ ≫= _) ++ csv_record [] ++ ?rest] => set (totals := rest) end.
rewrite (read_rows_written (row_record formatAmount) 6 _ (csv_record [] ++ totals) totals); [|lia|done|by right|lia].
cbn [mbind option_bind]. unfold totals.
rewrite (csv_record_reads ["category"; _; _; _]) by done. cbn [mbind option_bind].
pose proof (read_rows_written (total_record formatAmount) 4 (rd_Totals data) [] []) as Ht.
rewrite app_nil_r in Ht. rewrite Ht; [done|lia|done|by left|lia].
Qed.

(** *** Reading the cells

    A reader of the file knows its columns by their names and what each holds: a
    day, texts, a decimal amount with two places, a list with semicolons between
    its elements, a count. *)

Definition read_digits (l : list ascii) : option Z :=
  foldl (λ acc c, n ← acc; d ← digit c; Some (10 * n + d)) (Some 0) l.

(** A decimal numeral, with [read] for what follows the sign. *)
Definition read_signed (read : list ascii → option Z) (cell : string) : option Z :=
  match String.list_ascii_of_string cell with
  | c :: l => if Ascii.eqb c "-" then Z.opp <$> read l else read (c :: l)
  | [] => None
  end.
Definition read_count : string → option Z := read_signed read_digits.

(** Hundredths: digits, a point and two more digits. *)
Definition read_amount : string → option Z :=
  read_signed (λ l, match split_at "." l with
    | [whole; cents] => if (length cents =? 2)%nat then read_digits (whole ++ cents) else None
    | _ => None
    end).

Definition read_list (cell : string) : list string := if cell =s "" then [] else Split ";" cell.
Definition read_day (cell : string) : option Time := ParseRFC3339 (cell +:+ "T00:00:00Z").

(** The cell of a record under a column's name. *)
Definition cell (header record : list string) (name : string) : option string :=
  snd <$> List.find (λ c, c.1 =s name) (zip header record).

Definition read_row (header record : list string) : option ExpenseRow :=
  day ← cell header record "date" ≫= read_day;
  title ← cell header record "title";
  category ← cell header record "category";
  currency ← cell header record "currency";
  amount ← cell header record "amount" ≫= read_amount;
  tags ← cell header record "tags";
  Some (mkExpenseRow day title category currency amount (read_list tags)).

Definition read_total (header record : list string) : option CategoryTotal :=
  category ← cell header record "category";
  currency ← cell header record "currency";
  amount ← cell header record "total" ≫= read_amount;
  count ← cell header record "count" ≫= read_count;
  Some (mkCategoryTotal category currency amount count).

(** What a file says: its expenses and its totals. *)
Definition read_report (file : string) : option (list ExpenseRow * list CategoryTotal) :=
  '((header, rows), (totals_header, totals)) ← read_tables file;
  rows ← mapM (read_row header) rows;
  totals ← mapM (read_total totals_header) totals;
  Some (rows, totals).

(** An expense of a year of four digits whose tags are names without a semicolon. *)
Definition plain_row (row : ExpenseRow) : Prop :=
  0 ≤ Year (row_OccurredAt row) ≤ 9999 ∧ Forall (λ tag, no_char ";" tag = true ∧ tag ≠ "") (row_Tags row).

(** The file keeps the day of an expense, not the hour. *)
Definition on_its_day (row : ExpenseRow) : ExpenseRow :=
  mkExpenseRow (row_OccurredAt row - time_of_day (row_OccurredAt row)) (row_Title row) (row_Category row)
    (row_Currency row) (row_AmountMinor row) (row_Tags row).

Lemma read_digits_pretty n : ∀ s,
  read_digits (String.list_ascii_of_string (pretty_N_go n s)) =
  foldl (λ acc c, n ← acc; d ← digit c; Some (10 * n + d)) (Some (Z.of_N n)) (String.list_ascii_of_string s).
Proof.
induction (N.lt_wf_0 n) as [n _ IH]. intros s. destruct (decide (n = 0)%N) as [->|Hn]; [by rewrite pretty_N_go_0|].
rewrite pretty_N_go_step by lia. rewrite IH by (apply N.div_lt; lia). cbn [String.list_ascii_of_string foldl].
assert (digit (pretty_N_char (n mod 10)) = Some (Z.of_N (n mod 10))) as Hd.
{ pose proof (N.mod_lt n 10 ltac:(lia)) as Hlt. revert Hlt. generalize (n mod 10)%N. intros m Hm.
  assert (m = 0 ∨ m = 1 ∨ m = 2 ∨ m = 3 ∨ m = 4 ∨ m = 5 ∨ m = 6 ∨ m = 7 ∨ m = 8 ∨ m = 9)%N as H by lia.
  by destruct_or! H; subst. }
cbn [mbind option_bind]. rewrite Hd. cbn [mbind option_bind]. f_equal. f_equal.
rewrite N2Z.inj_div, N2Z.inj_mod. pose proof (Z.div_mod (Z.of_N n) 10 ltac:(lia)). lia.
Qed.

Lemma read_digits_Itoa n : 0 ≤ n → read_digits (String.list_ascii_of_string (Itoa n)) = Some n.
Proof.
intros Hn. destruct n as [|n|n]; [done| |lia].
change (Itoa (Z.pos n)) with (pretty_N_go (N.pos n) ""). by rewrite read_digits_pretty.
Qed.

Lemma read_digits_minus l : read_digits ("-"%char :: l) = None.
Proof. unfold read_digits. cbn [foldl mbind option_bind]. change (digit "-") with (None : option Z). cbn. by induction l. Qed.

(** A sign in front of what reads back as a magnitude. *)
Lemma read_signed_minus read s : read_signed read ("-" +:+ s) = Z.opp <$> read (String.list_ascii_of_string s).
Proof. done. Qed.
Lemma read_signed_plain read s n : (∀ l, read ("-"%char :: l) = None) →
  read (String.list_ascii_of_string s) = Some n → s ≠ "" → read_signed read s = Some n.
Proof.
intros Hm Hr Hs. unfold read_signed. destruct s as [|c s]; [done|]. cbn [String.list_ascii_of_string] in *.
destruct (Ascii.eqb_spec c "-") as [->|_]; [by rewrite Hm in Hr|exact Hr].
Qed.

Lemma Itoa_ne n : Itoa n ≠ "".
Proof.
intros He. destruct (Z.lt_ge_cases n 0) as [Hn|Hn]; [by destruct n|].
pose proof (read_digits_Itoa n Hn) as Hr. rewrite He in Hr. injection Hr as <-. done.
Qed.

Lemma read_count_Itoa n : read_count (Itoa n) = Some n.
Proof.
destruct (Z.lt_ge_cases n 0) as [Hn|Hn].
- destruct n as [|n|n]; [lia..|]. change (Itoa (Z.neg n)) with ("-" +:+ Itoa (Z.pos n)). unfold read_count.
  rewrite read_signed_minus. by rewrite read_digits_Itoa.
- apply read_signed_plain; [apply read_digits_minus|by apply read_digits_Itoa|apply Itoa_ne].
Qed.

Lemma read_list_tags tags : Forall (λ tag, no_char ";" tag = true ∧ tag ≠ "") tags →
  read_list (String.concat ";" tags) = tags.
Proof.
intros Ht. unfold read_list. destruct tags as [|tag tags]; [done|].
assert (String.concat ";" (tag :: tags) ≠ "") as Hne.
{ apply Forall_cons in Ht as [[_ Ht] _]. by destruct tag, tags. }
rewrite (proj2 (String.eqb_neq _ _) Hne). apply (Split_concat ";"); [|done].
eapply Forall_impl; [exact Ht|]. by intros ? [? _].
Qed.

Section Readable.
(** shopspring/decimal writes an amount of minor units as a decimal numeral with two
    places. *)
Context (formatAmount : Z → string) (amounts : ∀ n, is_int64 n → read_amount (formatAmount n) = Some n).

Lemma row_reads row : plain_row row → is_int64 (row_AmountMinor row) →
  read_row ["date"; "title"; "category"; "currency"; "amount"; "tags"] (row_record formatAmount row) = Some (on_its_day row).
Proof using amounts.
intros [Hy Ht] Ha. unfold read_row, cell, row_record. cbn -[FormatDate read_day read_amount read_list String.concat].
unfold read_day. rewrite date_read by done. cbn [mbind option_bind].
rewrite amounts by done. cbn [mbind option_bind]. by rewrite read_list_tags.
Qed.

Lemma total_reads total : is_int64 (ct_AmountMinor total) →
  read_total ["category"; "currency"; "total"; "count"] (total_record formatAmount total) = Some total.
Proof using amounts.
intros Ha. unfold read_total, cell, total_record. cbn -[read_amount read_count Itoa].
rewrite amounts by done. cbn [mbind option_bind]. rewrite read_count_Itoa. by destruct total.
Qed.

(** [C39] A report's CSV file tells its reader the report: read by the rules of RFC 4180,
    and each cell by the name of its column, it gives back every expense, in order,
    with its day, title, category, currency, amount to the minor unit and tags, and
    every total with its category, currency, amount and count.  Titles, categories and
    currencies may hold any commas, quotes and line breaks; the years have four digits,
    tags are not empty and hold no semicolon, amounts are 64-bit integers, which
    shopspring/decimal writes with two places. *)
Theorem csv_report_roundtrip data :
  Forall plain_row (rd_Rows data) →
  Forall (λ row, is_int64 (row_AmountMinor row)) (rd_Rows data) →
  Forall (λ total, is_int64 (ct_AmountMinor total)) (rd_Totals data) →
  read_report (WriteCSV formatAmount data) = Some (map on_its_day (rd_Rows data), rd_Totals data).
Proof using amounts.
intros Hp Ha Ht. unfold read_report. rewrite tables_written. cbn [mbind option_bind].
assert (mapM (read_row ["date"; "title"; "category"; "currency"; "amount"; "tags"])
  (map (row_record formatAmount) (rd_Rows data)) = Some (map on_its_day (rd_Rows data))) as ->.
{ induction Hp as [|row rows Hr Hp IH]; [done|]. apply Forall_cons in Ha as [Har Ha]. cbn [map mapM].
  rewrite row_reads by done. cbn [mbind option_bind]. by rewrite IH. }
cbn [mbind option_bind].
assert (mapM (read_total ["category"; "currency"; "total"; "count"])
  (map (total_record formatAmount) (rd_Totals data)) = Some (rd_Totals data)) as ->; [|done].
induction Ht as [|total totals Hr Ht IH]; [done|]. cbn [map mapM].
rewrite total_reads by done. cbn [mbind option_bind]. by rewrite IH.
Qed.
End Readable.

(** ** Colours (pdf.go) *)

Record rgb := mkRgb { rgb_r : Z; rgb_g : Z; rgb_b : Z }.

Definition hex_digit (c : ascii) : option Z :=
  let n := Z.of_N (byte_of c) in
  if (48 <=? n) && (n <=? 57) then Some (n - 48)
  else if (97 <=? n) && (n <=? 102) then Some (n - 87)
  else if (65 <=? n) && (n <=? 70) then Some (n - 55)
  else None.

(** [strconv.ParseUint(s, 16, 32)] of at most eight digits. *)
Definition parse_hex (l : list ascii) : option Z :=
  match l with
  | [] => None
  | _ => foldl (λ acc c, v ← acc; d ← hex_digit c; Some (16 * v + d)) (Some 0) l
  end.

Definition trim_hash (l : list ascii) : list ascii :=
  match l with c :: l' => if Ascii.eqb c "#" then l' else l | [] => [] end.

Definition parseHexColor (hex : string) : option rgb :=
  let l := trim_hash (String.list_ascii_of_string hex) in
  if negb (Z.of_nat (length l) =? 6) then None
  else
    value ← parse_hex l;
    Some (mkRgb (Z.land (Z.shiftr value 16) 255) (Z.land (Z.shiftr value 8) 255) (Z.land value 255)).

Definition fallbackPalette : list rgb :=
  [mkRgb 100 116 139; mkRgb 234 179 8; mkRgb 6 182 212; mkRgb 168 85 247; mkRgb 34 197 94; mkRgb 244 63 94].

(** [fnv.New32a]. *)
Definition fnv32a (s : string) : Z :=
  foldl (λ h c, (Z.lxor h (Z.of_N (byte_of c)) * 16777619) mod 2 ^ 32) 2166136261
    (String.list_ascii_of_string s).

Definition categoryColor (name : string) (colors : gmap string string) : rgb :=
  match colors !! name ≫= parseHexColor with
  | Some c => c
  | None => nth (Z.to_nat (fnv32a name mod Z.of_nat (length fallbackPalette))) fallbackPalette (mkRgb 0 0 0)
  end.

Example color_ex : parseHexColor "#2F6fb8" = Some (mkRgb 47 111 184) ∧ parseHexColor "2f6fb" = None ∧
  parseHexColor "zzzzzz" = None.
Proof. vm_compute. done. Qed.

(** ** The dominant currency *)

Definition currency_sums (totals : list CategoryTotal) : gmap string Z :=
  foldl (λ sums t, add_amount (ct_Currency t) (ct_AmountMinor t) sums) ∅ totals.

(** The loop over the sums, in the order [range] visits them. *)
Definition dominant_of (sums : list (string * Z)) : string :=
  (foldl (λ '(dominant, max) '(currency, sum), if (max : Z) <? sum then (currency, sum) else (dominant, max))
    ("", -1) sums).1.

Definition dominantCurrency `{GoRuntime} (totals : list CategoryTotal) : string * list string :=
  let sums := map_range (currency_sums totals) in
  let dominant := dominant_of sums in
  (dominant, sort_slice string_less (List.filter (λ c, negb (c =s dominant)) (map fst sums))).

(** What the donut shows: the dominant currency's totals, largest first, and their
    sum; and the other currencies, for the caption. *)
Definition pie_data `{GoRuntime} (totals : list CategoryTotal)
    : string * list string * list CategoryTotal * Z :=
  let '(currency, others) := dominantCurrency totals in
  let filtered := List.filter (λ t, ct_Currency t =s currency) totals in
  (currency, others, sort_slice (λ x y, ct_AmountMinor y <? ct_AmountMinor x) filtered,
   foldl (λ sum t, wrap64 (sum + ct_AmountMinor t)) 0 filtered).

(** With two currencies spent alike, the one visited first wins. *)
Example dominant_tie : dominant_of [("EUR", 5); ("USD", 5)] = "EUR" ∧
  dominant_of [("USD", 5); ("EUR", 5)] = "USD".
Proof. vm_compute. done. Qed.

(** ** Time buckets *)

(** [for t := start; t.Before(end); t = next(t)]. *)
Fixpoint walk (fuel : nat) (next : Time → Time) (t end_ : Time) : list Time :=
  match fuel with
  | O => []
  | S fuel => if Before t end_ then t :: walk fuel next (next t) end_ else []
  end.

(** Each turn advances by a day at least. *)
Definition walk_fuel (t end_ : Time) : nat := S (Z.to_nat ((end_ - t) / day_ns)).

Definition bucketBoundaries (kind : string) (start end_ : Time) : list Time :=
  let first := Date (Year start) (Month start) 1 0 0 0 0 in
  let bounds :=
    if kind =s "week" then walk (walk_fuel start end_) (λ t, AddDate t 0 0 1) start end_
    else if kind =s "year" then walk (walk_fuel first end_) (λ t, AddDate t 0 1 0) first end_
    else walk (walk_fuel start end_) (λ t, AddDate t 0 0 7) start end_ in
  match bounds with [] => [start] | _ => bounds end.

(** [sort.Search(n, f)] for a predicate that stays true once it is: the first
    index where it holds, or [n]. *)
Fixpoint search {A} (f : A → bool) (l : list A) : Z :=
  match l with
  | [] => 0
  | x :: l => if f x then 0 else 1 + search f l
  end.

Definition bucket_index (bounds : list Time) (t : Time) : Z :=
  let idx := search (λ b, After b t) bounds - 1 in
  if idx <? 0 then 0
  else if Z.of_nat (length bounds) <=? idx then Z.of_nat (length bounds) - 1
  else idx.

(** The amounts of the buckets; the labels are the boundaries' dates. *)
Definition buildTimeBuckets (kind : string) (start end_ : Time) (rows : list ExpenseRow)
    (currency : string) : list (Time * gmap string Z) :=
  let bounds := bucketBoundaries kind start end_ in
  foldl (λ buckets row,
      if row_Currency row ≠s currency then buckets
      else alter (λ b, (b.1, add_amount (row_Category row) (row_AmountMinor row) b.2))
             (Z.to_nat (bucket_index bounds (row_OccurredAt row))) buckets)
    (map (λ b, (b, ∅)) bounds) rows.

(** What the bars show: the total of each category over all buckets, and the tallest
    bar. *)
Definition bar_totals `{GoRuntime} (buckets : list (Time * gmap string Z)) : gmap string Z * Z :=
  foldl (λ '(totals, maxTotal) b,
      let '(totals, sum) := foldl (λ '(totals, sum) '(category, amount),
          (add_amount category amount totals, wrap64 (sum + amount))) (totals, 0) (map_range b.2) in
      (totals, if maxTotal <? sum then sum else maxTotal))
    (∅, 0) buckets.

(** The categories of the stack and its legend, largest total first. *)
Definition bar_categories `{GoRuntime} (totals : gmap string Z) : list string :=
  sort_slice (λ x y, default 0 (totals !! y) <? default 0 (totals !! x)) (map fst (map_range totals)).

(** ** The axis bound *)

Fixpoint magnitude_loop (fuel : nat) (magnitude max : Z) : option Z :=
  match fuel with
  | O => None
  | S fuel =>
      if wrap64 (magnitude * 10) <=? max then magnitude_loop fuel (wrap64 (magnitude * 10)) max
      else Some magnitude
  end.

(** [None] when the loop has not ended after [fuel] turns. *)
Definition niceCeiling (fuel : nat) (max : Z) : option Z :=
  if max <=? 0 then Some 1
  else
    magnitude ← magnitude_loop fuel 1 max;
    Some (default (wrap64 (magnitude * 10))
      (head (List.filter (λ candidate, max <=? candidate) (map (λ step, wrap64 (step * magnitude)) [1; 2; 5; 10])))).

Example nice_ex : niceCeiling 20 187 = Some 200 ∧ niceCeiling 20 1000 = Some 1000 ∧
  niceCeiling 20 51 = Some 100.
Proof. vm_compute. done. Qed.

(** ** The axis bound is the least round number *)

Definition round_number (c : Z) : Prop := ∃ step k, (step = 1 ∨ step = 2 ∨ step = 5) ∧ 0 ≤ k ∧ c = step * 10 ^ k.

Lemma pow10_wrap k : 0 ≤ k ≤ 18 → wrap64 (10 ^ k) = 10 ^ k.
Proof.
intros Hk. apply wrap64_id. unfold is_int64, min_int64, max_int64.
assert (10 ^ k ≤ 10 ^ 18) by (apply Z.pow_le_mono_r; lia). assert (0 < 10 ^ k) by (apply Z.pow_pos_nonneg; lia). lia.
Qed.

Lemma magnitude_spec fuel k max : 0 ≤ k → 10 ^ k ≤ max < 10 ^ 18 → 18 - k ≤ Z.of_nat fuel →
  ∃ k', k ≤ k' ≤ 17 ∧ magnitude_loop fuel (10 ^ k) max = Some (10 ^ k') ∧ 10 ^ k' ≤ max < 10 ^ (k' + 1).
Proof.
revert k. induction fuel as [|fuel IH]; intros k Hk Hmax Hf.
all: assert (k < 18) by (apply (Z.pow_lt_mono_r_iff 10); lia).
{ lia. }
cbn [magnitude_loop].
assert (10 ^ k * 10 = 10 ^ (k + 1)) as -> by (rewrite Z.pow_add_r; lia). rewrite pow10_wrap by lia.
destruct (Z.leb_spec (10 ^ (k + 1)) max); [|exists k; split_and!; lia || done].
destruct (IH (k + 1)) as (k' & ? & Hl & ?); [lia|lia|lia|]. exists k'. split; [lia|done].
Qed.

(** The first of the four multiples that reaches [max]. *)
Lemma first_multiple p max : 0 < p → max ≤ 10 * p →
  ∃ c, (c = p ∨ c = 2 * p ∨ c = 5 * p ∨ c = 10 * p) ∧ max ≤ c ∧
    (∀ c', c' = p ∨ c' = 2 * p ∨ c' = 5 * p ∨ c' = 10 * p → max ≤ c' → c ≤ c') ∧
    default (p * 10) (head (List.filter (λ c, max <=? c) [1 * p; 2 * p; 5 * p; 10 * p])) = c.
Proof.
intros Hp Hmax. cbn [List.filter].
destruct (Z.leb_spec max (1 * p)); [exists p; split_and!; cbn; lia|].
destruct (Z.leb_spec max (2 * p)); [exists (2 * p); split_and!; cbn; lia|].
destruct (Z.leb_spec max (5 * p)); [exists (5 * p); split_and!; cbn; lia|].
destruct (Z.leb_spec max (10 * p)); [|lia]. exists (10 * p). split_and!; cbn; lia.
Qed.

(** The chart's axis ends at the least number of the form one, two or five times
    a power of ten that is not below the tallest bar, and the loop that looks for it
    ends within eighteen turns, for every bar below 10^18 minor units. *)
Theorem axis_bound_least max : 0 < max < 10 ^ 18 →
  ∃ c, niceCeiling 18 max = Some c ∧ round_number c ∧ max ≤ c ∧
    ∀ c', round_number c' → max ≤ c' → c ≤ c'.
Proof.
intros Hmax. destruct (magnitude_spec 18 0 max) as (k & Hk & Hl & Hlo & Hhi); [lia..|].
unfold niceCeiling. rewrite (proj2 (Z.leb_gt max 0)) by lia. change (10 ^ 0) with 1 in Hl. rewrite Hl.
assert (0 < 10 ^ k ≤ 10 ^ 17) as Hp by (split; [apply Z.pow_pos_nonneg|apply Z.pow_le_mono_r]; lia).
cbn [mbind option_bind map]. rewrite !wrap64_id by (unfold is_int64, min_int64, max_int64; lia).
destruct (first_multiple (10 ^ k) max) as (c & Hin & Hle & Hleast & Heq);
  [lia|rewrite Z.pow_add_r in Hhi; lia|].
exists c. split; [by rewrite Heq|]. split; [|split; [done|]].
- assert (10 * 10 ^ k = 10 ^ (k + 1)) by (rewrite Z.pow_add_r; lia).
  destruct Hin as [->|[->|[->| ->]]].
  + exists 1, k. lia.
  + exists 2, k. lia.
  + exists 5, k. lia.
  + exists 1, (k + 1). lia.
- intros c' (step & j & Hs & Hj & ->) Hc'.
  destruct (Z.lt_trichotomy j k) as [Hjk|[->|Hjk]].
  + assert (10 ^ (j + 1) ≤ 10 ^ k) by (apply Z.pow_le_mono_r; lia). rewrite Z.pow_add_r in * by lia. destruct Hs as [->|[->| ->]]; lia.
  + apply Hleast; [|done]. destruct Hs as [->|[->| ->]]; lia.
  + assert (10 ^ (k + 1) ≤ 10 ^ j) by (apply Z.pow_le_mono_r; lia).
    assert (10 * 10 ^ k = 10 ^ (k + 1)) by (rewrite Z.pow_add_r; lia).
    enough (c ≤ 10 * 10 ^ k) by (destruct Hs as [->|[->| ->]]; lia). apply Hleast; lia.
Qed.

(** At the far end of the amounts the product wraps around and the loop goes on for
    ever. *)
Lemma axis_bound_diverges fuel : niceCeiling fuel max_int64 = None.
Proof.
assert (∀ fuel m, magnitude_loop fuel m max_int64 = None) as Hl.
{ induction fuel0 as [|fuel' IH]; intros m; [done|]. cbn [magnitude_loop].
  pose proof (wrap64_range (m * 10)) as Hr. unfold is_int64 in Hr.
  by rewrite (proj2 (Z.leb_le _ _)) by lia. }
unfold niceCeiling. by rewrite Hl.
Qed.

(** ** Every charted amount is counted in its bucket *)

(** One turn of the loops over time: what [P] says of the boundary survives, and
    a day passes at least. *)
Definition advances (P : Time → Prop) (next : Time → Time) : Prop :=
  ∀ u, P u → P (next u) ∧ u + day_ns ≤ next u.

Lemma walk_from P next fuel t0 end_ u : advances P next → P t0 →
  u ∈ walk fuel next t0 end_ → t0 ≤ u.
Proof.
intros Hadv. revert t0. induction fuel as [|fuel IH]; intros t0 HP; cbn; [by intros ?%elem_of_nil|].
unfold Before. destruct (Z.ltb_spec t0 end_); [|by intros ?%elem_of_nil].
intros [->|Hu]%elem_of_cons; [done|]. destruct (Hadv _ HP) as [HP' ?].
apply IH in Hu; [|done]. pose proof day_ns_pos. lia.
Qed.

Lemma search_none {A} (f : A → bool) l : 0 ≤ search f l ≤ Z.of_nat (length l).
Proof. induction l as [|x l IH]; cbn; [lia|]. destruct (f x); lia. Qed.

Lemma walk_cons fuel next t0 end_ : t0 < end_ →
  walk (S fuel) next t0 end_ = t0 :: walk fuel next (next t0) end_.
Proof. intros H. cbn. unfold Before. by rewrite (proj2 (Z.ltb_lt _ _)). Qed.

(** The boundary found for a time is the one whose bucket contains it. *)
Lemma walk_bucket P next fuel t0 end_ t : advances P next → P t0 → t0 ≤ t < end_ →
  t - t0 < Z.of_nat fuel * day_ns →
  1 ≤ search (λ b, After b t) (walk fuel next t0 end_) ∧
  ∀ i u, walk fuel next t0 end_ !! i = Some u →
    (search (λ b, After b t) (walk fuel next t0 end_) - 1 = Z.of_nat i ↔ u ≤ t < next u).
Proof.
intros Hadv. revert t0. induction fuel as [|fuel IH]; intros t0 HP Ht Hf; [lia|].
destruct (Hadv t0 HP) as [HP' Hday]. pose proof day_ns_pos as Hpos.
rewrite walk_cons by lia. cbn [search]. unfold After at 1 3.
rewrite (proj2 (Z.ltb_ge t t0)) by lia.
pose proof (search_none (λ b, After b t) (walk fuel next (next t0) end_)) as Hs.
split; [lia|]. destruct (Z.lt_ge_cases t (next t0)) as [Hin|Hout].
- assert (search (λ b, After b t) (walk fuel next (next t0) end_) = 0) as ->.
  { destruct fuel as [|fuel']; cbn; [done|]. unfold Before, After.
    destruct (next t0 <? end_); cbn; [|done]. by rewrite (proj2 (Z.ltb_lt _ _)) by lia. }
  intros [|i] u; cbn; [intros [= ->]; lia|]. intros Hu%list_elem_of_lookup_2.
  apply (walk_from P) in Hu; [lia|done..].
- destruct (IH (next t0) HP' ltac:(lia) ltac:(lia)) as [H1 Hi].
  intros [|i] u; cbn; [intros [= ->]; lia|]. intros Hu. rewrite <- (Hi i u Hu). lia.
Qed.

(** What [bucketBoundaries] walks with: its first boundary and its step. *)
Definition first_boundary (kind : string) (start : Time) : Time :=
  if kind =s "year" then Date (Year start) (Month start) 1 0 0 0 0 else start.
Definition next_boundary (kind : string) (t : Time) : Time :=
  if kind =s "week" then AddDate t 0 0 1 else if kind =s "year" then AddDate t 0 1 0 else AddDate t 0 0 7.
Definition boundary (kind : string) (t : Time) : Prop :=
  kind = "year" → ∃ mi, t = month_start mi * day_ns.

Lemma next_advances kind : advances (boundary kind) (next_boundary kind).
Proof.
intros u Hu. pose proof day_ns_pos. unfold boundary, next_boundary in *.
destruct (String.eqb_spec kind "week") as [->|_]; [rewrite AddDate_days; split; [done|lia]|].
destruct (String.eqb_spec kind "year") as [->|Hk]; [|rewrite AddDate_days; split; [done|lia]].
destruct (Hu eq_refl) as [mi ->]. rewrite AddDate_month_start. split; [by eexists|].
pose proof (days_in_bounds mi). pose proof (month_start_lt mi (mi + 12 * 0 + 1) ltac:(lia)). nia.
Qed.

Lemma first_boundary_spec kind start : boundary kind (first_boundary kind start) ∧
  first_boundary kind start ≤ start.
Proof.
unfold boundary, first_boundary. destruct (String.eqb_spec kind "year") as [->|Hk]; [|done].
rewrite Date_month_start. fold (month_index start). replace (1 - 1) with 0 by lia.
rewrite !Z.mul_0_l, !Z.add_0_r. split; [by eexists|]. apply month_bucket.
Qed.

Lemma bucketBoundaries_walk kind start end_ : start < end_ →
  bucketBoundaries kind start end_ =
  walk (walk_fuel (first_boundary kind start) end_) (next_boundary kind) (first_boundary kind start) end_.
Proof.
intros Hlt. destruct (first_boundary_spec kind start) as [_ Hle]. unfold bucketBoundaries.
assert (∀ t next, t < end_ → match walk (walk_fuel t end_) next t end_ with
  | [] => [start] | _ => walk (walk_fuel t end_) next t end_ end = walk (walk_fuel t end_) next t end_) as Hf.
{ intros t next Ht. unfold walk_fuel. by rewrite walk_cons. }
unfold first_boundary, next_boundary in *. destruct (String.eqb_spec kind "week") as [->|_]; [by apply Hf|].
destruct (kind =s "year"); apply Hf; lia.
Qed.

(** The bucket a time of the period is counted in is the one that contains it. *)
Lemma bucket_index_spec kind start end_ t : start ≤ t < end_ →
  ∀ i u, bucketBoundaries kind start end_ !! i = Some u →
    (Z.to_nat (bucket_index (bucketBoundaries kind start end_) t) = i ↔ u ≤ t < next_boundary kind u).
Proof.
intros Ht i u. rewrite bucketBoundaries_walk by lia.
destruct (first_boundary_spec kind start) as [Hb Hle].
set (f := first_boundary kind start) in *. set (bounds := walk _ _ _ _). intros Hu.
destruct (walk_bucket (boundary kind) (next_boundary kind) (walk_fuel f end_) f end_ t) as [H1 Hi];
  [apply next_advances|done|lia| |].
{ unfold walk_fuel. pose proof (Z.mul_succ_div_gt (end_ - f) day_ns day_ns_pos).
  pose proof (Z.div_pos (end_ - f) day_ns ltac:(lia) day_ns_pos).
  rewrite Nat2Z.inj_succ, Z2Nat.id, Z.mul_comm by lia. lia. }
fold bounds in H1, Hi. rewrite <- (Hi i u Hu). unfold bucket_index.
pose proof (search_none (λ b, After b t) bounds).
destruct (Z.ltb_spec (search (λ b, After b t) bounds - 1) 0); [lia|].
destruct (Z.leb_spec (Z.of_nat (length bounds)) (search (λ b, After b t) bounds - 1)); lia.
Qed.

(** The sum of the rows that pass a test. *)
Definition row_sum (test : ExpenseRow → bool) (rows : list ExpenseRow) : Z :=
  foldr (λ r t, (if test r then row_AmountMinor r else 0) + t) 0 rows.

Lemma lookup_fold_buckets (step : ExpenseRow → Time * gmap string Z → Time * gmap string Z)
    (test : ExpenseRow → bool) (idx : ExpenseRow → nat) rows
    (buckets : list (Time * gmap string Z)) i :
  foldl (λ bs r, if test r then bs else alter (step r) (idx r) bs) buckets rows !! i =
  (λ b, foldl (λ b r, if test r || negb (bool_decide (idx r = i)) then b else step r b) b rows) <$> buckets !! i.
Proof.
revert buckets. induction rows as [|r rows IH]; intros buckets; cbn; [by destruct (buckets !! i)|].
rewrite IH. destruct (test r); cbn; [done|]. case_bool_decide as Hi; cbn.
- subst i. rewrite list_lookup_alter_eq. by destruct (buckets !! idx r).
- by rewrite list_lookup_alter_ne.
Qed.

Lemma fold_amounts (test : ExpenseRow → bool) rows b cat :
  is_int64 (default 0 (b.2 !! cat)) →
  default 0 ((foldl (λ b r, if test r then b
      else (b.1, add_amount (row_Category r) (row_AmountMinor r) b.2)) b rows).2 !! cat) =
  wrap64 (default 0 ((b : Time * gmap string Z).2 !! cat)
    + row_sum (λ r, negb (test r) && (row_Category r =s cat)) rows).
Proof.
revert b. induction rows as [|r rows IH]; intros b Hb; cbn -[wrap64]; [by rewrite Z.add_0_r, wrap64_id|].
destruct (test r); cbn -[wrap64]; [by rewrite IH|]. rewrite IH; cbn -[wrap64]; unfold add_amount;
  destruct (String.eqb_spec (row_Category r) cat) as [->|Hne].
- rewrite lookup_insert_eq. cbn -[wrap64]. unfold row_sum. wrap64_solve.
- by rewrite lookup_insert_ne.
- rewrite lookup_insert_eq. apply wrap64_range.
- by rewrite lookup_insert_ne.
Qed.

(** For every report period, bucket and category, the bar chart shows the sum of
    exactly those rows of the charted currency and the category that fall between the
    bucket's boundary and the next, in 64-bit arithmetic: no row of the period is
    dropped and none is counted twice. *)
Theorem chart_counts_each_row kind start end_ rows currency i u amounts category :
  start < end_ → Forall (λ r, start ≤ row_OccurredAt r < end_) rows →
  buildTimeBuckets kind start end_ rows currency !! i = Some (u, amounts) →
  default 0 (amounts !! category) =
  wrap64 (row_sum (λ r, (row_Currency r =s currency) && (row_Category r =s category)
                        && (u <=? row_OccurredAt r) && (row_OccurredAt r <? next_boundary kind u)) rows).
Proof.
intros Hlt Hrows Hi. unfold buildTimeBuckets in Hi.
rewrite (lookup_fold_buckets (λ r b, (b.1, add_amount (row_Category r) (row_AmountMinor r) b.2))) in Hi.
rewrite list_lookup_fmap in Hi. destruct (bucketBoundaries kind start end_ !! i) as [v|] eqn:Hv; [|done].
cbn [fmap option_fmap option_map] in Hi. injection Hi as Hi.
match type of Hi with ?fold = _ => assert (fold.1 = v) as Hfst end.
{ clear Hi. generalize (∅ : gmap string Z). induction rows as [|r rows IH]; intros m; cbn; [done|].
  inversion Hrows; subst. destruct (_ || _); by apply IH. }
rewrite Hi in Hfst. cbn in Hfst. subst v.
pose proof (fold_amounts (λ r, (row_Currency r ≠s currency) || negb (bool_decide (Z.to_nat
  (bucket_index (bucketBoundaries kind start end_) (row_OccurredAt r)) = i))) rows (u, ∅) category) as Hf.
change amounts with ((u, amounts).2). rewrite <- Hi. etrans; [apply Hf|].
{ cbn [snd]. rewrite lookup_empty. cbn. unfold is_int64, min_int64, max_int64; lia. }
cbn [snd]. rewrite lookup_empty. cbn [default]. rewrite Z.add_0_l. f_equal.
clear -Hrows Hv. induction Hrows as [|r rows Hr _ IH]; [done|]. unfold row_sum in *. cbn [foldr]. rewrite IH.
f_equal. pose proof (bucket_index_spec kind start end_ _ Hr i u Hv) as Hb.
destruct (row_Currency r =s currency), (row_Category r =s category); cbn; rewrite ?andb_false_r; try done.
case_bool_decide as Hd; cbn.
- apply Hb in Hd. by rewrite (proj2 (Z.leb_le _ _)), (proj2 (Z.ltb_lt _ _)) by lia.
- destruct (Z.leb_spec u (row_OccurredAt r)), (Z.ltb_spec (row_OccurredAt r) (next_boundary kind u)); cbn; try done.
  exfalso. apply Hd, Hb. lia.
Qed.

Module Sample.
Definition title : string := "a,b" +:+ String quote (String newline "c").

Example quoted_fields : String.string_of_list_ascii (csv_record ["x"; title; ""]) =
  "x," +:+ String quote ("a,b" +:+ String quote (String quote (String newline "c" +:+ String quote ","))) +:+ String newline "".
Proof. vm_compute. reflexivity. Qed.

(** Two places, as [StringFixed(2)] writes a number of hundredths. *)
Definition fixed2 (n : Z) : string :=
  (if n <? 0 then "-" else "") +:+ Itoa (Z.abs n / 100) +:+ "." +:+ two_digits (Z.abs n mod 100).

Lemma fixed2_reads n : read_amount (fixed2 n) = Some n.
Proof.
set (read := λ l : list ascii, match split_at "." l with
    | [whole; cents] => if (length cents =? 2)%nat then read_digits (whole ++ cents) else None
    | _ => None end).
set (m := Z.abs n). assert (0 ≤ m) as Hm by lia. set (s := Itoa (m / 100) +:+ "." +:+ two_digits (m mod 100)).
assert (read (String.list_ascii_of_string s) = Some m) as Hr.
{ unfold s, read. rewrite !list_ascii_app. cbn [String.list_ascii_of_string app].
  pose proof (Z.mod_pos_bound m 100 ltac:(lia)) as Hc.
  pose proof (denotes_read 2 _ _ [] (two_digits_denotes (m mod 100) Hc)) as Hd. rewrite app_nil_r in Hd.
  pose proof (read_digits_Itoa (m / 100) ltac:(apply Z.div_pos; lia)) as Hw.
  assert (no_char "." (Itoa (m / 100)) = true) as Hnw
    by (apply Itoa_no_char; [|done..]; intros k; unfold pretty_N_char; by repeat case_match).
  rewrite split_at_app by by apply no_char_Forall.
  destruct (String.list_ascii_of_string (two_digits (m mod 100))) as [|c1 [|c2 l]]; cbn -[digit Z.mul Z.add] in Hd; [done| |].
  { by destruct (digit c1). }
  destruct (digit c1) as [d1|] eqn:H1; [|done]. cbn -[digit Z.mul Z.add] in Hd.
  destruct (digit c2) as [d2|] eqn:H2; [|done]. cbn -[digit Z.mul Z.add] in Hd. injection Hd as Hd ->.
  assert (∀ c d, digit c = Some d → c ≠ "."%char) as Hdot by (intros c d Hcd ->; done).
  rewrite split_at_whole by (repeat constructor; by eapply Hdot). cbn [length Nat.eqb].
  unfold read_digits in *. rewrite foldl_app, Hw. cbn [foldl mbind option_bind]. rewrite H1. cbn [mbind option_bind].
  rewrite H2. cbn [mbind option_bind]. f_equal. pose proof (Z.div_mod m 100 ltac:(lia)). lia. }
assert (∀ l, read ("-"%char :: l) = None) as Hminus.
{ intros l. unfold read. cbn [split_at]. destruct (split_at "." l) as [|whole [|cents [|]]]; try done.
  change (Ascii.eqb "-" ".") with false. cbn iota.
  destruct (length cents =? 2)%nat; [apply read_digits_minus|done]. }
unfold fixed2, read_amount. fold read m s. destruct (Z.ltb_spec n 0).
- rewrite read_signed_minus, Hr. cbn. f_equal. lia.
- change ("" +:+ s) with s. rewrite (read_signed_plain read s m); [f_equal; lia|done|done|].
  intros Hs. by rewrite Hs in Hr.
Qed.

Lemma axis_bound_least_witness :
  0 < 187 < 10 ^ 18 ∧ ∃ c, niceCeiling 18 187 = Some c ∧ ∀ c', round_number c' → 187 ≤ c' → c ≤ c'.
Proof.
assert (0 < 187 < 10 ^ 18) as H by lia. split; [exact H|].
destruct (axis_bound_least 187 H) as (c & H1 & _ & _ & H2). exists c. split; [exact H1|exact H2].
Defined.

(** February and March of a year, in three rows. *)
Definition feb : Time := Date 2024 2 10 12 0 0 0.
Definition rows : list ExpenseRow :=
  [mkExpenseRow feb "Lunch" "Food" "EUR" 700 []; mkExpenseRow feb "Film" "Fun" "EUR" 900 [];
   mkExpenseRow (Date 2024 3 1 0 0 0 0) "Dinner" "Food" "EUR" 1100 []].

(** A title with a comma, a quote and a line break, and two tags. *)
Definition data : ReportData := mkReportData "month" feb (Date 2024 3 2 0 0 0 0) feb "Ann"
  [mkExpenseRow feb title "Food, drinks" "EUR" (-705) ["home"; "party"]] [mkCategoryTotal "Food, drinks" "EUR" (-705) 1] ∅.

Lemma csv_report_roundtrip_witness :
  read_report (WriteCSV fixed2 data) =
  Some ([mkExpenseRow (Date 2024 2 10 0 0 0 0) title "Food, drinks" "EUR" (-705) ["home"; "party"]],
        [mkCategoryTotal "Food, drinks" "EUR" (-705) 1]).
Proof.
rewrite (csv_report_roundtrip fixed2 (λ n _, fixed2_reads n) data); [vm_compute; reflexivity|..];
  repeat constructor; vm_compute; done.
Defined.

Definition year_start : Time := Date 2024 1 1 0 0 0 0.
Definition year_end : Time := Date 2025 1 1 0 0 0 0.

Lemma chart_counts_each_row_witness :
  length (buildTimeBuckets "year" year_start year_end rows "EUR") = 12%nat ∧
  ∀ u amounts, buildTimeBuckets "year" year_start year_end rows "EUR" !! 1%nat = Some (u, amounts) →
    default 0 (amounts !! "Food") = 700.
Proof.
split; [vm_compute; reflexivity|]. intros u amounts Hi.
assert (year_start < year_end) as Hlt by (vm_compute; reflexivity).
assert (Forall (λ r, year_start ≤ row_OccurredAt r < year_end) rows) as Hr
  by (repeat constructor; vm_compute; done).
rewrite (chart_counts_each_row "year" year_start year_end rows "EUR" 1 u amounts "Food" Hlt Hr Hi).
assert (u = Date 2024 2 1 0 0 0 0) as ->.
{ apply (f_equal (fmap fst)) in Hi. vm_compute in Hi. injection Hi as <-. reflexivity. }
vm_compute. reflexivity.
Defined.
End Sample.
