(* ===== verification/Reports.v ===== *)
(** * Periodic reports (src/internal/core/service/reports.go)

    Collecting a period's expenses page by page, rendering and storing the formats
    that are still missing, and one notification for a period that gained a report.
    A run that reports no error leaves every user with every due report, so that
    another run at the same instant does nothing; no two reports are stored for the
    same period and format whatever happens. *)

From S2P Require Import Prelude.
From S2P Require Import GoTime.
From S2P Require Import GoStrings.
From S2P Require Import Domain.
From S2P Require Import Periods.
From S2P Require Import Ports.
From S2P Require Import Memory.
From S2P Require Import MemoryStores.
From S2P Require Import World.
From S2P Require Import ReportFormats.
#[global] Open Scope Z_scope.

Definition reportPageSize : Z := 500.

(** [periodKey]: kind, Unix second of the start, format. *)
Definition periodKey : Type := string * Z * string.
Definition keyFor (r : Report) : periodKey := (rep_PeriodKind r, Unix (rep_PeriodStart r), rep_Format r).

(** The collecting loop has not ended within its fuel. *)
Definition out_of_fuel : error := Sentinel "out of fuel" "out of fuel".

Section Service.
Context `{GoRuntime} {W : Type} `{Env W}.
Context `{ReportRepository W} `{ExpenseRepository W} `{TaxonomyRepository W} `{IdentityRepository W}.
Context `{ObjectStore W} `{NotificationRepository W}.
Context (formatAmount : Z → string) (WritePDF : ReportData → error + string).

(** ** collect *)

Definition row_of (tagNames : gmap string string) (expense : ExpenseRecord) : ExpenseRow :=
  mkExpenseRow (ex_OccurredAt expense) (ex_Title expense)
    (if ex_CategoryName expense =s "" then "Uncategorized" else ex_CategoryName expense)
    (ex_Currency expense) (ex_AmountMinor expense) (omap (λ id, tagNames !! id) (ex_TagIDs expense)).

Definition add_total (row : ExpenseRow) (totals : gmap (string * string) CategoryTotal)
    : gmap (string * string) CategoryTotal :=
  let key := (row_Category row, row_Currency row) in
  let total := default (mkCategoryTotal (row_Category row) (row_Currency row) 0 0) (totals !! key) in
  <[key := total <| ct_AmountMinor ::= λ a, wrap64 (a + row_AmountMinor row) |>
                 <| ct_Count ::= λ n, wrap64 (n + 1) |>]> totals.

(** The body of the inner loop: one expense. *)
Definition collect_one (tagNames : gmap string string)
    (acc : list ExpenseRow * gmap (string * string) CategoryTotal) (expense : ExpenseRecord)
    : list ExpenseRow * gmap (string * string) CategoryTotal :=
  let row := row_of tagNames expense in (acc.1 ++ [row], add_total row acc.2).

Fixpoint collect_pages (fuel : nat) (ownerID : string) (start end_ : Time)
    (tagNames : gmap string string) (offset : Z)
    (acc : list ExpenseRow * gmap (string * string) CategoryTotal)
    : M W (list ExpenseRow * gmap (string * string) CategoryTotal) :=
  match fuel with
  | O => throw out_of_fuel
  | S fuel =>
      expenses ← ListExpenses (mkExpenseListFilter ownerID "" "" [] [] start end_ "" reportPageSize offset);
      let acc := foldl (collect_one tagNames) acc expenses in
      if Z.of_nat (length expenses) <? reportPageSize then mret acc
      else collect_pages fuel ownerID start end_ tagNames (wrap64 (offset + reportPageSize)) acc
  end.

Definition collect (fuel : nat) (ownerID : string) (start end_ : Time)
    : M W (list ExpenseRow * list CategoryTotal * gmap string string) :=
  tags ← wrap_err "list tags" (ListTags ownerID);
  let tagNames : gmap string string := foldl (λ m t, <[tag_ID t := tag_Name t]> m) ∅ tags in
  categories ← wrap_err "list categories" (ListCategories ownerID);
  let categoryColors : gmap string string :=
    foldl (λ m c, if cat_Color c ≠s "" then <[cat_Name c := cat_Color c]> m else m) ∅ categories in
  '(rows, totals) ← collect_pages fuel ownerID start end_ tagNames 0 ([], ∅);
  mret (rows, map snd (map_range totals), categoryColors).

(** ** render, queueReady *)

Definition render (format : ReportFormat) (data : ReportData) : error + (string * string * string) :=
  if format =s ReportFormatCSV then inr (WriteCSV formatAmount data, "csv", "text/csv")
  else if format =s ReportFormatPDF then
    match WritePDF data with
    | inl err => inl err
    | inr body => inr (body, "pdf", "application/pdf")
    end
  else inl (ErrorsNew ("unsupported report format " +:+ quoted format)).

Definition queueReady (ownerID : string) (kind : AnalyticsPeriod) (start now : Time) : M W () :=
  id ← NewString;
  wrap_err "queue report ready notification"
    (QueueNotification (mkNotificationDelivery id ownerID "" NotificationReportReady
      (<["period_kind" := kind]> {["period_start" := FormatRFC3339 start]}) now NotificationPending 0)).

(** ** generatePeriod *)

Definition report_object_key (userID : string) (kind : AnalyticsPeriod) (start : Time) (extension : string)
    : string :=
  "reports/" +:+ userID +:+ "/" +:+ kind +:+ "/" +:+ FormatDate start +:+ "." +:+ extension.

(** The loop over the formats; the accumulator is [createdAny]. *)
Definition generate_format (user : AppUser) (kind : AnalyticsPeriod) (start : Time)
    (done : gmap periodKey ()) (now : Time) (data : ReportData) (createdAny : bool)
    (format : ReportFormat) : M W bool :=
  if decide (is_Some (done !! (kind, Unix start, format))) then mret createdAny
  else
    match render format data with
    | inl err => throw (Errorf ("render " +:+ format +:+ " report: ") err "")
    | inr (body, extension, contentType) =>
        let objectKey := report_object_key (u_ID user) kind start extension in
        wrap_err "store report" (Put objectKey body contentType);;
        id ← NewString;
        saved ← catch (CreateReport (mkReport id (u_ID user) kind start format objectKey now));
        match saved with
        | inl err =>
            if ErrorIs err "ErrReportExists" then mret createdAny
            else throw (Errorf "save report: " err "")
        | inr _ => mret true
        end
    end.

Definition generatePeriod (fuel : nat) (user : AppUser) (kind : AnalyticsPeriod) (start : Time)
    (done : gmap periodKey ()) (now : Time) : M W Z :=
  let end_ := ReportPeriodEnd kind start in
  '(rows, totals, categoryColors) ← wrap_err "collect expenses" (collect fuel (u_ID user) start end_);
  let data := mkReportData kind start end_ now (u_DisplayName user) rows totals categoryColors in
  createdAny ← fold_m (generate_format user kind start done now data) false
    [ReportFormatCSV; ReportFormatPDF];
  if negb createdAny then mret 0
  else queueReady (u_ID user) kind start now;; mret 1.

(** ** GenerateDue *)

Definition run_state : Type := Z * list error.

Definition due_kind (fuel : nat) (user : AppUser) (done : gmap periodKey ()) (now : Time)
    (acc : run_state) (kind : AnalyticsPeriod) : M W run_state :=
  let start := LastCompletedReportPeriod kind now in
  if bool_decide (is_Some (done !! (kind, Unix start, ReportFormatCSV))) &&
     bool_decide (is_Some (done !! (kind, Unix start, ReportFormatPDF)))
  then mret acc
  else
    outcome ← catch (generatePeriod fuel user kind start done now);
    match outcome with
    | inl err => mret (acc.1, acc.2 ++ [Errorf ("generate " +:+ kind +:+ " report for " +:+ u_ID user +:+ ": ") err ""])
    | inr count => mret (wrap64 (acc.1 + count), acc.2)
    end.

Definition due_user (fuel : nat) (now : Time) (acc : run_state) (user : AppUser) : M W run_state :=
  if u_AccessBlocked user then mret acc
  else
    existing ← catch (ListReports (u_ID user));
    match existing with
    | inl err => mret (acc.1, acc.2 ++ [Errorf ("list reports for " +:+ u_ID user +:+ ": ") err ""])
    | inr existing =>
        let done := foldl (λ m r, <[keyFor r := ()]> m) ∅ existing in
        fold_m (due_kind fuel user done now) acc ReportPeriods
    end.

(** The count with [errors.Join(errs...)], which is nil without errors. *)
Definition GenerateDue (fuel : nat) (now : Time) : M W (Z * option error) :=
  users ← wrap_err "list users" ListUsers;
  '(generated, errs) ← fold_m (due_user fuel now) (0, []) users;
  mret (generated, match errs with [] => None | _ => Some (ErrorsJoin errs) end).

Definition service_ListReports (ownerID : string) : M W (list Report) := ListReports ownerID.

Definition service_GetReport (ownerID reportID : string) : M W Report :=
  map_err (λ _, ErrNotFound) (GetReport ownerID reportID).
End Service.
