(* ===== verification/ReportSafety.v ===== *)
(** * What the reports contain, and that each is generated once

    The collecting loop against the expenses it should find, and the runs of
    [GenerateDue] on the whole service. *)

From Stdlib Require Import Ascii.
From S2P Require Import Prelude.
From S2P Require Import GoTime.
From S2P Require Import GoStrings.
From S2P Require Import Domain.
From S2P Require Import Periods.
From S2P Require Import Ports.
From S2P Require Import Memory.
From S2P Require Import MemoryStores.
From S2P Require Import IdentityStore.
From S2P Require Import World.
From S2P Require Import ReportFormats.
From S2P Require Import Reports.
#[global] Open Scope Z_scope.

#[local] Ltac lens := split; intros; by repeat match goal with w : World |- _ => destruct w end.
#[export] Instance L_expenses_laws : LensLaws L_expenses. Proof. lens. Qed.
#[export] Instance L_taxonomy_laws : LensLaws L_taxonomy. Proof. lens. Qed.
#[export] Instance L_reports_laws : LensLaws L_reports. Proof. lens. Qed.
#[export] Instance L_identity_laws : LensLaws L_identity. Proof. lens. Qed.

Lemma zoom_read {W S A} (l : Lens W S) `{!LensLaws l} (m : M S A) w r :
  m (lens_get l w) = (lens_get l w, r) → zoom l m w = (w, r).
Proof. intros Hm. unfold zoom. by rewrite Hm, lens_set_get. Qed.

Section Collect.
Context `{GoRuntime}.

(** The expenses of a period, newest first: what the repository lists for it. *)
Definition period_filter (owner : string) (start end_ : Time) : ExpenseListFilter :=
  mkExpenseListFilter owner "" "" [] [] start end_ "" 0 0.
Definition period_expenses (owner : string) (start end_ : Time) (w : World) : list ExpenseRecord :=
  sort_slice (λ x y, After (ex_OccurredAt x) (ex_OccurredAt y))
    (range_values (expense_listed (period_filter owner start end_)) (w_expenses w)).

(** The expenses fit a machine word, with room for a page. *)
Definition countable (w : World) : Prop := Z.of_nat (size (w_expenses w)) < 2 ^ 62.

Lemma period_length owner start end_ w : Z.of_nat (length (period_expenses owner start end_ w)) ≤
  Z.of_nat (size (w_expenses w)).
Proof using Type.
unfold period_expenses. rewrite (Permutation_length (sort_slice_perm _ _)). apply Nat2Z.inj_le.
apply range_values_length.
Qed.

(** What the filter lets through. *)
Lemma period_listed owner start end_ e : 0 < start → 0 < end_ →
  expense_listed (period_filter owner start end_) e =
  (ex_OwnerID e =s owner) && live (ex_DeletedAt e) && (start <=? ex_OccurredAt e) && (ex_OccurredAt e <? end_).
Proof using Type.
intros Hs He. unfold expense_listed, matchesExpense. cbn -[TrimSpace]. rewrite andb_false_r, orb_false_r.
change (TrimSpace "") with "". unfold IsZero, Before.
destruct (ex_OwnerID e =s owner), (live (ex_DeletedAt e)); cbn; try done.
destruct (Z.eqb_spec start 0), (Z.eqb_spec end_ 0), (Z.leb_spec start (ex_OccurredAt e)),
  (Z.ltb_spec (ex_OccurredAt e) start), (Z.ltb_spec (ex_OccurredAt e) end_); cbn; lia || done.
Qed.

(** One page. *)
Lemma list_page owner start end_ offset w : countable w → 0 ≤ offset →
  ListExpenses (mkExpenseListFilter owner "" "" [] [] start end_ "" reportPageSize offset) w =
  (w, inr (take (Z.to_nat reportPageSize) (drop (Z.to_nat offset) (period_expenses owner start end_ w)))).
Proof using Type.
intros Hc Ho. pose proof (period_length owner start end_ w) as Hlen. unfold countable in Hc.
apply (zoom_read L_expenses). unfold memory_ListExpenses, gets, mbind, M_bind. cbn -[Z.min wrap64].
change (range_values _ (w_expenses w)) with
  (range_values (expense_listed (period_filter owner start end_)) (w_expenses w)).
fold (period_expenses owner start end_ w). set (l := period_expenses owner start end_ w) in *.
unfold reportPageSize. rewrite wrap64_id by (unfold is_int64, min_int64, max_int64; lia).
unfold slice_between. destruct (_ && _ && _) eqn:Hr; [|lia].
unfold mret, M_ret. f_equal. f_equal.
replace (Z.to_nat (Z.min offset (Z.of_nat (length l)))) with (Nat.min (Z.to_nat offset) (length l)) by lia.
destruct (Z.le_gt_cases (Z.of_nat (length l)) offset) as [Hpast|Hin].
- rewrite !drop_ge by lia. by rewrite !take_nil.
- rewrite Nat.min_l by lia. rewrite !(Z.min_l offset) by lia.
  destruct (Z.le_gt_cases (offset + 500) (Z.of_nat (length l))) as [Hfull|Hshort].
  + rewrite Z.min_l by lia. f_equal. lia.
  + rewrite Z.min_r by lia. rewrite !take_ge by (rewrite length_drop; lia). done.
Qed.

(** The loop over the pages sees every expense once. *)
Lemma pages_fold fuel owner start end_ tags acc w (k : nat) : countable w →
  Z.of_nat (length (period_expenses owner start end_ w)) < Z.of_nat k + 500 * Z.of_nat fuel →
  (k ≤ length (period_expenses owner start end_ w))%nat →
  collect_pages fuel owner start end_ tags (Z.of_nat k) acc w =
  (w, inr (foldl (collect_one tags) acc (drop k (period_expenses owner start end_ w)))).
Proof using Type.
intros Hc. revert k acc. induction fuel as [|fuel IH]; intros k acc Hf Hk.
{ lia. }
cbn [collect_pages]. unfold mbind, M_bind. rewrite list_page by (done || lia).
rewrite Nat2Z.id. set (l := period_expenses owner start end_ w) in *. change (Z.to_nat reportPageSize) with 500%nat.
destruct (Z.ltb_spec (Z.of_nat (length (take 500 (drop k l)))) reportPageSize) as [Hs|Hs].
- unfold mret, M_ret. rewrite length_take, length_drop in Hs. unfold reportPageSize in Hs.
  rewrite take_ge by (rewrite length_drop; lia). done.
- rewrite length_take, length_drop in Hs. unfold reportPageSize in *.
  pose proof (period_length owner start end_ w). fold l in H0. unfold countable in Hc.
  replace (wrap64 (Z.of_nat k + 500)) with (Z.of_nat (k + 500)).
  2: { rewrite wrap64_id; [lia|]. unfold is_int64, min_int64, max_int64. lia. }
  rewrite IH by lia. rewrite <- foldl_app, <- drop_drop, take_drop. done.
Qed.

Lemma collect_fold tags acc expenses :
  foldl (collect_one tags) acc expenses =
  (acc.1 ++ map (row_of tags) expenses, foldl (λ m r, add_total r m) acc.2 (map (row_of tags) expenses)).
Proof using Type.
revert acc. induction expenses as [|e expenses IH]; intros acc; cbn [map foldl].
- by rewrite app_nil_r; destruct acc.
- rewrite IH. unfold collect_one. cbn [fst snd]. by rewrite <- app_assoc.
Qed.

(** The total a report owes a category and currency. *)
Definition in_total (category currency : string) (r : ExpenseRow) : bool :=
  (row_Category r =s category) && (row_Currency r =s currency).
Definition total_for (category currency : string) (rows : list ExpenseRow) : CategoryTotal :=
  mkCategoryTotal category currency (wrap64 (row_sum (in_total category currency) rows))
    (wrap64 (Z.of_nat (length (List.filter (in_total category currency) rows)))).

Lemma row_sum_app test rows rows' : row_sum test (rows ++ rows') = row_sum test rows + row_sum test rows'.
Proof using Type. unfold row_sum. induction rows as [|r rows IH]; cbn; [done|]. rewrite IH. lia. Qed.

Lemma total_key category currency r : in_total category currency r = true ↔
  (row_Category r, row_Currency r) = (category, currency).
Proof using Type.
unfold in_total. rewrite andb_true_iff, !String.eqb_eq. split; [by intros [-> ->]|by intros [= -> ->]].
Qed.

Lemma total_amounts rows category currency :
  default (mkCategoryTotal category currency 0 0)
    (foldl (λ m r, add_total r m) ∅ rows !! (category, currency)) = total_for category currency rows.
Proof using Type.
induction rows as [|r rows IH] using rev_ind; [done|].
rewrite foldl_app. cbn [foldl]. unfold add_total at 1.
unfold total_for. rewrite row_sum_app, List.filter_app. unfold row_sum at 2. cbn [foldr List.filter].
destruct (in_total category currency r) eqn:Hr.
- apply total_key in Hr as Hk. injection Hk as -> ->. rewrite lookup_insert_eq. cbn [default]. rewrite IH.
  unfold total_for. cbn -[wrap64]. rewrite length_app. unfold set_field. cbn -[wrap64].
  f_equal; autorewrite with wrap64; f_equal; lia.
- rewrite lookup_insert_ne by (intros Hk; apply total_key in Hk; congruence).
  rewrite IH, app_nil_r, Z.add_0_r. done.
Qed.

Lemma total_present rows category currency :
  is_Some (foldl (λ m r, add_total r m) ∅ rows !! (category, currency)) ↔
  ∃ r, r ∈ rows ∧ in_total category currency r = true.
Proof using Type.
induction rows as [|r rows IH] using rev_ind.
{ cbn. rewrite lookup_empty. split; [by intros []%is_Some_None|by intros (r & ?%elem_of_nil & _)]. }
rewrite foldl_app. cbn [foldl]. unfold add_total at 1. rewrite lookup_insert_is_Some', IH. split.
- intros [Hk|(x & Hx & Ht)]; [exists r|exists x]; (split; [set_solver|]); [by apply total_key|done].
- intros (x & [Hx| ->%list_elem_of_singleton]%elem_of_app & Ht); [right; eauto|left; by apply total_key].
Qed.

(** An entry of the totals is the total of its key. *)
Lemma totals_lookup rows key t : foldl (λ m r, add_total r m) ∅ rows !! key = Some t →
  key = (ct_Category t, ct_Currency t) ∧
  ∃ r, r ∈ rows ∧ t = total_for (row_Category r) (row_Currency r) rows.
Proof using Type.
destruct key as [category currency]. intros Hk. pose proof (total_amounts rows category currency) as Ha.
rewrite Hk in Ha. cbn in Ha. subst t. split; [done|].
destruct (proj1 (total_present rows category currency) (mk_is_Some _ _ Hk)) as (r & Hr & Hin).
exists r. split; [done|]. by apply total_key in Hin as [= <- <-].
Qed.

(** The values of a map whose keys are functions of the values. *)
Lemma range_snd {K V} `{Countable K} (m : gmap K V) v : v ∈ map snd (map_range m) ↔ ∃ k, m !! k = Some v.
Proof using Type.
pose proof (range_values_elem (λ _, true) m v) as Hr. unfold range_values in Hr.
assert (List.filter (λ _ : V, true) (map snd (map_range m)) = map snd (map_range m)) as Hf.
{ clear Hr. induction (map snd (map_range m)) as [|x l IH]; cbn; [done|]. f_equal. exact IH. }
rewrite Hf in Hr. rewrite Hr. naive_solver.
Qed.

Lemma NoDup_range_snd {K V} `{Countable K} (m : gmap K V) (f : V → K) :
  (∀ k v, m !! k = Some v → k = f v) → NoDup (map snd (map_range m)).
Proof using Type.
intros Hf. rewrite (Permutation_map snd (map_range_perm m)). apply (NoDup_fmap_1 f).
assert (f <$> map snd (map_to_list m) = (map_to_list m).*1) as ->; [|apply NoDup_fst_map_to_list].
change (map snd) with (fmap (M := list) (A := K * V) snd). rewrite <- list_fmap_compose.
apply list_fmap_ext. intros i [k v] Hi. cbn. symmetry. apply Hf.
apply elem_of_map_to_list, list_elem_of_lookup. eauto.
Qed.

(** [C36] A report contains the period exactly: its rows are the live expenses its
    owner has with a time in [start, end), newest first, each once, whatever the
    number of pages they take; and its totals are, for each category and currency
    that occurs, their 64-bit sum and their count.  The collecting loop ends. *)
Theorem report_collects_period fuel owner start end_ w :
  countable w → 0 < start → 0 < end_ → Z.of_nat (size (w_expenses w)) < 500 * Z.of_nat fuel →
  ∃ expenses tagNames totals colors,
    collect fuel owner start end_ w = (w, inr (map (row_of tagNames) expenses, totals, colors)) ∧
    expenses ≡ₚ List.filter (λ e, (ex_OwnerID e =s owner) && live (ex_DeletedAt e) &&
        (start <=? ex_OccurredAt e) && (ex_OccurredAt e <? end_)) (map snd (map_to_list (w_expenses w))) ∧
    sorted_by (λ x y, ex_OccurredAt y <? ex_OccurredAt x) expenses ∧
    NoDup totals ∧
    ∀ t, t ∈ totals ↔ ∃ r, r ∈ map (row_of tagNames) expenses ∧
      t = total_for (row_Category r) (row_Currency r) (map (row_of tagNames) expenses).
Proof using Type.
intros Hc Hs He Hf. pose proof (period_length owner start end_ w) as Hlen.
assert (ListTags owner w = (w, inr (owned owner (ts_tags (w_taxonomy w))))) as Ht by by destruct w.
assert (ListCategories owner w = (w, inr (DefaultCategories ++ owned owner (ts_categories (w_taxonomy w))))) as Hcat
  by by destruct w.
unfold collect, wrap_err, map_err, mbind, M_bind. rewrite Ht, Hcat.
match goal with |- context [collect_pages _ _ _ _ ?tags] => set (tagNames := tags) end.
rewrite (pages_fold fuel owner start end_ tagNames ([], ∅) w 0) by (done || lia).
rewrite drop_0, collect_fold. cbn [fst snd app].
set (expenses := period_expenses owner start end_ w). set (rows := map (row_of tagNames) expenses).
eexists expenses, tagNames, _, _. split; [reflexivity|]. split; [|split; [|split]].
- unfold expenses, period_expenses. rewrite (sort_slice_perm _ _), range_values_perm.
  erewrite List.filter_ext; [reflexivity|]. intros e. by apply period_listed.
- apply sort_slice_sorted. repeat split; intros; unfold After in *; lia.
- apply (NoDup_range_snd _ (λ t, (ct_Category t, ct_Currency t))). intros k v Hk. by apply totals_lookup in Hk as [-> _].
- intros t. rewrite range_snd. split.
  + intros [[c k] Hk]. apply totals_lookup in Hk as [Hkey [r [Hr Hv]]]. exists r. split; [done|].
    by injection Hkey as -> ->.
  + intros (r & Hr & ->). exists (row_Category r, row_Currency r).
    destruct (proj2 (total_present rows (row_Category r) (row_Currency r))) as [v Hv].
    { exists r. split; [done|]. by apply total_key. }
    pose proof (total_amounts rows (row_Category r) (row_Currency r)) as Ha.
    etrans; [exact Hv|]. rewrite Hv in Ha. by f_equal.
Qed.
End Collect.

(** ** The runs *)

Section Runs.
Context `{GoRuntime} (formatAmount : Z → string) (WritePDF : ReportData → error + string).

(** An instant whose nanosecond clock fits 64 bits: from 1678 to 2262. *)
Definition dated (t : Time) : Prop := is_int64 (t - unix_epoch).

(** What holds of the reports between operations: each is under its identifier and
    in the index of keys, its file is stored, and no two share a key; the index
    holds nothing else; and the identifiers still to be drawn are new. *)
Record reports_inv (w : World) : Prop := {
  inv_report id r : rs_reports (w_reports w) !! id = Some r →
    is_Some (rs_keys (w_reports w) !! report_key r) ∧ dated (rep_PeriodStart r) ∧
    is_Some ((w_objects w : gmap string storedObject) !! rep_ObjectKey r);
  inv_unique i j r s : rs_reports (w_reports w) !! i = Some r → rs_reports (w_reports w) !! j = Some s →
    report_key r = report_key s → i = j;
  inv_listed k : is_Some (rs_keys (w_reports w) !! k) →
    ∃ id r, rs_reports (w_reports w) !! id = Some r ∧ report_key r = k;
  inv_fresh n : (w_drawn w ≤ n)%nat → rs_reports (w_reports w) !! w_ids w n = None;
  inv_ids n m : w_ids w n = w_ids w m → n = m
}.

(** The table [R] has a report of [owner] under [k]. *)
Definition has (R : gmap string Report) (owner : string) (k : periodKey) : Prop :=
  ∃ id r, R !! id = Some r ∧ rep_OwnerID r = owner ∧ keyFor r = k.

Lemma has_mono R R' owner k : R ⊆ R' → has R owner k → has R' owner k.
Proof using Type. intros Hs (id & r & Hr & Hk). exists id, r. split; [by eapply lookup_weaken|done]. Qed.

(** The invariant, with a table the reports extend and the users unchanged. *)
Definition ready (R : gmap string Report) (users : gmap string AppUser) (w : World) : Prop :=
  reports_inv w ∧ R ⊆ rs_reports (w_reports w) ∧ usersByID (w_identity w) = users.

Lemma ready_stays R users w w' : ready R users w →
  w_reports w' = w_reports w → w_ids w' = w_ids w → (w_drawn w ≤ w_drawn w')%nat →
  (∀ k, is_Some ((w_objects w : gmap string storedObject) !! k) →
        is_Some ((w_objects w' : gmap string storedObject) !! k)) →
  usersByID (w_identity w') = usersByID (w_identity w) → ready R users w'.
Proof using Type.
intros (Hinv & HR & Hu) Hr Hi Hd Ho Hu'. destruct Hinv as [H1 H2 H3 H4 H5].
split; [|split; [by rewrite Hr|congruence]]. split; rewrite ?Hr, ?Hi.
- intros id r Hid. destruct (H1 id r Hid) as (? & ? & ?). auto.
- exact H2.
- exact H3.
- intros n Hn. apply H4. lia.
- exact H5.
Qed.

(** Storing a report. *)
Lemma create_ready R users r w w' id :
  ready R users w → NewString w = (w', inr id) → rep_ID r = id → dated (rep_PeriodStart r) →
  is_Some ((w_objects w : gmap string storedObject) !! rep_ObjectKey r) →
  match CreateReport r w' with
  | (w2, inl e) => ready R users w2 ∧ ErrorIs e "ErrReportExists" = true ∧
      ∃ i s, rs_reports (w_reports w2) !! i = Some s ∧ report_key s = report_key r
  | (w2, inr _) => ready R users w2 ∧ rs_reports (w_reports w2) !! id = Some r
  end.
Proof using Type.
intros (Hinv & HR & Hu) [= <- <-] Hid Hdate Hobj. destruct Hinv as [H1 H2 H3 H4 H5].
pose proof (H4 (w_drawn w) ltac:(lia)) as Hnew. cbn. unfold zoom. cbn.
destruct (rs_keys (w_reports w) !! report_key r) as [[]|] eqn:Hk; cbn.
- split; [eapply (ready_stays R users w); cbn; auto; by split|]. split; [done|]. by apply H3.
- rewrite Hid, lookup_insert_eq. split; [|done].
  assert (∀ i s, rs_reports (w_reports w) !! i = Some s → report_key s ≠ report_key r) as Hother.
  { intros i s Hs Heq. destruct (H1 i s Hs) as [[u Hs'] _]. rewrite Heq, Hk in Hs'. done. }
  split; [|split; cbn; [|done]].
  + split; cbn.
    * intros i s [[<- <-]|[Hi Hs]]%lookup_insert_Some.
      { split; [rewrite lookup_insert_eq; eauto|done]. }
      destruct (H1 i s Hs) as (? & ? & ?). split; [|done]. rewrite lookup_insert_ne; [done|].
      intros Heq. by eapply Hother.
    * intros i j s1 s2 Hs1 Hs2 Heq. apply lookup_insert_Some in Hs1 as [[<- <-]|[Hi Hs1]];
        apply lookup_insert_Some in Hs2 as [[<- <-]|[Hj Hs2]]; [done|..|by eapply H2].
      { exfalso. by eapply Hother. } { exfalso. by eapply Hother. }
    * intros k [<-|[Hne Hs]]%lookup_insert_is_Some.
      { exists (w_ids w (w_drawn w)), r. by rewrite lookup_insert_eq. }
      destruct (H3 k Hs) as (i & s & Hs' & <-). exists i, s. split; [|done].
      rewrite lookup_insert_ne; [done|]. intros <-. congruence.
    * intros n Hn. rewrite lookup_insert_ne; [apply H4; lia|]. intros Heq%H5. lia.
    * exact H5.
  + etrans; [exact HR|by apply insert_subseteq].
Qed.

(** ** One report, one period, one user *)

Variable users : gmap string AppUser.

Lemma nano_exact t u : dated t → dated u → UnixNano t = UnixNano u → t = u.
Proof using Type. unfold dated, UnixNano. intros Ht Hu Heq. rewrite !wrap64_id in Heq by done. lia. Qed.

Lemma key_has R owner kind start format i s r : dated (rep_PeriodStart s) → dated start →
  R !! i = Some s → report_key s = report_key r →
  rep_OwnerID r = owner → rep_PeriodKind r = kind → rep_PeriodStart r = start → rep_Format r = format →
  has R owner (kind, Unix start, format).
Proof using Type.
intros Hs Hr Hi Heq <- <- <- <-. exists i, s. split; [done|]. unfold report_key in Heq.
injection Heq as Ho Hkind Hnano Hf. apply nano_exact in Hnano; [|done..].
unfold keyFor. split; congruence.
Qed.

Lemma put_hoare R key body contentType :
  hoare (ready R users) (Put key body contentType)
    (λ _ w, ready R users w ∧ is_Some ((w_objects w : gmap string storedObject) !! key)) (ready R users).
Proof using Type.
intros w Hw. cbn. unfold mbind, M_bind, zoom, modify. cbn. unfold ObjectMap in *. rewrite lookup_insert_eq. split; [|eauto].
eapply (ready_stays R users w); cbn; auto. intros k Ho.
destruct (decide (key = k)) as [<-|Hne]; [by rewrite lookup_insert_eq; eauto|by rewrite lookup_insert_ne].
Qed.

Lemma store_hoare {A} R owner kind start format key created (k : error + () → M World A) Q E : dated start →
  let report id := mkReport id owner kind start format key created in
  (∀ saved, match saved with inl e => ErrorIs e "ErrReportExists" = true | inr _ => True end →
     hoare (λ w, ready R users w ∧ has (rs_reports (w_reports w)) owner (kind, Unix start, format)) (k saved) Q E) →
  hoare (λ w, ready R users w ∧ is_Some ((w_objects w : gmap string storedObject) !! key))
    (id ← NewString; saved ← catch (CreateReport (report id)); k saved) Q E.
Proof using Type.
intros Hdate report Hk w [Hw Hobj]. unfold mbind at 1, M_bind at 1.
destruct (NewString w) as [w' [e|id]] eqn:Hid; [done|].
pose proof (create_ready R users (report id) w w' id Hw Hid eq_refl Hdate Hobj) as Hc.
unfold mbind, M_bind, catch. destruct (CreateReport (report id) w') as [w2 [e|[]]].
- destruct Hc as (Hw2 & He & i & s & Hi & Heq). apply (Hk (inl e) He w2). split; [done|].
  eapply key_has; [|exact Hdate|exact Hi|exact Heq|done..].
  by destruct Hw2 as [[H1 _ _ _ _] _]; apply H1 in Hi as (_ & ? & _).
- destruct Hc as (Hw2 & Hi). apply (Hk (inr ()) I w2). split; [done|].
  by eapply key_has; [| |exact Hi|..].
Qed.

Lemma format_hoare user kind start done_ now data b format R : dated start →
  (∀ k, is_Some (done_ !! k) → has R (u_ID user) k) →
  hoare (ready R users) (generate_format formatAmount WritePDF user kind start done_ now data b format)
    (λ _ w, ready R users w ∧ has (rs_reports (w_reports w)) (u_ID user) (kind, Unix start, format))
    (ready R users).
Proof using Type.
intros Hdate Hdone. unfold generate_format. case_decide as Hk.
{ intros w Hw. split; [done|]. destruct Hw as (_ & HR & _). eapply has_mono; [exact HR|]. by apply Hdone. }
destruct (render formatAmount WritePDF format data) as [e|[[body ext] ct]]; [by intros w Hw|].
unfold wrap_err.
eapply hoare_bind; [apply hoare_map_err, put_hoare|]. intros ?. apply store_hoare; [done|].
intros [e|[]] He; [rewrite He|]; intros w Hw; exact Hw.
Qed.

(** From a state on, its own table is the one later tables extend. *)
Lemma focus {A} R (φ : gmap string Report → Prop) (m : M World A) Q E :
  (∀ R', R ⊆ R' → φ R' → hoare (ready R' users) m Q E) →
  hoare (λ w, ready R users w ∧ φ (rs_reports (w_reports w))) m Q E.
Proof using Type.
intros Hm w [(Hinv & HR & Hu) Hφ]. by apply (Hm (rs_reports (w_reports w)) HR Hφ w).
Qed.

Lemma ready_weaken R R' w : R ⊆ R' → ready R' users w → ready R users w.
Proof using Type. intros HR (? & ? & ?). split; [done|]. split; [by etrans|done]. Qed.

(** A fold whose turns each achieve [goal], unless they add an error. *)
Lemma fold_hoare {A} (body : run_state → A → M World run_state) (goal : A → gmap string Report → Prop) R0 l :
  (∀ x R R', R ⊆ R' → goal x R → goal x R') →
  (∀ R acc x, x ∈ l → R0 ⊆ R → hoare (ready R users) (body acc x)
    (λ acc' w, ready R users w ∧ (acc'.2 = [] → acc.2 = [] ∧ goal x (rs_reports (w_reports w)))) (ready R users)) →
  ∀ R acc, R0 ⊆ R → hoare (ready R users) (fold_m body acc l)
    (λ acc' w, ready R users w ∧ (acc'.2 = [] → acc.2 = [] ∧ ∀ x, x ∈ l → goal x (rs_reports (w_reports w))))
    (ready R users).
Proof using Type.
intros Hmono Hbody. induction l as [|x l IH]; intros R acc HR; cbn [fold_m].
{ apply hoare_ret. intros w Hw. split; [done|]. intros ?. split; [done|]. by intros ? ?%elem_of_nil. }
eapply hoare_bind; [apply Hbody; [by left|done]|]. intros acc1.
apply (focus R (λ R', acc1.2 = [] → acc.2 = [] ∧ goal x R')). intros R' HR' Hx.
eapply hoare_weaken; [apply IH; [intros; apply Hbody; [by right|done]|by etrans]|done| |intros w; by apply ready_weaken].
cbn. intros acc2 w [Hw Hl]. split; [by eapply ready_weaken|]. intros Hnil. destruct (Hl Hnil) as [H1 Hgoal].
destruct (Hx H1) as [H2 Hgx]. split; [done|]. intros y [->|Hy]%elem_of_cons; [|by apply Hgoal].
eapply Hmono; [|exact Hgx]. apply Hw.
Qed.

Lemma ready_keeps {A} R (m : M World A) : keeps (λ w, w) m →
  hoare (ready R users) m (λ _, ready R users) (ready R users).
Proof using Type. intros Hm. by apply (keeps_hoare (λ w, w) m (ready R users)). Qed.

Lemma read_keeps {S A} (l : Lens World S) `{!LensLaws l} (m : M S A) : keeps (λ s, s) m → keeps (λ w, w) (zoom l m).
Proof using Type.
intros Hm w. unfold zoom. specialize (Hm (lens_get l w)). destruct (m (lens_get l w)) as [s r]. cbn in *. subst s.
apply lens_set_get.
Qed.

Lemma collect_keeps fuel owner start end_ : keeps (λ w : World, w) (collect fuel owner start end_).
Proof using Type.
unfold collect. apply keeps_bind; [by apply keeps_map_err, (read_keeps L_taxonomy)|]. intros tags.
apply keeps_bind; [by apply keeps_map_err, (read_keeps L_taxonomy)|]. intros categories.
apply keeps_bind; [|by intros [rows totals]].
generalize (0 : Z). generalize (@nil ExpenseRow, (∅ : gmap (string * string) CategoryTotal)).
induction fuel as [|fuel IH]; intros acc offset; [done|]. cbn [collect_pages]. apply keeps_bind.
- apply (read_keeps L_expenses). intros s. unfold memory_ListExpenses, mbind, M_bind, gets. cbn.
  unfold slice_between. by destruct (_ && _ && _).
- intros expenses. destruct (_ <? _); [done|]. apply IH.
Qed.

Lemma queue_hoare R user kind start now :
  hoare (ready R users) (queueReady user kind start now) (λ _, ready R users) (ready R users).
Proof using Type.
intros w Hw. cbn. eapply (ready_stays R users w); cbn; auto.
Qed.

Definition both (owner : string) (kind : string) (start : Time) (R : gmap string Report) : Prop :=
  has R owner (kind, Unix start, ReportFormatCSV) ∧ has R owner (kind, Unix start, ReportFormatPDF).

Lemma period_hoare fuel user kind start done_ now R : dated start →
  (∀ k, is_Some (done_ !! k) → has R (u_ID user) k) →
  hoare (ready R users) (generatePeriod formatAmount WritePDF fuel user kind start done_ now)
    (λ _ w, ready R users w ∧ both (u_ID user) kind start (rs_reports (w_reports w))) (ready R users).
Proof using Type.
intros Hdate Hdone. unfold generatePeriod.
eapply hoare_bind; [apply hoare_map_err, ready_keeps, collect_keeps|]. intros [[rows totals] colors].
set (data := mkReportData _ _ _ _ _ _ _ _). cbn [fold_m].
eapply hoare_bind.
{ eapply hoare_bind; [by apply format_hoare|]. intros b1.
  apply (focus R (λ R', has R' (u_ID user) (kind, Unix start, ReportFormatCSV))). intros R1 HR1 Hcsv.
  eapply (hoare_bind _ _ _ (λ _ w, ready R users w ∧ both (u_ID user) kind start (rs_reports (w_reports w)))).
  - eapply hoare_weaken; [apply (format_hoare user kind start done_ now data b1 ReportFormatPDF R1 Hdate)|done| |].
    + intros k Hk. eapply has_mono; [exact HR1|auto].
    + cbn. intros b2 w [Hw Hpdf]. split; [by eapply ready_weaken|]. split; [|done].
      eapply has_mono; [apply Hw|exact Hcsv].
    + intros w Hw. by eapply ready_weaken.
  - intros b2. apply hoare_ret. intros w Hw. exact Hw. }
intros created. destruct created; cbn [negb]; [|by apply hoare_ret].
apply (focus R (both (u_ID user) kind start)). intros R' HR' Hboth.
eapply hoare_bind; [eapply hoare_weaken; [apply (queue_hoare R')|done|intros ? w Hw; exact Hw|]|].
- intros w Hw. by eapply ready_weaken.
- intros ?. apply hoare_ret. intros w Hw. split; [by eapply ready_weaken|].
  destruct Hboth. split; (eapply has_mono; [apply Hw|done]).
Qed.

Lemma done_spec (existing : list Report) (k : periodKey) :
  is_Some (foldl (λ m r, <[keyFor r := ()]> m) (∅ : gmap periodKey ()) existing !! k) ↔
  ∃ r, r ∈ existing ∧ keyFor r = k.
Proof using Type.
induction existing as [|r existing IH] using rev_ind.
{ cbn. rewrite lookup_empty. split; [by intros []%is_Some_None|by intros (r & ?%elem_of_nil & _)]. }
rewrite foldl_app. cbn [foldl]. rewrite lookup_insert_is_Some', IH. split.
- intros [Hk|(x & Hx & Ht)]; [exists r|exists x]; (split; [set_solver|]); done.
- intros (x & [Hx| ->%list_elem_of_singleton]%elem_of_app & Ht); [right; eauto|by left].
Qed.

(** What the service finds already generated for a user. *)
Definition generated (owner : string) (w : World) : list Report :=
  sort_slice (λ x y, After (rep_CreatedAt x) (rep_CreatedAt y))
    (range_values (λ r, rep_OwnerID r =s owner) (rs_reports (w_reports w))).

Lemma list_reports owner w : ListReports owner w = (w, inr (generated owner w)).
Proof using Type. by destruct w. Qed.

Lemma generated_has owner w r : r ∈ generated owner w ↔
  rep_OwnerID r = owner ∧ ∃ id, rs_reports (w_reports w) !! id = Some r.
Proof using Type.
unfold generated. rewrite (sort_slice_perm _ _), range_values_elem. by rewrite String.eqb_eq.
Qed.

(** A user whose due reports all exist. *)
Definition complete (now : Time) (user : AppUser) (R : gmap string Report) : Prop :=
  u_AccessBlocked user = false →
  ∀ kind, kind ∈ ReportPeriods → both (u_ID user) kind (LastCompletedReportPeriod kind now) R.

Lemma both_mono owner kind start R R' : R ⊆ R' → both owner kind start R → both owner kind start R'.
Proof using Type. intros HR [? ?]. split; by eapply has_mono. Qed.

Variable (now : Time).
Hypothesis Hdates : ∀ kind, kind ∈ ReportPeriods → dated (LastCompletedReportPeriod kind now).

Lemma kind_hoare fuel user done_ acc kind R : dated (LastCompletedReportPeriod kind now) →
  (∀ k, is_Some (done_ !! k) → has R (u_ID user) k) →
  hoare (ready R users) (due_kind formatAmount WritePDF fuel user done_ now acc kind)
    (λ acc' w, ready R users w ∧ (acc'.2 = [] → acc.2 = [] ∧
       both (u_ID user) kind (LastCompletedReportPeriod kind now) (rs_reports (w_reports w)))) (ready R users).
Proof using Type.
intros Hk Hdone. unfold due_kind. destruct (_ && _) eqn:Hboth.
- apply andb_prop in Hboth as [Hc%bool_decide_eq_true Hp%bool_decide_eq_true].
  apply hoare_ret. intros w Hw. split; [done|]. intros Hnil. split; [done|].
  apply (both_mono _ _ _ R); [apply Hw|]. split; auto.
- eapply hoare_bind.
  { apply (hoare_catch _ _ (λ outcome w, ready R users w ∧ (is_Some (match outcome with inr _ => Some () | _ => None end) →
      both (u_ID user) kind (LastCompletedReportPeriod kind now) (rs_reports (w_reports w))))).
    eapply hoare_weaken; [by apply period_hoare|done| |].
    - cbn. intros ? w [Hw Hb]. by split.
    - intros w Hw e. split; [done|by intros []%is_Some_None]. }
  intros [e|count]; apply hoare_ret; cbn; intros w [Hw Hb]; (split; [done|]).
  + by intros []%app_nil.
  + intros Hnil. split; [done|]. apply Hb. eauto.
Qed.

Lemma user_hoare fuel acc user R :
  hoare (ready R users) (due_user formatAmount WritePDF fuel now acc user)
    (λ acc' w, ready R users w ∧ (acc'.2 = [] → acc.2 = [] ∧ complete now user (rs_reports (w_reports w))))
    (ready R users).
Proof using Hdates.
unfold due_user. destruct (u_AccessBlocked user) eqn:Hblock.
{ apply hoare_ret. intros w Hw. split; [done|]. intros Hnil. split; [done|]. intros Hb. congruence. }
eapply (hoare_bind _ _ _ (λ existing w, ready R users w ∧
  (∃ l, existing = inr l ∧ ∀ r, r ∈ l → has (rs_reports (w_reports w)) (u_ID user) (keyFor r)))).
{ intros w Hw. unfold catch. rewrite list_reports. split; [done|]. eexists. split; [done|].
  intros r (Ho & id & Hid)%generated_has. by exists id, r. }
intros [e|existing].
{ intros w (_ & l & ? & _). done. }
apply (focus R (λ R', ∃ l, @inr error _ existing = inr l ∧ ∀ r, r ∈ l → has R' (u_ID user) (keyFor r))).
intros R1 HR1 (l & [= <-] & Hex). eapply hoare_weaken.
- apply (fold_hoare _ (λ kind, both (u_ID user) kind (LastCompletedReportPeriod kind now)) R1); [| |done].
  + intros kind R2 R3. apply both_mono.
  + intros R2 acc1 kind Hin HR2. apply kind_hoare; [by apply Hdates|].
    intros k (r & Hr & <-)%done_spec. eapply has_mono; [exact HR2|auto].
- done.
- cbn. intros acc' w [Hw Hgoal]. split; [by eapply ready_weaken|]. intros Hnil.
  destruct (Hgoal Hnil) as [Hacc Hall]. split; [done|]. intros _ kind Hkind. by apply Hall.
- intros w. by apply ready_weaken.
Qed.

Lemma complete_mono user R R' : R ⊆ R' → complete now user R → complete now user R'.
Proof using Type. intros HR Hc Hb kind Hk. eapply both_mono; [exact HR|by apply Hc]. Qed.

(** The users a run goes through. *)
Definition listed_users : list AppUser := range_values (λ _, true) users.

Lemma list_users w : usersByID (w_identity w) = users → ListUsers w = (w, inr listed_users).
Proof using Type. intros Hu. unfold listed_users. rewrite <- Hu. by destruct w. Qed.

Lemma due_hoare fuel R :
  hoare (ready R users) (GenerateDue formatAmount WritePDF fuel now)
    (λ outcome w, ready R users w ∧
       (outcome.2 = None → ∀ user, user ∈ listed_users → complete now user (rs_reports (w_reports w))))
    (ready R users).
Proof using Hdates.
unfold GenerateDue. eapply (hoare_bind _ _ _ (λ l w, ready R users w ∧ l = listed_users)).
{ intros w Hw. unfold wrap_err, map_err. rewrite list_users by apply Hw. by split. }
intros l w [Hw ->]. revert w Hw. change (hoare (ready R users)
  (fold_m (due_user formatAmount WritePDF fuel now) (0, []) listed_users ≫= λ '(count, errs),
     mret (count, match errs with [] => None | _ => Some (ErrorsJoin errs) end))
  (λ outcome w, ready R users w ∧
     (outcome.2 = None → ∀ user, user ∈ listed_users → complete now user (rs_reports (w_reports w))))
  (ready R users)).
eapply hoare_bind.
{ apply (fold_hoare _ (complete now) R); [intros ????; by apply complete_mono| |done].
  intros R2 acc user _ HR2. apply user_hoare. }
intros [count errs]. apply hoare_ret. cbn. intros w [Hw Hall]. split; [done|].
destruct errs; [|done]. intros _. by apply Hall.
Qed.

(** A run over complete users writes nothing. *)
Lemma settled_kind fuel user done_ acc kind w :
  is_Some (done_ !! (kind, Unix (LastCompletedReportPeriod kind now), ReportFormatCSV)) →
  is_Some (done_ !! (kind, Unix (LastCompletedReportPeriod kind now), ReportFormatPDF)) →
  due_kind formatAmount WritePDF fuel user done_ now acc kind w = (w, inr acc).
Proof using Type.
intros Hc Hp. unfold due_kind. by rewrite !bool_decide_eq_true_2.
Qed.

Lemma settled_fold {A} (body : run_state → A → M World run_state) acc l w :
  (∀ x, x ∈ l → body acc x w = (w, inr acc)) → fold_m body acc l w = (w, inr acc).
Proof using Type.
induction l as [|x l IH]; intros Hb; [done|]. cbn. unfold mbind, M_bind. rewrite Hb by by left.
apply IH. intros y Hy. apply Hb. by right.
Qed.

Lemma settled_user fuel acc user w : complete now user (rs_reports (w_reports w)) →
  due_user formatAmount WritePDF fuel now acc user w = (w, inr acc).
Proof using Type.
intros Hc. unfold due_user. destruct (u_AccessBlocked user) eqn:Hb; [done|].
unfold mbind, M_bind, catch. rewrite list_reports. apply settled_fold. intros kind Hk.
destruct (Hc Hb kind Hk) as [(i & r & Hr & Ho & Hkey) (i' & r' & Hr' & Ho' & Hkey')].
apply settled_kind; apply done_spec; [exists r|exists r']; (split; [apply generated_has; eauto|done]).
Qed.
End Runs.

(** [C37] No two stored reports are of the same user, period kind, period start and
    format, and every stored report's file is in the object store: runs of
    [GenerateDue] keep it so, whether they succeed, fail or stop half-way. *)
Theorem reports_unique_and_stored `{GoRuntime} formatAmount WritePDF fuel now w :
  reports_inv w → (∀ kind, kind ∈ ReportPeriods → dated (LastCompletedReportPeriod kind now)) →
  let w' := (GenerateDue formatAmount WritePDF fuel now w).1 in
  reports_inv w' ∧
  ∀ i j r s, rs_reports (w_reports w') !! i = Some r → rs_reports (w_reports w') !! j = Some s →
    is_Some ((w_objects w' : gmap string storedObject) !! rep_ObjectKey r) ∧
    (report_key r = report_key s → i = j).
Proof.
intros Hinv Hdates. cbv zeta.
pose proof (due_hoare formatAmount WritePDF (usersByID (w_identity w)) now Hdates fuel ∅ w) as Hrun.
assert (reports_inv (GenerateDue formatAmount WritePDF fuel now w).1) as Hinv'.
{ destruct (GenerateDue formatAmount WritePDF fuel now w) as [w' [e|o]]; cbn in *;
    apply Hrun; (split; [done|]); split; [apply map_empty_subseteq|done|apply map_empty_subseteq|done]. }
split; [done|]. intros i j r s Hr Hs. split; [by apply (inv_report _ Hinv') in Hr as (_ & _ & ?)|].
by apply (inv_unique _ Hinv').
Qed.

(** A run that reports no error leaves nothing to do: every user with access has
    both formats of the week, month and year last completed, and another run at the
    same instant generates nothing, notifies nobody and changes nothing. *)
Theorem generation_settles `{GoRuntime} formatAmount WritePDF fuel now w w' n :
  reports_inv w → (∀ kind, kind ∈ ReportPeriods → dated (LastCompletedReportPeriod kind now)) →
  GenerateDue formatAmount WritePDF fuel now w = (w', inr (n, None)) →
  (∀ id user, usersByID (w_identity w') !! id = Some user → complete now user (rs_reports (w_reports w'))) ∧
  GenerateDue formatAmount WritePDF fuel now w' = (w', inr (0, None)).
Proof.
intros Hinv Hdates Hrun.
pose proof (due_hoare formatAmount WritePDF (usersByID (w_identity w)) now Hdates fuel ∅ w) as Hh.
rewrite Hrun in Hh. destruct Hh as [(_ & _ & Hu) Hall]; [split; [done|]; split; [apply map_empty_subseteq|done]|].
specialize (Hall eq_refl). split.
- intros id user Hid. apply Hall. unfold listed_users. apply range_values_elem. rewrite <- Hu. eauto.
- unfold GenerateDue, mbind, M_bind, wrap_err, map_err. rewrite (list_users _ _ Hu).
  rewrite settled_fold; [done|]. intros user Hin. apply settled_user. by apply Hall.
Qed.


Module Sample.
Import World.Sample.
#[local] Existing Instance default_runtime.

Definition now : Time := Date 2024 3 5 8 0 0 0.
Definition ann : AppUser := mkAppUser "ann" "ann@example.com" "" "Ann" "" RoleMember false true ∅ true 0 0.
Definition spent (id title category : string) (amount : Z) (at_ : Time) : ExpenseRecord :=
  mkExpenseRecord id "ann" title amount "EUR" at_ "" category [] "" "" [] None None "" "" 0 0 None.
Definition february : Time := Date 2024 2 1 0 0 0 0.
Definition march : Time := Date 2024 3 1 0 0 0 0.

(** Two expenses in February, one in March, and one user. *)
Definition start : World := empty_world
  <| w_expenses := <["a" := spent "a" "Bread" "Food" 300 february]>
      (<["b" := spent "b" "Milk" "Food" 200 (february + 1)]> {["c" := spent "c" "Film" "" 900 march]}) |>
  <| w_identity ::= λ s, s <| usersByID := {["ann" := ann]} |> |>.

Definition pdf (d : ReportData) : error + string := inr "pdf".

Lemma start_inv : reports_inv start.
Proof.
split; cbn.
- intros id r. by rewrite lookup_empty.
- intros i j r s. by rewrite lookup_empty.
- intros k. rewrite lookup_empty. by intros []%is_Some_None.
- intros n _. by rewrite lookup_empty.
- apply sample_id_inj.
Qed.

Lemma dates kind : kind ∈ ReportPeriods → dated (LastCompletedReportPeriod kind now).
Proof.
intros Hk. unfold ReportPeriods in Hk. rewrite !elem_of_cons in Hk.
destruct Hk as [->|[->|[->|[]%elem_of_nil]]]; unfold dated, is_int64; vm_compute; split; discriminate.
Qed.

Example run_generates :
  (GenerateDue Itoa pdf 2 now start).2 = inr (3, None) ∧
  size (rs_reports (w_reports (GenerateDue Itoa pdf 2 now start).1)) = 6%nat.
Proof. split; vm_compute; reflexivity. Qed.

Lemma report_collects_period_witness :
  ∃ expenses tagNames totals colors,
    collect 1 "ann" february march start = (start, inr (map (row_of tagNames) expenses, totals, colors)) ∧
    sorted_by (λ x y, ex_OccurredAt y <? ex_OccurredAt x) expenses ∧
    ∀ t, t ∈ totals ↔ ∃ r, r ∈ map (row_of tagNames) expenses ∧
      t = total_for (row_Category r) (row_Currency r) (map (row_of tagNames) expenses).
Proof.
assert (countable start) as Hc by (vm_compute; reflexivity).
assert (0 < february) as Hf by (vm_compute; reflexivity).
assert (0 < march) as Hm by (vm_compute; reflexivity).
assert (Z.of_nat (size (w_expenses start)) < 500 * Z.of_nat 1) as Hs by (vm_compute; reflexivity).
destruct (report_collects_period 1 "ann" february march start Hc Hf Hm Hs) as (es & tags & totals & colors & H1 & _ & H2 & _ & H3).
exists es, tags, totals, colors. split; [exact H1|]. split; [exact H2|exact H3].
Defined.

Lemma reports_unique_and_stored_witness :
  reports_inv start ∧ reports_inv (GenerateDue Itoa pdf 2 now start).1.
Proof.
split; [apply start_inv|]. apply (reports_unique_and_stored Itoa pdf 2 now start start_inv dates).
Defined.

Definition settled : World := (GenerateDue Itoa pdf 2 now start).1.

Lemma generation_settles_witness :
  GenerateDue Itoa pdf 2 now start = (settled, inr (3, None)) ∧
  GenerateDue Itoa pdf 2 now settled = (settled, inr (0, None)).
Proof.
pose proof (run_is (GenerateDue Itoa pdf 2 now start) (inr (3, None)) (proj1 run_generates)) as Hrun.
fold settled in Hrun.
split; [exact Hrun|]. apply (generation_settles Itoa pdf 2 now start settled 3 start_inv dates Hrun).
Defined.
End Sample.
