(* ===== verification/Analytics.v ===== *)
(** * Analytics queries (src/internal/core/service/analytics.go)

    The read side of the analytics: each query over the precomputed rollups, the
    budgets and the expenses. *)

From S2P Require Export Prelude.
From S2P Require Export GoTime.
From S2P Require Export GoStrings.
From S2P Require Export GoFloat.
From S2P Require Export Domain.
From S2P Require Export Periods.
From S2P Require Export Ports.
#[global] Open Scope Z_scope.

(** ** Durations as floats *)

(** [d.Hours()]. *)
Definition Hours (d : Duration) : float64 :=
  f64_add (f64_of (Z.quot d Hour)) (f64_div (f64_of (Z.rem d Hour)) (f64_of 3600000000000)).

(** ** The queries' results (domain/analytics.go) *)

Record BudgetSuggestion := mkBudgetSuggestion {
  bg_BudgetID : string; bg_CategoryID : string; bg_Currency : string; bg_Message : string;
  bg_SpentMinor : Z; bg_LimitMinor : Z; bg_PercentUsed : Z
}.
Record PeriodComparisonTotal := mkPeriodComparisonTotal {
  pt_Currency : string; pt_CurrentMinor : Z; pt_PreviousMinor : Z; pt_PercentChange : option float64
}.
Record PeriodComparison := mkPeriodComparison {
  pc_Period : AnalyticsPeriod; pc_CurrentStart : Time; pc_PreviousStart : Time;
  pc_Totals : list PeriodComparisonTotal
}.
Record CategoryChange := mkCategoryChange {
  cc_CategoryID : string; cc_Currency : string; cc_CurrentMinor : Z; cc_PreviousMinor : Z;
  cc_PercentChange : option float64; cc_ExpenseCount : Z
}.
Record BurnRate := mkBurnRate {
  br_Period : AnalyticsPeriod; br_PeriodStart : Time; br_PeriodEnd : Time; br_Currency : string;
  br_SpentMinor : Z; br_DaysElapsed : Z; br_DaysTotal : Z; br_AveragePerDayMinor : Z;
  br_ProjectedTotalMinor : Z; br_ExpectedMinor : Z
}.
Record DailyTotal := mkDailyTotal {
  dt_Date : Time; dt_Currency : string; dt_AmountMinor : Z; dt_ExpenseCount : Z
}.
#[export] Instance eta_DailyTotal : Eta DailyTotal := λ r,
  mkDailyTotal (dt_Date r) (dt_Currency r) (dt_AmountMinor r) (dt_ExpenseCount r).
Record WeekdayTotal := mkWeekdayTotal {
  wt_Weekday : Z; wt_Currency : string; wt_AmountMinor : Z; wt_ExpenseCount : Z
}.
#[export] Instance eta_WeekdayTotal : Eta WeekdayTotal := λ r,
  mkWeekdayTotal (wt_Weekday r) (wt_Currency r) (wt_AmountMinor r) (wt_ExpenseCount r).
Record BudgetProgress := mkBudgetProgress {
  bp_BudgetID : string; bp_CategoryID : string; bp_Name : string; bp_Currency : string;
  bp_Period : BudgetPeriod; bp_PeriodStart : Time; bp_PeriodEnd : Time; bp_SpentMinor : Z;
  bp_LimitMinor : Z; bp_PercentUsed : Z
}.

(** ** Helpers *)

Definition defaultTopExpensesLimit : Z := 10.
Definition maxTopExpensesLimit : Z := 50.
Definition defaultCategoryChangesLimit : Z := 10.
Definition maxCategoryChangesLimit : Z := 50.

Definition clampLimit (limit def max : Z) : Z :=
  if limit <=? 0 then def else if max <? limit then max else limit.

Definition percentChange (current previous : Z) : option float64 :=
  if previous =? 0 then None
  else Some (f64_mul (f64_div (f64_of (wrap64 (current - previous))) (f64_of previous)) (f64_of 100)).

Definition budgetPeriodFor (period : AnalyticsPeriod) : BudgetPeriod :=
  if period =s AnalyticsDay then BudgetDaily
  else if period =s AnalyticsWeek then BudgetWeekly
  else if period =s AnalyticsMonth then BudgetMonthly
  else if period =s AnalyticsYear then BudgetYearly
  else "".

Definition sumByCurrency (rollups : list ExpenseRollup) : gmap string Z :=
  foldl (λ sums r, add_amount (ru_Currency r) (ru_AmountMinor r) sums) ∅ rollups.

(** [m[key]]: zero for an absent key. *)
Definition at_key (m : gmap string Z) (key : string) : Z := default 0 (m !! key).

(** An integer division by zero. *)
Definition panic_divide : error := Sentinel "panic" "integer divide by zero".

Section Queries.
Context `{GoRuntime} {W : Type} `{Env W} `{AnalyticsReader W} `{BudgetRepository W} `{ExpenseRepository W}.

(** The union of the keys: those of the first map, then the new ones of the second. *)
Definition unionCurrencyKeys (m1 m2 : gmap string Z) : list string :=
  let keys1 := map fst (map_range m1) in
  let keys2 := List.filter (λ k, negb (bool_decide (k ∈ keys1))) (map fst (map_range m2)) in
  sort_slice string_less (keys1 ++ keys2).

Definition rollups_at (ownerID : string) (period : AnalyticsPeriod) (start : Time) : M W (list ExpenseRollup) :=
  ListExpenseRollups (mkAnalyticsFilter ownerID period start start "" []).

(** ** ListBudgetSuggestions *)

Definition suggest (spent : gmap string Z) (values : list BudgetSuggestion) (budget : BudgetRecord)
    : M W (list BudgetSuggestion) :=
  let value := at_key spent (bd_CategoryID budget) in
  if bd_AmountLimitMinor budget =? 0 then throw panic_divide
  else
    let percent := wrap64 (Z.quot (wrap64 (value * 100)) (bd_AmountLimitMinor budget)) in
    if percent <? bd_ThresholdPercent budget then mret values
    else
      let message := if 100 <=? percent then "You have exceeded this budget."
                     else "You are approaching this budget." in
      mret (values ++ [mkBudgetSuggestion (bd_ID budget) (bd_CategoryID budget) (bd_Currency budget) message
        value (bd_AmountLimitMinor budget) percent]).

Definition ListBudgetSuggestions (ownerID : string) : M W (list BudgetSuggestion) :=
  if ownerID =s "" then throw ErrForbidden
  else
    now ← Now;
    let start := Date (Year now) (Month now) 1 0 0 0 0 in
    rollups ← ListExpenseRollups (mkAnalyticsFilter ownerID AnalyticsMonth start now "" []);
    let spent := foldl (λ m r, add_amount (ru_CategoryID r) (ru_AmountMinor r) m) ∅ rollups in
    budgets ← ListBudgets ownerID [];
    fold_m (suggest spent) [] budgets.

(** ** ListExpenseRollups *)

Definition invalid_period : error := ErrorsNew "invalid analytics period".

Definition service_ListExpenseRollups (filter : AnalyticsFilter) : M W (list ExpenseRollup) :=
  if af_OwnerID filter =s "" then throw ErrForbidden
  else if negb (validPeriod (af_Period filter)) then throw invalid_period
  else ListExpenseRollups filter.

(** ** ComparePeriods *)

Definition ComparePeriods (ownerID : string) (period : AnalyticsPeriod) : M W PeriodComparison :=
  if ownerID =s "" then throw ErrForbidden
  else if negb (validPeriod period) then throw invalid_period
  else
    now ← Now;
    let currentStart := RollupPeriodStart period now in
    let previousStart := previousPeriodStart period currentStart in
    current ← rollups_at ownerID period currentStart;
    previous ← rollups_at ownerID period previousStart;
    let currentByCurrency := sumByCurrency current in
    let previousByCurrency := sumByCurrency previous in
    mret (mkPeriodComparison period currentStart previousStart
      (map (λ currency, mkPeriodComparisonTotal currency (at_key currentByCurrency currency)
              (at_key previousByCurrency currency)
              (percentChange (at_key currentByCurrency currency) (at_key previousByCurrency currency)))
           (unionCurrencyKeys currentByCurrency previousByCurrency))).

(** ** TopCategoryChanges *)

(** [categoryTotals]: current, previous, count. *)
Definition categoryTotals : Type := Z * Z * Z.
Definition changes_of (current previous : list ExpenseRollup) : gmap (string * string) categoryTotals :=
  let byCategory := foldl (λ m r,
      let key := (ru_CategoryID r, ru_Currency r) in
      let '(c, p, n) := default (0, 0, 0) (m !! key) in
      <[key := (wrap64 (c + ru_AmountMinor r), p, wrap64 (n + ru_ExpenseCount r))]> m) ∅ current in
  foldl (λ m r,
      let key := (ru_CategoryID r, ru_Currency r) in
      let '(c, p, n) := default (0, 0, 0) (m !! key) in
      <[key := (c, wrap64 (p + ru_AmountMinor r), n)]> m) byCategory previous.

Definition change_less (x y : CategoryChange) : bool :=
  if negb (cc_CurrentMinor x =? cc_CurrentMinor y) then cc_CurrentMinor y <? cc_CurrentMinor x
  else string_less (cc_CategoryID x) (cc_CategoryID y).

Definition TopCategoryChanges (ownerID : string) (period : AnalyticsPeriod) (limit : Z)
    : M W (list CategoryChange) :=
  if ownerID =s "" then throw ErrForbidden
  else if negb (validPeriod period) then throw invalid_period
  else
    let limit := clampLimit limit defaultCategoryChangesLimit maxCategoryChangesLimit in
    now ← Now;
    let currentStart := RollupPeriodStart period now in
    let previousStart := previousPeriodStart period currentStart in
    current ← rollups_at ownerID period currentStart;
    previous ← rollups_at ownerID period previousStart;
    let changes := sort_slice change_less
      (map (λ '((categoryID, currency), (c, p, n)), mkCategoryChange categoryID currency c p (percentChange c p) n)
           (map_range (changes_of current previous))) in
    mret (if limit <? Z.of_nat (length changes) then take (Z.to_nat limit) changes else changes).

(** ** BurnRate *)

Definition days_total (start end_ : Time) : Z :=
  let n := int_of (f64_div (Hours (Sub end_ start)) (f64_of 24)) in if n <? 1 then 1 else n.
Definition days_elapsed (total : Z) (start now : Time) : Z :=
  let n := int_of (f64_div (Hours (Sub now start)) (f64_of 24)) + 1 in
  let n := if total <? n then total else n in
  if n <? 1 then 1 else n.

Definition service_BurnRate (ownerID : string) (period : AnalyticsPeriod) : M W (list BurnRate) :=
  if ownerID =s "" then throw ErrForbidden
  else if negb (validPeriod period) then throw invalid_period
  else
    now ← Now;
    let start := RollupPeriodStart period now in
    let end_ := periodEnd period start in
    let daysTotal := days_total start end_ in
    let daysElapsed := days_elapsed daysTotal start now in
    rollups ← rollups_at ownerID period start;
    let spent := sumByCurrency rollups in
    let budgetPeriod := budgetPeriodFor period in
    expected ← (if budgetPeriod ≠s "" then
        budgets ← ListBudgets ownerID [];
        mret (foldl (λ m b, if bd_Period b =s budgetPeriod then add_amount (bd_Currency b) (bd_AmountLimitMinor b) m
                            else m) ∅ budgets)
      else mret ∅);
    mret (map (λ currency,
        let average := Z.quot (at_key spent currency) daysElapsed in
        mkBurnRate period start end_ currency (at_key spent currency) daysElapsed daysTotal average
          (wrap64 (average * daysTotal)) (at_key expected currency))
      (unionCurrencyKeys spent expected)).

(** ** DailyTotals *)

Definition day_totals (rollups : list ExpenseRollup) : gmap (Z * string) DailyTotal :=
  foldl (λ m r,
      let key := (UnixNano (ru_PeriodStart r), ru_Currency r) in
      let entry := default (mkDailyTotal (ru_PeriodStart r) (ru_Currency r) 0 0) (m !! key) in
      <[key := entry <| dt_AmountMinor ::= λ a, wrap64 (a + ru_AmountMinor r) |>
                     <| dt_ExpenseCount ::= λ n, wrap64 (n + ru_ExpenseCount r) |>]> m) ∅ rollups.

Definition day_less (x y : DailyTotal) : bool :=
  if negb (dt_Date x =? dt_Date y) then Before (dt_Date x) (dt_Date y)
  else string_less (dt_Currency x) (dt_Currency y).

Definition DailyTotals (ownerID : string) (from to : Time) : M W (list DailyTotal) :=
  if ownerID =s "" then throw ErrForbidden
  else
    rollups ← ListExpenseRollups (mkAnalyticsFilter ownerID AnalyticsDay from to "" []);
    mret (sort_slice day_less (map snd (map_range (day_totals rollups)))).

(** ** WeekdayBreakdown *)

Definition weekday_sums (rollups : list ExpenseRollup) : gmap (Z * string) WeekdayTotal :=
  foldl (λ m r,
      let key := (Weekday (ru_PeriodStart r), ru_Currency r) in
      let entry := default (mkWeekdayTotal key.1 key.2 0 0) (m !! key) in
      <[key := entry <| wt_AmountMinor ::= λ a, wrap64 (a + ru_AmountMinor r) |>
                     <| wt_ExpenseCount ::= λ n, wrap64 (n + ru_ExpenseCount r) |>]> m) ∅ rollups.

Definition week : list Z := [0; 1; 2; 3; 4; 5; 6].

Definition WeekdayBreakdown (ownerID : string) (from to : Time) : M W (list WeekdayTotal) :=
  if ownerID =s "" then throw ErrForbidden
  else
    rollups ← ListExpenseRollups (mkAnalyticsFilter ownerID AnalyticsDay from to "" []);
    let sums := weekday_sums rollups in
    let currencies : gmap string () := foldl (λ m r, <[ru_Currency r := ()]> m) ∅ rollups in
    let currencyList := sort_slice string_less (map fst (map_range currencies)) in
    mret (currencyList ≫= λ currency,
      map (λ weekday, default (mkWeekdayTotal weekday currency 0 0) (sums !! (weekday, currency))) week).

(** ** TopExpenses *)

Definition TopExpenses (ownerID : string) (from to : Time) (limit : Z) : M W (list ExpenseRecord) :=
  if ownerID =s "" then throw ErrForbidden
  else
    let limit := clampLimit limit defaultTopExpensesLimit maxTopExpensesLimit in
    ListExpenses (mkExpenseListFilter ownerID "" "" [] [] from to ExpenseSortAmount limit 0).

(** ** BudgetProgress *)

Definition progress_of (ownerID : string) (now : Time) (values : list BudgetProgress) (budget : BudgetRecord)
    : M W (list BudgetProgress) :=
  let '(start, end_) := BudgetWindow budget now in
  let inclusiveTo := RollupPeriodStart AnalyticsDay (TimeAdd end_ (- Nanosecond)) in
  rollups ← ListExpenseRollups (mkAnalyticsFilter ownerID AnalyticsDay start inclusiveTo (bd_CategoryID budget) []);
  let spent := foldl (λ total r, if ru_Currency r =s bd_Currency budget then wrap64 (total + ru_AmountMinor r)
                                 else total) 0 rollups in
  let percent := if 0 <? bd_AmountLimitMinor budget
                 then wrap64 (Z.quot (wrap64 (spent * 100)) (bd_AmountLimitMinor budget)) else 0 in
  mret (values ++ [mkBudgetProgress (bd_ID budget) (bd_CategoryID budget) (bd_Name budget) (bd_Currency budget)
    (bd_Period budget) start end_ spent (bd_AmountLimitMinor budget) percent]).

Definition service_BudgetProgress (ownerID : string) : M W (list BudgetProgress) :=
  if ownerID =s "" then throw ErrForbidden
  else
    budgets ← ListBudgets ownerID [];
    now ← Now;
    fold_m (progress_of ownerID now) [] budgets.
End Queries.
