(* ===== verification/AnalyticsSafety.v ===== *)
(** * The analytics queries against the ledger of expenses

    The composition of the projection and the queries: what the comparison of
    two periods shows is the sum of the contributions the stream of expense events
    left active, although it is read from precomputed buckets. *)

From S2P Require Import Prelude.
From S2P Require Import GoTime.
From S2P Require Import GoStrings.
From S2P Require Import Domain.
From S2P Require Import Json.
From S2P Require Import Periods.
From S2P Require Import Outbox.
From S2P Require Import AnalyticsProjection.
From S2P Require Import Ports.
From S2P Require Import Memory.
From S2P Require Import World.
From S2P Require Import Analytics.
#[global] Open Scope Z_scope.

(** ** The buckets are filed under their own fields *)

(** An instant whose nanosecond clock fits 64 bits. *)
Definition in_range (t : Time) : Prop := is_int64 (t - unix_epoch).

Lemma nano_inj t u : in_range t → in_range u → UnixNano t = UnixNano u → t = u.
Proof. unfold in_range, UnixNano. intros Ht Hu Heq. rewrite !wrap64_id in Heq by done. lia. Qed.

(** A contribution whose buckets start in range and whose tags are not empty. *)
Definition sane_contribution (c : ExpenseContribution) : Prop :=
  (∀ period, period ∈ RollupPeriods → in_range (RollupPeriodStart period (ec_OccurredAt c))) ∧
  Forall (λ tag, tag ≠ "") (ec_TagIDs c).

Record shaped (s : AnalyticsState) : Prop := {
  shaped_fields k v : an_rollups s !! k = Some v →
    ru_OwnerID v = rk_ownerID k ∧ ru_Period v = rk_period k ∧ ru_Currency v = rk_currency k ∧
    UnixNano (ru_PeriodStart v) = rk_periodStart k ∧ in_range (ru_PeriodStart v);
  shaped_sane id c : an_contributions s !! id = Some c → sane_contribution c
}.

Lemma deltas_start c dir d : d ∈ rollup_deltas c dir → sane_contribution c → in_range (rd_PeriodStart d).
Proof.
unfold rollup_deltas. rewrite list_elem_of_In, in_flat_map. intros (period & Hp & Hd) Hc.
apply list_elem_of_In in Hp. apply Hc in Hp.
destruct Hd as [<-|(tag & <- & _)%in_map_iff]; exact Hp.
Qed.

Lemma add_delta_fields d s : in_range (rd_PeriodStart d) → shaped s → shaped (add_delta d s).
Proof.
intros Hd [Hf Hs]. split; [|exact Hs]. intros k v. unfold add_delta. cbn.
intros [[<- <-]|[_ Hk]]%lookup_insert_Some; [|by apply Hf].
destruct (an_rollups s !! delta_key d) as [v|] eqn:Hv; cbn.
- destruct (Hf _ _ Hv) as (? & ? & ? & ? & ?). by split_and!.
- unfold fresh_rollup, delta_key. destruct (delta_dimension d) as [dim tag]; by split_and!.
Qed.

Lemma add_deltas_fields ds s : (∀ d, d ∈ ds → in_range (rd_PeriodStart d)) → shaped s →
  shaped (foldl (λ s d, add_delta d s) s ds).
Proof.
revert s. induction ds as [|d ds IH]; intros s Hds Hs; [done|]. cbn. apply IH.
- intros d' Hd'. apply Hds. by right.
- apply add_delta_fields; [apply Hds; by left|done].
Qed.

Definition sane_message (m : Message) : Prop :=
  ∀ next, DecodeExpenseContribution (EventType m) (Payload m) = inr (next, true) → sane_contribution next.

Lemma reversed_shaped s id : shaped s → shaped (reversed (an_contributions s !! id) s).
Proof.
intros Hs. unfold reversed. destruct (an_contributions s !! id) as [p|] eqn:Hp; [|done].
destruct (ec_Active p); [|done]. apply add_deltas_fields; [|done]. intros d Hd.
eapply deltas_start; [exact Hd|]. by eapply shaped_sane.
Qed.

Lemma deliver_shaped s m : sane_message m → shaped s → shaped (deliver s m).
Proof.
intros Hm Hs. rewrite deliver_cases. destruct (DecodeExpenseContribution _ _) as [e|[next [|]]] eqn:Hd; [done| |done].
specialize (Hm next Hd). unfold apply_contribution.
pose proof (reversed_shaped s (ec_ExpenseID next) Hs) as Hr.
assert (∀ s' id c, shaped s' → sane_contribution c → shaped (s' <| an_contributions ::= <[id := c]> |>)) as Hsave.
{ intros s' id c [H1 H2] Hc. split; [exact H1|]. cbn. intros i x [[_ <-]|[_ Hx]]%lookup_insert_Some; [done|by eapply H2]. }
destruct (negb (ec_Active next)).
- destruct (an_contributions s !! ec_ExpenseID next) as [p|] eqn:Hp; [|exact Hr].
  apply Hsave; [exact Hr|]. exact (shaped_sane _ Hs _ _ Hp).
- destruct (validateContribution next); [done|]. apply Hsave; [|exact Hm].
  apply add_deltas_fields; [|exact Hr]. intros d Hd'. by eapply deltas_start.
Qed.

(** ** Sums over keys *)

Lemma sumZ_perm l l' : l ≡ₚ l' → sumZ l = sumZ l'.
Proof. unfold sumZ. induction 1; cbn; lia. Qed.

Lemma sumZ_map_add {A} (f g : A → Z) l : sumZ (map (λ x, f x + g x) l) = sumZ (map f l) + sumZ (map g l).
Proof. unfold sumZ. induction l as [|x l IH]; cbn; [done|]. lia. Qed.

Lemma wrap64_sum {A} (f g : A → Z) l : (∀ x, x ∈ l → wrap64 (f x) = wrap64 (g x)) →
  wrap64 (sumZ (map f l)) = wrap64 (sumZ (map g l)).
Proof.
unfold sumZ. induction l as [|x l IH]; intros Hfg; [done|]. cbn.
rewrite <- wrap64_add_l, Hfg, wrap64_add_l by by left.
rewrite <- wrap64_add_r, IH, wrap64_add_r; [done|]. intros y Hy. apply Hfg. by right.
Qed.

Lemma sumZ_zero {A} (f : A → Z) l : (∀ x, x ∈ l → f x = 0) → sumZ (map f l) = 0.
Proof.
unfold sumZ. induction l as [|x l IH]; intros Hf; [done|]. cbn. rewrite Hf by by left.
rewrite IH; [done|]. intros y Hy. apply Hf. by right.
Qed.

Lemma sumZ_ext {A} (f g : A → Z) l : (∀ x, x ∈ l → f x = g x) → sumZ (map f l) = sumZ (map g l).
Proof.
unfold sumZ. induction l as [|x l IH]; intros Hf; [done|]. cbn. rewrite Hf by by left.
rewrite IH; [done|]. intros y Hy. apply Hf. by right.
Qed.

(** Summing rows first or columns first. *)
Lemma sumZ_exchange {A B} (f : A → B → Z) (l : list A) (l' : list B) :
  sumZ (map (λ x, sumZ (map (f x) l')) l) = sumZ (map (λ y, sumZ (map (λ x, f x y) l)) l').
Proof.
induction l as [|x l IH]; cbn.
- symmetry. by apply sumZ_zero.
- change (sumZ (map (f x) l') + sumZ (map (λ x, sumZ (map (f x) l')) l) =
    sumZ (map (λ y, f x y + sumZ (map (λ x, f x y) l)) l')). rewrite IH. by rewrite sumZ_map_add.
Qed.

(** A sum over the keys that counts one of them. *)
Lemma sumZ_pick {K} `{EqDecision K} (k : K) a ks : NoDup ks →
  sumZ (map (λ k', if decide (k = k') then a else 0) ks) = if decide (k ∈ ks) then a else 0.
Proof.
unfold sumZ. induction 1 as [|k' ks Hk Hnd IH]; [done|]. cbn. rewrite IH.
destruct (decide (k = k')) as [<-|Hne].
- rewrite decide_False by done. rewrite decide_True by by left. lia.
- destruct (decide (k ∈ ks)) as [Hin|Hout].
  + by rewrite decide_True by by right.
  + rewrite decide_False; [done|]. by rewrite elem_of_cons; intros [?|?].
Qed.

(** Dropping keys that count nothing. *)
Lemma sumZ_subset {K} `{EqDecision K} (f : K → Z) ks ks' : NoDup ks → NoDup ks' → (∀ k, k ∈ ks → k ∈ ks') →
  (∀ k, k ∈ ks' → k ∉ ks → f k = 0) → sumZ (map f ks') = sumZ (map f ks).
Proof.
intros H1 H2 Hsub Hz.
assert (ks' ≡ₚ ks ++ filter (λ k, k ∉ ks) ks') as Hp.
{ apply NoDup_Permutation; [done| |].
  - apply NoDup_app. split; [done|]. split; [|by apply NoDup_filter].
    intros k Hk. rewrite list_elem_of_filter. by intros [? _].
  - intros k. rewrite elem_of_app, list_elem_of_filter. split; [|naive_solver].
    intros Hk. destruct (decide (k ∈ ks)); [by left|by right]. }
rewrite (sumZ_perm _ _ (Permutation_map f Hp)), map_app, sumZ_app, (sumZ_zero f (filter _ _)); [lia|].
intros k [Hk Hin]%list_elem_of_filter. by apply Hz.
Qed.

(** ** What the buckets of a test hold together *)

Definition contributions (s : AnalyticsState) : list ExpenseContribution :=
  map snd (map_to_list (an_contributions s)).

Lemma total_list part k (m : gmap string ExpenseContribution) :
  AnalyticsProjection.total part k m = sumZ (map (share part k) (map snd (map_to_list m))).
Proof.
unfold AnalyticsProjection.total. rewrite map_fold_foldr. unfold sumZ.
induction (map_to_list m) as [|[i c] l IH]; cbn; [done|]. by rewrite IH.
Qed.

Section Buckets.
Variable test : rollupKey → bool.

Definition bucket_sum (s : AnalyticsState) : Z :=
  sumZ (map (λ kv, ru_AmountMinor kv.2) (List.filter (λ kv, test kv.1) (map_to_list (an_rollups s)))).

(** What a contribution puts into the tested buckets. *)
Definition put_into (c : ExpenseContribution) : Z :=
  if ec_Active c
  then sumZ (map (λ d, if test (delta_key d) then rd_AmountMinor d else 0) (rollup_deltas c 1))
  else 0.

Definition tested_keys (s : AnalyticsState) : list rollupKey :=
  List.filter test (map fst (map_to_list (an_rollups s))).

Lemma bucket_sum_held s : bucket_sum s = sumZ (map (held ru_AmountMinor s) (tested_keys s)).
Proof using Type.
unfold bucket_sum, tested_keys.
assert (∀ l : list (rollupKey * ExpenseRollup), (∀ kv, kv ∈ l → an_rollups s !! kv.1 = Some kv.2) →
  sumZ (map (λ kv, ru_AmountMinor kv.2) (List.filter (λ kv, test kv.1) l)) =
  sumZ (map (held ru_AmountMinor s) (List.filter test (map fst l)))) as Hl.
{ induction l as [|[k v] l IH]; intros Hin; [done|].
  pose proof (Hin (k, v) ltac:(by left)) as Hk. cbn in Hk.
  specialize (IH ltac:(intros kv Hkv; apply Hin; by right)). cbn [List.filter map fst].
  destruct (test k); [|exact IH]. unfold sumZ in *. cbn [map foldr]. rewrite IH. f_equal.
  unfold held. by rewrite Hk. }
apply Hl. intros [k v] Hkv. by apply elem_of_map_to_list in Hkv.
Qed.

Lemma tested_nodup s : NoDup (tested_keys s).
Proof using Type.
unfold tested_keys. pose proof (NoDup_fst_map_to_list (an_rollups s)) as Hn.
change (map fst) with (fmap (M := list) (A := rollupKey * ExpenseRollup) fst).
induction Hn as [|k l Hk _ IH]; cbn; [constructor|]. destruct (test k); [|done]. constructor; [|done].
rewrite list_elem_of_In, filter_In, <- list_elem_of_In. by intros [? _].
Qed.

(** The keys the contributions of [cs] write. *)
Definition written (cs : list ExpenseContribution) : list rollupKey :=
  List.filter test (map delta_key (cs ≫= λ c, rollup_deltas c 1)).

Lemma buckets_match s : balanced ru_AmountMinor rd_AmountMinor s →
  wrap64 (bucket_sum s) = wrap64 (sumZ (map put_into (contributions s))).
Proof using Type.
intros Hb. set (ks := remove_dups (tested_keys s ++ written (contributions s))).
assert (NoDup ks) as Hnd by apply NoDup_remove_dups.
assert (bucket_sum s = sumZ (map (held ru_AmountMinor s) ks)) as ->.
{ rewrite bucket_sum_held. symmetry. apply sumZ_subset; [apply tested_nodup|done| |].
  - intros k Hk. apply elem_of_remove_dups, elem_of_app. by left.
  - intros k Hk Hn. apply elem_of_remove_dups, elem_of_app in Hk as [Hk|Hk]; [done|].
    unfold held. destruct (an_rollups s !! k) as [v|] eqn:Hv; [|done]. exfalso. apply Hn. unfold tested_keys.
    apply list_elem_of_In, filter_In. split; [|by apply list_elem_of_In, filter_In in Hk as [_ ?]].
    apply in_map_iff. exists (k, v). split; [done|]. by apply list_elem_of_In, elem_of_map_to_list. }
rewrite (wrap64_sum _ (λ k, AnalyticsProjection.total rd_AmountMinor k (an_contributions s))).
2: { intros k _. rewrite (Hb k). apply wrap64_wrap64. }
f_equal. rewrite (sumZ_ext _ (λ k, sumZ (map (share rd_AmountMinor k) (contributions s)))) by
  (intros k _; apply total_list).
rewrite sumZ_exchange. apply sumZ_ext. intros c Hc. unfold share, put_into.
destruct (ec_Active c); [|by apply sumZ_zero]. unfold added. rewrite sumZ_exchange. apply sumZ_ext.
intros d Hd. rewrite sumZ_pick by done.
destruct (test (delta_key d)) eqn:Ht.
- rewrite decide_True; [done|]. apply elem_of_remove_dups, elem_of_app. right. unfold written.
  apply list_elem_of_In, filter_In. split; [|done]. apply in_map, list_elem_of_In, list_elem_of_bind.
  by exists c.
- rewrite decide_False; [done|]. intros Hin. apply elem_of_remove_dups, elem_of_app in Hin as [Hin|Hin];
    apply list_elem_of_In, filter_In in Hin as [_ Hin]; congruence.
Qed.
End Buckets.

(** ** The comparison of two periods *)

(** What an owner's active contributions spend in a currency in the period that
    begins at [start]. *)
Definition spent_in (owner currency : string) (period : AnalyticsPeriod) (start : Time) (l : ledger) : Z :=
  sumZ (map (λ c, if ec_Active c && (ec_OwnerID c =s owner) && (ec_Currency c =s currency)
                     && (RollupPeriodStart period (ec_OccurredAt c) =? start)
                  then ec_AmountMinor c else 0) (map snd (map_to_list l))).

(** The category buckets it is read from. *)
Definition comparison_key (owner currency : string) (period : AnalyticsPeriod) (start : Time)
    (k : rollupKey) : bool :=
  negb (rk_tag k) && (rk_ownerID k =s owner) && (rk_currency k =s currency) &&
  (rk_period k =s period) && (rk_periodStart k =? UnixNano start).

Lemma put_into_comparison owner currency period start c : period ∈ RollupPeriods → in_range start →
  sane_contribution c →
  wrap64 (put_into (comparison_key owner currency period start) c) =
  wrap64 (if ec_Active c && (ec_OwnerID c =s owner) && (ec_Currency c =s currency)
             && (RollupPeriodStart period (ec_OccurredAt c) =? start) then ec_AmountMinor c else 0).
Proof.
intros Hp Hstart [Hrange Htags]. unfold put_into. destruct (ec_Active c); [|done]. cbn [andb].
assert (∀ p d, d = mkRollupDelta (ec_OwnerID c) (ec_CategoryID c) "" (ec_Currency c) p
    (RollupPeriodStart p (ec_OccurredAt c)) (wrap64 (ec_AmountMinor c * 1)) 1 →
  sumZ (map (λ d, if comparison_key owner currency period start (delta_key d) then rd_AmountMinor d else 0)
    (d :: map (λ tagID, d <| rd_CategoryID := "" |> <| rd_TagID := tagID |>) (ec_TagIDs c))) =
  if (p =s period) && ((ec_OwnerID c =s owner) && (ec_Currency c =s currency)
     && (RollupPeriodStart period (ec_OccurredAt c) =? start)) then wrap64 (ec_AmountMinor c) else 0) as Hone.
{ intros p d ->. cbn [map]. unfold sumZ at 1. cbn [foldr].
  change (foldr Z.add 0 ?l) with (sumZ l). rewrite map_map, sumZ_zero.
  2: { intros tag Htag. rewrite Forall_forall in Htags. specialize (Htags tag Htag).
    unfold comparison_key, delta_key, delta_dimension. cbn. by rewrite (proj2 (String.eqb_neq tag "")). }
  rewrite Z.add_0_r, Z.mul_1_r. unfold comparison_key, delta_key, delta_dimension. cbn.
  destruct (String.eqb_spec p period) as [->|_]; [|by rewrite !andb_false_r].
  rewrite andb_true_r. cbn [andb].
  destruct (ec_OwnerID c =s owner), (ec_Currency c =s currency); cbn; try done.
  destruct (Z.eqb_spec (UnixNano (RollupPeriodStart period (ec_OccurredAt c))) (UnixNano start)) as [Heq|Hne],
    (Z.eqb_spec (RollupPeriodStart period (ec_OccurredAt c)) start) as [Heq'|Hne']; try done; [|congruence].
  by apply nano_inj in Heq; [|apply Hrange|]. }
unfold rollup_deltas, RollupPeriods in *. cbn [flat_map].
rewrite !map_app, !sumZ_app. cbv zeta.
rewrite !(Hone _ _ eq_refl).
set (b := (_ && _ && (_ =? start))). clearbody b.
rewrite !elem_of_cons in Hp. destruct Hp as [->|[->|[->|[->|[]%elem_of_nil]]]]; cbn; destruct b;
  cbn -[wrap64]; rewrite ?Z.add_0_r, ?Z.add_0_l, ?wrap64_wrap64; done.
Qed.

Section Comparison.
Context `{GoRuntime}.

(** What a query's buckets hold in a currency. *)
Definition currency_sum (currency : string) (rollups : list ExpenseRollup) : Z :=
  sumZ (map (λ r, if ru_Currency r =s currency then ru_AmountMinor r else 0) rollups).

Lemma sumByCurrency_at rollups currency :
  at_key (sumByCurrency rollups) currency = wrap64 (currency_sum currency rollups) ∧
  (currency ∈ map ru_Currency rollups → is_Some (sumByCurrency rollups !! currency)).
Proof using Type.
assert (∀ rs m, default 0 (m !! currency) = wrap64 (default 0 (m !! currency)) →
  default 0 (foldl (λ sums r, add_amount (ru_Currency r) (ru_AmountMinor r) sums) m rs !! currency) =
    wrap64 (default 0 (m !! currency) + currency_sum currency rs) ∧
  (is_Some (m !! currency) ∨ currency ∈ map ru_Currency rs →
    is_Some (foldl (λ sums r, add_amount (ru_Currency r) (ru_AmountMinor r) sums) m rs !! currency))) as Hfold.
{ intros rs. induction rs as [|r rs IH]; intros m Hm; cbn [foldl map].
  - unfold currency_sum, sumZ. cbn. rewrite Z.add_0_r. split; [done|]. by intros [?|[]%elem_of_nil].
  - unfold currency_sum, sumZ in *. cbn [map foldr].
    destruct (IH (add_amount (ru_Currency r) (ru_AmountMinor r) m)) as [IH1 IH2];
      unfold add_amount in *; destruct (String.eqb_spec (ru_Currency r) currency) as [<-|Hne].
    all: rewrite ?lookup_insert_eq, ?(lookup_insert_ne _ _ _ _ Hne) in *; cbn -[wrap64] in *.
    + by rewrite wrap64_wrap64.
    + done.
    + rewrite IH1, wrap64_add_l. split; [f_equal; lia|]. intros _. apply IH2. left. by eexists.
    + rewrite IH1, Z.add_0_l. split; [done|]. intros [Hs|[Hs|Hs]%elem_of_cons]; apply IH2; [by left|congruence|by right]. }
unfold at_key, sumByCurrency. destruct (Hfold rollups ∅) as [H1 H2]; [by rewrite lookup_empty|].
rewrite lookup_empty in H1. cbn [default] in H1. rewrite Z.add_0_l in H1. split; [exact H1|]. intros Hin. apply H2. by right.
Qed.

Lemma currency_sum_absent currency rollups : currency ∉ map ru_Currency rollups → currency_sum currency rollups = 0.
Proof using Type.
intros Hn. apply sumZ_zero. intros r Hr. destruct (String.eqb_spec (ru_Currency r) currency) as [Heq|]; [|done].
destruct Hn. apply list_elem_of_In. rewrite <- Heq. by apply in_map, list_elem_of_In.
Qed.

Definition period_filter (owner : string) (period : AnalyticsPeriod) (start : Time) : AnalyticsFilter :=
  mkAnalyticsFilter owner period start start "" [].

Lemma rollup_matches_key owner currency period start s k v : shaped s → in_range start →
  an_rollups s !! k = Some v →
  rollup_matches (period_filter owner period start) (k, v) && (ru_Currency v =s currency) =
  comparison_key owner currency period start k.
Proof using Type.
intros Hs Hr Hk. destruct (shaped_fields _ Hs _ _ Hk) as (Ho & Hp & Hc & Hn & Hv).
unfold rollup_matches, comparison_key. cbn. rewrite Ho, Hp, Hc, <- Hn.
destruct (rk_tag k); cbn; [done|].
destruct (rk_ownerID k =s owner), (rk_currency k =s currency), (rk_period k =s period);
  cbn; rewrite ?andb_true_r, ?andb_false_r; try done.
unfold Before, After. destruct (Z.eqb_spec (UnixNano (ru_PeriodStart v)) (UnixNano start)) as [Heq|Hne].
- apply nano_inj in Heq; [|done..]. rewrite Heq, Z.ltb_irrefl. done.
- destruct (Z.ltb_spec (ru_PeriodStart v) start), (Z.ltb_spec start (ru_PeriodStart v)); cbn; try done.
  assert (ru_PeriodStart v = start) by lia. congruence.
Qed.

Lemma currency_sum_buckets owner currency period start s : shaped s → in_range start →
  currency_sum currency (memory_ListExpenseRollups (period_filter owner period start) s) =
  bucket_sum (comparison_key owner currency period start) s.
Proof using Type.
intros Hs Hr. unfold currency_sum, memory_ListExpenseRollups, bucket_sum.
rewrite (sumZ_perm _ (map (λ r, if ru_Currency r =s currency then ru_AmountMinor r else 0)
  (map snd (List.filter (rollup_matches (period_filter owner period start)) (map_to_list (an_rollups s)))))).
2: { apply Permutation_map, Permutation_map, filter_perm, map_range_perm. }
assert (∀ l : list (rollupKey * ExpenseRollup), (∀ kv, kv ∈ l → an_rollups s !! kv.1 = Some kv.2) →
  sumZ (map (λ r, if ru_Currency r =s currency then ru_AmountMinor r else 0)
    (map snd (List.filter (rollup_matches (period_filter owner period start)) l))) =
  sumZ (map (λ kv, ru_AmountMinor kv.2) (List.filter (λ kv, comparison_key owner currency period start kv.1) l))) as Hl.
{ unfold sumZ. induction l as [|[k v] l IH]; intros Hin; [done|].
  specialize (IH ltac:(intros kv Hkv; apply Hin; by right)). pose proof (Hin (k, v) ltac:(by left)) as Hk.
  cbn [List.filter map fst]. rewrite <- (rollup_matches_key owner currency period start s k v Hs Hr Hk).
  destruct (rollup_matches _ (k, v)); cbn; [|exact IH]. rewrite IH.
  destruct (ru_Currency v =s currency); cbn; [done|lia]. }
apply Hl. intros [k v] Hkv. by apply elem_of_map_to_list in Hkv.
Qed.

(** The buckets of a period hold what its contributions spend. *)
Lemma currency_sum_spent owner currency period start s :
  shaped s → balanced ru_AmountMinor rd_AmountMinor s → period ∈ RollupPeriods → in_range start →
  at_key (sumByCurrency (memory_ListExpenseRollups (period_filter owner period start) s)) currency =
  wrap64 (spent_in owner currency period start (an_contributions s)).
Proof using Type.
intros Hs Hb Hp Hr. rewrite (proj1 (sumByCurrency_at _ _)), currency_sum_buckets, buckets_match by done.
apply wrap64_sum. intros c Hc. apply put_into_comparison; [done..|].
apply list_elem_of_In, in_map_iff in Hc as ([i c'] & <- & Hin). apply list_elem_of_In, elem_of_map_to_list in Hin.
by eapply shaped_sane.
Qed.

Lemma deliver_all_shaped ms s : Forall sane_message ms → shaped s → shaped (foldl deliver s ms).
Proof using Type.
revert s. induction ms as [|m ms IH]; intros s Hms Hs; [done|]. inversion_clear Hms. apply IH; [done|].
by apply deliver_shaped.
Qed.

Lemma shaped_empty : shaped NewAnalyticsRepository.
Proof using Type. split; intros ? ?; cbn; by rewrite lookup_empty. Qed.

Lemma valid_rollup_period period : validPeriod period = true → period ∈ RollupPeriods.
Proof using Type.
by intros Hv%bool_decide_eq_true.
Qed.

Lemma union_keys (m1 m2 : gmap string Z) : NoDup (unionCurrencyKeys m1 m2) ∧
  ∀ k, k ∈ unionCurrencyKeys m1 m2 ↔ is_Some (m1 !! k) ∨ is_Some (m2 !! k).
Proof using Type.
assert (∀ m : gmap string Z, map fst (map_range m) ≡ₚ map fst (map_to_list m)) as Hp
  by (intros m; apply Permutation_map, map_range_perm).
assert (∀ (m : gmap string Z) k, k ∈ map fst (map_range m) ↔ is_Some (m !! k)) as Hk.
{ intros m k. rewrite Hp, list_elem_of_In, in_map_iff. split.
  - intros ([k' v] & <- & Hin). apply list_elem_of_In, elem_of_map_to_list in Hin. by exists v.
  - intros [v Hv]. exists (k, v). split; [done|]. by apply list_elem_of_In, elem_of_map_to_list. }
assert (∀ m : gmap string Z, NoDup (map fst (map_range m))) as Hnd
  by (intros m; rewrite Hp; apply NoDup_fst_map_to_list).
unfold unionCurrencyKeys. split.
- rewrite (sort_slice_perm _ _). apply NoDup_app. split; [apply Hnd|]. split.
  + intros k H1 H2. apply list_elem_of_In, filter_In in H2 as [_ H2].
    by rewrite bool_decide_eq_true_2 in H2.
  + specialize (Hnd m2). induction Hnd as [|k l Hn _ IH]; cbn; [constructor|].
    destruct (bool_decide _); cbn; [done|]. constructor; [|done].
    rewrite list_elem_of_In, filter_In, <- list_elem_of_In. by intros [? _].
- intros k. rewrite (sort_slice_perm _ _), elem_of_app, Hk, list_elem_of_In, filter_In, <- list_elem_of_In, Hk.
  destruct (decide (is_Some (m1 !! k))) as [Hs|Hn]; [tauto|].
  rewrite bool_decide_eq_false_2 by by rewrite Hk. cbn. tauto.
Qed.

(** Reading the buckets leaves the world alone. *)
Lemma rollups_at_reads owner period start (w : World) :
  rollups_at owner period start w =
  (w, inr (memory_ListExpenseRollups (period_filter owner period start) (w_analytics w))).
Proof using Type. by destruct w. Qed.

(** [C21] The comparison of two periods is the ledger of the contributions the projection
    accepts: one of an expense that is spent but lacks its category, its owner, a
    currency or a time is refused, and what the expense told before stays.  Whatever
    events it was delivered, in whatever order and however often, as long as their tags
    are not empty and the buckets of their expenses start within the nanoseconds an
    int64 counts from 1970, the comparison lists each currency once, with exactly the sum,
    in 64-bit arithmetic, of the accepted contributions left active in the current and in
    the previous period, and leaves out no currency in which either is not zero. *)
Theorem comparison_is_ledger (owner : string) (period : AnalyticsPeriod) (ms : list Message) (w : World) :
  let l := foldl ledger_step ∅ ms in
  let start := RollupPeriodStart period (w_clock w (w_ticks w)) in
  let previous := previousPeriodStart period start in
  owner ≠ "" → validPeriod period = true → in_range start → in_range previous →
  Forall sane_message ms → w_analytics w = foldl deliver NewAnalyticsRepository ms →
  ∃ totals,
    ComparePeriods owner period w = (w <| w_ticks ::= S |>, inr (mkPeriodComparison period start previous totals)) ∧
    NoDup (map pt_Currency totals) ∧
    (∀ t, t ∈ totals →
       pt_CurrentMinor t = wrap64 (spent_in owner (pt_Currency t) period start l) ∧
       pt_PreviousMinor t = wrap64 (spent_in owner (pt_Currency t) period previous l) ∧
       pt_PercentChange t = percentChange (pt_CurrentMinor t) (pt_PreviousMinor t)) ∧
    (∀ currency, wrap64 (spent_in owner currency period start l) ≠ 0 ∨
                 wrap64 (spent_in owner currency period previous l) ≠ 0 →
       currency ∈ map pt_Currency totals).
Proof using Type.
intros l start previous Howner Hvalid Hr Hr' Hms Hw.
destruct (deliver_all ms NewAnalyticsRepository Projected_empty) as [[_ Hb _] Hl].
pose proof (deliver_all_shaped ms _ Hms shaped_empty) as Hs.
set (s := foldl deliver NewAnalyticsRepository ms) in *.
assert (an_contributions s = l) as Hl' by exact Hl.
pose proof (valid_rollup_period _ Hvalid) as Hp.
set (cur := sumByCurrency (memory_ListExpenseRollups (period_filter owner period start) s)).
set (prev := sumByCurrency (memory_ListExpenseRollups (period_filter owner period previous) s)).
assert (∀ c, at_key cur c = wrap64 (spent_in owner c period start l)) as Hcur
  by (intros c; rewrite <- Hl'; by apply currency_sum_spent).
assert (∀ c, at_key prev c = wrap64 (spent_in owner c period previous l)) as Hprev
  by (intros c; rewrite <- Hl'; by apply currency_sum_spent).
set (totals := map (λ c, mkPeriodComparisonTotal c (at_key cur c) (at_key prev c)
  (percentChange (at_key cur c) (at_key prev c))) (unionCurrencyKeys cur prev)).
assert (map pt_Currency totals = unionCurrencyKeys cur prev) as Hkeys
  by (unfold totals; rewrite map_map; apply map_id).
exists totals. rewrite Hkeys. split; [|split; [apply union_keys|split]].
- unfold ComparePeriods. rewrite (proj2 (String.eqb_neq _ _) Howner), Hvalid. cbn [negb].
  rewrite bind_ok. exists (w <| w_ticks ::= S |>), (w_clock w (w_ticks w)). split; [done|]. cbv zeta.
  rewrite bind_ok. do 2 eexists. split; [apply rollups_at_reads|].
  rewrite bind_ok. do 2 eexists. split; [apply rollups_at_reads|].
  change (w_analytics (w <| w_ticks ::= S |>)) with (w_analytics w). rewrite Hw. reflexivity.
- intros t (c & <- & _)%list_elem_of_In%in_map_iff. cbn [pt_Currency pt_CurrentMinor pt_PreviousMinor pt_PercentChange].
  by rewrite Hcur, Hprev.
- intros c Hc. apply union_keys. rewrite <- Hcur, <- Hprev in Hc. unfold at_key in Hc.
  destruct (cur !! c), (prev !! c); cbn in Hc; [eauto|eauto|eauto|by destruct Hc].
Qed.
End Comparison.

(** ** Example: an expense added in January and edited in February *)

Module Sample.
Import World.Sample.
#[local] Existing Instance default_runtime.

Definition now : Time := Date 1970 2 3 9 0 0 0.
Definition lunch : ExpenseRecord := sample_expense <| ex_ID := "e2" |> <| ex_OccurredAt := Date 1970 2 1 12 0 0 0 |>.
Definition stream : list Message :=
  sample_messages ++ [expense_message 3 (ExpenseAdded lunch); expense_message 4 (ExpenseAdded lunch)].

Definition in_rangeb (t : Time) : bool := (min_int64 <=? t - unix_epoch) && (t - unix_epoch <=? max_int64).

Lemma in_range_by_computation t : in_rangeb t = true → in_range t.
Proof. unfold in_rangeb, in_range, is_int64. generalize (t - unix_epoch), min_int64, max_int64. intros x y z. lia. Qed.

Definition sane_contributionb (c : ExpenseContribution) : bool :=
  forallb (λ period, in_rangeb (RollupPeriodStart period (ec_OccurredAt c))) RollupPeriods &&
  forallb (λ tag, tag ≠s "") (ec_TagIDs c).

Definition sane_messageb (m : Message) : bool :=
  match DecodeExpenseContribution (EventType m) (Payload m) with
  | inr (c, true) => sane_contributionb c
  | _ => true
  end.

Lemma sane_contribution_by_computation c : sane_contributionb c = true → sane_contribution c.
Proof.
unfold sane_contributionb. intros [Hp Ht]%andb_true_iff. split.
- intros p Hin. apply in_range_by_computation. exact (proj1 (forallb_forall _ _) Hp p (proj1 (list_elem_of_In _ _) Hin)).
- apply Forall_forall. intros tag Hin ->. exact (diff_false_true (proj1 (forallb_forall _ _) Ht "" (proj1 (list_elem_of_In _ _) Hin))).
Qed.

Lemma sane_by_computation m : sane_messageb m = true → sane_message m.
Proof. unfold sane_messageb. intros Hb c Hd. rewrite Hd in Hb. by apply sane_contribution_by_computation. Qed.

Definition w : World := empty_world
  <| w_analytics := foldl deliver NewAnalyticsRepository stream |> <| w_clock := λ _, now |>.

Lemma comparison_is_ledger_witness : ∃ totals,
  ComparePeriods "u1" AnalyticsMonth w =
    (w <| w_ticks ::= S |>, inr (mkPeriodComparison AnalyticsMonth (Date 1970 2 1 0 0 0 0) unix_epoch totals)) ∧
  ∀ t, t ∈ totals → pt_Currency t = "EUR" → pt_CurrentMinor t = 1250 ∧ pt_PreviousMinor t = 900.
Proof.
assert (Forall sane_message stream) as Hsane.
{ rewrite Forall_forall. intros m Hm. apply sane_by_computation.
  assert (forallb sane_messageb stream = true) as Hb by (vm_compute; reflexivity).
  rewrite forallb_forall in Hb. by apply Hb, list_elem_of_In. }
destruct (comparison_is_ledger "u1" AnalyticsMonth stream w) as (totals & Hrun & _ & Ht & _).
- done.
- vm_compute; reflexivity.
- apply in_range_by_computation. vm_compute. reflexivity.
- apply in_range_by_computation. vm_compute. reflexivity.
- exact Hsane.
- reflexivity.
- exists totals. split; [exact Hrun|]. intros t Hin Hc. destruct (Ht t Hin) as (-> & -> & _). rewrite Hc.
  split; vm_compute; reflexivity.
Defined.

(** The suggestions add up a category over every currency; the progress of the same
    budget counts its own currency only. *)
Definition in_dollars : ExpenseRecord := lunch <| ex_AmountMinor := 5000 |> <| ex_Currency := "USD" |>.
Definition euro_budget : BudgetRecord := zero_budget <| bd_ID := "b1" |> <| bd_OwnerID := "u1" |>
  <| bd_CategoryID := "food" |> <| bd_Currency := "EUR" |> <| bd_AmountLimitMinor := 2000 |>
  <| bd_ThresholdPercent := 80 |> <| bd_Period := BudgetMonthly |>.
Definition mixed : World := w
  <| w_analytics := foldl deliver NewAnalyticsRepository [expense_message 1 (ExpenseAdded in_dollars)] |>
  <| w_budgets := {["b1" := euro_budget]} |>.

Example suggestion_mixes_currencies :
  ((values ← ListBudgetSuggestions "u1"; mret (map (λ v, (bg_Currency v, bg_SpentMinor v, bg_PercentUsed v)) values)) mixed).2 =
    inr [("EUR", 5000, 250)] ∧
  ((values ← service_BudgetProgress "u1"; mret (map (λ v, (bp_Currency v, bp_SpentMinor v, bp_PercentUsed v)) values)) mixed).2 =
    inr [("EUR", 0, 0)].
Proof. split; vm_compute; reflexivity. Qed.
End Sample.
