(* ===== verification/Metrics.v ===== *)
(** * Metrics (src/pkg/metrics)

    Counters and histograms distinguished by label values, and the registry that
    renders them.  A vector's [WithLabelValues] hands out a pointer that the caller
    updates at once; here the update names the vector and the label values. *)

From S2P Require Export Prelude.
From S2P Require Export GoStrings.
From S2P Require Export GoFloat.
From Stdlib Require Import Ascii.
#[local] Open Scope Z_scope.

Definition wrap_u64 (n : Z) : Z := n mod 2 ^ 64.

(** ** Counters (counter.go) *)

Abbreviation Counter := float64 (only parsing).
Definition counter_Add (delta : float64) (c : Counter) : Counter := f64_add c delta.
Definition counter_Inc : Counter → Counter := counter_Add (f64_of 1).

(** [strings.Join(values, NUL)]. *)
Definition NUL : ascii := ascii_of_nat 0.
Definition labelKey (values : list string) : string := String.concat (String NUL "") values.

Record CounterVec := mkCounterVec { cv_counters : gmap string Counter; cv_seen : list (list string) }.
#[export] Instance eta_CounterVec : Eta CounterVec := λ r, mkCounterVec (cv_counters r) (cv_seen r).
Definition newCounterVec : CounterVec := mkCounterVec ∅ [].

(** [v.WithLabelValues(values...)] followed by [update] on the counter. *)
Definition with_counter (values : list string) (update : Counter → Counter) (v : CounterVec) : CounterVec :=
  let key := labelKey values in
  let v := match cv_counters v !! key with
           | Some _ => v
           | None => v <| cv_counters ::= <[key := f64_zero]> |> <| cv_seen ::= λ l, l ++ [values] |>
           end in
  v <| cv_counters ::= alter update key |>.

Definition counter_snapshot (v : CounterVec) : list (list string * float64) :=
  map (λ labels, (labels, default f64_zero (cv_counters v !! labelKey labels))) (cv_seen v).

(** ** Histograms (histogram.go) *)

Record Histogram := mkHistogram { hg_buckets : list float64; hg_counts : list Z; hg_sum : float64; hg_count : Z }.
#[export] Instance eta_Histogram : Eta Histogram := λ r,
  mkHistogram (hg_buckets r) (hg_counts r) (hg_sum r) (hg_count r).
Definition newHistogram (buckets : list float64) : Histogram :=
  mkHistogram buckets (map (λ _, 0) buckets) f64_zero 0.

Definition Observe (value : float64) (h : Histogram) : Histogram :=
  h <| hg_counts := zip_with (λ bound n, if f64_leb value bound then wrap_u64 (n + 1) else n)
         (hg_buckets h) (hg_counts h) |>
    <| hg_sum ::= λ s, f64_add s value |> <| hg_count ::= λ n, wrap_u64 (n + 1) |>.

Record HistogramVec := mkHistogramVec {
  hv_buckets : list float64; hv_histograms : gmap string Histogram; hv_seen : list (list string)
}.
#[export] Instance eta_HistogramVec : Eta HistogramVec := λ r,
  mkHistogramVec (hv_buckets r) (hv_histograms r) (hv_seen r).
Definition newHistogramVec (buckets : list float64) : HistogramVec := mkHistogramVec buckets ∅ [].

Definition with_histogram (values : list string) (update : Histogram → Histogram) (v : HistogramVec) : HistogramVec :=
  let key := labelKey values in
  let v := match hv_histograms v !! key with
           | Some _ => v
           | None => v <| hv_histograms ::= <[key := newHistogram (hv_buckets v)]> |>
                       <| hv_seen ::= λ l, l ++ [values] |>
           end in
  v <| hv_histograms ::= alter update key |>.

Definition histogram_snapshot (v : HistogramVec) : list (list string * Histogram) :=
  map (λ labels, (labels, default (newHistogram (hv_buckets v)) (hv_histograms v !! labelKey labels))) (hv_seen v).

(** ** The registry (metrics.go) *)

Record registered (vec : Type) := mkRegistered { rg_help : string; rg_labelNames : list string; rg_vec : vec }.
Arguments mkRegistered {vec}. Arguments rg_help {vec}. Arguments rg_labelNames {vec}. Arguments rg_vec {vec}.

Record Registry := mkRegistry {
  counterVec : gmap string (registered CounterVec); histoVec : gmap string (registered HistogramVec);
  order : list string
}.
#[export] Instance eta_Registry : Eta Registry := λ r, mkRegistry (counterVec r) (histoVec r) (order r).
Definition NewRegistry : Registry := mkRegistry ∅ ∅ [].

Definition NewCounterVec (name help : string) (labelNames : list string) (r : Registry) : Registry :=
  r <| counterVec ::= <[name := mkRegistered help labelNames newCounterVec]> |> <| order ::= λ l, l ++ [name] |>.
Definition NewHistogramVec (name help : string) (buckets : list float64) (labelNames : list string) (r : Registry)
    : Registry :=
  r <| histoVec ::= <[name := mkRegistered help labelNames (newHistogramVec buckets)]> |>
    <| order ::= λ l, l ++ [name] |>.

Section Render.
(** [%q] and [%g]. *)
Context (Quote : string → string) (formatFloat : float64 → string).
Definition line_end : string := String (ascii_of_nat 10) "".

Definition label_pair (name value : string) : string := name +:+ "=" +:+ Quote value.

Fixpoint label_parts (names values : list string) : list string :=
  match names with
  | [] => []
  | name :: names => label_pair name (hd "" values) :: label_parts names (tl values)
  end.

Definition labelPairs (names values : list string) : string :=
  match names with
  | [] => ""
  | _ => "{" +:+ String.concat "," (label_parts names values) +:+ "}"
  end.

(** [strings.TrimPrefix] and [strings.TrimSuffix] of one character. *)
Definition trim_prefix (c : ascii) (l : bytes) : bytes :=
  match l with x :: l' => if Ascii.eqb x c then l' else l | [] => [] end.
Definition trim_suffix (c : ascii) (l : bytes) : bytes := rev (trim_prefix c (rev l)).

Definition appendLabel (existing name value : string) : string :=
  if existing =s "" then "{" +:+ label_pair name value +:+ "}"
  else
    let inner := trim_suffix "}" (trim_prefix "{" (String.list_ascii_of_string existing)) in
    let parts := map String.string_of_list_ascii (split_at "," inner) ++ [label_pair name value] in
    "{" +:+ String.concat "," (sort_slice_stable string_less parts) +:+ "}".

Definition header (name help kind : string) : string :=
  "# HELP " +:+ name +:+ " " +:+ help +:+ line_end +:+ "# TYPE " +:+ name +:+ " " +:+ kind +:+ line_end.

Definition writeCounterVec (name : string) (entry : registered CounterVec) : string :=
  header name (rg_help entry) "counter" +:+
  String.concat "" (map (λ '(labels, value),
    name +:+ labelPairs (rg_labelNames entry) labels +:+ " " +:+ formatFloat value +:+ line_end)
    (counter_snapshot (rg_vec entry))).

Definition write_histogram (name pairs : string) (h : Histogram) : string :=
  String.concat "" (zip_with (λ bound n,
    name +:+ "_bucket" +:+ appendLabel pairs "le" (formatFloat bound) +:+ " " +:+ Itoa n +:+ line_end)
    (hg_buckets h) (hg_counts h)) +:+
  name +:+ "_bucket" +:+ appendLabel pairs "le" "+Inf" +:+ " " +:+ Itoa (hg_count h) +:+ line_end +:+
  name +:+ "_sum" +:+ pairs +:+ " " +:+ formatFloat (hg_sum h) +:+ line_end +:+
  name +:+ "_count" +:+ pairs +:+ " " +:+ Itoa (hg_count h) +:+ line_end.

Definition writeHistogramVec (name : string) (entry : registered HistogramVec) : string :=
  header name (rg_help entry) "histogram" +:+
  String.concat "" (map (λ '(labels, h), write_histogram name (labelPairs (rg_labelNames entry) labels) h)
    (histogram_snapshot (rg_vec entry))).

Definition Render (r : Registry) : string :=
  String.concat "" (map (λ name,
    (match counterVec r !! name with Some entry => writeCounterVec name entry | None => "" end) +:+
    (match histoVec r !! name with Some entry => writeHistogramVec name entry | None => "" end)) (order r)).
End Render.

(** A label value with a comma is taken apart when [le] is added. *)
Example append_label_splits_values :
  appendLabel quoted (labelPairs quoted ["route"] ["a,b"]) "le" "1" =
  "{b" +:+ String (ascii_of_nat 34) "" +:+ ",le=" +:+ quoted "1" +:+ ",route=" +:+ String (ascii_of_nat 34) "a}".
Proof. vm_compute. reflexivity. Qed.

(** ** The HTTP middleware (middleware.go)

    What one request adds, given the route pattern, the method, the status the
    handler wrote and the seconds it took. *)

Definition record_request (route method : string) (status : Z) (seconds : float64)
    (vecs : CounterVec * HistogramVec) : CounterVec * HistogramVec :=
  let route := if route =s "" then "unmatched" else route in
  let labels := [route; method; Itoa status] in
  (with_counter labels counter_Inc vecs.1, with_histogram labels (Observe seconds) vecs.2).

(** ** Label values keep series apart *)

Lemma labelKey_cons x y l : labelKey (x :: y :: l) = x +:+ String NUL (labelKey (y :: l)).
Proof. done. Qed.

(** Tuples of one length without NUL have distinct keys. *)
Lemma labelKey_inj l : ∀ l', length l = length l' → Forall (λ s, no_char NUL s = true) l →
  Forall (λ s, no_char NUL s = true) l' → labelKey l = labelKey l' → l = l'.
Proof.
induction l as [|x [|y l] IH]; intros [|x' [|y' l']]; cbn [length]; intros Hlen Hl Hl' Heq; try (by lia).
- done.
- by cbn in Heq; subst.
- rewrite !labelKey_cons in Heq. inversion_clear Hl. inversion_clear Hl'.
  apply split_first_char in Heq as [-> Heq]; [|done..]. f_equal. apply IH; [cbn; lia|done..].
Qed.

Section Series.
Context {A : Type} (zero : A) (arity : nat).

(** A map of series and the label tuples seen, as both kinds of vector keep them. *)
Definition touch (labels : list string) (update : A → A) (v : gmap string A * list (list string))
    : gmap string A * list (list string) :=
  let key := labelKey labels in
  match v.1 !! key with
  | Some _ => (alter update key v.1, v.2)
  | None => (alter update key (<[key := zero]> v.1), v.2 ++ [labels])
  end.

Definition touch_all (ops : list (list string * (A → A))) : gmap string A * list (list string) :=
  foldl (λ v op, touch op.1 op.2 v) (∅, []) ops.

(** The tuples in the order they first occur, and what a tuple's updates make of
    the zero value. *)
Definition first_seen (ls : list (list string)) : list (list string) :=
  foldl (λ acc l, if decide (l ∈ acc) then acc else acc ++ [l]) [] ls.
Definition series (labels : list string) (ops : list (list string * (A → A))) : A :=
  foldl (λ a op, if decide (op.1 = labels) then op.2 a else a) zero ops.

Definition plain_labels (l : list string) : Prop := length l = arity ∧ Forall (λ s, no_char NUL s = true) l.

Lemma first_seen_elem ls l : l ∈ first_seen ls ↔ l ∈ ls.
Proof using Type.
unfold first_seen. induction ls as [|x ls IH] using rev_ind; [done|]. rewrite foldl_snoc, elem_of_app, list_elem_of_singleton.
case_decide as Hx; [|by rewrite elem_of_app, list_elem_of_singleton, IH].
rewrite IH. split; [by left|]. intros [?| ->]; [done|by apply IH].
Qed.

Lemma first_seen_snoc ls l :
  first_seen (ls ++ [l]) = if decide (l ∈ first_seen ls) then first_seen ls else first_seen ls ++ [l].
Proof using Type. exact (foldl_snoc _ _ _ _). Qed.

Lemma series_snoc labels ops op :
  series labels (ops ++ [op]) = if decide (op.1 = labels) then op.2 (series labels ops) else series labels ops.
Proof using Type. exact (foldl_snoc _ _ _ _). Qed.

Lemma series_absent l ops : l ∉ map fst ops → series l ops = zero.
Proof using Type.
induction ops as [|op ops IH] using rev_ind; intros Hl; [done|]. rewrite series_snoc.
rewrite map_app, elem_of_app in Hl. cbn in Hl. rewrite list_elem_of_singleton in Hl.
rewrite decide_False by naive_solver. apply IH. naive_solver.
Qed.

Lemma touch_all_spec ops : Forall (λ op, plain_labels op.1) ops →
  (touch_all ops).2 = first_seen (map fst ops) ∧
  ∀ l, plain_labels l → (touch_all ops).1 !! labelKey l =
    if decide (l ∈ map fst ops) then Some (series l ops) else None.
Proof using Type.
induction ops as [|[l f] ops IH] using rev_ind; intros Hops.
{ split; [done|]. intros l _. cbn. by rewrite lookup_empty. }
apply Forall_app in Hops as [Hops Hl]. inversion_clear Hl as [|? ? Hpl _]. cbn [fst] in Hpl.
destruct (IH Hops) as [IH2 IH1]. clear IH. unfold touch_all in *. rewrite foldl_snoc. cbn [fst snd].
set (v := foldl _ _ ops) in *. rewrite map_app. cbn [map fst]. rewrite first_seen_snoc. unfold touch. rewrite (IH1 l Hpl).
split.
- destruct (decide (l ∈ map fst ops)) as [Hin|Hin], (decide (l ∈ first_seen (map fst ops))) as [Hf|Hf];
    rewrite first_seen_elem in Hf; cbn [fst snd]; try done; by rewrite IH2.
- intros l' Hpl'. rewrite series_snoc. cbn [fst snd].
  destruct (decide (l = l')) as [<-|Hne].
  + rewrite (decide_True (P := l ∈ map fst ops ++ [l])) by (apply elem_of_app; right; by left).
    destruct (decide (l ∈ map fst ops)) as [Hin|Hin]; cbn [fst]; rewrite lookup_alter_eq.
    * rewrite IH1, decide_True by done. done.
    * rewrite lookup_insert_eq. cbn. by rewrite series_absent.
  + assert (labelKey l ≠ labelKey l') as Hk.
    { intros Hk. apply Hne. destruct Hpl, Hpl'. apply labelKey_inj; [congruence|done..]. }
    transitivity (v.1 !! labelKey l'); [destruct (decide (l ∈ map fst ops)); cbn [fst];
      by rewrite lookup_alter_ne, ?lookup_insert_ne|].
    rewrite IH1 by done. apply decide_ext. rewrite elem_of_app, list_elem_of_singleton. naive_solver.
Qed.
End Series.

(** Both vectors keep their series that way. *)
Lemma with_counter_touch labels update v :
  let v' := with_counter labels update v in
  (cv_counters v', cv_seen v') = touch f64_zero labels update (cv_counters v, cv_seen v).
Proof. unfold with_counter, touch. cbn. by destruct (cv_counters v !! _). Qed.

Lemma with_histogram_touch labels update v :
  let v' := with_histogram labels update v in
  hv_buckets v' = hv_buckets v ∧
  (hv_histograms v', hv_seen v') = touch (newHistogram (hv_buckets v)) labels update (hv_histograms v, hv_seen v).
Proof. unfold with_histogram, touch. cbn. by destruct (hv_histograms v !! _). Qed.

(** ** Every request is counted once *)

Record served := mkServed { sv_route : string; sv_method : string; sv_status : Z; sv_seconds : float64 }.
Definition labels_of (r : served) : list string :=
  [if sv_route r =s "" then "unmatched" else sv_route r; sv_method r; Itoa (sv_status r)].
Definition record (vecs : CounterVec * HistogramVec) (r : served) : CounterVec * HistogramVec :=
  record_request (sv_route r) (sv_method r) (sv_status r) (sv_seconds r) vecs.

(** The requests with the labels. *)
Definition labelled (labels : list string) (rs : list served) : list served :=
  List.filter (λ r, bool_decide (labels_of r = labels)) rs.
(** Adding ones as floats: exact below 2^53. *)
Definition float_count (n : nat) : float64 := Nat.iter n (λ x, f64_add x (f64_of 1)) f64_zero.

Lemma series_labelled {A} (zero : A) (f : served → A → A) labels rs :
  series zero labels (map (λ r, (labels_of r, f r)) rs) = foldl (λ a r, f r a) zero (labelled labels rs).
Proof.
unfold series, labelled. induction rs as [|r rs IH] using rev_ind; [done|].
rewrite map_app, List.filter_app, !foldl_app. cbn [map foldl fst snd]. rewrite IH. cbn.
case_decide as Hd; [by rewrite bool_decide_eq_true_2|by rewrite bool_decide_eq_false_2].
Qed.

Lemma observe_all buckets rs : foldl (λ h r, Observe (sv_seconds r) h) (newHistogram buckets) rs =
  mkHistogram buckets
    (map (λ bound, wrap_u64 (Z.of_nat (length (List.filter (λ r, f64_leb (sv_seconds r) bound) rs)))) buckets)
    (foldl (λ s r, f64_add s (sv_seconds r)) f64_zero rs) (wrap_u64 (Z.of_nat (length rs))).
Proof.
induction rs as [|r rs IH] using rev_ind; [done|]. rewrite !foldl_app. cbn [foldl]. rewrite IH.
unfold Observe, set_field. cbn -[wrap_u64 f64_add Z.of_nat]. f_equal.
- rewrite zip_with_fmap_r, zip_with_diag. apply map_ext. intros bound. cbn beta.
  rewrite List.filter_app, length_app. cbn [List.filter].
  destruct (f64_leb (sv_seconds r) bound); cbn [length]; rewrite ?Nat.add_0_r; [|done].
  rewrite Nat2Z.inj_add. unfold wrap_u64. by rewrite Z.add_mod_idemp_l.
- rewrite length_app, Nat2Z.inj_add. unfold wrap_u64. by rewrite Z.add_mod_idemp_l.
Qed.

Lemma no_NUL_status n : no_char NUL (Itoa n) = true.
Proof. apply Itoa_no_char; [|done..]. intros m. unfold pretty_N_char. by repeat case_match. Qed.

Definition plain_request (r : served) : Prop :=
  no_char NUL (sv_route r) = true ∧ no_char NUL (sv_method r) = true.

Lemma labels_plain r : plain_request r → plain_labels 3 (labels_of r).
Proof.
intros [Hr Hm]. split; [done|]. unfold labels_of. repeat constructor; [|done|apply no_NUL_status].
by destruct (sv_route r =s "").
Qed.

(** Every request is accounted for once, under its own labels: the rendered
    series are the distinct label tuples in the order they first occurred; a
    tuple's counter counts its requests, and each bucket of its histogram counts
    those of its requests that took no longer than the bound. *)
Theorem requests_accounted buckets rs : Forall plain_request rs →
  let '(requests, latency) := foldl record (newCounterVec, newHistogramVec buckets) rs in
  let seen := first_seen (map labels_of rs) in
  counter_snapshot requests = map (λ l, (l, float_count (length (labelled l rs)))) seen ∧
  histogram_snapshot latency = map (λ l, (l, mkHistogram buckets
      (map (λ bound, wrap_u64 (Z.of_nat (length (List.filter (λ r, f64_leb (sv_seconds r) bound) (labelled l rs))))) buckets)
      (foldl (λ s r, f64_add s (sv_seconds r)) f64_zero (labelled l rs))
      (wrap_u64 (Z.of_nat (length (labelled l rs)))))) seen.
Proof.
intros Hrs.
set (incs := map (λ r, (labels_of r, (λ _ : served, counter_Inc) r)) rs).
set (obs := map (λ r, (labels_of r, (λ r, Observe (sv_seconds r)) r)) rs).
assert (let '(c, h) := foldl record (newCounterVec, newHistogramVec buckets) rs in
  (cv_counters c, cv_seen c) = touch_all f64_zero incs ∧ hv_buckets h = buckets ∧
  (hv_histograms h, hv_seen h) = touch_all (newHistogram buckets) obs) as Hrun.
{ unfold incs, obs, touch_all. clear Hrs incs obs. induction rs as [|r rs IH] using rev_ind; [done|].
  rewrite !map_app, !foldl_app. cbn [map foldl fst snd]. destruct (foldl record _ rs) as [c h].
  destruct IH as (IH1 & IH2 & IH3). unfold record, record_request. cbn [fst snd].
  rewrite with_counter_touch, IH1. destruct (with_histogram_touch (labels_of r) (Observe (sv_seconds r)) h) as [Hb Ht].
  unfold labels_of in *. rewrite Hb, Ht, IH2, IH3. done. }
destruct (foldl record _ rs) as [c h]. destruct Hrun as (Hc & Hb & Hh). cbv zeta.
assert (∀ {A} (f : served → A → A), Forall (λ op, plain_labels 3 op.1) (map (λ r, (labels_of r, f r)) rs)) as Hops.
{ intros A f. apply Forall_map. eapply Forall_impl; [exact Hrs|]. intros r. apply labels_plain. }
assert (∀ l, l ∈ first_seen (map labels_of rs) → plain_labels 3 l) as Hplain.
{ intros l. rewrite first_seen_elem, list_elem_of_In, in_map_iff. intros (r & <- & Hr). apply labels_plain.
  rewrite Forall_forall in Hrs. by apply Hrs, list_elem_of_In. }
destruct (touch_all_spec f64_zero 3 incs (Hops _ _)) as [Hc2 Hc1]. rewrite <- Hc in Hc1, Hc2.
destruct (touch_all_spec (newHistogram buckets) 3 obs (Hops _ _)) as [Hh2 Hh1]. rewrite <- Hh in Hh1, Hh2.
unfold incs, obs in *. rewrite map_map in *. cbn [fst snd] in *.
unfold counter_snapshot, histogram_snapshot. rewrite Hc2, Hh2, Hb. split; apply map_ext_in; intros l Hl;
  apply list_elem_of_In in Hl; [rewrite Hc1 by auto|rewrite Hh1 by auto];
  rewrite first_seen_elem in Hl; rewrite decide_True by exact Hl; cbn [default]; unfold id; f_equal.
- rewrite series_labelled. unfold float_count. generalize (labelled l rs) as rs'. intros rs'.
  induction rs' as [|r rs' IH] using rev_ind; [done|]. rewrite foldl_app, length_app, Nat.add_comm.
  cbn [foldl]. by rewrite IH.
- rewrite series_labelled. apply observe_all.
Qed.

Module Sample.
Definition requests : list served :=
  [mkServed "/expenses" "GET" 200 (f64_of 1); mkServed "" "GET" 404 (f64_of 0); mkServed "/expenses" "GET" 200 (f64_of 7)].
Definition bounds : list float64 := [f64_of 2; f64_of 10].

Lemma requests_accounted_witness :
  (counter_snapshot (foldl record (newCounterVec, newHistogramVec bounds) requests).1) =
    [(["/expenses"; "GET"; "200"], f64_of 2); (["unmatched"; "GET"; "404"], f64_of 1)] ∧
  map (λ e, hg_counts e.2) (histogram_snapshot (foldl record (newCounterVec, newHistogramVec bounds) requests).2) =
    [[1; 2]; [1; 1]].
Proof.
assert (Forall plain_request requests) as Hplain by (repeat constructor).
pose proof (requests_accounted bounds requests Hplain) as Hall.
destruct (foldl record (newCounterVec, newHistogramVec bounds) requests) as [c h]. destruct Hall as [Hc Hh].
cbn [fst snd]. rewrite Hc, Hh. split; vm_compute; reflexivity.
Defined.
End Sample.
