(* ===== verification/AI.v ===== *)
(** * The AI provider port, its scripted adapter and its audit
    (src/internal/core/domain/ai.go, transcription.go, src/internal/core/service/ai_audit.go,
    src/internal/adapter/outbound/memory/ai_provider.go and audio_transcriber.go)

    A text that crosses the port is plain, or the JSON encoding of a document; a
    text that the program decodes and that is no document is plain too.  A channel
    of chunks is the list of what its producer sends, with what the producer does
    once everything was received. *)

From S2P Require Export Prelude.
From S2P Require Export GoTime.
From S2P Require Export GoStrings.
From S2P Require Export Domain.
From S2P Require Export Json.
From S2P Require Export Ports.
From S2P Require Export Metrics.
#[global] Open Scope Z_scope.

Inductive text := Plain (s : string) | Encoded (document : json).

(** [strings.TrimSpace(t) == ""]. *)
Definition blank (t : text) : bool :=
  match t with Plain s => TrimSpace s =s "" | Encoded _ => false end.
(** The document a text is: none, for a plain text. *)
Definition document_of (t : text) : json :=
  match t with Encoded j => j | Plain _ => JInvalid end.

(** ** The conversation (ai.go) *)

Abbreviation MessageRole := string (only parsing).
Definition RoleUser : MessageRole := "user".
Definition RoleSystem : MessageRole := "system".
Definition RoleAssistant : MessageRole := "assistant".
Definition RoleTool : MessageRole := "tool".

Record AIMessage := mkAIMessage {
  msg_Role : MessageRole; msg_Text : option text; msg_ImageURL : option string;
  msg_ToolCallID : option string; msg_ToolName : option string; msg_ToolArgs : option text
}.
Record Tool := mkTool { tool_Name : string; tool_Description : string; tool_Parameters : json }.
Record ToolCall := mkToolCall { call_ID : string; call_Name : string; call_ArgsRaw : text }.

Definition SystemMessage (t : string) : AIMessage := mkAIMessage RoleSystem (Some (Plain t)) None None None None.
Definition UserMessage (t : text) : AIMessage := mkAIMessage RoleUser (Some t) None None None None.
Definition UserImageMessage (t : string) (imageURL : string) : AIMessage :=
  mkAIMessage RoleUser (Some (Plain t)) (Some imageURL) None None None.
Definition AssistantToolCallMessage (call : ToolCall) : AIMessage :=
  mkAIMessage RoleAssistant None None (Some (call_ID call)) (Some (call_Name call)) (Some (call_ArgsRaw call)).
Definition ToolResultMessage (toolCallID : string) (content : text) : AIMessage :=
  mkAIMessage RoleTool (Some content) None (Some toolCallID) None None.

Definition no_usage : TokenUsage := mkTokenUsage 0 0 0.

Record Completion := mkCompletion {
  cp_Content : text; cp_ToolCalls : list ToolCall; cp_Usage : TokenUsage; cp_FinishReason : string
}.
Record CompletionChunk := mkCompletionChunk {
  ck_ContentDelta : string; ck_ToolCalls : list ToolCall; ck_Usage : option TokenUsage;
  ck_FinishReason : string; ck_Err : option error; ck_Done : bool
}.
Definition delta_chunk (delta : string) : CompletionChunk := mkCompletionChunk delta [] None "" None false.
Definition err_chunk (err : error) : CompletionChunk := mkCompletionChunk "" [] None "" (Some err) false.

Record ResponseFormat := mkResponseFormat {
  rf_Name : string; rf_Description : string; rf_Schema : json; rf_Strict : bool
}.
Record CompletionRequest := mkCompletionRequest {
  cr_UserID : string; cr_Model : string; cr_Messages : list AIMessage; cr_Tools : list Tool;
  cr_ResponseFormat : option ResponseFormat; cr_MaxOutputTokens : Z; cr_Temperature : option float64
}.
#[export] Instance eta_CompletionRequest : Eta CompletionRequest := λ r,
  mkCompletionRequest (cr_UserID r) (cr_Model r) (cr_Messages r) (cr_Tools r) (cr_ResponseFormat r)
    (cr_MaxOutputTokens r) (cr_Temperature r).

(** ** Transcription (transcription.go): the recording by its bytes *)

Record TranscriptionRequest := mkTranscriptionRequest {
  tr_UserID : string; tr_Model : string; tr_Audio : string; tr_Filename : string; tr_ContentType : string
}.
Record Transcription := mkTranscription { tn_Text : string; tn_Usage : TokenUsage }.

(** ** The ports *)

Record channel (W : Type) := mkChannel { ch_chunks : list CompletionChunk; ch_drained : M W () }.
Arguments mkChannel {W}. Arguments ch_chunks {W}. Arguments ch_drained {W}.

Class AIProvider (W : Type) := {
  Complete : CompletionRequest → M W Completion;
  AIStream : CompletionRequest → M W (channel W)
}.
Class AudioTranscriber (W : Type) := { Transcribe : TranscriptionRequest → M W Transcription }.

(** ** The scripted adapters (memory/ai_provider.go, audio_transcriber.go) *)

Record ScriptedProvider := mkScriptedProvider {
  ai_answer : string; ai_toolCalls : list ToolCall; ai_err : option error;
  ai_requests : list CompletionRequest; ai_scripted : bool; ai_scriptedToolCalls : list ToolCall;
  ai_scriptedAnswer : string
}.
#[export] Instance eta_ScriptedProvider : Eta ScriptedProvider := λ r,
  mkScriptedProvider (ai_answer r) (ai_toolCalls r) (ai_err r) (ai_requests r) (ai_scripted r)
    (ai_scriptedToolCalls r) (ai_scriptedAnswer r).

Definition NewAIProvider (answer : string) : ScriptedProvider := mkScriptedProvider answer [] None [] false [] "".
Definition WithToolCalls (calls : list ToolCall) (p : ScriptedProvider) : ScriptedProvider :=
  p <| ai_toolCalls := calls |>.
Definition WithScriptedRounds (toolCalls : list ToolCall) (answer : string) (p : ScriptedProvider) : ScriptedProvider :=
  p <| ai_scripted := true |> <| ai_scriptedToolCalls := toolCalls |> <| ai_scriptedAnswer := answer |>.
Definition WithError (err : error) (p : ScriptedProvider) : ScriptedProvider := p <| ai_err := Some err |>.

Definition scripted_Complete (request : CompletionRequest) : M ScriptedProvider Completion := λ p,
  let p := p <| ai_requests ::= λ l, l ++ [request] |> in
  match ai_err p with
  | Some err => (p, inl err)
  | None =>
      if ai_scripted p && (Z.of_nat (length (ai_requests p)) =? 1)
      then (p, inr (mkCompletion (Plain "") (ai_scriptedToolCalls p) no_usage "tool_calls"))
      else
        let answer := if ai_scripted p then ai_scriptedAnswer p else ai_answer p in
        (p, inr (mkCompletion (Plain answer) (ai_toolCalls p) (mkTokenUsage 10 5 15) "stop"))
  end.

(** [strings.Fields]: [word] is the word being read. *)
Fixpoint fields_loop (fuel : nat) (word l : bytes) : list bytes :=
  let emit := match word with [] => [] | _ => [word] end in
  match fuel, l with
  | S fuel, c :: l' =>
      let rest := trim_front true l in
      if (length rest <? length l)%nat then emit ++ fields_loop fuel [] rest
      else fields_loop fuel (word ++ [c]) l'
  | _, _ => emit
  end.
Definition Fields (s : string) : list string :=
  let l := String.list_ascii_of_string s in
  map String.string_of_list_ascii (fields_loop (S (length l)) [] l).

Definition word_chunks (answer : string) : list CompletionChunk :=
  match Fields answer with
  | [] => []
  | word :: words => delta_chunk word :: map (λ word, delta_chunk (" " +:+ word)) words
  end.

Definition scripted_Stream {W} (request : CompletionRequest) : ScriptedProvider → ScriptedProvider * channel W := λ p,
  let p := p <| ai_requests ::= λ l, l ++ [request] |> in
  let chunks :=
    match ai_err p with
    | Some err => [err_chunk err]
    | None =>
        if ai_scripted p && (Z.of_nat (length (ai_requests p)) =? 1)
        then [mkCompletionChunk "" (ai_scriptedToolCalls p) None "tool_calls" None true]
        else word_chunks (if ai_scripted p then ai_scriptedAnswer p else ai_answer p)
             ++ [mkCompletionChunk "" (ai_toolCalls p) None "stop" None true]
    end in
  (p, mkChannel chunks (mret ())).

Definition memory_AIProvider {W} (l : Lens W ScriptedProvider) : AIProvider W := {|
  Complete request := zoom l (scripted_Complete request);
  AIStream request := λ w,
    let '(p, channel) := scripted_Stream request (lens_get l w) in (lens_set l p w, inr channel)
|}.

Record ScriptedTranscriber := mkScriptedTranscriber {
  at_text : string; at_err : option error; at_requests : list TranscriptionRequest
}.
#[export] Instance eta_ScriptedTranscriber : Eta ScriptedTranscriber := λ r,
  mkScriptedTranscriber (at_text r) (at_err r) (at_requests r).
Definition NewAudioTranscriber (t : string) : ScriptedTranscriber := mkScriptedTranscriber t None [].
Definition scripted_Transcribe (request : TranscriptionRequest) : M ScriptedTranscriber Transcription := λ t,
  let t := t <| at_requests ::= λ l, l ++ [request] |> in
  match at_err t with
  | Some err => (t, inl err)
  | None => (t, inr (mkTranscription (at_text t) (mkTokenUsage 5 3 8)))
  end.
Definition memory_AudioTranscriber {W} (l : Lens W ScriptedTranscriber) : AudioTranscriber W :=
  {| Transcribe request := zoom l (scripted_Transcribe request) |}.

(** ** Auditing every call (ai_audit.go)

    The counters are there when [WithMetrics] was called. *)

Definition Milliseconds (d : Duration) : Z := Z.quot d Millisecond.

Section Audit.
Context {W : Type} `{Env W} `{AIRequestRepository W}.
Context (calls tokens : option (Lens W CounterVec)).

Definition on_vec (vec : option (Lens W CounterVec)) (update : CounterVec → CounterVec) : M W () :=
  match vec with Some l => zoom l (modify update) | None => mret () end.

Definition recordUsageMetrics (workload : AIWorkload) (outcome : AIRequestOutcome) (usage : TokenUsage) : M W () :=
  on_vec calls (with_counter [workload; outcome] counter_Inc);;
  on_vec tokens (with_counter [workload; "input"] (counter_Add (f64_of (tu_InputTokens usage))));;
  on_vec tokens (with_counter [workload; "output"] (counter_Add (f64_of (tu_OutputTokens usage)))).

Definition outcome_of (err : option error) : AIRequestOutcome * string :=
  match err with Some err => (AIRequestError, ErrorText err) | None => (AIRequestSuccess, "") end.

Definition record_call (workload : AIWorkload) (request : CompletionRequest) (usage : TokenUsage)
    (latency : Duration) (err : option error) : M W () :=
  let '(outcome, message) := outcome_of err in
  id ← NewString;
  now ← Now;
  catch (RecordRequest (mkAIRequestRecord id (cr_UserID request) workload (cr_Model request) usage
    (Milliseconds latency) outcome message now));;
  recordUsageMetrics workload outcome usage.

(** A call that fails carries the zero completion. *)
Definition audited_Complete `{AIProvider W} (workload : AIWorkload) (request : CompletionRequest) : M W Completion :=
  start ← Now;
  result ← catch (Complete request);
  now ← Now;
  let '(usage, err) := match result with
                       | inr completion => (cp_Usage completion, None)
                       | inl err => (no_usage, Some err)
                       end in
  record_call workload request usage (Sub now start) err;;
  match result with inr completion => mret completion | inl err => throw err end.

(** What the relaying goroutine has seen once the chunks are through. *)
Definition last_usage (chunks : list CompletionChunk) : TokenUsage :=
  foldl (λ u c, default u (ck_Usage c)) no_usage chunks.
Definition last_err (chunks : list CompletionChunk) : option error :=
  foldl (λ e c, match ck_Err c with Some err => Some err | None => e end) None chunks.

Definition audited_Stream `{AIProvider W} (workload : AIWorkload) (request : CompletionRequest) : M W (channel W) :=
  result ← catch (AIStream request);
  match result with
  | inl err => record_call workload request no_usage 0 (Some err);; throw err
  | inr chunks =>
      start ← Now;
      mret (mkChannel (ch_chunks chunks) (
        ch_drained chunks;;
        now ← Now;
        record_call workload request (last_usage (ch_chunks chunks)) (Sub now start) (last_err (ch_chunks chunks))))
  end.

Definition AuditedAIProvider (provider : AIProvider W) (workload : AIWorkload) : AIProvider W := {|
  Complete := audited_Complete workload;
  AIStream := audited_Stream workload
|}.

Definition audited_Transcribe `{AudioTranscriber W} (request : TranscriptionRequest) : M W Transcription :=
  start ← Now;
  result ← catch (Transcribe request);
  let usage := match result with inr t => tn_Usage t | inl _ => no_usage end in
  let '(outcome, message) := outcome_of (match result with inr _ => None | inl err => Some err end) in
  id ← NewString;
  done ← Now;
  now ← Now;
  catch (RecordRequest (mkAIRequestRecord id (tr_UserID request) AIWorkloadTranscription (tr_Model request) usage
    (Milliseconds (Sub done start)) outcome message now));;
  recordUsageMetrics AIWorkloadTranscription outcome usage;;
  match result with inr t => mret t | inl err => throw err end.

Definition AuditedAudioTranscriber (transcriber : AudioTranscriber W) : AudioTranscriber W :=
  {| Transcribe := audited_Transcribe |}.
End Audit.

Example fields_ex : Fields "  to be	or  not " = ["to"; "be"; "or"; "not"].
Proof. vm_compute. reflexivity. Qed.
