(* ===== verification/AssistantSafety.v ===== *)
(** * What the assistant may see, cost and send

    The assistant answers with the asker's own data only; one question makes a
    bounded number of provider calls, each of them audited; and a stream ends in
    one terminal chunk. *)

From S2P Require Import Prelude.
From S2P Require Import GoTime.
From S2P Require Import GoStrings.
From S2P Require Import Domain.
From S2P Require Import Json.
From S2P Require Import Ports.
From S2P Require Import Memory.
From S2P Require Import MemoryStores.
From S2P Require Import World.
From S2P Require Import RateLimit.
From S2P Require Import Metrics.
From S2P Require Import AI.
From S2P Require Import Assistant.
#[global] Open Scope Z_scope.

(** ** The owner's capability

    The repositories reduced to what an owner may list; everything else fails. *)

Definition denied {W A} : M W A := throw ErrForbidden.

Definition own_expenses {W} (inner : ExpenseRepository W) (ownerID : string) : ExpenseRepository W := {|
  CreateExpense _ := denied;
  UpdateExpense _ := denied;
  GetExpense _ _ := denied;
  GetExpenseVisible _ _ _ := denied;
  ListExpenses f := if (lf_OwnerID f =s ownerID) && bool_decide (lf_SharedGroupIDs f = [])
                    then @ListExpenses W inner f else denied;
  DeleteExpense _ _ := denied
|}.
Definition own_budgets {W} (inner : BudgetRepository W) (ownerID : string) : BudgetRepository W := {|
  CreateBudget _ := denied;
  ListBudgets owner groups := if (owner =s ownerID) && bool_decide (groups = [])
                              then @ListBudgets W inner owner groups else denied;
  GetBudget _ _ _ := denied;
  UpdateBudget _ := denied;
  DeleteBudget _ _ := denied
|}.

(** Computations that agree. *)
Definition same {W A} (m m' : M W A) : Prop := ∀ w, m w = m' w.

Section Same.
Context {W : Type}.

Lemma same_refl {A} (m : M W A) : same m m. Proof. done. Qed.

Lemma same_bind {A B} (m m' : M W A) (k k' : A → M W B) :
  same m m' → (∀ a, same (k a) (k' a)) → same (m ≫= k) (m' ≫= k').
Proof. intros Hm Hk w. unfold mbind, M_bind. rewrite (Hm w). destruct (m' w) as [w1 [e|a]]; [done|apply Hk]. Qed.

Lemma same_catch {A} (m m' : M W A) : same m m' → same (catch m) (catch m').
Proof. intros Hm w. unfold catch. by rewrite (Hm w). Qed.

Lemma same_fold {A B} (body body' : B → A → M W B) acc l :
  (∀ b a, same (body b a) (body' b a)) → same (fold_m body acc l) (fold_m body' acc l).
Proof.
intros Hb. revert acc. induction l as [|x l IH]; intros acc; [apply same_refl|]. cbn.
apply same_bind; [apply Hb|]. intros b. apply IH.
Qed.
End Same.

Section Scope.
Context (Quote : string → string) {W : Type} `{Limiter W} `{AIProvider W}.
Context (E : ExpenseRepository W) (B : BudgetRepository W) (ownerID : string).
Let E' := own_expenses E ownerID.
Let B' := own_budgets B ownerID.

Lemma queryExpenses_own args :
  same (@queryExpenses Quote W E ownerID args) (@queryExpenses Quote W E' ownerID args).
Proof using Type.
unfold queryExpenses, tool_result. apply same_bind; [|intros ?; apply same_refl]. apply same_catch.
apply same_bind; [apply same_refl|]. intros a. apply same_bind; [apply same_refl|]. intros from.
apply same_bind; [apply same_refl|]. intros to. apply same_bind; [|intros ?; apply same_refl].
intros w. unfold E', own_expenses. cbn [ListExpenses lf_OwnerID lf_SharedGroupIDs]. by rewrite eqs_refl.
Qed.

Lemma queryBudgets_own : same (@queryBudgets W B ownerID) (@queryBudgets W B' ownerID).
Proof using Type.
unfold queryBudgets, tool_result. apply same_bind; [|intros ?; apply same_refl]. apply same_catch.
apply same_bind; [|intros ?; apply same_refl]. intros w. unfold B', own_budgets. cbn [ListBudgets]. by rewrite eqs_refl.
Qed.

Lemma resolve_own messages calls :
  same (@resolveToolCalls Quote W E B ownerID messages calls) (@resolveToolCalls Quote W E' B' ownerID messages calls).
Proof using Type.
apply same_fold. intros ms call. apply same_bind; [|intros ?; apply same_refl]. unfold callTool.
destruct (call_Name call =s toolQueryExpenses); [apply queryExpenses_own|].
destruct (call_Name call =s toolQueryBudgets); [apply queryBudgets_own|apply same_refl].
Qed.

Lemma rounds_own n req : same (ask_rounds Quote (H1 := E) (H2 := B) n ownerID req)
  (ask_rounds Quote (H1 := E') (H2 := B') n ownerID req).
Proof using Type.
revert req. induction n as [|n IH]; intros req; cbn [ask_rounds]; (apply same_bind; [apply same_refl|]); intros c;
  destruct (cp_ToolCalls c) as [|call calls]; try apply same_refl.
apply same_bind; [apply resolve_own|]. intros ms. apply IH.
Qed.

Lemma stream_own send settled n req : same (streamRounds Quote (H1 := E) (H2 := B) send settled n ownerID req)
  (streamRounds Quote (H1 := E') (H2 := B') send settled n ownerID req).
Proof using Type.
revert req. induction n as [|n IH]; intros req; cbn [streamRounds]; (apply same_bind; [apply same_refl|]);
  intros [e|source]; try apply same_refl; (apply same_bind; [apply same_refl|]); intros [final|]; try apply same_refl;
  destruct (ck_ToolCalls final) as [|call calls]; try apply same_refl.
apply same_bind; [apply resolve_own|]. intros ms. apply IH.
Qed.

(** [C28] The assistant works with the asker's own data and nothing else, whatever the
    model asks for: a question answered over the whole expense and budget
    repositories runs exactly as over repositories that can do nothing but list
    that owner's expenses and budgets, streamed or not. *)
Theorem assistant_scoped model send settled message :
  same (Ask Quote (H1 := E) (H2 := B) model ownerID message)
       (Ask Quote (H1 := own_expenses E ownerID) (H2 := own_budgets B ownerID) model ownerID message) ∧
  same (AskStream Quote (H1 := E) (H2 := B) model send settled ownerID message)
       (AskStream Quote (H1 := own_expenses E ownerID) (H2 := own_budgets B ownerID) model send settled ownerID message).
Proof using Type.
split; (apply same_bind; [apply same_refl|]); intros req; [apply rounds_own|apply stream_own].
Qed.
End Scope.

(** ** What a question costs *)

(** A call the provider was asked for, with the usage and the failure it told. *)
Record placed_call := mkPlaced { pc_request : CompletionRequest; pc_usage : TokenUsage; pc_error : option error }.

(** A provider that notes every call it is asked for. *)
Definition noting {W} (N : Lens W (list placed_call)) (P : AIProvider W) : AIProvider W := {|
  Complete req :=
    result ← catch (Complete req);
    zoom N (modify (λ l, l ++ [match result with
                               | inr c => mkPlaced req (cp_Usage c) None
                               | inl e => mkPlaced req no_usage (Some e)
                               end]));;
    match result with inr c => mret c | inl e => throw e end;
  AIStream req :=
    result ← catch (AIStream req);
    zoom N (modify (λ l, l ++ [match result with
                               | inr source => mkPlaced req (last_usage (ch_chunks source)) (last_err (ch_chunks source))
                               | inl e => mkPlaced req no_usage (Some e)
                               end]));;
    match result with inr source => mret source | inl e => throw e end
|}.

(** The audit record of a call. *)
Definition recorded_as (c : placed_call) (r : AIRequestRecord) : Prop :=
  ar_UserID r = cr_UserID (pc_request c) ∧ ar_Workload r = AIWorkloadAssistant ∧ ar_Model r = cr_Model (pc_request c) ∧
  ar_Usage r = pc_usage c ∧ (ar_Outcome r, ar_ErrorMessage r) = outcome_of (pc_error c).
Definition answered (c : placed_call) : Prop := pc_error c = None.
Definition asked_by (owner : string) (c : placed_call) : Prop := cr_UserID (pc_request c) = owner.

Section Cost.
Context (Quote : string → string) {W : Type} (L : Lens W (list AIRequestRecord)) `{!LensLaws L}.
Context (N : Lens W (list placed_call)) `{!LensLaws N}.
Context `{Env W} `{Limiter W} (P : AIProvider W) `{ExpenseRepository W} `{BudgetRepository W}.
Context (calls tokens : option (Lens W CounterVec)).
(** The caller of a stream, and the race of an abandoned channel. *)
Context (send : CompletionChunk → M W bool) (settled : M W bool).

(** The log of calls and the calls placed, and operations that touch neither. *)
Let log : W → list AIRequestRecord := lens_get L.
Let placed : W → list placed_call := lens_get N.
Definition books (w : W) : list AIRequestRecord * list placed_call := (log w, placed w).
Definition unlogged {A} (m : M W A) : Prop := keeps books m.
(** They do not fail either. *)
Definition quietly {A} (m : M W A) : Prop := ∀ w, ∃ w' a, m w = (w', inr a) ∧ books w' = books w.

(** Nothing but the audit writes the log, and nothing but the note of a call what was
    placed; the clock, the identifiers, the counters and the caller do not fail. *)
Record quiet : Prop := {
  quiet_log l w : placed (lens_set L l w) = placed w;
  quiet_placed p w : log (lens_set N p w) = log w;
  quiet_now : quietly Now;
  quiet_id : quietly NewString;
  quiet_allow key : unlogged (Allow key);
  quiet_complete req : unlogged (@Complete W P req);
  quiet_stream req w : match @AIStream W P req w with
                       | (w', inl _) => books w' = books w
                       | (w', inr source) => books w' = books w ∧ quietly (ch_drained source)
                       end;
  quiet_expenses f : unlogged (ListExpenses f);
  quiet_budgets owner groups : unlogged (ListBudgets owner groups);
  quiet_calls f : unlogged (on_vec calls f);
  quiet_tokens f : unlogged (on_vec tokens f);
  quiet_send chunk : quietly (send chunk);
  quiet_settled : quietly settled
}.
Context (Hq : quiet).

#[local] Instance requests_log : AIRequestRepository W := memory_AIRequestRepository L.
Definition audited : AIProvider W := AuditedAIProvider calls tokens (noting N P) AIWorkloadAssistant.
(** The caller stays to the end of the stream. *)
Definition stays : Prop := ∀ chunk w, (send chunk w).2 = inr true.

Lemma unlogged_ret {A} (a : A) : unlogged (mret a). Proof using Type. done. Qed.
Lemma quietly_ret {A} (a : A) : quietly (mret a). Proof using Type. intros w. by exists w, a. Qed.
Lemma quietly_bind {A B} (m : M W A) (k : A → M W B) : quietly m → (∀ a, quietly (k a)) → quietly (m ≫= k).
Proof using Type.
intros Hm Hk w. unfold mbind, M_bind. destruct (Hm w) as (w1 & a & -> & Hw1). destruct (Hk a w1) as (w2 & b & -> & Hw2).
exists w2, b. by rewrite Hw2.
Qed.
Lemma unlogged_tool m : unlogged m → quietly (tool_result (W := W) m).
Proof using Type.
intros Hm w. unfold tool_result, mbind, M_bind, catch. specialize (Hm w). destruct (m w) as [w1 [e|t]]; cbn in *; by do 2 eexists.
Qed.

Lemma resolve_settles owner messages cs : quietly (resolveToolCalls Quote owner messages cs).
Proof using Hq.
unfold resolveToolCalls. generalize (messages ++ map AssistantToolCallMessage cs).
induction cs as [|c cs IH]; intros ms; [apply quietly_ret|]. cbn. apply quietly_bind; [|apply IH].
apply quietly_bind; [|intros t; apply quietly_ret]. unfold callTool.
destruct (_ =s _); [|destruct (_ =s _); [|apply quietly_ret]]; apply unlogged_tool.
- apply keeps_bind; [destruct (blank _); [done|]; by destruct (dec_struct _ _ _)|]. intros args.
  apply keeps_bind; [apply keeps_map_err; by destruct (parseOptionalTime _)|]. intros from.
  apply keeps_bind; [apply keeps_map_err; by destruct (parseOptionalTime _)|]. intros to.
  apply keeps_bind; [by apply quiet_expenses|done].
- apply keeps_bind; [by apply quiet_budgets|done].
Qed.

(** ** One call *)

Lemma vec_settles vec f : vec = calls ∨ vec = tokens → quietly (on_vec vec f).
Proof using Hq.
intros Hvec w. assert (unlogged (on_vec vec f)) as Hk by (destruct Hvec as [->| ->]; apply Hq).
specialize (Hk w). unfold on_vec in *. destruct vec as [v|]; [|by exists w, ()]. unfold zoom, modify in *. cbn in *. by eexists _, ().
Qed.

(** [m] logs the call [c]. *)
Definition logs {A} (c : placed_call) (m : M W A) : Prop := ∀ w, ∃ w' a r,
  m w = (w', inr a) ∧ log w' = log w ++ [r] ∧ placed w' = placed w ∧ recorded_as c r.

Lemma logs_after {A B} c (m : M W A) (k : A → M W B) : quietly m → (∀ a, logs c (k a)) → logs c (m ≫= k).
Proof using Type.
intros Hm Hk w. unfold mbind, M_bind. destruct (Hm w) as (w1 & a & -> & [= Hb1 Hb2]).
destruct (Hk a w1) as (w2 & b & r & -> & ? & ? & ?). exists w2, b, r. split_and!; congruence.
Qed.
Lemma logs_before {A B} c (m : M W A) (k : A → M W B) : logs c m → (∀ a, quietly (k a)) → logs c (m ≫= k).
Proof using Type.
intros Hm Hk w. unfold mbind, M_bind. destruct (Hm w) as (w1 & a & r & -> & Hb1 & Hb2 & Hb3).
destruct (Hk a w1) as (w2 & b & -> & [= Hb4 Hb5]). exists w2, b, r. split_and!; congruence.
Qed.

Lemma record_call_logs req usage latency err :
  logs (mkPlaced req usage err) (record_call calls tokens AIWorkloadAssistant req usage latency err).
Proof using All.
unfold record_call. destruct (outcome_of err) as [outcome message] eqn:Ho.
apply logs_after; [by apply quiet_id|]. intros id. apply logs_after; [by apply quiet_now|]. intros now.
apply logs_before.
- intros w. unfold catch, zoom. cbn. eexists _, _, _. split; [reflexivity|]. unfold log. rewrite lens_get_set.
  split; [reflexivity|]. split; [by apply quiet_log|]. by split_and!.
- intros _. unfold recordUsageMetrics. repeat (apply quietly_bind; [apply vec_settles; tauto|intros ?]). apply vec_settles. tauto.
Qed.

(** Noting a call. *)
Lemma note_step c w : books (lens_set N (placed w ++ [c]) w) = (log w, placed w ++ [c]).
Proof using All. unfold books, placed. rewrite lens_get_set. f_equal. by apply quiet_placed. Qed.

(** An audited completion is placed and logged once; it fails when the call failed. *)
Lemma complete_logs req w : ∃ r c, match @Complete W audited req w with
  | (w', inr _) => answered c ∧ log w' = log w ++ [r] ∧ placed w' = placed w ++ [c]
  | (w', inl _) => log w' = log w ++ [r] ∧ placed w' = placed w ++ [c]
  end ∧ recorded_as c r ∧ pc_request c = req.
Proof using All.
unfold audited. cbn [Complete AuditedAIProvider]. unfold audited_Complete.
unfold mbind, M_bind. destruct (quiet_now Hq w) as (w1 & t & -> & [= Hl1 Hp1]).
unfold catch at 1. cbn [Complete noting]. unfold mbind, M_bind. unfold catch.
pose proof (quiet_complete Hq req w1) as Hc. destruct (Complete req w1) as [w2 r0]. injection Hc as Hl2 Hp2. cbn [fst] in Hl2, Hp2.
set (c := match r0 with inr c => mkPlaced req (cp_Usage c) None | inl e => mkPlaced req no_usage (Some e) end).
unfold zoom, modify. fold (placed w2). set (w3 := lens_set N (placed w2 ++ [c]) w2).
assert (books w3 = (log w, placed w ++ [c])) as [= Hl3 Hp3] by (unfold w3; rewrite note_step; congruence).
assert (∀ res : error + Completion, res = r0 → ∃ w4 t', Now w3 = (w4, inr t') ∧ log w4 = log w ∧ placed w4 = placed w ++ [c]) as Hnow.
{ intros _ _. destruct (quiet_now Hq w3) as (w4 & t' & -> & [= Hb3 Hb4]). exists w4, t'. split_and!; congruence. }
destruct (Hnow r0 eq_refl) as (w4 & t' & Hn & Hl4 & Hp4).
destruct r0 as [e|a]; cbn [throw mret M_ret]; rewrite Hn.
- destruct (record_call_logs req no_usage (Sub t' t) (Some e) w4) as (w5 & [] & r & -> & Hl5 & Hp5 & Hr).
  exists r, c. unfold throw. split_and!; try done; congruence.
- destruct (record_call_logs req (cp_Usage a) (Sub t' t) None w4) as (w5 & [] & r & -> & Hl5 & Hp5 & Hr).
  exists r, c. unfold mret, M_ret. split_and!; try done; congruence.
Qed.

(** An audited stream is placed when it starts, and logged when it fails to or once it has
    been read to its end. *)
Lemma stream_logs req w : ∃ c, pc_request c = req ∧ match @AIStream W audited req w with
  | (w', inl _) => ∃ r, recorded_as c r ∧ log w' = log w ++ [r] ∧ placed w' = placed w ++ [c]
  | (w', inr source) => log w' = log w ∧ placed w' = placed w ++ [c] ∧ logs c (ch_drained source)
  end.
Proof using All.
unfold audited. cbn [AIStream AuditedAIProvider]. unfold audited_Stream, mbind at 1, M_bind, catch at 1.
cbn [AIStream noting]. unfold mbind at 1, M_bind, catch. pose proof (quiet_stream Hq req w) as Hc.
destruct (AIStream req w) as [w2 r0].
set (c := match r0 with inr s => mkPlaced req (last_usage (ch_chunks s)) (last_err (ch_chunks s)) | inl e => mkPlaced req no_usage (Some e) end).
unfold mbind at 1, zoom at 1, modify. fold (placed w2). set (w3 := lens_set N (placed w2 ++ [c]) w2).
assert (books w2 = books w) as [= Hl2 Hp2] by (destruct r0; [exact Hc|exact (proj1 Hc)]).
assert (books w3 = (log w, placed w ++ [c])) as [= Hl3 Hp3] by (unfold w3; rewrite note_step; congruence).
exists c. split; [by destruct r0|]. destruct r0 as [e|source]; cbn [throw mret M_ret].
- unfold mbind, M_bind. destruct (record_call_logs req no_usage 0 (Some e) w3) as (w5 & [] & r & -> & Hl5 & Hp5 & Hr).
  unfold throw. exists r. split_and!; try done; congruence.
- unfold mbind at 1, M_bind. destruct (quiet_now Hq w3) as (w4 & t & -> & [= Hl4 Hp4]). unfold mret, M_ret.
  split; [congruence|]. split; [congruence|]. cbn [ch_drained]. apply logs_after; [exact (proj2 Hc)|]. intros _.
  apply logs_after; [by apply quiet_now|]. intros now. apply record_call_logs.
Qed.

(** ** A question *)

(** What a run placed, each call logged, and [Q] of the calls. *)
Definition accounted (owner : string) (Q : list placed_call → Prop) (b : list AIRequestRecord * list placed_call) (w : W) : Prop :=
  ∃ new recs, books w = (b.1 ++ recs, b.2 ++ new) ∧ Forall2 recorded_as new recs ∧ Forall (asked_by owner) new ∧ Q new.

Lemma accounted_none owner (Q : list placed_call → Prop) w : Q [] → accounted owner Q (books w) w.
Proof using Type. intros HQ. exists [], []. rewrite !app_nil_r. by split_and!. Qed.

Lemma accounted_later owner c r (Q Q' : list placed_call → Prop) l p w : recorded_as c r → asked_by owner c →
  (∀ new, Q new → Q' (c :: new)) → accounted owner Q (l ++ [r], p ++ [c]) w → accounted owner Q' (l, p) w.
Proof using Type.
intros Hr Hc HQ (new & recs & Hw & Hall & Hown & HQn). exists (c :: new), (r :: recs). cbn [fst snd] in *.
rewrite Hw, <- !app_assoc. split_and!; [done|by constructor|by constructor|by apply HQ].
Qed.

Definition cost_answered (most : nat) (new : list placed_call) : Prop := (1 ≤ length new ≤ most)%nat ∧ Forall answered new.
Definition cost_failed (most : nat) (new : list placed_call) : Prop := (length new ≤ most)%nat ∧ Forall answered (removelast new).

Lemma failed_later most c new : answered c → cost_failed most new → cost_failed (S most) (c :: new).
Proof using Type.
intros Hc [Hl Hn]. split; [cbn; lia|]. destruct new as [|c' new]; [constructor|]. by constructor.
Qed.

Lemma rounds_cost owner n : ∀ req w, cr_UserID req = owner →
  match ask_rounds Quote (H0 := audited) n owner req w with
  | (w', inr _) => accounted owner (cost_answered (S n)) (books w) w'
  | (w', inl _) => accounted owner (cost_failed (S n)) (books w) w'
  end.
Proof using All.
induction n as [|n IH]; intros req w Hreq; cbn [ask_rounds]; unfold mbind at 1, M_bind;
  destruct (complete_logs req w) as (r & c & Hrun & Hr & Hc); destruct (@Complete W audited req w) as [w1 [e|a]].
1, 3: destruct Hrun as [Hl Hp]; exists [c], [r]; unfold books; rewrite Hl, Hp; split_and!;
  [done|by constructor; [|constructor]|constructor; [unfold asked_by; congruence|constructor]|split; [cbn; lia|constructor]].
all: destruct Hrun as (Hok & Hl & Hp); assert (asked_by owner c) as Hown by (unfold asked_by; congruence);
  assert (books w1 = (log w ++ [r], placed w ++ [c])) as Hb by (unfold books; congruence);
  assert (∀ m, accounted owner (cost_answered (S m)) (books w) w1 ∧ accounted owner (cost_failed (S m)) (books w) w1) as Hone
    by (intros m; split; (apply (accounted_later owner c r (λ new, new = [])); [done|done|
      intros ? ->; split; [cbn; lia|by repeat constructor]|rewrite <- Hb; by apply accounted_none])).
- destruct (cp_ToolCalls a) as [|call cs]; [|exact (proj2 (Hone 0%nat))]. destruct (blank _); [exact (proj2 (Hone 0%nat))|exact (proj1 (Hone 0%nat))].
- destruct (cp_ToolCalls a) as [|call cs].
  { destruct (blank _); [exact (proj2 (Hone (S n)))|exact (proj1 (Hone (S n)))]. }
  destruct (resolve_settles owner (cr_Messages req) (call :: cs) w1) as (w2 & ms & Hres & Hw2).
  unfold mbind at 1. rewrite Hres. set (req' := req <| cr_Messages := ms |>). specialize (IH req' w2 Hreq). rewrite Hw2, Hb in IH.
  match type of IH with context [let (_, _) := ?y in _] => match goal with |- context [let (_, _) := ?x in _] =>
    change x with y; destruct y as [w3 [e|t]] end end; (eapply (accounted_later owner c r); [done|done| |exact IH]).
  + intros new. by apply failed_later.
  + intros new [Hlen Hall]. split; [cbn; lia|by constructor].
Qed.

(** ** A streamed question *)

(** A run that logged every call but perhaps a last one, whose stream was abandoned. *)
Definition outstanding (owner : string) (most : nat) (b : list AIRequestRecord * list placed_call) (w : W) : Prop :=
  ∃ new recs missing, books w = (b.1 ++ recs, b.2 ++ new ++ missing) ∧ Forall2 recorded_as new recs ∧
    Forall (asked_by owner) (new ++ missing) ∧ (length (new ++ missing) ≤ most)%nat ∧ (length missing ≤ 1)%nat ∧
    (stays → missing = []).

Lemma outstanding_none owner most w : outstanding owner most (books w) w.
Proof using Type. exists [], [], []. rewrite !app_nil_r. split_and!; try done; cbn; lia. Qed.

Lemma outstanding_later owner most c r l p w : recorded_as c r → asked_by owner c →
  outstanding owner most (l ++ [r], p ++ [c]) w → outstanding owner (S most) (l, p) w.
Proof using Type.
intros Hr Hc (new & recs & missing & Hw & Hall & Hown & Hlen & Hm & Hs). exists (c :: new), (r :: recs), missing. cbn [fst snd] in *.
rewrite Hw, <- !app_assoc. split_and!; [done|by constructor|by constructor|cbn; lia|done|done].
Qed.

(** Relaying a stream reads it to its end, unless the caller leaves. *)
Lemma relay_closes c source chunks : logs c (ch_drained source) → ∀ w, ∃ w' o, relay send settled source chunks w = (w', inr o) ∧
  placed w' = placed w ∧ ((∃ r, log w' = log w ++ [r] ∧ recorded_as c r) ∨ o = None ∧ log w' = log w ∧ ¬ stays).
Proof using Hq.
intros Hd.
assert (∀ w {A} (a : A), ∃ w', (ch_drained source;; mret a) w = (w', inr a) ∧ placed w' = placed w ∧ ∃ r, log w' = log w ++ [r] ∧ recorded_as c r) as Hend.
{ intros w A a. unfold mbind, M_bind. destruct (Hd w) as (w1 & [] & r & -> & ? & ? & ?). exists w1. split_and!; [done|done|by exists r]. }
assert (∀ w, ¬ stays → ∃ w', (drain settled source;; mret (None : option CompletionChunk)) w = (w', inr None) ∧ placed w' = placed w ∧
  ((∃ r, log w' = log w ++ [r] ∧ recorded_as c r) ∨ log w' = log w)) as Hdrain.
{ intros w _. unfold drain, mbind, M_bind. destruct (quiet_settled Hq w) as (w1 & b & -> & [= Hl1 Hp1]). destruct b.
  - destruct (Hd w1) as (w2 & [] & r & -> & Hl2 & Hp2 & Hr). exists w2. split_and!; [done|congruence|]. left. exists r. split; [congruence|done].
  - exists w1. split_and!; [done|congruence|]. by right. }
induction chunks as [|chunk chunks IH]; intros w; cbn [relay].
{ destruct (Hend w _ (None : option CompletionChunk)) as (w' & -> & Hp & Hr). exists w', None. split_and!; [done|done|by left]. }
assert (∀ w, ∃ w1 b, send chunk w = (w1, inr b) ∧ log w1 = log w ∧ placed w1 = placed w ∧ (b = false → ¬ stays)) as Hsend.
{ intros w0. destruct (quiet_send Hq chunk w0) as (w1 & b & Hr & [= Hl1 Hp1]). exists w1, b. split_and!; [done|done|done|].
  intros -> Hs. specialize (Hs chunk w0). by rewrite Hr in Hs. }
destruct (ck_Err chunk).
- unfold mbind at 1, M_bind at 1. destruct (Hsend w) as (w1 & b & -> & Hl1 & Hp1 & Hb). destruct b.
  + destruct (Hend w1 _ (None : option CompletionChunk)) as (w2 & -> & Hp2 & Hr). exists w2, None.
    split_and!; [done|congruence|]. left. by rewrite <- Hl1.
  + destruct (Hdrain w1 (Hb eq_refl)) as (w2 & -> & Hp2 & Hr). exists w2, None. split_and!; [done|congruence|].
    rewrite <- Hl1. destruct Hr as [Hr|Hr]; [by left|right]. split_and!; [done|done|by apply Hb].
- destruct (ck_Done chunk).
  { destruct (Hend w _ (Some chunk)) as (w' & -> & Hp & Hr). exists w', (Some chunk). split_and!; [done|done|by left]. }
  unfold mbind at 1, M_bind at 1. destruct (Hsend w) as (w1 & b & -> & Hl1 & Hp1 & Hb). destruct b.
  + destruct (IH w1) as (w2 & o & -> & Hp2 & Hr). exists w2, o. rewrite <- Hl1. split_and!; [done|congruence|done].
  + destruct (Hdrain w1 (Hb eq_refl)) as (w2 & -> & Hp2 & Hr). exists w2, None. split_and!; [done|congruence|].
    rewrite <- Hl1. destruct Hr as [Hr|Hr]; [by left|right]. split_and!; [done|done|by apply Hb].
Qed.

Lemma stream_rounds_cost owner n : ∀ req w, cr_UserID req = owner →
  ∃ w', streamRounds Quote (H0 := audited) send settled n owner req w = (w', inr ()) ∧ outstanding owner (S n) (books w) w'.
Proof using All.
assert (∀ chunk w, ∃ w', (send chunk;; mret ()) w = (w', inr ()) ∧ books w' = books w) as Hsend.
{ intros chunk w. unfold mbind, M_bind. destruct (quiet_send Hq chunk w) as (w1 & b & -> & Hw1). by exists w1. }
induction n as [|n IH]; intros req w Hreq; cbn [streamRounds]; unfold mbind at 1, M_bind at 1, catch;
  destruct (stream_logs req w) as (c & Hc & Hrun); assert (asked_by owner c) as Hown by (unfold asked_by; congruence);
  destruct (@AIStream W audited req w) as [w1 [e|source]].
1, 3: destruct Hrun as (r & Hr & Hl & Hp); destruct (Hsend (err_chunk e) w1) as (w2 & -> & Hw2); exists w2; (split; [done|]);
  apply (outstanding_later owner _ c r); [done|done|]; unfold books in Hw2; rewrite Hl, Hp in Hw2; rewrite <- Hw2; apply outstanding_none.
all: destruct Hrun as (Hl & Hp & Hd); unfold relayRound;
  destruct (relay_closes c source (ch_chunks source) Hd w1) as (w2 & o & Hrelay & Hp2 & Hr);
  unfold mbind at 1, M_bind at 1; rewrite Hrelay; rewrite Hl in Hr; rewrite Hp in Hp2;
  assert (∀ m, log w2 = log w → ¬ stays → outstanding owner (S m) (books w) w2) as Hgone
    by (intros m Hl2 Hleft; exists [], [], [c]; unfold books; cbn; rewrite Hl2, Hp2, app_nil_r; (split_and!; [done|constructor|by repeat constructor|lia|lia|done]));
  destruct Hr as [(r & Hl2 & Hr)|(-> & Hl2 & Hleft)]; [|exists w2; split; [done|]; by apply Hgone].
all: assert (∀ m w', books w' = books w2 → outstanding owner (S m) (books w) w') as Hone
    by (intros m w' Hw'; apply (outstanding_later owner m c r); [done|done|]; rewrite <- Hl2, <- Hp2; fold (books w2); rewrite <- Hw'; apply outstanding_none).
all: destruct o as [final|]; [|exists w2; split; [done|by apply Hone]].
- destruct (ck_ToolCalls final) as [|call cs].
  + destruct (Hsend final w2) as (w3 & -> & Hw3). exists w3. split; [done|by apply Hone].
  + destruct (Hsend (err_chunk too_many_rounds) w2) as (w3 & -> & Hw3). exists w3. split; [done|by apply Hone].
- destruct (ck_ToolCalls final) as [|call cs].
  { destruct (Hsend final w2) as (w3 & -> & Hw3). exists w3. split; [done|by apply Hone]. }
  destruct (resolve_settles owner (cr_Messages req) (call :: cs) w2) as (w3 & ms & Hres & Hw3).
  unfold mbind, M_bind. rewrite Hres. set (req' := req <| cr_Messages := ms |>). destruct (IH req' w3 Hreq) as (w4 & -> & Hout).
  exists w4. split; [done|]. apply (outstanding_later owner _ c r); [done|done|].
  rewrite Hw3 in Hout. unfold books in Hout. by rewrite Hl2, Hp2 in Hout.
Qed.

End Cost.

(** ** What the caller of a stream receives *)

(** The caller's end of the channel: what arrived, and how many more chunks it will
    take before it leaves ([None]: it stays). *)
Record Caller := mkCaller { received : list CompletionChunk; patience : option nat }.

Definition caller_send {W} (C : Lens W Caller) (chunk : CompletionChunk) : M W bool :=
  zoom C (λ c, match patience c with
               | Some O => (c, inr false)
               | p => (mkCaller (received c ++ [chunk]) (Nat.pred <$> p), inr true)
               end).

(** Chunks of a stream before its end, and the two ends. *)
Definition is_delta (c : CompletionChunk) : Prop := ck_Err c = None ∧ ck_Done c = false.
Definition is_end (c : CompletionChunk) : Prop :=
  is_Some (ck_Err c) ∨ (ck_Err c = None ∧ ck_Done c = true).

Section Stream.
Context (Quote : string → string) {W : Type} (C : Lens W Caller) `{!LensLaws C}.
Context `{Limiter W} `{AIProvider W} `{ExpenseRepository W} `{BudgetRepository W} (settled : M W bool).

Let caller : W → Caller := lens_get C.
(** [m] does not fail and does not reach the caller. *)
Definition calm {A} (m : M W A) : Prop := ∀ w, ∃ w' a, m w = (w', inr a) ∧ caller w' = caller w.

(** What the port documents of a stream: deltas, then one chunk that carries
    [Done] or [Err], then the end of the channel. *)
Definition proper (source : channel W) : Prop :=
  (∃ ds last, ch_chunks source = ds ++ [last] ∧ Forall is_delta ds ∧ is_end last) ∧ calm (ch_drained source).

Record streaming : Prop := {
  str_stream req w : match AIStream req w with
                     | (w', inl _) => caller w' = caller w
                     | (w', inr source) => caller w' = caller w ∧ proper source
                     end;
  str_allow key : keeps caller (Allow key);
  str_expenses f : keeps caller (ListExpenses f);
  str_budgets owner groups : keeps caller (ListBudgets owner groups);
  str_settled : calm settled
}.
Context (Hs : streaming).

Lemma send_step chunk w : let '(w', r) := caller_send C chunk w in
  (r = inr true ∧ received (caller w') = received (caller w) ++ [chunk]) ∨
  (r = inr false ∧ w' = w ∧ patience (caller w) = Some O).
Proof using LensLaws0.
unfold caller_send, zoom. fold caller. destruct (patience (caller w)) as [[|n]|] eqn:Hp; cbn.
- right. split; [done|]. unfold caller in *. by rewrite lens_set_get.
- left. unfold caller. by rewrite lens_get_set.
- left. unfold caller. by rewrite lens_get_set.
Qed.

Lemma drain_calm source : calm (ch_drained source) → calm (drain settled source).
Proof using Hs.
intros Hd w. destruct (str_settled Hs w) as (w1 & b & H3 & H4). unfold drain, mbind, M_bind. rewrite H3.
destruct b; [|by exists w1, ()]. destruct (Hd w1) as (w2 & [] & -> & H5). exists w2, (). by rewrite H5.
Qed.

(** What a run gave the caller, after [r]: deltas only, and then [End]. *)
Definition gave (r : list CompletionChunk) (w : W) (End : list CompletionChunk → Prop) : Prop :=
  ∃ ds e, received (caller w) = r ++ ds ++ e ∧ Forall is_delta ds ∧ End e.
Definition left_ (w : W) (e : list CompletionChunk) : Prop := e = [] ∧ patience (caller w) = Some O.
Definition ended (e : list CompletionChunk) : Prop :=
  ∃ c, e = [c] ∧ (is_Some (ck_Err c) ∨ (ck_Err c = None ∧ ck_Done c = true ∧ ck_ToolCalls c = [])).

Lemma gave_more r c w P : is_delta c → gave (r ++ [c]) w P → gave r w P.
Proof using Type.
intros Hc (ds & e & Hr & Hd & He). exists (c :: ds), e. rewrite Hr, <- app_assoc. split_and!; [done|by constructor|done].
Qed.

Lemma relay_gives source ds last w : calm (ch_drained source) → Forall is_delta ds → is_end last →
  ∃ w' o, relay (caller_send C) settled source (ds ++ [last]) w = (w', inr o) ∧
    match o with
    | Some c => c = last ∧ ck_Err last = None ∧ gave (received (caller w)) w' (λ e, e = [])
    | None => gave (received (caller w)) w' (λ e, ended e ∨ left_ w' e)
    end.
Proof using Hs LensLaws0.
intros Hd Hds Hl. revert w. induction Hds as [|c ds Hc _ IH]; intros w; cbn [app relay].
- destruct Hl as [[err Herr]|[Herr Hdone]]; rewrite Herr.
  + pose proof (send_step last w) as Hsend. unfold mbind at 1, M_bind at 1. destruct (caller_send C last w) as [w1 s].
    destruct Hsend as [[-> Hrec]|(-> & -> & Hp)]; unfold mbind, M_bind.
    * destruct (Hd w1) as (w2 & [] & -> & Hw2). exists w2, None. split; [done|]. exists [], [last].
      rewrite Hw2, Hrec. split_and!; [done|constructor|]. left. exists last. split; [done|]. left. by rewrite Herr.
    * destruct (drain_calm source Hd w) as (w2 & [] & -> & Hw2). exists w2, None. split; [done|].
      exists [], []. rewrite Hw2, !app_nil_r. split_and!; [done|constructor|]. right. unfold left_. by rewrite Hw2.
  + rewrite Hdone. unfold mbind, M_bind. destruct (Hd w) as (w2 & [] & -> & Hw2). exists w2, (Some last).
    split; [done|]. split_and!; [done..|]. exists [], []. rewrite Hw2, !app_nil_r. split_and!; [done|constructor|done].
- destruct Hc as [Herr Hdone]. rewrite Herr, Hdone. pose proof (send_step c w) as Hsend.
  unfold mbind at 1, M_bind at 1. destruct (caller_send C c w) as [w1 s].
  destruct Hsend as [[-> Hrec]|(-> & -> & Hp)].
  + destruct (IH w1) as (w2 & o & -> & Ho). exists w2, o. split; [done|]. rewrite Hrec in Ho.
    assert (is_delta c) as Hc by done. destruct o as [f|]; [destruct Ho as (? & ? & Hg); split_and!; [done..|]|];
      by eapply gave_more.
  + unfold mbind, M_bind. destruct (drain_calm source Hd w) as (w2 & [] & -> & Hw2). exists w2, None. split; [done|].
    exists [], []. rewrite Hw2, !app_nil_r. split_and!; [done|constructor|]. right. unfold left_. by rewrite Hw2.
Qed.

Lemma resolve_calm owner messages cs : calm (resolveToolCalls Quote owner messages cs).
Proof using Hs.
unfold resolveToolCalls. generalize (messages ++ map AssistantToolCallMessage cs).
assert (∀ {A B} (m : M W A) (k : A → M W B), calm m → (∀ a, calm (k a)) → calm (m ≫= k)) as Hbind.
{ intros A B m k Hm Hk w. unfold mbind, M_bind. destruct (Hm w) as (w1 & a & -> & Hw1).
  destruct (Hk a w1) as (w2 & b & -> & Hw2). exists w2, b. by rewrite Hw2. }
assert (∀ m, keeps caller m → calm (tool_result (W := W) m)) as Htool.
{ intros m Hm w. unfold tool_result, mbind, M_bind, catch. specialize (Hm w).
  destruct (m w) as [w1 [e|t]]; cbn in *; by do 2 eexists. }
induction cs as [|c cs IH]; intros ms; [intros w; by exists w, ms|]. cbn. apply Hbind; [|apply IH].
apply Hbind; [|intros t w; by do 2 eexists]. unfold callTool.
destruct (_ =s _); [|destruct (_ =s _); [|intros w; by do 2 eexists]]; apply Htool.
- apply keeps_bind; [destruct (blank _); [done|]; by destruct (dec_struct _ _ _)|]. intros args.
  apply keeps_bind; [apply keeps_map_err; by destruct (parseOptionalTime _)|]. intros from.
  apply keeps_bind; [apply keeps_map_err; by destruct (parseOptionalTime _)|]. intros to.
  apply keeps_bind; [by apply str_expenses|done].
- apply keeps_bind; [by apply str_budgets|done].
Qed.

Lemma send_last c w r P : (∀ e, P e → e = []) → is_Some (ck_Err c) ∨ (ck_Err c = None ∧ ck_Done c = true ∧ ck_ToolCalls c = []) →
  gave r w P → ∃ w', (caller_send C c;; mret ()) w = (w', inr ()) ∧ gave r w' (λ e, ended e ∨ left_ w' e).
Proof using LensLaws0.
intros HP Hc (ds & e & Hr & Hds & He). apply HP in He as ->. rewrite app_nil_r in Hr.
pose proof (send_step c w) as Hsend. unfold mbind, M_bind. destruct (caller_send C c w) as [w1 s].
destruct Hsend as [[-> Hrec]|(-> & -> & Hp)]; eexists; (split; [done|]).
- exists ds, [c]. rewrite Hrec, Hr, <- app_assoc. split_and!; [done..|]. left. by exists c.
- exists ds, []. rewrite app_nil_r. split_and!; [done..|]. by right.
Qed.

Lemma gave_trans r w w' P Q : (∀ e, P e → e = []) → gave r w P → gave (received (caller w)) w' Q → gave r w' Q.
Proof using Type.
intros HP (ds & e & Hr & Hds & He) (ds' & e' & Hr' & Hds' & He'). apply HP in He as ->. rewrite app_nil_r in Hr.
exists (ds ++ ds'), e'. rewrite Hr', Hr, <- !app_assoc. split_and!; [done|by apply Forall_app|done].
Qed.

Lemma rounds_give owner n : ∀ req w, ∃ w', streamRounds Quote (caller_send C) settled n owner req w = (w', inr ()) ∧
  gave (received (caller w)) w' (λ e, ended e ∨ left_ w' e).
Proof using All.
assert (∀ w, gave (received (caller w)) w (λ e, e = [])) as Hself
  by (intros w; exists [], []; rewrite !app_nil_r; split_and!; [done|constructor|done]).
induction n as [|n IH]; intros req w; cbn [streamRounds]; unfold mbind at 1, M_bind at 1, catch;
  pose proof (str_stream Hs req w) as Hst; destruct (AIStream req w) as [w1 [e|source]].
1,3: (destruct (send_last (err_chunk e) w1 (received (caller w1)) (λ e, e = [])) as (w2 & -> & Hg); [done|by left; eexists|apply Hself|];
  exists w2; split; [done|by rewrite <- Hst]).
all: destruct Hst as [Hw1 [(ds & last & Hch & Hds & Hl) Hd]]; unfold relayRound; rewrite Hch;
  destruct (relay_gives source ds last w1 Hd Hds Hl) as (w2 & o & Hrelay & Ho);
  unfold mbind at 1, M_bind at 1; rewrite Hrelay; rewrite Hw1 in Ho; (destruct o as [c|]; [|by exists w2]);
  destruct Ho as (-> & Herr & Hg); destruct (ck_ToolCalls last) as [|call cs] eqn:Hcalls.
1,3: (eapply send_last; [|right|exact Hg]; [done|]; destruct Hl as [[err Hsome]|[? ?]]; [congruence|done]).
- eapply send_last; [|left|exact Hg]; [done|by eexists].
- destruct (resolve_calm owner (cr_Messages req) (call :: cs) w2) as (w3 & ms & Hres & Hw3).
  unfold mbind, M_bind. rewrite Hres. destruct (IH (req <| cr_Messages := ms |>) w3) as (w4 & -> & Hg').
  exists w4. split; [done|]. rewrite Hw3 in Hg'. eapply gave_trans; [|exact Hg|exact Hg']. done.
Qed.

(** A streamed answer always comes to its end, whatever the model does: what the
    caller receives is content deltas and then exactly one terminal chunk, an error
    or a finished answer that asks for no tool; only a caller who left misses it.
    Tool calls never reach the caller.  A question that is turned away sends
    nothing. *)
Theorem stream_ends_once model owner message w :
  let '(w', r) := AskStream Quote model (caller_send C) settled owner message w in
  match r with
  | inr _ => gave (received (caller w)) w' (λ e, ended e ∨ left_ w' e)
  | inl _ => caller w' = caller w
  end.
Proof using All.
unfold AskStream, request. destruct (TrimSpace message =s ""); [done|]. destruct (owner =s ""); [done|].
pose proof (str_allow Hs ("assistant:" +:+ owner) w) as Ha. unfold mbind, M_bind.
destruct (Allow _ w) as [w1 [e|[]]]; [exact Ha| |exact Ha]. cbn in Ha. cbn [negb mret M_ret].
edestruct (rounds_give owner maxToolRounds) as (w2 & Hrun & Hg). rewrite Hrun. by rewrite <- Ha.
Qed.
End Stream.

(** ** Example: one tool call, then an answer *)

Module Sample.
Import World.Sample.
#[local] Existing Instance default_runtime.

Record Desk := mkDesk {
  dk_requests : list AIRequestRecord; dk_placed : list placed_call; dk_provider : ScriptedProvider; dk_limiter : FixedWindow;
  dk_caller : Caller; dk_time : Time; dk_expenses : ExpenseStore; dk_budgets : BudgetStore
}.
#[export] Instance eta_Desk : Eta Desk := λ r, mkDesk (dk_requests r) (dk_placed r) (dk_provider r) (dk_limiter r) (dk_caller r)
  (dk_time r) (dk_expenses r) (dk_budgets r).
Definition D_requests : Lens Desk (list AIRequestRecord) :=
  {| lens_get := dk_requests; lens_set s w := w <| dk_requests := s |> |}.
Definition D_placed : Lens Desk (list placed_call) :=
  {| lens_get := dk_placed; lens_set s w := w <| dk_placed := s |> |}.
Definition D_provider : Lens Desk ScriptedProvider :=
  {| lens_get := dk_provider; lens_set s w := w <| dk_provider := s |> |}.
Definition D_limiter : Lens Desk FixedWindow := {| lens_get := dk_limiter; lens_set s w := w <| dk_limiter := s |> |}.
Definition D_caller : Lens Desk Caller := {| lens_get := dk_caller; lens_set s w := w <| dk_caller := s |> |}.
Definition D_expenses : Lens Desk ExpenseStore := {| lens_get := dk_expenses; lens_set s w := w <| dk_expenses := s |> |}.
Definition D_budgets : Lens Desk BudgetStore := {| lens_get := dk_budgets; lens_set s w := w <| dk_budgets := s |> |}.

#[local] Instance D_requests_laws : LensLaws D_requests. Proof. split; intros; by repeat match goal with w : Desk |- _ => destruct w end. Qed.
#[local] Instance D_placed_laws : LensLaws D_placed. Proof. split; intros; by repeat match goal with w : Desk |- _ => destruct w end. Qed.
#[local] Instance D_caller_laws : LensLaws D_caller. Proof. split; intros; by repeat match goal with w : Desk |- _ => destruct w end. Qed.

#[local] Instance desk_env : Env Desk := {|
  Now w := (w <| dk_time ::= λ t, t + Second |>, inr (dk_time w));
  NewString w := (w, inr "id")
|}.
#[local] Instance desk_limiter : Limiter Desk := fixed_Limiter D_limiter.
#[local] Instance desk_provider : AIProvider Desk := memory_AIProvider D_provider.
#[local] Instance desk_expenses : ExpenseRepository Desk := memory_ExpenseRepository D_expenses.
#[local] Instance desk_budgets : BudgetRepository Desk := memory_BudgetRepository D_budgets.

Definition coffee : ExpenseRecord := zero_expense <| ex_ID := "e1" |> <| ex_OwnerID := "ann" |>
  <| ex_Title := "Coffee" |> <| ex_AmountMinor := 350 |> <| ex_Currency := "EUR" |> <| ex_OccurredAt := Date 2026 3 1 9 0 0 0 |>.
Definition secret : ExpenseRecord := coffee <| ex_ID := "e2" |> <| ex_OwnerID := "bob" |> <| ex_Title := "Ring" |>.

Definition look_up : list ToolCall :=
  [mkToolCall "c1" toolQueryExpenses (Encoded (JObject [("from", JString "2026-03-01T00:00:00+01:00"); ("limit", JInt 5)]))].

Definition desk : Desk := mkDesk [] []
  (WithScriptedRounds look_up "You spent **3.50 EUR**." (NewAIProvider "")) (NewFixedWindow 10 Minute)
  (mkCaller [] None) (Date 2026 3 2 8 0 0 0) (<["e1" := coffee]> {["e2" := secret]}) ∅.

Example asked : (Ask quoted "gpt" "ann" "How much was coffee?" desk).2 = inr (Plain "You spent **3.50 EUR**.").
Proof. vm_compute. reflexivity. Qed.

(** The tool's result, as the model saw it. *)
Example tool_answer :
  (msg_Text <$> list.last (default [] (cr_Messages <$> list.last (ai_requests (dk_provider
    (Ask quoted "gpt" "ann" "How much was coffee?" desk).1))))) =
  Some (Some (Encoded (JObject [("expenses", JArray [JObject [("title", JString "Coffee"); ("amount_minor", JInt 350);
    ("currency", JString "EUR"); ("occurred_at", JString "2026-03-01T09:00:00Z")]]);
    ("matched_count", JInt 1); ("returned_count", JInt 1)]))).
Proof. vm_compute. reflexivity. Qed.

Lemma desk_keeps {T S A} (f : Desk → T) (l : Lens Desk S) (m : M S A) :
  (∀ s w, f (lens_set l s w) = f w) → keeps f (zoom l m).
Proof. intros Hl w. unfold zoom. destruct (m (lens_get l w)) as [s r]. apply Hl. Qed.

Lemma allow_keeps {T} (f : Desk → T) key :
  (∀ s w, f (lens_set D_limiter s w) = f w) → (∀ w, f (w <| dk_time ::= λ t, t + Second |>) = f w) → keeps f (Allow key).
Proof.
intros Hl Ht. cbn. apply keeps_bind; [intros w; apply Ht|]. intros t. by apply desk_keeps.
Qed.

Lemma desk_quiet : quiet D_requests D_placed desk_provider None None (caller_send D_caller) (mret true).
Proof.
split; try (intros; by apply allow_keeps); try (intros; by apply desk_keeps); try done.
- intros w. by eexists _, _.
- intros w. by eexists _, _.
- intros req w. cbn. split; [done|]. intros w'. by exists w', ().
- intros chunk w. unfold caller_send, zoom. by destruct (patience _) as [[|n]|]; eexists _, _.
- intros w. by eexists _, true.
Qed.

Abbreviation audited_desk := (audited D_requests D_placed desk_provider None None).
Definition asked_desk : Desk := (Ask quoted (H0 := audited_desk) "gpt" "ann" "How much was coffee?" desk).1.
Definition streamed_desk : Desk :=
  (AskStream quoted (H0 := audited_desk) "gpt" (caller_send D_caller) (mret true) "ann" "How much was coffee?" desk).1.

(** Two calls each, the one that asks for a tool and the one that answers. *)
Example calls_recorded : (length (dk_placed asked_desk), length (dk_requests asked_desk),
  length (dk_placed streamed_desk), length (dk_requests streamed_desk)) = (2, 2, 2, 2)%nat.
Proof. vm_compute. reflexivity. Qed.


Lemma desk_streaming : streaming D_caller (mret true).
Proof.
split; try (intros; by apply allow_keeps); try (intros; by apply desk_keeps).
- intros req w. cbn. unfold scripted_Stream. split; [done|]. split; [|by intros w'; eexists _, ()].
  destruct (ai_err _); [by exists [], (err_chunk e); repeat split; [constructor|left; eexists]|].
  destruct (_ && _).
  + eexists [], _. split; [done|]. split; [constructor|by right].
  + eexists _, _. split; [done|]. split; [|by right]. unfold word_chunks. destruct (Fields _) as [|x l]; constructor; [done|].
    apply Forall_map, Forall_forall. by intros.
- by intros w; eexists _, true.
Qed.

Lemma stream_ends_once_witness :
  gave D_caller [] (AskStream quoted "gpt" (caller_send D_caller) (mret true) "ann" "How much was coffee?" desk).1
    (λ e, ended e ∨ left_ D_caller (AskStream quoted "gpt" (caller_send D_caller) (mret true) "ann" "How much was coffee?" desk).1 e) ∧
  map ck_ContentDelta (received (dk_caller
    (AskStream quoted "gpt" (caller_send D_caller) (mret true) "ann" "How much was coffee?" desk).1)) =
    ["You"; " spent"; " **3.50"; " EUR**."; ""].
Proof.
split; [|vm_compute; reflexivity].
pose proof (stream_ends_once quoted D_caller (mret true) desk_streaming "gpt" "ann" "How much was coffee?" desk) as Hall.
assert ((AskStream quoted "gpt" (caller_send D_caller) (mret true) "ann" "How much was coffee?" desk).2 = inr ()) as Hrun
  by (vm_compute; reflexivity).
cbv zeta in Hall. destruct (AskStream quoted _ _ _ _ _ desk) as [w r]. cbn [fst snd] in *. rewrite Hrun in Hall. exact Hall.
Defined.
End Sample.
