(* ===== verification/Intake.v ===== *)
(** * Expense intake (src/internal/core/service/expense_intake.go, domain/expense_draft.go)

    A receipt photo, a sentence or a recording turned into a draft expense, which
    nothing persists. *)

From S2P Require Export Prelude.
From S2P Require Export GoTime.
From S2P Require Export GoStrings.
From S2P Require Export Domain.
From S2P Require Export Json.
From S2P Require Export Ports.
From S2P Require Export ImageProc.
From S2P Require Export RateLimit.
From S2P Require Export AI.
#[global] Open Scope Z_scope.

(** ** The draft (expense_draft.go) *)

Record ExtractedExpenseItem := mkExtractedExpenseItem { xi_Title : string; xi_AmountMinor : Z }.
#[export] Instance eta_ExtractedExpenseItem : Eta ExtractedExpenseItem := λ r,
  mkExtractedExpenseItem (xi_Title r) (xi_AmountMinor r).
Record ExtractedExpense := mkExtractedExpense {
  xe_Title : string; xe_AmountMinor : Z; xe_Currency : string; xe_OccurredAt : Time;
  xe_CategoryName : string; xe_Items : list ExtractedExpenseItem; xe_Address : string
}.
#[export] Instance eta_ExtractedExpense : Eta ExtractedExpense := λ r,
  mkExtractedExpense (xe_Title r) (xe_AmountMinor r) (xe_Currency r) (xe_OccurredAt r)
    (xe_CategoryName r) (xe_Items r) (xe_Address r).
Definition zero_draft : ExtractedExpense := mkExtractedExpense "" 0 "" 0 "" [] "".

Definition draft_item_fields : fields ExtractedExpenseItem :=
  [("title", field xi_Title dec_string); ("amount_minor", field xi_AmountMinor dec_int64)].
Definition draft_fields : fields ExtractedExpense :=
  [("title", field xe_Title dec_string); ("amount_minor", field xe_AmountMinor dec_int64);
   ("currency", field xe_Currency dec_string); ("occurred_at", field xe_OccurredAt dec_time);
   ("category_name", field xe_CategoryName dec_string);
   ("items", field xe_Items (dec_slice (dec_struct draft_item_fields) (mkExtractedExpenseItem "" 0)));
   ("address", field xe_Address dec_string)].

(** ** The service *)

Definition receiptExtractionModel : string := "gpt-4o-mini".
Definition sentenceExtractionModel : string := "gpt-4o-mini".
Definition IntakeRateLimit : Z := 30.
Definition IntakeRateInterval : Duration := 24 * Hour.

Definition extractionInstructions (now : Time) : string :=
  "Extract a single expense from the provided receipt or description. "
  +:+ "Respond only with the structured fields requested. "
  +:+ "If a total is not stated explicitly, sum the line items. "
  +:+ "If the currency is not stated, use EUR. "
  +:+ "Today's date is " +:+ FormatDate now
  +:+ ". If the receipt or description does not state a date, use today's date — never a date from training data or any other guess. "
  +:+ "List every individual line item shown, each with its own title and amount, even if there are many; do not collapse multiple items into one. "
  +:+ "If a merchant address is printed, extract it exactly as shown; otherwise leave it empty.".

Section Intake.
Context {W : Type} `{Env W} `{Limiter W} `{AIProvider W}.
(** [domain.GenerateSchema], a reflection over the draft type by invopop/jsonschema,
    and base64. *)
Context (expenseDraftSchema : json) (base64 : string → string).

Definition expenseDraftResponseFormat : ResponseFormat :=
  mkResponseFormat "extracted_expense" "A single expense extracted from the user's receipt or description"
    expenseDraftSchema true.

Definition checkLimit (ownerID : string) : M W () :=
  if ownerID =s "" then throw ErrForbidden
  else
    allowed ← Allow ("intake:" +:+ ownerID);
    if negb allowed then throw ErrForbidden else mret ().

Definition unusable : error := ErrorsNew "extraction did not produce a usable expense".

Definition decodeExtractedExpense (content : text) : M W ExtractedExpense :=
  match dec_struct draft_fields (document_of content) zero_draft with
  | None => throw (Errorf "decode extracted expense: " unmarshal_error "")
  | Some draft =>
      if (TrimSpace (xe_Title draft) =s "") || (xe_AmountMinor draft <=? 0) then throw unusable
      else
        draft ← (if IsZero (xe_OccurredAt draft)
                 then now ← Now; mret (draft <| xe_OccurredAt := now |>) else mret draft);
        mret (if xe_Currency draft =s "" then draft <| xe_Currency := "EUR" |> else draft)
  end.

Definition extraction (ownerID model : string) (now : Time) (prompt : AIMessage) : CompletionRequest :=
  mkCompletionRequest ownerID model [SystemMessage (extractionInstructions now); prompt] []
    (Some expenseDraftResponseFormat) 0 None.

Definition extractFromText (ownerID : string) (t : string) : M W ExtractedExpense :=
  now ← Now;
  completion ← Complete (extraction ownerID sentenceExtractionModel now (UserMessage (Plain t)));
  decodeExtractedExpense (cp_Content completion).

Definition text_required : error := ErrorsNew "text is required".
Definition ExtractFromSentence (ownerID t : string) : M W ExtractedExpense :=
  if TrimSpace t =s "" then throw text_required
  else checkLimit ownerID;; extractFromText ownerID t.

Section Receipt.
Context `{GoRuntime}.
Context (http_DetectContentType : string → string) (image_Decode : string → error + Image).
Context (jpeg_Encode : Image → Z → error + string) (grayscale : Image → Image).

Definition ExtractFromReceipt (ownerID image : string) : M W ExtractedExpense :=
  checkLimit ownerID;;
  match Normalize http_DetectContentType image_Decode jpeg_Encode grayscale image ReceiptOptions with
  | inl err => throw (Errorf "normalize receipt image: " err "")
  | inr normalized =>
      let dataURI := "data:" +:+ res_ContentType normalized +:+ ";base64," +:+ base64 (res_Data normalized) in
      now ← Now;
      completion ← Complete (extraction ownerID receiptExtractionModel now
        (UserImageMessage "Extract the expense from this receipt." dataURI));
      decodeExtractedExpense (cp_Content completion)
  end.
End Receipt.

Definition transcription_off : error := ErrorsNew "transcription is not configured".
Definition no_speech : error := ErrorsNew "transcription produced no text".

(** [transcriber] is nil when transcription is not configured.  The transcript is
    returned with the draft's error too. *)
Definition ExtractFromAudio (transcriber : option (AudioTranscriber W)) (ownerID audio filename contentType : string)
    : M W ((error + ExtractedExpense) * string) :=
  match transcriber with
  | None => throw transcription_off
  | Some transcriber =>
      checkLimit ownerID;;
      transcription ← Transcribe (mkTranscriptionRequest ownerID "" audio filename contentType);
      if TrimSpace (tn_Text transcription) =s "" then throw no_speech
      else
        draft ← catch (extractFromText ownerID (tn_Text transcription));
        mret (draft, tn_Text transcription)
  end.
End Intake.

(** ** What an extraction costs and gives

    The calls it makes, recorded in order: what the limiter answered, an error or
    whether the unit was granted, and what the provider was asked. *)

Inductive intake_call :=
  | CAllow (key : string) (answer : error + bool)
  | CComplete (request : CompletionRequest)
  | CTranscribe (request : TranscriptionRequest).

Section Contract.
Context {W : Type} (T : Lens W (list intake_call)) `{!LensLaws T} `{Env W}.
Context (limiter : Limiter W) (provider : AIProvider W) (transcriber : AudioTranscriber W).
Context (expenseDraftSchema : json) (base64 : string → string).

Let trace : W → list intake_call := lens_get T.
Definition tell (c : intake_call) : M W () := zoom T (modify (λ l, l ++ [c])).

#[local] Instance told_limiter : Limiter W := {|
  Allow key :=
    answer ← catch (@Allow W limiter key);
    tell (CAllow key answer);;
    match answer with inl err => throw err | inr allowed => mret allowed end
|}.
#[local] Instance told_provider : AIProvider W := {|
  Complete r := tell (CComplete r);; @Complete W provider r;
  AIStream := @AIStream W provider
|}.
Definition told_transcriber : AudioTranscriber W :=
  {| Transcribe r := tell (CTranscribe r);; @Transcribe W transcriber r |}.

(** The ports do not reach the record, and the clock is past year 1. *)
Record discreet : Prop := {
  dis_allow key : keeps trace (@Allow W limiter key);
  dis_complete r : keeps trace (@Complete W provider r);
  dis_transcribe r : keeps trace (@Transcribe W transcriber r);
  dis_now : keeps trace Now;
  dis_clock : hoare (λ _, True) Now (λ t _, IsZero t = false) (λ _, True)
}.
Context (Hd : discreet).

(** The calls of a run: those of [steps], in order, all or up to some point. *)
Definition made (steps : list (intake_call → Prop)) (l : list intake_call) (w : W) : Prop :=
  ∃ calls, trace w = l ++ calls ∧ Forall2 (λ P c, P c) steps calls.
Definition made_some (steps : list (intake_call → Prop)) (l : list intake_call) (w : W) : Prop :=
  ∃ n, made (take n steps) l w.

Definition granted (owner : string) (c : intake_call) : Prop := c = CAllow ("intake:" +:+ owner) (inr true).
Definition denied (owner : string) (c : intake_call) : Prop :=
  ∃ answer, c = CAllow ("intake:" +:+ owner) answer ∧ answer ≠ inr true.
Definition extracts (owner : string) (c : intake_call) : Prop :=
  match c with CComplete r => cr_UserID r = owner ∧ cr_Tools r = [] ∧ is_Some (cr_ResponseFormat r) | _ => False end.
Definition transcribes (owner : string) (c : intake_call) : Prop :=
  match c with CTranscribe r => tr_UserID r = owner | _ => False end.

(** What a run that fails has called: nothing after a unit that was not granted, and
    otherwise the first of [steps]. *)
Definition stopped (owner : string) (steps : list (intake_call → Prop)) (l : list intake_call) (w : W) : Prop :=
  made [denied owner] l w ∨ made_some steps l w.

(** A draft the user can review. *)
Definition usable (d : ExtractedExpense) : Prop :=
  TrimSpace (xe_Title d) ≠ "" ∧ 0 < xe_AmountMinor d ∧ xe_Currency d ≠ "" ∧ IsZero (xe_OccurredAt d) = false.

Lemma told_step {A} (P : intake_call → Prop) c (m : M W A) l : P c → keeps trace m →
  hoare (λ w, trace w = l) (tell c;; m) (λ _, made [P] l) (made [P] l).
Proof using LensLaws0.
intros HP Hm w Hw. unfold tell, mbind, M_bind, zoom. cbn. specialize (Hm (lens_set T (lens_get T w ++ [c]) w)).
assert (made [P] l (m (lens_set T (lens_get T w ++ [c]) w)).1) as Hmade.
{ exists [c]. rewrite Hm. unfold trace in *. rewrite lens_get_set, Hw. split; [done|by repeat constructor]. }
by destruct (m _) as [w' [e|a]].
Qed.

Lemma made_ext steps P l w w' : made steps l w → made [P] (trace w) w' → made (steps ++ [P]) l w'.
Proof using Type.
intros (cs & Hw & Hcs) (c & Hw' & Hc). exists (cs ++ c). rewrite Hw', Hw, <- app_assoc. split; [done|by apply Forall2_app].
Qed.

(** A step after others. *)
Lemma made_step {A} steps (P : intake_call → Prop) (m : M W A) l :
  (∀ l', hoare (λ w, trace w = l') m (λ _, made [P] l') (made [P] l')) →
  hoare (made steps l) m (λ _, made (steps ++ [P]) l) (made (steps ++ [P]) l).
Proof using Type.
intros Hm w Hw. specialize (Hm (trace w) w eq_refl). destruct (m w) as [w' [e|a]]; by eapply made_ext.
Qed.

Lemma made_keeps {A} steps l (m : M W A) : keeps trace m → hoare (made steps l) m (λ _, made steps l) (made steps l).
Proof using Type. intros Hm. apply (keeps_hoare trace m (λ t, ∃ cs, t = l ++ cs ∧ Forall2 (λ P c, P c) steps cs) Hm). Qed.

Lemma decode_usable content steps l :
  hoare (made steps l) (decodeExtractedExpense content) (λ d w, made steps l w ∧ usable d) (made steps l).
Proof using Hd.
unfold decodeExtractedExpense. destruct (dec_struct _ _ _) as [d|]; [|by apply hoare_throw].
destruct (TrimSpace (xe_Title d) =s "") eqn:Ht; [by apply hoare_throw|].
destruct (Z.leb_spec (xe_AmountMinor d) 0) as [|Ha]; [by apply hoare_throw|]. cbn [orb].
apply String.eqb_neq in Ht.
apply (hoare_bind _ _ _ (λ d' w, made steps l w ∧ xe_Title d' = xe_Title d ∧ xe_AmountMinor d' = xe_AmountMinor d
  ∧ IsZero (xe_OccurredAt d') = false)).
- destruct (IsZero (xe_OccurredAt d)) eqn:Hz; [|by apply hoare_ret].
  intros w Hw. pose proof (dis_clock Hd w I) as Hc. pose proof (made_keeps steps l _ (dis_now Hd) w Hw) as Hk.
  unfold mbind, M_bind. by destruct (Now w) as [w' [e|t]].
- intros d'. apply hoare_ret. intros w (Hw & Hti & Ham & Hoc). split; [done|].
  destruct (String.eqb_spec (xe_Currency d') ""); unfold usable; cbn; rewrite ?Hti, ?Ham; by split_and!.
Qed.

(** A unit of the limit is asked for, and only a granted one lets the call go on. *)
Lemma check_charges owner l : owner ≠ "" → hoare (λ w, trace w = l) (checkLimit owner)
  (λ _, made [granted owner] l) (made [denied owner] l).
Proof using All.
intros Ho w Hw. unfold checkLimit. rewrite (proj2 (String.eqb_neq _ _) Ho).
unfold mbind, M_bind, Allow, told_limiter, tell, catch, zoom, mbind, M_bind. cbn.
pose proof (dis_allow Hd ("intake:" +:+ owner) w) as Hk. unfold mbind, M_bind.
destruct (@Allow W limiter _ w) as [w' a]. cbn in Hk.
assert (∀ P : intake_call → Prop, P (CAllow ("intake:" +:+ owner) a) →
  made [P] l (lens_set T (lens_get T w' ++ [CAllow ("intake:" +:+ owner) a]) w')) as Hmade.
{ intros P HP. exists [CAllow ("intake:" +:+ owner) a]. unfold trace in *. rewrite lens_get_set, Hk, Hw.
  split; [done|by repeat constructor]. }
destruct a as [e|[]]; cbn; apply Hmade; [eexists; by split|done|eexists; by split].
Qed.

(** One completion, decoded. *)
Lemma complete_step owner model now prompt steps l :
  hoare (made steps l)
    (completion ← Complete (extraction expenseDraftSchema owner model now prompt); decodeExtractedExpense (cp_Content completion))
    (λ d w, made (steps ++ [extracts owner]) l w ∧ usable d) (made (steps ++ [extracts owner]) l).
Proof using All.
eapply hoare_bind.
- apply made_step. intros l'. apply told_step; [by split_and!|apply Hd].
- intros c. apply decode_usable.
Qed.

Lemma text_step owner t steps l :
  hoare (made steps l) (extractFromText expenseDraftSchema owner t)
    (λ d w, made (steps ++ [extracts owner]) l w ∧ usable d) (λ w, made steps l w ∨ made (steps ++ [extracts owner]) l w).
Proof using All.
unfold extractFromText. apply (hoare_bind _ _ _ (λ _, made steps l)).
- eapply hoare_weaken; [apply made_keeps, (dis_now Hd)|done|done|]. by left.
- intros now. eapply hoare_weaken; [apply complete_step|done|done|]. by right.
Qed.

Lemma made_prefix steps more l w : made steps l w → made_some (steps ++ more) l w.
Proof using Type. intros Hm. exists (length steps). by rewrite take_app_length. Qed.

(** The limit is checked before anything else: what follows runs on a granted unit. *)
Lemma check_first {A} owner l steps (m : () → M W A) (Q : A → W → Prop) :
  (owner ≠ "" → ∀ u, hoare (made [granted owner] l) (m u) Q (made_some (granted owner :: steps) l)) →
  hoare (λ w, trace w = l) (u ← checkLimit owner; m u) Q (stopped owner (granted owner :: steps) l).
Proof using All.
intros Hm. destruct (String.eqb_spec owner "") as [->|Ho].
- eapply (hoare_bind _ _ _ (λ _ _, False)); [|by intros ? ? []]. unfold checkLimit. apply hoare_throw.
  intros w Hw. right. exists 0%nat, []. split; [by rewrite app_nil_r|constructor].
- eapply hoare_bind; [eapply hoare_weaken; [by apply (check_charges owner l)|done|done|by left]|].
  intros u. eapply hoare_weaken; [by apply Hm|done|done|by right].
Qed.

(** [C35] Adding an expense from a sentence, a receipt or a recording asks the intake
    limit for one unit of the owner's, and calls the model only once it was granted:
    when the unit is refused, or the limiter fails, the call fails and nothing else
    was called.  On a granted unit it makes one extraction at most, on the owner's
    behalf and without tools, after one transcription for dictation; one that
    succeeds has made exactly those calls, in this order, and returns a usable draft:
    a title, a positive amount, a currency and a date. *)
Theorem intake_contract `{GoRuntime} detect decode encode grayscale owner t image audio filename contentType l :
  hoare (λ w, trace w = l) (ExtractFromSentence expenseDraftSchema owner t)
    (λ d w, made [granted owner; extracts owner] l w ∧ usable d) (stopped owner [granted owner; extracts owner] l) ∧
  hoare (λ w, trace w = l) (ExtractFromReceipt expenseDraftSchema base64 detect decode encode grayscale owner image)
    (λ d w, made [granted owner; extracts owner] l w ∧ usable d) (stopped owner [granted owner; extracts owner] l) ∧
  hoare (λ w, trace w = l) (ExtractFromAudio expenseDraftSchema (Some told_transcriber) owner audio filename contentType)
    (λ r w, match r.1 with
            | inr d => made [granted owner; transcribes owner; extracts owner] l w ∧ usable d
            | inl _ => made_some [granted owner; transcribes owner; extracts owner] l w
            end) (stopped owner [granted owner; transcribes owner; extracts owner] l).
Proof using All.
split_and!.
- unfold ExtractFromSentence. destruct (_ =s _).
  { apply hoare_throw. intros w Hw. right. exists 0%nat, []. split; [by rewrite app_nil_r|constructor]. }
  apply (check_first _ _ [extracts owner]). intros _ ?.
  eapply hoare_weaken; [apply text_step|done|done|].
  intros w [Hw|Hw]; [by apply (made_prefix [granted owner] [extracts owner])|by apply (made_prefix [granted owner; extracts owner] [])].
- unfold ExtractFromReceipt. apply (check_first _ _ [extracts owner]). intros _ ?.
  destruct (Normalize _ _ _ _ _ _) as [e|n]; [apply hoare_throw; intros w Hw; by apply (made_prefix [granted owner] [extracts owner])|].
  cbv zeta. apply (hoare_bind _ _ _ (λ _, made [granted owner] l)).
  + eapply hoare_weaken; [apply made_keeps, (dis_now Hd)|done|done|]. intros w Hw. by apply (made_prefix [granted owner] [extracts owner]).
  + intros now. eapply hoare_weaken; [apply complete_step|done|done|].
    intros w Hw. by apply (made_prefix [granted owner; extracts owner] []).
- unfold ExtractFromAudio. apply (check_first _ _ [transcribes owner; extracts owner]). intros _ ?.
  apply (hoare_bind _ _ _ (λ _, made [granted owner; transcribes owner] l)).
  { eapply hoare_weaken; [apply (made_step [granted owner] (transcribes owner)); intros l'; apply told_step; [done|apply Hd]|done|done|].
    intros w Hw. by apply (made_prefix [granted owner; transcribes owner] [extracts owner]). }
  intros tn. destruct (_ =s _); [apply hoare_throw; intros w Hw; by apply (made_prefix [granted owner; transcribes owner] [extracts owner])|].
  intros w Hw. unfold mbind, M_bind, catch. pose proof (text_step owner (tn_Text tn) _ _ w Hw) as Ht.
  destruct (extractFromText _ _ _ w) as [w' [e|d]]; cbn; [|exact Ht].
  destruct Ht as [Ht|Ht]; [by apply (made_prefix [granted owner; transcribes owner] [extracts owner])|].
  by apply (made_prefix [granted owner; transcribes owner; extracts owner] []).
Qed.
End Contract.

Module Sample.
Record Desk := mkDesk { made_calls : list intake_call; clock : Time }.
#[export] Instance eta_Desk : Eta Desk := λ r, mkDesk (made_calls r) (clock r).
Definition L_calls : Lens Desk (list intake_call) :=
  {| lens_get := made_calls; lens_set s w := w <| made_calls := s |> |}.
#[local] Instance L_calls_laws : LensLaws L_calls.
Proof. split; intros; by repeat match goal with w : Desk |- _ => destruct w end. Qed.
#[local] Instance counter_env : Env Desk := {| Now w := (w, inr (Date 2026 5 1 12 0 0 0)); NewString w := (w, inr "id") |}.

Definition cinema : json := JObject [("title", JString "Cinema"); ("amount_minor", JInt 2500); ("items", JArray [])].
Definition open_limiter : Limiter Desk := {| Allow _ := mret true |}.
Definition cinema_provider : AIProvider Desk := {|
  Complete _ := mret (mkCompletion (Encoded cinema) [] no_usage "stop");
  AIStream _ := throw ErrForbidden
|}.
Definition cinema_transcriber : AudioTranscriber Desk := {| Transcribe _ := mret (mkTranscription "two tickets, 25 euro" no_usage) |}.

Definition dictate : M Desk ((error + ExtractedExpense) * string) :=
  @ExtractFromAudio Desk counter_env (told_limiter L_calls open_limiter) (told_provider L_calls cinema_provider) JNull
    (Some (told_transcriber L_calls cinema_transcriber)) "ann" "bytes" "a.m4a" "audio/mp4".

(** A limiter that refuses: the recording is not even transcribed. *)
Definition shut_limiter : Limiter Desk := {| Allow _ := mret false |}.
Example dictation_refused :
  (λ r, (made_calls r.1, r.2)) (@ExtractFromAudio Desk counter_env (told_limiter L_calls shut_limiter)
    (told_provider L_calls cinema_provider) JNull (Some (told_transcriber L_calls cinema_transcriber))
    "ann" "bytes" "a.m4a" "audio/mp4" (mkDesk [] 0)) =
  ([CAllow "intake:ann" (inr false)], inl ErrForbidden).
Proof. vm_compute. reflexivity. Qed.

Lemma counter_discreet : discreet L_calls open_limiter cinema_provider cinema_transcriber.
Proof. split; done. Qed.

Lemma intake_contract_witness :
  (dictate (mkDesk [] 0)).2 = inr (inr (mkExtractedExpense "Cinema" 2500 "EUR" (Date 2026 5 1 12 0 0 0) "" [] ""),
    "two tickets, 25 euro") ∧
  made L_calls [granted "ann"; transcribes "ann"; extracts "ann"] [] (dictate (mkDesk [] 0)).1.
Proof.
assert ((dictate (mkDesk [] 0)).2 = inr (inr (mkExtractedExpense "Cinema" 2500 "EUR" (Date 2026 5 1 12 0 0 0) "" [] ""),
  "two tickets, 25 euro")) as Hrun by (vm_compute; reflexivity).
split; [exact Hrun|].
destruct (@intake_contract Desk L_calls _ counter_env open_limiter cinema_provider cinema_transcriber JNull (λ s, s)
  counter_discreet default_runtime (λ _, "") (λ _, inl ErrForbidden) (λ _ _, inl ErrForbidden) (λ i, i)
  "ann" "" "" "bytes" "a.m4a" "audio/mp4" []) as (_ & _ & Haudio).
specialize (Haudio (mkDesk [] 0) eq_refl). fold dictate in Haudio.
destruct (dictate (mkDesk [] 0)) as [w r]. cbn [fst snd] in *. rewrite Hrun in Haudio. apply Haudio.
Defined.
End Sample.
