(* ===== verification/AdminUsage.v ===== *)
(** * The administration usage summary (src/internal/core/service/admin_usage.go) *)

From S2P Require Export Prelude.
From S2P Require Export GoTime.
From S2P Require Export Domain.
From S2P Require Export Ports.
From S2P Require Export Memory.
From S2P Require Export MemoryStores.
From S2P Require Export World.
#[global] Open Scope Z_scope.

Definition auditSummaryScanLimit : Z := 10000.

Record UsageSummary := mkUsageSummary {
  sm_Since : Time; sm_TotalUsers : Z; sm_UsersByRole : gmap UserRole Z; sm_BlockedUsers : Z;
  sm_AI : AIUsageSummary; sm_NotificationsByStatus : gmap NotificationStatus Z; sm_AuditEntryCount : Z
}.

(** One user of the counting loop. *)
Definition count_user (acc : gmap UserRole Z * Z) (user : AppUser) : gmap UserRole Z * Z :=
  (add_amount (u_Role user) 1 acc.1, if u_AccessBlocked user then wrap64 (acc.2 + 1) else acc.2).

Definition AdminUsage_Summarize {W} `{Env W} `{IdentityRepository W} `{AIRequestRepository W} `{NotificationRepository W}
    `{AuditRepository W} (actor : AppUser) (since : Time) : M W UsageSummary :=
  if negb (Allows (u_Role actor) PermissionAuditRead) then throw ErrForbidden
  else
    since ← (if IsZero since then now ← Now; mret (AddDate now 0 0 (-1)) else mret since);
    users ← ListUsers;
    let '(byRole, blocked) := foldl count_user (∅, 0) users in
    ai ← Summarize since;
    byStatus ← CountByStatus;
    entries ← ListEntries (mkAuditFilter "" "" "" "" since 0 auditSummaryScanLimit 0);
    mret (mkUsageSummary since (Z.of_nat (length users)) byRole blocked ai byStatus (Z.of_nat (length entries))).

(** ** What the summary says *)

Lemma count_users users role :
  let '(byRole, blocked) := foldl count_user (∅, 0) users in
  default 0 (byRole !! role) = wrap64 (Z.of_nat (length (List.filter (λ u, u_Role u =s role) users))) ∧
  (is_Some (byRole !! role) ↔ ∃ u, u ∈ users ∧ u_Role u = role) ∧
  blocked = wrap64 (Z.of_nat (length (List.filter u_AccessBlocked users))).
Proof.
induction users as [|u users IH] using rev_ind.
{ cbn. rewrite lookup_empty. split_and!; [done| |done]. split; [by intros []%is_Some_None|]. by intros (u & []%elem_of_nil & _). }
rewrite foldl_snoc. destruct (foldl count_user (∅, 0) users) as [byRole blocked]. destruct IH as (IH1 & IH2 & IH3).
unfold count_user, add_amount. cbn [fst snd]. rewrite !List.filter_app, !length_app, !Nat2Z.inj_add. cbn [List.filter].
split_and!.
- destruct (String.eqb_spec (u_Role u) role) as [<-|Hne]; cbn [length].
  + rewrite lookup_insert_eq. cbn [default]. rewrite IH1. by autorewrite with wrap64.
  + rewrite lookup_insert_ne by done. by rewrite IH1, Z.add_0_r.
- destruct (decide (u_Role u = role)) as [<-|Hne].
  + rewrite lookup_insert_eq. split; [|by eexists]. intros _. exists u. split; [apply elem_of_app; right; by left|done].
  + rewrite lookup_insert_ne, IH2 by done. setoid_rewrite elem_of_app. setoid_rewrite list_elem_of_singleton. naive_solver.
- rewrite IH3. destruct (u_AccessBlocked u); cbn [length]; by autorewrite with wrap64; rewrite ?Z.add_0_r.
Qed.

(** A workload's totals over the records. *)
Definition of_workload (rs : list AIRequestRecord) (workload : AIWorkload) : list AIRequestRecord :=
  List.filter (λ r, ar_Workload r =s workload) rs.
Definition usage_of (rs : list AIRequestRecord) (workload : AIWorkload) : AIWorkloadUsage :=
  let mine := of_workload rs workload in
  mkAIWorkloadUsage workload (wrap64 (Z.of_nat (length mine)))
    (wrap64 (Z.of_nat (length (List.filter (λ r, ar_Outcome r =s AIRequestError) mine))))
    (wrap64 (foldr Z.add 0 (map (λ r, tu_InputTokens (ar_Usage r)) mine)))
    (wrap64 (foldr Z.add 0 (map (λ r, tu_OutputTokens (ar_Usage r)) mine))).

Lemma sum_snoc l x : foldr Z.add 0 (l ++ [x]) = foldr Z.add 0 l + x.
Proof. induction l as [|y l IH]; cbn; lia. Qed.

Lemma usage_of_snoc rs r workload :
  usage_of (rs ++ [r]) workload =
  if ar_Workload r =s workload then add_usage r (usage_of rs workload) else usage_of rs workload.
Proof.
unfold usage_of, of_workload. rewrite List.filter_app. cbn [List.filter].
destruct (ar_Workload r =s workload); [|by rewrite app_nil_r].
unfold add_usage, set_field. cbn -[wrap64]. rewrite List.filter_app, !map_app, !length_app, !Nat2Z.inj_add. cbn [List.filter map].
rewrite !sum_snoc. f_equal; try (by autorewrite with wrap64).
destruct (ar_Outcome r =s AIRequestError); cbn [length]; by autorewrite with wrap64; rewrite ?Z.add_0_r.
Qed.

Lemma add_record_keys r rs keys : NoDup keys →
  add_record r (map (usage_of rs) keys) =
  map (usage_of (rs ++ [r])) (keys ++ if decide (ar_Workload r ∈ keys) then [] else [ar_Workload r]) ∨
  (ar_Workload r ∉ keys ∧ of_workload rs (ar_Workload r) ≠ []).
Proof.
induction 1 as [|k keys Hk Hnd IH]; cbn [map add_record].
- destruct (of_workload rs (ar_Workload r)) as [|x l] eqn:Hof; [left|right; split; [by intros []%elem_of_nil|done]].
  rewrite decide_False by by intros []%elem_of_nil. cbn [app map]. rewrite usage_of_snoc, eqs_refl. unfold usage_of. by rewrite Hof.
- change (wu_Workload (usage_of rs k)) with k. destruct (String.eqb_spec k (ar_Workload r)) as [->|Hne].
  + left. rewrite decide_True by by left. rewrite app_nil_r. cbn [map]. rewrite usage_of_snoc, eqs_refl. f_equal.
    apply map_ext_in. intros k' Hk'. rewrite usage_of_snoc, eqs_ne; [done|]. intros <-. by apply Hk, list_elem_of_In.
  + destruct IH as [-> |[IH1 IH2]]; [left|right; split; [by rewrite elem_of_cons; intros [?|?]|done]].
    cbn [app map]. rewrite usage_of_snoc, eqs_ne by congruence. f_equal. f_equal. f_equal.
    destruct (decide (ar_Workload r ∈ keys)) as [Hin|Hin]; [by rewrite decide_True by by right|].
    rewrite decide_False; [done|]. by rewrite elem_of_cons; intros [?|?].
Qed.

Lemma workload_totals rs : ∃ keys, NoDup keys ∧ (∀ k, k ∈ keys ↔ k ∈ map ar_Workload rs) ∧
  foldl (λ totals r, add_record r totals) [] rs = map (usage_of rs) keys.
Proof.
induction rs as [|r rs IH] using rev_ind.
{ exists []. split; [constructor|]. done. }
destruct IH as (keys & Hnd & Hkeys & Heq). rewrite foldl_snoc, Heq. cbn [foldl].
destruct (add_record_keys r rs keys Hnd) as [-> |[Hn Hof]].
- exists (keys ++ if decide (ar_Workload r ∈ keys) then [] else [ar_Workload r]). split_and!; [| |done].
  + case_decide as Hin; [by rewrite app_nil_r|]. apply NoDup_app. split_and!; [done| |by apply NoDup_singleton].
    intros k Hk ->%list_elem_of_singleton. done.
  + intros k. rewrite map_app, !elem_of_app, Hkeys. cbn. rewrite list_elem_of_singleton.
    case_decide as Hin; [|by rewrite list_elem_of_singleton].
    split; [intros [?|[]%elem_of_nil]; by left|]. intros [?| ->]; left; [done|by apply Hkeys].
- exfalso. apply Hn, Hkeys. unfold of_workload in Hof. clear -Hof. induction rs as [|x rs IH]; [done|].
  cbn in *. destruct (String.eqb_spec (ar_Workload x) (ar_Workload r)) as [->|]; [by left|right; by apply IH].
Qed.

Lemma count_statuses_spec `{GoRuntime} s status :
  default 0 (count_statuses s !! status) =
  wrap64 (Z.of_nat (length (List.filter (λ d, nd_Status (sd_delivery d) =s status) (range_values (λ _, true) s)))).
Proof.
unfold count_statuses. induction (range_values (λ _, true) s) as [|d ds IH] using rev_ind.
{ cbn. by rewrite lookup_empty. }
rewrite foldl_snoc, List.filter_app, length_app, Nat2Z.inj_add. cbn [List.filter].
destruct (String.eqb_spec (nd_Status (sd_delivery d)) status) as [->|Hne]; cbn [length].
- rewrite lookup_insert_eq. cbn [default]. rewrite IH. by autorewrite with wrap64.
- by rewrite lookup_insert_ne, IH, Z.add_0_r.
Qed.

Lemma filter_all {A} (l : list A) : List.filter (λ _, true) l = l.
Proof. induction l as [|x l IH]; [done|]. exact (f_equal (cons x) IH). Qed.

Lemma filter_length_le {A} (test : A → bool) l : (length (List.filter test l) ≤ length l)%nat.
Proof. induction l as [|x l IH]; cbn; [lia|]. destruct (test x); cbn; lia. Qed.

(** All values of a map, in iteration order. *)
Lemma range_all_perm `{GoRuntime} {K V} `{Countable K} (m : gmap K V) :
  range_values (λ _, true) m ≡ₚ map snd (map_to_list m).
Proof. by rewrite range_values_perm, filter_all. Qed.

(** The audit entries since an instant, up to the scan limit. *)
Lemma entries_since `{GoRuntime} since (w : World) :
  0 < since → Z.of_nat (length (as_entries (w_audit w))) ≤ max_int64 →
  ∃ entries, ListEntries (mkAuditFilter "" "" "" "" since 0 auditSummaryScanLimit 0) w = (w, inr entries) ∧
    Z.of_nat (length entries) = Z.min auditSummaryScanLimit
      (Z.of_nat (length (List.filter (λ e, since <=? ae_OccurredAt e) (as_entries (w_audit w))))).
Proof.
intros Hsince Hfit. set (f := mkAuditFilter _ _ _ _ _ _ _ _).
set (matching := sort_slice_stable (λ x y, After (ae_OccurredAt x) (ae_OccurredAt y))
  (List.filter (audit_matches f) (as_entries (w_audit w)))).
assert (Z.of_nat (length matching) =
  Z.of_nat (length (List.filter (λ e, since <=? ae_OccurredAt e) (as_entries (w_audit w))))) as Hm.
{ unfold matching. rewrite (Permutation_length (sort_slice_stable_perm _ _)). do 2 f_equal.
  apply List.filter_ext. intros e. unfold audit_matches. cbn. unfold IsZero, Before.
  rewrite (proj2 (Z.eqb_neq since 0)) by lia. cbn. rewrite andb_true_r. by rewrite Z.ltb_antisym, negb_involutive. }
exists (take (Z.to_nat (Z.min auditSummaryScanLimit (Z.of_nat (length matching)))) matching). split.
- unfold ListEntries. cbn. unfold zoom, memory_ListEntries. cbn [lens_get L_audit]. fold matching.
  change (au_Offset f) with 0. change (au_Limit f) with auditSummaryScanLimit.
  change (0 <? auditSummaryScanLimit) with true. cbv iota.
  rewrite (Z.min_l 0) by lia.
  rewrite Z.add_0_l, (wrap64_id auditSummaryScanLimit) by (unfold is_int64, auditSummaryScanLimit, min_int64, max_int64; lia).
  unfold slice_between. rewrite (proj2 (Z.leb_le 0 0)) by lia. cbn [andb].
  rewrite (proj2 (Z.leb_le 0 _)), (proj2 (Z.leb_le _ (Z.of_nat (length matching)))) by (unfold auditSummaryScanLimit; lia).
  cbn [andb]. rewrite Z.sub_0_r, drop_0. by destruct w.
- rewrite length_take, Nat2Z.inj_min, Z2Nat.id, <- Hm; unfold auditSummaryScanLimit; lia.
Qed.

(** The usage summary is the state it summarises: only a super-administrator
    gets it, and it changes nothing but the clock; every account is counted once,
    under its role and, when blocked, among the blocked; every workload that made a
    request since the start has one entry, with its requests, errors and tokens;
    every notification is counted under its status; and the audit entries since the
    start are counted up to the scan limit. *)
Theorem usage_summary_counts `{GoRuntime} (actor : AppUser) (since : Time) (w : World) :
  0 < since → Z.of_nat (length (as_entries (w_audit w))) ≤ max_int64 →
  if Allows (u_Role actor) PermissionAuditRead then
    ∃ s workloads,
      AdminUsage_Summarize actor since w = (w, inr s) ∧
      sm_TotalUsers s = Z.of_nat (size (usersByID (w_identity w))) ∧
      (∀ role, default 0 (sm_UsersByRole s !! role) = wrap64 (Z.of_nat (length (List.filter (λ u, u_Role u =s role)
         (map snd (map_to_list (usersByID (w_identity w)))))))) ∧
      sm_BlockedUsers s =
        wrap64 (Z.of_nat (length (List.filter u_AccessBlocked (map snd (map_to_list (usersByID (w_identity w))))))) ∧
      NoDup workloads ∧
      (let rs := List.filter (λ r, negb (Before (ar_CreatedAt r) since)) (w_requests w) in
       (∀ k, k ∈ workloads ↔ k ∈ map ar_Workload rs) ∧
       sm_AI s = mkAIUsageSummary since (map (usage_of rs) workloads)) ∧
      (∀ status, default 0 (sm_NotificationsByStatus s !! status) = wrap64 (Z.of_nat (length (List.filter
         (λ d, nd_Status (sd_delivery d) =s status) (map snd (map_to_list (w_notifications w : gmap string storedDelivery))))))) ∧
      sm_AuditEntryCount s = Z.min auditSummaryScanLimit (Z.of_nat (length (List.filter
         (λ e, since <=? ae_OccurredAt e) (as_entries (w_audit w)))))
  else AdminUsage_Summarize actor since w = (w, inl ErrForbidden).
Proof.
intros Hsince Hfit. unfold AdminUsage_Summarize. destruct (Allows _ _); [|done]. cbn [negb].
unfold IsZero. rewrite (proj2 (Z.eqb_neq since 0)) by lia.
set (users := range_values (λ _ : AppUser, true) (usersByID (w_identity w))).
set (all := map snd (map_to_list (usersByID (w_identity w)))).
assert (users ≡ₚ all) as Hperm by apply range_all_perm.
assert (∀ test, length (List.filter test users) = length (List.filter test all)) as Hlen
  by (intros test; by apply Permutation_length, filter_perm).
destruct (foldl count_user (∅, 0) users) as [byRole blocked] eqn:Hfold.
assert (∀ role, default 0 (byRole !! role) = wrap64 (Z.of_nat (length (List.filter (λ u, u_Role u =s role) users))) ∧
  blocked = wrap64 (Z.of_nat (length (List.filter u_AccessBlocked users)))) as Hcount.
{ intros role. pose proof (count_users users role) as Hc. rewrite Hfold in Hc. split; apply Hc. }
set (rs := List.filter (λ r, negb (Before (ar_CreatedAt r) since)) (w_requests w)).
destruct (workload_totals rs) as (keys & Hnd & Hkeys & Htot).
destruct (entries_since since w Hsince Hfit) as (entries & Hlist & Hn).
exists (mkUsageSummary since (Z.of_nat (length users)) byRole blocked (memory_Summarize since (w_requests w))
  (count_statuses (w_notifications w)) (Z.of_nat (length entries))), keys.
split_and!; try done.
- rewrite bind_ok. do 2 eexists. split; [done|]. rewrite bind_ok. exists w, users. split; [by destruct w|].
  rewrite Hfold. do 2 (rewrite bind_ok; do 2 eexists; split; [by destruct w|]).
  rewrite bind_ok. do 2 eexists. split; [exact Hlist|done].
- cbn. rewrite Hperm. unfold all. by rewrite length_map, length_map_to_list.
- intros role. cbn. by rewrite (proj1 (Hcount role)), Hlen.
- cbn. by rewrite (proj2 (Hcount "")), Hlen.
- cbn. unfold memory_Summarize. fold rs. by rewrite Htot.
- intros status. cbn [sm_NotificationsByStatus]. rewrite count_statuses_spec. do 2 f_equal.
  apply Permutation_length, filter_perm, range_all_perm.
Qed.

Module Sample.
Import World.Sample.
#[local] Existing Instance default_runtime.

Definition account (id : string) (role : UserRole) (blocked : bool) : AppUser :=
  mkAppUser id (id +:+ "@example.com") "" id "" role blocked true ∅ true 0 0.
Definition call_record (id : string) (outcome : AIRequestOutcome) : AIRequestRecord :=
  mkAIRequestRecord id "ann" AIWorkloadAssistant "" (mkTokenUsage 10 5 15) 3 outcome "" 9.
Definition w : World := empty_world
  <| w_identity ::= λ s, s <| usersByID := <["root" := account "root" RoleSuperAdmin false]>
       (<["ann" := account "ann" RoleMember false]> {["bob" := account "bob" RoleMember true]}) |> |>
  <| w_requests := [call_record "1" AIRequestSuccess; call_record "2" AIRequestError] |>.

Lemma usage_summary_counts_witness : ∃ s,
  AdminUsage_Summarize (account "root" RoleSuperAdmin false) 7 w = (w, inr s) ∧
  sm_TotalUsers s = 3 ∧ default 0 (sm_UsersByRole s !! RoleMember) = 2 ∧ sm_BlockedUsers s = 1.
Proof.
destruct (usage_summary_counts (account "root" RoleSuperAdmin false) 7 w) as (s & _ & Hrun & Ht & Hr & Hb & _).
- reflexivity.
- vm_compute. discriminate.
- exists s. split; [exact Hrun|]. rewrite Ht, (Hr RoleMember), Hb. split_and!; vm_compute; reflexivity.
Defined.
End Sample.
