(* ===== verification/Inbound.v ===== *)
(** * The inbound ports (src/internal/core/port/inbound)

    One class per Go interface: what the HTTP handlers need from each service.  A
    request runs outside any unit of work, so a method that takes a context gets the
    background one.  The instances below are the services themselves, over any
    implementation of the outbound ports; a service's [With...] settings are the
    arguments of its instance. *)

From S2P Require Export Prelude GoTime GoStrings Domain UnitOfWork Ports RateLimit AI.
From S2P Require Export Auth Expenses Groups Budgets Payments Analytics Reports AuditTrail AdminUsage Intake.
#[global] Open Scope Z_scope.

Class AuthService (W : Type) := {
  auth_Login : string → string → M W Session;
  auth_Refresh : string → M W Session;
  auth_Logout : string → M W ();
  auth_Invite : AppUser → string → UserRole → M W InvitationDelivery;
  auth_AcceptInvitation : string → string → string → M W AppUser;
  auth_AuthenticateAccessToken : string → M W AppUser;
  auth_ListUsers : AppUser → M W (list AppUser);
  auth_UpdateProfile : string → string → string → bool → bool → M W AppUser;
  auth_UpdateNotificationPreferences : string → gmap NotificationKind bool → M W AppUser;
  auth_ChangePassword : string → string → string → M W ();
  auth_RequestPasswordReset : string → M W ();
  auth_ResetPassword : string → string → M W ();
  auth_GetProfile : string → M W AppUser;
  auth_UpdateProfileImage : string → string → M W AppUser;
  auth_ManageUser : AppUser → string → UserRole → bool → M W AppUser;
  auth_DeleteUser : AppUser → string → M W ()
}.

Class ExpenseService (W : Type) := {
  exp_CreateExpense : string → CreateExpenseCommand → M W ExpenseRecord;
  exp_UpdateExpense : string → string → CreateExpenseCommand → M W ExpenseRecord;
  exp_DeleteExpense : string → string → M W ();
  exp_ListExpenses : ExpenseListFilter → M W (list ExpenseRecord);
  exp_GetExpense : string → string → M W ExpenseRecord;
  exp_ListExpensesForViewer : AppUser → ExpenseListFilter → M W (list ExpenseRecord);
  exp_GetExpenseForViewer : AppUser → string → M W ExpenseRecord;
  exp_AttachReceipt : string → string → string → M W ExpenseRecord
}.

Class BudgetService (W : Type) := {
  bud_CreateBudget : AppUser → BudgetRecord → M W BudgetRecord;
  bud_ListBudgets : AppUser → M W (list BudgetRecord);
  bud_GetBudget : AppUser → string → M W BudgetRecord;
  bud_UpdateBudget : AppUser → string → BudgetRecord → M W BudgetRecord;
  bud_DeleteBudget : AppUser → string → M W ()
}.

Class GroupService (W : Type) := {
  grp_CreateGroup : AppUser → string → list string → M W UserGroup;
  grp_ListVisibleGroups : AppUser → M W (list UserGroup);
  grp_UpdateGroup : AppUser → string → string → M W UserGroup;
  grp_DeleteGroup : AppUser → string → M W ();
  grp_AddMember : AppUser → string → string → M W ();
  grp_RemoveMember : AppUser → string → string → M W ()
}.

Class TaxonomyService (W : Type) := {
  tax_ListCategories : string → M W (list ExpenseCategory);
  tax_CreateCategory : string → string → string → M W ExpenseCategory;
  tax_UpdateCategory : string → string → string → string → M W ExpenseCategory;
  tax_DeleteCategory : string → string → M W ();
  tax_ListTags : string → M W (list ExpenseTag);
  tax_CreateTag : string → string → string → M W ExpenseTag;
  tax_UpdateTag : string → string → string → string → M W ExpenseTag;
  tax_DeleteTag : string → string → M W ()
}.

Class ScheduledPaymentService (W : Type) := {
  pay_CreateScheduledPayment : AppUser → ScheduledPayment → M W ScheduledPayment;
  pay_ListScheduledPayments : AppUser → M W (list ScheduledPayment);
  pay_GetScheduledPayment : AppUser → string → M W ScheduledPayment;
  pay_UpdateScheduledPayment : AppUser → string → ScheduledPayment → M W ScheduledPayment;
  pay_DeleteScheduledPayment : AppUser → string → M W ()
}.

Class AnalyticsService (W : Type) := {
  ana_ListBudgetSuggestions : string → M W (list BudgetSuggestion);
  ana_ListExpenseRollups : AnalyticsFilter → M W (list ExpenseRollup);
  ana_ComparePeriods : string → AnalyticsPeriod → M W PeriodComparison;
  ana_TopCategoryChanges : string → AnalyticsPeriod → Z → M W (list CategoryChange);
  ana_BurnRate : string → AnalyticsPeriod → M W (list BurnRate);
  ana_DailyTotals : string → Time → Time → M W (list DailyTotal);
  ana_WeekdayBreakdown : string → Time → Time → M W (list WeekdayTotal);
  ana_TopExpenses : string → Time → Time → Z → M W (list ExpenseRecord);
  ana_BudgetProgress : string → M W (list BudgetProgress)
}.

Class ReportService (W : Type) := {
  rpt_ListReports : string → M W (list Report);
  rpt_GetReport : string → string → M W Report
}.

Class AuditService (W : Type) := { adt_ListEntries : AppUser → AuditFilter → M W (list AuditEntry) }.

Class OutboxAdminService (W : Type) := {
  obx_ListDeadLetters : AppUser → string → Z → M W (list DeadLetter);
  obx_RequeueDeadLetter : AppUser → string → M W ()
}.

Class AdminUsageService (W : Type) := { use_Summarize : AppUser → Time → M W UsageSummary }.

(** The two that may be missing.  The channel [AskStream] returns is the list of the
    chunks received from it; a dictation returns its transcript also when the
    extraction failed. *)
Class AssistantService (W : Type) := { ast_AskStream : string → string → M W (list CompletionChunk) }.

Class ExpenseIntakeService (W : Type) := {
  ink_ExtractFromReceipt : string → string → M W ExtractedExpense;
  ink_ExtractFromSentence : string → string → M W ExtractedExpense;
  ink_ExtractFromAudio : string → string → string → string → M W ((error + ExtractedExpense) * string)
}.

(** ** The services behind the ports *)

Section Services.
Context `{GoRuntime} {W : Type} `{Env W} `{UnitOfWork W} `{EventLog W}.

Definition auth_service `{IdentityRepository W} `{Crypto W} (config : AuthConfig)
    (objectRefs : option (ObjectReferenceRepository W)) (notifications : option (NotificationRepository W))
    : AuthService W := {|
  auth_Login := Login config;
  auth_Refresh := Refresh config;
  auth_Logout := Logout;
  auth_Invite := Invite config notifications;
  auth_AcceptInvitation := AcceptInvitation_service;
  auth_AuthenticateAccessToken := AuthenticateAccessToken config;
  auth_ListUsers := ListUsers_service;
  auth_UpdateProfile := UpdateProfile;
  auth_UpdateNotificationPreferences := UpdateNotificationPreferences;
  auth_ChangePassword := ChangePassword;
  auth_RequestPasswordReset := RequestPasswordReset config notifications;
  auth_ResetPassword := ResetPassword;
  auth_GetProfile := GetProfile;
  auth_UpdateProfileImage := UpdateProfileImage objectRefs;
  auth_ManageUser := ManageUser notifications;
  auth_DeleteUser := DeleteUser_service objectRefs
|}.

Definition expense_service `{ExpenseRepository W} (objectRefs : option (ObjectReferenceRepository W))
    (groups : option (GroupRepository W)) (taxonomy : option (TaxonomyRepository W)) : ExpenseService W := {|
  exp_CreateExpense := CreateExpense_service taxonomy background;
  exp_UpdateExpense := UpdateExpense_service taxonomy background;
  exp_DeleteExpense := DeleteExpense_service objectRefs background;
  exp_ListExpenses := ListExpenses_service;
  exp_GetExpense := GetExpense_service;
  exp_ListExpensesForViewer := ListExpensesForViewer groups;
  exp_GetExpenseForViewer := GetExpenseForViewer groups;
  exp_AttachReceipt := AttachReceipt objectRefs background
|}.

Definition budget_service `{BudgetRepository W} `{GroupRepository W} : BudgetService W := {|
  bud_CreateBudget := CreateBudget_service background;
  bud_ListBudgets := ListBudgets_service;
  bud_GetBudget := GetBudget_service;
  bud_UpdateBudget := UpdateBudget_service background;
  bud_DeleteBudget := DeleteBudget_service background
|}.

Definition group_service `{GroupRepository W} : GroupService W := {|
  grp_CreateGroup := CreateGroup_service;
  grp_ListVisibleGroups := ListVisibleGroups_service;
  grp_UpdateGroup := UpdateGroup_service;
  grp_DeleteGroup := DeleteGroup_service;
  grp_AddMember := AddMember_service;
  grp_RemoveMember := RemoveMember_service
|}.

Definition taxonomy_service `{TaxonomyRepository W} : TaxonomyService W := {|
  tax_ListCategories := ListCategories_service;
  tax_CreateCategory := CreateCategory_service;
  tax_UpdateCategory := UpdateCategory_service;
  tax_DeleteCategory := DeleteCategory_service;
  tax_ListTags := ListTags_service;
  tax_CreateTag := CreateTag_service;
  tax_UpdateTag := UpdateTag_service;
  tax_DeleteTag := DeleteTag_service
|}.

Definition payment_service `{ScheduledPaymentRepository W} `{GroupRepository W}
    (taxonomy : option (TaxonomyRepository W)) : ScheduledPaymentService W := {|
  pay_CreateScheduledPayment := CreateScheduledPayment_service taxonomy background;
  pay_ListScheduledPayments := ListScheduledPayments_service;
  pay_GetScheduledPayment := GetScheduledPayment_service;
  pay_UpdateScheduledPayment := UpdateScheduledPayment_service taxonomy background;
  pay_DeleteScheduledPayment := DeleteScheduledPayment_service background
|}.

Definition analytics_service `{AnalyticsReader W} `{BudgetRepository W} `{ExpenseRepository W}
    : AnalyticsService W := {|
  ana_ListBudgetSuggestions := Analytics.ListBudgetSuggestions;
  ana_ListExpenseRollups := service_ListExpenseRollups;
  ana_ComparePeriods := ComparePeriods;
  ana_TopCategoryChanges := TopCategoryChanges;
  ana_BurnRate := service_BurnRate;
  ana_DailyTotals := DailyTotals;
  ana_WeekdayBreakdown := WeekdayBreakdown;
  ana_TopExpenses := TopExpenses;
  ana_BudgetProgress := service_BudgetProgress
|}.

Definition report_service `{ReportRepository W} : ReportService W := {|
  rpt_ListReports := service_ListReports;
  rpt_GetReport := service_GetReport
|}.

Definition audit_service `{AuditRepository W} : AuditService W := {| adt_ListEntries := ListEntries_service |}.

Definition outbox_admin_service `{OutboxAdminRepository W} : OutboxAdminService W := {|
  obx_ListDeadLetters := ListDeadLetters_service;
  obx_RequeueDeadLetter := RequeueDeadLetter_service
|}.

Definition admin_usage_service `{IdentityRepository W} `{AIRequestRepository W} `{NotificationRepository W}
    `{AuditRepository W} : AdminUsageService W := {| use_Summarize := AdminUsage_Summarize |}.

Definition intake_service `{Limiter W} `{AIProvider W} (transcriber : option (AudioTranscriber W))
    (expenseDraftSchema : json) (base64 : string → string) (http_DetectContentType : string → string)
    (image_Decode : string → error + Image) (jpeg_Encode : Image → Z → error + string)
    (grayscale : Image → Image) : ExpenseIntakeService W := {|
  ink_ExtractFromReceipt :=
    ExtractFromReceipt expenseDraftSchema base64 http_DetectContentType image_Decode jpeg_Encode grayscale;
  ink_ExtractFromSentence := ExtractFromSentence expenseDraftSchema;
  ink_ExtractFromAudio := ExtractFromAudio expenseDraftSchema transcriber
|}.
End Services.
