(* ===== verification/Handlers.v ===== *)
(** * The API's handlers (src/internal/adapter/inbound/http/v1/handler)

    Every endpoint of version 1: what it decodes, the service it calls, the status
    each error becomes, and the route table with its guards.  The value given to the
    JSON encoder is kept as a value of [Value]; the mux (chi) is third-party, so a
    route is its method, its pattern and its handler. *)

From S2P Require Export Prelude GoTime GoStrings TimeText Domain Json Ports Inbound Http Uploads.
#[global] Open Scope Z_scope.

Definition basePathV1 : string := "/billpiggy/api/v1".

(** ** What is written *)

Record userResponseBody := mkUserResponseBody {
  ub_ID : string; ub_Email : string; ub_DisplayName : string; ub_Role : string; ub_AccessBlocked : bool;
  ub_EmailNotificationsEnabled : bool; ub_NotificationPreferences : gmap NotificationKind bool; ub_AIEnabled : bool
}.
Record currentUserResponse := mkCurrentUserResponse { cu_ID : string; cu_Email : string; cu_Role : string }.
Record sessionResponse := mkSessionResponse { sr_AccessToken : string; sr_ExpiresAt : Time }.
Record dictateResponse := mkDictateResponse { dr_Transcript : string; dr_Draft : ExtractedExpense }.

Inductive Value :=
  | VUser (user : userResponseBody) | VUsers (users : list userResponseBody)
  | VCurrentUser (user : currentUserResponse) | VSession (session : sessionResponse)
  | VGroup (group : UserGroup) | VGroups (groups : list UserGroup)
  | VExpense (expense : ExpenseRecord) | VExpenses (expenses : list ExpenseRecord)
  | VBudget (budget : BudgetRecord) | VBudgets (budgets : list BudgetRecord)
  | VPayment (payment : ScheduledPayment) | VPayments (payments : list ScheduledPayment)
  | VCategory (category : ExpenseCategory) | VCategories (categories : list ExpenseCategory)
  | VTag (tag : ExpenseTag) | VTags (tags : list ExpenseTag)
  | VRollups (rollups : list ExpenseRollup) | VSuggestions (suggestions : list BudgetSuggestion)
  | VComparison (comparison : PeriodComparison) | VChanges (changes : list CategoryChange)
  | VBurnRates (rates : list BurnRate) | VDailyTotals (totals : list DailyTotal)
  | VWeekdayTotals (totals : list WeekdayTotal) | VBudgetProgress (progress : list BudgetProgress)
  | VReports (reports : list Report) | VAuditEntries (entries : list AuditEntry)
  | VDeadLetters (letters : list DeadLetter) | VUsageSummary (summary : UsageSummary)
  | VDraft (draft : ExtractedExpense) | VDictation (dictation : dictateResponse).

Definition userPublic (value : AppUser) : userResponseBody :=
  mkUserResponseBody (u_ID value) (u_Email value) (u_DisplayName value) (u_Role value) (u_AccessBlocked value)
    (u_EmailNotificationsEnabled value) (u_NotificationPreferences value) (u_AIEnabled value).

(** ** What is read *)

Record loginRequest := mkLoginRequest { lr_Email : string; lr_Password : string }.
#[export] Instance eta_loginRequest : Eta loginRequest := λ r, mkLoginRequest (lr_Email r) (lr_Password r).
Definition login_fields : fields loginRequest :=
  [("email", field lr_Email dec_string); ("password", field lr_Password dec_string)].

Record acceptInvitationRequest := mkAcceptInvitationRequest {
  ai_Token : string; ai_Password : string; ai_DisplayName : string
}.
#[export] Instance eta_acceptInvitationRequest : Eta acceptInvitationRequest := λ r,
  mkAcceptInvitationRequest (ai_Token r) (ai_Password r) (ai_DisplayName r).
Definition acceptInvitation_fields : fields acceptInvitationRequest :=
  [("token", field ai_Token dec_string); ("password", field ai_Password dec_string);
   ("display_name", field ai_DisplayName dec_string)].

Record invitationRequest := mkInvitationRequest { ir_Email : string; ir_Role : UserRole }.
#[export] Instance eta_invitationRequest : Eta invitationRequest := λ r, mkInvitationRequest (ir_Email r) (ir_Role r).
Definition invitation_fields : fields invitationRequest :=
  [("email", field ir_Email dec_string); ("role", field ir_Role dec_string)].

Record passwordResetRequestBody := mkPasswordResetRequestBody { prb_Email : string }.
#[export] Instance eta_passwordResetRequestBody : Eta passwordResetRequestBody := λ r,
  mkPasswordResetRequestBody (prb_Email r).
Definition passwordReset_fields : fields passwordResetRequestBody := [("email", field prb_Email dec_string)].

Record passwordResetConfirmRequest := mkPasswordResetConfirmRequest { prc_Token : string; prc_NewPassword : string }.
#[export] Instance eta_passwordResetConfirmRequest : Eta passwordResetConfirmRequest := λ r,
  mkPasswordResetConfirmRequest (prc_Token r) (prc_NewPassword r).
Definition passwordResetConfirm_fields : fields passwordResetConfirmRequest :=
  [("token", field prc_Token dec_string); ("new_password", field prc_NewPassword dec_string)].

Record profileRequest := mkProfileRequest {
  pq_DisplayName : string; pq_Email : string; pq_EmailNotificationsEnabled : bool; pq_AIEnabled : bool
}.
#[export] Instance eta_profileRequest : Eta profileRequest := λ r,
  mkProfileRequest (pq_DisplayName r) (pq_Email r) (pq_EmailNotificationsEnabled r) (pq_AIEnabled r).
Definition profile_fields : fields profileRequest :=
  [("display_name", field pq_DisplayName dec_string); ("email", field pq_Email dec_string);
   ("email_notifications_enabled", field pq_EmailNotificationsEnabled dec_bool);
   ("ai_enabled", field pq_AIEnabled dec_bool)].

Record manageUserRequest := mkManageUserRequest { mu_Role : UserRole; mu_AccessBlocked : bool }.
#[export] Instance eta_manageUserRequest : Eta manageUserRequest := λ r,
  mkManageUserRequest (mu_Role r) (mu_AccessBlocked r).
Definition manageUser_fields : fields manageUserRequest :=
  [("role", field mu_Role dec_string); ("access_blocked", field mu_AccessBlocked dec_bool)].

Record changePasswordRequest := mkChangePasswordRequest { cp_CurrentPassword : string; cp_NewPassword : string }.
#[export] Instance eta_changePasswordRequest : Eta changePasswordRequest := λ r,
  mkChangePasswordRequest (cp_CurrentPassword r) (cp_NewPassword r).
Definition changePassword_fields : fields changePasswordRequest :=
  [("current_password", field cp_CurrentPassword dec_string); ("new_password", field cp_NewPassword dec_string)].

(** A map: every member is an entry, a later one replaces an earlier one. *)
Fixpoint dec_entries {A} (d : dec A) (zero : A) (ms : list (string * json)) (m : gmap string A)
    : option (gmap string A) :=
  match ms with
  | [] => Some m
  | (key, v) :: ms => match d v zero with Some a => dec_entries d zero ms (<[key := a]> m) | None => None end
  end.
Definition dec_map {A} (d : dec A) (zero : A) : dec (gmap string A) := λ j m,
  match j with JNull => Some ∅ | JObject ms => dec_entries d zero ms m | _ => None end.

Record createGroupRequest := mkCreateGroupRequest { gr_Name : string; gr_MemberIDs : list string }.
#[export] Instance eta_createGroupRequest : Eta createGroupRequest := λ r,
  mkCreateGroupRequest (gr_Name r) (gr_MemberIDs r).
Definition createGroup_fields : fields createGroupRequest :=
  [("name", field gr_Name dec_string); ("member_ids", field gr_MemberIDs (dec_slice dec_string ""))].

Record updateGroupRequest := mkUpdateGroupRequest { ug_NewName : string }.
#[export] Instance eta_updateGroupRequest : Eta updateGroupRequest := λ r, mkUpdateGroupRequest (ug_NewName r).
Definition updateGroup_fields : fields updateGroupRequest := [("name", field ug_NewName dec_string)].

(** [expenseRequest] has the fields of the command but the receipt's key. *)
#[export] Instance eta_CreateExpenseCommand : Eta CreateExpenseCommand := λ r,
  mkCreateExpenseCommand (c_Title r) (c_Currency r) (c_CategoryID r) (c_CategoryName r) (c_SharedGroupID r)
    (c_Address r) (c_ReceiptObjectKey r) (c_AmountMinor r) (c_OccurredAt r) (c_TagIDs r) (c_Status r) (c_Items r)
    (c_Latitude r) (c_Longitude r).
Definition expenseRequest_fields : fields CreateExpenseCommand :=
  [("title", field c_Title dec_string); ("amount_minor", field c_AmountMinor dec_int64);
   ("currency", field c_Currency dec_string); ("occurred_at", field c_OccurredAt dec_time);
   ("category_id", field c_CategoryID dec_string); ("category_name", field c_CategoryName dec_string);
   ("tag_ids", field c_TagIDs (dec_slice dec_string "")); ("status", field c_Status dec_string);
   ("shared_group_id", field c_SharedGroupID dec_string);
   ("items", field c_Items (dec_slice (dec_struct item_fields) zero_item));
   ("latitude", field c_Latitude (dec_ptr dec_float64 (S754_zero false)));
   ("longitude", field c_Longitude (dec_ptr dec_float64 (S754_zero false)));
   ("address", field c_Address dec_string)].
Definition zero_command : CreateExpenseCommand :=
  mkCreateExpenseCommand "" "" "" "" "" "" "" 0 0 [] "" [] None None.

(** [budgetRequest] and [scheduledPaymentRequest] decode straight into the record
    the handlers build from them. *)
Definition budgetRequest_fields : fields BudgetRecord :=
  [("name", field bd_Name dec_string); ("category_id", field bd_CategoryID dec_string);
   ("amount_limit_minor", field bd_AmountLimitMinor dec_int64); ("currency", field bd_Currency dec_string);
   ("threshold_percent", field bd_ThresholdPercent dec_int64); ("period", field bd_Period dec_string);
   ("due_at", field bd_DueAt (dec_ptr dec_time 0)); ("shared_group_id", field bd_SharedGroupID dec_string)].

Definition paymentRequest_fields : fields ScheduledPayment :=
  [("title", field sp_Title dec_string); ("amount_minor", field sp_AmountMinor dec_int64);
   ("currency", field sp_Currency dec_string); ("category_id", field sp_CategoryID dec_string);
   ("category_name", field sp_CategoryName dec_string); ("tag_ids", field sp_TagIDs (dec_slice dec_string ""));
   ("shared_group_id", field sp_SharedGroupID dec_string); ("frequency", field sp_Frequency dec_string);
   ("custom_interval_days", field sp_CustomIntervalDays dec_int64); ("start_date", field sp_StartDate dec_time);
   ("end_date", field sp_EndDate (dec_ptr dec_time 0)); ("auto_post", field sp_AutoPost dec_bool);
   ("reminder_days_before", field sp_ReminderDaysBefore dec_int64); ("paused", field sp_Paused dec_bool)].
Definition zero_payment : ScheduledPayment :=
  mkScheduledPayment "" "" "" 0 "" "" "" [] "" "" 0 0 None 0 None false 0 false 0 0 None.

Record taxonomyRequest := mkTaxonomyRequest { tq_Name : string; tq_Color : string }.
#[export] Instance eta_taxonomyRequest : Eta taxonomyRequest := λ r, mkTaxonomyRequest (tq_Name r) (tq_Color r).
Definition taxonomy_fields : fields taxonomyRequest :=
  [("name", field tq_Name dec_string); ("color", field tq_Color dec_string)].

Record assistantRequest := mkAssistantRequest { aq_Message : string }.
#[export] Instance eta_assistantRequest : Eta assistantRequest := λ r, mkAssistantRequest (aq_Message r).
Definition assistant_fields : fields assistantRequest := [("message", field aq_Message dec_string)].

Record intelligentRequest := mkIntelligentRequest { iq_Text : string }.
#[export] Instance eta_intelligentRequest : Eta intelligentRequest := λ r, mkIntelligentRequest (iq_Text r).
Definition intelligent_fields : fields intelligentRequest := [("text", field iq_Text dec_string)].

(** ** Who asks *)

Definition request_owner (r : Request) : string := id_Subject (IdentityFromContext r).
Definition actor_of (id email : string) (role : UserRole) : AppUser :=
  mkAppUser id email "" "" "" role false false ∅ false 0 0.
Definition request_actor (r : Request) : AppUser :=
  let identity := IdentityFromContext r in actor_of (id_Subject identity) "" (id_Role identity).

(** ** How an outcome is answered *)

Definition error_reply (status : Z) (message : string) : error → Response Value :=
  λ _, WriteJSONError status message.
(** [if errors.Is(err, target) { write reply; return }]. *)
Definition on_error (target : string) (reply : Response Value) (otherwise : error → Response Value)
    : error → Response Value := λ err, if ErrorIs err target then reply else otherwise err.
Definition reply (status : Z) {A} (wrap : A → Value) (a : A) : Response Value := WriteJSON status (wrap a).
Definition no_content {A} : A → Response Value := λ _, WriteHeader 204.
Definition forbidden_or (status : Z) (message : string) : error → Response Value :=
  on_error "ErrForbidden" permission_denied (error_reply status message).
Definition reply_user (user : AppUser) : Response Value := WriteJSON 200 (VUser (userPublic user)).

(** ** Authentication (auth.go) *)

Section Auth.
Context {W : Type} `{AuthService W}.

Definition authenticator : Authenticator W := {|
  Authenticate token :=
    user ← auth_AuthenticateAccessToken token;
    mret (mkIdentity (u_ID user) (u_Email user) (u_Role user))
|}.
Definition authorizer : Authorizer := {| Identity_Allows identity permission := Allows (id_Role identity) permission |}.

Context (cookieSecure : bool).

Definition refresh_cookie (value : string) (expires maxAge : Z) : Cookie :=
  mkCookie "billpiggy_refresh" value (basePathV1 +:+ "/auth") expires maxAge true cookieSecure true.
Definition writeSession (session : Session) : Response Value :=
  SetCookie (refresh_cookie (SessionRefreshToken session) (RefreshTokenExpiry session) 0)
    (WriteJSON 200 (VSession (mkSessionResponse (AccessToken session) (AccessTokenExpiry session)))).
Definition clearRefreshCookie (rest : Response Value) : Response Value :=
  SetCookie (refresh_cookie "" (FromUnixMilli 0) (-1)) rest.

Definition login : HandlerFunc W Value := λ r,
  decodeJSON (dec_struct login_fields) (mkLoginRequest "" "") r (λ request,
    answer (auth_Login (lr_Email request) (lr_Password request)) (error_reply 401 "invalid credentials") writeSession).

Definition refresh : HandlerFunc W Value := λ r,
  match Request_Cookie r "billpiggy_refresh" with
  | None => mret (WriteJSONError 401 "refresh token required")
  | Some cookie =>
      answer (auth_Refresh cookie) (error_reply 401 "refresh token is invalid or expired") writeSession
  end.

Definition logout : HandlerFunc W Value := λ r,
  match Request_Cookie r "billpiggy_refresh" with
  | Some cookie => call (auth_Logout cookie);; mret (clearRefreshCookie (WriteHeader 204))
  | None => mret (clearRefreshCookie (WriteHeader 204))
  end.

Definition acceptInvitation : HandlerFunc W Value := λ r,
  decodeJSON (dec_struct acceptInvitation_fields) (mkAcceptInvitationRequest "" "" "") r (λ request,
    answer (auth_AcceptInvitation (ai_Token request) (ai_Password request) (ai_DisplayName request))
      (error_reply 401 "invitation is invalid or expired") (λ user, WriteJSON 201 (VUser (userPublic user)))).

Definition invite : HandlerFunc W Value := λ r,
  let identity := IdentityFromContext r in
  let actor := actor_of (id_Subject identity) (id_Email identity) (id_Role identity) in
  decodeJSON (dec_struct invitation_fields) (mkInvitationRequest "" "") r (λ request,
    answer (auth_Invite actor (ir_Email request) (ir_Role request))
      (on_error "ErrForbidden" permission_denied (error_reply 400 "invitation could not be created"))
      (λ _, WriteHeader 202)).

Definition requestPasswordReset : HandlerFunc W Value := λ r,
  decodeJSON (dec_struct passwordReset_fields) (mkPasswordResetRequestBody "") r (λ request,
    answer (auth_RequestPasswordReset (prb_Email request)) (λ _, WriteHeader 202) (λ _, WriteHeader 202)).

Definition confirmPasswordReset : HandlerFunc W Value := λ r,
  decodeJSON (dec_struct passwordResetConfirm_fields) (mkPasswordResetConfirmRequest "" "") r (λ request,
    answer (auth_ResetPassword (prc_Token request) (prc_NewPassword request))
      (on_error "ErrUnauthorized" (WriteJSONError 401 "reset token is invalid or expired")
        (error_reply 400 "password could not be reset")) no_content).

Definition me : HandlerFunc W Value := λ r,
  let identity := IdentityFromContext r in
  mret (WriteJSON 200 (VCurrentUser (mkCurrentUserResponse (id_Subject identity) (id_Email identity) (id_Role identity)))).

(** ** Users (users.go) *)

Definition profile : HandlerFunc W Value := λ r,
  answer (auth_GetProfile (request_owner r)) (error_reply 404 "user not found") reply_user.

Definition updateProfile : HandlerFunc W Value := λ r,
  decodeJSON (dec_struct profile_fields) (mkProfileRequest "" "" false false) r (λ req,
    answer (auth_UpdateProfile (request_owner r) (pq_DisplayName req) (pq_Email req)
        (pq_EmailNotificationsEnabled req) (pq_AIEnabled req))
      (error_reply 400 "profile could not be updated") reply_user).

Definition updateNotificationPreferences : HandlerFunc W Value := λ r,
  decodeJSON (dec_map dec_bool false) ∅ r (λ preferences,
    answer (auth_UpdateNotificationPreferences (request_owner r) preferences)
      (error_reply 400 "notification preferences could not be updated") reply_user).

Definition changePassword : HandlerFunc W Value := λ r,
  decodeJSON (dec_struct changePassword_fields) (mkChangePasswordRequest "" "") r (λ req,
    answer (auth_ChangePassword (request_owner r) (cp_CurrentPassword req) (cp_NewPassword req))
      (on_error "ErrUnauthorized" (WriteJSONError 401 "current password is incorrect")
        (error_reply 400 "password could not be changed")) no_content).

Definition users_list : HandlerFunc W Value := λ r,
  answer (auth_ListUsers (request_actor r)) (error_reply 403 "permission denied")
    (λ users, WriteJSON 200 (VUsers (map userPublic users))).

Definition users_manage : HandlerFunc W Value := λ r,
  decodeJSON (dec_struct manageUser_fields) (mkManageUserRequest "" false) r (λ req,
    answer (auth_ManageUser (request_actor r) (URLParam r "userID") (mu_Role req) (mu_AccessBlocked req))
      (on_error "ErrForbidden" (WriteJSONError 403 "super admin cannot be changed")
        (error_reply 400 "user could not be updated")) reply_user).

Definition users_delete : HandlerFunc W Value := λ r,
  answer (auth_DeleteUser (request_actor r) (URLParam r "userID"))
    (on_error "ErrForbidden" (WriteJSONError 403 "super admin cannot be deleted")
      (error_reply 404 "user not found")) no_content.

(** [requireAIEnabled] (handler.go). *)
Definition requireAIEnabled (r : Request) (next : M W (Response Value)) : M W (Response Value) :=
  user ← call (auth_GetProfile (request_owner r));
  match user with
  | inl _ => mret (WriteJSONError 404 "user not found")
  | inr user =>
      if negb (u_AIEnabled user) then mret (WriteJSONError 403 "AI features are disabled for this account")
      else next
  end.
End Auth.

(** ** Groups (groups.go) *)

Section Groups.
Context {W : Type} `{GroupService W}.

Definition groups_list : HandlerFunc W Value := λ r,
  answer (grp_ListVisibleGroups (request_actor r)) (error_reply 500 "could not list groups") (reply 200 VGroups).

Definition groups_create : HandlerFunc W Value := λ r,
  decodeJSON (dec_struct createGroup_fields) (mkCreateGroupRequest "" []) r (λ request,
    answer (grp_CreateGroup (request_actor r) (gr_Name request) (gr_MemberIDs request))
      (forbidden_or 400 "invalid group") (reply 201 VGroup)).

Definition groups_update : HandlerFunc W Value := λ r,
  decodeJSON (dec_struct updateGroup_fields) (mkUpdateGroupRequest "") r (λ request,
    answer (grp_UpdateGroup (request_actor r) (URLParam r "groupID") (ug_NewName request))
      (forbidden_or 404 "group not found") (reply 200 VGroup)).

Definition groups_delete : HandlerFunc W Value := λ r,
  answer (grp_DeleteGroup (request_actor r) (URLParam r "groupID")) (forbidden_or 404 "group not found") no_content.

Definition groups_addMember : HandlerFunc W Value := λ r,
  answer (grp_AddMember (request_actor r) (URLParam r "groupID") (URLParam r "userID"))
    (forbidden_or 404 "group not found") no_content.

Definition groups_removeMember : HandlerFunc W Value := λ r,
  answer (grp_RemoveMember (request_actor r) (URLParam r "groupID") (URLParam r "userID"))
    (forbidden_or 404 "group not found") no_content.
End Groups.

(** ** Expenses (expenses.go) *)

Section Expenses.
Context {W : Type} `{ExpenseService W}.

Definition expense_filter (r : Request) : ExpenseListFilter :=
  mkExpenseListFilter "" (Query_Get r "q") (Query_Get r "category_id") (Query_All r "tag_id") [] 0 0 ""
    (Atoi (Query_Get r "limit")).1 (Atoi (Query_Get r "offset")).1.

Definition expenses_list : HandlerFunc W Value := λ r,
  answer (exp_ListExpensesForViewer (request_actor r) (expense_filter r)) (error_reply 500 "could not list expenses")
    (reply 200 VExpenses).

Definition expenses_get : HandlerFunc W Value := λ r,
  answer (exp_GetExpenseForViewer (request_actor r) (URLParam r "expenseID")) (error_reply 404 "expense not found")
    (reply 200 VExpense).

Definition expenses_create : HandlerFunc W Value := λ r,
  decodeJSON (dec_struct expenseRequest_fields) zero_command r (λ command,
    answer (exp_CreateExpense (request_owner r) command) (error_reply 400 "invalid expense") (reply 201 VExpense)).

Definition expenses_update : HandlerFunc W Value := λ r,
  decodeJSON (dec_struct expenseRequest_fields) zero_command r (λ command,
    answer (exp_UpdateExpense (request_owner r) (URLParam r "expenseID") command)
      (error_reply 400 "expense could not be updated") (reply 200 VExpense)).

Definition expenses_delete : HandlerFunc W Value := λ r,
  answer (exp_DeleteExpense (request_owner r) (URLParam r "expenseID")) (error_reply 404 "expense not found") no_content.
End Expenses.

(** ** Budgets (budgets.go) *)

Section Budgets.
Context {W : Type} `{BudgetService W}.

Definition budgets_list : HandlerFunc W Value := λ r,
  answer (bud_ListBudgets (request_actor r)) (error_reply 500 "could not list budgets") (reply 200 VBudgets).

Definition budgets_get : HandlerFunc W Value := λ r,
  answer (bud_GetBudget (request_actor r) (URLParam r "budgetID")) (error_reply 404 "budget not found")
    (reply 200 VBudget).

Definition budgets_create : HandlerFunc W Value := λ r,
  decodeJSON (dec_struct budgetRequest_fields) zero_budget r (λ budget,
    answer (bud_CreateBudget (request_actor r) budget) (error_reply 400 "invalid budget") (reply 201 VBudget)).

Definition budgets_update : HandlerFunc W Value := λ r,
  decodeJSON (dec_struct budgetRequest_fields) zero_budget r (λ budget,
    answer (bud_UpdateBudget (request_actor r) (URLParam r "budgetID") budget)
      (on_error "ErrNotFound" (WriteJSONError 404 "budget not found") (error_reply 400 "invalid budget"))
      (reply 200 VBudget)).

Definition budgets_delete : HandlerFunc W Value := λ r,
  answer (bud_DeleteBudget (request_actor r) (URLParam r "budgetID")) (error_reply 404 "budget not found") no_content.
End Budgets.

(** ** Categories and tags (taxonomy.go) *)

Section Taxonomy.
Context {W : Type} `{TaxonomyService W}.

Definition with_taxonomy (r : Request) (next : taxonomyRequest → M W (Response Value)) : M W (Response Value) :=
  decodeJSON (dec_struct taxonomy_fields) (mkTaxonomyRequest "" "") r next.

Definition listCategories : HandlerFunc W Value := λ r,
  answer (tax_ListCategories (request_owner r)) (error_reply 500 "could not list categories") (reply 200 VCategories).

Definition createCategory : HandlerFunc W Value := λ r, with_taxonomy r (λ req,
  answer (tax_CreateCategory (request_owner r) (tq_Name req) (tq_Color req)) (error_reply 400 "invalid category")
    (reply 201 VCategory)).

Definition updateCategory : HandlerFunc W Value := λ r, with_taxonomy r (λ req,
  answer (tax_UpdateCategory (request_owner r) (URLParam r "categoryID") (tq_Name req) (tq_Color req))
    (error_reply 404 "category not found") (reply 200 VCategory)).

Definition deleteCategory : HandlerFunc W Value := λ r,
  answer (tax_DeleteCategory (request_owner r) (URLParam r "categoryID")) (error_reply 404 "category not found")
    no_content.

Definition listTags : HandlerFunc W Value := λ r,
  answer (tax_ListTags (request_owner r)) (error_reply 500 "could not list tags") (reply 200 VTags).

Definition createTag : HandlerFunc W Value := λ r, with_taxonomy r (λ req,
  answer (tax_CreateTag (request_owner r) (tq_Name req) (tq_Color req)) (error_reply 400 "invalid tag")
    (reply 201 VTag)).

Definition updateTag : HandlerFunc W Value := λ r, with_taxonomy r (λ req,
  answer (tax_UpdateTag (request_owner r) (URLParam r "tagID") (tq_Name req) (tq_Color req))
    (error_reply 404 "tag not found") (reply 200 VTag)).

Definition deleteTag : HandlerFunc W Value := λ r,
  answer (tax_DeleteTag (request_owner r) (URLParam r "tagID")) (error_reply 404 "tag not found") no_content.
End Taxonomy.

(** ** Scheduled payments (scheduled_payments.go) *)

Section Payments.
Context {W : Type} `{ScheduledPaymentService W}.

Definition payments_list : HandlerFunc W Value := λ r,
  answer (pay_ListScheduledPayments (request_actor r)) (error_reply 500 "could not list scheduled payments")
    (reply 200 VPayments).

Definition payments_get : HandlerFunc W Value := λ r,
  answer (pay_GetScheduledPayment (request_actor r) (URLParam r "paymentID"))
    (error_reply 404 "scheduled payment not found") (reply 200 VPayment).

Definition payments_create : HandlerFunc W Value := λ r,
  decodeJSON (dec_struct paymentRequest_fields) zero_payment r (λ payment,
    answer (pay_CreateScheduledPayment (request_actor r) payment) (forbidden_or 400 "invalid scheduled payment")
      (reply 201 VPayment)).

Definition payments_update : HandlerFunc W Value := λ r,
  decodeJSON (dec_struct paymentRequest_fields) zero_payment r (λ payment,
    answer (pay_UpdateScheduledPayment (request_actor r) (URLParam r "paymentID") payment)
      (on_error "ErrNotFound" (WriteJSONError 404 "scheduled payment not found")
        (forbidden_or 400 "invalid scheduled payment")) (reply 200 VPayment)).

Definition payments_delete : HandlerFunc W Value := λ r,
  answer (pay_DeleteScheduledPayment (request_actor r) (URLParam r "paymentID"))
    (error_reply 404 "scheduled payment not found") no_content.
End Payments.

(** ** Analytics (analytics.go) *)

Section Analytics.
Context {W : Type} `{AnalyticsService W}.

Definition parseDateRange (r : Request) : option (Time * Time) :=
  match ParseRFC3339 (Query_Get r "from"), ParseRFC3339 (Query_Get r "to") with
  | Some from, Some to => if Before to from then None else Some (from, to)
  | _, _ => None
  end.

Definition with_range (r : Request) (next : Time → Time → M W (Response Value)) : M W (Response Value) :=
  match parseDateRange r with
  | None => mret (WriteJSONError 400 "from and to must be ordered RFC3339 timestamps")
  | Some (from, to) => next from to
  end.

Definition invalid_query : error → Response Value := error_reply 400 "invalid analytics query".

Definition listSuggestions : HandlerFunc W Value := λ r,
  answer (ana_ListBudgetSuggestions (request_owner r)) (error_reply 500 "could not create suggestions")
    (reply 200 VSuggestions).

Definition listExpenses : HandlerFunc W Value := λ r, with_range r (λ from to,
  answer (ana_ListExpenseRollups (mkAnalyticsFilter (request_owner r) (Query_Get r "period") from to
      (Query_Get r "category_id") (Query_All r "tag_id"))) invalid_query (reply 200 VRollups)).

Definition comparison : HandlerFunc W Value := λ r,
  answer (ana_ComparePeriods (request_owner r) (Query_Get r "period")) invalid_query (reply 200 VComparison).

Definition categoryChanges : HandlerFunc W Value := λ r,
  answer (ana_TopCategoryChanges (request_owner r) (Query_Get r "period") (Atoi (Query_Get r "limit")).1)
    invalid_query (reply 200 VChanges).

Definition burnRate : HandlerFunc W Value := λ r,
  answer (ana_BurnRate (request_owner r) (Query_Get r "period")) invalid_query (reply 200 VBurnRates).

Definition dailyTotals : HandlerFunc W Value := λ r, with_range r (λ from to,
  answer (ana_DailyTotals (request_owner r) from to) invalid_query (reply 200 VDailyTotals)).

Definition weekdayBreakdown : HandlerFunc W Value := λ r, with_range r (λ from to,
  answer (ana_WeekdayBreakdown (request_owner r) from to) invalid_query (reply 200 VWeekdayTotals)).

Definition topExpenses : HandlerFunc W Value := λ r, with_range r (λ from to,
  answer (ana_TopExpenses (request_owner r) from to (Atoi (Query_Get r "limit")).1) invalid_query (reply 200 VExpenses)).

Definition budgetProgress : HandlerFunc W Value := λ r,
  answer (ana_BudgetProgress (request_owner r)) (error_reply 500 "could not load budget progress")
    (reply 200 VBudgetProgress).
End Analytics.

(** ** Reports (reports.go) *)

Section Reports.
Context {W : Type} `{ReportService W} `{ObjectStore W}.

Definition reports_list : HandlerFunc W Value := λ r,
  answer (rpt_ListReports (request_owner r)) (error_reply 500 "could not list reports") (reply 200 VReports).

Definition reports_download : HandlerFunc W Value := λ r,
  value ← call (rpt_GetReport (request_owner r) (URLParam r "reportID"));
  match value with
  | inl _ => mret (WriteJSONError 404 "report not found")
  | inr value => serveObject (rep_ObjectKey value)
  end.
End Reports.

(** ** The operators' endpoints (audit.go, admin_outbox.go, admin_usage.go) *)

Section Operators.
Context {W : Type} `{AuditService W} `{OutboxAdminService W} `{AdminUsageService W}.

(** [if value := query.Get(name); value != ""], parsed or refused. *)
Definition optional_time (r : Request) (name : string) (next : Time → M W (Response Value)) : M W (Response Value) :=
  let value := Query_Get r name in
  if value =s "" then next 0
  else match ParseRFC3339 value with
       | Some t => next t
       | None => mret (WriteJSONError 400 (name +:+ " must be an RFC3339 timestamp"))
       end.

Definition optional_count (r : Request) (name : string) (next : Z → M W (Response Value)) : M W (Response Value) :=
  let value := Query_Get r name in
  if value =s "" then next 0
  else let '(n, ok) := Atoi value in
       if negb ok || (n <? 0) then mret (WriteJSONError 400 (name +:+ " must be a non-negative integer"))
       else next n.

Definition audit_list : HandlerFunc W Value := λ r,
  optional_time r "from" (λ from, optional_time r "to" (λ to,
  optional_count r "limit" (λ limit, optional_count r "offset" (λ offset,
    answer (adt_ListEntries (request_actor r)
        (mkAuditFilter (Query_Get r "actor_id") (Query_Get r "resource_type") (Query_Get r "resource_id")
          (Query_Get r "action") from to limit offset))
      (error_reply 403 "permission denied") (reply 200 VAuditEntries))))).

Definition outbox_list : HandlerFunc W Value := λ r,
  optional_count r "limit" (λ limit,
    answer (obx_ListDeadLetters (request_actor r) (Query_Get r "subscription") limit)
      (error_reply 403 "permission denied") (reply 200 VDeadLetters)).

Definition outbox_requeue : HandlerFunc W Value := λ r,
  answer (obx_RequeueDeadLetter (request_actor r) (URLParam r "outboxID"))
    (on_error "ErrNotFound" (WriteJSONError 404 "no abandoned delivery with that id")
      (forbidden_or 500 "could not requeue the delivery")) no_content.

Definition usage_summarize : HandlerFunc W Value := λ r,
  optional_time r "since" (λ since,
    answer (use_Summarize (request_actor r) since) (error_reply 403 "permission denied") (reply 200 VUsageSummary)).
End Operators.

(** ** The assistant (assistant.go, pkg/sse) *)

(** The response writer as a stream of events: whether it can flush, and printing
    one event with the document that is its data. *)
Class EventWriter (W : Type) := { can_flush : bool; Fprintf_event : string → json → M W () }.

Definition streaming_unsupported : error := ErrorsNew "streaming is unsupported".

(** [sse.Write] of a map of strings, which always marshals: its error, if any. *)
Definition sse_Write {W} `{EventWriter W} (event : string) (value : list (string * string)) : M W (option error) :=
  if negb can_flush then mret (Some streaming_unsupported)
  else
    written ← catch (Fprintf_event event (JObject (map (λ kv, (kv.1, JString kv.2)) value)));
    mret (match written with inl err => Some err | inr _ => None end).

Section Assistance.
Context {W : Type} `{AuthService W} `{EventWriter W}.

Definition assistant_failed : list (string * string) :=
  [("code", "assistant_failed"); ("message", "Assistant could not answer")].

Definition writeAssistantError (err : error) : M W () :=
  (if ErrorIs err "ErrForbidden"
   then sse_Write "message.error" [("code", "rate_limited"); ("message", "Assistant request limit reached")]
   else sse_Write "message.error" assistant_failed);;
  mret ().

(** The loop over the channel: after a failure, or once the client is gone, the rest
    is received and dropped. *)
Fixpoint relay_chunks (chunks : list CompletionChunk) : M W () :=
  match chunks with
  | [] => mret ()
  | chunk :: chunks =>
      match ck_Err chunk with
      | Some _ => sse_Write "message.error" assistant_failed;; mret ()
      | None =>
          failed ← (if ck_ContentDelta chunk ≠s ""
                    then sse_Write "message.delta" [("delta", ck_ContentDelta chunk)] else mret None);
          match failed with
          | Some _ => mret ()
          | None =>
              (if ck_Done chunk then sse_Write "message.completed" [("status", "completed")] else mret None);;
              relay_chunks chunks
          end
      end
  end.

Definition chat (service : option (AssistantService W)) : HandlerFunc W Value := λ r,
  match service with
  | None =>
      sse_Write "message.started" [("status", "started")];;
      sse_Write "message.error"
        [("code", "assistant_not_configured"); ("message", "Assistant provider is not configured")];;
      mret EventStream
  | Some service =>
      decodeJSON (dec_struct assistant_fields) (mkAssistantRequest "") r (λ request,
      requireAIEnabled r (
        sse_Write "message.started" [("status", "started")];;
        chunks ← call (ast_AskStream (request_owner r) (aq_Message request));
        match chunks with
        | inl err => writeAssistantError err;; mret EventStream
        | inr chunks => relay_chunks chunks;; mret EventStream
        end))
  end.
End Assistance.

(** ** Uploads (uploads.go) and assisted entry (expense_intake.go) *)

(** The parts of [readUpload] before the bytes are looked at. *)
Definition with_upload {W} (r : Request) (next : string → M W (Response Value)) : M W (Response Value) :=
  match rq_Upload r with
  | UploadInvalid => mret (WriteJSONError 400 "invalid or oversized upload")
  | UploadMissing => mret (WriteJSONError 400 "file is required")
  | UploadFile data _ _ => next data
  end.

Definition writeIntakeError (err : error) : Response Value :=
  if ErrorIs err "ErrForbidden" then WriteJSONError 403 "AI expense entry limit reached"
  else WriteJSONError 502 "could not extract an expense".

Section Intake.
Context `{GoRuntime} {W : Type} `{AuthService W} (service : option (ExpenseIntakeService W)).
Context (http_DetectContentType : string → string).

Definition with_intake (next : ExpenseIntakeService W → M W (Response Value)) : M W (Response Value) :=
  match service with
  | None => mret (WriteJSONError 503 "AI expense entry is not configured")
  | Some service => next service
  end.

Definition scan : HandlerFunc W Value := λ r, with_intake (λ service,
  requireAIEnabled r (with_upload r (λ data,
    match readUpload http_DetectContentType data true with
    | None => mret (WriteJSONError 400 "unsupported file type")
    | Some (data, _) => answer (ink_ExtractFromReceipt (request_owner r) data) writeIntakeError (reply 200 VDraft)
    end))).

Definition intelligent : HandlerFunc W Value := λ r, with_intake (λ service,
  decodeJSON (dec_struct intelligent_fields) (mkIntelligentRequest "") r (λ request,
    requireAIEnabled r
      (answer (ink_ExtractFromSentence (request_owner r) (iq_Text request)) writeIntakeError (reply 200 VDraft)))).

Definition dictate : HandlerFunc W Value := λ r, with_intake (λ service,
  requireAIEnabled r (
    match rq_Upload r with
    | UploadInvalid => mret (WriteJSONError 400 "invalid or oversized upload")
    | UploadMissing => mret (WriteJSONError 400 "file is required")
    | UploadFile data filename contentType =>
        result ← call (ink_ExtractFromAudio (request_owner r) data filename contentType);
        mret (match result with
              | inl err | inr (inl err, _) => writeIntakeError err
              | inr (inr draft, transcript) => WriteJSON 200 (VDictation (mkDictateResponse transcript draft))
              end)
    end)).
End Intake.

Section Uploads.
Context `{GoRuntime} {W : Type} `{Env W} `{ExpenseRepository W} `{EventLog W} `{UnitOfWork W}.
Context `{IdentityRepository W} `{ObjectStore W}.
Context (objectRefs : option (ObjectReferenceRepository W)) (groups : option (GroupRepository W)).
Context (http_DetectContentType : string → string) (image_Decode : string → error + Image).
Context (jpeg_Encode : Image → Z → error + string) (grayscale : Image → Image).

Definition uploads_profileImage : HandlerFunc W Value := λ r, with_upload r (λ data,
  response ← Uploads.profileImage objectRefs http_DetectContentType image_Decode jpeg_Encode grayscale
    (request_owner r) data;
  mret (map_response (λ user, VUser (userPublic user)) response)).

Definition uploads_receipt : HandlerFunc W Value := λ r, with_upload r (λ data,
  response ← Uploads.receipt objectRefs http_DetectContentType image_Decode jpeg_Encode grayscale background
    (request_owner r) (URLParam r "expenseID") data;
  mret (map_response VExpense response)).

Definition uploads_downloadProfileImage : HandlerFunc W Value := λ r,
  response ← Uploads.downloadProfileImage (request_owner r);
  mret (map_response (λ user, VUser (userPublic user)) response).

Definition uploads_downloadReceipt : HandlerFunc W Value := λ r,
  response ← Uploads.downloadReceipt groups (request_actor r) (URLParam r "expenseID");
  mret (map_response VExpense response).
End Uploads.

Definition HandleGetVersion {W} (BillPiggyVersion : string) : HandlerFunc W Value := λ r,
  mret (WriteText 200 BillPiggyVersion).
