(* ===== verification/Application.v ===== *)
(** * The route table (the Register functions of
    src/internal/adapter/inbound/http/v1/handler and their order in
    src/cmd/billpiggy/main.go)

    A route with the guards it is mounted behind, outermost first: what [Use] and
    [With] put in front of a handler. *)

From S2P Require Export Prelude GoTime GoStrings Domain Ports Inbound Http Handlers World.
#[global] Open Scope Z_scope.

Inductive Guard := Authenticated | Permitted (permission : Permission).

Record Route (W : Type) := mkRoute {
  rt_Method : string; rt_Pattern : string; rt_Guards : list Guard; rt_Handler : HandlerFunc W Value
}.
Arguments mkRoute {W}. Arguments rt_Method {W}. Arguments rt_Pattern {W}.
Arguments rt_Guards {W}. Arguments rt_Handler {W}.

Section Routes.
Context `{GoRuntime} {W : Type} `{AuthService W} `{ExpenseService W} `{BudgetService W} `{GroupService W}.
Context `{TaxonomyService W} `{ScheduledPaymentService W} `{AnalyticsService W} `{ReportService W}.
Context `{AuditService W} `{OutboxAdminService W} `{AdminUsageService W} `{EventWriter W}.
Context (assistant : option (AssistantService W)) (intake : option (ExpenseIntakeService W)).
Context `{Env W} `{ExpenseRepository W} `{EventLog W} `{UnitOfWork W} `{IdentityRepository W} `{ObjectStore W}.
Context (objectRefs : option (ObjectReferenceRepository W)) (groups : option (GroupRepository W)).
Context (http_DetectContentType : string → string) (image_Decode : string → error + Image).
Context (jpeg_Encode : Image → Z → error + string) (grayscale : Image → Image).
Context (cookieSecure : bool) (BillPiggyVersion : string).

(** [NewAuthMiddleware] and the guards it makes. *)
Definition guard (g : Guard) (next : HandlerFunc W Value) : HandlerFunc W Value :=
  match g with
  | Authenticated => RequireAuthentication (Some authenticator) next
  | Permitted permission => RequirePermission (Some authorizer) permission next
  end.
Definition mount (route : Route W) : HandlerFunc W Value := foldr guard (rt_Handler route) (rt_Guards route).

(** [routes.Get], [Post], [Put] and [Delete] below a prefix. *)
Definition on (method prefix : string) (guards : list Guard) (pattern : string) (handler : HandlerFunc W Value)
    : Route W := mkRoute method (basePathV1 +:+ prefix +:+ pattern) guards handler.

Abbreviation signed_in := [Authenticated].
Abbreviation allowed p := [Authenticated; Permitted p].

Definition auth_routes : list (Route W) :=
  [on "POST" "/auth" [] "/login" (login cookieSecure);
   on "POST" "/auth" [] "/refresh" (refresh cookieSecure);
   on "POST" "/auth" [] "/logout" (logout cookieSecure);
   on "POST" "/auth" [] "/invitations/accept" acceptInvitation;
   on "POST" "/auth" [] "/password-reset" requestPasswordReset;
   on "POST" "/auth" [] "/password-reset/confirm" confirmPasswordReset;
   on "GET" "/auth" signed_in "/me" me;
   on "POST" "/auth" (allowed PermissionUsersInvite) "/invitations" invite].

Definition user_routes : list (Route W) :=
  [on "GET" "/users" signed_in "/me/profile" profile;
   on "PUT" "/users" signed_in "/me/profile" updateProfile;
   on "PUT" "/users" signed_in "/me/notification-preferences" updateNotificationPreferences;
   on "POST" "/users" signed_in "/me/password" changePassword;
   on "GET" "/users" (allowed PermissionUsersManage) "/" users_list;
   on "PUT" "/users" (allowed PermissionUsersManage) "/{userID}" users_manage;
   on "DELETE" "/users" (allowed PermissionUsersManage) "/{userID}" users_delete].

Definition upload_routes : list (Route W) :=
  [on "GET" "" signed_in "/users/me/profile-image" uploads_downloadProfileImage;
   on "POST" "" signed_in "/users/me/profile-image"
     (uploads_profileImage objectRefs http_DetectContentType image_Decode jpeg_Encode grayscale);
   on "GET" "" signed_in "/expenses/{expenseID}/receipt" (uploads_downloadReceipt groups);
   on "POST" "" signed_in "/expenses/{expenseID}/receipt"
     (uploads_receipt objectRefs http_DetectContentType image_Decode jpeg_Encode grayscale)].

Definition expense_routes : list (Route W) :=
  [on "GET" "/expenses" signed_in "/" expenses_list;
   on "POST" "/expenses" (allowed PermissionExpensesWrite) "/" expenses_create;
   on "GET" "/expenses" signed_in "/{expenseID}" expenses_get;
   on "PUT" "/expenses" (allowed PermissionExpensesWrite) "/{expenseID}" expenses_update;
   on "DELETE" "/expenses" (allowed PermissionExpensesDelete) "/{expenseID}" expenses_delete].

Definition intake_routes : list (Route W) :=
  [on "POST" "" signed_in "/expenses/scan" (scan intake http_DetectContentType);
   on "POST" "" signed_in "/expenses/intelligent" (intelligent intake);
   on "POST" "" signed_in "/expenses/dictate" (dictate intake)].

Definition budget_routes : list (Route W) :=
  [on "GET" "/budgets" (allowed PermissionBudgetsRead) "/" budgets_list;
   on "POST" "/budgets" (allowed PermissionBudgetsWrite) "/" budgets_create;
   on "GET" "/budgets" (allowed PermissionBudgetsRead) "/{budgetID}" budgets_get;
   on "PUT" "/budgets" (allowed PermissionBudgetsWrite) "/{budgetID}" budgets_update;
   on "DELETE" "/budgets" (allowed PermissionBudgetsWrite) "/{budgetID}" budgets_delete].

Definition payment_routes : list (Route W) :=
  [on "GET" "/scheduled-payments" (allowed PermissionPaymentsRead) "/" payments_list;
   on "POST" "/scheduled-payments" (allowed PermissionPaymentsWrite) "/" payments_create;
   on "GET" "/scheduled-payments" (allowed PermissionPaymentsRead) "/{paymentID}" payments_get;
   on "PUT" "/scheduled-payments" (allowed PermissionPaymentsWrite) "/{paymentID}" payments_update;
   on "DELETE" "/scheduled-payments" (allowed PermissionPaymentsWrite) "/{paymentID}" payments_delete].

Definition analytics_routes : list (Route W) :=
  let read := allowed PermissionAnalyticsRead in
  [on "GET" "/analytics" read "/expenses" listExpenses;
   on "GET" "/analytics" read "/suggestions" listSuggestions;
   on "GET" "/analytics" read "/comparison" comparison;
   on "GET" "/analytics" read "/category-changes" categoryChanges;
   on "GET" "/analytics" read "/burn-rate" burnRate;
   on "GET" "/analytics" read "/daily-totals" dailyTotals;
   on "GET" "/analytics" read "/weekday-breakdown" weekdayBreakdown;
   on "GET" "/analytics" read "/top-expenses" topExpenses;
   on "GET" "/analytics" read "/budget-progress" budgetProgress].

Definition taxonomy_routes : list (Route W) :=
  let write := allowed PermissionExpensesWrite in
  [on "GET" "/taxonomy" signed_in "/categories" listCategories;
   on "POST" "/taxonomy" write "/categories" createCategory;
   on "PUT" "/taxonomy" write "/categories/{categoryID}" updateCategory;
   on "DELETE" "/taxonomy" write "/categories/{categoryID}" deleteCategory;
   on "GET" "/taxonomy" signed_in "/tags" listTags;
   on "POST" "/taxonomy" write "/tags" createTag;
   on "PUT" "/taxonomy" write "/tags/{tagID}" updateTag;
   on "DELETE" "/taxonomy" write "/tags/{tagID}" deleteTag].

Definition group_routes : list (Route W) :=
  let manage := allowed PermissionGroupsManage in
  [on "GET" "/groups" signed_in "/" groups_list;
   on "POST" "/groups" manage "/" groups_create;
   on "PUT" "/groups" manage "/{groupID}" groups_update;
   on "DELETE" "/groups" manage "/{groupID}" groups_delete;
   on "POST" "/groups" manage "/{groupID}/members/{userID}" groups_addMember;
   on "DELETE" "/groups" manage "/{groupID}/members/{userID}" groups_removeMember].

Definition assistant_routes : list (Route W) :=
  [on "POST" "/assistant" signed_in "/chat" (chat assistant)].

Definition report_routes : list (Route W) :=
  [on "GET" "/reports" signed_in "/" reports_list;
   on "GET" "/reports" signed_in "/{reportID}/download" reports_download].

Definition audit_routes : list (Route W) := [on "GET" "/audit" (allowed PermissionAuditRead) "/" audit_list].

Definition admin_usage_routes : list (Route W) :=
  [on "GET" "/admin/usage" (allowed PermissionAuditRead) "/" usage_summarize].

Definition admin_outbox_routes : list (Route W) :=
  [on "GET" "/admin/outbox/dead-letters" (allowed PermissionAuditRead) "/" outbox_list;
   on "POST" "/admin/outbox/dead-letters" (allowed PermissionAuditRead) "/{outboxID}/requeue" outbox_requeue].

(** The API as main.go mounts it. *)
Definition api : list (Route W) :=
  [on "GET" "" [] "/version" (HandleGetVersion BillPiggyVersion)] ++ auth_routes ++ user_routes ++ upload_routes ++
  expense_routes ++ intake_routes ++ budget_routes ++ payment_routes ++ analytics_routes ++ taxonomy_routes ++
  group_routes ++ assistant_routes ++ report_routes ++ audit_routes ++ admin_usage_routes ++ admin_outbox_routes.
End Routes.

(** * The API of one process (main in src/cmd/billpiggy/main.go)

    The services over the in-memory adapters, wired as main.go wires them, and the
    routes mounted on them.  Cryptography, the language model behind the assistant
    and the intake, the image codecs and the client's connection are parameters. *)

Section Application.
Context `{GoRuntime} `{Crypto World} `{EventWriter World}.
Context (config : AuthConfig).
Context (assistant : option (AssistantService World)) (intake : option (ExpenseIntakeService World)).
Context (http_DetectContentType : string → string) (image_Decode : string → error + Image).
Context (jpeg_Encode : Image → Z → error + string) (grayscale : Image → Image).
Context (cookieSecure : bool) (BillPiggyVersion : string).

#[local] Instance application_outbox : OutboxAdminRepository World := {|
  ListDeadLetters subscription limit := zoom L_events (gets (EventStore.ListDeadLetters subscription limit));
  RequeueDeadLetter id := zoom L_events (EventStore.RequeueDeadLetter id)
|}.

#[local] Instance application_auth : AuthService World :=
  auth_service config (Some world_references) (Some world_notifications).
#[local] Instance application_expenses : ExpenseService World :=
  expense_service (Some world_references) (Some world_groups) (Some world_taxonomy).
#[local] Instance application_budgets : BudgetService World := budget_service.
#[local] Instance application_groups : GroupService World := group_service.
#[local] Instance application_taxonomy : TaxonomyService World := taxonomy_service.
#[local] Instance application_payments : ScheduledPaymentService World := payment_service (Some world_taxonomy).
#[local] Instance application_analytics : AnalyticsService World := analytics_service.
#[local] Instance application_reports : ReportService World := report_service.
#[local] Instance application_audit : AuditService World := audit_service.
#[local] Instance application_outbox_admin : OutboxAdminService World := outbox_admin_service.
#[local] Instance application_usage : AdminUsageService World := admin_usage_service.

Definition application : list (Route World) :=
  api assistant intake (Some world_references) (Some world_groups) http_DetectContentType image_Decode jpeg_Encode
    grayscale cookieSecure BillPiggyVersion.

(** A request served by a route. *)
Definition serve (route : Route World) (r : Request) : M World (Response Value) :=
  mount route r.
End Application.

(** ** A process to run examples in: three accounts, each its own access token *)

Module Sample.
#[export] Existing Instance default_runtime.
Import World.Sample.

#[export] Instance crypto : Crypto World := {|
  CompareHashAndPassword hash password := hash =s ("hash of " +:+ password);
  GenerateFromPassword password := mret ("hash of " +:+ password);
  SignedString key claims := mret (cl_Subject claims);
  ParseWithClaims key issuer token := mret (mkAccessClaims RoleMember token issuer 0 0);
  rand_Read n := mret (repeat 7 n);
  sha256_Sum256 token := map (λ c, Z.of_nat (Ascii.nat_of_ascii c)) (String.list_ascii_of_string token)
|}.
#[export] Instance writer : EventWriter World := {| can_flush := true; Fprintf_event event j := mret () |}.

Definition config : AuthConfig :=
  mkAuthConfig "a secret of at least thirty-two bytes" "billpiggy" 900 2592000 604800 3600
    "root@example.com" "correct horse battery" "".

Definition account (id : string) (role : UserRole) : AppUser :=
  mkAppUser id (id +:+ "@example.com") ("hash of " +:+ id) id "" role false true ∅ false 0 0.
Definition annual : BudgetRecord := mkBudgetRecord "b1" "ann" "food" "Food" "EUR" "" 100000 80 "yearly" None 0 0 None.
Definition w : World :=
  empty_world <| w_identity ::= λ s, s <| usersByID := {["ann" := account "ann" RoleMember;
      "bob" := account "bob" RoleMember; "root" := account "root" RoleSuperAdmin]} |> |>
    <| w_budgets := {["b1" := annual]} |>.

(** A request with a token, for the resource a path parameter names. *)
Definition as_ (token : string) (params : list (string * string)) (body : json) : Request :=
  mkRequest "" [("Authorization", "Bearer " +:+ token)] [] [] params (Some body) UploadInvalid None.

Definition routes : list (Route World) :=
  application config None None (λ _, "") (λ _, inl (ErrorsNew "image")) (λ _ _, inl (ErrorsNew "image")) (λ i, i)
    false "default".
Definition is_route (method pattern : string) (rt : Route World) : bool :=
  (rt_Method rt =s method) && (rt_Pattern rt =s basePathV1 +:+ pattern).
Definition route (method pattern : string) : Route World :=
  default (mkRoute "" "" [] (HandleGetVersion "")) (find (is_route method pattern) routes).
Lemma route_in method pattern : existsb (is_route method pattern) routes = true → route method pattern ∈ routes.
Proof.
unfold route. intros (rt & Hin & Hrt)%existsb_exists. destruct (find _ routes) as [rt'|] eqn:Hf.
- apply list_elem_of_In. by apply find_some in Hf as [Hf _].
- by rewrite (find_none _ _ Hf rt Hin) in Hrt.
Qed.

(** Bob cannot see ann's budget, she can delete it, and the audit trail is the operator's. *)
Example budget_requests :
  (serve config (route "GET" "/budgets/{budgetID}") (as_ "bob" [("budgetID", "b1")] JNull) w).2
    = inr (WriteJSONError 404 "budget not found") ∧
  (serve config (route "DELETE" "/budgets/{budgetID}") (as_ "ann" [("budgetID", "b1")] JNull) w).2 = inr (WriteHeader 204) ∧
  (serve config (route "GET" "/audit/") (as_ "ann" [] JNull) w).2 = inr permission_denied ∧
  (serve config (route "GET" "/audit/") (as_ "root" [] JNull) w).2 = inr (WriteJSON 200 (VAuditEntries [])).
Proof. split_and!; vm_compute; reflexivity. Qed.

(** The list of expenses takes its offset as it comes: below zero the slice
    expression of the in-memory repository panics. *)
Example negative_offset :
  (serve config (route "GET" "/expenses/") ((as_ "ann" [] JNull) <| rq_Query := [("offset", "-1")] |>) w).2
    = inl panic_range.
Proof. vm_compute. reflexivity. Qed.
End Sample.
