(* ===== verification/HttpAccess.v ===== *)
(** * Who gets past the router (Routes over pkg/auth)

    The access policy of the API as a table of its own, short enough to read, and
    the theorem that the guards of the routes implement it; what an outsider can
    learn from a password reset; and that nothing is sent to a model for an account
    that has not opted in. *)

From S2P Require Export Prelude GoTime GoStrings Domain Ports World Inbound Http Handlers Application.
#[local] Open Scope Z_scope.

(** ** The policy *)

Definition under (path pattern : string) : bool := String.prefix (basePathV1 +:+ path) pattern.

Definition public_endpoints : list (string * string) :=
  [("GET", "/version"); ("POST", "/auth/login"); ("POST", "/auth/refresh"); ("POST", "/auth/logout");
   ("POST", "/auth/invitations/accept"); ("POST", "/auth/password-reset"); ("POST", "/auth/password-reset/confirm")].
Definition public (method pattern : string) : bool :=
  existsb (λ e, (e.1 =s method) && (basePathV1 +:+ e.2 =s pattern)) public_endpoints.

(** The audit trail and the operation of the service. *)
Definition operators_only (pattern : string) : bool := under "/audit" pattern || under "/admin" pattern.

(** Other people's accounts, invitations and the groups. *)
Definition admins_only (method pattern : string) : bool :=
  (under "/users" pattern && negb (under "/users/me" pattern)) ||
  (under "/groups" pattern && (method ≠s "GET")) ||
  (basePathV1 +:+ "/auth/invitations" =s pattern).

Definition cleared (role : UserRole) (method pattern : string) : bool :=
  (role =s RoleSuperAdmin) ||
  ((role =s RoleAdmin) && negb (operators_only pattern)) ||
  ((role =s RoleMember) && negb (operators_only pattern) && negb (admins_only method pattern)).

Definition known_roles : list UserRole := [RoleMember; RoleAdmin; RoleSuperAdmin].

(** The roles a list of guards behind the authentication lets through. *)
Definition passes (role : UserRole) (guards : list Guard) : bool :=
  forallb (λ g, match g with Permitted p => Allows role p | Authenticated => false end) guards.

Definition follows_policy {W} (route : Route W) : bool :=
  let method := rt_Method route in let pattern := rt_Pattern route in
  match rt_Guards route with
  | [] => public method pattern
  | Authenticated :: guards =>
      negb (public method pattern) &&
      forallb (λ role, Bool.eqb (passes role guards) (cleared role method pattern)) known_roles
  | Permitted _ :: _ => false
  end.

Definition identity_of (user : AppUser) : Identity := mkIdentity (u_ID user) (u_Email user) (u_Role user).

Section Access.
Context `{GoRuntime} {W : Type} `{AuthService W} `{ExpenseService W} `{BudgetService W} `{GroupService W}.
Context `{TaxonomyService W} `{ScheduledPaymentService W} `{AnalyticsService W} `{ReportService W}.
Context `{AuditService W} `{OutboxAdminService W} `{AdminUsageService W} `{EventWriter W}.
Context (assistant : option (AssistantService W)) (intake : option (ExpenseIntakeService W)).
Context `{Env W} `{ExpenseRepository W} `{EventLog W} `{UnitOfWork W} `{IdentityRepository W} `{ObjectStore W}.
Context (objectRefs : option (ObjectReferenceRepository W)) (groups : option (GroupRepository W)).
Context (http_DetectContentType : string → string) (image_Decode : string → error + Image).
Context (jpeg_Encode : Image → Z → error + string) (grayscale : Image → Image).
Context (cookieSecure : bool) (BillPiggyVersion : string).

Abbreviation routes := (api assistant intake objectRefs groups http_DetectContentType image_Decode jpeg_Encode
  grayscale cookieSecure BillPiggyVersion).

Lemma routes_follow_policy : forallb follows_policy routes = true.
Proof using Type. vm_compute. reflexivity. Qed.

Lemma permissions_mount guards (handler : HandlerFunc W Value) r w identity : rq_Identity r = Some identity →
  forallb (λ g, match g with Permitted _ => true | Authenticated => false end) guards = true →
  foldr guard handler guards r w =
  if passes (id_Role identity) guards then handler r w else (w, inr permission_denied).
Proof using Type.
intros Hid. induction guards as [|[|p] guards IH]; [done..|]. intros Hg. cbn [foldr passes forallb] in *.
unfold guard at 1, RequirePermission. rewrite Hid. cbn.
destruct (Allows (id_Role identity) p); [by apply IH|done].
Qed.

Lemma passes_permitted role guards : passes role guards = true →
  forallb (λ g, match g with Permitted _ => true | Authenticated => false end) guards = true.
Proof using Type.
unfold passes. rewrite !forallb_forall. intros Hp g Hg. specialize (Hp g Hg). by destruct g.
Qed.

Lemma super_passes method pattern : cleared RoleSuperAdmin method pattern = true.
Proof using Type. done. Qed.

(** What the guards of a route do with a request. *)
Lemma authenticated_mount (route : Route W) guards r w : rt_Guards route = Authenticated :: guards →
  mount route r w =
  match bearerToken (Header_Get r "Authorization") with
  | None => (w, inr authentication_required)
  | Some token =>
      match auth_AuthenticateAccessToken token w with
      | (w', inl e) => (w', if ErrorIs e "panic" then inl e else inr authentication_required)
      | (w', inr user) => foldr guard (rt_Handler route) guards (r <| rq_Identity := Some (identity_of user) |>) w'
      end
  end.
Proof using Type.
intros Hg. unfold mount. rewrite Hg. cbn [foldr]. unfold guard at 1, RequireAuthentication.
destruct (bearerToken _) as [token|]; [|done].
unfold call, Authenticate, authenticator, mbind, M_bind.
destruct (auth_AuthenticateAccessToken token w) as [w' [e|user]]; [|done].
by destruct (ErrorIs e "panic").
Qed.

(** [C13] The access policy.  The seven public endpoints run their handler; any other
    one answers 401 without a bearer token, with the state untouched, and with a
    token that does not authenticate; a signed-in account reaches the handler, as
    itself, exactly when its role is cleared for the endpoint, and gets 403 with
    nothing done otherwise. *)
Theorem access_policy route r w : route ∈ routes →
  if public (rt_Method route) (rt_Pattern route) then mount route r w = rt_Handler route r w
  else match bearerToken (Header_Get r "Authorization") with
  | None => mount route r w = (w, inr authentication_required)
  | Some token =>
      match auth_AuthenticateAccessToken token w with
      | (w', inl e) => mount route r w = (w', if ErrorIs e "panic" then inl e else inr authentication_required)
      | (w', inr user) => u_Role user ∈ known_roles →
          mount route r w =
          if cleared (u_Role user) (rt_Method route) (rt_Pattern route)
          then rt_Handler route (r <| rq_Identity := Some (identity_of user) |>) w'
          else (w', inr permission_denied)
      end
  end.
Proof using Type.
intros Hin. pose proof routes_follow_policy as Hp. rewrite forallb_forall in Hp.
apply list_elem_of_In in Hin. specialize (Hp route Hin). unfold follows_policy in Hp.
destruct (rt_Guards route) as [|[|p] guards] eqn:Hg; [|rewrite (authenticated_mount route guards r w Hg)|done].
{ rewrite Hp. unfold mount. by rewrite Hg. }
apply andb_true_iff in Hp as [->%negb_true_iff Hroles].
destruct (bearerToken _) as [token|]; [|done].
destruct (auth_AuthenticateAccessToken token w) as [w' [e|user]]; [done|].
intros Hrole. rewrite forallb_forall in Hroles.
rewrite (permissions_mount guards _ _ _ (identity_of user)); [|done|].
{ cbn [id_Role identity_of]. by rewrite (Bool.eqb_prop _ _ (Hroles (u_Role user) (proj1 (list_elem_of_In _ _) Hrole))). }
apply (passes_permitted RoleSuperAdmin).
rewrite (Bool.eqb_prop _ _ (Hroles RoleSuperAdmin (or_intror (or_intror (or_introl eq_refl))))). apply super_passes.
Qed.
End Access.

(** ** Errors that are not panics *)

Definition calm {W A} (m : M W A) : Prop :=
  ∀ w, match (m w).2 with inl e => ErrorIs e "panic" = false | inr _ => True end.

Section Calm.
Context {W : Type}.

Lemma calm_ret {A} (a : A) : calm (W:=W) (mret a). Proof. done. Qed.
Lemma calm_throw {A} e : ErrorIs e "panic" = false → calm (W:=W) (A:=A) (throw e). Proof. by intros H w. Qed.
Lemma calm_bind {A B} (m : M W A) (k : A → M W B) : calm m → (∀ a, calm (k a)) → calm (m ≫= k).
Proof.
intros Hm Hk w. unfold mbind, M_bind. specialize (Hm w). destruct (m w) as [w1 [e|a]]; [exact Hm|apply Hk].
Qed.
Lemma calm_catch {A} (m : M W A) : calm (catch m).
Proof. intros w. unfold catch. by destruct (m w) as [w1 r]. Qed.
Lemma calm_wrap {A} text (m : M W A) : calm m → calm (wrap_err text m).
Proof. intros Hm w. unfold wrap_err, map_err. specialize (Hm w). by destruct (m w) as [w1 [e|a]]. Qed.
Lemma calm_or_error {A} e (m : M W A) : ErrorIs e "panic" = false → calm (or_error e m).
Proof. intros He w. unfold or_error, map_err. by destruct (m w) as [w1 [e'|a]]. Qed.
Lemma calm_zoom {S A} (l : Lens W S) (m : M S A) : calm m → calm (zoom l m).
Proof. intros Hm w. unfold zoom. specialize (Hm (lens_get l w)). by destruct (m (lens_get l w)) as [s r]. Qed.
Lemma calm_call {A} (m : M W A) w : calm m → call m w = ((m w).1, inr (m w).2).
Proof.
intros Hm. unfold call. specialize (Hm w). destruct (m w) as [w1 [e|a]]; cbn in *; [by rewrite Hm|done].
Qed.
End Calm.

Create HintDb calm discriminated.
#[export] Hint Resolve calm_ret calm_catch calm_wrap calm_zoom : calm.

(** One step into a calm computation. *)
Ltac calm_step :=
  first
    [ apply calm_bind; [|intros ?] | apply calm_throw; reflexivity | apply calm_or_error; reflexivity
    | progress cbv beta zeta | solve [eauto 2 with calm nocore] | apply calm_wrap | apply calm_zoom
    | match goal with |- calm (if ?b then _ else _) => destruct b end
    | match goal with |- calm (match ?x with _ => _ end) => destruct x end
    | by intros ?; repeat case_match ].

Section World.
Context `{GoRuntime} `{Crypto World} `{EventWriter World} (config : AuthConfig) (cookieSecure : bool).

(** The cryptography reports its failures as errors. *)
Definition calm_crypto : Prop :=
  (∀ n, calm (rand_Read (W:=World) n)) ∧ (∀ secret claims, calm (SignedString (W:=World) secret claims)).

Lemma calm_reset email : calm_crypto → calm (RequestPasswordReset config (Some world_notifications) email).
Proof using Type.
intros [Hrand _]. unfold RequestPasswordReset, queuePasswordResetEmail, queue_email, randomToken.
repeat calm_step; try done; try apply Hrand.
all: intros s; unfold memory_CreatePasswordReset; by destruct (_ !! _).
Qed.

Lemma calm_login email password : calm_crypto → calm (Login config email password).
Proof using Type.
intros [Hrand Hsign]. unfold Login, issueSession, randomToken.
repeat calm_step; try done; try apply Hrand; try apply Hsign.
all: intros s; unfold memory_CreateRefreshToken; by destruct (_ !! _).
Qed.
#[local] Instance world_auth : AuthService World := application_auth config.

(** [C31] What an outsider learns.  The answer to a password-reset request does not
    depend on the state, so it cannot tell an address with an account from one
    without; and a login is answered by a session or by one refusal, whichever of
    the address, the password and the account was wrong. *)
Theorem outsider_learns_nothing r : calm_crypto →
  (∃ response, ∀ w, (requestPasswordReset r w).2 = inr response) ∧
  (∃ refusal, ∀ w, (login cookieSecure r w).2 = inr refusal ∨
                   ∃ session, (login cookieSecure r w).2 = inr (writeSession cookieSecure session)).
Proof using Type.
intros Hc. unfold requestPasswordReset, login, decodeJSON. split.
- destruct (rq_Body r ≫= λ body, dec_struct passwordReset_fields body _) as [body|]; [|by eexists]. exists (WriteHeader 202). intros w.
  unfold answer, mbind, M_bind. rewrite calm_call by exact (calm_reset (prb_Email body) Hc). cbn.
  by destruct (RequestPasswordReset _ _ _ w) as [w' [e|a]].
- destruct (rq_Body r ≫= λ body, dec_struct login_fields body _) as [body|]; [|eexists; by left].
  exists (WriteJSONError 401 "invalid credentials"). intros w.
  unfold answer, mbind, M_bind. rewrite calm_call by exact (calm_login (lr_Email body) (lr_Password body) Hc). cbn.
  destruct (Login _ _ _ w) as [w' [e|session]]; cbn; [by left|right; by exists session].
Qed.

(** ** Opting in *)

Context (assistant : AssistantService World) (intake : ExpenseIntakeService World).
Context (http_DetectContentType : string → string).

Definition ai_routes : list (Route World) :=
  assistant_routes (Some assistant) ++ intake_routes (Some intake) http_DetectContentType.

Definition ai_disabled : Response Value := WriteJSONError 403 "AI features are disabled for this account".

Lemma opted_out r w user account next : rq_Identity r = Some (identity_of user) →
  usersByID (w_identity w) !! u_ID user = Some account → u_AIEnabled account = false →
  requireAIEnabled r next w = (w, inr ai_disabled).
Proof using Type.
intros Hid Ha Hoff. unfold requireAIEnabled, request_owner, IdentityFromContext. rewrite Hid.
unfold mbind, M_bind, call. cbn -[call]. unfold GetProfile, or_error, map_err. cbn. unfold zoom. cbn. rewrite Ha. cbn.
rewrite Hoff. cbn. by destruct w.
Qed.

(** For an account that has not opted in, a request to an AI endpoint stops at
    the authentication's state: whatever the assistant or the intake would do, they
    are not called; the answer is the refusal, or 400 for a body that does not
    decode. *)
Theorem ai_needs_opt_in route r token w w' user account : route ∈ ai_routes →
  bearerToken (Header_Get r "Authorization") = Some token →
  AuthenticateAccessToken config token w = (w', inr user) →
  usersByID (w_identity w') !! u_ID user = Some account → u_AIEnabled account = false →
  serve config route r w = (w', inr ai_disabled) ∨
  serve config route r w = (w', inr (WriteJSONError 400 "invalid JSON request")).
Proof using Type.
intros Hin Ht Hauth Ha Hoff. unfold serve.
assert (∀ rt, rt_Guards rt = [Authenticated] → mount rt r w =
  rt_Handler rt (r <| rq_Identity := Some (identity_of user) |>) w') as Hmount.
{ intros rt Hg. rewrite (authenticated_mount rt [] r w Hg), Ht. cbn. by rewrite Hauth. }
assert (∀ next, requireAIEnabled (r <| rq_Identity := Some (identity_of user) |>) next w' = (w', inr ai_disabled)) as Hout.
{ intros next. by eapply opted_out. }
apply list_elem_of_In in Hin. destruct Hin as [<-|[<-|[<-|[<-|[]]]]];
  rewrite Hmount by done; cbn; unfold chat, scan, intelligent, dictate, with_intake, decodeJSON;
  try (destruct (rq_Body _ ≫= _); [|by right]); left; apply Hout.
Qed.
End World.

(** ** Examples *)

Module Sample.
Import Application.Sample World.Sample.

Lemma access_policy_witness :
  serve config (route "GET" "/audit/") (as_ "ann" [] JNull) w =
    ((AuthenticateAccessToken config "ann" w).1, inr permission_denied).
Proof.
assert (route "GET" "/audit/" ∈ routes) as Hin by (apply route_in; vm_compute; reflexivity).
pose proof (access_policy (H0 := application_auth config) _ _ _ _ _ _ _ _ _ _ (route "GET" "/audit/")
  (as_ "ann" [] JNull) w Hin) as Hp.
replace (public _ _) with false in Hp by (vm_compute; reflexivity).
replace (bearerToken _) with (Some "ann") in Hp by (vm_compute; reflexivity).
assert ((AuthenticateAccessToken config "ann" w).2 = inr (account "ann" RoleMember)) as Ha by (vm_compute; reflexivity).
change (auth_AuthenticateAccessToken "ann" w) with (AuthenticateAccessToken config "ann" w) in Hp.
destruct (AuthenticateAccessToken config "ann" w) as [w' res]. cbn in Ha. subst res.
unfold serve. rewrite Hp by (by left). by replace (cleared _ _ _) with false by (vm_compute; reflexivity).
Defined.

Lemma sample_calm : calm_crypto.
Proof. by split. Qed.

(** The reset of an unknown address and a failed login, by their answers. *)
Lemma outsider_learns_nothing_witness :
  let r := mkRequest "" [] [] [] [] (Some (JObject [("email", JString "nobody@example.com")])) UploadInvalid None in
  calm_crypto ∧
  (∃ response, ∀ w, (requestPasswordReset (H := application_auth config) r w).2 = inr response) ∧
  (∃ refusal, ∀ w, (login (H := application_auth config) false r w).2 = inr refusal ∨
     ∃ session, (login (H := application_auth config) false r w).2 = inr (writeSession false session)).
Proof. intros r. split; [exact sample_calm|]. exact (outsider_learns_nothing config false r sample_calm). Defined.

Definition talkative : AssistantService World := {| ast_AskStream owner message := mret [delta_chunk "hello"] |}.
Definition guessing : ExpenseIntakeService World := {|
  ink_ExtractFromReceipt owner data := throw unusable;
  ink_ExtractFromSentence owner text := throw unusable;
  ink_ExtractFromAudio owner data name type := throw unusable
|}.
Definition chat_route : Route World := on "POST" "/assistant" [Authenticated] "/chat" (chat (H := application_auth config) (Some talkative)).
Definition question : Request := as_ "ann" [] (JObject [("message", JString "What did I spend?")]).

Lemma ai_needs_opt_in_witness : (serve config chat_route question w).2 = inr ai_disabled ∨
  (serve config chat_route question w).2 = inr (WriteJSONError 400 "invalid JSON request").
Proof.
assert ((AuthenticateAccessToken config "ann" w).2 = inr (account "ann" RoleMember)) as Ha by (vm_compute; reflexivity).
assert (usersByID (w_identity (AuthenticateAccessToken config "ann" w).1) !! "ann" = Some (account "ann" RoleMember)) as Hu
  by (vm_compute; reflexivity).
destruct (AuthenticateAccessToken config "ann" w) as [w' res] eqn:Hrun. cbn in Ha, Hu. subst res.
destruct (ai_needs_opt_in config talkative guessing (λ _, "") chat_route question "ann" w w' (account "ann" RoleMember)
  (account "ann" RoleMember)) as [->| ->]; [by left|vm_compute; reflexivity|exact Hrun|exact Hu|done|by left|by right].
Defined.
End Sample.
