(* ===== verification/Isolation.v ===== *)
(** * Tenants of the API

    Whatever requests arrive, the expenses, budgets, scheduled payments, categories
    and tags of an account change only under requests that carry a token of that
    account.  Most of the program does not write those stores at all ([quiet]); what
    does write them is shown to write rows of the account it acts for. *)

From S2P Require Export Prelude GoTime GoStrings Domain UnitOfWork Ports Memory MemoryStores IdentityStore World.
From S2P Require Export Auth Expenses ExpenseLog Groups Budgets Payments Analytics Reports AuditTrail AdminUsage Intake.
From S2P Require Export Frames Inbound Http Handlers Application.
#[local] Open Scope Z_scope.

(** ** Computations that leave the stores alone *)

Definition books (w : World) : ExpenseStore * BudgetStore * gmap string ScheduledPayment * TaxonomyStore * (nat → string) :=
  (w_expenses w, w_budgets w, pp_payments (w_payments w), w_taxonomy w, w_ids w).

(** The state has the same books and has drawn no fewer identifiers. *)
Definition drawn_on (w w' : World) : Prop := books w' = books w ∧ (w_drawn w ≤ w_drawn w')%nat.
(** The identifier source is the same, and is drawn from only. *)
Definition aged (w w' : World) : Prop := w_ids w' = w_ids w ∧ (w_drawn w ≤ w_drawn w')%nat.

#[export] Instance drawn_on_preorder : PreOrder drawn_on.
Proof. split; [done|]. intros w1 w2 w3 [H1 H2] [H3 H4]. split; [by etrans|lia]. Qed.
#[export] Instance aged_preorder : PreOrder aged.
Proof. split; [done|]. intros w1 w2 w3 [H1 H2] [H3 H4]. split; [by etrans|lia]. Qed.

Lemma drawn_on_aged w w' : drawn_on w w' → aged w w'.
Proof. intros [Hb Hd]. split; [|done]. unfold books in Hb. by injection Hb. Qed.

Abbreviation quiet := (lifted drawn_on).
Abbreviation ages := (lifted aged).

(** A unit that fails restores its participants, the books among them. *)
Lemma quiet_within {A} (fn : Ctx → M World A) : quiet (fn true) → quiet (Within background fn).
Proof.
intros Hfn w. cbn. unfold memory_Within, background. specialize (Hfn w).
destruct (fn true w) as [w1 [e|a]]; [|done]. destruct Hfn as [Hb Hd]. split; [|exact Hd].
unfold books in *. cbn. by injection Hb as _ _ _ _ ->.
Qed.
Lemma ages_within {A} (fn : Ctx → M World A) : ages (fn true) → ages (Within background fn).
Proof.
intros Hfn w. cbn. unfold memory_Within, background. specialize (Hfn w). by destruct (fn true w) as [w1 [e|a]].
Qed.
Lemma quiet_ages {A} (m : M World A) : quiet m → ages m.
Proof. intros Hm w. apply drawn_on_aged, Hm. Qed.

Ltac quiet := repeat (first [lifted_step drawn_on | apply quiet_within]).

(** ** The ports *)

Lemma quiet_read {S A} (l : Lens World S) (m : M S A) :
  (∀ w, lens_set l (lens_get l w) w = w) → (∀ s, (m s).1 = s) → quiet (zoom l m).
Proof. intros Hl Hm. apply (lifted_zoom drawn_on). intros w. by rewrite Hm, Hl. Qed.

Ltac same_world := let w := fresh in intros w; by destruct w.

Section Quiet.
Context `{GoRuntime}.

Lemma quiet_now : quiet Now.
Proof. by intros w. Qed.
Lemma quiet_id : quiet NewString.
Proof. intros w. split; [done|]. cbn. lia. Qed.
Lemma quiet_append e : quiet (Append e).
Proof. apply (lifted_zoom drawn_on). by intros w. Qed.

Lemma quiet_get_expense o id : quiet (GetExpense o id).
Proof. apply (quiet_read L_expenses); [same_world|]. intros s. unfold memory_GetExpense. by case_match. Qed.
Lemma quiet_get_visible o id gs : quiet (GetExpenseVisible o id gs).
Proof. apply (quiet_read L_expenses); [same_world|]. intros s. unfold memory_GetExpenseVisible. by repeat case_match. Qed.
Lemma quiet_list_expenses f : quiet (ListExpenses f).
Proof.
apply (quiet_read L_expenses); [same_world|]. intros s. unfold memory_ListExpenses, mbind, M_bind, gets, slice_between.
cbn. by case_match.
Qed.
Lemma quiet_list_budgets o gs : quiet (ListBudgets o gs).
Proof. apply (quiet_read L_budgets); [same_world|done]. Qed.
Lemma quiet_get_budget o id gs : quiet (GetBudget o id gs).
Proof. apply (quiet_read L_budgets); [same_world|]. intros s. cbn. by repeat case_match. Qed.
Lemma quiet_list_payments o gs : quiet (ListScheduledPayments o gs).
Proof. apply (quiet_read L_payments); [same_world|done]. Qed.
Lemma quiet_get_payment o id gs : quiet (GetScheduledPayment o id gs).
Proof. apply (quiet_read L_payments); [same_world|]. intros s. cbn. by repeat case_match. Qed.
Lemma quiet_list_categories o : quiet (ListCategories o).
Proof. apply (quiet_read L_taxonomy); [same_world|done]. Qed.
Lemma quiet_list_tags o : quiet (ListTags o).
Proof. apply (quiet_read L_taxonomy); [same_world|done]. Qed.
Lemma quiet_accept id u : quiet (AcceptInvitation id u).
Proof.
apply (lifted_bind drawn_on); [apply quiet_now|intros now1]. apply (lifted_bind drawn_on); [apply quiet_now|intros now2].
apply (lifted_zoom drawn_on). by intros w.
Qed.
End Quiet.
#[export] Hint Resolve quiet_accept quiet_now quiet_id quiet_append quiet_get_expense quiet_get_visible quiet_list_expenses
  quiet_list_budgets quiet_get_budget quiet_list_payments quiet_get_payment quiet_list_categories quiet_list_tags : quiet.

(** From a method of an inbound port to the service's operation. *)
Ltac open_service := cbv zeta; cbv delta [
    auth_Login auth_Refresh auth_Logout auth_Invite auth_AcceptInvitation auth_AuthenticateAccessToken
    auth_ListUsers auth_UpdateProfile auth_UpdateNotificationPreferences auth_ChangePassword
    auth_RequestPasswordReset auth_ResetPassword auth_GetProfile auth_UpdateProfileImage auth_ManageUser
    auth_DeleteUser exp_CreateExpense exp_UpdateExpense exp_DeleteExpense exp_ListExpenses exp_GetExpense
    exp_ListExpensesForViewer exp_GetExpenseForViewer exp_AttachReceipt bud_CreateBudget bud_ListBudgets
    bud_GetBudget bud_UpdateBudget bud_DeleteBudget grp_CreateGroup grp_ListVisibleGroups grp_UpdateGroup
    grp_DeleteGroup grp_AddMember grp_RemoveMember tax_ListCategories tax_CreateCategory tax_UpdateCategory
    tax_DeleteCategory tax_ListTags tax_CreateTag tax_UpdateTag tax_DeleteTag pay_CreateScheduledPayment
    pay_ListScheduledPayments pay_GetScheduledPayment pay_UpdateScheduledPayment pay_DeleteScheduledPayment
    ana_ListBudgetSuggestions ana_ListExpenseRollups ana_ComparePeriods ana_TopCategoryChanges ana_BurnRate
    ana_DailyTotals ana_WeekdayBreakdown ana_TopExpenses ana_BudgetProgress rpt_ListReports rpt_GetReport
    obx_ListDeadLetters obx_RequeueDeadLetter ink_ExtractFromReceipt ink_ExtractFromSentence ink_ExtractFromAudio
    adt_ListEntries use_Summarize ast_AskStream auth_service expense_service budget_service group_service
    taxonomy_service payment_service analytics_service report_service audit_service outbox_admin_service
    admin_usage_service intake_service application_auth application_expenses application_budgets
    application_groups application_taxonomy application_payments application_analytics application_reports
    application_audit application_outbox_admin application_usage] iota beta.

(** ** The services that never write them *)

Section Services.
Context `{GoRuntime} `{Crypto World} (config : AuthConfig).

(** The cryptography has no access to the stores. *)
Record apart : Prop := {
  apart_hash p : quiet (GenerateFromPassword p);
  apart_sign s c : quiet (SignedString s c);
  apart_parse s i t : quiet (ParseWithClaims s i t);
  apart_rand n : quiet (rand_Read n)
}.
Context (Hc : apart).

Ltac crypto := first [apply (apart_hash Hc)|apply (apart_sign Hc)|apply (apart_parse Hc)|apply (apart_rand Hc)].
Ltac service := quiet; try crypto.

Lemma quiet_queue recipient kind payload : quiet (queue_email (Some world_notifications) recipient kind payload).
Proof using Type. unfold queue_email. quiet. Qed.
#[local] Hint Resolve quiet_queue : quiet.

Lemma quiet_new_user email password name role now : quiet (newUser email password name role now).
Proof using Hc. unfold newUser. service. Qed.
#[local] Hint Resolve quiet_new_user : quiet.

Lemma quiet_session user replaced : quiet (issueSession config user replaced).
Proof using Hc. unfold issueSession, randomToken. service. Qed.
#[local] Hint Resolve quiet_session : quiet.

Lemma quiet_authenticate token : quiet (AuthenticateAccessToken config token).
Proof using Hc. unfold AuthenticateAccessToken. service. Qed.

Abbreviation refs := (Some world_references).
Abbreviation mail := (Some world_notifications).

(** The account service: none of its methods writes the books. *)
Lemma quiet_auth : let s := application_auth config in
  (∀ e p, quiet (auth_Login e p)) ∧ (∀ t, quiet (auth_Refresh t)) ∧ (∀ t, quiet (auth_Logout t)) ∧
  (∀ a e r, quiet (auth_Invite a e r)) ∧ (∀ t p n, quiet (auth_AcceptInvitation t p n)) ∧
  (∀ a, quiet (auth_ListUsers a)) ∧ (∀ i n e b1 b2, quiet (auth_UpdateProfile i n e b1 b2)) ∧
  (∀ i m, quiet (auth_UpdateNotificationPreferences i m)) ∧ (∀ i p q, quiet (auth_ChangePassword i p q)) ∧
  (∀ e, quiet (auth_RequestPasswordReset e)) ∧ (∀ t p, quiet (auth_ResetPassword t p)) ∧
  (∀ i, quiet (auth_GetProfile i)) ∧ (∀ i k, quiet (auth_UpdateProfileImage i k)) ∧
  (∀ a i r b, quiet (auth_ManageUser a i r b)) ∧ (∀ a i, quiet (auth_DeleteUser a i)).
Proof using Hc.
open_service; split_and!; intros;
  unfold Login, Refresh, Logout, Invite, queueInvitationEmail, AcceptInvitation_service, ListUsers_service,
    UpdateProfile, UpdateNotificationPreferences, ChangePassword, RequestPasswordReset, queuePasswordResetEmail,
    ResetPassword, GetProfile, UpdateProfileImage, ManageUser, queueAccessChangedEmail, DeleteUser_service,
    randomToken; service.
Qed.

Lemma quiet_groups : let s := group_service in
  (∀ a n ms, quiet (grp_CreateGroup a n ms)) ∧ (∀ a, quiet (grp_ListVisibleGroups a)) ∧
  (∀ a i n, quiet (grp_UpdateGroup a i n)) ∧ (∀ a i, quiet (grp_DeleteGroup a i)) ∧
  (∀ a i u, quiet (grp_AddMember a i u)) ∧ (∀ a i u, quiet (grp_RemoveMember a i u)).
Proof using Type.
open_service; split_and!; intros; unfold CreateGroup_service, ListVisibleGroups_service, UpdateGroup_service,
  DeleteGroup_service, AddMember_service, RemoveMember_service, requireGroupOwner; quiet.
Qed.

Lemma quiet_visible_groups viewer : quiet (visibleGroupIDs (Some world_groups) viewer).
Proof using Type. unfold visibleGroupIDs. quiet. Qed.
Lemma quiet_references_checked o c ts : quiet (validateOwnership (Some world_taxonomy) o c ts).
Proof using Type. unfold validateOwnership. quiet. Qed.
Lemma quiet_budget_group u g : quiet (validateSharedGroup u g).
Proof using Type. unfold validateSharedGroup, budget_visibleGroupIDs. quiet. Qed.
Lemma quiet_payment_group u g : quiet (payment_validateSharedGroup u g).
Proof using Type. unfold payment_validateSharedGroup, payment_visibleGroupIDs. quiet. Qed.
Lemma quiet_payment_ownership o c ts : quiet (payment_validateOwnership (Some world_taxonomy) o c ts).
Proof using Type. unfold payment_validateOwnership. quiet. Qed.

Lemma quiet_expense_reads : let s := application_expenses in
  (∀ f, quiet (exp_ListExpenses f)) ∧ (∀ o i, quiet (exp_GetExpense o i)) ∧
  (∀ v f, quiet (exp_ListExpensesForViewer v f)) ∧ (∀ v i, quiet (exp_GetExpenseForViewer v i)).
Proof using Type.
open_service; split_and!; intros; unfold ListExpensesForViewer, GetExpenseForViewer, ListExpenses_service,
  GetExpense_service, visibleGroupIDs; quiet.
Qed.

Lemma quiet_budget_reads : let s := budget_service in
  (∀ v, quiet (bud_ListBudgets v)) ∧ (∀ v i, quiet (bud_GetBudget v i)).
Proof using Type.
open_service; split_and!; intros; unfold ListBudgets_service, GetBudget_service, budget_visibleGroupIDs; quiet.
Qed.

Lemma quiet_payment_reads : let s := payment_service (Some world_taxonomy) in
  (∀ v, quiet (pay_ListScheduledPayments v)) ∧ (∀ v i, quiet (pay_GetScheduledPayment v i)).
Proof using Type.
open_service; split_and!; intros; unfold ListScheduledPayments_service, GetScheduledPayment_service,
  payment_visibleGroupIDs; quiet.
Qed.

Lemma quiet_analytics : let s := analytics_service in
  (∀ o, quiet (ana_ListBudgetSuggestions o)) ∧ (∀ f, quiet (ana_ListExpenseRollups f)) ∧
  (∀ o p, quiet (ana_ComparePeriods o p)) ∧ (∀ o p l, quiet (ana_TopCategoryChanges o p l)) ∧
  (∀ o p, quiet (ana_BurnRate o p)) ∧ (∀ o f t, quiet (ana_DailyTotals o f t)) ∧
  (∀ o f t, quiet (ana_WeekdayBreakdown o f t)) ∧ (∀ o f t l, quiet (ana_TopExpenses o f t l)) ∧
  (∀ o, quiet (ana_BudgetProgress o)).
Proof using Type.
open_service; split_and!; intros; unfold Analytics.ListBudgetSuggestions, service_ListExpenseRollups, ComparePeriods,
  TopCategoryChanges, service_BurnRate, DailyTotals, WeekdayBreakdown, TopExpenses, service_BudgetProgress, rollups_at,
  suggest, progress_of; quiet.
Qed.

Lemma quiet_reports : let s := report_service in
  (∀ o, quiet (rpt_ListReports o)) ∧ (∀ o i, quiet (rpt_GetReport o i)).
Proof using Type. open_service; split_and!; intros; unfold service_ListReports, service_GetReport; quiet. Qed.

Lemma quiet_operators : let s1 := audit_service in let s2 := application_outbox in let s3 := outbox_admin_service in
  let s4 := admin_usage_service in
  (∀ a f, quiet (adt_ListEntries a f)) ∧ (∀ a s l, quiet (obx_ListDeadLetters a s l)) ∧
  (∀ a i, quiet (obx_RequeueDeadLetter a i)) ∧ (∀ a t, quiet (use_Summarize a t)).
Proof using Type.
open_service; split_and!; intros; unfold ListEntries_service, ListDeadLetters_service, RequeueDeadLetter_service,
  AdminUsage_Summarize; quiet.
Qed.
End Services.

(** ** What belongs to an account *)

Section Isolation.
Context `{GoRuntime} (v : string).

Definition mine {A} (owner : A → string) (m : gmap string A) : gmap string A :=
  filter (λ kv, owner kv.2 = v) m.

Definition data_of (w : World)
    : gmap string ExpenseRecord * gmap string BudgetRecord * gmap string ScheduledPayment *
      option (list ExpenseCategory) * option (list ExpenseTag) :=
  (mine ex_OwnerID (w_expenses w), mine bd_OwnerID (w_budgets w), mine sp_OwnerID (pp_payments (w_payments w)),
   ts_categories (w_taxonomy w) !! v, ts_tags (w_taxonomy w) !! v).

(** Rows are filed under their ids, and the identifiers still to be drawn are new. *)
Definition new_id (id : string) (w : World) : Prop :=
  w_budgets w !! id = None ∧ pp_payments (w_payments w) !! id = None.
Definition store_ok (w : World) : Prop :=
  (∀ id e, w_expenses w !! id = Some e → ex_ID e = id) ∧
  (∀ id b, w_budgets w !! id = Some b → bd_ID b = id) ∧
  (∀ n m, w_ids w n = w_ids w m → n = m) ∧
  (∀ n, (w_drawn w ≤ n)%nat → new_id (w_ids w n) w).

Context (o : gmap string ExpenseRecord * gmap string BudgetRecord * gmap string ScheduledPayment *
      option (list ExpenseCategory) * option (list ExpenseTag)).

(** The invariant of a request that is not [v]'s. *)
Definition kept (w : World) : Prop := data_of w = o ∧ store_ok w.

(** It sees only the books and how far the identifiers are drawn. *)
Definition stable (K : World → Prop) : Prop := ∀ w w', K w → drawn_on w w' → K w'.

Lemma kept_stable : stable kept.
Proof using Type.
intros w w' [Hd (He & Hb & Hi & Hf)] [Hbooks Hdrawn]. unfold books in Hbooks. injection Hbooks as B1 B2 B3 B4 B5.
unfold kept, data_of, store_ok, new_id in *. rewrite B1, B2, B3, B4, B5. split; [done|]. split_and!; [done..|].
intros n Hn. apply Hf. lia.
Qed.

(** An identifier once drawn stays apart from the ones still to be drawn. *)
Definition reserved (id : string) (w : World) : Prop :=
  new_id id w ∧ ∀ n, (w_drawn w ≤ n)%nat → w_ids w n ≠ id.

Lemma reserved_stable id : stable (reserved id).
Proof using Type.
intros w w' [[H1 H2] Hr] [Hbooks Hdrawn]. unfold books in Hbooks. injection Hbooks as B1 B2 B3 B4 B5.
unfold reserved, new_id. rewrite B2, B3, B5. split_and!; [done..|]. intros n Hn. apply Hr. lia.
Qed.

Lemma and_stable K K' : stable K → stable K' → stable (λ w, K w ∧ K' w).
Proof using Type. intros H1 H2 w w' [Hw Hw'] Hd. split; [by apply (H1 w)|by apply (H2 w)]. Qed.

Lemma hoare_quiet {A} K (m : M World A) : stable K → quiet m → hoare K m (λ _, K) K.
Proof using Type. intros HK Hm w Hw. specialize (Hm w). destruct (m w) as [w' [e|a]]; by apply (HK w). Qed.

Lemma hoare_new_id : hoare kept NewString (λ id w, kept w ∧ reserved id w) kept.
Proof using Type.
intros w Hw. cbn. split; [apply (kept_stable w); [done|apply quiet_id]|].
destruct Hw as [_ (_ & _ & Hi & Hf)]. split; [apply Hf; cbn; lia|].
cbn. intros n Hn Heq. apply Hi in Heq. lia.
Qed.

(** A unit: on success what its callback guarantees, on failure the restored books. *)
Lemma hoare_unit {A} K (fn : Ctx → M World A) : (∀ w, K w → kept w) → ages (fn true) →
  hoare K (fn true) (λ _, kept) (λ _, True) → hoare K (Within background fn) (λ _, kept) kept.
Proof using Type.
intros HK Ha Hfn w Hw. cbn. unfold memory_Within, background. specialize (Ha w). specialize (Hfn w Hw).
destruct (fn true w) as [w1 [e|a]]; [|done]. apply (kept_stable w); [by apply HK|].
destruct Ha as [Hi Hd]. split; [|exact Hd]. unfold books. cbn. cbn in Hi. by rewrite Hi.
Qed.

(** ** Rows of other accounts *)

Lemma mine_insert {A} (owner : A → string) (m : gmap string A) k x : owner x ≠ v →
  (∀ y, m !! k = Some y → owner y ≠ v) → mine owner (<[k := x]> m) = mine owner m.
Proof using Type. intros Hx Hy. unfold mine. by apply map_filter_insert_not'. Qed.

Lemma write_expense w k e : kept w → ex_ID e = k → ex_OwnerID e ≠ v →
  (∀ y, w_expenses w !! k = Some y → ex_OwnerID y ≠ v) → kept (w <| w_expenses := <[k := e]> (w_expenses w) |>).
Proof using Type.
intros [Hd (He & Hok)] <- Ho Hy. unfold kept, data_of in *. cbn. unfold ExpenseStore in *. rewrite (mine_insert ex_OwnerID) by done. split; [done|].
split; [|exact Hok]. cbn. intros id x. unfold ExpenseStore in *. rewrite lookup_insert_Some.
intros [[<- <-]|[_ Hl]]; [done|by apply He].
Qed.

Lemma write_budget w k b : kept w → bd_ID b = k → bd_OwnerID b ≠ v →
  (∀ y, w_budgets w !! k = Some y → bd_OwnerID y ≠ v) →
  (is_Some (w_budgets w !! k) ∨ ∀ n, (w_drawn w ≤ n)%nat → w_ids w n ≠ k) →
  kept (w <| w_budgets := <[k := b]> (w_budgets w) |>).
Proof using Type.
intros [Hd (He & Hb & Hi & Hf)] <- Ho Hy Hid. unfold kept, data_of, store_ok, new_id in *. cbn.
unfold BudgetStore in *. rewrite (mine_insert bd_OwnerID) by done. split; [done|]. split_and!; [done| |done|].
- intros id x. rewrite lookup_insert_Some. intros [[<- <-]|[_ Hl]]; [done|by apply Hb].
- intros n Hn. destruct (Hf n Hn) as [H1 H2]. split; [|done]. rewrite lookup_insert_ne; [done|].
  intros Heq. destruct Hid as [[y Hs]|Hid]; [|by apply (Hid n)]. rewrite Heq, H1 in Hs. done.
Qed.

Lemma write_payment w k p : kept w → sp_OwnerID p ≠ v →
  (∀ y, pp_payments (w_payments w) !! k = Some y → sp_OwnerID y ≠ v) →
  (is_Some (pp_payments (w_payments w) !! k) ∨ ∀ n, (w_drawn w ≤ n)%nat → w_ids w n ≠ k) →
  kept (w <| w_payments := (w_payments w) <| pp_payments ::= <[k := p]> |> |>).
Proof using Type.
intros [Hd (He & Hb & Hi & Hf)] Ho Hy Hid. unfold kept, data_of, store_ok, new_id in *. cbn.
rewrite (mine_insert sp_OwnerID) by done. split; [done|]. split_and!; [done..|].
intros n Hn. destruct (Hf n Hn) as [H1 H2]. split; [done|]. rewrite lookup_insert_ne; [done|].
intros Heq. destruct Hid as [[y Hs]|Hid]; [|by apply (Hid n)]. rewrite Heq, H2 in Hs. done.
Qed.

Lemma write_taxonomy w s : kept w → ts_categories s !! v = ts_categories (w_taxonomy w) !! v →
  ts_tags s !! v = ts_tags (w_taxonomy w) !! v → kept (w <| w_taxonomy := s |>).
Proof using Type. intros [Hd Hok] H1 H2. unfold kept, data_of in *. cbn. by rewrite H1, H2. Qed.

(** ** The services that write, for an account that is not [v] *)

Context (u : string) (Hu : u ≠ v).

Ltac stably := repeat first [apply kept_stable|apply reserved_stable|apply and_stable].
Ltac quietly L :=
  lazymatch goal with
  | |- hoare ?K (_ ≫= _) _ _ =>
      apply (hoare_bind _ _ _ (λ _, K)); [eapply hoare_weaken; [apply (hoare_quiet K); [stably|L]|done..]|intros ?]
  end.
Ltac ages := repeat (first [lifted_step aged | apply quiet_ages, quiet_id | apply quiet_ages, quiet_now]).

Lemma quiet_event ty id act p t : quiet (append_expense_event ty id act p t).
Proof using Type. unfold append_expense_event, newExpenseEvent. quiet. Qed.

Definition row (id : string) (e : ExpenseRecord) (w : World) : Prop := kept w ∧ w_expenses w !! id = Some e.
Lemma row_stable id e : stable (row id e).
Proof using Type.
intros w w' [Hk Hl] Hd. split; [by apply (kept_stable w)|]. destruct Hd as [Hb _]. unfold books in Hb.
injection Hb as Hb _ _ _ _. by rewrite Hb.
Qed.

Lemma get_expense_own id :
  hoare kept (map_err (λ _, ErrNotFound) (GetExpense u id))
    (λ e w, (ex_OwnerID e = u ∧ ex_ID e = id) ∧ row id e w) kept.
Proof using Type.
apply hoare_map_err. intros w Hw. cbn. unfold zoom, memory_GetExpense, expense_get. cbn.
destruct (w_expenses w !! id) as [e|] eqn:He; [|by destruct w].
destruct (String.eqb_spec (ex_OwnerID e) u), (live (ex_DeletedAt e)); try by destruct w.
destruct w. split; [|by split]. split; [done|]. by apply Hw.
Qed.

Lemma put_expense f K e : (∀ w, K w → kept w ∧ ∀ y, w_expenses w !! ex_ID e = Some y → ex_OwnerID y ≠ v) →
  ex_OwnerID e ≠ v → hoare K (map_err f (UpdateExpense e)) (λ _, kept) (λ _, True).
Proof using Type.
intros HK Ho. apply hoare_map_err. intros w Hw. destruct (HK w Hw) as [Hk Hy]. cbn. unfold zoom, memory_UpdateExpense. cbn.
destruct (w_expenses w !! ex_ID e) eqn:Hl; [|done]. apply (write_expense w (ex_ID e) e); [done..|]. intros y Hl'.
rewrite Hl in Hl'. by apply Hy.
Qed.

(** A unit that records and then writes. *)
Lemma hoare_recorded {A B} K (m : M World A) (rest : M World B) : stable K → (∀ w, K w → kept w) → quiet m →
  ages rest → hoare K rest (λ _, kept) (λ _, True) → hoare K (Within background (λ _, m;; rest)) (λ _, kept) kept.
Proof using Type.
intros HK Hk Hm Ha Hr. apply hoare_unit; [done|by apply (lifted_bind aged); [apply quiet_ages|]|].
apply (hoare_bind _ _ _ (λ _, K)); [|done]. eapply hoare_weaken; [by apply (hoare_quiet K)|done..].
Qed.

Lemma row_other id e w : ex_OwnerID e = u → ex_ID e = id → row id e w →
  kept w ∧ ∀ y, w_expenses w !! id = Some y → ex_OwnerID y ≠ v.
Proof using Hu. intros Ho Hid [Hk Hl]. split; [done|]. intros y Hy. congruence. Qed.

#[local] Hint Resolve quiet_references_checked quiet_budget_group quiet_payment_group quiet_payment_ownership : quiet.

Ltac stable_row := first [apply row_stable|apply kept_stable].
Ltac pass := match goal with
  | |- hoare ?K (_ ≫= _) _ _ =>
      apply (hoare_bind _ _ _ (λ _, K));
        [eapply hoare_weaken; [apply (hoare_quiet K); [stable_row|quiet]|done|done|
           by (intros ? Hpass; first [exact Hpass|exact (proj1 Hpass)])]|intros ?]
  end.

Lemma create_expense_kept command :
  hoare kept (CreateExpense_service (Some world_taxonomy) background u command) (λ _, kept) kept.
Proof using Hu.
unfold CreateExpense_service. do 2 pass. set (e := default_status _).
assert (ex_OwnerID e = u) as Ho by (unfold e, default_status; by case_match). do 2 pass.
apply (hoare_bind _ _ _ (λ _, kept)); [|intros ?; by apply hoare_ret].
apply hoare_unit; [done| |].
{ unfold append_expense_event, newExpenseEvent. ages. }
apply (hoare_bind _ _ _ (λ _, kept)).
{ eapply hoare_weaken; [apply (hoare_quiet kept); [apply kept_stable|apply (lifted_map_err drawn_on), quiet_event]|done..]. }
intros _. apply hoare_map_err. intros w Hw. cbn. unfold zoom, memory_CreateExpense. cbn.
destruct (w_expenses w !! ex_ID e) eqn:Hl; [done|]. apply (write_expense w (ex_ID e) e); [done|done|by rewrite Ho|]. by rewrite Hl.
Qed.

Lemma update_expense_kept id command :
  hoare kept (UpdateExpense_service (Some world_taxonomy) background u id command) (λ _, kept) kept.
Proof using Hu.
unfold UpdateExpense_service. eapply hoare_bind; [apply get_expense_own|intros e0]. apply hoare_pure. intros [Ho Hid].
pass. set (e := edit_expense _ _ _). do 2 pass.
apply (hoare_bind _ _ _ (λ _, kept)); [|intros ?; by apply hoare_ret].
apply hoare_recorded; [apply row_stable|by intros w [Hw _]|apply (lifted_map_err drawn_on), quiet_event|ages|].
apply put_expense; [|by unfold e; rewrite edit_owner, Ho]. intros w Hw. unfold e. rewrite edit_id, Hid.
by apply (row_other id e0).
Qed.

Lemma delete_expense_kept id :
  hoare kept (DeleteExpense_service (Some world_references) background u id) (λ _, kept) kept.
Proof using Hu.
unfold DeleteExpense_service. eapply hoare_bind; [apply get_expense_own|intros e0]. apply hoare_pure. intros [Ho Hid].
pass. apply hoare_recorded; [apply row_stable|by intros w [Hw _]|apply (lifted_map_err drawn_on), quiet_event|ages|].
apply (hoare_bind _ _ _ (λ _, kept)).
- apply hoare_map_err. intros w Hw. destruct (row_other id e0 w Ho Hid Hw) as [Hk Hy]. cbn. unfold zoom, memory_DeleteExpense. cbn.
  destruct (expense_get u id (w_expenses w)) as [e|] eqn:Hg; [|done].
  unfold expense_get in Hg. destruct (w_expenses w !! id) as [x|] eqn:Hl; [|done].
  case_match; [done|]. injection Hg as ->. apply (write_expense w id); [done|exact (proj1 (proj2 Hk) id e Hl)|exact (Hy e eq_refl)|].
  intros y Hl'. rewrite Hl in Hl'. by apply Hy.
- intros ?. eapply hoare_weaken; [apply (hoare_quiet kept); [apply kept_stable|quiet]|done..].
Qed.

Lemma attach_receipt_kept id key :
  hoare kept (AttachReceipt (Some world_references) background u id key) (λ _, kept) kept.
Proof using Hu.
unfold AttachReceipt. eapply hoare_bind; [apply get_expense_own|intros e0]. apply hoare_pure. intros [Ho Hid].
case_match; [by apply hoare_throw; intros w [Hw _]|]. pass. set (e := e0 <| _ := _ |> <| _ := _ |>).
apply (hoare_bind _ _ _ (λ _, kept)); [|intros ?; by apply hoare_ret].
apply hoare_recorded; [apply row_stable|by intros w [Hw _]|apply quiet_event|ages|].
apply (hoare_bind _ _ _ (λ _, kept)).
- eapply hoare_ext; [intros w; apply (map_err_id (UpdateExpense e))|]. apply put_expense; [|by subst e; cbn; rewrite Ho].
  intros w Hw. change (ex_ID e) with (ex_ID e0). rewrite Hid. by apply (row_other id e0).
- intros ?. eapply hoare_weaken; [apply (hoare_quiet kept); [apply kept_stable|quiet]|done..].
Qed.

(** Budgets. *)
Definition budget_row (id : string) (b : BudgetRecord) (w : World) : Prop := kept w ∧ w_budgets w !! id = Some b.
Lemma budget_row_stable id b : stable (budget_row id b).
Proof using Type.
intros w w' [Hk Hl] Hd. split; [by apply (kept_stable w)|]. destruct Hd as [Hb _]. unfold books in Hb.
injection Hb as _ Hb _ _ _. by rewrite Hb.
Qed.
Lemma kept_reserved_stable id : stable (λ w, kept w ∧ reserved id w).
Proof using Type. apply and_stable; [apply kept_stable|apply reserved_stable]. Qed.

Lemma quiet_budget_event ty id p t a : quiet (append_budget_event ty id p t a).
Proof using Type. unfold append_budget_event. quiet. Qed.

Ltac step K := match goal with
  | |- hoare K (_ ≫= _) _ _ => apply (hoare_bind _ _ _ (λ _, K));
      [eapply hoare_weaken; [apply (hoare_quiet K);
         [first [apply kept_stable|apply budget_row_stable|apply kept_reserved_stable]|quiet]|done|done|
         by (intros ? Hpass; first [exact Hpass|exact (proj1 Hpass)])]|intros ?]
  end.

Lemma create_budget_kept owner budget : u_ID owner = u →
  hoare kept (CreateBudget_service background owner budget) (λ _, kept) kept.
Proof using Hu.
intros Howner. unfold CreateBudget_service. eapply hoare_bind; [apply hoare_new_id|intros id]. cbn beta.
step (λ w, kept w ∧ reserved id w). set (b := mkBudgetRecord _ _ _ _ _ _ _ _ _ _ _ _ _).
do 2 step (λ w, kept w ∧ reserved id w). apply (hoare_bind _ _ _ (λ _, kept)); [|intros ?; by apply hoare_ret].
apply hoare_recorded; [apply kept_reserved_stable|by intros w [Hw _]|apply quiet_budget_event|ages|].
intros w [Hk [[Hn _] Hr]]. apply (write_budget w id b); [done|done|by cbn; rewrite Howner|by rewrite Hn|by right].
Qed.

Lemma own_budget_row owner id : u_ID owner = u →
  hoare kept (own_budget owner id) (λ b w, (bd_OwnerID b = u ∧ bd_ID b = id) ∧ budget_row id b w) kept.
Proof using Hu.
intros <-. unfold own_budget. eapply hoare_bind.
- apply hoare_map_err. instantiate (1 := λ b w, budget_row id b w). intros w Hw. cbn. unfold zoom. cbn.
  destruct (w_budgets w !! id) as [b|] eqn:Hb; [|by destruct w]. destruct (budget_visible _ _ b); by destruct w.
- intros b w Hw. destruct (String.eqb_spec (bd_OwnerID b) (u_ID owner)); cbn; [|by apply Hw].
  split; [|done]. split; [done|]. destruct Hw as [[_ (_ & Hb & _)] Hl]. by apply Hb.
Qed.

Lemma update_budget_kept owner id update : u_ID owner = u →
  hoare kept (UpdateBudget_service background owner id update) (λ _, kept) kept.
Proof using Hu.
intros Howner. unfold UpdateBudget_service. eapply hoare_bind; [by apply own_budget_row|intros b0]. apply hoare_pure.
intros [Ho Hid]. step (budget_row id b0). set (b := mkBudgetRecord _ _ _ _ _ _ _ _ _ _ _ _ _).
do 2 step (budget_row id b0). apply (hoare_bind _ _ _ (λ _, kept)); [|intros ?; by apply hoare_ret].
apply hoare_recorded; [apply budget_row_stable|by intros w [Hw _]|apply quiet_budget_event|ages|].
intros w [Hk Hl]. apply (write_budget w (bd_ID b0) b); [done|done|by cbn; rewrite Ho| |left; rewrite Hid, Hl; eauto].
intros y. rewrite Hid, Hl. congruence.
Qed.

Lemma delete_budget_kept owner id : u_ID owner = u →
  hoare kept (DeleteBudget_service background owner id) (λ _, kept) kept.
Proof using Hu.
intros Howner. unfold DeleteBudget_service. eapply hoare_bind; [by apply own_budget_row|intros b0]. apply hoare_pure.
intros [Ho Hid]. step (budget_row id b0).
apply hoare_recorded; [apply budget_row_stable|by intros w [Hw _]|apply quiet_budget_event|ages|].
intros w [Hk Hl]. cbn. unfold zoom. cbn. rewrite Hl, Howner. destruct (String.eqb_spec (bd_OwnerID b0) u); [|done].
apply (write_budget w id); [done|done|by rewrite <- Ho in Hu| |left; rewrite Hl; eauto]. intros y. rewrite Hl. congruence.
Qed.

(** Scheduled payments. *)
Lemma quiet_payment_event ty id a p t : quiet (append_payment_event ty id a p t).
Proof using Type. unfold append_payment_event, payment_event. quiet. Qed.

Lemma create_payment_kept owner payment : u_ID owner = u →
  hoare kept (CreateScheduledPayment_service (Some world_taxonomy) background owner payment) (λ _, kept) kept.
Proof using Hu.
intros Howner. unfold CreateScheduledPayment_service. pass.
eapply hoare_bind; [apply hoare_new_id|intros id]. cbn beta.
set (p := mkScheduledPayment _ _ _ _ _ _ _ _ _ _ _ _ _ _ _ _ _ _ _ _ _).
do 3 step (λ w, kept w ∧ reserved id w). apply (hoare_bind _ _ _ (λ _, kept)); [|intros ?; by apply hoare_ret].
apply hoare_recorded; [apply kept_reserved_stable|by intros w [Hw _]|apply (lifted_map_err drawn_on), quiet_payment_event|ages|].
intros w [Hk [[_ Hn] Hr]]. apply (write_payment w id p); [done|by cbn; rewrite Howner|by rewrite Hn|by right].
Qed.

Lemma own_payment_kept owner id : u_ID owner = u →
  hoare kept (own_payment owner id) (λ p w, sp_OwnerID p = u ∧ kept w) kept.
Proof using Type.
intros Howner. unfold own_payment. eapply hoare_bind.
- eapply hoare_weaken; [apply (hoare_quiet kept); [apply kept_stable|quiet]|done..].
- intros p w Hw. rewrite Howner. destruct (String.eqb_spec (sp_OwnerID p) u); cbn; [|by apply Hw]. by split.
Qed.

Lemma edit_payment_owner update now p : sp_OwnerID (edit_payment update now p) = sp_OwnerID p.
Proof using Type. unfold edit_payment. by case_match. Qed.

Lemma put_payment p : sp_OwnerID p = u → hoare kept (UpdateScheduledPayment p) (λ _, kept) (λ _, True).
Proof using Hu.
intros Ho w Hw. cbn. unfold zoom, with_payment. cbn.
destruct (pp_payments (w_payments w) !! sp_ID p) as [old|] eqn:Hl; [|done].
destruct (String.eqb_spec (sp_OwnerID old) (sp_OwnerID p)) as [He|]; cbn; [|done]. destruct (live _); [|done].
apply (write_payment w (sp_ID p) p); [done|by rewrite Ho| |left; rewrite Hl; eauto]. intros y. rewrite Hl. congruence.
Qed.

Lemma update_payment_kept owner id update : u_ID owner = u →
  hoare kept (UpdateScheduledPayment_service (Some world_taxonomy) background owner id update) (λ _, kept) kept.
Proof using Hu.
intros Howner. unfold UpdateScheduledPayment_service. eapply hoare_bind; [by apply own_payment_kept|intros p0].
apply hoare_pure. intros Ho. pass. set (p := edit_payment _ _ _). do 3 pass.
apply (hoare_bind _ _ _ (λ _, kept)); [|intros ?; by apply hoare_ret].
apply hoare_recorded; [apply kept_stable|done|apply (lifted_map_err drawn_on), quiet_payment_event|ages|].
apply put_payment. unfold p. by rewrite edit_payment_owner.
Qed.

Lemma drop_payment id : hoare kept (DeleteScheduledPayment u id) (λ _, kept) (λ _, True).
Proof using Hu.
intros w Hw. cbn. unfold zoom, mbind, M_bind, gets. cbn. set (w0 := w <| w_payments := w_payments w |>).
replace w0 with w by (by destruct w). clear w0.
destruct (pp_payments (w_payments w) !! id) as [p|] eqn:Hl; [|done].
destruct (String.eqb_spec (sp_OwnerID p) u) as [He|]; cbn; [|done]. destruct (live _); [|done]. cbn.
unfold with_payment. cbn. rewrite Hl. cbn.
set (p' := p <| sp_DeletedAt := _ |>).
apply (kept_stable (w <| w_payments := (w_payments w) <| pp_payments ::= <[id := p']> |> |>)); [|by split].
apply write_payment; [done|by cbn; rewrite He| |left; rewrite Hl; eauto]. intros y. rewrite Hl. congruence.
Qed.

Lemma ages_drop_payment id : ages (DeleteScheduledPayment u id).
Proof using Type.
apply (lifted_bind aged); [by apply (lifted_zoom aged)|intros [|]]; [|by apply (lifted_throw aged)].
apply (lifted_bind aged); [apply quiet_ages, quiet_now|intros ?]. by apply (lifted_zoom aged).
Qed.

Lemma delete_payment_kept owner id : u_ID owner = u →
  hoare kept (DeleteScheduledPayment_service background owner id) (λ _, kept) kept.
Proof using Hu.
intros Howner. unfold DeleteScheduledPayment_service. eapply hoare_bind; [by apply own_payment_kept|intros p0].
apply hoare_pure. intros Ho. pass.
apply hoare_recorded; [apply kept_stable|done|apply (lifted_map_err drawn_on), quiet_payment_event
  |rewrite Howner; apply ages_drop_payment|].
rewrite Howner. apply drop_payment.
Qed.

(** Categories and tags. *)
Lemma taxonomy_kept (m : M TaxonomyStore ()) :
  (∀ s, ts_categories (m s).1 !! v = ts_categories s !! v ∧ ts_tags (m s).1 !! v = ts_tags s !! v) →
  hoare kept (zoom L_taxonomy m) (λ _, kept) kept.
Proof using Type.
intros Hm w Hw. unfold zoom. cbn. destruct (Hm (w_taxonomy w)) as [H1 H2].
destruct (m (w_taxonomy w)) as [s [e|a]]; by apply write_taxonomy.
Qed.

Lemma categories_kept f : hoare kept (zoom L_taxonomy (update_categories u f)) (λ _, kept) kept.
Proof using Hu.
apply taxonomy_kept. intros s. unfold update_categories. destruct (f _); [|done]. cbn. by rewrite lookup_insert_ne.
Qed.
Lemma tags_kept f : hoare kept (zoom L_taxonomy (update_tags u f)) (λ _, kept) kept.
Proof using Hu.
apply taxonomy_kept. intros s. unfold update_tags. destruct (f _); [|done]. cbn. by rewrite lookup_insert_ne.
Qed.

Lemma hoare_then_ret {A} (m : M World ()) (a : A) : hoare kept m (λ _, kept) kept →
  hoare kept (m;; mret a) (λ _, kept) kept.
Proof using Type. intros Hm. eapply hoare_bind; [exact Hm|]. intros ?. by apply hoare_ret. Qed.

Lemma taxonomy_service_kept : let s := application_taxonomy in
  (∀ n c, hoare kept (tax_CreateCategory u n c) (λ _, kept) kept) ∧
  (∀ i n c, hoare kept (tax_UpdateCategory u i n c) (λ _, kept) kept) ∧
  (∀ i, hoare kept (tax_DeleteCategory u i) (λ _, kept) kept) ∧
  (∀ n c, hoare kept (tax_CreateTag u n c) (λ _, kept) kept) ∧
  (∀ i n c, hoare kept (tax_UpdateTag u i n c) (λ _, kept) kept) ∧
  (∀ i, hoare kept (tax_DeleteTag u i) (λ _, kept) kept).
Proof using Hu.
open_service; split_and!; intros; unfold CreateCategory_service, UpdateCategory_service, DeleteCategory_service,
  CreateTag_service, UpdateTag_service, DeleteTag_service.
all: repeat first [apply hoare_then_ret|apply hoare_map_err|case_match; [by apply hoare_throw|]|pass].
all: first [apply categories_kept|apply tags_kept].
Qed.
End Isolation.
