(* ===== verification/Tenants.v ===== *)
(** * Isolation of the accounts across the API

    The handlers over the services of Isolation: every route of the application
    leaves the data of an account alone unless the request carries one of its
    tokens, and so does any sequence of requests. *)

From S2P Require Export Prelude Domain World Auth Uploads Inbound Http Handlers Application HttpAccess Isolation.
#[local] Open Scope Z_scope.

Section Tenants.
Context `{GoRuntime} `{Crypto World} `{EventWriter World} (config : AuthConfig).
Context (assistant : option (AssistantService World)) (intake : option (ExpenseIntakeService World)).
Context (http_DetectContentType : string → string) (image_Decode : string → error + Image).
Context (jpeg_Encode : Image → Z → error + string) (grayscale : Image → Image).
Context (cookieSecure : bool) (BillPiggyVersion : string).

Abbreviation routes := (application config assistant intake http_DetectContentType image_Decode jpeg_Encode
  grayscale cookieSecure BillPiggyVersion).

(** What lies outside the program has no access to the stores: the cryptography, the
    connection to the client, and what answers and extracts through a model. *)
Record outsiders : Prop := {
  out_crypto : apart;
  out_writer event j : quiet (Fprintf_event event j);
  out_assistant s owner message : assistant = Some s → quiet (ast_AskStream owner message);
  out_receipt s owner data : intake = Some s → quiet (ink_ExtractFromReceipt owner data);
  out_sentence s owner text : intake = Some s → quiet (ink_ExtractFromSentence owner text);
  out_audio s owner data name type : intake = Some s → quiet (ink_ExtractFromAudio owner data name type)
}.
Context (Hout : outsiders).

Context (v : string).
Context (o : gmap string ExpenseRecord * gmap string BudgetRecord * gmap string ScheduledPayment *
      option (list ExpenseCategory) * option (list ExpenseTag)).
Abbreviation K := (kept v o).
Abbreviation safe m := (hoare K m (λ _, K) K).

Lemma safe_quiet {A} (m : M World A) : quiet m → safe m.
Proof using Type. apply hoare_quiet, kept_stable. Qed.

Lemma safe_bind {A B} (m : M World A) (k : A → M World B) : safe m → (∀ a, safe (k a)) → safe (m ≫= k).
Proof using Type. intros Hm Hk. by eapply hoare_bind. Qed.
Lemma safe_call {A} (m : M World A) : safe m → safe (call m).
Proof using Type. intros Hm. apply (hoare_call _ _ (λ _, K)). by eapply hoare_weaken; [exact Hm|..]. Qed.
Lemma safe_catch {A} (m : M World A) : safe m → safe (catch m).
Proof using Type. intros Hm. apply (hoare_catch _ _ (λ _, K)). by eapply hoare_weaken; [exact Hm|..]. Qed.
Lemma safe_ret {A} (a : A) : safe (mret a).
Proof using Type. by apply hoare_ret. Qed.

#[local] Hint Extern 0 (AuthService World) => exact (application_auth config) : typeclass_instances.
#[local] Existing Instances application_expenses application_budgets application_groups application_taxonomy
  application_payments application_analytics application_reports application_audit application_outbox_admin
  application_usage.

(** ** The pieces handlers are made of *)

Lemma quiet_sse event value : quiet (sse_Write event value).
Proof using Hout.
unfold sse_Write. destruct can_flush; cbn [negb]; quiet. apply (out_writer Hout).
Qed.

Lemma quiet_relay chunks : quiet (relay_chunks chunks).
Proof using Hout.
induction chunks as [|chunk chunks IH]; [by apply (lifted_ret drawn_on)|]. cbn [relay_chunks].
pose proof quiet_sse as Hsse. repeat first [apply Hsse|apply IH|lifted_step drawn_on].
Qed.

Lemma safe_ai r next : safe next → safe (requireAIEnabled r next).
Proof using Hout.
intros Hn. unfold requireAIEnabled. apply safe_bind; [|intros [e|user]; [apply safe_ret|]].
- apply safe_call, safe_quiet. pose proof (quiet_auth config (out_crypto Hout)) as Hq. cbv zeta in Hq. destruct_and! Hq. auto.
- by destruct (negb _); [apply safe_ret|].
Qed.

Lemma quiet_serve {A} key : quiet (serveObject (A:=A) key).
Proof using Type. unfold serveObject. quiet. Qed.

(** ** Every handler *)

(** A request of somebody else. *)
Definition foreign (r : Request) : Prop := request_owner r ≠ v.

(** One step into a handler. *)
Ltac handler_step :=
  first
    [ assumption
    | match goal with
      | |- hoare _ (decodeJSON _ _ _ _) _ _ => apply hoare_decode; intros ?
      | |- hoare _ (answer _ _ _) _ _ => apply hoare_answer
      | |- hoare _ (requireAIEnabled _ _) _ _ => apply safe_ai
      | |- hoare _ (call _) _ _ => apply safe_call
      | |- hoare _ (mret _) _ _ => apply safe_ret
      | |- hoare _ (_ ≫= _) _ _ => apply safe_bind; [|intros ?]
      | |- hoare _ (match ?x with _ => _ end) _ _ => destruct x
      | |- hoare _ (if ?x then _ else _) _ _ => destruct x
      | |- hoare _ (let _ := _ in _) _ _ => cbv zeta
      end
    | progress cbv beta ].
Ltac handler := repeat handler_step.

Lemma auth_handlers r : safe (login cookieSecure r) ∧ safe (refresh cookieSecure r) ∧ safe (logout cookieSecure r) ∧
  safe (acceptInvitation r) ∧ safe (requestPasswordReset r) ∧ safe (confirmPasswordReset r) ∧ safe (me r) ∧
  safe (invite r) ∧ safe (profile r) ∧ safe (updateProfile r) ∧ safe (updateNotificationPreferences r) ∧
  safe (changePassword r) ∧ safe (users_list r) ∧ safe (users_manage r) ∧ safe (users_delete r).
Proof using Hout.
pose proof (quiet_auth config (out_crypto Hout)) as Hq. cbv zeta in Hq. destruct_and! Hq.
split_and!; unfold login, refresh, logout, acceptInvitation, requestPasswordReset, confirmPasswordReset, me, invite,
  profile, updateProfile, updateNotificationPreferences, changePassword, users_list, users_manage, users_delete;
  handler; apply safe_quiet; match goal with Hm : _ |- _ => apply Hm end.
Qed.

Lemma group_handlers r : safe (groups_list r) ∧ safe (groups_create r) ∧ safe (groups_update r) ∧
  safe (groups_delete r) ∧ safe (groups_addMember r) ∧ safe (groups_removeMember r).
Proof using Type.
pose proof quiet_groups as Hq. cbv zeta in Hq. destruct_and! Hq.
split_and!; unfold groups_list, groups_create, groups_update, groups_delete, groups_addMember, groups_removeMember;
  handler; apply safe_quiet; match goal with Hm : _ |- _ => apply Hm end.
Qed.

Lemma expense_handlers r : foreign r → safe (expenses_list r) ∧ safe (expenses_create r) ∧ safe (expenses_get r) ∧
  safe (expenses_update r) ∧ safe (expenses_delete r).
Proof using Type.
intros Hf. pose proof quiet_expense_reads as Hq. cbv zeta in Hq. destruct_and! Hq.
split_and!; unfold expenses_list, expenses_create, expenses_get, expenses_update, expenses_delete; handler.
all: first [apply safe_quiet; match goal with Hm : _ |- _ => apply Hm end
  |apply (create_expense_kept v o _ Hf)|apply (update_expense_kept v o _ Hf)|apply (delete_expense_kept v o _ Hf)].
Qed.

Lemma budget_handlers r : foreign r → safe (budgets_list r) ∧ safe (budgets_create r) ∧ safe (budgets_get r) ∧
  safe (budgets_update r) ∧ safe (budgets_delete r).
Proof using Type.
intros Hf. pose proof quiet_budget_reads as Hq. cbv zeta in Hq. destruct_and! Hq.
split_and!; unfold budgets_list, budgets_create, budgets_get, budgets_update, budgets_delete; handler.
all: first [apply safe_quiet; match goal with Hm : _ |- _ => apply Hm end
  |by apply (create_budget_kept v o _ Hf)|by apply (update_budget_kept v o _ Hf)|by apply (delete_budget_kept v o _ Hf)].
Qed.

Lemma payment_handlers r : foreign r → safe (payments_list r) ∧ safe (payments_create r) ∧ safe (payments_get r) ∧
  safe (payments_update r) ∧ safe (payments_delete r).
Proof using Type.
intros Hf. pose proof quiet_payment_reads as Hq. cbv zeta in Hq. destruct_and! Hq.
split_and!; unfold payments_list, payments_create, payments_get, payments_update, payments_delete; handler.
all: first [apply safe_quiet; match goal with Hm : _ |- _ => apply Hm end
  |by apply (create_payment_kept v o _ Hf)|by apply (update_payment_kept v o _ Hf)|by apply (delete_payment_kept v o _ Hf)].
Qed.

Lemma taxonomy_handlers r : foreign r → safe (listCategories r) ∧ safe (createCategory r) ∧ safe (updateCategory r) ∧
  safe (deleteCategory r) ∧ safe (listTags r) ∧ safe (createTag r) ∧ safe (updateTag r) ∧ safe (deleteTag r).
Proof using Type.
intros Hf. pose proof (taxonomy_service_kept v o _ Hf) as Hq. cbv zeta in Hq. destruct_and! Hq.
split_and!; unfold listCategories, createCategory, updateCategory, deleteCategory, listTags, createTag, updateTag,
  deleteTag, with_taxonomy; handler.
all: first [apply safe_quiet; first [apply quiet_list_categories|apply quiet_list_tags]
  |match goal with Hm : _ |- _ => apply Hm end].
Qed.

Lemma analytics_handlers r : safe (listExpenses r) ∧ safe (listSuggestions r) ∧ safe (comparison r) ∧
  safe (categoryChanges r) ∧ safe (burnRate r) ∧ safe (dailyTotals r) ∧ safe (weekdayBreakdown r) ∧
  safe (topExpenses r) ∧ safe (budgetProgress r).
Proof using Type.
pose proof quiet_analytics as Hq. cbv zeta in Hq. destruct_and! Hq.
split_and!; unfold listExpenses, listSuggestions, comparison, categoryChanges, burnRate, dailyTotals,
  weekdayBreakdown, topExpenses, budgetProgress, with_range; handler;
  apply safe_quiet; match goal with Hm : _ |- _ => apply Hm end.
Qed.

Lemma report_handlers r : safe (reports_list r) ∧ safe (reports_download r).
Proof using Type.
pose proof quiet_reports as Hq. cbv zeta in Hq. destruct_and! Hq.
split; unfold reports_list, reports_download; handler;
  apply safe_quiet; first [apply quiet_serve|match goal with Hm : _ |- _ => apply Hm end].
Qed.

Lemma operator_handlers r : safe (audit_list r) ∧ safe (usage_summarize r) ∧ safe (outbox_list r) ∧
  safe (outbox_requeue r).
Proof using Type.
pose proof quiet_operators as Hq. cbv zeta in Hq. destruct_and! Hq.
split_and!; unfold audit_list, usage_summarize, outbox_list, outbox_requeue, optional_time, optional_count; handler;
  apply safe_quiet; match goal with Hm : _ |- _ => apply Hm end.
Qed.

Lemma assisted_handlers r : safe (chat assistant r) ∧ safe (scan intake http_DetectContentType r) ∧
  safe (intelligent intake r) ∧ safe (dictate intake r).
Proof using Hout.
split_and!.
- unfold chat. destruct assistant as [s|] eqn:Hs; [|handler; apply safe_quiet, quiet_sse].
  handler; try apply safe_quiet; try apply quiet_sse; try apply quiet_relay.
  + by apply (out_assistant Hout).
  + unfold writeAssistantError. apply (lifted_bind drawn_on); [|intros ?; apply (lifted_ret drawn_on)].
    destruct (ErrorIs _ _); apply quiet_sse.
- unfold scan, with_intake, with_upload. destruct intake as [s|] eqn:Hs; handler.
  apply safe_quiet. by apply (out_receipt Hout).
- unfold intelligent, with_intake. destruct intake as [s|] eqn:Hs; handler.
  apply safe_quiet. by apply (out_sentence Hout).
- unfold dictate, with_intake. destruct intake as [s|] eqn:Hs; handler.
  apply safe_quiet. by apply (out_audio Hout).
Qed.

Lemma upload_handlers r : foreign r →
  safe (uploads_downloadProfileImage r) ∧
  safe (uploads_profileImage (Some world_references) http_DetectContentType image_Decode jpeg_Encode grayscale r) ∧
  safe (uploads_downloadReceipt (Some world_groups) r) ∧
  safe (uploads_receipt (Some world_references) http_DetectContentType image_Decode jpeg_Encode grayscale r).
Proof using Hout config.
intros Hf. pose proof (quiet_auth config (out_crypto Hout)) as Hq. cbv zeta in Hq. destruct_and! Hq.
split_and!; unfold uploads_downloadProfileImage, uploads_profileImage, uploads_downloadReceipt, uploads_receipt,
  with_upload, Uploads.downloadProfileImage, Uploads.profileImage, Uploads.downloadReceipt, Uploads.receipt, store_receipt;
  repeat first [handler_step|apply safe_catch].
all: first [apply (attach_receipt_kept v o _ Hf)|apply safe_quiet].
all: first [apply quiet_id|apply quiet_serve|match goal with Hm : _ |- _ => apply Hm end
  |unfold GetExpenseForViewer, visibleGroupIDs; quiet].
Qed.

(** ** The routes *)

Definition permitted_only (guards : list Guard) : bool :=
  forallb (λ g, match g with Permitted _ => true | Authenticated => false end) guards.

Definition route_safe (route : Route World) : Prop :=
  match rt_Guards route with
  | [] => ∀ r, safe (rt_Handler route r)
  | Authenticated :: guards => permitted_only guards = true ∧ ∀ r, foreign r → safe (rt_Handler route r)
  | Permitted _ :: _ => False
  end.

(** The goal is one of the conjuncts. *)
Ltac by_handlers L := let Hh := fresh in pose proof L as Hh; destruct_and? Hh; assumption.
Ltac closed_route := split; [reflexivity|intros r Hf].

Lemma routes_safe : Forall route_safe routes.
Proof using Hout.
unfold application, api. rewrite !Forall_app.
split_and!; repeat (apply Forall_cons_2; [first [intros r|closed_route]|]); try apply Forall_nil_2.
all: cbn [on rt_Handler]; first [lazymatch goal with |- hoare _ (HandleGetVersion _ _) _ _ => apply safe_ret end
  |by_handlers (auth_handlers r)|by_handlers (group_handlers r)|by_handlers (analytics_handlers r)
  |by_handlers (report_handlers r)|by_handlers (operator_handlers r)|by_handlers (assisted_handlers r)
  |by_handlers (expense_handlers r Hf)|by_handlers (budget_handlers r Hf)|by_handlers (payment_handlers r Hf)
  |by_handlers (taxonomy_handlers r Hf)|by_handlers (upload_handlers r Hf)].
Qed.

Lemma guards_safe guards h r : permitted_only guards = true → safe (h r) → safe (foldr guard h guards r).
Proof using Type.
intros Hg Hh. induction guards as [|[|p] guards IH]; [done..|]. cbn [foldr]. unfold guard at 1, RequirePermission.
destruct (rq_Identity r); [|apply safe_ret]. destruct (negb _); [apply safe_ret|]. by apply IH.
Qed.

(** Whom a request's token authenticates in a state is not [v]. *)
Definition not_from (r : Request) (w : World) : Prop := ∀ token w' user,
  bearerToken (Header_Get r "Authorization") = Some token →
  AuthenticateAccessToken config token w = (w', inr user) → u_ID user ≠ v.

Lemma serve_kept route r w : route ∈ routes → not_from r w → K w → K (serve config route r w).1.
Proof using Hout.
intros Hin Hnot Hw. pose proof routes_safe as Hs. rewrite Forall_forall in Hs. specialize (Hs route Hin).
unfold route_safe in Hs. unfold serve.
destruct (rt_Guards route) as [|[|p] guards] eqn:Hg; [|destruct Hs as [Hg' Hs]|done].
{ unfold mount. rewrite Hg. specialize (Hs r w Hw). cbn. by destruct (rt_Handler route r w) as [w' [e|a]]. }
rewrite (authenticated_mount route guards r w Hg). destruct (bearerToken _) as [token|] eqn:Ht; [|done].
pose proof (safe_quiet _ (quiet_authenticate config (out_crypto Hout) token) w Hw) as Ha.
change (auth_AuthenticateAccessToken token w) with (AuthenticateAccessToken config token w).
destruct (AuthenticateAccessToken config token w) as [w' [e|user]] eqn:Hauth; [done|].
set (r' := r <| rq_Identity := Some (identity_of user) |>).
assert (foreign r') as Hf by exact (Hnot token w' user Ht Hauth).
pose proof (guards_safe guards (rt_Handler route) r' Hg' (Hs r' Hf) w' Ha) as Hr.
by destruct (foldr guard (rt_Handler route) guards r' w') as [w2 [e|a]].
Qed.
End Tenants.

(** ** Any sequence of requests *)

Section Requests.
Context `{GoRuntime} `{Crypto World} (config : AuthConfig).

(** Each request is served in the state the ones before it left. *)
Fixpoint serve_all (requests : list (Route World * Request)) (w : World) : World :=
  match requests with
  | [] => w
  | (route, r) :: requests => serve_all requests (serve config route r w).1
  end.

Fixpoint none_from (v : string) (requests : list (Route World * Request)) (w : World) : Prop :=
  match requests with
  | [] => True
  | (route, r) :: requests => not_from config v r w ∧ none_from v requests (serve config route r w).1
  end.
End Requests.

(** [C12] Isolation of the tenants.  Whatever requests reach the API, on whatever
    routes and with whatever bodies, the expenses, budgets, scheduled payments,
    categories and tags of an account are the same afterwards, unless one of the
    requests carried a token that authenticated that account. *)
Theorem tenants_isolated `{GoRuntime} `{Crypto World} `{EventWriter World} config assistant intake
    http_DetectContentType image_Decode jpeg_Encode grayscale cookieSecure BillPiggyVersion v requests w :
  outsiders assistant intake → store_ok w →
  (∀ route r, (route, r) ∈ requests → route ∈ application config assistant intake http_DetectContentType image_Decode
     jpeg_Encode grayscale cookieSecure BillPiggyVersion) →
  none_from config v requests w →
  data_of v (serve_all config requests w) = data_of v w ∧ store_ok (serve_all config requests w).
Proof.
intros Hout Hok Hin Hnone.
enough (∀ o w, kept v o w → none_from config v requests w → kept v o (serve_all config requests w)) as Hall.
{ exact (Hall (data_of v w) w (conj eq_refl Hok) Hnone). }
clear Hok Hnone w. induction requests as [|[route r] requests IH]; intros o w Hk Hnone; cbn [serve_all]; [done|].
destruct Hnone as [Hr Hnone]. apply IH; [intros rt' r' Hin'; apply (Hin rt' r'); by right| |done].
eapply serve_kept; [done|apply (Hin route r); by left|done|done].
Qed.

(** ** Example: bob and a stranger go for ann's budget *)

Module Sample.
Import Application.Sample World.Sample.

Lemma sample_ok : store_ok w.
Proof.
split_and!.
- intros id e He. by apply (lookup_empty_Some id e) in He.
- intros id b Hb. by apply (lookup_singleton_Some "b1" id annual b) in Hb as [<- <-].
- intros n m. apply sample_id_inj.
- intros n _. split; [|apply (lookup_empty (M:=gmap string))].
  apply (lookup_singleton_None "b1" _ annual). intros Heq. by destruct n.
Qed.

Lemma sample_outsiders : outsiders None None.
Proof. by split; [split|..]; intros; try (by intros ?). Qed.

Definition attempts : list (Route World * Request) :=
  [(route "DELETE" "/budgets/{budgetID}", as_ "bob" [("budgetID", "b1")] JNull);
   (route "PUT" "/budgets/{budgetID}", (as_ "" [("budgetID", "b1")] JNull) <| rq_Header := [] |>);
   (route "POST" "/expenses/", as_ "bob" [] (JObject [("title", JString "Tea")]))].

Lemma sample_routed : Forall (λ p, p.1 ∈ routes) attempts.
Proof. repeat (apply Forall_cons_2; [apply route_in; vm_compute; reflexivity|]). apply Forall_nil_2. Qed.

Definition other_account (v : string) (r : Request) (w : World) : bool :=
  match bearerToken (Header_Get r "Authorization") with
  | None => true
  | Some token =>
      match (AuthenticateAccessToken config token w).2 with inr user => negb (u_ID user =s v) | inl _ => true end
  end.
Lemma other_account_spec v r w : other_account v r w = true → not_from config v r w.
Proof.
unfold other_account. intros Ho token w' user Ht Ha. rewrite Ht, Ha in Ho. cbn in Ho.
apply negb_true_iff in Ho. by apply String.eqb_neq in Ho.
Qed.

Lemma tenants_isolated_witness :
  data_of "ann" (serve_all config attempts w) = data_of "ann" w ∧ store_ok (serve_all config attempts w).
Proof.
apply (tenants_isolated config None None (λ _, "") (λ _, inl (ErrorsNew "image")) (λ _ _, inl (ErrorsNew "image"))
  (λ i, i) false "default" "ann" attempts w sample_outsiders sample_ok).
- intros rt r Hin. pose proof sample_routed as Hall. rewrite Forall_forall in Hall. exact (Hall (rt, r) Hin).
- cbn [none_from attempts]. split_and!; [..|done]; apply other_account_spec; vm_compute; reflexivity.
Defined.
End Sample.
