(* ===== verification/Process.v ===== *)
(** * The projections of one process (startProjections in src/cmd/billpiggy/main.go)

    The three projections over the in-memory adapters, each polled by its own
    engine; the handler of a message runs in a unit of work over the same
    participants as the commands. *)

From S2P Require Export Prelude GoTime GoStrings Domain Outbox UnitOfWork EventStore EventOrder AnalyticsProjection Ports World Expenses ExpenseLog BudgetUsage AuditTrail Json Frames.
#[global] Open Scope Z_scope.

Inductive Projection := AnalyticsProjection | BudgetUsageProjection | AuditProjection.
#[export] Instance Projection_eq_dec : EqDecision Projection.
Proof. solve_decision. Defined.

Section Projections.
Context `{GoRuntime}.

#[export] Instance world_writer : AnalyticsWriter World := {|
  LoadContribution id := zoom L_analytics (LoadContribution id);
  SaveContribution c := zoom L_analytics (SaveContribution c);
  AddRollupDelta d := zoom L_analytics (AddRollupDelta d)
|}.

Definition projection_handler (p : Projection) : Handler World :=
  match p with
  | AnalyticsProjection => analytics_handler
  | BudgetUsageProjection => budget_usage_handler
  | AuditProjection => audit_handler
  end.
Definition projections : list (Handler World) :=
  map projection_handler [AnalyticsProjection; BudgetUsageProjection; AuditProjection].

(** Which projection a subscription's messages go to. *)
Definition apply_projection (subscription : string) (message : Message) : M World () :=
  match List.find (λ p, Name p =s subscription) projections with
  | Some p => Handle p message
  | None => mret ()
  end.

(** [WithUnitOfWork]: the handlers join the unit the commands use. *)
Definition world_within (m : M World ()) : M World () := Within background (λ _, m).

(** One poll of a projection's engine. *)
Definition poll (p : Projection) (policy : Policy) (workerID : string) : M World Result :=
  let handler := projection_handler p in
  EventStore.ProcessNext L_events Now (Some world_within) (Name handler) (AggregateTypes handler) policy workerID
    (apply_projection (Name handler)).

(** ** What happens in a process: commands of the expense service, events another
    service records, and the projections at work *)

Inductive Action :=
  | Command (c : ExpenseCommand)
  | Other (event : DomainEvent)
  | Subscribe (p : Projection)
  | Poll (p : Projection) (policy : Policy) (workerID : string)
  | RequeueLetter (outboxID : string).

(** A state with the messages its subscriptions have applied so far. *)
Definition act (a : Action) (wl : World * handled) : World * handled :=
  let '(w, log) := wl in
  match a with
  | Command c => ((run_expense c w).1, log)
  | Other event => ((zoom L_events (EventStore.Append event) w).1, log)
  | Subscribe p => ((zoom L_events (EventStore.EnsureSubscription (Name (projection_handler p))) w).1, log)
  | RequeueLetter id => ((zoom L_events (EventStore.RequeueDeadLetter id) w).1, log)
  | Poll p policy worker =>
      match poll p policy worker w with
      | (w', inr r) => (w', log_result (Name (projection_handler p)) r log)
      | (w', inl _) => (w', log)
      end
  end.
Definition act_all (actions : list Action) (w : World) : World * handled :=
  foldl (λ wl a, act a wl) (w, []) actions.

(** The projection has applied every event of the aggregate types it asks for. *)
Definition caught_up (p : Projection) (s : EventStore.EventStore) : bool :=
  let handler := projection_handler p in
  forallb (λ d, negb ((d_subscription d =s Name handler) &&
    matchesAggregateType (ev_AggregateType (se_event (d_event d))) (AggregateTypes handler)) ||
    is_status deliveryProcessed d) (es_deliveries s).
End Projections.

(** * One process: commands, events and projections

    The composition of the expense commands (ExpenseLog), the ordered delivery of
    the log (EventOrder) and the projections (Projections).  What each step leaves
    alone, the invariant of a process, and the scheme by which a read model is
    tied to the messages its projection has applied. *)

Arguments zoom : simpl never.

Section Frames.
Context `{GoRuntime}.

(** ** The handlers leave the log alone *)

(** Where identifiers and times come from. *)
Definition sources (w : World) := (w_ids w, w_clock w).
Definition logged (w : World) := (w_events w, w_expenses w, sources w).
(** What the projections write, and the budgets they read. *)
Definition views (w : World) :=
  (w_budgets w, w_analytics w, w_usage w, (as_entries (w_audit w), as_byEvent (w_audit w))).
Abbreviation spares_log := (lifted (keeping logged)).
Abbreviation spares_views := (lifted (keeping views)).
Ltac spares := repeat first [lifted_step (keeping logged)|solve [by intros ?]].

Lemma spares_within {A} (fn : Ctx → M World A) : spares_log (fn true) → spares_log (Within background fn).
Proof using Type.
intros Hfn w. cbn. unfold memory_Within, background, keeping. specialize (Hfn w). unfold keeping in Hfn.
destruct (fn true w) as [w1 [e|a]]; [|done]. unfold logged, sources in *. cbn in *. injection Hfn as -> _ -> ->.
by destruct (w_events w).
Qed.

Lemma views_within {A} (fn : Ctx → M World A) : spares_views (fn true) → spares_views (Within background fn).
Proof using Type.
intros Hfn w. cbn. unfold memory_Within, background. specialize (Hfn w). by destruct (fn true w) as [w1 [e|a]].
Qed.
(** A unit that fails leaves the read models as they were. *)
Lemma failed_views {A} (fn : Ctx → M World A) w e : (Within background fn w).2 = inl e →
  views (Within background fn w).1 = views w.
Proof using Type. cbn. unfold memory_Within, background. by destruct (fn true w) as [w1 [?|a]]. Qed.

(** What a handler leaves alone, its unit does. *)
Lemma within_spares {V} (view : World → V) (m : M World ()) : (∀ w w', views w' = views w → view w' = view w) →
  lifted (keeping view) m → ∀ w, view (world_within m w).1 = view w.
Proof using Type.
intros Hv Hm w. unfold world_within. pose proof (failed_views (λ _, m) w) as Hf. specialize (Hm w). unfold keeping in Hm.
revert Hf Hm. unfold Within, world_unit, memory_UnitOfWork, memory_Within, background.
destruct (m w) as [w' [e|a]]; cbn [fst snd]; intros Hf Hm; [exact (Hv _ _ (Hf e eq_refl))|exact Hm].
Qed.

Lemma command_views c : spares_views (run_expense c).
Proof using Type.
destruct c; unfold run_expense, CreateExpense_service, UpdateExpense_service, DeleteExpense_service, AttachReceipt,
  validateOwnership, append_expense_event, newExpenseEvent;
  repeat first [lifted_step (keeping views)|apply views_within|solve [by intros ?]].
Qed.

Lemma analytics_spares m : spares_log (Handle_analytics m).
Proof using Type. unfold Handle_analytics, adjust. spares. Qed.

Lemma budget_usage_spares m : spares_log (Handle_budget_usage m).
Proof using Type.
unfold Handle_budget_usage, handleExpense, handleBudget, affectedWindows, recompute, recompute_window, queueAlert.
spares. intros w. cbn. by case_match.
Qed.

Lemma audit_spares m : spares_log (Handle_audit m).
Proof using Type. unfold Handle_audit. spares. Qed.
Lemma projections_spare sub m : spares_log (apply_projection sub m).
Proof using Type.
unfold apply_projection. destruct (List.find _ _) as [p|] eqn:Hf; [|by intros w].
apply List.find_some in Hf as [[<-|[<-|[<-|[]]]] _]; cbn [projection_handler];
  unfold analytics_handler, budget_usage_handler, audit_handler; cbn [Handle].
- exact (analytics_spares m).
- exact (budget_usage_spares m).
- exact (audit_spares m).
Qed.

#[export] Instance L_events_laws : LensLaws L_events.
Proof. split; [reflexivity|by intros []|reflexivity]. Qed.
#[export] Instance projection_frame : HandlerFrame L_events Now (Some world_within) apply_projection.
Proof.
split; [by intros w; eexists _, _|]. intros sub m w.
pose proof (spares_within (λ _, apply_projection sub m) (projections_spare sub m) w) as Hk.
exact (f_equal (λ x, x.1.1) Hk).
Qed.
End Frames.

(** ** What a command does to the event store *)

Definition payload_expense (p : EventPayload) : option string :=
  match p with
  | ExpenseAdded e | ExpenseUpdated e => Some (ex_ID e)
  | ExpenseRemoved id _ _ => Some id
  | _ => None
  end.

(** An event as the expense service records it. *)
Record recorded (ev : DomainEvent) : Prop := {
  rec_type : ev_AggregateType ev = "expense";
  rec_event : ev_EventType ev = event_type_of (ev_Payload ev);
  rec_id : payload_expense (ev_Payload ev) = Some (ev_AggregateID ev);
  rec_new e : ev_Payload ev = ExpenseAdded e → ex_ID e ≠ ""
}.

Definition has_category (e : ExpenseRecord) : Prop := ex_CategoryID e ≠ "".
Definition categorized (p : EventPayload) : Prop :=
  match p with ExpenseAdded e | ExpenseUpdated e => has_category e | _ => True end.
Definition categorizes (c : ExpenseCommand) : Prop :=
  match c with CmdCreate _ command | CmdUpdate _ _ command => c_CategoryID command ≠ "" | _ => True end.
Definition all_categorized (s : ExpenseStore) : Prop := ∀ id e, s !! id = Some e → has_category e.

Section Commands.
Context `{GoRuntime}.
Context (s0 : EventStore.EventStore) (i0 : (nat → string) * (nat → Time)) (x0 : ExpenseStore).
Context (Hids : ∀ n, i0.1 n ≠ "").
(** Under this assumption, every recorded expense has a category. *)
Context (sorted : Prop).

Definition parts (w : World) := (w_events w, sources w).
Definition start (w : World) : Prop := parts w = (s0, i0) ∧ w_expenses w = x0.
(** One event more in the store; or none, with pointers used up by a unit that failed. *)
Definition appended (w : World) : Prop :=
  (∃ ev, recorded ev ∧ (sorted → categorized (ev_Payload ev)) ∧ EventStore.Append ev s0 = (w_events w, inr ())) ∧ sources w = i0.
Definition same_log (w : World) : Prop :=
  (∃ n, (es_next s0 ≤ n)%nat ∧ w_events w = s0 <| es_next := n |>) ∧ sources w = i0.

Abbreviation spares_parts := (lifted (keeping parts)).
Ltac spares := repeat first [lifted_step (keeping parts)|solve [by intros ?]].

Lemma start_same w : start w → same_log w.
Proof using Type.
unfold start, same_log. intros [[= -> ->] _]. split; [|done]. exists (es_next s0). by destruct s0.
Qed.

Lemma spares_start {A} (m : M World A) : lifted (keeping (λ w, (parts w, w_expenses w))) m →
  hoare start m (λ _, start) start.
Proof using Type.
intros Hm w [Hw Hx]. specialize (Hm w). unfold keeping in Hm.
pose proof (f_equal fst Hm) as Hp. pose proof (f_equal snd Hm) as Hx'. cbn [fst snd] in Hp, Hx'.
unfold start. by destruct (m w) as [w' [e|a]]; rewrite <- Hw, <- Hx.
Qed.
Lemma spares_appended {A} (m : M World A) : spares_parts m → hoare appended m (λ _, appended) appended.
Proof using Type.
intros Hm w Hw. specialize (Hm w). unfold keeping in Hm.
pose proof (f_equal fst Hm) as He. pose proof (f_equal snd Hm) as Hi.
cbn [parts fst snd] in He, Hi. unfold appended in *. by destruct (m w) as [w' [e|a]]; cbn [fst] in *; rewrite He, Hi.
Qed.

(** A unit that records an event and then writes elsewhere. *)
Lemma recording_unit {A} (record : M World ()) (k : M World A) :
  hoare start record (λ _, appended) start → spares_parts k →
  hoare start (Within background (λ _, record;; k)) (λ _, appended) same_log.
Proof using Type.
intros Hr Hk. apply (hoare_within_frame _ (λ w, start w ∨ appended w)).
- apply (hoare_bind _ _ _ (λ _, appended)).
  + eapply hoare_weaken; [exact Hr|auto..].
  + intros u. eapply hoare_weaken; [by apply spares_appended|auto..].
- intros saved w [[= He Hi] _] Hw. destruct Hw as [[[= He' Hi'] _]|((ev & _ & _ & Hap) & Hi')].
  + split; [|exact Hi']. exists (es_next s0). split; [done|]. cbn. rewrite He, He'. by destruct s0.
  + split; [|exact Hi']. exists (es_next (w_events w)).
    unfold EventStore.Append in Hap. destruct (Marshal _); [done|]. injection Hap as Hap.
    assert (∀ subs b st s, es_subscriptions (foldl (queue_delivery b st) s subs) = es_subscriptions s ∧
      (es_next s ≤ es_next (foldl (queue_delivery b st) s subs))%nat) as Hq.
    { induction subs as [|x xs IH]; intros b st s; [done|]. cbn. destruct (IH b st (queue_delivery b st s x)) as [-> Hn].
      split; [done|]. cbn in Hn. lia. }
    match type of Hap with foldl (queue_delivery ?b ?st) ?s ?subs = _ => destruct (Hq subs b st s) as [Hs Hn] end.
    rewrite Hap in Hs, Hn. split; [exact Hn|]. cbn in Hs. cbn. rewrite He. destruct (w_events w), s0. cbn in Hs. by subst.
Qed.

Lemma record_event id actor p t : payload_expense p = Some id → (∀ e, p = ExpenseAdded e → ex_ID e ≠ "") →
  (sorted → categorized p) →
  hoare start (append_expense_event (event_type_of p) id actor p t) (λ _, appended) start.
Proof using Type.
intros Hid Hnew Hcat w [[= He Hi] Hx]. unfold append_expense_event, newExpenseEvent, mbind, M_bind. cbn. unfold zoom. cbn.
rewrite He. set (ev := mkDomainEvent _ _ _ _ _ _ _).
destruct (EventStore.Append ev s0) as [s [e|[]]] eqn:Hap.
- unfold start, parts. cbn. unfold EventStore.Append in Hap. destruct (Marshal _); [|done]. injection Hap as <- _.
  by rewrite <- Hi.
- split; [|done]. exists ev. split; [by split|done].
Qed.

Lemma new_named : hoare start NewString (λ id w, id ≠ "" ∧ start w) start.
Proof using Hids. 
intros w [[= He Hi] Hx]. cbn. split; [|by split; [unfold parts; cbn; rewrite He, <- Hi|]].
assert (w_ids w = i0.1) as -> by (by rewrite <- Hi). apply Hids.
Qed.

Lemma get_start o id : hoare start (GetExpense o id) (λ e w, expense_get o id x0 = Some e ∧ start w) start.
Proof using Type.
intros w [Hw Hx]. cbn. unfold zoom, memory_GetExpense. cbn. rewrite Hx.
destruct (expense_get o id x0); unfold start, parts, sources in *; cbn; by rewrite ?Hx.
Qed.

(** Up to the unit a command only reads, and after it it only returns. *)
Lemma read_first {A B} (m : M World A) (k : A → M World B) Q : lifted (keeping (λ w, (parts w, w_expenses w))) m →
  (∀ a, hoare start (k a) Q same_log) → hoare start (m ≫= k) Q same_log.
Proof using Type.
intros Hm Hk. apply (hoare_bind _ _ _ (λ _, start)); [|exact Hk].
eapply hoare_weaken; [by apply spares_start|auto|auto|apply start_same].
Qed.
Lemma then_return {A B} (m : M World A) (b : A → B) : hoare start m (λ _, appended) same_log →
  hoare start (m ≫= λ a, mret (b a)) (λ _, appended) same_log.
Proof using Type. intros Hm. apply (hoare_bind _ _ _ (λ _, appended)); [exact Hm|]. intros a. by apply hoare_ret. Qed.
Ltac reads :=
  apply read_first; [repeat first [lifted_step (keeping (λ w, (parts w, w_expenses w)))|solve [by intros ?]]|intros ?].
Lemma get_first {B} o id (k : ExpenseRecord → M World B) Q :
  (∀ e, expense_get o id x0 = Some e → hoare start (k e) Q same_log) →
  hoare start (map_err (λ _, ErrNotFound) (GetExpense o id) ≫= k) Q same_log.
Proof using Type.
intros Hk. apply (hoare_bind _ _ _ (λ e w, expense_get o id x0 = Some e ∧ start w)).
- apply hoare_map_err. eapply hoare_weaken; [apply get_start|auto|auto|apply start_same].
- intros e. apply hoare_pure, Hk.
Qed.
Ltac stops := intros w Hw; by apply start_same.

Lemma edit_category command now e : ex_CategoryID (edit_expense command now e) = c_CategoryID command.
Proof using Type. unfold edit_expense, default_status. by case_match. Qed.

Lemma command_records c : (sorted → categorizes c ∧ all_categorized x0) →
  hoare start (run_expense c) (λ _, appended) same_log.
Proof using Hids.
intros Hsort.
destruct c; unfold run_expense, CreateExpense_service, UpdateExpense_service, DeleteExpense_service, AttachReceipt,
  validateOwnership; try apply then_return.
- reads. apply (hoare_bind _ _ _ (λ id w, id ≠ "" ∧ start w)).
  { eapply hoare_weaken; [apply new_named|auto|auto|apply start_same]. }
  intros id. apply hoare_pure. intros Hid. reads. reads. apply then_return, recording_unit; [|spares].
  apply hoare_map_err, (record_event _ _ (ExpenseAdded _)); [done|..].
  + intros e [= <-]. unfold default_status. by case_match.
  + intros Hs. destruct (Hsort Hs) as [Hc _]. cbn. unfold default_status, has_category. by case_match.
- apply get_first. intros e He. reads. reads. reads. apply then_return, recording_unit; [|spares].
  apply hoare_map_err, (record_event _ _ (ExpenseUpdated _)); [done..|].
  intros Hs. destruct (Hsort Hs) as [Hc _]. cbn. unfold has_category. by rewrite edit_category.
- apply get_first. intros e He. reads. apply recording_unit; [|spares]. by apply hoare_map_err, (record_event _ _ (ExpenseRemoved _ _ _)).
- apply get_first. intros e (He & _)%expense_get_spec. case_match; [stops|]. reads.
  apply then_return, recording_unit; [|spares]. apply (record_event _ _ (ExpenseUpdated _)); [done..|].
  intros Hs. destruct (Hsort Hs) as [_ Hx]. exact (Hx _ _ He).
Qed.
End Commands.

(** ** What one poll does *)

Section Poll.
Context `{GoRuntime}.

(** The parts of the state that no poll changes. *)
Definition still (w : World) :=
  (es_events (w_events w), es_subscriptions (w_events w), w_expenses w, sources w).

Lemma finish_still policy c m outcome w w' r :
  EventStore.finish L_events Now policy c m outcome w = (w', r) → still w' = still w ∧ views w' = views w.
Proof using Type.
intros Hf. assert (lifted (keeping (λ w, (still w, views w))) (EventStore.finish L_events Now policy c m outcome)) as Hk.
{ unfold EventStore.finish. repeat first [lifted_step (keeping (λ w, (still w, views w)))|solve [by intros ?]]. }
specialize (Hk w). unfold keeping in Hk. rewrite Hf in Hk.
split; [exact (f_equal fst Hk)|exact (f_equal snd Hk)].
Qed.

(** A poll: idle, or one claimed message handled in a unit and marked. *)
Definition mark_done (now : Time) (d : delivery) : delivery :=
  (lock now d) <| d_status := deliveryProcessed |> <| d_lockedAt := 0 |> <| d_lastError := "" |>.

Lemma poll_run p policy worker w :
  let name := Name (projection_handler p) in let types := AggregateTypes (projection_handler p) in
  let now := w_clock w (w_ticks w) in let w1 := w <| w_ticks ::= S |> in
  ∃ w' r, poll p policy worker w = (w', inr r) ∧
  (((EventStore.claim now name types policy (w_events w)).2 = inr None ∧ res_Status r = Idle ∧
    w' = lens_set L_events (w_events w) w1) ∨
   ∃ c, c ∈ es_deliveries (w_events w) ∧ d_subscription c = name ∧ d_status c = deliveryPending ∧
     matchesAggregateType (ev_AggregateType (se_event (d_event c))) types = true ∧
     res_Message r = messageLocked (lock now c) ∧
     let w2 := lens_set L_events ((w_events w) <| es_deliveries ::= update_ptr (d_ptr c) (lock now) |>) w1 in
     let run := world_within (Handle (projection_handler p) (res_Message r)) w2 in
     still w' = still w ∧ views w' = views run.1 ∧
     match run.2 with
     | inl _ => res_Status r ≠ Processed ∧ ∃ f, es_deliveries (w_events w') = update_ptr (d_ptr c) f (es_deliveries (w_events w))
         ∧ ∀ d, d_subscription (f d) = d_subscription d
     | inr _ => res_Status r = Processed ∧
         es_deliveries (w_events w') = update_ptr (d_ptr c) (mark_done now) (es_deliveries (w_events w))
     end).
Proof using Type.
cbv zeta. unfold poll, EventStore.ProcessNext. set (name := Name (projection_handler p)).
set (types := AggregateTypes (projection_handler p)).
unfold mbind at 1, M_bind. cbn [Now world_Env]. set (now := w_clock w (w_ticks w)). set (w1 := w <| w_ticks ::= S |>).
unfold mbind at 1, zoom at 1. change (lens_get L_events w1) with (w_events w).
pose proof (claim_spec now name types policy (w_events w)) as Hclaim.
destruct (EventStore.claim _ _ _ _ _) as [s1 [e|[[c' m]|]]]; [done| |].
2: { subst s1. eexists _, _. split; [reflexivity|]. by left. }
destruct Hclaim as (c & Hc & Hsub & Hpend & _ & Hty & -> & -> & ->).
set (w2 := lens_set L_events _ w1). set (m := messageLocked (lock now c)).
unfold mbind at 1, catch at 1.
assert (apply_projection name m = Handle (projection_handler p) m) as -> by (unfold name; by destruct p).
assert (lifted (keeping logged) (Handle (projection_handler p) m)) as Hk by
  (destruct p; [exact (analytics_spares m)|exact (budget_usage_spares m)|exact (audit_spares m)]).
pose proof (spares_within (λ _, Handle (projection_handler p) m) Hk w2) as Hs.
change (logged (world_within (Handle (projection_handler p) m) w2).1 = logged w2) in Hs.
destruct (world_within (Handle (projection_handler p) m) w2) as [w3 outcome] eqn:Hrun. cbn [fst] in Hs.
destruct (finish_spec L_events Now (Some world_within) apply_projection policy (lock now c) m outcome w3)
  as (w4 & status & err & Hfin & Hout).
destruct (finish_still _ _ _ _ _ _ _ Hfin) as [Hs4 Ha4].
eexists _, _. split; [exact Hfin|]. right. exists c.
split; [exact Hc|]. split; [exact Hsub|]. split; [exact Hpend|]. split; [exact Hty|]. split; [reflexivity|].
cbn [res_Status res_Message].
fold m. fold w2. rewrite Hrun. cbn [fst snd].
split; [rewrite Hs4; exact (f_equal (λ l, (es_events l.1.1, es_subscriptions l.1.1, l.1.2, l.2)) Hs)|].
split; [exact Ha4|]. cbv zeta in Hout.
assert (lens_get L_events w3 = (w_events w) <| es_deliveries ::= update_ptr (d_ptr c) (lock now) |>) as Hw3
  by exact (f_equal (λ l, l.1.1) Hs).
rewrite Hw3 in Hout. change (lens_get L_events w4) with (w_events w4) in Hout. destruct outcome as [e|[]].
- destruct Hout as (t & [[-> ->]|[-> (t' & ->)]]); (split; [done|]); unfold complete_dead, complete_retry; cbn;
    rewrite !update_update by (by intros []); eexists; (split; [reflexivity|]); by intros [].
- destruct Hout as [-> ->]. split; [done|]. unfold complete_ok. cbn. by rewrite update_update.
Qed.

(** Nothing changes but the queue and, when the poll reports a message as processed,
    the read model of the projection as its handler left it. *)
Lemma poll_effect p policy worker w : ∃ w' r, poll p policy worker w = (w', inr r) ∧ still w' = still w ∧
  if decide (res_Status r = Processed)
  then ∃ c now w2, c ∈ es_deliveries (w_events w) ∧ res_Message r = messageLocked (lock now c) ∧
    matchesAggregateType (ev_AggregateType (se_event (d_event c))) (AggregateTypes (projection_handler p)) = true ∧
    let run := world_within (Handle (projection_handler p) (res_Message r)) w2 in
    views w2 = views w ∧ run.2 = inr () ∧ views w' = views run.1
  else views w' = views w.
Proof using Type.
destruct (poll_run p policy worker w) as (w' & r & Hrun & [(_ & Hr & ->)|(c & Hc & _ & _ & Hty & Hm & Hw)]);
  [exists (lens_set L_events (w_events w) (w <| w_ticks ::= S |>)), r; split; [exact Hrun|]; split; [done|]|].
{ by rewrite Hr, decide_False. }
cbv zeta in Hw. destruct Hw as (Hs & Hv & Hout). exists w', r. split; [exact Hrun|]. split; [exact Hs|].
set (w2 := lens_set L_events _ _) in *.
destruct ((world_within (Handle (projection_handler p) (res_Message r)) w2).2) as [e|[]] eqn:Hrun2.
- destruct Hout as [Hn _]. rewrite decide_False by done. rewrite Hv. exact (failed_views _ _ _ Hrun2).
- destruct Hout as [-> _]. rewrite decide_True by done. exists c, (w_clock w (w_ticks w)), w2. by split_and!.
Qed.
End Poll.

(** ** The invariant of a process *)

(** A message carries a stored event. *)
Definition carries (m : Message) (e : storedEvent) : Prop :=
  GlobalSeq m = se_globalSeq e ∧ EventType m = ev_EventType (se_event e) ∧ Payload m = se_payload e ∧
  AggregateType m = ev_AggregateType (se_event e) ∧ AggregateID m = ev_AggregateID (se_event e) ∧
  EventID m = ev_ID (se_event e) ∧ AggregateVersion m = se_version e ∧ Metadata m = se_metadata e ∧
  OccurredAt m = FromUnixMilli (ev_OccurredAt (se_event e)).

(** The expenses of an event passed the service's validation. *)
Definition valid_payload (p : EventPayload) : Prop :=
  match p with ExpenseAdded e | ExpenseUpdated e => validateExpense e = None | _ => True end.

(** A stored event is one the expense service recorded, as it recorded it, or about
    something else. *)
Definition expense_event (e : storedEvent) : Prop :=
  recorded (se_event e) ∧ se_payload e = enc_payload (ev_Payload (se_event e)) ∧
  payload_well_formed (ev_Payload (se_event e)) ∧ valid_payload (ev_Payload (se_event e)).
Definition elsewhere (ev : DomainEvent) : Prop :=
  ev_AggregateType ev ≠ "expense" ∧ payload_expense (ev_Payload ev) = None.
Definition faithful (e : storedEvent) : Prop := expense_event e ∨ elsewhere (se_event e).

(** What a subscription has applied. *)
Definition applied_by (subscription : string) (log : handled) : list Message :=
  map snd (List.filter (λ x, x.1 =s subscription) log).

Section Invariant.
Context `{GoRuntime}.
Record Process (b : Z) (w : World) (log : handled) : Prop := {
  pr_store : Inv b (w_events w) log;
  pr_sorted : StronglySorted Z.lt (map se_globalSeq (es_events (w_events w)));
  pr_events e : e ∈ es_events (w_events w) → faithful e;
  pr_metadata e : e ∈ es_events (w_events w) → actorFromMetadata (se_metadata e) = ev_ActorID (se_event e);
  pr_log x : x ∈ log → ∃ e, e ∈ es_events (w_events w) ∧ carries x.2 e;
  pr_types x : x ∈ log → ∃ p, x.1 = Name (projection_handler p) ∧
    matchesAggregateType (AggregateType x.2) (AggregateTypes (projection_handler p)) = true;
  pr_expenses : log_consistent w;
  pr_named id e : w_expenses w !! id = Some e → id ≠ "";
  pr_ids n : (sources w).1 n ≠ ""
}.
End Invariant.

Section Process.
Context `{GoRuntime}.

Lemma valid_fits e : validateExpense e = None → fits e.
Proof using Type.
unfold validateExpense, fits, is_int64, min_int64, max_int64, maxAmountMinor. intros Hv.
destruct (existsb invalid_item (ex_Items e)) eqn:Hi; [by repeat case_match|].
split.
- destruct (ex_AmountMinor e <? 0) eqn:H1; [by rewrite !orb_true_r in Hv|].
  destruct (100000000000 <? ex_AmountMinor e) eqn:H2; [by repeat case_match|]. lia.
- apply Forall_forall. intros i Hin. apply list_elem_of_In in Hin.
  assert (invalid_item i = false) as Hii.
  { apply not_true_is_false. intros Ht. apply not_true_iff_false in Hi. apply Hi, existsb_exists. eauto. }
  unfold invalid_item, maxAmountMinor in Hii. lia.
Qed.

Lemma allowed_named o s ev : recorded ev → allowed o s (ev_Payload ev) → (∀ id e, s !! id = Some e → id ≠ "") →
  payload_well_formed (ev_Payload ev) ∧ ∀ id e, replay_payload s (ev_Payload ev) !! id = Some e → id ≠ "".
Proof using Type.
intros Hrec Hall Hs. pose proof (rec_new ev Hrec) as Hnew.
assert (∀ id, is_Some (expense_get o id s) → id ≠ "") as Hget.
{ intros id (e & (He & _)%expense_get_spec). by eapply Hs. }
destruct (ev_Payload ev) as [e|e|id ow t| | | | | | |]; try done; cbn; unfold ExpenseStore in *.
- destruct Hall as (Hv%valid_fits & _). pose proof (Hnew e eq_refl). split; [done|].
  intros id e'. rewrite lookup_insert_Some. intros [[<- _]|[_ He]]; [done|by eapply Hs].
- destruct Hall as (Hv%valid_fits & _ & Hg%Hget). split; [done|].
  intros id e'. rewrite lookup_insert_Some. intros [[<- _]|[_ He]]; [done|by eapply Hs].
- destruct Hall as (_ & Hg%Hget). split; [done|].
  intros i e'. rewrite lookup_alter_Some. intros [[<- _]|[_ He]]; [done|by eapply Hs].
Qed.

Lemma Inv_next b s log n : Inv b s log → (es_next s ≤ n)%nat → Inv b (s <| es_next := n |>) log.
Proof using Type.
intros ([H1 H2 H3 H4 H5 H6 H7 H8] & Hq & Ho) Hn. split; [|by split].
split; try assumption. intros d Hd. specialize (H5 d Hd). cbn. lia.
Qed.

(** What a successful append adds. *)
Lemma Append_event ev s s' b : Structure b s → b < max_int64 → EventStore.Append ev s = (s', inr ()) →
  ∃ stored, es_events s' = es_events s ++ [stored] ∧ se_event stored = ev ∧
    se_payload stored = enc_payload (ev_Payload ev) ∧ actorFromMetadata (se_metadata stored) = ev_ActorID ev ∧
    es_sequence s < se_globalSeq stored.
Proof using Type.
intros Hs Hb. unfold EventStore.Append. destruct (Marshal _) as [e|j] eqn:Hm; [done|]. apply Marshal_ok in Hm as ->.
intros [= <-]. pose proof (seq_bound _ _ Hs) as Hseq. rewrite wrap64_id by (unfold is_int64, min_int64; lia).
set (stored := mkStoredEvent _ _ _ _ _). exists stored. split_and!; [|done|done|done|cbn; lia].
assert (∀ subs b st s, es_events (foldl (queue_delivery b st) s subs) = es_events s) as Hq.
{ induction subs as [|x xs IH]; intros; [done|]. cbn. by rewrite IH. }
by rewrite Hq.
Qed.

(** A recorded event more. *)
Lemma Process_append b ev w w' log : Process b w log → b < max_int64 →
  EventStore.Append ev (w_events w) = (w_events w', inr ()) → sources w' = sources w →
  (∀ e, se_event e = ev → se_payload e = enc_payload (ev_Payload ev) → faithful e) →
  log_consistent w' → (∀ id e, w_expenses w' !! id = Some e → id ≠ "") → Process (b + 1) w' log.
Proof using Type.
intros [Hinv Hsort Hev Hmeta Hlog Htypes _ _ Hids] Hb Hap Hi Hfaith Hcon Hnamed.
destruct (Append_event _ _ _ _ (proj1 Hinv) Hb Hap) as (st & Hst & Hse & Hpay & Hact & Hlt).
assert (w_events w' = (EventStore.Append ev (w_events w)).1) as Hfst by (by rewrite Hap).
split; rewrite ?Hi; try done.
- rewrite Hfst. by apply Inv_Append.
- rewrite Hst, map_app. apply StronglySorted_snoc; [done|].
  intros g (e & -> & He)%list_elem_of_fmap. pose proof (events_range _ _ (proj1 Hinv) e He). lia.
- intros e. rewrite Hst. intros [He| ->%list_elem_of_singleton]%elem_of_app; [by apply Hev|by apply Hfaith].
- intros e. rewrite Hst. intros [He| ->%list_elem_of_singleton]%elem_of_app; [by apply Hmeta|by rewrite Hse].
- intros x Hx. destruct (Hlog x Hx) as (e & He & Hca). exists e. split; [|done]. rewrite Hst. apply elem_of_app. by left.
Qed.

Lemma Process_weaken b b' w log : Process b w log → b ≤ b' → Process b' w log.
Proof using Type. intros [Hinv] Hb. split; try done. by apply (Inv_weaken b). Qed.

Lemma allowed_valid o s p : allowed o s p → valid_payload p.
Proof using Type. destruct p; try done; by intros [? _]. Qed.

Lemma Process_command b c w log : Process b w log → b < max_int64 → Process (b + 1) (run_expense c w).1 log.
Proof using Type.
intros Hp Hb. pose proof Hp as [Hinv _ _ _ _ _ [Hwf Hrep] Hnamed Hids].
pose proof (command_records (w_events w) (sources w) (w_expenses w) Hids False c ltac:(done) w (conj eq_refl eq_refl)) as Hr.
pose proof (command_hoare c _ _ Hwf w (conj eq_refl eq_refl)) as Hc.
pose proof (command_consistent c w (conj Hwf Hrep)) as Hcon.
destruct (run_expense c w) as [w' [e|a]]; cbn [fst] in *.
- destruct Hr as ((n & Hn & Hs) & Hi), Hc as [Hex _]. apply (Process_weaken b); [|lia].
  destruct Hp. split; rewrite ?Hs, ?Hi, ?Hex; try done. by apply Inv_next.
- destruct Hr as ((ev & Hrec & _ & Hap) & Hi), Hc as (ev' & Hall & Hex & Hevs).
  pose proof (append_events _ _ _ Hap) as Hevs'. rewrite Hevs' in Hevs. apply app_inj_tail in Hevs as [_ <-].
  destruct (allowed_named _ _ ev Hrec Hall Hnamed) as [Hwfp Hnamed'].
  apply (Process_append b ev w); try done; [|by rewrite Hex].
  intros st Hse Hpay. left. unfold expense_event. rewrite Hse, Hpay. split_and!; try done. by eapply allowed_valid.
Qed.

Lemma applied_by_result name sub r log :
  applied_by name (log_result sub r log) = applied_by name log ++
    (if decide (res_Status r = Processed) then if sub =s name then [res_Message r] else [] else []).
Proof using Type.
unfold log_result. destruct (decide _); [|by rewrite app_nil_r]. unfold applied_by.
rewrite List.filter_app, map_app. cbn [List.filter fst]. by destruct (_ =s _).
Qed.

(** Changes of the queue alone. *)
Lemma Process_queue b w log s : Process b w log → Inv b s log → es_events s = es_events (w_events w) →
  Process b (w <| w_events := s |>) log.
Proof using Type.
intros [Hinv Hsort Hev Hmeta Hlog Htypes [Hwf Hrep] Hnamed Hids] Hs He. split; cbn; rewrite ?He; try done.
split; [done|]. unfold Events. cbn. by rewrite He.
Qed.

Lemma carried now c : carries (messageLocked (lock now c)) (d_event c).
Proof using Type. by split_and!. Qed.

Lemma Process_poll b p policy worker w log : Process b w log →
  ∃ w' r, poll p policy worker w = (w', inr r) ∧ Process b w' (log_result (Name (projection_handler p)) r log).
Proof using Type.
intros [Hinv Hsort Hev Hmeta Hlog Htypes [Hwf Hrep] Hnamed Hids].
destruct (ProcessNext_Inv L_events Now (Some world_within) apply_projection b (Name (projection_handler p))
  (AggregateTypes (projection_handler p)) policy worker w log Hinv) as (w' & r & Hrun & Hinv').
destruct (poll_effect p policy worker w) as (w2 & r2 & Hrun2 & Hstill & Heff).
assert ((w2, inr (A:=error) r2) = (w', inr r)) as [= -> ->] by (by rewrite <- Hrun, <- Hrun2).
exists w', r. split; [exact Hrun|]. pose proof (f_equal snd Hstill) as Hi. injection Hstill as He Hsu Hex _ _.
cbn [still snd] in Hi.
split; rewrite ?He, ?Hi, ?Hex; try done.
- intros x Hx. unfold log_result in Hx. destruct (decide _) as [Hst|]; [|by apply Hlog].
  apply elem_of_app in Hx as [Hx| ->%list_elem_of_singleton]; [by apply Hlog|].
  destruct Heff as (c & now & _ & Hc & -> & _). exists (d_event c). split; [|by apply carried].
  by apply (delivery_recorded _ _ (proj1 Hinv)).
- intros x Hx. unfold log_result in Hx. destruct (decide _) as [Hst|]; [|by apply Htypes].
  apply elem_of_app in Hx as [Hx| ->%list_elem_of_singleton]; [by apply Htypes|].
  destruct Heff as (c & now & _ & _ & -> & Hty & _). by exists p.
- split; unfold Events; by rewrite ?Hex, ?He.
Qed.

(** Another service's event. *)
Lemma replay_elsewhere s p : payload_expense p = None → replay_payload s p = s.
Proof using Type. by destruct p. Qed.

Lemma Process_other b ev w log : Process b w log → elsewhere ev → b < max_int64 →
  Process (b + 1) (zoom L_events (EventStore.Append ev) w).1 log.
Proof using Type.
intros Hp He Hb. unfold zoom. cbn [lens_get L_events].
destruct (EventStore.Append ev (w_events w)) as [s r] eqn:Hap. cbn [fst lens_set L_events]. destruct r as [e|[]].
- apply (Process_weaken b); [|lia]. unfold EventStore.Append in Hap. destruct (Marshal _); [|done]. injection Hap as <- _.
  by apply Process_queue; [|apply Hp|].
- apply (Process_append b ev w); try done.
  + intros st Hse _. right. by rewrite Hse.
  + destruct (pr_expenses _ _ _ Hp) as [Hwf Hrep]. split; [done|]. cbn [w_expenses].
    change (w_expenses w = replay (Events s)). rewrite (append_events _ _ _ Hap), replay_app, replay_elsewhere by apply He. done.
  + exact (pr_named _ _ _ Hp).
Qed.

Lemma ensured_events name l s : es_events (foldl (λ s stored, queue_delivery true stored s name) s l) = es_events s.
Proof using Type. revert s. induction l as [|x l IH]; intros; [done|]. cbn. by rewrite IH. Qed.

(** What the actions other than commands and polls are taken to be. *)
Definition proper (a : Action) : Prop := match a with Other ev => elsewhere ev | _ => True end.

Lemma Process_act b a wl : Process b wl.1 wl.2 → proper a → b < max_int64 → Process (b + 1) (act a wl).1 (act a wl).2.
Proof using Type.
destruct wl as [w log]. cbn [fst snd]. intros Hp Hpr Hb.
assert (∀ w' log', Process b w' log' → Process (b + 1) w' log') as Hweak by (intros; apply (Process_weaken b); [done|lia]).
destruct a as [c|ev|p|p policy worker|id]; cbn [act].
- by apply Process_command.
- by apply Process_other.
- apply Hweak. unfold zoom. cbn [lens_get L_events].
  destruct (EventStore.EnsureSubscription _ _) as [s r] eqn:Hs. apply Process_queue; [done|..].
  + replace s with (EventStore.EnsureSubscription (Name (projection_handler p)) (w_events w)).1 by (by rewrite Hs).
    apply Inv_Ensure, Hp.
  + unfold EventStore.EnsureSubscription in Hs. destruct (_ !! _); injection Hs as <- _; [done|].
    by rewrite ensured_events.
- destruct (Process_poll b p policy worker w log Hp) as (w' & r & -> & Hp'). by apply Hweak.
- apply Hweak. unfold zoom. cbn [lens_get L_events].
  destruct (EventStore.RequeueDeadLetter id (w_events w)) as [s r] eqn:Hs. apply Process_queue; [done|..].
  + replace s with (EventStore.RequeueDeadLetter id (w_events w)).1 by (by rewrite Hs). apply Inv_Requeue, Hp.
  + unfold EventStore.RequeueDeadLetter in Hs. by destruct (List.find _ _); injection Hs as <- _.
Qed.

(** Where the events of the log come from. *)
Lemma act_events b a wl e : Process b wl.1 wl.2 → b < max_int64 → e ∈ es_events (w_events (act a wl).1) →
  e ∈ es_events (w_events wl.1) ∨ match a with
    | Command c => recorded (se_event e) ∧ (categorizes c ∧ all_categorized (w_expenses wl.1) → categorized (ev_Payload (se_event e))) ∧
        allowed (actor c) (w_expenses wl.1) (ev_Payload (se_event e))
    | Other ev => se_event e = ev
    | _ => False
    end.
Proof using Type.
destruct wl as [w log]. cbn [fst snd]. intros Hp Hb. destruct a as [c|ev|q|q policy worker|id]; cbn [act].
- destruct Hp as [Hinv _ _ _ _ _ [Hwf _] _ Hids].
  pose proof (command_records (w_events w) (sources w) (w_expenses w) Hids (categorizes c ∧ all_categorized (w_expenses w))
    c ltac:(done) w (conj eq_refl eq_refl)) as Hr.
  pose proof (command_hoare c _ _ Hwf w (conj eq_refl eq_refl)) as Hh.
  destruct (run_expense c w) as [w' [x|x]]; cbn [fst] in *.
  + destruct Hr as ((n & Hn & ->) & Hi). by left.
  + destruct Hr as ((ev & Hrec & Hcev & Hap) & Hi), Hh as (ev' & Hall & _ & Hevs).
    pose proof (append_events _ _ _ Hap) as Hevs'. rewrite Hevs' in Hevs. apply app_inj_tail in Hevs as [_ <-].
    destruct (Append_event _ _ _ _ (proj1 Hinv) Hb Hap) as (st & -> & Hse & _).
    intros [He| ->%list_elem_of_singleton]%elem_of_app; [by left|]. right. by rewrite Hse.
- unfold zoom. cbn [lens_get L_events]. destruct (EventStore.Append ev (w_events w)) as [s [x|[]]] eqn:Hap; cbn [fst].
  + unfold EventStore.Append in Hap. destruct (Marshal _); [|done]. injection Hap as <- _. by left.
  + destruct (Append_event _ _ _ _ (proj1 (pr_store _ _ _ Hp)) Hb Hap) as (st & Hst & Hse & _).
    change (w_events (lens_set L_events s w)) with s. rewrite Hst.
    intros [He| ->%list_elem_of_singleton]%elem_of_app; [by left|by right].
- unfold zoom. cbn [lens_get L_events]. destruct (EventStore.EnsureSubscription _ (w_events w)) as [s r] eqn:Hs.
  cbn [fst]. change (w_events (lens_set L_events s w)) with s. unfold EventStore.EnsureSubscription in Hs.
  destruct (_ !! _); injection Hs as <- _; [by left|]. rewrite ensured_events. by left.
- destruct (poll_effect q policy worker w) as (w' & r & -> & Hst & _).
  pose proof (f_equal (λ x, x.1.1.1) Hst) as He. cbn [still fst] in He. cbn [fst]. rewrite He. by left.
- unfold zoom. cbn [lens_get L_events]. destruct (EventStore.RequeueDeadLetter id (w_events w)) as [s r] eqn:Hs.
  cbn [fst]. change (w_events (lens_set L_events s w)) with s. unfold EventStore.RequeueDeadLetter in Hs.
  destruct (List.find _ _); injection Hs as <- _; by left.
Qed.

(** A process that starts with nothing recorded and the read models empty. *)
Record fresh (w : World) : Prop := {
  fresh_events : w_events w = NewEventStore;
  fresh_expenses : w_expenses w = ∅;
  fresh_analytics : w_analytics w = NewAnalyticsRepository;
  fresh_usage : w_usage w = mkUsageStore ∅ ∅;
  fresh_audit : as_entries (w_audit w) = [] ∧ as_byEvent (w_audit w) = ∅;
  fresh_ids n : w_ids w n ≠ ""
}.

Lemma Process_fresh w : fresh w → Process 0 w [].
Proof using Type.
intros [He Hx _ _ _ Hi]. split; rewrite ?He, ?Hx; try done.
- apply Inv_empty.
- constructor.
- by intros e ?%elem_of_nil.
- by intros e ?%elem_of_nil.
- by intros x ?%elem_of_nil.
- by intros x ?%elem_of_nil.
- split; rewrite ?Hx; [intros id e Hl|by rewrite He]. by apply lookup_empty_Some in Hl.
Qed.

(** Induction over what a process does. *)
Lemma act_all_ind (P : Z → World → handled → Prop) (Q : Action → Prop) :
  (∀ b a wl, P b wl.1 wl.2 → Q a → b < max_int64 → P (b + 1) (act a wl).1 (act a wl).2) →
  ∀ actions w, P 0 w [] → Forall Q actions → Z.of_nat (length actions) ≤ max_int64 →
  ∃ b, P b (act_all actions w).1 (act_all actions w).2.
Proof using Type.
intros Hact actions w Hw HQ Hlen. enough (∀ b wl, P b wl.1 wl.2 → b + Z.of_nat (length actions) ≤ max_int64 →
  ∃ b', P b' (foldl (λ wl a, act a wl) wl actions).1 (foldl (λ wl a, act a wl) wl actions).2) as Hall.
{ apply (Hall 0 (w, [])); [done|lia]. }
clear Hw Hlen. induction HQ as [|a actions Ha _ IH]; intros b wl Hp Hb; [by exists b|]. cbn [length] in Hb.
apply (IH (b + 1)); [|lia]. apply Hact; [done|done|lia].
Qed.

Lemma Process_all actions w : fresh w → Forall proper actions → Z.of_nat (length actions) ≤ max_int64 →
  ∃ b, Process b (act_all actions w).1 (act_all actions w).2.
Proof using Type.
intros Hw. apply (act_all_ind Process proper); [by apply Process_act|by apply Process_fresh].
Qed.
End Process.

(** ** Read models

    What the messages a projection has applied say of its read model ([model], of the
    part [view] of the state) holds in every run, if each message it takes upholds it. *)

Definition any_event (e : storedEvent) : Prop := True.

Section ReadModel.
Context `{GoRuntime} (p : Projection) {V : Type} (view : World → V) (model : list Message → V → Prop).
Context (Good : storedEvent → Prop).
Context (Hview : ∀ w w', views w' = views w → view w' = view w).
Context (Hother : ∀ q m w, q ≠ p → view (world_within (Handle (projection_handler q) m) w).1 = view w).
Context (Hstep : ∀ ms m e w, let run := world_within (Handle (projection_handler p) m) w in
  model ms (view w) → carries m e → faithful e → Good e →
  matchesAggregateType (AggregateType m) (AggregateTypes (projection_handler p)) = true → run.2 = inr () →
  model (ms ++ [m]) (view run.1)).

Definition modelled (w : World) (log : handled) : Prop :=
  model (applied_by (Name (projection_handler p)) log) (view w).

Definition good_log (w : World) : Prop := ∀ e, e ∈ es_events (w_events w) → Good e.

Lemma modelled_act b a wl : Process b wl.1 wl.2 → good_log wl.1 → modelled wl.1 wl.2 → modelled (act a wl).1 (act a wl).2.
Proof using Hview Hother Hstep.
destruct wl as [w log]. unfold modelled. cbn [fst snd]. intros Hp Hgood Hm.
assert (∀ s, view (lens_set L_events s w) = view w) as Hq by (intros s; by apply Hview).
destruct a as [c|ev|q|q policy worker|id]; cbn [act].
- cbn [fst snd]. by rewrite (Hview w _ (command_views c w)).
- unfold zoom. destruct (EventStore.Append _ _) as [s r]. cbn [fst snd]. by rewrite Hq.
- unfold zoom. destruct (EventStore.EnsureSubscription _ _) as [s r]. cbn [fst snd]. by rewrite Hq.
- destruct (poll_effect q policy worker w) as (w' & r & -> & _ & Heff). cbn [fst snd]. rewrite applied_by_result.
  destruct (decide (res_Status r = Processed)); [|by rewrite app_nil_r, (Hview w w' Heff)].
  destruct Heff as (c & now & w2 & Hc & Hmsg & Hty & Hv2 & Hok & Hv).
  rewrite (Hview _ w' Hv). destruct (decide (q = p)) as [->|Hne].
  + rewrite eqs_refl. apply (Hstep _ _ (d_event c)); [by rewrite (Hview w w2 Hv2)| | | |by rewrite Hmsg|done].
    * rewrite Hmsg. apply carried.
    * by apply (pr_events _ _ _ Hp), (delivery_recorded _ _ (proj1 (pr_store _ _ _ Hp))).
    * by apply Hgood, (delivery_recorded _ _ (proj1 (pr_store _ _ _ Hp))).
  + rewrite Hother, (Hview w w2 Hv2) by done. rewrite eqs_ne, app_nil_r; [done|]. by destruct p, q.
- unfold zoom. destruct (EventStore.RequeueDeadLetter _ _) as [s r]. cbn [fst snd]. by rewrite Hq.
Qed.

(** Any turns of engines. *)
Lemma modelled_polls b polls wl : Forall (λ a, if a is Poll _ _ _ then True else False) polls → Process b wl.1 wl.2 →
  good_log wl.1 → modelled wl.1 wl.2 → modelled (foldl (λ wl a, act a wl) wl polls).1 (foldl (λ wl a, act a wl) wl polls).2.
Proof using Hview Hother Hstep.
intros Hpolls. revert wl. induction Hpolls as [|a polls Ha _ IH]; intros wl Hp Hg Hm; [done|]. cbn [foldl].
assert (Process b (act a wl).1 (act a wl).2 ∧ good_log (act a wl).1) as [Hp' Hg'].
{ destruct a as [| | |q policy worker|]; try done. destruct wl as [w log]. cbn [act fst snd] in *.
  destruct (Process_poll b q policy worker w log Hp) as (w' & r & Hrun & Hp').
  destruct (poll_effect q policy worker w) as (w2 & r2 & Hrun2 & Hst & _). rewrite Hrun in Hrun2.
  injection Hrun2 as <- _. rewrite Hrun. split; [exact Hp'|]. intros e.
  pose proof (f_equal (λ x, x.1.1.1) Hst) as He. cbn [still fst] in He. cbn [fst]. rewrite He. apply Hg. }
apply IH; [exact Hp'|exact Hg'|by eapply modelled_act].
Qed.

Lemma modelled_all actions w : (∀ e, Good e) → fresh w → model [] (view w) → Forall proper actions →
  Z.of_nat (length actions) ≤ max_int64 →
  ∃ b, Process b (act_all actions w).1 (act_all actions w).2 ∧ modelled (act_all actions w).1 (act_all actions w).2.
Proof using Hview Hother Hstep.
intros HG Hw Hm. apply (act_all_ind (λ b w log, Process b w log ∧ modelled w log) proper).
- intros b a wl [Hp Hmod] Ha Hb. split; [by apply Process_act|]. eapply modelled_act; [exact Hp|by intros e _|exact Hmod].
- split; [by apply Process_fresh|done].
Qed.
End ReadModel.

(** ** What a projection that has caught up has applied *)

Section Applied.
Context `{GoRuntime}.

(** The events of one aggregate, and of one expense. *)
Definition events_about (agg : string * string) (es : list storedEvent) : list storedEvent :=
  List.filter (λ e, (ev_AggregateType (se_event e) =s agg.1) && (ev_AggregateID (se_event e) =s agg.2)) es.
Definition events_of (id : string) := events_about ("expense", id).
Definition payloads (es : list storedEvent) : list EventPayload := map (λ e, ev_Payload (se_event e)) es.

Lemma sorted_unique (l1 l2 : list Z) : StronglySorted Z.lt l1 → StronglySorted Z.lt l2 → (∀ g, g ∈ l1 ↔ g ∈ l2) → l1 = l2.
Proof using Type.
intros H1. revert l2. induction H1 as [|x l1 Hs1 IH Hx]; intros l2 H2 Hiff.
{ destruct l2 as [|y l2]; [done|]. destruct (not_elem_of_nil y). apply Hiff. by left. }
destruct H2 as [|y l2 Hs2 Hy]; [destruct (not_elem_of_nil x); apply Hiff; by left|].
rewrite Forall_forall in Hx, Hy.
assert (x = y) as <-.
{ destruct (proj1 (elem_of_cons _ _ _) (proj1 (Hiff x) ltac:(by left))) as [->|Hin]; [done|].
  destruct (proj1 (elem_of_cons _ _ _) (proj2 (Hiff y) ltac:(by left))) as [->|Hin']; [done|].
  pose proof (Hy _ Hin). pose proof (Hx _ Hin'). lia. }
f_equal. apply IH; [done|]. intros g. specialize (Hiff g). rewrite !elem_of_cons in Hiff. split; intros Hg.
- destruct Hiff as [[->|] _]; [by right|specialize (Hx _ Hg); lia|done].
- destruct Hiff as [_ [->|]]; [by right|specialize (Hy _ Hg); lia|done].
Qed.

Lemma sorted_sublist (f : storedEvent → bool) (es : list storedEvent) :
  StronglySorted Z.lt (map se_globalSeq es) → StronglySorted Z.lt (map se_globalSeq (List.filter f es)).
Proof using Type.
induction es as [|e es IH]; [done|]. cbn. inversion 1 as [|x l Hs Hx]; subst. destruct (f e); [|by apply IH].
cbn. constructor; [by apply IH|]. rewrite Forall_forall in Hx |- *. intros g (e' & -> & He')%list_elem_of_fmap.
apply Hx. apply list_elem_of_fmap. exists e'. split; [done|]. apply list_elem_of_In, filter_In in He' as [He' _].
by apply list_elem_of_In.
Qed.

(** The events whose messages a projection applied, in that order. *)
Lemma carried_events p b w log : Process b w log → ∃ es, Forall2 carries (applied_by (Name (projection_handler p)) log) es ∧
  Forall (λ e, e ∈ es_events (w_events w)) es.
Proof using Type.
intros Hp. pose proof (pr_log _ _ _ Hp) as Hlog.
assert (∀ m, m ∈ applied_by (Name (projection_handler p)) log → ∃ e, e ∈ es_events (w_events w) ∧ carries m e) as Hm.
{ intros m (x & -> & Hx)%list_elem_of_fmap. apply list_elem_of_In, filter_In in Hx as [Hx _].
  by apply Hlog, list_elem_of_In. }
induction (applied_by (Name (projection_handler p)) log) as [|m ms IH]; [by exists []|].
destruct IH as (es & Hes & Hin); [intros m' Hm'; apply Hm; by right|].
destruct (Hm m) as (e & He & Hc); [by left|]. exists (e :: es). by split; constructor.
Qed.

Lemma handled_events name agg log es : Forall2 carries (applied_by name log) es →
  handled_seqs name agg log = map se_globalSeq (events_about agg es).
Proof using Type.
revert es. induction log as [|[sub m] log IH]; intros es Hes; [by inversion Hes|].
unfold applied_by, handled_seqs in *. cbn [List.filter fst] in *. unfold about at 1. cbn [fst snd].
destruct (sub =s name); [|by apply IH].
inversion Hes as [|m' e ms es' Hc Hes']; subst. destruct Hc as (Hseq & _ & _ & Hty & Hid & _).
unfold events_about. cbn [List.filter]. rewrite Hty, Hid.
destruct (_ =s agg.1), (_ =s agg.2); cbn; rewrite (IH es' Hes'); by rewrite ?Hseq.
Qed.

Definition has_subscription (p : Projection) (w : World) : Prop :=
  is_Some (es_subscriptions (w_events w) !! Name (projection_handler p)).

(** Caught up, a projection has applied every event of the aggregates it asks for, in
    order. *)
Lemma applied_all p agg b w log es : Process b w log → Forall2 carries (applied_by (Name (projection_handler p)) log) es →
  Forall (λ e, e ∈ es_events (w_events w)) es → has_subscription p w → caught_up p (w_events w) = true →
  matchesAggregateType agg.1 (AggregateTypes (projection_handler p)) = true →
  events_about agg es = events_about agg (es_events (w_events w)).
Proof using Type.
intros Hp Hes Hin Hsub Hup Hm. destruct (pr_store _ _ _ Hp) as (Hs & Hq & _ & Hl).
destruct (Hl (Name (projection_handler p)) agg) as [Hso Hiff]. rewrite (handled_events _ agg log es Hes) in Hso, Hiff.
assert (map se_globalSeq (events_about agg es) = map se_globalSeq (events_about agg (es_events (w_events w)))) as Heq.
{ apply sorted_unique; [done|apply sorted_sublist, (pr_sorted _ _ _ Hp)|]. intros g. rewrite Hiff. split.
  - intros (d & Hd & [_ Hagg] & _ & <-). apply list_elem_of_fmap. exists (d_event d). split; [done|].
    apply list_elem_of_In, filter_In. split; [by apply list_elem_of_In, (delivery_recorded _ _ Hs)|].
    rewrite <- Hagg. cbn. by rewrite !eqs_refl.
  - intros (e & -> & He)%list_elem_of_fmap. apply list_elem_of_In, filter_In in He as [He%list_elem_of_In Hte].
    apply andb_true_iff in Hte as [Hty%String.eqb_eq Hid%String.eqb_eq].
    destruct (Hq e _ He Hsub) as (d & Hd & Hds & Hde). exists d. split; [done|].
    split; [split; [done|]; unfold d_aggregate; rewrite Hde, Hty, Hid; by destruct agg|].
    split; [|by unfold d_seq; rewrite Hde].
    unfold caught_up in Hup. rewrite forallb_forall in Hup. specialize (Hup d (proj1 (list_elem_of_In _ _) Hd)).
    rewrite Hds, Hde, Hty, Hm, eqs_refl in Hup. by apply is_status_spec. }
assert (∀ l1 l2, (∀ e, e ∈ l1 → e ∈ es_events (w_events w)) → (∀ e, e ∈ l2 → e ∈ es_events (w_events w)) →
  map se_globalSeq l1 = map se_globalSeq l2 → l1 = l2) as Hinj.
{ induction l1 as [|e1 l1 IH]; intros [|e2 l2] H1 H2 He12; try done. cbn in He12. injection He12 as He He12.
  rewrite (NoDup_map_inj se_globalSeq _ e1 e2 (events_fresh _ _ Hs) (H1 e1 ltac:(by left)) (H2 e2 ltac:(by left)) He).
  f_equal. apply IH; [intros e Hel; apply H1; by right|intros e Hel; apply H2; by right|done]. }
rewrite Forall_forall in Hin. apply Hinj; [| |done]; intros e [He _]%list_elem_of_In%filter_In; apply list_elem_of_In in He;
  [by apply Hin|done].
Qed.
End Applied.
