(* ===== verification/Draining.v ===== *)
(** * A projection's queue drains

    When a projection refuses none of the events recorded, none of its messages is
    ever parked: each of its polls applies one, so as many polls as it has messages
    before it leave none, whoever polls and whatever the other projections do. *)

From S2P Require Export Prelude GoTime GoStrings Domain Json Outbox UnitOfWork EventStore EventOrder.
From S2P Require Export Ports World Expenses ExpenseLog Process.
#[global] Open Scope Z_scope.

Section Queue.
Context `{GoRuntime}.

(** A message no poll has touched. *)
Definition waiting (d : delivery) : Prop :=
  d_status d = deliveryPending ∧ d_availableAt d = 0 ∧ d_lockedAt d = 0.

(** Freshly queued deliveries wait. *)
Lemma queued_waiting {A} replay (l : list A) (event : A → storedEvent) (sub : A → string) (s : EventStore.EventStore) d :
  d ∈ es_deliveries (foldl (λ s x, queue_delivery replay (event x) s (sub x)) s l) → d ∈ es_deliveries s ∨ waiting d.
Proof using Type.
revert s. induction l as [|x l IH]; intros s Hd; [by left|]. cbn [foldl] in Hd.
destruct (IH _ Hd) as [Hin|]; [|by right]. cbn in Hin.
apply elem_of_app in Hin as [Hin| ->%list_elem_of_singleton]; [by left|right; by split_and!].
Qed.

Lemma append_waiting ev s s' r : EventStore.Append ev s = (s', r) →
  ∀ d, d ∈ es_deliveries s' → d ∈ es_deliveries s ∨ waiting d.
Proof using Type.
unfold EventStore.Append. destruct (Marshal _); [intros [= <- _]; by left|]. intros [= <- _] d Hd.
exact (queued_waiting false _ (λ _, _) (λ x, x) _ d Hd).
Qed.

Lemma ensure_waiting name s s' r : EventStore.EnsureSubscription name s = (s', r) →
  ∀ d, d ∈ es_deliveries s' → d ∈ es_deliveries s ∨ waiting d.
Proof using Type.
unfold EventStore.EnsureSubscription. destruct (_ !! _); [intros [= <- _]; by left|]. intros [= <- _] d Hd.
exact (queued_waiting true _ (λ x, x) (λ _, name) _ d Hd).
Qed.

Lemma filter_update_one P p f ds c : NoDup (map d_ptr ds) → c ∈ ds → d_ptr c = p → P c = true → P (f c) = false →
  length (List.filter P (update_ptr p f ds)) = pred (length (List.filter P ds)).
Proof using Type.
unfold update_ptr. intros Hnd Hc Hp HP HPf. induction ds as [|d ds IH]; [by apply not_elem_of_nil in Hc|].
cbn in Hnd. apply NoDup_cons in Hnd as [Hn Hnd]. cbn [map List.filter]. apply elem_of_cons in Hc as [->|Hc].
- rewrite Hp, Nat.eqb_refl, HPf, HP. cbn. f_equal. f_equal. clear IH Hnd. induction ds as [|x ds IH]; [done|].
  cbn in *. apply not_elem_of_cons in Hn as [Hx Hn]. rewrite (proj2 (Nat.eqb_neq (d_ptr x) p)) by congruence. by rewrite IH.
- assert (d_ptr d ≠ p) as Hd by (intros Heq; apply Hn; rewrite Heq, <- Hp; by apply (list_elem_of_fmap_2 d_ptr)).
  rewrite (proj2 (Nat.eqb_neq _ _) Hd). specialize (IH Hnd Hc).
  assert (length (List.filter P ds) ≠ O).
  { intros Hz. apply length_zero_iff_nil in Hz.
    assert (In c []) as []. rewrite <- Hz. apply filter_In. by rewrite <- list_elem_of_In. }
  destruct (P d); cbn; lia.
Qed.

(** A clock that does not run before Go's zero time. *)
Definition timely (w : World) : Prop := ∀ n, 0 ≤ (sources w).2 n.

(** Engines at work: any projection, policy and worker at each turn. *)
Definition polling (polls : list (Projection * Policy * string)) : list Action :=
  map (λ x, Poll x.1.1 x.1.2 x.2) polls.
Lemma polling_polls polls : Forall (λ a, if a is Poll _ _ _ then True else False) (polling polls).
Proof using Type. apply Forall_forall. by intros a (x & -> & _)%list_elem_of_fmap. Qed.
End Queue.

Section Draining.
Context `{GoRuntime} (p : Projection) (Good : storedEvent → Prop).
Context (Htakes : ∀ m e w, carries m e → faithful e → Good e →
  matchesAggregateType (AggregateType m) (AggregateTypes (projection_handler p)) = true →
  (world_within (Handle (projection_handler p) m) w).2 = inr ()).

Definition addressed (d : delivery) : bool :=
  (d_subscription d =s Name (projection_handler p)) &&
  matchesAggregateType (ev_AggregateType (se_event (d_event d))) (AggregateTypes (projection_handler p)).
(** How many messages the projection has before it. *)
Definition backlog (s : EventStore.EventStore) : nat :=
  length (List.filter (λ d, addressed d && negb (is_status deliveryProcessed d)) (es_deliveries s)).
(** How many of the polls are its own. *)
Definition own (polls : list (Projection * Policy * string)) : nat :=
  length (List.filter (λ x, bool_decide (x.1.1 = p)) polls).

Definition unstuck (s : EventStore.EventStore) : Prop := ∀ d, d ∈ es_deliveries s →
  d_subscription d = Name (projection_handler p) → waiting d ∨ d_status d = deliveryProcessed.

Record Flowing (b : Z) (w : World) (log : handled) : Prop := {
  fl_process : Process b w log;
  fl_good e : e ∈ es_events (w_events w) → Good e;
  fl_queue : unstuck (w_events w);
  fl_clock : timely w
}.

Lemma caught_up_backlog s : caught_up p s = true ↔ backlog s = O.
Proof using Type.
unfold caught_up, backlog. induction (es_deliveries s) as [|d ds IH]; [done|]. cbn [forallb List.filter].
fold (addressed d). destruct (addressed d), (is_status deliveryProcessed d); cbn; try exact IH. split; [done|lia].
Qed.

Lemma unstuck_grows s s' : (∀ d, d ∈ es_deliveries s' → d ∈ es_deliveries s ∨ waiting d) → unstuck s → unstuck s'.
Proof using Type. intros Hd Hs d Hin Hsub. destruct (Hd d Hin) as [Hin'|]; [by apply Hs|by left]. Qed.

Lemma unstuck_update b s q f c : Structure b s → c ∈ es_deliveries s → unstuck s →
  (∀ d, d_subscription (f d) = d_subscription d) → d_ptr c = q →
  (d_subscription c = Name (projection_handler p) → waiting (f c) ∨ d_status (f c) = deliveryProcessed) →
  ∀ s', es_deliveries s' = update_ptr q f (es_deliveries s) → unstuck s'.
Proof using Type.
intros Hs Hc Hu Hf Hp Hfc s' Hs' d Hd Hsub. rewrite Hs' in Hd. apply elem_of_update in Hd as (d0 & Hd0 & ->).
destruct (Nat.eqb_spec (d_ptr d0) q) as [Heq|Hne]; [|by apply Hu].
assert (d0 = c) as -> by (eapply (NoDup_map_inj d_ptr); [apply (ptr_fresh _ _ Hs)|done|done|congruence]).
apply Hfc. by rewrite <- (Hf c).
Qed.

(** A poll that finds nothing leaves nothing behind. *)
Lemma idle_drained now policy s : 0 ≤ now → unstuck s →
  (EventStore.claim now (Name (projection_handler p)) (AggregateTypes (projection_handler p)) policy s).2 = inr None →
  backlog s = O.
Proof using Type.
intros Hnow Hu. rewrite claim_idle_iff. intros Hidle. unfold backlog.
destruct (List.filter _ _) as [|d l] eqn:Hf; [done|exfalso].
set (mine d := addressed d = true ∧ d_status d ≠ deliveryProcessed).
assert (d ∈ es_deliveries s ∧ mine d) as [Hd Hm].
{ assert (In d (d :: l)) as Hin by by left. rewrite <- Hf in Hin. apply filter_In in Hin as [Hin%list_elem_of_In Hp].
  rewrite !andb_true_iff, negb_true_iff in Hp. destruct Hp as [Ha Hp]. split; [done|]. split; [done|].
  intros Hst. by rewrite (proj2 (is_status_spec _ _) Hst) in Hp. }
destruct (least_in mine (es_deliveries s) d Hd Hm) as (c & Hc & (Ha & Hst) & Hmin).
pose proof Ha as Ha'. unfold addressed in Ha'. apply andb_true_iff in Ha' as [Hsub%String.eqb_eq Hty].
destruct (Hu c Hc Hsub) as [(Hpend & Hav & Hlk)|]; [|done].
specialize (Hidle c Hc). rewrite blocked_spec in Hidle. destruct Hidle as (x & Hx & _ & Hxs & Hxa & Hlt & Hxst).
- unfold claimable. rewrite Hsub, Hty, (proj2 (is_status_spec _ _) Hpend), Hav, Hlk, eqs_refl. cbn. unfold After.
  by rewrite (proj2 (Z.ltb_ge _ _) Hnow).
- assert (d_seq c ≤ d_seq x); [|lia]. apply Hmin; [done|]. unfold d_aggregate in Hxa. injection Hxa as Hxt _.
  split; [unfold addressed; by rewrite Hxs, Hxt, Hsub, Hty, eqs_refl|]. intros Hp. by destruct Hxst; congruence.
Qed.

Lemma backlog_done b s c now s' : Structure b s → c ∈ es_deliveries s → d_status c = deliveryPending →
  addressed c = true → es_deliveries s' = update_ptr (d_ptr c) (mark_done now) (es_deliveries s) →
  backlog s' = pred (backlog s).
Proof using Type.
intros Hs Hc Hst Hfor Hs'. unfold backlog. rewrite Hs'.
apply (filter_update_one _ _ _ _ c); [apply (ptr_fresh _ _ Hs)|done|done|..].
- rewrite Hfor. unfold is_status. by rewrite Hst.
- unfold is_status. cbn. by rewrite andb_false_r.
Qed.

Lemma backlog_elsewhere s s' q f c : NoDup (map d_ptr (es_deliveries s)) → c ∈ es_deliveries s → d_ptr c = q →
  d_subscription c ≠ Name (projection_handler p) → (∀ d, d_subscription (f d) = d_subscription d) →
  es_deliveries s' = update_ptr q f (es_deliveries s) → backlog s' = backlog s.
Proof using Type.
intros Hnd Hc Hq Hne Hf Hs'. unfold backlog. rewrite Hs'. unfold update_ptr.
assert (∀ d, d ∈ es_deliveries s → d_ptr d = q → addressed d = false ∧ addressed (f d) = false) as Haway.
{ intros d Hd Hp. assert (d = c) as -> by (eapply (NoDup_map_inj d_ptr); [exact Hnd|done|done|congruence]).
  unfold addressed. rewrite Hf. by rewrite eqs_ne. }
clear Hs' Hnd Hc. induction (es_deliveries s) as [|d ds IH]; [done|]. cbn [map List.filter].
assert (length (List.filter (λ d, addressed d && negb (is_status deliveryProcessed d))
  (map (λ d, if Nat.eqb (d_ptr d) q then f d else d) ds)) =
  length (List.filter (λ d, addressed d && negb (is_status deliveryProcessed d)) ds)) as IH'.
{ apply IH. intros d' Hd'. apply Haway. by right. }
destruct (Nat.eqb_spec (d_ptr d) q) as [Hp|]; [|destruct (_ && _); cbn; lia].
destruct (Haway d ltac:(by left) Hp) as [-> ->]. exact IH'.
Qed.

(** No poll disturbs the flow, and one of the projection's own applies a message if
    there is any. *)
Lemma Flowing_poll b q policy worker w log : Flowing b w log →
  ∃ w' r, poll q policy worker w = (w', inr r) ∧ Flowing b w' (log_result (Name (projection_handler q)) r log) ∧
    still w' = still w ∧
    backlog (w_events w') = if bool_decide (q = p) then pred (backlog (w_events w)) else backlog (w_events w).
Proof using Htakes.
intros [Hp Hgood Hq Hclk]. destruct (Process_poll b q policy worker w log Hp) as (w' & r & Hrun & Hp').
destruct (poll_run q policy worker w) as (w2 & r2 & Hrun2 & Hcase).
assert ((w2, inr (A:=error) r2) = (w', inr r)) as [= -> ->] by (by rewrite <- Hrun, <- Hrun2).
exists w', r. split; [exact Hrun|]. pose proof (pr_store _ _ _ Hp) as (Hs & _).
destruct Hcase as [(Hidle & _ & Hw')|(c & Hc & Hsub & Hpend & Hty & Hm & Hw)].
- split; [rewrite Hw' in *; by split|]. rewrite Hw'. split; [done|]. cbn [w_events lens_set L_events].
  case_bool_decide as Hqp; [|done]. subst q.
  assert (backlog (w_events w) = O) as Hz by exact (idle_drained _ policy _ (Hclk _) Hq Hidle).
  change (backlog (w_events w) = pred (backlog (w_events w))). by rewrite Hz.
- cbv zeta in Hw. destruct Hw as (Hst & _ & Hout). set (w3 := lens_set L_events _ _) in *.
  pose proof (f_equal (λ x, x.1.1.1) Hst) as Hev. pose proof (f_equal snd Hst) as Hsrc. cbn [still fst snd] in Hev, Hsrc.
  assert (unstuck (w_events w') → Flowing b w' (log_result (Name (projection_handler q)) r log)) as Hdone.
  { intros Hu. split; [exact Hp'|by rewrite Hev|exact Hu|unfold timely; by rewrite Hsrc]. }
  case_bool_decide as Hqp; [subst q|].
  + assert (d_event c ∈ es_events (w_events w)) as Hin by by apply (delivery_recorded _ _ Hs).
    pose proof (Htakes (res_Message r) (d_event c) w3 ltac:(rewrite Hm; apply carried) (pr_events _ _ _ Hp _ Hin)
      (Hgood _ Hin) ltac:(by rewrite Hm)) as Htake.
    rewrite Htake in Hout. destruct Hout as [_ Hds]. split; [|split; [exact Hst|]].
    * apply Hdone. eapply (unstuck_update b _ (d_ptr c) (mark_done _) c); [exact Hs|exact Hc|exact Hq|by intros []|done| |exact Hds].
      intros _. by right.
    * eapply backlog_done; [exact Hs|exact Hc|exact Hpend| |exact Hds]. unfold addressed. by rewrite Hsub, Hty, eqs_refl.
  + assert (∃ f, es_deliveries (w_events w') = update_ptr (d_ptr c) f (es_deliveries (w_events w)) ∧
      ∀ d, d_subscription (f d) = d_subscription d) as (f & Hds & Hf).
    { destruct (world_within _ w3).2; [by destruct Hout|]. destruct Hout as [_ Hds]. eexists. split; [exact Hds|by intros []]. }
    assert (d_subscription c ≠ Name (projection_handler p)) as Hne by (rewrite Hsub; by destruct p, q).
    split; [|split; [exact Hst|]].
    * apply Hdone. by eapply (unstuck_update b _ (d_ptr c) f c).
    * eapply backlog_elsewhere; [apply (ptr_fresh _ _ Hs)|exact Hc|done|exact Hne|exact Hf|exact Hds].
Qed.

Lemma Flowing_act b a wl : Flowing b wl.1 wl.2 → proper a → b < max_int64 →
  (∀ e, e ∈ es_events (w_events (act a wl).1) → Good e) → Flowing (b + 1) (act a wl).1 (act a wl).2.
Proof using Htakes.
destruct wl as [w log]. cbn [fst snd]. intros Hf Hpr Hb Hgood'.
pose proof (Process_act b a (w, log) (fl_process _ _ _ Hf) Hpr Hb) as Hp'. pose proof Hf as [Hp Hgood Hq Hclk].
destruct a as [c|ev|q|q policy worker|id]; cbn [act] in *.
- pose proof Hp as [_ _ _ _ _ _ _ _ Hids].
  pose proof (command_records (w_events w) (sources w) (w_expenses w) Hids False c ltac:(done) w (conj eq_refl eq_refl)) as Hr.
  destruct (run_expense c w) as [w' [e|x]]; cbn [fst] in *.
  + destruct Hr as ((n & Hn & Hs) & Hi). split; try done; [by rewrite Hs|unfold timely; by rewrite Hi].
  + destruct Hr as ((ev & _ & _ & Hap) & Hi). split; try done; [|unfold timely; by rewrite Hi].
    eapply unstuck_grows; [by eapply append_waiting|done].
- unfold zoom in *. cbn [lens_get L_events] in *. destruct (EventStore.Append ev (w_events w)) as [s r] eqn:Hap.
  cbn [fst snd] in *. split; try done. eapply unstuck_grows; [by eapply append_waiting|done].
- unfold zoom in *. cbn [lens_get L_events] in *.
  destruct (EventStore.EnsureSubscription _ (w_events w)) as [s r] eqn:Hs. cbn [fst snd] in *. split; try done.
  eapply unstuck_grows; [by eapply ensure_waiting|done].
- destruct (Flowing_poll b q policy worker w log Hf) as (w' & r & Hrun & [H1 H2 H3 H4] & _). rewrite Hrun in *. by split.
- unfold zoom in *. cbn [lens_get L_events] in *.
  destruct (EventStore.RequeueDeadLetter id (w_events w)) as [s r] eqn:Hs. cbn [fst snd] in *. split; try done.
  unfold EventStore.RequeueDeadLetter in Hs. destruct (List.find _ _) as [d|] eqn:Hfd; injection Hs as <- _; [|done].
  apply List.find_some in Hfd as [Hd%list_elem_of_In _].
  eapply (unstuck_update b (w_events w) (d_ptr d) requeued d); [apply (pr_store _ _ _ Hp)|exact Hd|exact Hq|by intros []|done| |done].
  intros _. left. by split_and!.
Qed.

Lemma Flowing_fresh w : fresh w → timely w → Flowing 0 w [].
Proof using Type.
intros Hf Ht. split; [by apply Process_fresh| | |done]; rewrite (fresh_events _ Hf); by intros e ?%elem_of_nil.
Qed.

(** After enough polls nothing is left, and nothing else but read models changed. *)
Lemma Flowing_polling b polls wl : Flowing b wl.1 wl.2 →
  let wl' := foldl (λ wl a, act a wl) wl (polling polls) in
  Flowing b wl'.1 wl'.2 ∧ backlog (w_events wl'.1) = (backlog (w_events wl.1) - own polls)%nat ∧ still wl'.1 = still wl.1.
Proof using Htakes.
revert wl. induction polls as [|[[q policy] worker] polls IH]; intros [w log] Hf; cbn [fst snd] in *.
{ split; [done|]. split; [cbn; lia|done]. }
cbn [polling map foldl act fst snd].
destruct (Flowing_poll b q policy worker w log Hf) as (w' & r & Hrun & Hf' & Hst & Hb). rewrite Hrun.
destruct (IH (w', log_result (Name (projection_handler q)) r log) Hf') as (Hf2 & Hb2 & Hs2).
split; [exact Hf2|]. split; [|etransitivity; [exact Hs2|exact Hst]].
etransitivity; [exact Hb2|]. cbn [fst]. rewrite Hb. unfold own. cbn [List.filter fst].
case_bool_decide; cbn [length]; lia.
Qed.

(** The polls as part of what a process does. *)
Lemma drained b actions polls w : let wl := act_all actions w in Flowing b wl.1 wl.2 →
  (backlog (w_events wl.1) ≤ own polls)%nat → let wl' := act_all (actions ++ polling polls) w in
  Flowing b wl'.1 wl'.2 ∧ caught_up p (w_events wl'.1) = true ∧ still wl'.1 = still wl.1.
Proof using Htakes.
intros wl Hf Hb. unfold act_all. rewrite foldl_app. fold (act_all actions w).
destruct (Flowing_polling b polls wl Hf) as (Hf' & Hb' & Hs). split; [exact Hf'|]. split; [|exact Hs].
apply caught_up_backlog. etransitivity; [exact Hb'|]. unfold wl in *. lia.
Qed.
End Draining.
