(* ===== verification/Ledger.v ===== *)
(** * The ledger of expenses, as the messages tell it

    A projection that keeps a contribution per expense, and has applied every message
    about it, keeps the contribution of the expense as the commands left it. *)

From S2P Require Export Prelude GoTime GoStrings Domain Json Outbox UnitOfWork EventStore EventOrder AnalyticsProjection.
From S2P Require Export Ports World Expenses ExpenseLog Process.
#[global] Open Scope Z_scope.

Section Ledgers.

(** What an event does to one expense, and to its contribution. *)
Definition expense_step (o : option ExpenseRecord) (p : EventPayload) : option ExpenseRecord :=
  match p with
  | ExpenseAdded e | ExpenseUpdated e => Some e
  | ExpenseRemoved _ _ _ => (λ e, e <| ex_DeletedAt := Some (ex_UpdatedAt e) |>) <$> o
  | _ => o
  end.
Definition contribution_step (o : option ExpenseContribution) (p : EventPayload) : option ExpenseContribution :=
  match payload_contribution p with
  | Some c => if ec_Active c then Some c else (λ c, c <| ec_Active := false |>) <$> o
  | None => o
  end.

(** The contribution is that of the live expense, and none of a removed one. *)
Definition mirrors (o : option ExpenseRecord) (c : option ExpenseContribution) : Prop :=
  match o with
  | Some e => match ex_DeletedAt e with
              | None => c = Some (contribution_of e)
              | Some _ => ∀ c', c = Some c' → ec_Active c' = false
              end
  | None => ∀ c', c = Some c' → ec_Active c' = false
  end.

Lemma mirrors_step o c p : mirrors o c → mirrors (expense_step o p) (contribution_step c p).
Proof using Type.
unfold mirrors, expense_step, contribution_step. intros Hm. destruct p; try exact Hm; cbn.
1,2: destruct (ex_DeletedAt expense); [|by rewrite bool_decide_true by done]; rewrite bool_decide_false by done.
all: try destruct o; cbn; by intros c' (c0 & _ & ->)%fmap_Some.
Qed.

Lemma mirrors_steps ps o c : mirrors o c → mirrors (foldl expense_step o ps) (foldl contribution_step c ps).
Proof using Type. revert o c. induction ps as [|p ps IH]; intros o c Hm; [done|]. by apply IH, mirrors_step. Qed.

Lemma replay_at es id s : Forall faithful es →
  foldl (λ s ev, replay_payload s (ev_Payload ev)) s (map se_event es) !! id =
  foldl expense_step (s !! id) (payloads (events_of id es)).
Proof using Type.
intros Hes. revert s. induction Hes as [|e es Hf _ IH]; intros s; [done|]. cbn [map foldl]. rewrite IH.
unfold events_of, events_about. cbn [List.filter fst snd]. destruct Hf as [[Hrec _]|[Hty Hpay]].
2: { rewrite eqs_ne by done. cbn. by rewrite replay_elsewhere. }
rewrite (rec_type _ Hrec). pose proof (rec_id _ Hrec) as Hid. cbn [andb String.eqb eqs_refl].
assert (replay_payload s (ev_Payload (se_event e)) !! id =
  if ev_AggregateID (se_event e) =s id then expense_step (s !! id) (ev_Payload (se_event e)) else s !! id) as ->;
  [|by destruct (_ =s id)].
destruct (String.eqb_spec (ev_AggregateID (se_event e)) id) as [<-|Hne];
  destruct (ev_Payload (se_event e)); try done; injection Hid as Hid; cbn; unfold ExpenseStore in *.
1,2: by rewrite <- Hid, lookup_insert_eq.
- by rewrite <- Hid, lookup_alter_eq.
- by rewrite lookup_insert_ne by congruence.
- by rewrite lookup_insert_ne by congruence.
- by rewrite lookup_alter_ne by congruence.
Qed.

(** The contributions a projection keeps after one more message. *)
Definition tell (l : gmap string ExpenseContribution) (m : Message) : gmap string ExpenseContribution :=
  if AggregateType m =s "expense" then
    match DecodeExpenseContribution (EventType m) (Payload m) with
    | inr (c, true) =>
        if ec_Active c then <[ec_ExpenseID c := c]> l else alter (λ p, p <| ec_Active := false |>) (ec_ExpenseID c) l
    | _ => l
    end
  else l.

(** What a message about an expense says. *)
Lemma expense_message m e : carries m e → expense_event e → AggregateType m = "expense" ∧
  DecodeExpenseContribution (EventType m) (Payload m) =
    match payload_contribution (ev_Payload (se_event e)) with
    | Some c => inr (c, true) | None => inr (zero_contribution, false) end ∧
  ∀ c, payload_contribution (ev_Payload (se_event e)) = Some c → ec_ExpenseID c = ev_AggregateID (se_event e).
Proof using Type.
intros (_ & Hty & Hp & Hat & _) (Hrec & Hpay & Hwf & _). rewrite Hat, Hty, Hp, Hpay, (rec_event _ Hrec).
rewrite decode_contribution by done. split; [exact (rec_type _ Hrec)|]. pose proof (rec_id _ Hrec) as Hid.
split; [by destruct (payload_contribution _)|]. intros c Hcon.
destruct (ev_Payload (se_event e)); try done; injection Hcon as <-; by injection Hid as <-.
Qed.

Lemma told_at ms es id l : Forall2 carries ms es → Forall faithful es →
  foldl tell l ms !! id = foldl contribution_step (l !! id) (payloads (events_of id es)).
Proof using Type.
intros Hall Hf. revert l. induction Hall as [|m e ms es Hc _ IH]; intros l; [done|].
apply Forall_cons in Hf as [Hf Hfs]. cbn [foldl]. rewrite (IH Hfs). unfold events_of, events_about. cbn [List.filter fst snd].
destruct Hf as [He|[Hty _]].
2: { rewrite eqs_ne by done. unfold tell. destruct Hc as (_ & _ & _ & -> & _). by rewrite eqs_ne. }
destruct (expense_message m e Hc He) as (Hat & Hdec & Hkey). rewrite (rec_type _ (proj1 He)). cbn [andb String.eqb].
assert (tell l m !! id = if ev_AggregateID (se_event e) =s id
  then contribution_step (l !! id) (ev_Payload (se_event e)) else l !! id) as ->; [|by destruct (_ =s id)].
unfold tell, contribution_step. rewrite Hat, Hdec. cbn [String.eqb].
destruct (payload_contribution _) as [c|]; [|by destruct (_ =s id)]. specialize (Hkey c eq_refl). cbn in *.
destruct (ec_Active c); rewrite Hkey; destruct (String.eqb_spec (ev_AggregateID (se_event e)) id) as [<-|Hne].
- by rewrite lookup_insert_eq.
- by rewrite lookup_insert_ne.
- by rewrite lookup_alter_eq.
- by rewrite lookup_alter_ne.
Qed.
End Ledgers.

Section Mirror.
Context `{GoRuntime}.

(** Caught up, the contributions kept are those of the ledger. *)
Lemma told_mirrors p b w log id : Process b w log → has_subscription p w → caught_up p (w_events w) = true →
  matchesAggregateType "expense" (AggregateTypes (projection_handler p)) = true →
  mirrors (w_expenses w !! id) (foldl tell ∅ (applied_by (Name (projection_handler p)) log) !! id).
Proof using Type.
intros Hp Hsub Hup Hm. destruct (carried_events p b w log Hp) as (es & Hes & Hin).
rewrite (told_at _ es id ∅ Hes).
2: { eapply Forall_impl; [exact Hin|]. apply (pr_events _ _ _ Hp). }
unfold events_of. rewrite (applied_all p ("expense", id) b w log es Hp Hes Hin Hsub Hup Hm).
destruct (pr_expenses _ _ _ Hp) as [_ ->]. unfold replay, Events. rewrite replay_at.
- apply mirrors_steps. change (mirrors None None). by intros c'.
- apply Forall_forall. apply (pr_events _ _ _ Hp).
Qed.

(** The contributions of the expenses as they stand. *)
Definition contributions (w : World) : gmap string ExpenseContribution := contribution_of <$> w_expenses w.

(** What counts active contributions only cannot tell the two apart. *)
Lemma mirrors_agree {B} (f : ExpenseContribution → B) (z : B) o c : (∀ c, ec_Active c = false → f c = z) → mirrors o c →
  from_option f z c = from_option f z (contribution_of <$> o).
Proof using Type.
intros Hf. assert ((∀ c', c = Some c' → ec_Active c' = false) → from_option f z c = z) as Hz.
{ destruct c as [c'|]; [|done]. intros Hc. cbn. by apply Hf, Hc. }
unfold mirrors. destruct o as [e|]; cbn; [|done]. destruct (ex_DeletedAt e) eqn:Hd; [|by intros ->].
intros Hm. rewrite (Hz Hm). symmetry. apply Hf. unfold contribution_of. cbn. by rewrite Hd.
Qed.
End Mirror.

(** ** Sums over contributions *)

Section Totals.
Context {C : Type} (share : C → Z) (T : gmap string C → Z).
Context (Hempty : T ∅ = 0) (Hinsert : ∀ m id c, m !! id = None → T (<[id := c]> m) = share c + T m).

Lemma total_delete m id : T m = from_option share 0 (m !! id) + T (delete id m).
Proof using Hinsert.
destruct (m !! id) as [c|] eqn:Hm; cbn; [|by rewrite delete_id].
rewrite <- (insert_delete_id m id c Hm) at 1. apply Hinsert, lookup_delete_eq.
Qed.

(** Maps with the same shares have the same sum. *)
Lemma totals_agree m1 m2 : (∀ id, from_option share 0 (m1 !! id) = from_option share 0 (m2 !! id)) → T m1 = T m2.
Proof using Hempty Hinsert.
revert m2. induction m1 as [|id c m1 Hid IH] using map_ind; intros m2 Hm.
- assert (∀ m, (∀ id, from_option share 0 (m !! id) = 0) → T m = 0) as Hz.
  { clear m2 Hm. induction m as [|id c m Hid IH] using map_ind; intros Hm; [done|]. rewrite Hinsert by done.
    pose proof (Hm id) as Hc. rewrite lookup_insert_eq in Hc. cbn in Hc. rewrite Hc. apply IH.
    intros i. destruct (decide (i = id)) as [->|Hne]; [by rewrite Hid|]. specialize (Hm i). by rewrite lookup_insert_ne in Hm. }
  rewrite Hempty. symmetry. apply Hz. intros id. by rewrite <- Hm, lookup_empty.
- rewrite Hinsert by done. rewrite (total_delete m2 id), <- Hm, lookup_insert_eq. cbn. f_equal. apply IH.
  intros i. destruct (decide (i = id)) as [->|Hne]; [by rewrite Hid, lookup_delete_eq|].
  by rewrite lookup_delete_ne, <- Hm, lookup_insert_ne.
Qed.
End Totals.
