(* ===== verification/Convergence.v ===== *)
(** * The analytics read model converges

    In one process the buckets of an analytics projection that has caught up are the
    sums over the expenses of the ledger. *)

From S2P Require Export Prelude GoTime GoStrings Domain Json Outbox UnitOfWork EventStore EventOrder AnalyticsProjection.
From S2P Require Export Ports World Expenses ExpenseLog BudgetUsage AuditTrail Process Draining Ledger.
#[global] Open Scope Z_scope.

(** A part of the state sees the same computation as the whole. *)
Section Zoom.
Context {W S : Type} (l : Lens W S) `{!LensLaws l}.

Lemma zoom_bind {A B} (m : M S A) (k : A → M S B) w :
  zoom l (m ≫= k) w = (zoom l m ≫= λ a, zoom l (k a)) w.
Proof using All.
unfold zoom, mbind, M_bind. destruct (m (lens_get l w)) as [s [e|a]]; [done|]. rewrite lens_get_set.
destruct (k a s) as [s' r]. by rewrite lens_set_set.
Qed.
Lemma zoom_ret {A} (a : A) w : zoom l (mret a) w = (w, inr a).
Proof using All. unfold zoom, mret, M_ret. by rewrite lens_set_get. Qed.
Lemma zoom_throw {A} e w : zoom l (throw (A:=A) e) w = (w, inl e).
Proof using All. unfold zoom, throw. by rewrite lens_set_get. Qed.
Lemma zoom_map_err {A} f (m : M S A) w : zoom l (map_err f m) w = map_err f (zoom l m) w.
Proof using All. unfold zoom, map_err. by destruct (m (lens_get l w)) as [s [e|a]]. Qed.

Lemma bind_ext {A B} (m m' : M W A) (k k' : A → M W B) w :
  m w = m' w → (∀ a w, k a w = k' a w) → (m ≫= k) w = (m' ≫= k') w.
Proof using Type. intros Hm Hk. unfold mbind, M_bind. rewrite Hm. destruct (m' w) as [w' [e|a]]; [done|apply Hk]. Qed.
Lemma map_err_ext {A} f (m m' : M W A) w : m w = m' w → map_err f m w = map_err f m' w.
Proof using Type. intros Hm. unfold map_err. by rewrite Hm. Qed.
Lemma zoom_for_each {A} (body : A → M S ()) (body' : A → M W ()) xs w :
  (∀ x w, zoom l (body x) w = body' x w) → zoom l (for_each body xs) w = for_each body' xs w.
Proof using All.
intros Hb. revert w. induction xs as [|x xs IH]; intros w; [apply zoom_ret|]. cbn [for_each].
rewrite zoom_bind. by apply bind_ext.
Qed.
End Zoom.


Section Convergence.
Context `{GoRuntime}.

#[local] Instance L_analytics_laws : LensLaws L_analytics.
Proof. split; [reflexivity|by intros []|reflexivity]. Qed.

Ltac zoomed := first
  [ rewrite (zoom_bind L_analytics); apply bind_ext; [|intros ? ?]
  | rewrite (zoom_map_err L_analytics); apply map_err_ext
  | apply (zoom_ret L_analytics) | apply (zoom_throw L_analytics)
  | apply (zoom_for_each L_analytics); intros ? ?
  | reflexivity ].

Lemma analytics_zoomed m w : Handle_analytics (W:=World) m w = zoom L_analytics (Handle_analytics m) w.
Proof using Type.
symmetry. unfold Handle_analytics, adjust.
destruct (DecodeExpenseContribution _ _) as [e|[next [|]]]; [zoomed| |zoomed].
repeat (zoomed || (match goal with x : ExpenseContribution * bool |- _ => destruct x end) || case_match).
Qed.

(** The handler takes a message. *)
Definition accepted (m : Message) : Prop :=
  match DecodeExpenseContribution (EventType m) (Payload m) with
  | inr (next, true) => ec_Active next = true → validateContribution next = None
  | inr (_, false) => True
  | inl _ => False
  end.

Lemma handled_accepted m (s s' : AnalyticsState) : Handle_analytics m s = (s', inr ()) → accepted m.
Proof using Type.
unfold accepted. destruct (DecodeExpenseContribution _ _) as [e|[next [|]]] eqn:Hd; [|..|done].
- unfold Handle_analytics. by rewrite Hd.
- rewrite (Handle_analytics_spec m s next Hd). unfold apply_contribution. intros Ha Hact. rewrite Hact in Ha. cbn in Ha.
  by destruct (validateContribution next).
Qed.

(** In its unit the handler changes the read model as one delivery does. *)
Lemma analytics_handled m w : let run := world_within (Handle_analytics m) w in
  match run.2 with
  | inl _ => w_analytics run.1 = w_analytics w
  | inr _ => w_analytics run.1 = deliver (w_analytics w) m ∧ accepted m
  end.
Proof using Type.
unfold world_within, Within, world_unit, memory_UnitOfWork, memory_Within, background. cbv zeta.
rewrite analytics_zoomed. unfold zoom, deliver, memory_Within, background. cbn [lens_get L_analytics].
destruct (Handle_analytics m (w_analytics w)) as [s' [e|[]]] eqn:Hr; [done|].
split; [done|]. by eapply handled_accepted.
Qed.

Lemma analytics_view w w' : views w' = views w → w_analytics w' = w_analytics w.
Proof using Type. intros Hv. exact (f_equal (λ x, x.1.1.2) Hv). Qed.

Lemma other_handled q m w : q ≠ AnalyticsProjection →
  w_analytics (world_within (Handle (projection_handler q) m) w).1 = w_analytics w.
Proof using Type.
intros Hp. apply within_spares; [exact analytics_view|].
destruct q; [done|..]; cbn [projection_handler]; unfold budget_usage_handler, audit_handler; cbn [Handle].
- unfold Handle_budget_usage, handleExpense, handleBudget, affectedWindows, recompute, recompute_window, queueAlert.
  repeat first [lifted_step (keeping w_analytics)|solve [by intros ?]]. intros v. cbn. by case_match.
- unfold Handle_audit. repeat first [lifted_step (keeping w_analytics)|solve [by intros ?]].
Qed.

(** The read model is what its deliveries made it, each of an acceptable message. *)
Definition delivered_model (ms : list Message) (s : AnalyticsState) : Prop :=
  s = foldl deliver NewAnalyticsRepository ms ∧ Forall (λ m, accepted m ∧ AggregateType m = "expense") ms.

Lemma delivered_step ms m e w : let run := world_within (Handle (projection_handler AnalyticsProjection) m) w in
  delivered_model ms (w_analytics w) → carries m e → faithful e → any_event e →
  matchesAggregateType (AggregateType m) (AggregateTypes (projection_handler AnalyticsProjection)) = true →
  run.2 = inr () → delivered_model (ms ++ [m]) (w_analytics run.1).
Proof using Type.
cbv zeta. intros [Hs Hall] _ _ _ Hty Hok. pose proof (analytics_handled m w) as Hh. cbv zeta in Hh.
change (Handle_analytics m) with (Handle (projection_handler AnalyticsProjection) m) in Hh. rewrite Hok in Hh.
destruct Hh as [-> Hacc]. split; [by rewrite foldl_app, <- Hs|]. apply Forall_app. split; [done|].
constructor; [|done]. split; [done|]. change (str_in (AggregateType m) ["expense"] = true) in Hty.
by apply str_in_spec, list_elem_of_singleton in Hty.
Qed.

Lemma accepted_told ms l : Forall (λ m, accepted m ∧ AggregateType m = "expense") ms → foldl ledger_step l ms = foldl tell l ms.
Proof using Type.
intros Hms. revert l. induction Hms as [|m ms [Hacc Hty] _ IH]; intros l; [done|]. cbn [foldl]. rewrite IH. f_equal.
unfold tell, ledger_step, accepted in *. rewrite Hty, eqs_refl. destruct (DecodeExpenseContribution _ _) as [?|[c []]]; [done| |done].
destruct (ec_Active c); [by rewrite Hacc|done].
Qed.

(** ** The buckets *)

(** The bucket holds the amounts and the number of the live expenses of its key. *)
Definition agrees (w : World) (k : rollupKey) : Prop :=
  held ru_AmountMinor (w_analytics w) k = wrap64 (AnalyticsProjection.total rd_AmountMinor k (contributions w)) ∧
  held ru_ExpenseCount (w_analytics w) k = wrap64 (AnalyticsProjection.total rd_ExpenseCount k (contributions w)).

Lemma buckets_ledger b w log : Process b w log → modelled AnalyticsProjection w_analytics delivered_model w log →
  has_subscription AnalyticsProjection w → caught_up AnalyticsProjection (w_events w) = true →
  ∀ k, agrees w k.
Proof using Type.
intros Hp [Han Hacc] Hsub Hup k. unfold agrees. rewrite Han.
set (ms := applied_by _ log) in *.
destruct (deliver_all ms NewAnalyticsRepository Projected_empty) as [[_ Ha Hc] Hl].
assert (∀ part, AnalyticsProjection.total part k (an_contributions (foldl deliver NewAnalyticsRepository ms)) =
  AnalyticsProjection.total part k (contributions w)) as Ht; [|split; [rewrite Ha|rewrite Hc]; by rewrite Ht].
intros part. rewrite Hl, accepted_told by done.
apply (totals_agree (share part k)); [done|by intros; apply total_insert|]. intros id. unfold contributions. rewrite lookup_fmap.
apply mirrors_agree; [intros c Hin; unfold share; by rewrite Hin|].
exact (told_mirrors AnalyticsProjection b w log id Hp Hsub Hup eq_refl).
Qed.

Abbreviation analytics_kept := (modelled AnalyticsProjection w_analytics delivered_model).

Lemma analytics_modelled_act b a wl : Process b wl.1 wl.2 → analytics_kept wl.1 wl.2 → analytics_kept (act a wl).1 (act a wl).2.
Proof using Type.
intros Hp. by apply (modelled_act _ _ _ _ analytics_view other_handled delivered_step b _ _ Hp).
Qed.

Lemma analytics_modelled_polls b polls wl : Process b wl.1 wl.2 → analytics_kept wl.1 wl.2 →
  let wl' := foldl (λ wl a, act a wl) wl (polling polls) in analytics_kept wl'.1 wl'.2.
Proof using Type.
intros Hp Hm. apply (modelled_polls _ _ _ _ analytics_view other_handled delivered_step b); [apply polling_polls|done..].
Qed.

Lemma analytics_modelled actions w : fresh w → Forall proper actions → Z.of_nat (length actions) ≤ max_int64 →
  let wl := act_all actions w in ∃ b, Process b wl.1 wl.2 ∧ analytics_kept wl.1 wl.2.
Proof using Type.
intros Hw. apply (modelled_all _ _ _ any_event analytics_view other_handled delivered_step); [done..|].
split; [apply (fresh_analytics _ Hw)|done].
Qed.

(** [C6] The analytics read model is the ledger of expenses.  In one process, after any
    expense commands, events of other services, polls of the projections by any workers
    with any policy, failures, requeues and registrations in any order: whenever the analytics projection has
    applied what is queued for it, every bucket holds exactly the amounts and the
    number of the expenses that are live in it, modulo 2^64. *)
Theorem analytics_converges actions w k : fresh w → Forall proper actions →
  Z.of_nat (length actions) ≤ max_int64 → let w' := (act_all actions w).1 in
  has_subscription AnalyticsProjection w' → caught_up AnalyticsProjection (w_events w') = true →
  agrees w' k.
Proof using Type.
intros Hw Hpr Hlen w' Hsub Hup.
destruct (analytics_modelled actions w Hw Hpr Hlen) as (b & Hp & Hm). exact (buckets_ledger b w' _ Hp Hm Hsub Hup k).
Qed.
End Convergence.

Module Sample.
Import World.Sample ExpenseLog.Sample.
#[local] Existing Instance default_runtime.

(** Two expenses, one edited, one attempt on another's; registration after the first
    event, two workers. *)
Definition actions : list Action :=
  [Command (CmdCreate "ann" coffee); Subscribe AnalyticsProjection; Command (CmdUpdate "ann" "id" coffee);
   Command (CmdCreate "ann" coffee); Subscribe AuditProjection; Poll AuditProjection DefaultPolicy "w1";
   Poll AnalyticsProjection DefaultPolicy "w1"; Poll AnalyticsProjection DefaultPolicy "w2"; Command (CmdDelete "bob" "id")].
Definition polls : list Action := [Poll AnalyticsProjection DefaultPolicy "w1"].
Definition today : rollupKey :=
  mkRollupKey "ann" 864345600000000000 "day" "0197c1a0-0000-4000-8000-000000000002" "EUR" false.

Lemma empty_fresh : fresh empty_world.
Proof. by split. Qed.

(** Before the last poll the read model is one expense behind, after it both agree. *)
Lemma analytics_converges_witness :
  let before := (act_all actions empty_world).1 in let after := (act_all (actions ++ polls) empty_world).1 in
  caught_up AnalyticsProjection (w_events before) = false ∧ held ru_AmountMinor (w_analytics before) today = 350 ∧
  agrees after today ∧ held ru_AmountMinor (w_analytics after) today = 700.
Proof.
assert (Forall proper (actions ++ polls)) as Hall by (by repeat (apply Forall_cons; split; [done|])).
cbv zeta. split; [vm_compute; reflexivity|]. split; [vm_compute; reflexivity|]. split; [|vm_compute; reflexivity].
apply (analytics_converges (actions ++ polls) empty_world today).
- exact empty_fresh.
- exact Hall.
- by vm_compute.
- assert (bool_decide (is_Some (es_subscriptions (w_events (act_all (actions ++ polls) empty_world).1) !! AnalyticsProjectionName)) = true) as Hb
    by (vm_compute; reflexivity).
  by apply bool_decide_eq_true in Hb.
- vm_compute. reflexivity.
Defined.
End Sample.
