(* ===== verification/CatchUp.v ===== *)
(** * The analytics projection catches up

    When every expense command names a category, no message about an expense is
    refused: each poll of the analytics engine applies one, so as many polls as the
    queue holds messages bring the read model up to date.  An expense without a
    category, which the service accepts, ends the other way. *)

From S2P Require Export Prelude GoTime GoStrings Domain Json Outbox UnitOfWork EventStore EventOrder AnalyticsProjection.
From S2P Require Export Ports World Expenses ExpenseLog AuditTrail Process Draining Ledger Convergence.
#[global] Open Scope Z_scope.

(** The projection will not refuse the event. *)
Definition countable (p : EventPayload) : Prop :=
  ∀ c, payload_contribution p = Some c → ec_Active c = true → validateContribution c = None.
Definition counted_event (e : storedEvent) : Prop := countable (ev_Payload (se_event e)).

(** Everything a process does, with every expense put in a category. *)
Definition orderly (a : Action) : Prop :=
  proper a ∧ match a with Command c => categorizes c | _ => True end.

Section CatchUp.
Context `{GoRuntime}.

Lemma valid_countable e : validateExpense e = None → has_category e → validateContribution (contribution_of e) = None.
Proof using Type.
unfold validateExpense, validateContribution, has_category, contribution_of. cbn.
destruct (ex_OwnerID e =s "") eqn:Ho; [done|]. intros Hv Hc. rewrite eqs_ne by done.
destruct (String.eqb_spec (ex_Currency e) "") as [Heq|_]; [rewrite Heq in Hv; cbn in Hv; by rewrite !orb_true_r in Hv|].
destruct (IsZero (ex_OccurredAt e)); [by rewrite !orb_true_r in Hv|done].
Qed.

Lemma allowed_countable o s p : allowed o s p → categorized p → countable p.
Proof using Type.
intros Ha Hc c. destruct p; try done; cbn in *.
- intros [= <-] _. destruct Ha as (Hv & _). by apply valid_countable.
- intros [= <-] _. destruct Ha as (Hv & _). by apply valid_countable.
- by intros [= <-].
Qed.

(** The projection takes every countable message. *)
Lemma analytics_takes m e w : carries m e → expense_event e → countable (ev_Payload (se_event e)) →
  (world_within (Handle (projection_handler AnalyticsProjection) m) w).2 = inr ().
Proof using Type.
intros Hca He Hc. destruct (expense_message m e Hca He) as (_ & Hd & _).
change (Handle (projection_handler AnalyticsProjection) m) with (Handle_analytics (W:=World) m).
unfold world_within, Within, world_unit, memory_UnitOfWork, memory_Within, background.
rewrite analytics_zoomed. unfold zoom. cbn [lens_get L_analytics].
destruct (payload_contribution (ev_Payload (se_event e))) as [c|] eqn:Hcon.
- rewrite (Handle_analytics_spec m _ c Hd). unfold apply_contribution.
  destruct (ec_Active c) eqn:Ha; cbn [negb].
  + by rewrite (Hc c Hcon Ha).
  + by destruct (an_contributions _ !! _).
- unfold Handle_analytics. by rewrite Hd.
Qed.

Lemma counted_taken m e w : carries m e → faithful e → counted_event e →
  matchesAggregateType (AggregateType m) (AggregateTypes (projection_handler AnalyticsProjection)) = true →
  (world_within (Handle (projection_handler AnalyticsProjection) m) w).2 = inr ().
Proof using Type.
intros Hc Hf Hcount Hty. eapply analytics_takes; [exact Hc| |exact Hcount].
change (str_in (AggregateType m) ["expense"] = true) in Hty. apply str_in_spec, list_elem_of_singleton in Hty.
destruct Hf as [|[Hne _]]; [done|]. destruct Hc as (_ & _ & _ & Hc & _). congruence.
Qed.

(** What a process records when every expense is put in a category. *)
Definition all_counted (w : World) : Prop :=
  (∀ e, e ∈ es_events (w_events w) → counted_event e) ∧ all_categorized (w_expenses w).

(** Only commands change the expenses, and an orderly one leaves them in categories. *)
Lemma categorized_act b a wl : Process b wl.1 wl.2 → all_categorized (w_expenses wl.1) → orderly a →
  all_categorized (w_expenses (act a wl).1).
Proof using Type.
destruct wl as [w log]. cbn [fst snd]. intros Hp Hcat [_ Hc]. destruct a as [c|ev|q|q policy worker|id]; cbn [act].
- destruct Hp as [_ _ _ _ _ _ [Hwf _] _ Hids].
  pose proof (command_records (w_events w) (sources w) (w_expenses w) Hids True c ltac:(done) w (conj eq_refl eq_refl)) as Hr.
  pose proof (command_hoare c _ _ Hwf w (conj eq_refl eq_refl)) as Hh.
  destruct (run_expense c w) as [w' [x|x]]; cbn [fst] in *; [by destruct Hh as [-> _]|].
  destruct Hr as ((ev & _ & Hcev & Hap) & _), Hh as (ev' & _ & -> & Hevs).
  pose proof (append_events _ _ _ Hap) as Hevs'. rewrite Hevs' in Hevs. apply app_inj_tail in Hevs as [_ <-].
  specialize (Hcev I). unfold all_categorized, ExpenseStore in *. intros id e.
  destruct (ev_Payload ev); try exact (Hcat id e); cbn in *; rewrite ?lookup_insert_Some, ?lookup_alter_Some.
  + intros [[<- <-]|[_ Hl]]; [done|by eapply Hcat].
  + intros [[<- <-]|[_ Hl]]; [done|by eapply Hcat].
  + intros [(<- & y & Hx & ->)|[_ Hl]]; [exact (Hcat _ _ Hx)|by eapply Hcat].
- unfold zoom. by destruct (EventStore.Append _ _).
- unfold zoom. by destruct (EventStore.EnsureSubscription _ _).
- destruct (poll_effect q policy worker w) as (w' & r & -> & Hst & _).
  pose proof (f_equal (λ x, x.1.2) Hst) as Hx. cbn [still fst snd] in Hx. cbn [fst]. by rewrite Hx.
- unfold zoom. by destruct (EventStore.RequeueDeadLetter _ _).
Qed.

Lemma all_counted_act b a wl : Process b wl.1 wl.2 → all_counted wl.1 → orderly a → b < max_int64 → all_counted (act a wl).1.
Proof using Type.
intros Hp [Hcount Hcat] Ha Hb. split; [|by eapply categorized_act]. intros e He.
destruct (act_events b a wl e Hp Hb He) as [Hold|Hnew]; [by apply Hcount|]. destruct Ha as [Hpr Hc]. unfold counted_event.
destruct a as [c|ev| | |]; try done.
- destruct Hnew as (_ & Hcev & Hall). by eapply allowed_countable, Hcev.
- rewrite Hnew. destruct Hpr as [_ Hpay]. intros x Hcon. by destruct (ev_Payload ev).
Qed.

Record Healthy (b : Z) (w : World) (log : handled) : Prop := {
  he_flowing : Flowing AnalyticsProjection counted_event b w log;
  he_counted : all_counted w;
  he_model : modelled AnalyticsProjection w_analytics delivered_model w log
}.

Lemma Healthy_act b a wl : Healthy b wl.1 wl.2 → orderly a → b < max_int64 → Healthy (b + 1) (act a wl).1 (act a wl).2.
Proof using Type.
intros [Hf Hc Hm] Ha Hb. pose proof (fl_process _ _ _ _ _ Hf) as Hp.
pose proof (all_counted_act b a wl Hp Hc Ha Hb) as Hc'. split; [|exact Hc'|by eapply analytics_modelled_act].
apply (Flowing_act _ _ counted_taken); [exact Hf|apply Ha|exact Hb|apply Hc'].
Qed.

Lemma Healthy_all actions w : fresh w → timely w → Forall orderly actions → Z.of_nat (length actions) ≤ max_int64 →
  ∃ b, Healthy b (act_all actions w).1 (act_all actions w).2.
Proof using Type.
intros Hf Ht. apply (act_all_ind Healthy orderly); [by apply Healthy_act|]. split.
- by apply Flowing_fresh.
- split; [rewrite (fresh_events _ Hf); by intros e ?%elem_of_nil|]. rewrite (fresh_expenses _ Hf).
  intros id e Hl. by apply lookup_empty_Some in Hl.
- split; [apply (fresh_analytics _ Hf)|done].
Qed.

(** [C7] The analytics read model catches up.  In one process whose expense commands
    all name a category, whatever else happened (polls, events of other services,
    requeues, registrations): once the analytics engine has been polled as often as it
    had messages, by any workers under any policy and among any polls of the others,
    every bucket holds exactly the expenses of the ledger as the commands left it. *)
Theorem analytics_catches_up actions polls w k : fresh w → timely w → Forall orderly actions →
  Z.of_nat (length actions) ≤ max_int64 → let before := (act_all actions w).1 in
  has_subscription AnalyticsProjection before →
  (backlog AnalyticsProjection (w_events before) ≤ own AnalyticsProjection polls)%nat →
  let after := (act_all (actions ++ polling polls) w).1 in
  caught_up AnalyticsProjection (w_events after) = true ∧ w_expenses after = w_expenses before ∧ agrees after k.
Proof using Type.
intros Hf Ht Hor Hlen before Hsub Hb after. destruct (Healthy_all actions w Hf Ht Hor Hlen) as (b & [Hfl Hc Hm]).
destruct (drained _ _ counted_taken b actions polls w Hfl Hb) as (Hf' & Hup & Hst).
split; [exact Hup|]. split; [exact (f_equal (λ x, x.1.2) Hst)|].
apply (buckets_ledger b _ (act_all (actions ++ polling polls) w).2); [apply (fl_process _ _ _ _ _ Hf')| | |exact Hup].
- subst after. unfold act_all. rewrite foldl_app. apply (analytics_modelled_polls b); [exact (fl_process _ _ _ _ _ Hfl)|exact Hm].
- pose proof (f_equal (λ x, x.1.1.2) Hst) as Hsu. cbn [still fst snd] in Hsu. unfold has_subscription, after. rewrite Hsu. exact Hsub.
Qed.
End CatchUp.

(** ** When nothing needs a category

    The expense service takes an expense without one; the projection does not. *)
Section Uncategorized.
Context `{GoRuntime}.

Lemma uncategorized_refused e : validateExpense e = None → ex_DeletedAt e = None → ex_CategoryID e = "" →
  validateContribution (contribution_of e) ≠ None ∧
  ∀ m (s : AnalyticsState), DecodeExpenseContribution (EventType m) (Payload m) = inr (contribution_of e, true) →
    ∃ err, (Handle_analytics m s).2 = inl err.
Proof using Type.
intros Hv Hd Hc.
assert (validateContribution (contribution_of e) ≠ None) as Hno.
{ unfold validateContribution. cbn. destruct (ex_OwnerID e =s ""); [done|]. by rewrite Hc. }
split; [exact Hno|]. intros m s Hm. rewrite (Handle_analytics_spec m s _ Hm). unfold apply_contribution.
assert (ec_Active (contribution_of e) = true) as -> by (by apply bool_decide_true). cbn [negb].
destruct (validateContribution _) eqn:Hval; [by eexists|done].
Qed.

(** ** The lag counts what no poll takes

    Every event is queued for every subscription; of those of another aggregate type
    the claim takes none and the lag counts all. *)
Lemma foreign_lag s d : d ∈ es_deliveries s → d_status d = deliveryPending →
  matchesAggregateType (ev_AggregateType (se_event (d_event d))) (AggregateTypes analytics_handler) = false →
  d_subscription d = AnalyticsProjectionName → deadBlockedLocked (es_deliveries s) d = false →
  0 < EventStore.Lag AnalyticsProjectionName s ∧
  ∀ lease now, EventStore.claimable AnalyticsProjectionName (AggregateTypes analytics_handler) lease now d = false.
Proof using Type.
intros Hd Hst Hty Hsub Hb. split.
- assert (EventStore.Lag AnalyticsProjectionName s ≠ 0) as Hne.
  { intros Hl. rewrite (proj1 (Lag_zero_iff _ _) Hl d Hd Hsub Hst) in Hb. done. }
  unfold EventStore.Lag in *. lia.
- intros lease now. unfold claimable. by rewrite Hty, andb_false_r.
Qed.
End Uncategorized.

Module Sample.
Import World.Sample ExpenseLog.Sample Convergence.Sample.
#[local] Existing Instance default_runtime.

Lemma coffee_orderly : Forall orderly Convergence.Sample.actions.
Proof. by repeat (apply Forall_cons; split; [by split|]). Qed.

Lemma empty_timely : timely empty_world.
Proof. intros n. change (0 ≤ 63000000000 * Second + Z.of_nat n * Second). unfold Second, Millisecond. lia. Qed.

Definition last_polls : list (Projection * Policy * string) :=
  [(AuditProjection, DefaultPolicy, "w1"); (AnalyticsProjection, DefaultPolicy, "w3")].

Lemma analytics_catches_up_witness :
  let before := (act_all Convergence.Sample.actions empty_world).1 in
  let after := (act_all (Convergence.Sample.actions ++ polling last_polls) empty_world).1 in
  backlog AnalyticsProjection (w_events before) = 1%nat ∧ held ru_AmountMinor (w_analytics before) today = 350 ∧
  (caught_up AnalyticsProjection (w_events after) = true ∧ w_expenses after = w_expenses before ∧ agrees after today).
Proof.
cbv zeta. split; [vm_compute; reflexivity|]. split; [vm_compute; reflexivity|].
apply (analytics_catches_up Convergence.Sample.actions last_polls empty_world today).
- exact empty_fresh.
- exact empty_timely.
- exact coffee_orderly.
- by vm_compute.
- assert (bool_decide (is_Some (es_subscriptions (w_events (act_all Convergence.Sample.actions empty_world).1) !! AnalyticsProjectionName)) = true) as Hb
    by (vm_compute; reflexivity).
  by apply bool_decide_eq_true in Hb.
- apply Nat.leb_le. vm_compute. reflexivity.
Defined.

(** The same expense without a category, through the service and a queue that is
    polled every hour, by every attempt its policy allows and more. *)
Definition uncategorized : CreateExpenseCommand := 
  mkCreateExpenseCommand "Coffee" "EUR" "" "" "" "" "" 350 (63000000000 * Second) [] "" [] None None.
Definition hourly : World := empty_world <| w_clock := λ n, 63000000000 * Second + Z.of_nat n * Hour |>.
Definition stalled : World := (act_all ([Subscribe AnalyticsProjection; Command (CmdCreate "ann" uncategorized);
  Command (CmdUpdate "ann" "id" coffee)] ++ polling (repeat (AnalyticsProjection, DefaultPolicy, "w1") 20)) hourly).1.

(** It is dead-lettered; giving it a category afterwards does not help. *)
Example uncategorized_stalls :
  map d_status (es_deliveries (w_events stalled)) = [deliveryDead; deliveryPending] ∧
  backlog AnalyticsProjection (w_events stalled) = 2%nat ∧ map_size (an_rollups (w_analytics stalled)) = O ∧
  ex_CategoryID <$> w_expenses stalled !! "id" = Some (c_CategoryID coffee).
Proof. vm_compute. split_and!; reflexivity. Qed.

(** A budget's event stays in the lag of the analytics projection. *)
Definition budget_set : DomainEvent :=
  let removed := BudgetRemoved "b1" "ann" (63000000000 * Second) in
  mkDomainEvent "e1" "budget" "b1" (event_type_of removed) removed 0 "ann".
Definition lagging : World := (act_all ([Subscribe AnalyticsProjection; Other budget_set] ++
  polling (repeat (AnalyticsProjection, DefaultPolicy, "w1") 5)) empty_world).1.
Example lag_never_drains :
  caught_up AnalyticsProjection (w_events lagging) = true ∧ EventStore.Lag AnalyticsProjectionName (w_events lagging) = 1.
Proof. vm_compute. split; reflexivity. Qed.
End Sample.
