(* ===== verification/AuditLog.v ===== *)
(** * The audit trail is the log

    The audit projection refuses no message, so it always catches up; the trail then
    has exactly one entry for every event recorded, saying who did what to what, and
    when. *)

From S2P Require Export Prelude GoTime GoStrings Domain Json Outbox UnitOfWork EventStore EventOrder.
From S2P Require Export Ports MemoryStores World Expenses ExpenseLog AuditTrail Process Draining.
#[global] Open Scope Z_scope.

(** The entry an event is due. *)
Definition entry_of (e : storedEvent) : AuditEntry :=
  let ev := se_event e in
  mkAuditEntry (ev_ID ev) (ev_ActorID ev) (ev_EventType ev) (ev_AggregateType ev) (ev_AggregateID ev)
    (list_to_map [("aggregate_version", Itoa (se_version e)); ("global_seq", Itoa (se_globalSeq e))])
    (FromUnixMilli (ev_OccurredAt ev)).

(** Every event recorded has an identity of its own. *)
Definition identified (es : list storedEvent) : Prop :=
  NoDup (map (λ e, ev_ID (se_event e)) es) ∧ ∀ e, e ∈ es → ev_ID (se_event e) ≠ "".

Section AuditLog.
Context `{GoRuntime}.

(** ** The trail as the messages make it *)

Definition trail (w : World) : list AuditEntry * gmap string () := (as_entries (w_audit w), as_byEvent (w_audit w)).
Definition entered (ms : list Message) (t : list AuditEntry * gmap string ()) : Prop :=
  ∃ n, let s := foldl (λ s m, memory_AppendEntry (audit_entry m) s) (mkAuditStore [] ∅ n) ms in
  t = (as_entries s, as_byEvent s).

(** The sequence number decides nothing. *)
Lemma append_entry_seq e s s' : as_entries s = as_entries s' → as_byEvent s = as_byEvent s' →
  as_entries (memory_AppendEntry e s) = as_entries (memory_AppendEntry e s') ∧
  as_byEvent (memory_AppendEntry e s) = as_byEvent (memory_AppendEntry e s').
Proof using Type.
intros He Hb. unfold memory_AppendEntry, add_entry. rewrite Hb. destruct (_ ≠s _); [destruct (_ !! _)|]; cbn; by rewrite ?He, ?Hb.
Qed.

Lemma trail_view w w' : views w' = views w → trail w' = trail w.
Proof using Type. intros Hv. exact (f_equal snd Hv). Qed.

Lemma audit_handled m w : let run := world_within (Handle (projection_handler AuditProjection) m) w in
  run.2 = inr () ∧ w_audit run.1 = memory_AppendEntry (audit_entry m) (w_audit w).
Proof using Type. done. Qed.

Lemma audit_others q m w : q ≠ AuditProjection → trail (world_within (Handle (projection_handler q) m) w).1 = trail w.
Proof using Type.
intros Hp. apply within_spares; [exact trail_view|].
destruct q; [| |done]; cbn [projection_handler]; unfold analytics_handler, budget_usage_handler; cbn [Handle].
- unfold Handle_analytics, adjust. repeat first [lifted_step (keeping trail)|solve [by intros ?]].
- unfold Handle_budget_usage, handleExpense, handleBudget, affectedWindows, recompute, recompute_window, queueAlert.
  repeat first [lifted_step (keeping trail)|solve [by intros ?]]. intros v. cbn. by case_match.
Qed.

Lemma entered_step ms m e w : let run := world_within (Handle (projection_handler AuditProjection) m) w in
  entered ms (trail w) → carries m e → faithful e → any_event e →
  matchesAggregateType (AggregateType m) (AggregateTypes (projection_handler AuditProjection)) = true →
  run.2 = inr () → entered (ms ++ [m]) (trail run.1).
Proof using Type.
cbv zeta. intros (n & Ht) _ _ _ _ _. exists n. cbv zeta in *. rewrite foldl_app. cbn [foldl].
destruct (audit_handled m w) as [_ Hs]. unfold trail in *. rewrite Hs. injection Ht as He Hb.
destruct (append_entry_seq (audit_entry m) _ _ He Hb) as [-> ->]. done.
Qed.

(** Messages with identities of their own are all entered, in order. *)
Lemma entered_all ms n : NoDup (map EventID ms) → (∀ m, m ∈ ms → EventID m ≠ "") →
  as_entries (foldl (λ s m, memory_AppendEntry (audit_entry m) s) (mkAuditStore [] ∅ n) ms) = map audit_entry ms.
Proof using Type.
intros Hnd Hne. enough (∀ s, (∀ m, m ∈ ms → as_byEvent s !! EventID m = None) →
  as_entries (foldl (λ s m, memory_AppendEntry (audit_entry m) s) s ms) = as_entries s ++ map audit_entry ms) as Hall
  by (apply Hall; by intros m _).
induction ms as [|m ms IH]; intros s Hs; [by rewrite app_nil_r|]. cbn in Hnd. apply NoDup_cons in Hnd as [Hm Hnd].
cbn [foldl map]. rewrite IH; [|done|intros m' Hm'; apply Hne; by right|].
- unfold memory_AppendEntry. cbn [ae_EventID audit_entry]. rewrite eqs_ne by (apply Hne; by left). cbn [negb].
  rewrite (Hs m) by by left. cbn. by rewrite <- app_assoc.
- intros m' Hm'. unfold memory_AppendEntry. cbn [ae_EventID audit_entry]. rewrite eqs_ne by (apply Hne; by left). cbn [negb].
  rewrite (Hs m) by by left. cbn. rewrite lookup_insert_ne; [apply Hs; by right|].
  intros Heq. apply Hm. rewrite Heq. by apply (list_elem_of_fmap_2 EventID).
Qed.

(** ** The log as the aggregates make it *)

Lemma about_own e es : e ∈ es → e ∈ events_about (d_aggregate (mkDelivery 0 "" e deliveryPending 0 0 0 0 false "")) es.
Proof using Type.
intros He. apply list_elem_of_In, filter_In. split; [by apply list_elem_of_In|]. cbn. by rewrite !eqs_refl.
Qed.

Lemma NoDup_about es : (∀ agg, NoDup (events_about agg es)) → NoDup es.
Proof using Type.
induction es as [|e es IH]; intros Hall; [constructor|]. apply NoDup_cons. split.
- intros He. specialize (Hall (ev_AggregateType (se_event e), ev_AggregateID (se_event e))).
  unfold events_about in Hall. cbn [List.filter fst snd] in Hall. rewrite !eqs_refl in Hall. cbn in Hall.
  apply NoDup_cons in Hall as [Hn _]. apply Hn. exact (about_own e es He).
- apply IH. intros agg. specialize (Hall agg). unfold events_about in *. cbn [List.filter] in Hall.
  destruct (_ && _); [by apply NoDup_cons in Hall as [_ Hall]|done].
Qed.

Lemma about_all es es' : NoDup es' → (∀ agg, events_about agg es = events_about agg es') → es ≡ₚ es'.
Proof using Type.
intros Hnd Hall. apply NoDup_Permutation; [|done|].
- apply NoDup_about. intros agg. rewrite Hall. unfold events_about. by apply NoDup_ListNoDup, List.NoDup_filter, NoDup_ListNoDup.
- assert (∀ l e agg, e ∈ events_about agg l → e ∈ l) as Hin.
  { intros l e agg [He _]%list_elem_of_In%filter_In. by apply list_elem_of_In. }
  intros e. split; intros He; pose proof (about_own e _ He) as Ho; [rewrite Hall in Ho|rewrite <- Hall in Ho]; by eapply Hin.
Qed.
(** ** The trail of a process *)

Abbreviation trail_kept := (modelled AuditProjection trail entered).

Lemma audit_takes m e w : carries m e → faithful e → any_event e →
  matchesAggregateType (AggregateType m) (AggregateTypes (projection_handler AuditProjection)) = true →
  (world_within (Handle (projection_handler AuditProjection) m) w).2 = inr ().
Proof using Type. done. Qed.

(** A message and its event give the same entry. *)
Lemma carried_entry m e : carries m e → actorFromMetadata (se_metadata e) = ev_ActorID (se_event e) →
  audit_entry m = entry_of e ∧ EventID m = ev_ID (se_event e).
Proof using Type.
intros (Hseq & Hty & _ & Hat & Hid & Hev & Hver & Hmd & Hocc) Hact. split; [|exact Hev].
unfold audit_entry, entry_of. by rewrite Hseq, Hty, Hat, Hid, Hev, Hver, Hmd, Hocc, Hact.
Qed.

Lemma carried_entries ms es : Forall2 carries ms es →
  Forall (λ e, actorFromMetadata (se_metadata e) = ev_ActorID (se_event e)) es →
  map audit_entry ms = map entry_of es ∧ map EventID ms = map (λ e, ev_ID (se_event e)) es.
Proof using Type.
intros Hes. induction Hes as [|m e ms es Hc _ IH]; intros Hact; [done|]. apply Forall_cons in Hact as [Ha Hact].
destruct (carried_entry m e Hc Ha) as [He Hi], (IH Hact) as [Hes' His]. cbn. by rewrite He, Hi, Hes', His.
Qed.

(** Caught up, with distinct identities, the trail is the log. *)
Lemma trail_complete b w log : Process b w log → trail_kept w log → has_subscription AuditProjection w →
  caught_up AuditProjection (w_events w) = true → identified (es_events (w_events w)) →
  as_entries (w_audit w) ≡ₚ map entry_of (es_events (w_events w)).
Proof using Type.
intros Hp (n & Ht) Hsub Hup [Hnd Hne]. cbv zeta in Ht.
pose proof (f_equal fst Ht) as He. cbn [trail fst] in He.
destruct (carried_events AuditProjection b w log Hp) as (es & Hes & Hin).
assert (es ≡ₚ es_events (w_events w)) as Hperm.
{ apply about_all; [exact (NoDup_fmap_1 _ _ Hnd)|]. intros agg. by apply (applied_all AuditProjection agg b w log). }
destruct (carried_entries _ _ Hes) as [Hentries Hids].
{ eapply Forall_impl; [exact Hin|]. apply (pr_metadata _ _ _ Hp). }
rewrite He, entered_all, Hentries.
- by rewrite Hperm.
- rewrite Hids. by rewrite Hperm.
- intros m Hm. apply (list_elem_of_fmap_2 EventID) in Hm. change (EventID <$> ?l) with (map EventID l) in Hm.
  rewrite Hids in Hm. apply list_elem_of_fmap in Hm as (e & -> & Hel). apply Hne. by rewrite <- Hperm.
Qed.

Definition Kept (b : Z) (w : World) (log : handled) : Prop :=
  Flowing AuditProjection any_event b w log ∧ trail_kept w log.

Lemma Kept_all actions w : fresh w → timely w → Forall proper actions → Z.of_nat (length actions) ≤ max_int64 →
  ∃ b, Kept b (act_all actions w).1 (act_all actions w).2.
Proof using Type.
intros Hf Ht. apply (act_all_ind Kept proper).
- intros b a wl [Hfl Hk] Ha Hb. split; [by apply (Flowing_act _ _ audit_takes)|].
  by apply (modelled_act _ _ _ _ trail_view audit_others entered_step b _ wl (fl_process _ _ _ _ _ Hfl)).
- split; [by apply Flowing_fresh|]. exists (as_sequence (w_audit w)). unfold trail. cbn.
  destruct (fresh_audit _ Hf) as [-> ->]. done.
Qed.

(** [C10] The audit trail is the log.  In one process, after any expense commands,
    events of other services, polls, requeues and registrations: once the audit engine
    has been polled as often as it had messages, by any workers under any policy and
    among any polls of the others, it has caught up, and when no two events share an
    identity the trail has exactly one entry for each event recorded, with its actor,
    type, aggregate, version, position and time. *)
Theorem audit_trail_complete actions polls w : fresh w → timely w → Forall proper actions →
  Z.of_nat (length actions) ≤ max_int64 → let before := (act_all actions w).1 in
  has_subscription AuditProjection before →
  (backlog AuditProjection (w_events before) ≤ own AuditProjection polls)%nat →
  let after := (act_all (actions ++ polling polls) w).1 in
  caught_up AuditProjection (w_events after) = true ∧ es_events (w_events after) = es_events (w_events before) ∧
  (identified (es_events (w_events before)) →
   as_entries (w_audit after) ≡ₚ map entry_of (es_events (w_events before))).
Proof using Type.
intros Hf Ht Hpr Hlen before Hsub Hb after. destruct (Kept_all actions w Hf Ht Hpr Hlen) as (b & [Hfl Hk]).
destruct (drained _ _ audit_takes b actions polls w Hfl Hb) as (Hf' & Hup & Hst). fold after before in Hup, Hst.
pose proof (f_equal (λ x, x.1.1.1) Hst) as Hev. pose proof (f_equal (λ x, x.1.1.2) Hst) as Hsu.
cbn [still fst snd] in Hev, Hsu. split; [exact Hup|]. split; [exact Hev|]. rewrite <- Hev.
apply (trail_complete b _ (act_all (actions ++ polling polls) w).2); [apply (fl_process _ _ _ _ _ Hf')| | |exact Hup].
- subst after. unfold act_all. rewrite foldl_app.
  apply (modelled_polls _ _ _ _ trail_view audit_others entered_step b);
    [apply polling_polls|exact (fl_process _ _ _ _ _ Hfl)|done|exact Hk].
- unfold has_subscription. rewrite Hsu. exact Hsub.
Qed.
End AuditLog.

Module Sample.
Import World.Sample ExpenseLog.Sample.
#[local] Existing Instance default_runtime.

(** Two expenses, a budget's event and an edit; the trail is registered last. *)
Definition budget_removed : DomainEvent :=
  let removed := BudgetRemoved "b1" "ann" (63000000000 * Second) in
  mkDomainEvent "e1" "budget" "b1" (event_type_of removed) removed 0 "ann".
Definition actions : list Action :=
  [Command (CmdCreate "ann" coffee); Other budget_removed; Command (CmdCreate "bob" coffee);
   Command (CmdUpdate "ann" "id" coffee); Subscribe AuditProjection].
Definition polls : list (Projection * Policy * string) := repeat (AuditProjection, DefaultPolicy, "w1") 4.

Lemma audit_trail_complete_witness :
  let before := (act_all actions empty_world).1 in let after := (act_all (actions ++ polling polls) empty_world).1 in
  caught_up AuditProjection (w_events after) = true ∧ es_events (w_events after) = es_events (w_events before) ∧
  as_entries (w_audit after) ≡ₚ map entry_of (es_events (w_events before)) ∧
  map ae_ActorID (as_entries (w_audit after)) = ["ann"; "ann"; "bob"; "ann"].
Proof.
cbv zeta.
assert (has_subscription AuditProjection (act_all actions empty_world).1) as Hsub.
{ assert (bool_decide (is_Some (es_subscriptions (w_events (act_all actions empty_world).1) !! AuditProjectionName)) = true) as Hb
    by (vm_compute; reflexivity).
  by apply bool_decide_eq_true in Hb. }
destruct (audit_trail_complete actions polls empty_world) as (Hup & Hev & Hperm).
- by split.
- intros n. change (0 ≤ 63000000000 * Second + Z.of_nat n * Second). unfold Second. lia.
- by repeat (apply Forall_cons; split; [done|]).
- by vm_compute.
- exact Hsub.
- apply Nat.leb_le. vm_compute. reflexivity.
- split; [exact Hup|]. split; [exact Hev|]. split; [|vm_compute; reflexivity]. apply Hperm. split.
  + assert (map (λ e, ev_ID (se_event e)) (es_events (w_events (act_all actions empty_world).1)) =
      ["id1"; "e1"; "id111"; "id1111"]) as -> by (vm_compute; reflexivity).
    by apply (bool_decide_eq_true_1 _).
  + assert (forallb (λ e, ev_ID (se_event e) ≠s "") (es_events (w_events (act_all actions empty_world).1)) = true) as Hb
      by (vm_compute; reflexivity).
    rewrite forallb_forall in Hb. intros e He%list_elem_of_In Heq. specialize (Hb e He). rewrite Heq in Hb. discriminate Hb.
Defined.
End Sample.
