(* ===== verification/BudgetLedger.v ===== *)
(** * Budget spend is the ledger

    The budget usage projection refuses no message about an expense, so it always
    catches up; every period of every budget then shows exactly what the live expenses
    of its owner and category spent in it.  The budgets themselves stand as they are
    while the process runs. *)

From S2P Require Export Prelude GoTime GoStrings Domain Periods Json Outbox UnitOfWork EventStore EventOrder AnalyticsProjection.
From S2P Require Export Ports Memory MemoryStores World Expenses ExpenseLog BudgetUsage BudgetSpend AuditTrail Process Draining Ledger.
#[global] Open Scope Z_scope.

(** ** Computations that return *)

Section Settles.
Context {W : Type}.
Definition settles {A} (m : M W A) : Prop := ∀ w, ∃ w' a, m w = (w', inr a).
Lemma settles_ret {A} (a : A) : settles (mret a). Proof. by intros w; eexists _, _. Qed.
Lemma settles_bind {A B} (m : M W A) (k : A → M W B) : settles m → (∀ a, settles (k a)) → settles (m ≫= k).
Proof. intros Hm Hk w. destruct (Hm w) as (w1 & a & Hr). unfold mbind, M_bind. rewrite Hr. apply Hk. Qed.
Lemma settles_fold {A B} (body : B → A → M W B) l : (∀ b a, settles (body b a)) → ∀ acc, settles (fold_m body acc l).
Proof. intros Hb. induction l as [|x l IH]; intros acc; [apply settles_ret|]. by apply settles_bind. Qed.
Lemma settles_for_each {A} (body : A → M W ()) l : (∀ a, settles (body a)) → settles (for_each body l).
Proof. intros Hb. induction l as [|x l IH]; [apply settles_ret|]. by apply settles_bind. Qed.
End Settles.

Section Budgets.
Context `{GoRuntime}.

Lemma settles_affected previous found next : settles (affectedWindows (W:=World) previous found next).
Proof using Type.
unfold affectedWindows. apply settles_bind; [|by intros []; apply settles_ret]. apply settles_fold. intros acc [key times].
apply settles_bind; [|intros ?; apply settles_ret]. intros w. cbn. destruct (_ || _); by eexists _, _.
Qed.
Lemma settles_recompute windows replay : settles (recompute (W:=World) windows replay).
Proof using Type.
apply settles_for_each. intros x. unfold recompute_window. apply settles_bind; [by intros w; eexists _, _|]. intros spent.
apply settles_bind; [by intros w; eexists _, _|]. intros [stored found]. apply settles_bind; [by intros w; eexists _, _|]. intros now.
apply settles_bind; [by intros w; eexists _, _|]. intros ?.
case_match; [|apply settles_ret]. destruct replay; [apply settles_ret|]. by intros w; eexists _, _.
Qed.

(** ** One message about an expense *)

Definition not_budget (e : storedEvent) : Prop := ev_AggregateType (se_event e) ≠ "budget".

Lemma expense_type m : matchesAggregateType (AggregateType m) (AggregateTypes (projection_handler BudgetUsageProjection)) = true →
  AggregateType m ≠ "budget" → AggregateType m = "expense".
Proof using Type.
intros Hty Hne. change (str_in (AggregateType m) ["expense"; "budget"] = true) in Hty.
apply str_in_spec, elem_of_cons in Hty as [|Hty]; [done|]. by apply list_elem_of_singleton in Hty.
Qed.

Lemma from_expense m e : carries m e → faithful e → not_budget e →
  matchesAggregateType (AggregateType m) (AggregateTypes (projection_handler BudgetUsageProjection)) = true →
  AggregateType m = "expense" ∧ expense_event e.
Proof using Type.
intros Hc Hf Hnb Hty. pose proof Hc as (_ & _ & _ & Hat & _).
assert (AggregateType m = "expense") as He by (apply expense_type; [done|by rewrite Hat]). split; [done|].
destruct Hf as [|[Hne _]]; [done|]. congruence.
Qed.

Lemma usage_takes m e w : carries m e → faithful e → not_budget e →
  matchesAggregateType (AggregateType m) (AggregateTypes (projection_handler BudgetUsageProjection)) = true →
  (world_within (Handle (projection_handler BudgetUsageProjection) m) w).2 = inr ().
Proof using Type.
intros Hc Hf Hnb Hty. destruct (from_expense m e Hc Hf Hnb Hty) as [He Hev].
assert (settles (Handle (projection_handler BudgetUsageProjection) m)) as Hs.
{ change (settles (Handle_budget_usage (W:=World) m)). unfold Handle_budget_usage. rewrite He, eqs_refl. unfold handleExpense.
  destruct (expense_message m e Hc Hev) as (_ & Hdec & _). rewrite Hdec.
  destruct (payload_contribution _) as [c|]; [|apply settles_ret].
  apply settles_bind; [by intros v; eexists _, _|]. intros [previous found]. destruct (_ && _); [apply settles_ret|].
  apply settles_bind; [by intros v; eexists _, _|]. intros ?. apply settles_bind; [apply settles_affected|].
  intros ws. apply settles_recompute. }
destruct (Hs w) as (w' & [] & Hr). unfold world_within, Within, world_unit, memory_UnitOfWork, memory_Within, background.
by rewrite Hr.
Qed.

(** The contributions kept are those the messages tell. *)
Definition kept (w : World) : gmap string ExpenseContribution := bs_contributions (w_usage w).

Lemma save_kept previous found c replay L :
  hoare (λ w, kept w = L)
    (usage_SaveContribution c;; windows ← affectedWindows previous found c; recompute (W:=World) windows replay)
    (λ _ w, kept w = <[ec_ExpenseID c := c]> L) (λ _, True).
Proof using Type.
apply (hoare_bind _ _ _ (λ _ w, kept w = <[ec_ExpenseID c := c]> L)); [by intros w <-|]. intros ?.
eapply hoare_weaken; [apply (keeping_hoare kept _ (<[ec_ExpenseID c := c]> L))|done|done|done].
unfold affectedWindows, recompute, recompute_window, queueAlert.
repeat first [lifted_step (keeping kept)|solve [by intros ?]]. intros u. cbn. by case_match.
Qed.

Lemma handled_kept m L : (∀ id c, L !! id = Some c → ec_ExpenseID c = id) → AggregateType m = "expense" →
  hoare (λ w, kept w = L) (Handle_budget_usage m) (λ _ w, kept w = tell L m) (λ _, True).
Proof using Type.
intros Hkey He. unfold Handle_budget_usage, handleExpense, tell. rewrite He, eqs_refl.
destruct (DecodeExpenseContribution _ _) as [?|[next []]]; [by apply hoare_throw| |by apply hoare_ret].
apply (hoare_bind _ _ _ (λ r w, (match L !! ec_ExpenseID next with
  | Some p => r = (p, true) | None => r.2 = false end) ∧ kept w = L)).
{ intros w <-. cbn. unfold zoom, kept. cbn. by destruct (_ !! _). }
intros [previous found]. apply hoare_pure. destruct (L !! ec_ExpenseID next) as [p|] eqn:Hp; [intros [= -> ->]|cbn; intros ->].
- rewrite andb_false_r. cbn [negb]. destruct (ec_Active next); cbn [negb]; [apply save_kept|].
  eapply hoare_weaken; [apply (save_kept p true _ _ L)| |intros ? w Hw; cbn in Hw; rewrite Hw; cbn|]; try done.
  rewrite (Hkey _ _ Hp). apply map_eq. intros i. destruct (decide (i = ec_ExpenseID next)) as [->|Hne].
  + by rewrite lookup_insert_eq, lookup_alter_eq, Hp.
  + by rewrite lookup_insert_ne, lookup_alter_ne.
- destruct (ec_Active next); cbn [negb andb]; [apply save_kept|]. apply hoare_ret. intros w ->.
  apply map_eq. intros i. destruct (decide (i = ec_ExpenseID next)) as [->|Hne].
  + by rewrite lookup_alter_eq, Hp.
  + by rewrite lookup_alter_ne.
Qed.

(** ** The read model *)

(** Every contribution that counts has its row in every budget it counts in. *)
Definition covered (B : BudgetStore) (s : UsageStore) : Prop :=
  ∀ id c, bs_contributions s !! id = Some c → ec_Active c = true → reached B c s.

Definition budgeted (B : BudgetStore) (ms : list Message) (v : BudgetStore * UsageStore) : Prop :=
  v.1 = B ∧ usage_fresh B v.2 ∧ covered B v.2 ∧ bs_contributions v.2 = foldl tell ∅ ms.
Definition accounts (w : World) : BudgetStore * UsageStore := (w_budgets w, w_usage w).

Lemma accounts_view w w' : views w' = views w → accounts w' = accounts w.
Proof using Type. intros Hv. unfold accounts. f_equal; [exact (f_equal (λ x, x.1.1.1) Hv)|exact (f_equal (λ x, x.1.2) Hv)]. Qed.

Lemma accounts_others q m w : q ≠ BudgetUsageProjection →
  accounts (world_within (Handle (projection_handler q) m) w).1 = accounts w.
Proof using Type.
intros Hp. apply within_spares; [exact accounts_view|].
destruct q; [|done|]; cbn [projection_handler]; unfold analytics_handler, audit_handler; cbn [Handle].
- unfold Handle_analytics, adjust. repeat first [lifted_step (keeping accounts)|solve [by intros ?]].
- unfold Handle_audit. repeat first [lifted_step (keeping accounts)|solve [by intros ?]].
Qed.

Lemma expense_sane m e : carries m e → expense_event e → sane_message m.
Proof using Type.
intros Hc He c Hdec Hact. destruct (expense_message m e Hc He) as (_ & Hdec' & _). rewrite Hdec in Hdec'.
destruct He as (_ & _ & _ & Hvalid). destruct (ev_Payload (se_event e)); try done; injection Hdec' as ->; try done.
all: cbn in *; unfold validateExpense in Hvalid; intros Hz; unfold IsZero in Hvalid;
  rewrite Hz in Hvalid; cbn in Hvalid; by rewrite !orb_true_r in Hvalid.
Qed.

Lemma budgeted_step B ms m e w : sane_budgets B → let run := world_within (Handle (projection_handler BudgetUsageProjection) m) w in
  budgeted B ms (accounts w) → carries m e → faithful e → not_budget e →
  matchesAggregateType (AggregateType m) (AggregateTypes (projection_handler BudgetUsageProjection)) = true →
  run.2 = inr () → budgeted B (ms ++ [m]) (accounts run.1).
Proof using Type.
cbv zeta. intros HB (Hb & Hf & Hcov & Hkept) Hc Hfa Hnb Hty Hok. cbn [accounts fst snd] in *.
destruct (from_expense m e Hc Hfa Hnb Hty) as [He Hev]. pose proof (expense_sane m e Hc Hev) as Hsane.
set (K key := is_Some (bs_usage (w_usage w) !! key)).
pose proof (expense_hoare B K m HB Hsane w (conj Hb (conj Hf (λ key Hk, Hk)))) as Hh.
assert (∀ id c, kept w !! id = Some c → ec_ExpenseID c = id) as Hkeyed by (intros id c Hl; by apply (proj1 (proj1 Hf))).
pose proof (handled_kept m (kept w) Hkeyed He w eq_refl) as Hk.
unfold Handle_budget_usage in Hk. rewrite He, eqs_refl in Hk.
change (Handle (projection_handler BudgetUsageProjection) m) with (Handle_budget_usage (W:=World) m) in *.
revert Hok. unfold world_within, Within, world_unit, memory_UnitOfWork, memory_Within, background, Handle_budget_usage.
rewrite He, eqs_refl. destruct (handleExpense m w) as [w' [x|[]]]; [done|]. intros _. cbn [fst].
destruct Hh as (Hb' & (Hf' & HK) & Hreach). split; [exact Hb'|]. split; [exact Hf'|]. unfold kept in Hk. cbn [accounts fst snd].
split; [|by rewrite Hk, foldl_app, Hkept].
assert (∀ c, reached B c (w_usage w) → reached B c (w_usage w')) as Hmono.
{ intros c Hr b Hbl Ho Hcat. apply HK, (Hr b Hbl Ho Hcat). }
intros id c Hl Hact. rewrite Hk in Hl. unfold tell in Hl. rewrite He, eqs_refl in Hl.
destruct (DecodeExpenseContribution _ _) as [?|[next []]]; [by eapply Hmono, Hcov| |by eapply Hmono, Hcov].
destruct (ec_Active next) eqn:Han.
- apply lookup_insert_Some in Hl as [[_ <-]|[_ Hl]]; [by apply Hreach|by eapply Hmono, Hcov].
- apply lookup_alter_Some in Hl as [(_ & p & _ & ->)|[_ Hl]]; [done|by eapply Hmono, Hcov].
Qed.
(** ** Sums over contributions and over expenses *)

(** A live expense of the budget's owner and category, in its period around [t]. *)
Definition spends (b : BudgetRecord) (t : Time) (e : ExpenseRecord) : bool :=
  bool_decide (ex_DeletedAt e = None) && (ex_OwnerID e =s bd_OwnerID b) && (ex_CategoryID e =s bd_CategoryID b) &&
  ((BudgetWindow b t).1 <=? ex_OccurredAt e) && (ex_OccurredAt e <? (BudgetWindow b t).2).
Definition ledger_spend (w : World) (b : BudgetRecord) (t : Time) : Z :=
  foldr (λ e total, ex_AmountMinor e + total) 0 (range_values (spends b t) (w_expenses w)).

Definition counted (b : BudgetRecord) (t : Time) : ExpenseContribution → bool :=
  counts_in (bd_OwnerID b) (bd_CategoryID b) (BudgetWindow b t).1 (BudgetWindow b t).2.
Definition counted_share (b : BudgetRecord) (t : Time) (c : ExpenseContribution) : Z :=
  if counted b t c then ec_AmountMinor c else 0.
Definition counted_sum (b : BudgetRecord) (t : Time) (m : gmap string ExpenseContribution) : Z :=
  amounts (range_values (counted b t) m).

#[local] Existing Instance amounts_perm.

Lemma counted_sum_insert b t m id c : m !! id = None →
  counted_sum b t (<[id := c]> m) = counted_share b t c + counted_sum b t m.
Proof using Type.
intros Hm. unfold counted_sum, counted_share.
rewrite (range_values_perm (counted b t) (<[id := c]> m)), (values_insert (counted b t) m id c), delete_id by done.
rewrite (range_values_perm (counted b t) m). cbn [List.filter]. by destruct (counted b t c).
Qed.

Lemma counted_sum_agree b t m1 m2 :
  (∀ id, from_option (counted_share b t) 0 (m1 !! id) = from_option (counted_share b t) 0 (m2 !! id)) →
  counted_sum b t m1 = counted_sum b t m2.
Proof using Type.
apply totals_agree; [|apply counted_sum_insert]. unfold counted_sum. by rewrite (range_values_perm (counted b t)), map_to_list_empty.
Qed.

Lemma spends_counted b t e : counted b t (contribution_of e) = spends b t e.
Proof using Type. unfold counted, counts_in, spends, Before. cbn. by rewrite Z.leb_antisym. Qed.

Lemma counted_ledger w b t : counted_sum b t (contributions w) = ledger_spend w b t.
Proof using Type.
unfold counted_sum, ledger_spend, contributions. rewrite (range_values_perm (counted b t)), map_to_list_fmap.
assert (∀ l l' : list ExpenseRecord, l ≡ₚ l' →
  foldr (λ e total, ex_AmountMinor e + total) 0 l = foldr (λ e total, ex_AmountMinor e + total) 0 l') as Hp.
{ intros l l' Hl. induction Hl; cbn; lia. }
rewrite (Hp _ _ (range_values_perm (spends b t) (w_expenses w))). clear Hp.
enough (∀ l : list (string * ExpenseRecord), amounts (List.filter (counted b t) (map snd (prod_map id contribution_of <$> l))) =
  foldr (λ e total, ex_AmountMinor e + total) 0 (List.filter (spends b t) (map snd l))) as Hl by apply Hl.
induction l as [|[i e] l IH]; [done|]. cbn. rewrite spends_counted.
destruct (spends b t e); cbn; [by rewrite <- IH|exact IH].
Qed.

(** ** Spend in a process *)

(** The usage row of the period around [t], which a missing row shows as zero, is the
    spend of the ledger. *)
Definition shows_spend (w : World) (b : BudgetRecord) (t : Time) : Prop :=
  match bs_usage (w_usage w) !! usage_key (bd_ID b) (BudgetWindow b t).1 with
  | Some u => bu_PeriodStart u = (BudgetWindow b t).1 → bu_SpentMinor u = wrap64 (ledger_spend w b t)
  | None => ledger_spend w b t = 0
  end.

Abbreviation budgeted_kept B := (modelled BudgetUsageProjection accounts (budgeted B)).

Lemma spend_ledger B b0 w log b t : Process b0 w log → budgeted_kept B w log →
  has_subscription BudgetUsageProjection w → caught_up BudgetUsageProjection (w_events w) = true →
  live_budget B b → shows_spend w b t.
Proof using Type.
intros Hp (_ & [[_ Hku] HI] & Hcov & Hkept) Hsub Hup Hb. cbn [accounts fst snd] in *.
assert (counted_sum b t (bs_contributions (w_usage w)) = ledger_spend w b t) as Hsum.
{ rewrite <- counted_ledger, Hkept. apply counted_sum_agree. intros id. unfold contributions. rewrite lookup_fmap.
  apply mirrors_agree; [|exact (told_mirrors BudgetUsageProjection b0 w log id Hp Hsub Hup eq_refl)].
  intros c Hc. unfold counted_share, counted, counts_in. by rewrite Hc. }
unfold shows_spend. destruct (bs_usage (w_usage w) !! _) as [u|] eqn:Hu.
- intros Hst. destruct (HI _ _ Hu) as [Hfr|(? & []%elem_of_nil & _)].
  destruct (Hfr b t Hb) as [-> _]; [by pose proof (f_equal fst (Hku _ _ Hu))|done|].
  unfold window_sum. rewrite sum_spec, <- Hsum. done.
- rewrite <- Hsum. unfold counted_sum. destruct (range_values _ _) as [|c l] eqn:Hr; [done|exfalso].
  assert (c ∈ range_values (counted b t) (bs_contributions (w_usage w))) as Hc by (rewrite Hr; by left).
  apply range_values_elem in Hc as [Hcounted [id Hid]]. pose proof Hcounted as Hin.
  unfold counted in Hin. apply counts_in_spec in Hin as (Ho & Hk & Hwin).
  assert (ec_Active c = true) as Hact by (unfold counted, counts_in in Hcounted; by destruct (ec_Active c)).
  destruct (Hcov id c Hid Hact b Hb) as [u Hu']; [done..|]. rewrite (window_contains b t _ Hwin), Hu in Hu'. done.
Qed.

Definition steady (a : Action) : Prop :=
  proper a ∧ match a with Other ev => ev_AggregateType ev ≠ "budget" | _ => True end.

Definition Spent (B : BudgetStore) (b : Z) (w : World) (log : handled) : Prop :=
  Flowing BudgetUsageProjection not_budget b w log ∧ budgeted_kept B w log.

Lemma Spent_all actions w : fresh w → timely w → sane_budgets (w_budgets w) → Forall steady actions →
  Z.of_nat (length actions) ≤ max_int64 → ∃ b, Spent (w_budgets w) b (act_all actions w).1 (act_all actions w).2.
Proof using Type.
intros Hf Ht HB. apply (act_all_ind (Spent (w_budgets w)) steady).
- intros b a wl [Hfl Hk] [Ha Hev] Hb. pose proof (fl_process _ _ _ _ _ Hfl) as Hp. split.
  + apply (Flowing_act _ _ usage_takes); [done..|]. intros e He.
    destruct (act_events b a wl e Hp Hb He) as [Hold|Hnew]; [by apply (fl_good _ _ _ _ _ Hfl)|]. unfold not_budget.
    destruct a as [c|ev| | |]; try done; [|by rewrite Hnew]. destruct Hnew as (Hrec & _). by rewrite (rec_type _ Hrec).
  + apply (modelled_act _ _ _ _ accounts_view accounts_others (λ ms m e w, budgeted_step _ ms m e w HB) b _ wl Hp); [|exact Hk].
    exact (fl_good _ _ _ _ _ Hfl).
- split; [by apply Flowing_fresh|]. unfold modelled, budgeted, accounts. cbn [fst snd]. rewrite (fresh_usage _ Hf).
  split; [done|]. split; [|done]. by repeat split.
Qed.

(** [C8] Budget spend is the ledger.  In one process, over budgets that stand, after
    any expense commands, events of other services, polls, requeues and registrations:
    once the budget usage engine has been polled as often as it had messages, by any
    workers under any policy and among any polls of the others, every period of every
    budget shows exactly what the live expenses of its owner and category spent in it,
    and a period without a row is one in which nothing was spent. *)
Theorem budget_spend_converges actions polls w b t : fresh w → timely w → sane_budgets (w_budgets w) →
  Forall steady actions → Z.of_nat (length actions) ≤ max_int64 → let before := (act_all actions w).1 in
  has_subscription BudgetUsageProjection before →
  (backlog BudgetUsageProjection (w_events before) ≤ own BudgetUsageProjection polls)%nat →
  let after := (act_all (actions ++ polling polls) w).1 in
  live_budget (w_budgets w) b →
  caught_up BudgetUsageProjection (w_events after) = true ∧ w_expenses after = w_expenses before ∧ shows_spend after b t.
Proof using Type.
intros Hf Ht HB Hpr Hlen before Hsub Hb after Hlive. destruct (Spent_all actions w Hf Ht HB Hpr Hlen) as (b0 & [Hfl Hk]).
destruct (drained _ _ usage_takes b0 actions polls w Hfl Hb) as (Hf' & Hup & Hst). fold after before in Hup, Hst.
pose proof (f_equal (λ x, x.1.2) Hst) as Hx. pose proof (f_equal (λ x, x.1.1.2) Hst) as Hsu.
cbn [still fst snd] in Hx, Hsu. split; [exact Hup|]. split; [exact Hx|].
apply (spend_ledger (w_budgets w) b0 _ (act_all (actions ++ polling polls) w).2);
  [apply (fl_process _ _ _ _ _ Hf')| | |exact Hup|exact Hlive].
- subst after. unfold act_all. rewrite foldl_app.
  apply (modelled_polls _ _ _ _ accounts_view accounts_others (λ ms m e w, budgeted_step _ ms m e w HB) b0);
    [apply polling_polls|exact (fl_process _ _ _ _ _ Hfl)|exact (fl_good _ _ _ _ _ Hfl)|exact Hk].
- unfold has_subscription. rewrite Hsu. exact Hsub.
Qed.
End Budgets.

Module Sample.
Import World.Sample ExpenseLog.Sample.
#[local] Existing Instance default_runtime.

Definition groceries : BudgetRecord :=
  zero_budget <| bd_ID := "b1" |> <| bd_OwnerID := "ann" |> <| bd_CategoryID := "0197c1a0-0000-4000-8000-000000000002" |>
    <| bd_Currency := "EUR" |> <| bd_AmountLimitMinor := 2000 |> <| bd_ThresholdPercent := 80 |>
    <| bd_Period := BudgetMonthly |>.
Definition household : World := empty_world <| w_budgets := {["b1" := groceries]} |>.
Definition now : Time := 63000000000 * Second.

(** Two expenses of the budget's owner, one of another's, an edit and a removal. *)
Definition actions : list Action :=
  [Command (CmdCreate "ann" coffee); Subscribe BudgetUsageProjection; Command (CmdCreate "ann" coffee);
   Command (CmdCreate "bob" coffee); Poll BudgetUsageProjection DefaultPolicy "w1"; Command (CmdUpdate "ann" "id" coffee);
   Command (CmdDelete "ann" "id11"); Command (CmdCreate "ann" coffee)].
Definition polls : list (Projection * Policy * string) :=
  (AnalyticsProjection, DefaultPolicy, "w2") :: repeat (BudgetUsageProjection, DefaultPolicy, "w1") 6.

Lemma groceries_sane : sane_budgets (w_budgets household).
Proof. intros id b Hb. apply (lookup_singleton_Some (M := gmap string) "b1" id groceries b) in Hb as [<- <-]. done. Qed.

Definition row : BudgetUsage :=
  default (mkBudgetUsage "" 0 0 0 0)
    (bs_usage (w_usage (act_all (actions ++ polling polls) household).1) !! usage_key "b1" (BudgetWindow groceries now).1).

Lemma budget_spend_converges_witness :
  let before := (act_all actions household).1 in let after := (act_all (actions ++ polling polls) household).1 in
  (caught_up BudgetUsageProjection (w_events after) = true ∧ w_expenses after = w_expenses before ∧
   shows_spend after groceries now) ∧ caught_up BudgetUsageProjection (w_events before) = false ∧
  ledger_spend after groceries now = 700 ∧ bu_SpentMinor row = 700.
Proof.
cbv zeta. split; [|split; [vm_compute; reflexivity|split; vm_compute; reflexivity]].
apply (budget_spend_converges actions polls household groceries now).
- by split.
- intros n. change (0 ≤ 63000000000 * Second + Z.of_nat n * Second). unfold Second. lia.
- exact groceries_sane.
- by repeat (apply Forall_cons; split; [done|]).
- by vm_compute.
- assert (bool_decide (is_Some (es_subscriptions (w_events (act_all actions household).1) !! BudgetUsageProjectionName)) = true) as Hb
    by (vm_compute; reflexivity).
  by apply bool_decide_eq_true in Hb.
- apply Nat.leb_le. vm_compute. reflexivity.
- by split.
Defined.
End Sample.
