(* ===== verification/PgOutbox.v ===== *)
(** * The event log in PostgreSQL (postgres/event_store.go, postgres/outbox_store.go)

    The tables as lists of rows, one definition per SQL statement, and the steps by
    which transactions of several sessions interleave.  At READ COMMITTED a statement
    sees what was committed before it ran and the writes of its own transaction, so
    [Append] and [EnsureSubscription], whose statements read what others write, take a
    step per statement and one to commit; their writes are private until then.  A
    claim, and the transaction a handler runs in, decide by one statement on one row
    and are a step each.  The constraints of the schema
    (migrations/000001, 000005) that a statement can run into are part of it.

    UUIDs are parsed by a third-party package and drawn by the database; hashing,
    intervals and the cut of error texts are the database's. *)

From S2P Require Export Prelude GoTime GoStrings Domain Json Outbox EventStore EventOrder.
#[global] Open Scope Z_scope.

(** ** The tables *)

Record eventRow := mkEventRow {
  er_id : string; er_type : string; er_aggregate : string; er_version : Z; er_event_type : string;
  er_payload : json; er_metadata : json; er_occurred_at : Time; er_seq : Z
}.

Record outboxRow := mkOutboxRow {
  ob_id : string; ob_event : string; ob_subscription : string; ob_seq : Z; ob_type : string; ob_aggregate : string;
  ob_status : deliveryStatus; ob_attempts : Z; ob_available_at : Time; ob_locked_at : option Time;
  ob_locked_by : option string; ob_processed_at : option Time; ob_dead_at : option Time;
  ob_last_error : option string; ob_replay : bool
}.
#[export] Instance eta_outboxRow : Eta outboxRow := λ r,
  mkOutboxRow (ob_id r) (ob_event r) (ob_subscription r) (ob_seq r) (ob_type r) (ob_aggregate r) (ob_status r)
    (ob_attempts r) (ob_available_at r) (ob_locked_at r) (ob_locked_by r) (ob_processed_at r) (ob_dead_at r)
    (ob_last_error r) (ob_replay r).

Record checkpoint := mkCheckpoint { cp_seq : Z; cp_event : string; cp_processed : Z; cp_updated_at : Time }.

(** A transaction in progress that writes the log: an [Append] that has inserted its
    event, holding the advisory lock, and one that has also fanned it out; an
    [EnsureSubscription] before and after its backfill. *)
Inductive writer :=
  | Inserted (lock : Z) (event : eventRow)
  | FannedOut (lock : Z) (event : eventRow) (rows : list outboxRow)
  | Registering (name : string) (inserted : bool)
  | Backfilled (name : string) (inserted : bool) (rows : list outboxRow).

(** A message in a worker's hands. *)
Record working := mkWorking { wk_message : Message; wk_subscription : string; wk_policy : Policy; wk_since : Time }.

Record db := mkDB {
  pg_events : list eventRow; pg_outbox : list outboxRow; pg_subscriptions : gmap string ();
  pg_checkpoints : gmap string checkpoint; pg_sequence : Z; pg_uuids : nat → string; pg_drawn : nat;
  pg_writers : gmap nat writer; pg_workers : gmap nat working;
  (* what the committed handlers applied, in commit order *)
  pg_applied : list (string * Message)
}.
#[export] Instance eta_db : Eta db := λ s,
  mkDB (pg_events s) (pg_outbox s) (pg_subscriptions s) (pg_checkpoints s) (pg_sequence s) (pg_uuids s) (pg_drawn s)
    (pg_writers s) (pg_workers s) (pg_applied s).

Definition update_row (id : string) (f : outboxRow → outboxRow) (rows : list outboxRow) : list outboxRow :=
  map (λ r, if ob_id r =s id then f r else r) rows.

Definition max_int32 : Z := 2 ^ 31 - 1.

Section Pg.
Context `{GoRuntime}.
Context (uuid_Parse : string → error + string) (hashtext : string → Z).
Context (make_interval : Duration → Duration) (left : string → Z → string).
(** What the driver reports when a constraint is violated, a number is out of range or
    a row is missing. *)
Context (unique_violation out_of_range : error).

(** ** Append *)

(** [select coalesce(max(aggregate_version), 0) + 1 from events.events where ...]. *)
Definition next_version (type aggregate : string) (events : list eventRow) : Z :=
  foldr (λ e v, if (er_type e =s type) && (er_aggregate e =s aggregate) then Z.max (er_version e) v else v) 0 events + 1.

(** Two events the primary key or the unique version of an aggregate keep apart. *)
Definition collides (e e' : eventRow) : bool :=
  (er_id e =s er_id e') ||
  ((er_type e =s er_type e') && (er_aggregate e =s er_aggregate e') && (er_version e =? er_version e')).

(** The event a transaction has inserted, and the advisory lock it holds. *)
Definition written (w : writer) : option (Z * eventRow) :=
  match w with Inserted l e | FannedOut l e _ => Some (l, e) | _ => None end.

(** A statement that would have to wait for another transaction to end. *)
Definition lock_held (lock : Z) (s : db) : bool :=
  existsb (λ x, match written x.2 with Some (l, _) => l =? lock | None => false end) (map_to_list (pg_writers s)).
Definition uncommitted_collision (row : eventRow) (s : db) : bool :=
  existsb (λ x, match written x.2 with Some (_, e) => collides row e | None => false end) (map_to_list (pg_writers s)).

(** The checks and statements of [Append] up to the inserted row. *)
Definition new_event (event : DomainEvent) (s : db) : error + eventRow :=
  match uuid_Parse (ev_ID event) with
  | inl err => inl (Errorf "parse event id: " err "")
  | inr id =>
      match uuid_Parse (ev_AggregateID event) with
      | inl err => inl (Errorf "parse aggregate id: " err "")
      | inr aggregate =>
          match Marshal (ev_Payload event) with
          | inl err => inl (Errorf "marshal event payload: " err "")
          | inr payload =>
              inr (mkEventRow id (ev_AggregateType event) aggregate
                (next_version (ev_AggregateType event) aggregate (pg_events s)) (ev_EventType event) payload
                (JObject [("actor_id", JString (ev_ActorID event))]) (FromUnixMilli (ev_OccurredAt event))
                (pg_sequence s + 1))
          end
      end
  end.

(** [select pg_advisory_xact_lock(hashtext($1))] to [returning global_seq]; the
    sequence number is used up whatever becomes of the row.  A statement that would wait
    for another transaction is not taken yet; one that fails after its wait, its version
    being taken by then, is never taken.  A unit of work that appends to two aggregates
    is two of these that commit one after the other. *)
Definition append_insert (handle : nat) (event : DomainEvent) (s : db) : db * (error + bool) :=
  let lock := hashtext (ev_AggregateType event +:+ ":" +:+ ev_AggregateID event) in
  match new_event event s with
  | inl err => (s, inl err)
  | inr row =>
      if lock_held lock s || uncommitted_collision row s then (s, inr false)
      else
        let s := s <| pg_sequence ::= λ n, n + 1 |> in
        if existsb (collides row) (pg_events s) then (s, inl (Errorf "insert event: " unique_violation ""))
        else (s <| pg_writers ::= <[handle := Inserted lock row]> |>, inr true)
  end.

Definition new_row (now : Time) (replay : bool) (subscription : string) (event : eventRow) (id : string) : outboxRow :=
  mkOutboxRow id (er_id event) subscription (er_seq event) (er_type event) (er_aggregate event) deliveryPending
    0 now None None None None None replay.

(** Rows for pairs of a subscription and an event, each with an id of its own. *)
Fixpoint new_rows (now : Time) (replay : bool) (pairs : list (string * eventRow)) (ids : nat → string) (n : nat) : list outboxRow :=
  match pairs with
  | [] => []
  | (subscription, event) :: pairs => new_row now replay subscription event (ids n) :: new_rows now replay pairs ids (S n)
  end.

(** [insert into events.outbox ... select ... from events.subscriptions s]. *)
Definition fan_out (now : Time) (event : eventRow) (s : db) : list outboxRow :=
  new_rows now false (map (λ x, (x.1, event)) (map_range (pg_subscriptions s))) (pg_uuids s) (pg_drawn s).

(** ** EnsureSubscription *)

(** Another transaction is registering the same name. *)
Definition registering (name : string) (s : db) : bool :=
  existsb (λ x, match x.2 with
    | Registering n true | Backfilled n true _ => n =s name | _ => false end) (map_to_list (pg_writers s)).

(** [insert into events.subscriptions ... returning (xmax = 0)]. *)
Definition subscription_is_new (name : string) (s : db) : bool :=
  match pg_subscriptions s !! name with Some _ => false | None => true end.

(** [insert into events.outbox ... select ... from events.events e order by e.global_seq]. *)
Definition backfill (now : Time) (name : string) (s : db) : list outboxRow :=
  new_rows now true (map (λ e, (name, e)) (sort_slice (λ x y, er_seq x <? er_seq y) (pg_events s))) (pg_uuids s) (pg_drawn s).

(** ** Commit *)

Definition commit (w : writer) (s : db) : db :=
  match w with
  | Inserted _ event => s
  | FannedOut _ event rows => s <| pg_events ::= λ es, es ++ [event] |> <| pg_outbox ::= λ rs, rs ++ rows |>
  | Registering name _ => s
  | Backfilled name true rows => s <| pg_subscriptions ::= <[name := ()]> |> <| pg_outbox ::= λ rs, rs ++ rows |>
  | Backfilled _ false _ => s
  end.

(** ** Claiming *)

Definition row_group (r : outboxRow) : string * (string * string) := (ob_subscription r, (ob_type r, ob_aggregate r)).
Definition same_row_group (r r' : outboxRow) : bool :=
  (ob_subscription r =s ob_subscription r') && (ob_type r =s ob_type r') && (ob_aggregate r =s ob_aggregate r').
Definition row_is (st : deliveryStatus) (r : outboxRow) : bool := bool_decide (ob_status r = st).

Definition blocked (rows : list outboxRow) (o : outboxRow) : bool :=
  existsb (λ b, same_row_group b o && (ob_seq b <? ob_seq o) && (row_is deliveryPending b || row_is deliveryDead b)) rows.

(** The [where] clause of [claimStatement]. *)
Definition row_claimable (rows : list outboxRow) (subscription : string) (types : list string) (lease : Duration)
    (now : Time) (o : outboxRow) : bool :=
  (ob_subscription o =s subscription) && row_is deliveryPending o && (ob_available_at o <=? now) &&
  match ob_locked_at o with None => true | Some t => t <? now - make_interval lease end &&
  match types with [] => true | _ => str_in (ob_type o) types end &&
  negb (blocked rows o).

Definition claim_lease (policy : Policy) : Duration := if LeaseTTL policy <=? 0 then Minute else LeaseTTL policy.

(** [claim]: the statement and the message it makes with the event it loads. *)
Definition row_message (r : outboxRow) (e : eventRow) : Message :=
  mkMessage (ob_id r) (ob_event r) (ob_seq r) (ob_type r) (ob_aggregate r) (er_version e) (er_event_type e)
    (er_payload e) (er_metadata e) (er_occurred_at e) (ob_attempts r) (ob_replay r).

Definition pg_claim (subscription : string) (types : list string) (policy : Policy) (workerID : string) (now : Time) (s : db)
    : db * (error + option Message) :=
  let rows := pg_outbox s in
  match sort_slice (λ x y, ob_seq x <? ob_seq y)
          (List.filter (row_claimable rows subscription types (claim_lease policy) now) rows) with
  | [] => (s, inr None)
  | r :: _ =>
      if max_int32 <=? ob_attempts r then (s, inl (Errorf "claim outbox message: " out_of_range ""))
      else
        let take r := r <| ob_locked_at := Some now |> <| ob_locked_by := Some workerID |>
                        <| ob_attempts ::= λ n, n + 1 |> in
        match List.find (λ e, er_id e =s ob_event r) (pg_events s) with
        | None => (s, inl (Errorf ("load event " +:+ ob_event r +:+ ": ") (Sentinel "pgx.ErrNoRows" "no rows in result set") ""))
        | Some e => (s <| pg_outbox ::= update_row (ob_id r) take |>, inr (Some (row_message (take r) e)))
        end
  end.

(** ** Completing *)

(** The two statements of [complete]. *)
Definition row_done (now : Time) (r : outboxRow) : outboxRow :=
  r <| ob_status := deliveryProcessed |> <| ob_processed_at := Some now |> <| ob_locked_at := None |>
    <| ob_locked_by := None |> <| ob_last_error := None |>.
Definition advance (now : Time) (message : Message) (old : option checkpoint) : checkpoint :=
  match old with
  | None => mkCheckpoint (GlobalSeq message) (EventID message) 1 now
  | Some c => mkCheckpoint (Z.max (cp_seq c) (GlobalSeq message)) (EventID message) (cp_processed c + 1) now
  end.
Definition complete (now : Time) (subscription : string) (message : Message) (s : db) : db :=
  s <| pg_outbox ::= update_row (OutboxID message) (row_done now) |>
    <| pg_checkpoints ::= λ cs, <[subscription := advance now message (cs !! subscription)]> cs |>.

(** [fail]. *)
Definition row_failed (now : Time) (dead : bool) (delay : Duration) (reason : string) (r : outboxRow) : outboxRow :=
  r <| ob_status := if dead then deliveryDead else deliveryPending |>
    <| ob_available_at := now + make_interval delay |>
    <| ob_dead_at := if dead then Some now else None |>
    <| ob_locked_at := None |> <| ob_locked_by := None |> <| ob_last_error := Some (left reason 2000) |>.
Definition fail (now : Time) (message : Message) (policy : Policy) (cause : error) (s : db) : db * Result :=
  let dead := MaxAttempts policy <=? Attempts message in
  (s <| pg_outbox ::= update_row (OutboxID message)
       (row_failed now dead (RetryDelay policy (Attempts message)) (ErrorText cause)) |>,
   mkResult (if dead then DeadLettered else Retried) message (Some cause)).

(** The end of [ProcessNext]: the handler's transaction commits with [complete], or is
    rolled back and the failure recorded. *)
Definition settle (now : Time) (c : working) (outcome : option error) (s : db) : db * Result :=
  match outcome with
  | None =>
      ((complete now (wk_subscription c) (wk_message c) s)
         <| pg_applied ::= λ l, l ++ [(wk_subscription c, wk_message c)] |>,
       mkResult Processed (wk_message c) None)
  | Some cause => fail now (wk_message c) (wk_policy c) cause s
  end.

(** ** Inspection and repair *)

Definition dead_before (rows : list outboxRow) (o : outboxRow) : bool :=
  existsb (λ b, same_row_group b o && (ob_seq b <? ob_seq o) && row_is deliveryDead b) rows.
Definition pg_Lag (subscription : string) (s : db) : Z :=
  Z.of_nat (length (List.filter (λ o, (ob_subscription o =s subscription) && row_is deliveryPending o &&
    negb (dead_before (pg_outbox s) o)) (pg_outbox s))).

Definition pg_dead_letter (now : Time) (rows : list outboxRow) (o : outboxRow) (e : eventRow) : DeadLetter :=
  mkDeadLetter (ob_id o) (ob_subscription o) (ob_event o) (er_event_type e) (ob_type o) (ob_aggregate o) (ob_attempts o)
    (default "" (ob_last_error o)) (er_occurred_at e) (default now (ob_dead_at o))
    (Z.of_nat (length (List.filter (λ later, same_row_group later o && (ob_seq o <? ob_seq later) &&
      row_is deliveryPending later) rows))).
(** Nulls come first in a descending order. *)
Definition dead_later (x y : outboxRow * eventRow) : bool :=
  match ob_dead_at x.1, ob_dead_at y.1 with
  | None, None => false
  | None, Some _ => true
  | Some _, None => false
  | Some t, Some u => u <? t
  end.
Definition pg_ListDeadLetters (now : Time) (subscription : string) (limit : Z) (s : db) : list DeadLetter :=
  let limit := if (limit <=? 0) || (200 <? limit) then 50 else limit in
  let joined := flat_map (λ o, map (λ e, (o, e)) (List.filter (λ e, er_id e =s ob_event o) (pg_events s)))
    (List.filter (λ o, ((subscription =s "") || (ob_subscription o =s subscription)) && row_is deliveryDead o) (pg_outbox s)) in
  map (λ x, pg_dead_letter now (pg_outbox s) x.1 x.2) (take (Z.to_nat limit) (sort_slice dead_later joined)).

Definition row_requeued (now : Time) (r : outboxRow) : outboxRow :=
  r <| ob_status := deliveryPending |> <| ob_attempts := 0 |> <| ob_available_at := now |> <| ob_dead_at := None |>
    <| ob_locked_at := None |> <| ob_locked_by := None |> <| ob_last_error := None |>.
Definition pg_RequeueDeadLetter (now : Time) (outboxID : string) (s : db) : db * bool :=
  (s <| pg_outbox ::= map (λ r, if (ob_id r =s outboxID) && row_is deliveryDead r then row_requeued now r else r) |>,
   existsb (λ r, (ob_id r =s outboxID) && row_is deliveryDead r) (pg_outbox s)).

(** ** The steps of concurrent sessions *)

Inductive pg_step :=
  | StepInsert (handle : nat) (event : DomainEvent)
  | StepFanOut (handle : nat) (now : Time)
  | StepRegister (handle : nat) (name : string)
  | StepBackfill (handle : nat) (now : Time)
  | StepCommit (handle : nat)
  | StepRollback (handle : nat)
  | StepClaim (worker : nat) (subscription : string) (types : list string) (policy : Policy) (workerID : string) (now : Time)
  | StepSettle (worker : nat) (outcome : option error) (now : Time)
  | StepCrash (worker : nat)
  | StepRequeue (outboxID : string) (now : Time).

(** A step that cannot be taken, or would have to wait, leaves the state as it is. *)
Definition pg_exec (st : pg_step) (s : db) : db :=
  match st with
  | StepInsert h event => match pg_writers s !! h with None => (append_insert h event s).1 | Some _ => s end
  | StepFanOut h now =>
      match pg_writers s !! h with
      | Some (Inserted lock event) =>
          let rows := fan_out now event s in
          s <| pg_writers ::= <[h := FannedOut lock event rows]> |> <| pg_drawn ::= λ n, (n + length rows)%nat |>
      | _ => s
      end
  | StepRegister h name =>
      match pg_writers s !! h with
      | None => if registering name s then s
                else s <| pg_writers ::= <[h := Registering name (subscription_is_new name s)]> |>
      | Some _ => s
      end
  | StepBackfill h now =>
      match pg_writers s !! h with
      | Some (Registering name true) =>
          let rows := backfill now name s in
          s <| pg_writers ::= <[h := Backfilled name true rows]> |> <| pg_drawn ::= λ n, (n + length rows)%nat |>
      | Some (Registering name false) => s <| pg_writers ::= <[h := Backfilled name false []]> |>
      | _ => s
      end
  | StepCommit h =>
      match pg_writers s !! h with
      | Some ((FannedOut _ _ _ | Backfilled _ _ _) as w) => (commit w s) <| pg_writers ::= delete h |>
      | _ => s
      end
  | StepRollback h => s <| pg_writers ::= delete h |>
  | StepClaim w subscription types policy workerID now =>
      match pg_workers s !! w with
      | Some _ => s
      | None =>
          match pg_claim subscription types policy workerID now s with
          | (s, inr (Some m)) => s <| pg_workers ::= <[w := mkWorking m subscription policy now]> |>
          | (s, _) => s
          end
      end
  | StepSettle w outcome now =>
      match pg_workers s !! w with
      | Some c => (settle now c outcome s).1 <| pg_workers ::= delete w |>
      | None => s
      end
  | StepCrash w => s <| pg_workers ::= delete w |>
  | StepRequeue id now => (pg_RequeueDeadLetter now id s).1
  end.
Definition pg_run (steps : list pg_step) (s : db) : db := foldl (λ s st, pg_exec st s) s steps.

(** A database with no events, whose UUIDs are all different. *)
Definition pg_empty (uuids : nat → string) : db := mkDB [] [] ∅ ∅ 0 uuids 0 ∅ ∅ [].
End Pg.

(** * The consistency of the event log in PostgreSQL

    Sessions append, register, claim, settle and crash in any interleaving of their
    steps.  [LogInv] holds whatever they do: the committed events have sequence numbers
    and ids of their own and increasing versions, every queue row is of a committed event
    and subscription, once, and open transactions write different events, rows and
    subscriptions.  [RowOrder] relates the queue to what was applied of it. *)

(** ** A queue of rows and what was applied of it *)

(** The sequence numbers applied for one aggregate of one subscription. *)
Definition applied_seqs (g : string * (string * string)) (log : list (string * Message)) : list Z :=
  map (λ x, GlobalSeq x.2) (List.filter (λ x, (x.1 =s g.1) && (AggregateType x.2 =s g.2.1) && (AggregateID x.2 =s g.2.2)) log).

Definition row_key (r : outboxRow) : (string * (string * string)) * Z := (row_group r, ob_seq r).
Definition row_shape (r : outboxRow) : string * string * ((string * (string * string)) * Z) := (ob_id r, ob_event r, row_key r).
(** What the order depends on. *)
Definition row_progress (r : outboxRow) := (row_shape r, row_is deliveryProcessed r).

(** Within a group, what is processed comes before what is not, and is what was
    applied, in order and once. *)
Definition row_prefix (rows : list outboxRow) : Prop :=
  ∀ r r', r ∈ rows → r' ∈ rows → row_group r' = row_group r → ob_seq r' < ob_seq r →
    ob_status r = deliveryProcessed → ob_status r' = deliveryProcessed.
Definition rows_agree (rows : list outboxRow) (log : list (string * Message)) : Prop :=
  ∀ g, StronglySorted Z.lt (applied_seqs g log) ∧
    ∀ n, n ∈ applied_seqs g log ↔ ∃ r, r ∈ rows ∧ row_group r = g ∧ ob_status r = deliveryProcessed ∧ ob_seq r = n.
Definition RowOrder (rows : list outboxRow) (log : list (string * Message)) : Prop := row_prefix rows ∧ rows_agree rows log.

Lemma row_is_spec st r : row_is st r = true ↔ ob_status r = st.
Proof. unfold row_is. by rewrite bool_decide_eq_true. Qed.

Lemma progress_elem rows rows' r : map row_progress rows = map row_progress rows' → r ∈ rows →
  ∃ r', r' ∈ rows' ∧ row_progress r' = row_progress r.
Proof.
intros Hm Hr. apply (list_elem_of_fmap_2 row_progress) in Hr. change (row_progress <$> rows) with (map row_progress rows) in Hr.
rewrite Hm in Hr. apply list_elem_of_fmap in Hr as (r' & Heq & Hr'). by exists r'.
Qed.

Lemma progress_fields r r' : row_progress r = row_progress r' →
  ob_id r = ob_id r' ∧ ob_event r = ob_event r' ∧ row_group r = row_group r' ∧ ob_seq r = ob_seq r' ∧
  (ob_status r = deliveryProcessed ↔ ob_status r' = deliveryProcessed).
Proof.
intros [= Hid Hev H1 H2 H3 H4 Hst]. unfold row_group. rewrite H1, H2, H3. split_and!; try done.
rewrite <- !row_is_spec. by rewrite Hst.
Qed.

Lemma RowOrder_progress rows rows' log : map row_progress rows = map row_progress rows' → RowOrder rows log → RowOrder rows' log.
Proof.
intros Hm [Hp Ha]. split.
- intros r r' Hr Hr' Hg Hlt Hst. symmetry in Hm.
  destruct (progress_elem rows' rows r Hm Hr) as (x & Hx & (_ & _ & Hgx & Hsx & Hstx)%progress_fields).
  destruct (progress_elem rows' rows r' Hm Hr') as (x' & Hx' & (_ & _ & Hgx' & Hsx' & Hstx')%progress_fields).
  apply Hstx', (Hp x x'); [done|done|congruence|lia|by apply Hstx].
- intros g. destruct (Ha g) as [Hs Hiff]. split; [done|]. intros n. rewrite Hiff. split; intros (r & Hr & Hg & Hst & Hn).
  + destruct (progress_elem rows rows' r Hm Hr) as (x & Hx & (_ & _ & Hgx & Hsx & Hstx)%progress_fields).
    exists x. split; [done|]. split; [congruence|]. split; [by apply Hstx|congruence].
  + symmetry in Hm. destruct (progress_elem rows' rows r Hm Hr) as (x & Hx & (_ & _ & Hgx & Hsx & Hstx)%progress_fields).
    exists x. split; [done|]. split; [congruence|]. split; [by apply Hstx|congruence].
Qed.

(** New rows come pending and behind those of their group. *)
Lemma RowOrder_app rows new log : RowOrder rows log → (∀ r, r ∈ new → ob_status r = deliveryPending) →
  (∀ r r', r ∈ new → r' ∈ rows → row_group r' = row_group r → ob_seq r' < ob_seq r) → RowOrder (rows ++ new) log.
Proof.
intros [Hp Ha] Hpend Hlt. split.
- intros r r' [Hr|Hr]%elem_of_app [Hr'|Hr']%elem_of_app Hg Hs Hst.
  + exact (Hp r r' Hr Hr' Hg Hs Hst).
  + specialize (Hlt r' r Hr' Hr (eq_sym Hg)). lia.
  + by rewrite Hpend in Hst.
  + by rewrite (Hpend r Hr) in Hst.
- intros g. destruct (Ha g) as [Hs Hiff]. split; [done|]. intros n. rewrite Hiff. split.
  + intros (r & Hr & H1 & H2 & H3). exists r. split; [apply elem_of_app; by left|done].
  + intros (r & [Hr|Hr]%elem_of_app & H1 & H2 & H3); [by exists r|]. by rewrite Hpend in H2.
Qed.

Lemma elem_of_update_row id f rows r : r ∈ update_row id f rows ↔ ∃ r0, r0 ∈ rows ∧ r = if ob_id r0 =s id then f r0 else r0.
Proof. unfold update_row. rewrite list_elem_of_fmap. naive_solver. Qed.

Lemma map_update_row {B} (h : outboxRow → B) id f rows : (∀ r, r ∈ rows → ob_id r = id → h (f r) = h r) →
  map h (update_row id f rows) = map h rows.
Proof.
unfold update_row. rewrite map_map. intros Hf. induction rows as [|r rows IH]; [done|]. cbn. f_equal.
- destruct (String.eqb_spec (ob_id r) id); [|done]. apply Hf; [by left|done].
- apply IH. intros r' Hr'. apply Hf. by right.
Qed.
Arguments update_row : simpl never.

(** Applying the row all of whose predecessors are processed. *)
Lemma applied_seqs_snoc g log sub m : applied_seqs g (log ++ [(sub, m)]) =
  applied_seqs g log ++ (if decide ((sub, (AggregateType m, AggregateID m)) = g) then [GlobalSeq m] else []).
Proof.
unfold applied_seqs. rewrite List.filter_app, map_app. f_equal. cbn [List.filter fst snd]. destruct g as [s [t a]]. cbn [fst snd].
destruct (decide _) as [[= -> -> ->]|Hne]; [by rewrite !eqs_refl|].
destruct (String.eqb_spec sub s), (String.eqb_spec (AggregateType m) t), (String.eqb_spec (AggregateID m) a); try done. by subst.
Qed.

Lemma RowOrder_apply rows log c m f : NoDup (map ob_id rows) → NoDup (map row_key rows) → c ∈ rows →
  ob_status c = deliveryPending →
  (∀ r, r ∈ rows → row_group r = row_group c → ob_seq r < ob_seq c → ob_status r = deliveryProcessed) →
  (AggregateType m, AggregateID m) = (ob_type c, ob_aggregate c) → GlobalSeq m = ob_seq c →
  (∀ r, row_shape (f r) = row_shape r) → ob_status (f c) = deliveryProcessed →
  RowOrder rows log → RowOrder (update_row (ob_id c) f rows) (log ++ [(ob_subscription c, m)]).
Proof.
intros Hids Hkeys Hc Hpend Hbefore Hagg Hseq Hf Hdone [Hp Ha].
assert (∀ r, r ∈ rows → ob_id r = ob_id c → r = c) as Huniq by (intros r Hr Hid; by apply (NoDup_map_inj ob_id rows)).
assert (∀ r, row_group (f r) = row_group r ∧ ob_seq (f r) = ob_seq r) as Hsame.
{ intros r. injection (Hf r) as _ _ H1 H2 H3 H4. unfold row_group. by rewrite H1, H2, H3, H4. }
assert (∀ x, x ∈ update_row (ob_id c) f rows ↔ x = f c ∨ (x ∈ rows ∧ x ≠ c)) as Hin.
{ intros x. rewrite elem_of_update_row. split.
  - intros (r & Hr & ->). destruct (String.eqb_spec (ob_id r) (ob_id c)) as [Heq|Hne].
    + left. by rewrite (Huniq r Hr Heq).
    + right. split; [done|]. by intros ->.
  - intros [->|[Hx Hne]].
    + exists c. by rewrite eqs_refl.
    + exists x. split; [done|]. rewrite eqs_ne; [done|]. intros Heq. by apply Hne, Huniq. }
split.
- intros r r' [->|[Hr Hrc]]%Hin [->|[Hr' Hrc']]%Hin Hg Hlt Hst; rewrite ?(proj1 (Hsame c)), ?(proj2 (Hsame c)) in *.
  + lia.
  + by apply Hbefore.
  + done.
  + exact (Hp r r' Hr Hr' Hg Hlt Hst).
- intros g. destruct (Ha g) as [Hs Hiff]. rewrite applied_seqs_snoc, Hagg, Hseq. fold (row_group c).
  destruct (decide (row_group c = g)) as [<-|Hne].
  + split.
    * apply StronglySorted_snoc; [done|]. intros n (r & Hr & Hgr & Hst & <-)%Hiff.
      destruct (Z.lt_trichotomy (ob_seq r) (ob_seq c)) as [Hlt|[Heq|Hgt]]; [done|exfalso..].
      -- assert (r = c) as -> by (apply (NoDup_map_inj row_key rows); [done..|]; unfold row_key; by rewrite Hgr, Heq). congruence.
      -- assert (ob_status c = deliveryProcessed) by (by eapply (Hp r c)). congruence.
    * intros n. rewrite elem_of_app, list_elem_of_singleton, Hiff. split.
      -- intros [(r & Hr & Hgr & Hst & Hn)| ->].
         ++ exists r. split; [apply Hin; right; split; [done|]; intros ->; congruence|done].
         ++ exists (f c). split; [apply Hin; by left|]. destruct (Hsame c) as [-> ->]. done.
      -- intros (r & [->|[Hr Hrc]]%Hin & Hgr & Hst & Hn); [right; by destruct (Hsame c) as [_ <-]|left; by exists r].
  + rewrite app_nil_r. split; [done|]. intros n. rewrite Hiff. split.
    * intros (r & Hr & Hgr & Hst & Hn). exists r. split; [apply Hin; right; split; [done|]; intros ->; congruence|done].
    * intros (r & [->|[Hr Hrc]]%Hin & Hgr & Hst & Hn); [|by exists r]. destruct (Hsame c) as [Hgc _]. congruence.
Qed.

(** ** The log and the transactions writing it *)

Definition same_aggregate_event (e e' : eventRow) : Prop := er_type e = er_type e' ∧ er_aggregate e = er_aggregate e'.
(** A row is about an event. *)
Definition row_for (e : eventRow) (r : outboxRow) : Prop :=
  ob_event r = er_id e ∧ ob_seq r = er_seq e ∧ ob_type r = er_type e ∧ ob_aggregate r = er_aggregate e.

Definition rows_of (w : writer) : list outboxRow :=
  match w with FannedOut _ _ rows | Backfilled _ true rows => rows | _ => [] end.
(** The subscription a transaction is about to add. *)
Definition registers (w : writer) : option string :=
  match w with Registering name true | Backfilled name true _ => Some name | _ => None end.

Definition drawn_id (s : db) (r : outboxRow) : Prop := ∃ k, (k < pg_drawn s)%nat ∧ ob_id r = pg_uuids s k.

(** An inserted event is new, the last of its aggregate, and has the next version. *)
Definition event_ok (s : db) (e : eventRow) : Prop :=
  er_seq e ≤ pg_sequence s ∧ er_version e = next_version (er_type e) (er_aggregate e) (pg_events s) ∧
  ∀ e', e' ∈ pg_events s → er_id e' ≠ er_id e ∧ er_seq e' < er_seq e ∨
    er_id e' ≠ er_id e ∧ er_seq e' ≠ er_seq e ∧ ¬ same_aggregate_event e' e.
Definition rows_ok (s : db) (rows : list outboxRow) : Prop :=
  NoDup (map ob_id rows) ∧ ∀ r, r ∈ rows → ob_status r = deliveryPending ∧ drawn_id s r ∧
    ∀ r', r' ∈ pg_outbox s → ob_id r' ≠ ob_id r.
Definition writer_ok (s : db) (w : writer) : Prop :=
  match w with
  | Inserted _ e => event_ok s e
  | FannedOut _ e rows => event_ok s e ∧ rows_ok s rows ∧ NoDup (map ob_subscription rows) ∧
      ∀ r, r ∈ rows → row_for e r ∧ is_Some (pg_subscriptions s !! ob_subscription r)
  | Registering name true => pg_subscriptions s !! name = None
  | Backfilled name true rows => pg_subscriptions s !! name = None ∧ rows_ok s rows ∧ NoDup (map row_key rows) ∧
      ∀ r, r ∈ rows → ob_subscription r = name ∧ ∃ e, e ∈ pg_events s ∧ row_for e r
  | _ => True
  end.
(** Two transactions write different events, rows and subscriptions. *)
Definition writers_apart (w w' : writer) : Prop :=
  (∀ l e l' e', written w = Some (l, e) → written w' = Some (l', e') →
     er_id e ≠ er_id e' ∧ er_seq e ≠ er_seq e' ∧ ¬ same_aggregate_event e e') ∧
  (∀ r r', r ∈ rows_of w → r' ∈ rows_of w' → ob_id r ≠ ob_id r') ∧
  (∀ name, registers w = Some name → registers w' ≠ Some name).

Record LogInv (s : db) : Prop := {
  li_seq e : e ∈ pg_events s → er_seq e ≤ pg_sequence s;
  li_seqs : NoDup (map er_seq (pg_events s));
  li_ids : NoDup (map er_id (pg_events s));
  li_versions e e' : e ∈ pg_events s → e' ∈ pg_events s → same_aggregate_event e e' → er_seq e < er_seq e' →
    er_version e < er_version e';
  li_rows r : r ∈ pg_outbox s → (∃ e, e ∈ pg_events s ∧ row_for e r) ∧ is_Some (pg_subscriptions s !! ob_subscription r);
  li_row_ids : NoDup (map ob_id (pg_outbox s));
  li_row_keys : NoDup (map row_key (pg_outbox s));
  li_row_drawn r : r ∈ pg_outbox s → drawn_id s r;
  li_writers h w : pg_writers s !! h = Some w → writer_ok s w;
  li_apart h h' w w' : h ≠ h' → pg_writers s !! h = Some w → pg_writers s !! h' = Some w' → writers_apart w w';
  li_uuids : ∀ i j, pg_uuids s i = pg_uuids s j → i = j
}.

Lemma writers_apart_sym w w' : writers_apart w w' → writers_apart w' w.
Proof.
intros (H1 & H2 & H3). split_and!.
- intros l e l' e' Hw Hw'. destruct (H1 l' e' l e Hw' Hw) as (Ha & Hb & Hc). split_and!; try congruence.
  intros [Ht Hg]. apply Hc. by split.
- intros r r' Hr Hr' Heq. by apply (H2 r' r).
- intros name Hw Hw'. by apply (H3 name).
Qed.

Lemma next_version_above t a events e : e ∈ events → er_type e = t → er_aggregate e = a → er_version e < next_version t a events.
Proof.
intros He Ht Ha. unfold next_version. induction events as [|x events IH]; [by apply not_elem_of_nil in He|]. cbn.
apply elem_of_cons in He as [->|He]; [rewrite Ht, Ha, !eqs_refl; cbn; lia|]. specialize (IH He). destruct (_ && _); lia.
Qed.

Lemma next_version_snoc t a events e : ¬ (er_type e = t ∧ er_aggregate e = a) → next_version t a (events ++ [e]) = next_version t a events.
Proof.
intros Hne. unfold next_version. rewrite foldr_app. cbn.
destruct (String.eqb_spec (er_type e) t), (String.eqb_spec (er_aggregate e) a); cbn; try done. tauto.
Qed.

(** Replacing one transaction. *)
Lemma LogInv_writer s s' h w : LogInv s →
  pg_events s' = pg_events s → pg_outbox s' = pg_outbox s → pg_subscriptions s' = pg_subscriptions s →
  pg_uuids s' = pg_uuids s → pg_sequence s ≤ pg_sequence s' → (pg_drawn s ≤ pg_drawn s')%nat →
  pg_writers s' = <[h := w]> (pg_writers s) → writer_ok s' w →
  (∀ h' w', h' ≠ h → pg_writers s !! h' = Some w' → writers_apart w w') → LogInv s'.
Proof.
intros [H1 H2 H3 H4 H5 H6 H7 H8 H9 H10 H11] He Ho Hs Hu Hq Hd Hw Hok Hap.
assert (∀ r, drawn_id s r → drawn_id s' r) as Hdr by (intros r (k & Hk & Hid); exists k; rewrite Hu; split; [lia|done]).
assert (∀ e, event_ok s e → event_ok s' e) as Heok by (intros e (Ha & Hb & Hc); unfold event_ok; rewrite He; split_and!; [lia|done..]).
assert (∀ rows, rows_ok s rows → rows_ok s' rows) as Hrok.
{ intros rows [Ha Hb]. split; [done|]. intros r Hr. destruct (Hb r Hr) as (Hc & Hd' & Hx). rewrite Ho. split_and!; auto. }
split; rewrite ?He, ?Ho, ?Hs, ?Hu; try done.
- intros e Hin. specialize (H1 e Hin). lia.
- intros r Hr. by apply Hdr, H8.
- intros h' w'. rewrite Hw, lookup_insert_Some. intros [[<- <-]|[Hne Hl]]; [done|]. specialize (H9 h' w' Hl).
  destruct w' as [l e|l e rows|n [|]|n [|] rows]; cbn in *; rewrite ?Hs, ?He; try done; [by apply Heok|..].
  + destruct H9 as (Ha & Hb & Hc). split_and!; [by apply Heok|by apply Hrok|apply Hc..].
  + destruct H9 as (Ha & Hb & Hc). split_and!; [done|by apply Hrok|apply Hc..].
- intros h1 h2 w1 w2 Hne. rewrite Hw, !lookup_insert_Some. intros [[<- <-]|[Hn1 Hl1]] [[<- <-]|[Hn2 Hl2]]; [done|..].
  + by apply (Hap h2).
  + apply writers_apart_sym. by apply (Hap h1).
  + by apply (H10 h1 h2).
Qed.

(** Ending a transaction without a trace. *)
Lemma LogInv_end s h : LogInv s → LogInv (s <| pg_writers ::= delete h |>).
Proof.
intros [H1 H2 H3 H4 H5 H6 H7 H8 H9 H10 H11]. split; cbn; try done.
- intros h' w'. rewrite lookup_delete_Some. intros [_ Hl]. exact (H9 h' w' Hl).
- intros h1 h2 w1 w2 Hne. rewrite !lookup_delete_Some. intros [_ Hl1] [_ Hl2]. by apply (H10 h1 h2).
Qed.

(** Rows that change in nothing the log depends on. *)
Lemma shape_elem rows rows' r : map row_shape rows = map row_shape rows' → r ∈ rows → ∃ r', r' ∈ rows' ∧ row_shape r' = row_shape r.
Proof.
intros Hm Hr. apply (list_elem_of_fmap_2 row_shape) in Hr. change (row_shape <$> rows) with (map row_shape rows) in Hr.
rewrite Hm in Hr. apply list_elem_of_fmap in Hr as (r' & Heq & Hr'). by exists r'.
Qed.

Lemma map_shape {B} (g : string * string * ((string * (string * string)) * Z) → B) rows rows' :
  map row_shape rows = map row_shape rows' → map (λ r, g (row_shape r)) rows = map (λ r, g (row_shape r)) rows'.
Proof. intros Hm. apply (f_equal (map g)) in Hm. by rewrite !map_map in Hm. Qed.

Lemma LogInv_rows s s' : LogInv s → map row_shape (pg_outbox s') = map row_shape (pg_outbox s) →
  pg_events s' = pg_events s → pg_subscriptions s' = pg_subscriptions s → pg_uuids s' = pg_uuids s →
  pg_sequence s' = pg_sequence s → pg_drawn s' = pg_drawn s → pg_writers s' = pg_writers s → LogInv s'.
Proof.
intros [H1 H2 H3 H4 H5 H6 H7 H8 H9 H10 H11] Hm He Hs Hu Hq Hd Hw.
assert (∀ r', r' ∈ pg_outbox s' → ∃ r, r ∈ pg_outbox s ∧ row_shape r = row_shape r') as Hold by (intros r'; by apply shape_elem).
assert (∀ rows, rows_ok s rows → rows_ok s' rows) as Hrok.
{ intros rows [Ha Hb]. split; [done|]. intros r Hr. destruct (Hb r Hr) as (Hc & (k & Hk & Hid) & Hx). split; [done|]. split.
  - exists k. by rewrite Hd, Hu.
  - intros r' Hr'. destruct (Hold r' Hr') as (r0 & Hr0 & [= Hi _ _ _ _ _]). rewrite <- Hi. by apply Hx. }
assert (∀ e, event_ok s e → event_ok s' e) as Heok by (intros e; unfold event_ok; by rewrite He, Hq).
split; rewrite ?He, ?Hs, ?Hq; try done.
- intros r Hr. destruct (Hold r Hr) as (r0 & Hr0 & [= _ Hev Hsub Hty Hag Hsq]). destruct (H5 r0 Hr0) as ((e & Hine & Ha & Hb & Hc & Hdd) & Hi).
  split; [|by rewrite <- Hsub]. exists e. split; [done|]. unfold row_for. rewrite <- Hev, <- Hty, <- Hag, <- Hsq. by split_and!.
- assert (map ob_id (pg_outbox s') = map ob_id (pg_outbox s)) as -> by exact (map_shape (λ x, x.1.1) _ _ Hm). done.
- assert (map row_key (pg_outbox s') = map row_key (pg_outbox s)) as -> by exact (map_shape (λ x, x.2) _ _ Hm). done.
- intros r Hr. destruct (Hold r Hr) as (r0 & Hr0 & [= Hi _ _ _ _ _]). destruct (H8 r0 Hr0) as (k & Hk & Hid).
  exists k. by rewrite Hd, Hu, <- Hi.
- intros h w. rewrite Hw. intros Hl. specialize (H9 h w Hl).
  destruct w as [l e|l e rows|n [|]|n [|] rows]; cbn in *; rewrite ?Hs, ?He; try done; [by apply Heok|..].
  + destruct H9 as (Ha & Hb & Hc). split_and!; [by apply Heok|by apply Hrok|apply Hc..].
  + destruct H9 as (Ha & Hb & Hc). split_and!; [done|by apply Hrok|apply Hc..].
- intros h1 h2 w1 w2. rewrite Hw. by apply H10.
- intros i j. rewrite Hu. by apply H11.
Qed.

Lemma NoDup_snoc_map {A B} (f : A → B) l x : NoDup (map f l) → (∀ y, y ∈ l → f y ≠ f x) → NoDup (map f (l ++ [x])).
Proof.
intros Hl Hx. rewrite map_app. apply NoDup_app. split; [done|]. split; [|apply NoDup_singleton].
intros z (y & -> & Hy)%list_elem_of_fmap Hz%list_elem_of_singleton. by apply (Hx y).
Qed.
Lemma NoDup_app_map {A B} (f : A → B) l l' : NoDup (map f l) → NoDup (map f l') → (∀ x y, x ∈ l → y ∈ l' → f x ≠ f y) →
  NoDup (map f (l ++ l')).
Proof.
intros Hl Hl' Hx. rewrite map_app. apply NoDup_app. split; [done|]. split; [|done].
intros z (y & -> & Hy)%list_elem_of_fmap (y' & Heq & Hy')%list_elem_of_fmap. by apply (Hx y y').
Qed.

(** An [Append] commits. *)
Lemma LogInv_commit_event s h l e rows : LogInv s → pg_writers s !! h = Some (FannedOut l e rows) →
  LogInv ((commit (FannedOut l e rows) s) <| pg_writers ::= delete h |>).
Proof.
intros [H1 H2 H3 H4 H5 H6 H7 H8 H9 H10 H11] Hw. destruct (H9 h _ Hw) as ((Hseq & Hver & Hnew) & [Hri Hrok] & Hsubs & Hrows).
assert (∀ e', e' ∈ pg_events s → er_id e' ≠ er_id e ∧ er_seq e' ≠ er_seq e) as Hdiff.
{ intros e' He'. destruct (Hnew e' He') as [[Hi Hlt]|(Hi & Hn & _)]; split; try done. lia. }
assert (∀ h' w', h' ≠ h → pg_writers s !! h' = Some w' → writers_apart (FannedOut l e rows) w') as Hap by (intros; by eapply (H10 h h')).
assert (∀ h' l' e', h' ≠ h → (∃ w', pg_writers s !! h' = Some w' ∧ written w' = Some (l', e')) → event_ok s e' →
  event_ok ((commit (FannedOut l e rows) s) <| pg_writers ::= delete h |>) e') as Heok.
{ intros h' l' e' Hne (w' & Hw' & Hwr) (Ha & Hb & Hc). destruct (proj1 (Hap h' w' Hne Hw') l e l' e' eq_refl Hwr) as (Hi & Hs & Hagg).
  unfold event_ok. cbn. split; [done|]. split.
  - rewrite next_version_snoc; [done|]. intros [? ?]. by apply Hagg.
  - intros x [Hx| ->%list_elem_of_singleton]%elem_of_app; [by apply Hc|]. by right. }
assert (∀ h' w', h' ≠ h → pg_writers s !! h' = Some w' → ∀ rs, rows_of w' = rs → rows_ok s rs →
  rows_ok ((commit (FannedOut l e rows) s) <| pg_writers ::= delete h |>) rs) as Hrok'.
{ intros h' w' Hne Hw' rs <- [Ha Hb]. split; [done|]. intros r Hr. destruct (Hb r Hr) as (Hc & Hd & Hx). split; [done|]. split; [done|].
  cbn. intros r' [Hr'|Hr']%elem_of_app; [by apply Hx|]. destruct (Hap h' w' Hne Hw') as (_ & Hr2 & _). by apply Hr2. }
split; cbn.
- intros x [Hx| ->%list_elem_of_singleton]%elem_of_app; [by apply H1|done].
- apply NoDup_snoc_map; [done|]. intros y Hy. by apply Hdiff.
- apply NoDup_snoc_map; [done|]. intros y Hy. by apply Hdiff.
- intros x y [Hx| ->%list_elem_of_singleton]%elem_of_app [Hy| ->%list_elem_of_singleton]%elem_of_app Hsame Hlt; [by apply H4|..|lia].
  + rewrite Hver. apply next_version_above; [done|apply Hsame..].
  + destruct (Hnew y Hy) as [[_ Hlt']|(_ & _ & Hn)]; [lia|]. destruct Hn. destruct Hsame. by split.
- intros r [Hr|Hr]%elem_of_app.
  + destruct (H5 r Hr) as ((x & Hx & Hf) & Hs). split; [|done]. exists x. split; [apply elem_of_app; by left|done].
  + destruct (Hrows r Hr) as [Hf Hs]. split; [|done]. exists e. split; [apply elem_of_app; right; by left|done].
- apply NoDup_app_map; [done..|]. intros r r' Hr Hr'. by apply (Hrok r' Hr').
- apply NoDup_app_map; [done|..].
  + clear -Hsubs. induction rows as [|r rows IH]; [constructor|]. cbn in *. apply NoDup_cons in Hsubs as [Hn Hsubs].
    apply NoDup_cons. split; [|by apply IH]. intros (r' & Heq & Hr')%list_elem_of_fmap. apply Hn.
    injection Heq as Hs _ _ _. rewrite Hs. by apply (list_elem_of_fmap_2 ob_subscription).
  + intros r r' Hr Hr' Heq. destruct (H5 r Hr) as ((x & Hx & _ & Hs & Ht & Ha) & _). destruct (Hrows r' Hr') as ((_ & Hs' & Ht' & Ha') & _).
    apply (Hdiff x Hx). unfold row_key, row_group in Heq. congruence.
- intros r [Hr|Hr]%elem_of_app; [by apply H8|]. by apply Hrok.
- intros h' w'. rewrite lookup_delete_Some. intros [Hne Hl]. apply not_eq_sym in Hne. specialize (H9 h' w' Hl).
  destruct w' as [l' e'|l' e' rs|n [|]|n [|] rs]; cbn in *; try done.
  + apply (Heok h' l'); [done| |done]. by eexists.
  + destruct H9 as (Ha & Hb & Hc & Hd). split_and!; [apply (Heok h' l'); [done|by eexists|done]|by eapply Hrok'|done..].
  + destruct H9 as (Ha & Hb & Hc & Hd). split_and!; [done|by eapply Hrok'|done|]. intros r Hr. destruct (Hd r Hr) as (Hs & x & Hx & Hf).
    split; [done|]. exists x. split; [apply elem_of_app; by left|done].
- intros h1 h2 w1 w2 Hne. rewrite !lookup_delete_Some. intros [_ Hl1] [_ Hl2]. by apply (H10 h1 h2).
- done.
Qed.

(** A registration commits. *)
Lemma LogInv_commit_rows s h n rows : LogInv s → pg_writers s !! h = Some (Backfilled n true rows) →
  LogInv ((commit (Backfilled n true rows) s) <| pg_writers ::= delete h |>).
Proof.
intros [H1 H2 H3 H4 H5 H6 H7 H8 H9 H10 H11] Hw. destruct (H9 h _ Hw) as (Hnone & [Hri Hrok] & Hkeys & Hrows).
assert (∀ h' w', h' ≠ h → pg_writers s !! h' = Some w' → writers_apart (Backfilled n true rows) w') as Hap by (intros; by eapply (H10 h h')).
assert (∀ h' w', h' ≠ h → pg_writers s !! h' = Some w' → ∀ rs, rows_of w' = rs → rows_ok s rs →
  rows_ok ((commit (Backfilled n true rows) s) <| pg_writers ::= delete h |>) rs) as Hrok'.
{ intros h' w' Hne Hw' rs <- [Ha Hb]. split; [done|]. intros r Hr. destruct (Hb r Hr) as (Hc & Hd & Hx). split; [done|]. split; [done|].
  cbn. intros r' [Hr'|Hr']%elem_of_app; [by apply Hx|]. destruct (Hap h' w' Hne Hw') as (_ & Hr2 & _). by apply Hr2. }
assert (∀ m, is_Some (pg_subscriptions s !! m) → is_Some (<[n:=()]> (pg_subscriptions s) !! m)) as Hmono.
{ intros m Hm. rewrite lookup_insert_is_Some'. by right. }
split; cbn; try done.
- intros r [Hr|Hr]%elem_of_app.
  + destruct (H5 r Hr) as (Hf & Hs). split; [done|by apply Hmono].
  + destruct (Hrows r Hr) as [-> Hf]. split; [done|]. by rewrite lookup_insert_eq.
- apply NoDup_app_map; [done..|]. intros r r' Hr Hr'. by apply (Hrok r' Hr').
- apply NoDup_app_map; [done..|]. intros r r' Hr Hr' Heq. destruct (H5 r Hr) as (_ & Hs). destruct (Hrows r' Hr') as [Hn _].
  injection Heq as Hsub _ _ _. rewrite Hsub, Hn, Hnone in Hs. by destruct Hs.
- intros r [Hr|Hr]%elem_of_app; [by apply H8|]. by apply Hrok.
- intros h' w'. rewrite lookup_delete_Some. intros [Hne Hl]. apply not_eq_sym in Hne. specialize (H9 h' w' Hl).
  destruct (Hap h' w' Hne Hl) as (_ & _ & Hreg). specialize (Hreg n eq_refl).
  assert (∀ m, registers w' = Some m → pg_subscriptions s !! m = None → <[n:=()]> (pg_subscriptions s) !! m = None) as Hfresh.
  { intros m Hm Hnm. rewrite lookup_insert_ne; [done|]. congruence. }
  destruct w' as [l' e'|l' e' rs|m [|]|m [|] rs]; cbn in *; try done.
  + destruct H9 as (Ha & Hb & Hc & Hd). split_and!; [done|by eapply Hrok'|done|]. intros r Hr. destruct (Hd r Hr) as [Hf Hs]. split; [done|by apply Hmono].
  + by apply Hfresh.
  + destruct H9 as (Ha & Hb & Hc & Hd). split_and!; [by apply Hfresh|by eapply Hrok'|done..].
- intros h1 h2 w1 w2 Hne. rewrite !lookup_delete_Some. intros [_ Hl1] [_ Hl2]. by apply (H10 h1 h2).
Qed.

(** ** The steps keep the log *)

Lemma new_rows_elem now replay pairs ids n r : r ∈ new_rows now replay pairs ids n →
  ∃ k x, (n ≤ k < n + length pairs)%nat ∧ x ∈ pairs ∧ r = new_row now replay x.1 x.2 (ids k).
Proof.
revert n. induction pairs as [|[sub e] pairs IH]; intros n Hr; [by apply not_elem_of_nil in Hr|]. cbn in Hr.
apply elem_of_cons in Hr as [->|Hr].
- exists n, (sub, e). split; [cbn; lia|]. split; [by left|done].
- destruct (IH _ Hr) as (k & x & Hk & Hx & ->). exists k, x. split; [cbn; lia|]. split; [by right|done].
Qed.
Lemma new_rows_map {B} (f : outboxRow → B) (g : string * eventRow → B) now replay pairs ids n :
  (∀ x id, f (new_row now replay x.1 x.2 id) = g x) → map f (new_rows now replay pairs ids n) = map g pairs.
Proof.
intros Hf. revert n. induction pairs as [|[sub e] pairs IH]; intros n; [done|]. cbn. by rewrite IH, <- (Hf (sub, e) (ids n)).
Qed.
Lemma new_rows_length now replay pairs ids n : length (new_rows now replay pairs ids n) = length pairs.
Proof. revert n. induction pairs as [|[sub e] pairs IH]; intros n; [done|]. cbn. by rewrite IH. Qed.

Lemma new_rows_ids now replay pairs ids n : (∀ i j, ids i = ids j → i = j) → NoDup (map ob_id (new_rows now replay pairs ids n)).
Proof.
intros Hinj. revert n. induction pairs as [|[sub e] pairs IH]; intros n; [constructor|]. cbn. apply NoDup_cons. split; [|apply IH].
intros (r & Heq & Hr)%list_elem_of_fmap. apply new_rows_elem in Hr as (k & x & Hk & _ & ->). cbn in Heq. apply Hinj in Heq. lia.
Qed.

(** Rows drawn now are new to every table and transaction. *)
Lemma new_rows_ok s s' now replay pairs : LogInv s → pg_outbox s' = pg_outbox s → pg_uuids s' = pg_uuids s →
  pg_drawn s' = (pg_drawn s + length pairs)%nat → let rows := new_rows now replay pairs (pg_uuids s) (pg_drawn s) in
  rows_ok s' rows ∧ ∀ h w r r', pg_writers s !! h = Some w → r ∈ rows → r' ∈ rows_of w → ob_id r ≠ ob_id r'.
Proof.
intros Hs Ho Hu Hd rows. assert (∀ r r', r ∈ rows → drawn_id s r' → ob_id r' ≠ ob_id r) as Hnew.
{ intros r r' Hr (k' & Hk' & Hid'). apply new_rows_elem in Hr as (k & x & Hk & _ & ->). cbn. rewrite Hid'.
  intros Heq%(li_uuids _ Hs). lia. }
split; [split|].
- apply new_rows_ids, (li_uuids _ Hs).
- intros r Hr. pose proof Hr as Hr'. apply new_rows_elem in Hr' as (k & x & Hk & _ & ->). split; [done|]. split.
  + exists k. rewrite Hd, Hu. split; [lia|done].
  + rewrite Ho. intros r' Hr'. apply Hnew; [done|]. by apply (li_row_drawn _ Hs).
- intros h w r r' Hw Hr Hr' Heq. apply (Hnew r r'); [done| |done]. pose proof (li_writers _ Hs h w Hw) as Hok.
  destruct w as [l e|l e rs|m [|]|m [|] rs]; cbn in Hr'; try (by apply not_elem_of_nil in Hr').
  + destruct Hok as (_ & [_ Hr2] & _). by apply Hr2.
  + destruct Hok as (_ & [_ Hr2] & _). by apply Hr2.
Qed.

Section Steps.
Context `{GoRuntime}.
Context (uuid_Parse : string → error + string) (hashtext : string → Z).
Context (make_interval : Duration → Duration) (left : string → Z → string) (unique_violation out_of_range : error).
Abbreviation exec := (pg_exec uuid_Parse hashtext make_interval left unique_violation out_of_range).

Lemma uncommitted_spec row s h w l e : uncommitted_collision row s = false → pg_writers s !! h = Some w →
  written w = Some (l, e) → collides row e = false.
Proof.
intros Hc Hw Hwr. unfold uncommitted_collision in Hc. destruct (collides row e) eqn:Hcol; [|done].
rewrite <- Hc. symmetry. apply existsb_exists. exists (h, w). split; [by apply list_elem_of_In, elem_of_map_to_list|]. cbn. by rewrite Hwr.
Qed.
Lemma collides_false e e' : collides e e' = false → er_id e ≠ er_id e' ∧
  (same_aggregate_event e e' → er_version e ≠ er_version e').
Proof.
unfold collides, same_aggregate_event. intros [Hi Hv]%orb_false_iff. apply String.eqb_neq in Hi. split; [done|].
intros [Ht Ha] Hver. by rewrite Ht, Ha, Hver, !eqs_refl, Z.eqb_refl in Hv.
Qed.
Lemma committed_new row s : existsb (collides row) (pg_events s) = false → ∀ e, e ∈ pg_events s → collides row e = false.
Proof.
intros Hc e He. destruct (collides row e) eqn:Hcol; [|done]. rewrite <- Hc. symmetry. apply existsb_exists. exists e.
by rewrite <- list_elem_of_In.
Qed.

Lemma LogInv_insert s h ev : LogInv s → pg_writers s !! h = None → LogInv (append_insert uuid_Parse hashtext unique_violation h ev s).1.
Proof.
intros Hs Hh. unfold append_insert. destruct (new_event _ ev s) as [x|row] eqn:Hrow; [done|].
assert (er_version row = next_version (er_type row) (er_aggregate row) (pg_events s) ∧ er_seq row = pg_sequence s + 1) as [Hver Hseq].
{ unfold new_event in Hrow. destruct (uuid_Parse _); [done|]. destruct (uuid_Parse _); [done|]. destruct (Marshal _); [done|].
  by injection Hrow as <-. }
destruct (_ || _) eqn:Hwait; [done|]. apply orb_false_iff in Hwait as [_ Hun].
assert (LogInv (s <| pg_sequence ::= λ n, n + 1 |>)) as Hs1.
{ destruct Hs as [H1 H2 H3 H4 H5 H6 H7 H8 H9 H10 H11]. split; cbn; try done.
  - intros e He. specialize (H1 e He). lia.
  - intros h' w' Hw. specialize (H9 h' w' Hw). destruct w' as [l e|l e rs|m [|]|m [|] rs]; cbn in *; try done.
    + destruct H9 as (Ha & Hb & Hc). unfold event_ok. cbn. split_and!; [lia|done..].
    + destruct H9 as ((Ha & Hb & Hc) & Hd). unfold event_ok. cbn. split; [split_and!; [lia|done..]|done]. }
cbn. destruct (existsb _ _) eqn:Hex; [exact Hs1|]. cbn. eapply (LogInv_writer s _ h (Inserted _ row)); try done; cbn; [lia| |].
- unfold event_ok. cbn. split; [lia|]. split; [done|]. intros e He. pose proof (li_seq _ Hs e He) as Hle. left.
  destruct (collides_false _ _ (committed_new row s Hex e He)) as [Hi _]. split; [congruence|lia].
- intros h' w' Hne Hw'. split; [|split; [by intros ? ? ?%not_elem_of_nil|done]]. intros l e l' e' [= <- <-] Hwr.
  destruct (collides_false _ _ (uncommitted_spec row s h' w' l' e' Hun Hw' Hwr)) as [Hi Hv]. split; [done|].
  assert (event_ok s e') as (Hq & Hve & _).
  { pose proof (li_writers _ Hs h' w' Hw') as Hok. destruct w' as [? ?|? ? ?| |]; try done; injection Hwr as -> ->; [done|by destruct Hok]. }
  split; [lia|]. intros [Ht Ha]. apply Hv; [by split|]. rewrite Hver, Hve. by rewrite Ht, Ha.
Qed.

Lemma registering_false n s h w : registering n s = false → pg_writers s !! h = Some w → registers w ≠ Some n.
Proof.
intros Hr Hw Hn. unfold registering in Hr. apply not_true_iff_false in Hr. apply Hr, existsb_exists. exists (h, w).
split; [by apply list_elem_of_In, elem_of_map_to_list|]. cbn. destruct w as [| |m [|]|m [|] rs]; try done; injection Hn as ->; apply eqs_refl.
Qed.

Lemma LogInv_exec st s : LogInv s → LogInv (exec st s).
Proof.
intros Hs. destruct st as [h ev|h now|h name|h now|h|h|w sub types policy worker now|w outcome now|w|id now]; cbn [pg_exec].
- destruct (pg_writers s !! h) eqn:Hh; [done|]. by apply LogInv_insert.
- destruct (pg_writers s !! h) as [[l e| | |]|] eqn:Hh; try done. set (rows := fan_out now e s).
  set (s' := _ <| pg_drawn ::= _ |>). pose proof (li_writers _ Hs h _ Hh) as Hok. cbn in Hok.
  destruct (new_rows_ok s s' now false (map (λ x, (x.1, e)) (map_range (pg_subscriptions s))) Hs) as [Hrok Hrap];
    [done|done|cbn; unfold rows, fan_out; by rewrite new_rows_length|]. fold rows in Hrok, Hrap.
  eapply (LogInv_writer s s' h (FannedOut l e rows)); try done; cbn; [lia|..].
  + split; [done|]. split; [done|]. split.
    * unfold rows, fan_out. rewrite (new_rows_map ob_subscription fst) by done. rewrite map_map. cbn. apply map_range_keys_nodup.
    * intros r Hr. unfold rows, fan_out in Hr. apply new_rows_elem in Hr as (k & x & _ & Hx & ->).
      apply list_elem_of_fmap in Hx as ([m []] & -> & Hm). cbn. split; [by split_and!|].
      rewrite map_range_perm in Hm. apply elem_of_map_to_list in Hm. by rewrite Hm.
  + intros h' w' Hne Hw'. destruct (li_apart _ Hs h h' _ _ (not_eq_sym Hne) Hh Hw') as (H1 & _ & _). split; [exact H1|].
    split; [|done]. intros r r' Hr Hr'. by apply (Hrap h' w').
- destruct (pg_writers s !! h) eqn:Hh; [done|]. destruct (registering name s) eqn:Hreg; [done|].
  eapply (LogInv_writer s _ h (Registering name (subscription_is_new name s))); try done; cbn.
  + unfold subscription_is_new. by destruct (pg_subscriptions s !! name) eqn:Hn.
  + intros h' w' Hne Hw'. split; [done|]. split; [by intros ? ? ?%not_elem_of_nil|]. intros m Hm Hm'.
    cbn in Hm. destruct (subscription_is_new name s); [|done]. injection Hm as <-. by apply (registering_false name s h' w').
- destruct (pg_writers s !! h) as [[| |name [|]|]|] eqn:Hh; try done.
  + set (rows := backfill now name s). set (s' := _ <| pg_drawn ::= _ |>). pose proof (li_writers _ Hs h _ Hh) as Hok. cbn in Hok.
    destruct (new_rows_ok s s' now true (map (λ e, (name, e)) (sort_slice (λ x y, er_seq x <? er_seq y) (pg_events s))) Hs) as [Hrok Hrap];
      [done|done|cbn; unfold rows, backfill; by rewrite new_rows_length|]. fold rows in Hrok, Hrap.
    eapply (LogInv_writer s s' h (Backfilled name true rows)); try done; cbn; [lia|..].
    * split; [done|]. split; [done|]. split.
      -- unfold rows, backfill. rewrite (new_rows_map row_key (λ x, ((x.1, (er_type x.2, er_aggregate x.2)), er_seq x.2))) by done.
         rewrite map_map. cbn. rewrite sort_slice_perm.
         assert (NoDup (map er_seq (pg_events s))) as Hnd by apply (li_seqs _ Hs). revert Hnd. clear.
         induction (pg_events s) as [|e es IH]; [constructor|]. cbn. intros [Hn Hnd]%NoDup_cons. apply NoDup_cons. split; [|by apply IH].
         intros (e' & Heq & He')%list_elem_of_fmap. apply Hn. injection Heq as _ _ ->. by apply (list_elem_of_fmap_2 er_seq).
      -- intros r Hr. unfold rows, backfill in Hr. apply new_rows_elem in Hr as (k & x & _ & Hx & ->).
         apply list_elem_of_fmap in Hx as (e & -> & He). rewrite sort_slice_perm in He. cbn. split; [done|]. exists e. by split_and!.
    * intros h' w' Hne Hw'. destruct (li_apart _ Hs h h' _ _ (not_eq_sym Hne) Hh Hw') as (_ & _ & H3). split; [done|].
      split; [|exact H3]. intros r r' Hr Hr'. by apply (Hrap h' w').
  + eapply (LogInv_writer s _ h (Backfilled name false [])); try done; cbn. intros h' w' Hne Hw'.
    split; [done|]. split; [by intros ? ? ?%not_elem_of_nil|done].
- destruct (pg_writers s !! h) as [[l e|l e rows|name b|name [|] rows]|] eqn:Hh; try done.
  + by apply LogInv_commit_event.
  + by apply LogInv_commit_rows.
  + cbn. by apply LogInv_end.
- by apply LogInv_end.
- destruct (pg_workers s !! w); [done|]. unfold pg_claim. destruct (sort_slice _ _) as [|r l]; [done|].
  destruct (_ <=? _); [done|]. destruct (List.find _ _); [|done]. apply (LogInv_rows s); try done. cbn. by apply map_update_row.
- destruct (pg_workers s !! w) as [c|]; [|done]. destruct outcome; apply (LogInv_rows s); try done; cbn; by apply map_update_row.
- by apply (LogInv_rows s).
- apply (LogInv_rows s); try done. cbn. rewrite map_map. apply map_ext. intros r. by destruct (_ && _).
Qed.
End Steps.
