(* ===== verification/PgDelivery.v ===== *)
(** * Ordered and complete delivery in PostgreSQL

    In any interleaving of the steps in which no worker outlives its lease, each
    aggregate's events are applied to each subscription in their order and once.  No
    event is lost as long as no registration overlaps an append, and what is neither
    waiting nor dead has been applied.  The two examples at the end show what happens
    otherwise. *)

From S2P Require Export Prelude GoTime GoStrings Domain Json Outbox EventStore EventOrder PgOutbox.
#[global] Open Scope Z_scope.

(** ** What workers hold *)

Section Work.
Context (make_interval : Duration → Duration).

(** No message in a worker's hands has a lease that is over when another is claimed. *)
Definition lease_kept (st : pg_step) (s : db) : bool :=
  match st with
  | StepClaim _ _ _ policy _ now =>
      forallb (λ x, now - make_interval (claim_lease policy) <=? wk_since x.2) (map_to_list (pg_workers s))
  | _ => true
  end.

(** The row a worker has claimed: no one else may, and all before it is processed. *)
Definition holds (s : db) (c : working) (r : outboxRow) : Prop :=
  r ∈ pg_outbox s ∧ ob_id r = OutboxID (wk_message c) ∧ ob_status r = deliveryPending ∧ ob_locked_at r = Some (wk_since c) ∧
  ob_subscription r = wk_subscription c ∧ (AggregateType (wk_message c), AggregateID (wk_message c)) = (ob_type r, ob_aggregate r) ∧
  GlobalSeq (wk_message c) = ob_seq r ∧
  ∀ r', r' ∈ pg_outbox s → row_group r' = row_group r → ob_seq r' < ob_seq r → ob_status r' = deliveryProcessed.

Record WorkInv (s : db) : Prop := {
  wi_holds w c : pg_workers s !! w = Some c → ∃ r, holds s c r;
  wi_apart w w' c c' : w ≠ w' → pg_workers s !! w = Some c → pg_workers s !! w' = Some c' →
    OutboxID (wk_message c) ≠ OutboxID (wk_message c')
}.

Lemma WorkInv_same s s' : WorkInv s → pg_outbox s' = pg_outbox s → pg_workers s' = pg_workers s → WorkInv s'.
Proof.
intros [H1 H2] Ho Hw. split; rewrite Hw; [|done]. intros w c Hl. destruct (H1 w c Hl) as (r & Hr). exists r.
unfold holds in *. by rewrite Ho.
Qed.

(** A worker stops. *)
Lemma WorkInv_release s w : WorkInv s → WorkInv (s <| pg_workers ::= delete w |>).
Proof.
intros [H1 H2]. split; cbn.
- intros w' c. rewrite lookup_delete_Some. intros [_ Hl]. exact (H1 w' c Hl).
- intros w1 w2 c1 c2 Hne. rewrite !lookup_delete_Some. intros [_ Hl1] [_ Hl2]. by apply (H2 w1 w2).
Qed.

(** Rows added behind those of their group. *)
Lemma holds_app s s' new c r : pg_outbox s' = pg_outbox s ++ new →
  (∀ r r', r ∈ new → r' ∈ pg_outbox s → row_group r' = row_group r → ob_seq r' < ob_seq r) → holds s c r → holds s' c r.
Proof.
intros Ho Hlt (Hr & Hid & Hst & Hlk & Hsub & Hagg & Hsq & Hbefore). split; [rewrite Ho; apply elem_of_app; by left|].
split_and!; try done. intros r' Hr' Hg Hs. rewrite Ho in Hr'. apply elem_of_app in Hr' as [Hr'|Hr']; [by apply Hbefore|].
specialize (Hlt r' r Hr' Hr (eq_sym Hg)). lia.
Qed.

(** Rows changed that are not held, and none of them no longer processed. *)
Lemma holds_map s s' (f : outboxRow → outboxRow) c r : pg_outbox s' = map f (pg_outbox s) →
  (∀ x, row_shape (f x) = row_shape x) →
  (∀ x, x ∈ pg_outbox s → ob_status x = deliveryProcessed → ob_status (f x) = deliveryProcessed) →
  f r = r → holds s c r → holds s' c r.
Proof.
intros Ho Hf Hdone Hfix (Hr & Hid & Hst & Hlk & Hsub & Hagg & Hsq & Hbefore). split.
- rewrite Ho, <- Hfix. by apply (list_elem_of_fmap_2 f).
- split_and!; try done. intros r' Hr' Hg Hs. rewrite Ho in Hr'. apply list_elem_of_fmap in Hr' as (x & -> & Hx).
  injection (Hf x) as _ _ H1 H2 H3 H4. unfold row_group in Hg. rewrite H1, H2, H3 in Hg. rewrite H4 in Hs.
  by apply Hdone, Hbefore.
Qed.

Lemma lease_kept_spec w sub types policy worker now s h c :
  lease_kept (StepClaim w sub types policy worker now) s = true → pg_workers s !! h = Some c →
  now - make_interval (claim_lease policy) ≤ wk_since c.
Proof.
cbn. intros Hk Hh. rewrite forallb_forall in Hk. apply Z.leb_le. apply (Hk (h, c)).
by apply list_elem_of_In, elem_of_map_to_list.
Qed.
End Work.

(** ** The steps keep the order *)

Record OrderInv (s : db) : Prop := {
  oi_log : LogInv s;
  oi_order : RowOrder (pg_outbox s) (pg_applied s);
  oi_work : WorkInv s
}.

Lemma OrderInv_empty uuids : (∀ i j, uuids i = uuids j → i = j) → OrderInv (pg_empty uuids).
Proof.
intros Hu. split.
- split; cbn; try done; try (by intros ? ?%not_elem_of_nil); try constructor. by intros ? ? ?%not_elem_of_nil.
- split; [by intros ? ? ?%not_elem_of_nil|]. intros g. split; [constructor|]. intros n. cbn. split.
  + by intros ?%not_elem_of_nil.
  + by intros (r & ?%not_elem_of_nil & _).
- by split.
Qed.

(** Committed rows come behind those of their group. *)
Lemma commit_behind s h w : LogInv s → pg_writers s !! h = Some w →
  ∀ r r', r ∈ rows_of w → r' ∈ pg_outbox s → row_group r' = row_group r → ob_seq r' < ob_seq r.
Proof.
intros Hs Hw r r' Hr Hr' Hg. pose proof (li_writers _ Hs h w Hw) as Hok.
destruct (li_rows _ Hs r' Hr') as ((e' & He' & _ & Hs' & Ht' & Ha') & Hsub). injection Hg as Hg1 Hg2 Hg3.
destruct w as [l e|l e rows|n [|]|n [|] rows]; cbn in Hr; try (by apply not_elem_of_nil in Hr).
- destruct Hok as ((_ & _ & Hnew) & _ & _ & Hrows). destruct (Hrows r Hr) as [(_ & Hsq & Ht & Ha) _].
  destruct (Hnew e' He') as [[_ Hlt]|(_ & _ & Hn)]; [lia|]. destruct Hn. split; congruence.
- destruct Hok as (Hnone & _ & _ & Hrows). destruct (Hrows r Hr) as [Hn _]. rewrite Hg1, Hn, Hnone in Hsub. by destruct Hsub.
Qed.

Lemma commit_pending s h w : LogInv s → pg_writers s !! h = Some w → ∀ r, r ∈ rows_of w → ob_status r = deliveryPending.
Proof.
intros Hs Hw r Hr. pose proof (li_writers _ Hs h w Hw) as Hok.
destruct w as [l e|l e rows|n [|]|n [|] rows]; cbn in Hr; try (by apply not_elem_of_nil in Hr); by apply Hok.
Qed.

Lemma commit_rows w s : pg_outbox (commit w s) = pg_outbox s ++ match w with Inserted _ _ | Registering _ _ => [] | _ => rows_of w end.
Proof. destruct w as [l e|l e rows|n b|n [|] rows]; cbn; by rewrite ?app_nil_r. Qed.

Section Steps.
Context `{GoRuntime}.
Context (uuid_Parse : string → error + string) (hashtext : string → Z).
Context (make_interval : Duration → Duration) (left : string → Z → string) (unique_violation out_of_range : error).
Abbreviation exec := (pg_exec uuid_Parse hashtext make_interval left unique_violation out_of_range).
Abbreviation run := (pg_run uuid_Parse hashtext make_interval left unique_violation out_of_range).

Fixpoint leases_kept (steps : list pg_step) (s : db) : bool :=
  match steps with
  | [] => true
  | st :: steps => lease_kept make_interval st s && leases_kept steps (exec st s)
  end.

(** What [claim] finds. *)
Lemma pg_claim_spec sub types policy worker now s s' m :
  pg_claim make_interval out_of_range sub types policy worker now s = (s', inr (Some m)) →
  ∃ r e, r ∈ pg_outbox s ∧ row_claimable make_interval (pg_outbox s) sub types (claim_lease policy) now r = true ∧
    let r' := r <| ob_locked_at := Some now |> <| ob_locked_by := Some worker |> <| ob_attempts ::= λ n, n + 1 |> in
    m = row_message r' e ∧
    s' = s <| pg_outbox ::= update_row (ob_id r) (λ r, r <| ob_locked_at := Some now |> <| ob_locked_by := Some worker |>
      <| ob_attempts ::= λ n, n + 1 |>) |>.
Proof.
unfold pg_claim. destruct (sort_slice _ _) as [|r l] eqn:Hsort; [done|]. destruct (_ <=? _); [done|].
destruct (List.find _ _) as [e|] eqn:He; [|done]. intros [= <- <-]. exists r, e.
assert (r ∈ List.filter (row_claimable make_interval (pg_outbox s) sub types (claim_lease policy) now) (pg_outbox s)) as Hr.
{ rewrite <- sort_slice_perm, Hsort. by left. }
apply list_elem_of_In, List.filter_In in Hr as [Hr Hc]. rewrite <- list_elem_of_In in Hr. done.
Qed.

Lemma row_claimable_spec rows sub types lease now o : row_claimable make_interval rows sub types lease now o = true →
  ob_subscription o = sub ∧ ob_status o = deliveryPending ∧ (∀ t, ob_locked_at o = Some t → t < now - make_interval lease) ∧
  ∀ b, b ∈ rows → row_group b = row_group o → ob_seq b < ob_seq o → ob_status b = deliveryProcessed.
Proof.
unfold row_claimable. rewrite !andb_true_iff, negb_true_iff. intros (((((Hsub & Hst) & _) & Hlk) & _) & Hbl).
apply String.eqb_eq in Hsub. apply row_is_spec in Hst. split; [done|]. split; [done|]. split.
- intros t Ht. rewrite Ht in Hlk. lia.
- intros b Hb [= Hg1 Hg2 Hg3] Hlt. destruct (ob_status b) eqn:Hsb; [|done|]; exfalso;
    apply not_true_iff_false in Hbl; apply Hbl, existsb_exists; exists b; (split; [by apply list_elem_of_In|]);
    apply Z.ltb_lt in Hlt;
    unfold same_row_group, row_is; by rewrite Hg1, Hg2, Hg3, !eqs_refl, Hsb, Hlt.
Qed.

Lemma WorkInv_claim s w sub types policy worker now s' m : LogInv s → WorkInv s →
  lease_kept make_interval (StepClaim w sub types policy worker now) s = true →
  pg_claim make_interval out_of_range sub types policy worker now s = (s', inr (Some m)) →
  WorkInv (s' <| pg_workers ::= <[w := mkWorking m sub policy now]> |>).
Proof.
intros Hs [H1 H2] Hk Hcl. apply pg_claim_spec in Hcl as (r & e & Hr & Hc & -> & ->).
apply row_claimable_spec in Hc as (Hsub & Hst & Hlk & Hbefore).
assert (∀ h c x, pg_workers s !! h = Some c → holds s c x → ob_id x ≠ ob_id r) as Hother.
{ intros h c x Hh (Hx & _ & _ & Hlx & _) Heq.
  assert (x = r) as -> by (apply (NoDup_map_inj ob_id (pg_outbox s)); [apply (li_row_ids _ Hs)|done..]).
  pose proof (lease_kept_spec _ _ _ _ _ _ _ _ _ _ Hk Hh). specialize (Hlk _ Hlx). lia. }
split; cbn.
- intros h c. rewrite lookup_insert_Some. intros [[<- <-]|[Hne Hl]].
  + exists (r <| ob_locked_at := Some now |> <| ob_locked_by := Some worker |> <| ob_attempts ::= λ n, n + 1 |>).
    unfold holds. cbn. split; [apply elem_of_update_row; exists r; by rewrite eqs_refl|]. split_and!; try done.
    intros x (x0 & Hx0 & ->)%elem_of_update_row. destruct (ob_id x0 =s ob_id r); cbn; intros Hg Hlt; by apply (Hbefore x0).
  + destruct (H1 h c Hl) as (x & Hx). exists x. eapply holds_map; [done|..|exact Hx].
    * intros y. cbn. by destruct (_ =s _).
    * intros y _ Hy. cbn. by destruct (_ =s _).
    * cbn. rewrite eqs_ne; [done|]. by eapply Hother.
- intros h1 h2 c1 c2 Hne. rewrite !lookup_insert_Some. intros [[<- <-]|[Hn1 Hl1]] [[<- <-]|[Hn2 Hl2]]; cbn; [done|..].
  + destruct (H1 h2 c2 Hl2) as (x & Hx). pose proof (Hother _ _ _ Hl2 Hx). destruct Hx as (_ & <- & _). congruence.
  + destruct (H1 h1 c1 Hl1) as (x & Hx). pose proof (Hother _ _ _ Hl1 Hx). by destruct Hx as (_ & <- & _).
  + by apply (H2 h1 h2).
Qed.

(** Settling changes the row held, and no other worker's. *)
Lemma WorkInv_settle s s' w c f : LogInv s → WorkInv s → pg_workers s !! w = Some c →
  pg_outbox s' = update_row (OutboxID (wk_message c)) f (pg_outbox s) → pg_workers s' = delete w (pg_workers s) →
  (∀ x, row_shape (f x) = row_shape x) → WorkInv s'.
Proof.
intros Hs [H1 H2] Hw Ho Hws Hf. destruct (H1 w c Hw) as (r & Hr). split; rewrite Hws.
- intros h d. rewrite lookup_delete_Some. intros [Hne Hl]. destruct (H1 h d Hl) as (x & Hx). exists x.
  eapply holds_map; [exact Ho|..|exact Hx].
  + intros y. cbn. by destruct (_ =s _).
  + intros y Hy Hst. cbn. destruct (String.eqb_spec (ob_id y) (OutboxID (wk_message c))) as [Hid|]; [|done].
    destruct Hr as (Hrin & Hrid & Hrst & _). assert (y = r) as ->; [|congruence].
    apply (NoDup_map_inj ob_id (pg_outbox s)); [apply (li_row_ids _ Hs)|done..|congruence].
  + cbn. rewrite eqs_ne; [done|]. destruct Hx as (_ & -> & _). by apply (H2 h w).
- intros h1 h2 c1 c2 Hne. rewrite !lookup_delete_Some. intros [_ Hl1] [_ Hl2]. by apply (H2 h1 h2).
Qed.

Lemma OrderInv_exec st s : OrderInv s → lease_kept make_interval st s = true → OrderInv (exec st s).
Proof.
intros [Hs Ho Hw] Hk. split; [by apply LogInv_exec|..];
  destruct st as [h ev|h now|h name|h now|h|h|w sub types policy worker now|w outcome now|w|id now]; cbn [pg_exec] in *.
- destruct (pg_writers s !! h); [done|]. unfold append_insert. destruct (new_event _ _ _); [done|]. destruct (_ || _); [done|]. cbn. by destruct (existsb _ _).
- by destruct (pg_writers s !! h) as [[| | |]|].
- destruct (pg_writers s !! h); [done|]. by destruct (registering _ _).
- by destruct (pg_writers s !! h) as [[| |n [|]|]|].
- destruct (pg_writers s !! h) as [w|] eqn:Hh; [|done].
  assert (RowOrder (pg_outbox s ++ rows_of w) (pg_applied s)) as Happ.
  { apply RowOrder_app; [done|by eapply commit_pending|by eapply commit_behind]. }
  destruct w as [l e|l e rows|n b|n [|] rows]; done.
- done.
- destruct (pg_workers s !! w); [done|]. destruct (pg_claim _ _ _ _ _ _ _ _) as [s' [x|[m|]]] eqn:Hcl.
  + unfold pg_claim in Hcl. destruct (sort_slice _ _); [done|]. destruct (_ <=? _); [by injection Hcl as <- _|].
    destruct (List.find _ _); [done|]. by injection Hcl as <- _.
  + apply pg_claim_spec in Hcl as (r & e & _ & _ & _ & ->). cbn. eapply RowOrder_progress; [|done]. symmetry. by apply map_update_row.
  + unfold pg_claim in Hcl. destruct (sort_slice _ _); [by injection Hcl as <-|]. destruct (_ <=? _); [done|]. by destruct (List.find _ _).
- destruct (pg_workers s !! w) as [c|] eqn:Hc; [|done]. destruct (wi_holds _ Hw w c Hc) as (r & Hr & Hid & Hst & _ & Hsub & Hagg & Hsq & Hbefore).
  destruct outcome as [cause|]; cbn.
  + eapply RowOrder_progress; [|done]. symmetry. apply map_update_row. intros x Hx Hxid.
    assert (x = r) as -> by (apply (NoDup_map_inj ob_id (pg_outbox s)); [apply (li_row_ids _ Hs)|done..|congruence]).
    unfold row_progress. f_equal. unfold row_is. cbn. rewrite Hst. by destruct (_ <=? _).
  + rewrite <- Hid, <- Hsub. apply RowOrder_apply; try done; [apply (li_row_ids _ Hs)|apply (li_row_keys _ Hs)].
- done.
- cbn. eapply RowOrder_progress; [|done]. rewrite map_map. symmetry. apply map_ext. intros r. destruct (_ && _) eqn:Hd; [|done].
  apply andb_true_iff in Hd as [_ Hd%row_is_spec]. unfold row_progress, row_is. cbn. by rewrite Hd.
- destruct (pg_writers s !! h); [done|]. unfold append_insert. destruct (new_event _ _ _); [done|]. destruct (_ || _); [done|]. cbn.
  by destruct (existsb _ _); eapply WorkInv_same.
- eapply WorkInv_same; [done|..]; by destruct (pg_writers s !! h) as [[| | |]|].
- eapply WorkInv_same; [done|..]; (destruct (pg_writers s !! h); [done|]); by destruct (registering _ _).
- eapply WorkInv_same; [done|..]; by destruct (pg_writers s !! h) as [[| |n [|]|]|].
- destruct (pg_writers s !! h) as [w|] eqn:Hh; [|done]. pose proof (commit_behind s h w Hs Hh) as Hbh. pose proof Hw as [H1 H2].
  destruct w as [l e|l e rows|n b|n [|] rows]; try done; (split; [|exact H2]); intros k c Hl; destruct (H1 k c Hl) as (r & Hr); exists r;
    (eapply (holds_app s); [done|exact Hbh|exact Hr]).
- by eapply WorkInv_same.
- destruct (pg_workers s !! w) eqn:Hnone; [done|]. destruct (pg_claim _ _ _ _ _ _ _ _) as [s' [x|[m|]]] eqn:Hcl.
  + unfold pg_claim in Hcl. destruct (sort_slice _ _); [done|]. destruct (_ <=? _); [by injection Hcl as <- _|].
    destruct (List.find _ _); [done|]. by injection Hcl as <- _.
  + by eapply WorkInv_claim.
  + unfold pg_claim in Hcl. destruct (sort_slice _ _); [by injection Hcl as <-|]. destruct (_ <=? _); [done|]. by destruct (List.find _ _).
- destruct (pg_workers s !! w) as [c|] eqn:Hc; [|done]. destruct outcome; (eapply (WorkInv_settle s); [done|done|exact Hc|done|done|done]).
- by apply WorkInv_release.
- destruct Hw as [H1 H2]. split; [|exact H2]. intros k c Hl. destruct (H1 k c Hl) as (r & Hr). exists r.
  eapply holds_map; [done|..|exact Hr].
  + intros x. cbn. by destruct (_ && _).
  + intros x _ Hx. unfold row_is. rewrite (bool_decide_eq_false_2 (ob_status x = deliveryDead)) by congruence. by rewrite andb_false_r.
  + destruct Hr as (_ & _ & Hst & _). unfold row_is. rewrite (bool_decide_eq_false_2 (ob_status r = deliveryDead)) by congruence. by rewrite andb_false_r.
Qed.

Lemma OrderInv_run steps s : OrderInv s → leases_kept steps s = true → OrderInv (run steps s).
Proof.
revert s. induction steps as [|st steps IH]; intros s Hs Hk; [done|]. cbn in *. apply andb_true_iff in Hk as [Hst Hk].
apply IH; [by apply OrderInv_exec|done].
Qed.
End Steps.

(** ** No event is lost *)

Definition is_fanned_out (w : writer) : bool := match w with FannedOut _ _ _ => true | _ => false end.
Definition is_backfilled (w : writer) : bool := match w with Backfilled _ true _ => true | _ => false end.
(** No event is fanned out while a backfilled registration is open, and the other way round. *)
Definition no_race (st : pg_step) (s : db) : bool :=
  match st with
  | StepFanOut _ _ => forallb (λ x, negb (is_backfilled x.2)) (map_to_list (pg_writers s))
  | StepBackfill _ _ => forallb (λ x, negb (is_fanned_out x.2)) (map_to_list (pg_writers s))
  | _ => true
  end.

(** Some row is for an event and a subscription. *)
Definition queued (rows : list outboxRow) (n : string) (e : eventRow) : Prop :=
  ∃ r, r ∈ rows ∧ ob_subscription r = n ∧ ob_event r = er_id e.

Record Coverage (s : db) : Prop := {
  cv_queued e n : e ∈ pg_events s → is_Some (pg_subscriptions s !! n) → queued (pg_outbox s) n e;
  cv_fanned h l e rows n : pg_writers s !! h = Some (FannedOut l e rows) → is_Some (pg_subscriptions s !! n) → queued rows n e;
  cv_backfilled h n rows e : pg_writers s !! h = Some (Backfilled n true rows) → e ∈ pg_events s → queued rows n e;
  cv_alone h h' w w' : pg_writers s !! h = Some w → pg_writers s !! h' = Some w' → is_fanned_out w = true → is_backfilled w' = false
}.

Lemma queued_new_rows now replay pairs ids n x : x ∈ pairs → queued (new_rows now replay pairs ids n) x.1 x.2.
Proof.
intros Hx. assert ((x.1, er_id x.2) ∈ map (λ r, (ob_subscription r, ob_event r)) (new_rows now replay pairs ids n)) as Hin.
{ rewrite (new_rows_map _ (λ x, (x.1, er_id x.2))) by done. exact (list_elem_of_fmap_2 (λ x, (x.1, er_id x.2)) _ _ Hx). }
apply list_elem_of_fmap in Hin as (r & Heq & Hr). injection Heq as H1 H2. by exists r.
Qed.
Lemma queued_app_l rows new n e : queued rows n e → queued (rows ++ new) n e.
Proof. intros (r & Hr & Hx). exists r. split; [apply elem_of_app; by left|done]. Qed.
Lemma queued_app_r rows new n e : queued new n e → queued (rows ++ new) n e.
Proof. intros (r & Hr & Hx). exists r. split; [apply elem_of_app; by right|done]. Qed.
Lemma queued_shape rows rows' n e : map row_shape rows' = map row_shape rows → queued rows n e → queued rows' n e.
Proof.
intros Hm (r & Hr & <- & Hev). symmetry in Hm. destruct (shape_elem rows rows' r Hm Hr) as (r' & Hr' & [= _ He Hs _ _ _]).
exists r'. split; [done|]. split; [done|congruence].
Qed.

Lemma Coverage_rows s s' : Coverage s → map row_shape (pg_outbox s') = map row_shape (pg_outbox s) →
  pg_events s' = pg_events s → pg_subscriptions s' = pg_subscriptions s → pg_writers s' = pg_writers s → Coverage s'.
Proof.
intros [H1 H2 H3 H4] Hm He Hs Hw. split; rewrite ?He, ?Hs, ?Hw; try done. intros e n Hin Hn. eapply queued_shape; [done|by apply H1].
Qed.

(** A transaction begins, moves on or ends. *)
Lemma Coverage_writer s s' h w : Coverage s → pg_outbox s' = pg_outbox s → pg_events s' = pg_events s →
  pg_subscriptions s' = pg_subscriptions s → pg_writers s' = <[h := w]> (pg_writers s) →
  (∀ l e rows n, w = FannedOut l e rows → is_Some (pg_subscriptions s !! n) → queued rows n e) →
  (∀ n rows e, w = Backfilled n true rows → e ∈ pg_events s → queued rows n e) →
  (is_fanned_out w = true → ∀ h' w', pg_writers s !! h' = Some w' → is_backfilled w' = false) →
  (is_backfilled w = true → ∀ h' w', pg_writers s !! h' = Some w' → is_fanned_out w' = false) → Coverage s'.
Proof.
intros [H1 H2 H3 H4] Ho He Hs Hw Hf Hb Hfa Hba. split; rewrite ?Ho, ?He, ?Hs, ?Hw.
- exact H1.
- intros h' l e rows n. rewrite lookup_insert_Some. intros [[<- ->]|[_ Hl]]; [by eapply Hf|by eapply H2].
- intros h' n rows e. rewrite lookup_insert_Some. intros [[<- ->]|[_ Hl]]; [by eapply Hb|by eapply H3].
- intros h1 h2 w1 w2. rewrite !lookup_insert_Some. intros [[<- <-]|[Hn1 Hl1]] [[<- <-]|[Hn2 Hl2]] Hfan.
  + by destruct w.
  + by eapply Hfa.
  + destruct (is_backfilled w) eqn:Hw'; [|done]. by rewrite (Hba eq_refl h1 w1 Hl1) in Hfan.
  + by apply (H4 h1 h2 w1 w2).
Qed.
Lemma Coverage_end s h : Coverage s → Coverage (s <| pg_writers ::= delete h |>).
Proof.
intros [H1 H2 H3 H4]. split; cbn; [done|..].
- intros h' l e rows n. rewrite lookup_delete_Some. intros [_ Hl]. exact (H2 h' l e rows n Hl).
- intros h' n rows e. rewrite lookup_delete_Some. intros [_ Hl]. exact (H3 h' n rows e Hl).
- intros h1 h2 w1 w2. rewrite !lookup_delete_Some. intros [_ Hl1] [_ Hl2]. by apply (H4 h1 h2).
Qed.

Lemma Coverage_commit_event s h l e rows : Coverage s → pg_writers s !! h = Some (FannedOut l e rows) →
  Coverage ((commit (FannedOut l e rows) s) <| pg_writers ::= delete h |>).
Proof.
intros [H1 H2 H3 H4] Hw. split; cbn.
- intros x n [Hx| ->%list_elem_of_singleton]%elem_of_app Hn; [by apply queued_app_l, H1|]. apply queued_app_r. by eapply H2.
- intros h' l' e' rows' n. rewrite lookup_delete_Some. intros [_ Hl]. exact (H2 h' l' e' rows' n Hl).
- intros h' n rows' x. rewrite lookup_delete_Some. intros [_ Hl]. by pose proof (H4 h h' _ _ Hw Hl eq_refl).
- intros h1 h2 w1 w2. rewrite !lookup_delete_Some. intros [_ Hl1] [_ Hl2]. by apply (H4 h1 h2).
Qed.
Lemma Coverage_commit_rows s h m rows : Coverage s → pg_writers s !! h = Some (Backfilled m true rows) →
  Coverage ((commit (Backfilled m true rows) s) <| pg_writers ::= delete h |>).
Proof.
intros [H1 H2 H3 H4] Hw. split; cbn.
- intros x n Hx [-> |[_ Hn]]%lookup_insert_is_Some; [by eapply queued_app_r, H3|by apply queued_app_l, H1].
- intros h' l' e' rows' n. rewrite lookup_delete_Some. intros [_ Hl]. by pose proof (H4 h' h _ _ Hl Hw eq_refl).
- intros h' n rows' x. rewrite lookup_delete_Some. intros [_ Hl]. exact (H3 h' n rows' x Hl).
- intros h1 h2 w1 w2. rewrite !lookup_delete_Some. intros [_ Hl1] [_ Hl2]. by apply (H4 h1 h2).
Qed.

Section Complete.
Context `{GoRuntime}.
Context (uuid_Parse : string → error + string) (hashtext : string → Z).
Context (make_interval : Duration → Duration) (left : string → Z → string) (unique_violation out_of_range : error).
Abbreviation exec := (pg_exec uuid_Parse hashtext make_interval left unique_violation out_of_range).
Abbreviation run := (pg_run uuid_Parse hashtext make_interval left unique_violation out_of_range).

Fixpoint no_races (steps : list pg_step) (s : db) : bool :=
  match steps with
  | [] => true
  | st :: steps => no_race st s && no_races steps (exec st s)
  end.

Lemma alone (p : writer → bool) ws : forallb (λ x : nat * writer, negb (p x.2)) (map_to_list ws) = true →
  ∀ h w, ws !! h = Some w → p w = false.
Proof.
intros Hall h w Hw. rewrite forallb_forall in Hall. apply negb_true_iff, (Hall (h, w)). by apply list_elem_of_In, elem_of_map_to_list.
Qed.

Lemma Coverage_exec st s : Coverage s → no_race st s = true → Coverage (exec st s).
Proof.
intros Hs Hk. destruct st as [h ev|h now|h name|h now|h|h|w sub types policy worker now|w outcome now|w|id now]; cbn [pg_exec].
- destruct (pg_writers s !! h) eqn:Hh; [done|]. unfold append_insert. destruct (new_event _ _ _) as [|row]; [done|].
  destruct (_ || _); [done|]. cbn. destruct (existsb _ _); cbn; [by apply (Coverage_rows s)|].
  by eapply (Coverage_writer s _ h (Inserted _ row)).
- destruct (pg_writers s !! h) as [[l e| | |]|] eqn:Hh; try done. cbn in Hk.
  eapply (Coverage_writer s _ h (FannedOut l e _)); try done.
  + intros l' e' rows n [= <- <- <-] [[] Hn]. unfold fan_out. apply (queued_new_rows _ _ _ _ _ (n, e)).
    refine (list_elem_of_fmap_2 (λ x : string * (), (x.1, e)) _ (n, ()) _). rewrite map_range_perm. by apply elem_of_map_to_list.
  + intros _. by apply alone.
- destruct (pg_writers s !! h) eqn:Hh; [done|]. destruct (registering name s) eqn:Hreg; [done|].
  by eapply (Coverage_writer s _ h (Registering name (subscription_is_new name s))).
- destruct (pg_writers s !! h) as [[| |name [|]|]|] eqn:Hh; try done; cbn in Hk.
  + eapply (Coverage_writer s _ h (Backfilled name true _)); try done.
    * intros n rows e [= <- <-] He. unfold backfill. apply (queued_new_rows _ _ _ _ _ (name, e)).
      refine (list_elem_of_fmap_2 (λ e, (name, e)) _ e _). by rewrite sort_slice_perm.
    * intros _. by apply alone.
  + by eapply (Coverage_writer s _ h (Backfilled name false [])).
- destruct (pg_writers s !! h) as [[l e|l e rows|name b|name [|] rows]|] eqn:Hh; try done.
  + by apply Coverage_commit_event.
  + by apply Coverage_commit_rows.
  + cbn. by apply Coverage_end.
- by apply Coverage_end.
- destruct (pg_workers s !! w); [done|]. unfold pg_claim. destruct (sort_slice _ _) as [|r l]; [done|].
  destruct (_ <=? _); [done|]. destruct (List.find _ _); [|done]. apply (Coverage_rows s); try done. cbn. by apply map_update_row.
- destruct (pg_workers s !! w) as [c|]; [|done]. destruct outcome; apply (Coverage_rows s); try done; cbn; by apply map_update_row.
- by apply (Coverage_rows s).
- apply (Coverage_rows s); try done. cbn. rewrite map_map. apply map_ext. intros r. by destruct (_ && _).
Qed.

Lemma Coverage_run steps s : Coverage s → no_races steps s = true → Coverage (run steps s).
Proof.
revert s. induction steps as [|st steps IH]; intros s Hs Hk; [done|]. cbn in *. apply andb_true_iff in Hk as [Hst Hk].
apply IH; [by apply Coverage_exec|done].
Qed.
Lemma Coverage_empty uuids : Coverage (pg_empty uuids).
Proof. split; cbn; try done. by intros ? ? ?%not_elem_of_nil. Qed.
End Complete.

(** ** What the interleavings guarantee *)

Lemma sorted_nodup (l : list Z) : StronglySorted Z.lt l → NoDup l.
Proof.
induction 1 as [|x l _ IH Hall]; [constructor|]. apply NoDup_cons. split; [|done]. intros Hx.
rewrite Forall_forall in Hall. specialize (Hall x Hx). lia.
Qed.

Section Theorems.
Context `{GoRuntime}.
Context (uuid_Parse : string → error + string) (hashtext : string → Z).
Context (make_interval : Duration → Duration) (left : string → Z → string) (unique_violation out_of_range : error).
Abbreviation run := (pg_run uuid_Parse hashtext make_interval left unique_violation out_of_range).
Abbreviation kept := (leases_kept uuid_Parse hashtext make_interval left unique_violation out_of_range).
Abbreviation alone_run := (no_races uuid_Parse hashtext make_interval left unique_violation out_of_range).

(** [C2] In whatever order sessions append events, register subscriptions, claim and settle
    messages, crash and requeue, as long as no worker outlives its lease (whenever a
    session claims, every message some worker still has in its hands was claimed no
    longer ago than the lease of that claim; a worker that crashed holds nothing): each
    subscription applies the events of an aggregate in strictly increasing order, so
    never one twice, what it applied is what the queue marks processed, and nothing of
    the aggregate before an applied event is outstanding. *)
Theorem pg_delivers_in_order (uuids : nat → string) (steps : list pg_step)
    (Huuids : ∀ i j, uuids i = uuids j → i = j)
    (Hleases : kept steps (pg_empty uuids) = true) :
  let s := run steps (pg_empty uuids) in
  ∀ g, StronglySorted Z.lt (applied_seqs g (pg_applied s)) ∧
    ∀ r, r ∈ pg_outbox s → row_group r = g →
      (ob_seq r ∈ applied_seqs g (pg_applied s) ↔ ob_status r = deliveryProcessed) ∧
      (ob_status r = deliveryProcessed →
       ∀ r', r' ∈ pg_outbox s → row_group r' = g → ob_seq r' < ob_seq r → ob_status r' = deliveryProcessed).
Proof.
intros s g. destruct (OrderInv_run uuid_Parse hashtext make_interval left unique_violation out_of_range steps (pg_empty uuids))
  as [Hs [Hp Ha] _]; [by apply OrderInv_empty|done|]. fold s in Hs, Hp, Ha. destruct (Ha g) as [Hso Hiff]. split; [done|].
intros r Hr Hg. split; [|by intros Hst r' Hr' Hg' Hlt; apply (Hp r r'); [done..|congruence|done|done]].
rewrite Hiff. split; [|intros Hst; by exists r]. intros (x & Hx & Hgx & Hst & Hsq).
assert (x = r) as <-; [|done]. apply (NoDup_map_inj row_key (pg_outbox s)); [apply (li_row_keys _ Hs)|done..|].
unfold row_key. congruence.
Qed.

Lemma LogInv_run uuids steps : (∀ i j, uuids i = uuids j → i = j) → LogInv (run steps (pg_empty uuids)).
Proof.
intros Huuids. assert (LogInv (pg_empty uuids)) as H0 by apply OrderInv_empty, Huuids. revert H0. clear.
generalize (pg_empty uuids). induction steps as [|st steps IH]; intros s Hs; [done|]. by apply IH, LogInv_exec.
Qed.

Lemma row_for_event s r e : LogInv s → r ∈ pg_outbox s → e ∈ pg_events s → ob_event r = er_id e → row_for e r.
Proof.
intros Hs Hr He Hev. destruct (li_rows _ Hs r Hr) as ((x & Hx & Hfx) & _). assert (x = e) as <-; [|done].
apply (NoDup_map_inj er_id (pg_events s)); [apply (li_ids _ Hs)|done..|]. by destruct Hfx as (<- & _).
Qed.

(** Every committed event has exactly one row for every subscription, unless a
    registration and an append overlap. *)
Theorem pg_no_event_lost (uuids : nat → string) (steps : list pg_step)
    (Huuids : ∀ i j, uuids i = uuids j → i = j)
    (Halone : alone_run steps (pg_empty uuids) = true) :
  let s := run steps (pg_empty uuids) in
  ∀ e n, e ∈ pg_events s → is_Some (pg_subscriptions s !! n) →
    ∃ r, r ∈ pg_outbox s ∧ ob_subscription r = n ∧ row_for e r ∧
      ∀ r', r' ∈ pg_outbox s → ob_subscription r' = n → ob_event r' = er_id e → r' = r.
Proof.
intros s e n He Hn. pose proof (Coverage_run uuid_Parse hashtext make_interval left unique_violation out_of_range steps
  (pg_empty uuids) (Coverage_empty uuids) Halone) as Hcov. pose proof (LogInv_run uuids steps Huuids) as Hs. fold s in Hcov, Hs.
destruct (cv_queued _ Hcov e n He Hn) as (r & Hr & Hsub & Hev). exists r. split; [done|]. split; [done|].
pose proof (row_for_event s r e Hs Hr He Hev) as Hfor. split; [done|].
intros r' Hr' Hsub' Hev'. pose proof (row_for_event s r' e Hs Hr' He Hev') as Hfor'.
apply (NoDup_map_inj row_key (pg_outbox s)); [apply (li_row_keys _ Hs)|done..|].
destruct Hfor as (_ & H1 & H2 & H3), Hfor' as (_ & H1' & H2' & H3'). unfold row_key, row_group. congruence.
Qed.

Lemma pg_Lag_zero n s r : pg_Lag n s = 0 → (∀ r, r ∈ pg_outbox s → ob_subscription r = n → ob_status r ≠ deliveryDead) →
  r ∈ pg_outbox s → ob_subscription r = n → ob_status r = deliveryProcessed.
Proof.
intros Hlag Hdead Hr Hn. destruct (ob_status r) eqn:Hst; [exfalso|done|by destruct (Hdead r Hr Hn)].
assert (r ∈ List.filter (λ o, (ob_subscription o =s n) && row_is deliveryPending o && negb (dead_before (pg_outbox s) o)) (pg_outbox s)) as Hin.
{ apply list_elem_of_In, List.filter_In. split; [by apply list_elem_of_In|]. unfold row_is at 1. rewrite Hn, eqs_refl, Hst. cbn.
  apply negb_true_iff, not_true_iff_false. unfold dead_before. intros (b & Hb & Hc)%existsb_exists. rewrite <- list_elem_of_In in Hb.
  apply andb_true_iff in Hc as [[Hg _]%andb_true_iff Hd%row_is_spec]. unfold same_row_group in Hg.
  apply andb_true_iff in Hg as [[Hsub _]%andb_true_iff _]. apply String.eqb_eq in Hsub. by apply (Hdead b Hb); [congruence|]. }
unfold pg_Lag in Hlag. destruct (List.filter _ _); [by apply not_elem_of_nil in Hin|]. cbn in Hlag. lia.
Qed.

(** [C3] As long as no worker outlives its lease, as above, and no registration overlaps
    an append, a subscription with no lag and no dead letter has applied the whole
    history: for every aggregate, each committed event exactly once and in order. *)
Theorem pg_history_applied (uuids : nat → string) (steps : list pg_step) (n : string)
    (Huuids : ∀ i j, uuids i = uuids j → i = j)
    (Hleases : kept steps (pg_empty uuids) = true)
    (Halone : alone_run steps (pg_empty uuids) = true) :
  let s := run steps (pg_empty uuids) in
  is_Some (pg_subscriptions s !! n) → pg_Lag n s = 0 →
  (∀ r, r ∈ pg_outbox s → ob_subscription r = n → ob_status r ≠ deliveryDead) →
  ∀ t a, let applied := applied_seqs (n, (t, a)) (pg_applied s) in
    StronglySorted Z.lt applied ∧
    applied ≡ₚ map er_seq (List.filter (λ e, (er_type e =s t) && (er_aggregate e =s a)) (pg_events s)).
Proof.
intros s Hn Hlag Hdead t a applied.
destruct (OrderInv_run uuid_Parse hashtext make_interval left unique_violation out_of_range steps (pg_empty uuids))
  as [Hs [_ Ha] _]; [by apply OrderInv_empty|done|]. fold s in Hs, Ha. destruct (Ha (n, (t, a))) as [Hso Hiff]. split; [done|].
pose proof (Coverage_run uuid_Parse hashtext make_interval left unique_violation out_of_range steps
  (pg_empty uuids) (Coverage_empty uuids) Halone) as Hcov. fold s in Hcov.
apply NoDup_Permutation; [by apply sorted_nodup| |].
- pose proof (li_seqs _ Hs) as Hnd. revert Hnd. clear. induction (pg_events s) as [|e es IH]; [constructor|]. cbn.
  intros [Hne Hnd]%NoDup_cons. destruct (_ && _); [|by apply IH]. cbn. apply NoDup_cons. split; [|by apply IH].
  intros (x & Heq & Hx)%list_elem_of_fmap. apply Hne. rewrite Heq. apply list_elem_of_In, List.filter_In in Hx as [Hx _].
  rewrite <- list_elem_of_In in Hx. by apply (list_elem_of_fmap_2 er_seq).
- intros g. unfold applied. rewrite Hiff, list_elem_of_fmap. split.
  + intros (r & Hr & Hg & _ & <-). destruct (li_rows _ Hs r Hr) as ((e & He & _ & Hsq & Ht & Hag) & _). injection Hg as _ Hgt Hga.
    exists e. split; [done|]. apply list_elem_of_In, List.filter_In. split; [by apply list_elem_of_In|].
    by rewrite <- Ht, <- Hag, Hgt, Hga, !eqs_refl.
  + intros (e & -> & He). apply list_elem_of_In, List.filter_In in He as [He Hc]. rewrite <- list_elem_of_In in He.
    apply andb_true_iff in Hc as [Ht%String.eqb_eq Hag%String.eqb_eq].
    destruct (cv_queued _ Hcov e n He Hn) as (r & Hr & Hsub & Hev). exists r. split; [done|].
    destruct (row_for_event s r e Hs Hr He Hev) as (_ & Hsq & Htr & Har).
    split; [unfold row_group; congruence|]. split; [by apply (pg_Lag_zero n s)|done].
Qed.
End Theorems.

(** ** Examples *)

Module PgSample.
#[local] Existing Instance default_runtime.
Definition uuids (k : nat) : string := pretty k.
Definition event (id : string) : DomainEvent :=
  mkDomainEvent id "expense" "e1" "expense_added" (ExpenseAdded sample_expense) 1000 "u1".
Definition violation : error := ErrorsNew "duplicate key".
Definition run (steps : list pg_step) : db := pg_run inr (λ _, 7) id (λ s _, s) violation violation steps (pg_empty uuids).
Definition leases (steps : list pg_step) : bool := leases_kept inr (λ _, 7) id (λ s _, s) violation violation steps (pg_empty uuids).
Definition races (steps : list pg_step) : bool := no_races inr (λ _, 7) id (λ s _, s) violation violation steps (pg_empty uuids).
Definition group : string * (string * string) := ("analytics", ("expense", "e1")).

Definition append (h : nat) (id : string) : list pg_step := [StepInsert h (event id); StepFanOut h 0; StepCommit h].
Definition register (h : nat) (name : string) : list pg_step := [StepRegister h name; StepBackfill h 0; StepCommit h].
Definition claim (w : nat) (now : Time) : pg_step := StepClaim w "analytics" ["expense"] DefaultPolicy "w" now.

(** A backfill, a failure, two workers. *)
Definition steps : list pg_step :=
  append 0 "ev1" ++ register 0 "analytics" ++ append 1 "ev2" ++
  [claim 0 Second; claim 1 Second; StepSettle 0 (Some violation) (2 * Second); claim 1 (10 * Second);
   StepSettle 1 None (11 * Second); claim 0 (12 * Second); StepSettle 0 None (13 * Second)].
Example applied_both : applied_seqs group (pg_applied (run steps)) = [1; 2].
Proof. vm_compute. reflexivity. Qed.

(** A registration and an append that overlap lose the event: neither sees the other. *)
Definition race : list pg_step :=
  [StepInsert 1 (event "ev1"); StepFanOut 1 0] ++ register 2 "analytics" ++ [StepCommit 1].
Example registration_race_loses :
  (map er_id (pg_events (run race)), map_range (pg_subscriptions (run race)), pg_outbox (run race)) = (["ev1"], [("analytics", ())], []).
Proof. vm_compute. reflexivity. Qed.

(** A worker whose handler outlives its lease applies the first event again after
    another worker applied the second. *)
Definition late : list pg_step :=
  register 0 "analytics" ++ append 1 "ev1" ++ append 1 "ev2" ++
  [claim 0 Second; claim 1 (2 * Minute); StepSettle 1 None (2 * Minute); claim 1 (2 * Minute); StepSettle 1 None (2 * Minute);
   StepSettle 0 None (2 * Minute)].
Example late_worker_reapplies : (applied_seqs group (pg_applied (run late)), leases late) = ([1; 2; 1], false).
Proof. vm_compute. reflexivity. Qed.

(** Failing late, it takes the first event back: it waits again, behind the second. *)
Example late_worker_unprocesses :
  map (λ r, (ob_seq r, ob_status r)) (pg_outbox (run (removelast late ++ [StepSettle 0 (Some violation) (2 * Minute)]))) =
  [(1, deliveryPending); (2, deliveryProcessed)].
Proof. vm_compute. reflexivity. Qed.
End PgSample.

Lemma pg_delivers_in_order_witness : StronglySorted Z.lt (applied_seqs PgSample.group (pg_applied (PgSample.run PgSample.steps))).
Proof.
apply (@pg_delivers_in_order default_runtime inr (λ _, 7) id (λ s _, s) PgSample.violation PgSample.violation PgSample.uuids
  PgSample.steps); [intros i j Heq; exact (inj pretty _ _ Heq)|vm_compute; reflexivity].
Defined.

Lemma pg_no_event_lost_witness : ∃ r, r ∈ pg_outbox (PgSample.run PgSample.steps) ∧ ob_subscription r = "analytics" ∧ ob_event r = "ev2".
Proof.
unfold PgSample.run. set (s := pg_run _ _ _ _ _ _ _ _).
assert (existsb (λ e, er_id e =s "ev2") (pg_events s) = true) as Hev by (vm_compute; reflexivity).
apply existsb_exists in Hev as (e & He & Hid). apply list_elem_of_In in He. apply String.eqb_eq in Hid.
destruct (@pg_no_event_lost default_runtime inr (λ _, 7) id (λ s _, s) PgSample.violation PgSample.violation PgSample.uuids
  PgSample.steps) with (e := e) (n := "analytics") as (r & Hr & Hsub & (Hev & _) & _).
- intros i j Heq. exact (inj pretty _ _ Heq).
- vm_compute. reflexivity.
- exact He.
- eexists. vm_compute. reflexivity.
- exists r. split; [exact Hr|]. split; [exact Hsub|]. rewrite Hev. exact Hid.
Defined.

Lemma pg_history_applied_witness : ∃ l, applied_seqs PgSample.group (pg_applied (PgSample.run PgSample.steps)) = l ∧
  l ≡ₚ map er_seq (List.filter (λ e, (er_type e =s "expense") && (er_aggregate e =s "e1")) (pg_events (PgSample.run PgSample.steps))).
Proof.
eexists. split; [reflexivity|].
apply (@pg_history_applied default_runtime inr (λ _, 7) id (λ s _, s) PgSample.violation PgSample.violation PgSample.uuids
  PgSample.steps "analytics").
- intros i j Heq. exact (inj pretty _ _ Heq).
- vm_compute. reflexivity.
- vm_compute. reflexivity.
- eexists. vm_compute. reflexivity.
- vm_compute. reflexivity.
- set (s := pg_run _ _ _ _ _ _ _ _).
  assert (forallb (λ r, negb (row_is deliveryDead r)) (pg_outbox s) = true) as Hall by (vm_compute; reflexivity). clearbody s.
  intros r Hr _ Hst. rewrite forallb_forall in Hall. apply list_elem_of_In in Hr. specialize (Hall r Hr).
  apply row_is_spec in Hst. rewrite Hst in Hall. discriminate.
Defined.
