(* ===== verification/PgRateLimit.v ===== *)
(** * Request limits kept in PostgreSQL (postgres/rate_limiter.go)

    One row per key and window, counted by an upsert, and the cleanup of old rows, as
    [main.go] schedules it for all limiters at once.  As long as the rows kept are at
    least as old as the longest interval, every call is answered as its number in its
    window says.  The mail quota is not so kept: its window is thirty days and rows go
    after one.

    Which window an instant falls in is the SQL's own formula, in exact arithmetic; the
    database evaluates it in double precision, [window_f64], which gives the same at the
    edges of the windows main.go uses.  The database's intervals are a parameter. *)

From S2P Require Export Prelude GoTime GoStrings GoFloat RateLimit Intake PgOutbox.
#[global] Open Scope Z_scope.

Abbreviation windows := (gmap (string * Time) Z).

(** [floor(extract(epoch from now()) / $2) * $2], as a timestamp. *)
Definition window_of (interval : Duration) (now : Time) : Time :=
  unix_epoch + (now - unix_epoch) / interval * interval.

(** The same in double precision: the epoch in seconds with its microseconds, an interval
    of whole seconds, and [to_timestamp], which rounds to microseconds. *)
Definition f64_floor (f : float64) : Z :=
  match f with
  | S754_finite s m e =>
      if 0 <=? e then (if s then - (Z.pos m * 2 ^ e) else Z.pos m * 2 ^ e)
      else (if s then - Z.pos m else Z.pos m) / 2 ^ (- e)
  | _ => 0
  end.
Definition window_f64 (interval : Duration) (now : Time) : Time :=
  let epoch := f64_div (f64_of ((now - unix_epoch) / 1000)) (f64_of (10 ^ 6)) in
  let seconds := f64_of (interval / Second) in
  unix_epoch + f64_floor (f64_mul (f64_of (f64_floor (f64_div epoch seconds))) seconds) * Second.

(** An instant lies in its window, which is an interval long. *)
Lemma window_spec interval t : 0 < interval → window_of interval t ≤ t < window_of interval t + interval.
Proof.
intros Hi. unfold window_of. pose proof (Z.div_mod (t - unix_epoch) interval ltac:(lia)).
pose proof (Z.mod_pos_bound (t - unix_epoch) interval Hi). lia.
Qed.

Section Limiter.
Context (make_interval : Duration → Duration) (out_of_range : error).

(** The upsert of [Allow]; [count] is an [INTEGER]. *)
Definition pg_Allow (limit : Z) (interval : Duration) (now : Time) (key : string) (t : windows) : windows * (error + bool) :=
  let row := (key, window_of interval now) in
  match t !! row with
  | None => (<[row := 1]> t, inr (1 <=? limit))
  | Some count =>
      if max_int32 <=? count then (t, inl (Errorf "increment rate limit window: " out_of_range ""))
      else (<[row := count + 1]> t, inr (count + 1 <=? limit))
  end.

Definition CleanupExpired (retain : Duration) (now : Time) (t : windows) : windows * Z :=
  let expired (r : (string * Time) * Z) := r.1.2 < now - make_interval retain in
  (filter (λ r, ¬ expired r) t, Z.of_nat (size (filter (λ r, expired r) t))).

(** ** Calls of many limiters, and cleanups *)

(** The limit and the interval a key is used with. *)
Context (limit_of : string → Z) (interval_of : string → Duration).

Inductive limiter_step := Called (key : string) | Cleaned (retain : Duration).

Definition limiter_exec (now : Time) (st : limiter_step) (t : windows) : windows * option (string * (error + bool)) :=
  match st with
  | Called key => let '(t, answer) := pg_Allow (limit_of key) (interval_of key) now key t in (t, Some (key, answer))
  | Cleaned retain => ((CleanupExpired retain now t).1, None)
  end.

(** What the calls with one key are answered. *)
Fixpoint answered (key : string) (steps : list (Time * limiter_step)) (t : windows) : list (error + bool) :=
  match steps with
  | [] => []
  | (now, st) :: steps =>
      let '(t, answer) := limiter_exec now st t in
      match answer with
      | Some (k, b) => if k =s key then b :: answered key steps t else answered key steps t
      | None => answered key steps t
      end
  end.

(** ** The specification: a call is answered by its number in its window *)

Fixpoint numbered (key : string) (before : list Time) (steps : list (Time * limiter_step)) : list (error + bool) :=
  match steps with
  | [] => []
  | (now, Called k) :: steps =>
      if k =s key then
        let mine := List.filter (λ t, window_of (interval_of key) t =? window_of (interval_of key) now) before in
        inr (Z.of_nat (length mine) + 1 <=? limit_of key) :: numbered key (now :: before) steps
      else numbered key before steps
  | (_, Cleaned _) :: steps => numbered key before steps
  end.

(** The database's clock does not run backwards. *)
Fixpoint in_time (t : Time) (steps : list (Time * limiter_step)) : Prop :=
  match steps with [] => True | (now, _) :: steps => t ≤ now ∧ in_time now steps end.

(** Every cleanup keeps the rows of a key at least for its interval. *)
Definition retained (key : string) (steps : list (Time * limiter_step)) : Prop :=
  ∀ now retain, (now, Cleaned retain) ∈ steps → interval_of key ≤ make_interval retain.

Definition calls_in (key : string) (before : list Time) (start : Time) : Z :=
  Z.of_nat (length (List.filter (λ t, window_of (interval_of key) t =? start) before)).

(** The row of a window counts its calls, unless the window is over. *)
Definition counts (key : string) (t : windows) (before : list Time) (now : Time) : Prop :=
  ∀ start, now < start + interval_of key → t !! (key, start) =
    if calls_in key before start =? 0 then None else Some (calls_in key before start).

Lemma counts_later key t before now now' : now ≤ now' → counts key t before now → counts key t before now'.
Proof using Type. intros Hle Hc start Hopen. apply Hc. lia. Qed.

Lemma calls_in_cons key now before start : calls_in key (now :: before) start =
  (if window_of (interval_of key) now =? start then 1 else 0) + calls_in key before start.
Proof using Type. unfold calls_in. cbn. destruct (_ =? _); cbn; lia. Qed.
Lemma calls_in_nonneg key before start : 0 ≤ calls_in key before start ≤ Z.of_nat (length before).
Proof using Type. unfold calls_in. pose proof (List.filter_length_le (λ t, window_of (interval_of key) t =? start) before). lia. Qed.

(** A call of its own is answered by its number, and counted. *)
Lemma counts_allow key t before now : 0 < interval_of key → Z.of_nat (length before) < max_int32 →
  counts key t before now →
  let '(t', answer) := pg_Allow (limit_of key) (interval_of key) now key t in
  answer = inr (calls_in key before (window_of (interval_of key) now) + 1 <=? limit_of key) ∧ counts key t' (now :: before) now.
Proof using All.
intros Hint Hlen Hc. unfold pg_Allow. set (start := window_of (interval_of key) now).
destruct (window_spec (interval_of key) now Hint) as [_ Hopen]. fold start in Hopen.
pose proof (calls_in_nonneg key before start) as Hn.
assert (∀ n, n = calls_in key before start + 1 → counts key (<[(key, start) := n]> t) (now :: before) now) as Hcount.
{ intros n -> start' Hopen'. rewrite calls_in_cons. fold start. destruct (Z.eqb_spec start start') as [<-|Hne].
  - rewrite lookup_insert_eq. destruct (Z.eqb_spec (1 + calls_in key before start) 0); [lia|]. f_equal. lia.
  - rewrite lookup_insert_ne by congruence. by apply Hc. }
rewrite (Hc start Hopen). destruct (Z.eqb_spec (calls_in key before start) 0) as [Hz|Hz].
- rewrite Hz in *. split; [done|]. by apply Hcount.
- destruct (Z.leb_spec max_int32 (calls_in key before start)); [lia|]. split; [done|]. by apply Hcount.
Qed.

Lemma counts_other key k limit interval now t before : k ≠ key → counts key t before now →
  counts key (pg_Allow limit interval now k t).1 before now.
Proof using Type.
intros Hne Hc. unfold pg_Allow.
assert (∀ start n, counts key (<[(k, start) := n]> t) before now) as Hins.
{ intros start n s Hopen. rewrite lookup_insert_ne by congruence. by apply Hc. }
destruct (t !! _); [|apply Hins]. destruct (_ <=? _); [done|apply Hins].
Qed.

(** Rows of windows still open are kept. *)
Lemma counts_clean key retain now t before : interval_of key ≤ make_interval retain → counts key t before now →
  counts key (CleanupExpired retain now t).1 before now.
Proof using Type.
intros Hret Hc start Hopen. rewrite <- (Hc start Hopen). cbn. rewrite map_lookup_filter.
destruct (t !! (key, start)) as [n|]; [|done]. cbn. rewrite option_guard_True; [done|]. cbn. lia.
Qed.

Lemma answered_numbered key steps now t before : 0 < interval_of key →
  Z.of_nat (length before) + Z.of_nat (length steps) ≤ max_int32 → in_time now steps → retained key steps →
  counts key t before now → answered key steps t = numbered key before steps.
Proof using All.
intros Hint. revert now t before. induction steps as [|[now' st] steps IH]; intros now t before Hlen Htime Hret Hc; [done|].
destruct Htime as [Hle Htime]. cbn [length] in Hlen. apply (counts_later key t before now now') in Hc; [|done].
assert (retained key steps) as Hret' by (intros ? ? Hin; eapply Hret; by right).
destruct st as [k|retain]; cbn.
- destruct (String.eqb_spec k key) as [->|Hne].
  + pose proof (counts_allow key t before now' Hint ltac:(lia) Hc) as Ha. destruct (pg_Allow _ _ _ _ _) as [t' a].
    destruct Ha as [-> Hc']. rewrite eqs_refl. f_equal. apply (IH now'); [cbn [length]; lia|done..].
  + pose proof (counts_other key k (limit_of k) (interval_of k) now' t before Hne Hc) as Hc'.
    destruct (pg_Allow _ _ _ _ _) as [t' a]. rewrite eqs_ne by done. apply (IH now'); [lia|done..].
- apply (IH now'); [lia|done|done|]. apply counts_clean; [|done]. apply (Hret now'). by left.
Qed.

(** [C32] However the calls of many limiters and replicas and the cleanups interleave, as
    long as every cleanup retains rows for at least the interval of a key, the n-th call
    with the key in a window is granted exactly when n is within the limit: the shared
    table answers as a count of the calls, and the cleanup is invisible. *)
Theorem durable_limiter_counts (key : string) (steps : list (Time * limiter_step)) (now : Time)
    (Hinterval : 0 < interval_of key) (Hlen : Z.of_nat (length steps) ≤ max_int32)
    (Htime : in_time now steps) (Hretained : retained key steps) :
  answered key steps ∅ = numbered key [] steps.
Proof using All.
apply (answered_numbered key steps now); [done|cbn; lia|done|done|]. intros start _. by rewrite lookup_empty.
Qed.
End Limiter.

(** ** The limiters of main.go *)

Definition assistantRateLimit : Z := 10.
Definition assistantRateInterval : Duration := Minute.
Definition mailerSendQuotaWindow : Duration := 30 * 24 * Hour.
(** [cleanupRateLimitWindows] retains a day. *)
Definition retainWindows : Duration := 24 * Hour.

Section Wired.
(** [MAILERSEND_MONTHLY_LIMIT]. *)
Context (monthly : Z).
Definition wired_limit (key : string) : Z :=
  if String.prefix "assistant:" key then assistantRateLimit else if String.prefix "intake:" key then IntakeRateLimit else monthly.
Definition wired_interval (key : string) : Duration :=
  if String.prefix "assistant:" key then assistantRateInterval else if String.prefix "intake:" key then IntakeRateInterval
  else mailerSendQuotaWindow.
End Wired.

Module PgLimiterSample.
(** A microsecond before the edge of a window, at it, a microsecond after and in the
    middle, for the intervals of main.go, in each of the years 2020 to 2059. *)
Definition edges (interval : Duration) (year : Z) : list Time :=
  let edge := window_of interval (Date year 7 15 13 27 44 0) in
  [edge - 1000; edge; edge + 1000; edge + interval / 2].
Example double_precision_agrees :
  forallb (λ interval, forallb (λ t, window_f64 interval t =? window_of interval t)
    (map (λ y, 2020 + Z.of_nat y) (seq 0 40) ≫= edges interval))
    [assistantRateInterval; IntakeRateInterval; mailerSendQuotaWindow] = true.
Proof. vm_compute. reflexivity. Qed.

Definition run (monthly : Z) (key : string) (steps : list (Time * limiter_step)) : list (error + bool) :=
  answered id (ErrorsNew "integer out of range") (wired_limit monthly) wired_interval key steps ∅.

(** An hour between two steps: a mail is sent, old rows are cleaned up. *)
Fixpoint hourly (n : nat) (now : Time) : list (Time * limiter_step) :=
  match n with
  | O => []
  | S n => (now, Called sendLimitKey) :: (now, Cleaned retainWindows) :: hourly n (now + Hour)
  end.

(** A quota of one mail in thirty days: the first day it holds, from then on the row is
    cleaned up every hour, and a mail goes out every hour. *)
Example mail_quota_not_kept :
  run 1 sendLimitKey (hourly 30 unix_epoch) = inr true :: replicate 24 (inr false) ++ [inr false] ++ replicate 4 (inr true).
Proof. vm_compute. reflexivity. Qed.

(** Eleven questions of one user within a minute, one intake, cleanups between. *)
Definition questions : list (Time * limiter_step) :=
  (0, Called "intake:u1") :: map (λ k, (Z.of_nat k * Second, Called "assistant:u1")) (seq 0 11) ++
  [(30 * Hour, Cleaned retainWindows); (30 * Hour, Called "assistant:u1")].
End PgLimiterSample.

Lemma durable_limiter_counts_witness :
  PgLimiterSample.run 500 "assistant:u1" PgLimiterSample.questions = replicate 10 (inr true) ++ [inr false; inr true].
Proof.
unfold PgLimiterSample.run.
rewrite (durable_limiter_counts id (ErrorsNew "integer out of range") (wired_limit 500) wired_interval
  "assistant:u1" PgLimiterSample.questions 0).
- vm_compute. reflexivity.
- vm_compute. reflexivity.
- vm_compute. discriminate.
- vm_compute. repeat split; discriminate.
- intros now retain Hin. assert (Forall (λ x, match x.2 with Cleaned r => wired_interval "assistant:u1" ≤ r | _ => True end)
    PgLimiterSample.questions) as Hall by (unfold PgLimiterSample.questions; cbn; repeat constructor; vm_compute; discriminate).
  rewrite Forall_forall in Hall. exact (Hall _ Hin).
Defined.
