(* ===== verification/Cors.v ===== *)
(** * Cross-origin requests (src/pkg/cors) and the configuration (src/config)

    The middleware that main.go puts in front of every route, over the origins its
    configuration lists, and the checks the configuration has to pass. *)

From S2P Require Export Prelude GoStrings Http Metrics.
From Stdlib Require Import Ascii.
#[global] Open Scope Z_scope.

(** ** The configuration (config/app.go) *)

Record BillPiggyAppConfig := mkAppConfig {
  ServerAddr : string; LogLevel : string; Environment : string; DatabaseURL : string; cfg_JWTSecret : string;
  cfg_BootstrapSuperAdminEmail : string; cfg_BootstrapSuperAdminPassword : string;
  MailerSendAPIKey : string; MailerSendFromEmail : string; MailerSendFromName : string; MailerSendMonthlyLimit : Z;
  cfg_PublicBaseURL : string; CORSAllowedOrigins : string; MinIOEndpoint : string; MinIOAccessKey : string;
  MinIOSecretKey : string; MinIOBucket : string; MinIOUseSSL : bool; OpenAIAPIKey : string;
  OpenAIAssistantModel : string; OpenAIBaseURL : string; MetricsToken : string
}.

Definition Validate (c : BillPiggyAppConfig) : option error :=
  if (Environment c =s "production") && (DatabaseURL c =s "") then Some (ErrorsNew "DATABASE_URL is required in production")
  else if (Environment c =s "production") && ((MinIOEndpoint c =s "") || (MinIOAccessKey c =s "") || (MinIOSecretKey c =s ""))
  then Some (ErrorsNew "MinIO configuration is required in production")
  else if (Environment c =s "production") && (CORSAllowedOrigins c =s "")
  then Some (ErrorsNew "CORS_ALLOWED_ORIGINS is required in production")
  else if Z.of_nat (String.length (cfg_JWTSecret c)) <? 32 then Some (ErrorsNew "JWT_SECRET must contain at least 32 bytes")
  else None.

(** ** The middleware (pkg/cors/cors.go) *)

Definition maxAgeSeconds : Z := 600.
Definition allowedMethods : string := String.concat ", " ["GET"; "POST"; "PUT"; "PATCH"; "DELETE"; "OPTIONS"].

(** [strings.Split(s, ",")]. *)
Definition split_comma (s : string) : list string := Split "," s.

Definition ParseOrigins (raw : string) : list string :=
  List.filter (λ origin, negb (origin =s "")) (map TrimSpace (split_comma raw)).

Definition allowed_set (allowedOrigins : list string) : gmap string bool :=
  foldl (λ allowed origin, <[origin := true]> allowed) ∅ allowedOrigins.

Section Cors.
Context {W V : Type}.

(** The headers it puts on the response, and the response. *)
Definition Middleware (allowedOrigins : list string) (next : HandlerFunc W V) (r : Request)
    : M W (list (string * string) * Response V) :=
  let allowed origin := default false (allowed_set allowedOrigins !! origin) in
  let origin := Header_Get r "Origin" in
  let headers := ("Vary", "Origin") ::
    if allowed origin then [("Access-Control-Allow-Origin", origin); ("Access-Control-Allow-Credentials", "true")] else [] in
  if (rq_Method r =s "OPTIONS") && negb (Header_Get r "Access-Control-Request-Method" =s "") then
    mret (headers ++ (if allowed origin then
      [("Access-Control-Allow-Methods", allowedMethods); ("Access-Control-Allow-Headers", "Authorization, Content-Type");
       ("Access-Control-Max-Age", Itoa maxAgeSeconds)] else []), WriteHeader 204)
  else response ← next r; mret (headers, response).
End Cors.

Example ParseOrigins_ex : ParseOrigins " https://a.example, ,https://b.example," = ["https://a.example"; "https://b.example"].
Proof. vm_compute. reflexivity. Qed.

Lemma allowed_set_spec l origin : default false (allowed_set l !! origin) = str_in origin l.
Proof.
unfold allowed_set. assert (∀ m : gmap string bool, default false (foldl (λ allowed origin, <[origin := true]> allowed) m l !! origin) =
  default false (m !! origin) || str_in origin l) as H; [|by rewrite H, lookup_empty].
induction l as [|x l IH]; intros m; cbn; [by rewrite orb_false_r|]. rewrite IH.
destruct (String.eqb_spec origin x) as [<-|Hne]; cbn.
- rewrite lookup_insert_eq. cbn. by rewrite orb_true_r.
- by rewrite lookup_insert_ne by congruence.
Qed.

(** ** A list of origins reads back *)

(** An origin as a browser sends it: no comma, no white space around it. *)
Definition plain_origin (origin : string) : Prop := origin ≠ "" ∧ no_char "," origin = true ∧ TrimSpace origin = origin.

Lemma origins_read_back l : Forall plain_origin l → ParseOrigins (String.concat "," l) = l.
Proof.
intros Hl. destruct l as [|s l']; [done|]. set (l := s :: l') in *. unfold ParseOrigins. unfold split_comma. rewrite Split_concat; [|eapply Forall_impl; [exact Hl|by intros ? (_ & ? & _)]|done].
clearbody l. clear s l'. induction Hl as [|s l (Hne & _ & Ht) Hl IH]; [done|]. cbn. rewrite Ht, eqs_ne by done. cbn. by rewrite IH.
Qed.

(** ** Who is let in *)

Definition preflight (r : Request) : bool :=
  (rq_Method r =s "OPTIONS") && negb (Header_Get r "Access-Control-Request-Method" =s "").

(** Headers that let the origin of a request in exactly when it is one of these. *)
Definition lets_in (origins : list string) (r : Request) (headers : list (string * string)) : Prop :=
  (∀ o, ("Access-Control-Allow-Origin", o) ∈ headers ↔ o = Header_Get r "Origin" ∧ o ∈ origins) ∧
  (∀ v, ("Access-Control-Allow-Credentials", v) ∈ headers ↔ v = "true" ∧ Header_Get r "Origin" ∈ origins).

Lemma lets_in_headers origins r rest : (∀ x, x ∈ rest → x.1 ≠ "Access-Control-Allow-Origin" ∧ x.1 ≠ "Access-Control-Allow-Credentials") →
  let origin := Header_Get r "Origin" in
  lets_in origins r ((("Vary", "Origin") :: (if default false (allowed_set origins !! origin)
    then [("Access-Control-Allow-Origin", origin); ("Access-Control-Allow-Credentials", "true")] else [])) ++ rest).
Proof.
intros Hrest origin. rewrite allowed_set_spec. destruct (str_in origin origins) eqn:Hin.
- apply str_in_spec in Hin. split; intros v; (rewrite elem_of_app, !elem_of_cons; split;
    [intros [[[=]|[[= ->]|[[= ->]|?%not_elem_of_nil]]]|Hx]; try done; by destruct (Hrest _ Hx)|intros [-> _]; tauto]).
- assert (origin ∉ origins) as Hno by (rewrite <- str_in_spec; congruence).
  split; intros v; (rewrite elem_of_app, !elem_of_cons; split; [intros [[[=]|?%not_elem_of_nil]|Hx]; try done; by destruct (Hrest _ Hx)|]).
  + intros [-> Ho]. by apply Hno in Ho.
  + intros [_ Ho]. by apply Hno in Ho.
Qed.

(** With a list of origins in the configuration, a response lets a browser read it,
    with credentials, exactly when the request came from one of them, and names that
    origin; a preflight request is answered without a handler having run; every other
    request is answered as without the middleware. *)
Theorem cross_origin_policy {W V} (origins : list string) (next : HandlerFunc W V) (r : Request) (w : W)
    (Horigins : Forall plain_origin origins) :
  ∃ headers, lets_in origins r headers ∧
    Middleware (ParseOrigins (String.concat "," origins)) next r w =
      if preflight r then (w, inr (headers, WriteHeader 204))
      else match next r w with
           | (w', inr response) => (w', inr (headers, response))
           | (w', inl panic) => (w', inl panic)
           end.
Proof.
rewrite (origins_read_back origins Horigins). unfold Middleware. fold (preflight r). destruct (preflight r).
- eexists. split; [|reflexivity]. apply lets_in_headers. intros x Hx. destruct (default false _); [|by apply not_elem_of_nil in Hx].
  rewrite !elem_of_cons in Hx. by destruct Hx as [->|[->|[->|?%not_elem_of_nil]]].
- eexists. split; [|unfold mbind, M_bind; destruct (next r w) as [w' [e|resp]]; reflexivity].
  rewrite <- (app_nil_r (_ :: _)). apply lets_in_headers. by intros x ?%not_elem_of_nil.
Qed.

Definition sample_origins : list string := ["https://app.example"; "http://localhost:5173"].
Lemma cross_origin_policy_witness :
  ∃ headers, lets_in sample_origins (mkRequest "GET" [("Origin", "https://evil.example")] [] [] [] None UploadInvalid None) headers ∧
    ∀ o, ("Access-Control-Allow-Origin", o) ∉ headers.
Proof.
destruct (cross_origin_policy (V := ()) sample_origins (λ _, mret (WriteHeader 200))
  (mkRequest "GET" [("Origin", "https://evil.example")] [] [] [] None UploadInvalid None) ()) as (headers & Hin & _).
- repeat constructor; vm_compute; congruence.
- exists headers. split; [exact Hin|]. intros o Ho%Hin. destruct Ho as [-> Ho%str_in_spec]. vm_compute in Ho. discriminate.
Defined.
