(* ===== verification/Probes.v ===== *)
(** * Health probes and the metrics endpoint (src/pkg/health/http.go, main.go)

    The registry of checks and gauges that main.go fills, the probes over it, and the
    exposition a scraper reads.  Checks and gauges are computations over the world; the
    registry itself is fixed once the process serves. *)

From S2P Require Export Prelude GoStrings GoTime GoFloat Ports Http Metrics.
From Stdlib Require Import Ascii.
#[global] Open Scope Z_scope.

Section Health.
Context `{GoRuntime} {W : Type}.
(** [%g]. *)
Context (formatFloat : float64 → string).

Record gaugeFunc := mkGaugeFunc { gf_help : string; gf_fn : M W float64 }.
Record HealthRegistry := mkHealthRegistry {
  hr_checks : gmap string (M W ()); hr_gauges : gmap string gaugeFunc; hr_metrics : option (M W string); hr_started : bool
}.
#[export] Instance eta_HealthRegistry : Eta HealthRegistry := λ r,
  mkHealthRegistry (hr_checks r) (hr_gauges r) (hr_metrics r) (hr_started r).
Definition NewHealthRegistry : HealthRegistry := mkHealthRegistry ∅ ∅ None false.

Definition Register (name : string) (check : M W ()) (r : HealthRegistry) : HealthRegistry :=
  r <| hr_checks ::= <[name := check]> |>.
Definition RegisterGauge (name help : string) (fn : M W float64) (r : HealthRegistry) : HealthRegistry :=
  r <| hr_gauges ::= <[name := mkGaugeFunc help fn]> |>.
(** The attached registry is there to be rendered. *)
Definition WithMetrics (render : M W string) (r : HealthRegistry) : HealthRegistry := r <| hr_metrics := Some render |>.
Definition MarkStarted (r : HealthRegistry) : HealthRegistry := r <| hr_started := true |>.

(** ** The probes *)

(** [{"status": value, "failed": failed}]; a nil slice is null. *)
Record Status := mkStatus { st_status : string; st_failed : option (list string) }.
Definition writeStatus (status : Z) (value : string) (failed : option (list string)) : Response Status :=
  WriteJSON status (mkStatus value failed).

Definition Live : HandlerFunc W Status := λ _, mret (writeStatus 200 "ok" None).

(** [for name, check := range checks]: the names of those that fail. *)
Fixpoint failed_checks (checks : list (string * M W ())) : M W (list string) :=
  match checks with
  | [] => mret []
  | (name, check) :: checks =>
      result ← call check;
      failed ← failed_checks checks;
      mret (match result with inl _ => name :: failed | inr _ => failed end)
  end.

Definition Ready (registry : HealthRegistry) : HandlerFunc W Status := λ _,
  failed ← failed_checks (map_range (hr_checks registry));
  mret (match failed with
        | [] => writeStatus 200 "ok" None
        | _ => writeStatus 503 "unavailable" (Some failed)
        end).

Definition Startup (registry : HealthRegistry) : HandlerFunc W Status := λ request,
  if negb (hr_started registry) then mret (writeStatus 503 "starting" None) else Ready registry request.

(** ** The exposition *)

Fixpoint baseMetricName (name : string) : string :=
  match name with
  | String c name => if Ascii.eqb c "{" then "" else String c (baseMetricName name)
  | EmptyString => ""
  end.

(** A gauge as it is read: its name, its help and its value. *)
Definition reading : Type := string * (string * float64).
Inductive item := Family (base help : string) | Sample (name : string) (value : float64).

(** The loop over the sorted names: a family is announced when the base changes. *)
Fixpoint items (lastBase : string) (gauges : list reading) : list item :=
  match gauges with
  | [] => []
  | (name, (help, value)) :: gauges =>
      let base := baseMetricName name in
      if base =s lastBase then Sample name value :: items lastBase gauges
      else Family base help :: Sample name value :: items base gauges
  end.

Definition item_text (i : item) : string :=
  match i with
  | Family base help => header base help "gauge"
  | Sample name value => name +:+ " " +:+ formatFloat value +:+ line_end
  end.

Fixpoint read_gauges (gauges : list (string * gaugeFunc)) : M W (list reading) :=
  match gauges with
  | [] => mret []
  | (name, gauge) :: gauges =>
      value ← gf_fn gauge;
      readings ← read_gauges gauges;
      mret ((name, (gf_help gauge, value)) :: readings)
  end.

(** [sort.Strings] of the names, with the gauge each stands for. *)
Definition sorted_gauges (registry : HealthRegistry) : list (string * gaugeFunc) :=
  sort_slice (λ x y, string_less x.1 y.1) (map_range (hr_gauges registry)).

Definition billpiggy_up : string := header "billpiggy_up" "Whether the BillPiggy process can serve HTTP." "gauge" +:+
  "billpiggy_up 1" +:+ line_end.

Definition Exposition (registry : HealthRegistry) : HandlerFunc W Status := λ _,
  readings ← read_gauges (sorted_gauges registry);
  rest ← match hr_metrics registry with None => mret "" | Some render => render end;
  mret (WriteText 200 (billpiggy_up +:+ String.concat "" (map item_text (items "" readings)) +:+ rest)).

(** ** What main.go registers *)

(** [notificationWorkerHealth]; [lastRun] holds nanoseconds since 1970, zero before
    the first pass. *)
Definition notificationWorkerHealth `{Env W} (text : Duration → string) (lastRun : M W Z) : M W () :=
  last ← lastRun;
  if last =? 0 then mret ()
  else
    now ← Now;
    let age := Sub now (unix_epoch + last) in
    if 5 * Minute <? age then throw (ErrorsNew ("notification worker has not completed a pass in " +:+ text age)) else mret ().

(** [activeUsersGauge]. *)
Definition activeUsersGauge `{IdentityRepository W} : M W float64 :=
  result ← catch ListUsers;
  mret (match result with
        | inl _ => f64_zero
        | inr users => f64_of (Z.of_nat (length (List.filter (λ u, negb (u_AccessBlocked u)) users)))
        end).

Definition latestMigrationVersion : string := "000018_more_default_categories".
(** [migrationsAppliedCheck], over the query for one version. *)
Definition migrationsAppliedCheck (recorded : string → M W bool) : M W () :=
  applied ← map_err (λ e, Errorf "check migrations applied: " e "") (recorded latestMigrationVersion);
  if negb applied then throw (ErrorsNew ("migration " +:+ latestMigrationVersion +:+ " has not been applied")) else mret ().

(** The metrics endpoint behind its token. *)
Definition metrics_endpoint (MetricsToken : string) (registry : HealthRegistry) : HandlerFunc W Status :=
  RequireBearerToken MetricsToken (Exposition registry).
End Health.
Arguments gaugeFunc : clear implicits.
Arguments HealthRegistry : clear implicits.

(** ** Readiness *)

(** A check that only looks. *)
Definition only_reads {W} (check : M W ()) : Prop := ∀ w, (check w).1 = w ∧ ∀ e, (check w).2 = inl e → ErrorIs e "panic" = false.
Definition fails {W} (w : W) (check : M W ()) : Prop := ∃ e, (check w).2 = inl e.

Lemma failed_checks_spec {W} (checks : list (string * M W ())) (w : W) : (∀ x, x ∈ checks → only_reads x.2) → NoDup (map fst checks) →
  ∃ failed, failed_checks checks w = (w, inr failed) ∧ NoDup failed ∧
    ∀ name, name ∈ failed ↔ ∃ check, (name, check) ∈ checks ∧ fails w check.
Proof.
induction checks as [|[name check] checks IH]; intros Hreads Hnd.
{ exists []. split; [done|]. split; [constructor|]. intros name. split; [by intros ?%not_elem_of_nil|by intros (? & ?%not_elem_of_nil & _)]. }
apply NoDup_cons in Hnd as [Hnew Hnd]. destruct IH as (failed & Hrun & Hndf & Hiff); [intros x Hx; apply Hreads; by right|done|].
destruct (Hreads (name, check) ltac:(by left) w) as [Hw Hp]. cbn in Hw, Hp.
assert (name ∉ failed) as Hnf.
{ intros (c & Hc & _)%Hiff. apply Hnew. by apply (list_elem_of_fmap_2 fst) in Hc. }
cbn. unfold mbind, M_bind, call. destruct (check w) as [w' [e|[]]] eqn:Hcheck; cbn in Hw; subst w'.
- rewrite (Hp e eq_refl), Hrun. exists (name :: failed). split; [done|]. split; [by apply NoDup_cons|].
  intros n. rewrite elem_of_cons, Hiff. split.
  + intros [->|(c & Hc & Hf)]; [exists check; split; [by left|exists e; by rewrite Hcheck]|exists c; split; [by right|done]].
  + intros (c & [[= -> ->]|Hc]%elem_of_cons & Hf); [by left|right; by exists c].
- rewrite Hrun. exists failed. split; [done|]. split; [done|]. intros n. rewrite Hiff. split.
  + intros (c & Hc & Hf). exists c. split; [by right|done].
  + intros (c & [[= -> ->]|Hc]%elem_of_cons & Hf); [|by exists c]. destruct Hf as [e He]. by rewrite Hcheck in He.
Qed.

(** The startup and readiness probes tell the truth: before bootstrap they refuse;
    after it they answer 200 exactly when every registered check passes, and otherwise
    503 with the names of exactly those that fail, each once. *)
Theorem readiness_reported `{GoRuntime} {W} (registry : HealthRegistry W) (request : Request) (w : W)
    (Hreads : ∀ name check, hr_checks registry !! name = Some check → only_reads check) :
  ∃ failed, NoDup failed ∧
    (∀ name, name ∈ failed ↔ ∃ check, hr_checks registry !! name = Some check ∧ fails w check) ∧
    Startup registry request w = (w, inr (
      if negb (hr_started registry) then writeStatus 503 "starting" None
      else if decide (failed = []) then writeStatus 200 "ok" None else writeStatus 503 "unavailable" (Some failed))).
Proof.
destruct (failed_checks_spec (map_range (hr_checks registry)) w) as (failed & Hrun & Hnd & Hiff).
- intros [name check] Hx. rewrite map_range_perm in Hx. apply elem_of_map_to_list in Hx. by eapply Hreads.
- rewrite map_range_perm. apply NoDup_fst_map_to_list.
- exists failed. split; [done|]. split.
  + intros name. rewrite Hiff. split; intros (check & Hc & Hf); exists check; (split; [|done]).
    * rewrite map_range_perm in Hc. by apply elem_of_map_to_list.
    * rewrite map_range_perm. by apply elem_of_map_to_list.
  + unfold Startup. destruct (negb _); [done|]. unfold Ready, mbind, M_bind. rewrite Hrun. cbn. by destruct failed.
Qed.

(** ** The order of the names *)

(** The texts with one beginning are next to each other. *)
Lemma prefix_between p : ∀ x y z, String.prefix p x = true → String.prefix p z = true →
  string_less y x = false → string_less z y = false → String.prefix p y = true.
Proof.
induction p as [|c p IH]; intros x y z; [by destruct y|]. destruct x as [|a x], z as [|b z]; try done. cbn.
destruct (Ascii.ascii_dec c a) as [<-|]; [|done]. destruct (Ascii.ascii_dec c b) as [<-|]; [|done]. intros Hx Hz.
destruct y as [|d y]; [done|]. rewrite !string_less_cons.
destruct (N.ltb_spec (N_of_ascii d) (N_of_ascii c)), (N.ltb_spec (N_of_ascii c) (N_of_ascii d)); try done.
assert (d = c) as -> by (rewrite <- (ascii_N_embedding d), <- (ascii_N_embedding c); f_equal; lia). intros Hyx Hzy. cbn. destruct (Ascii.ascii_dec c c) as [_|]; [|done]. by apply (IH x y z).
Qed.

Definition has_labels (name : string) : bool := negb (no_char "{" name).

Lemma base_prefix name : has_labels name = true → String.prefix (baseMetricName name +:+ "{") name = true.
Proof.
unfold has_labels. induction name as [|c name IH]; [done|]. rewrite no_char_cons. cbn [baseMetricName].
destruct (Ascii.eqb_spec c "{") as [->|Hc]; [by destruct name|]. cbn [negb andb]. intros Hn.
change (String c (baseMetricName name) +:+ "{") with (String c (baseMetricName name +:+ "{")).
cbn. destruct (Ascii.ascii_dec c c); [|done]. by apply IH.
Qed.
Lemma base_no_brace name : no_char "{" (baseMetricName name) = true.
Proof.
induction name as [|c name IH]; [done|]. cbn [baseMetricName]. destruct (Ascii.eqb_spec c "{"); [done|].
rewrite no_char_cons. by destruct (Ascii.eqb_spec c "{").
Qed.
Lemma prefix_base b : ∀ name, no_char "{" b = true → String.prefix (b +:+ "{") name = true → baseMetricName name = b.
Proof.
induction b as [|c b IH]; intros [|d name]; try done.
- intros _. change ("" +:+ "{") with "{". cbn [String.prefix]. by destruct (Ascii.ascii_dec "{" d) as [<-|].
- rewrite no_char_cons. intros [Hc Hb]%andb_true_iff. change (String c b +:+ "{") with (String c (b +:+ "{")). cbn. destruct (Ascii.ascii_dec c d) as [<-|]; [|done]. intros Hp.
  destruct (Ascii.eqb c "{"); [done|]. f_equal. by apply IH.
Qed.

(** ** Families *)

Definition family : Type := string * string * list (string * float64).
Definition family_items (f : family) : list item := Family f.1.1 f.1.2 :: map (λ x, Sample x.1 x.2) f.2.

(** Neighbours with one base. *)
Fixpoint families (gauges : list reading) : list family :=
  match gauges with
  | [] => []
  | (name, (help, value)) :: gauges =>
      match families gauges with
      | (b, h, samples) :: fs =>
          if b =s baseMetricName name then (b, help, (name, value) :: samples) :: fs
          else (baseMetricName name, help, [(name, value)]) :: (b, h, samples) :: fs
      | [] => [(baseMetricName name, help, [(name, value)])]
      end
  end.

Lemma families_head gauges : head (map (λ f, f.1.1) (families gauges)) = head (map (λ g, baseMetricName g.1) gauges).
Proof.
destruct gauges as [|[name [help value]] gauges]; [done|]. cbn. destruct (families gauges) as [|[[b h] ss] fs]; [done|].
by destruct (String.eqb_spec b (baseMetricName name)) as [->|].
Qed.

Lemma items_families last gauges : items last gauges =
  match families gauges with
  | (b, h, samples) :: fs =>
      if b =s last then map (λ x, Sample x.1 x.2) samples ++ flat_map family_items fs else flat_map family_items ((b, h, samples) :: fs)
  | [] => []
  end.
Proof.
revert last. induction gauges as [|[name [help value]] gauges IH]; intros last; [done|]. cbn [items families]. rewrite !IH.
destruct (families gauges) as [|[[b h] ss] fs] eqn:Hf.
- by destruct (baseMetricName name =s last).
- destruct (String.eqb_spec b (baseMetricName name)) as [->|Hb].
  + destruct (String.eqb_spec (baseMetricName name) last) as [<-|]; by rewrite ?eqs_refl.
  + destruct (String.eqb_spec (baseMetricName name) last) as [<-|]; by rewrite ?(eqs_ne _ _ Hb).
Qed.

Lemma families_bases gauges b : b ∈ map (λ f, f.1.1) (families gauges) → b ∈ map (λ g, baseMetricName g.1) gauges.
Proof.
induction gauges as [|[name [help value]] gauges IH]; [done|]. cbn. destruct (families gauges) as [|[[b' h] ss] fs] eqn:Hf.
- intros ->%list_elem_of_singleton. by left.
- destruct (String.eqb_spec b' (baseMetricName name)) as [->|]; cbn in *; rewrite !elem_of_cons in *; tauto.
Qed.

Lemma families_samples gauges :
  flat_map snd (families gauges) = map (λ g, (g.1, g.2.2)) gauges ∧
  Forall (λ f, Forall (λ x, baseMetricName x.1 = f.1.1) f.2) (families gauges).
Proof.
induction gauges as [|[name [help value]] gauges [IH1 IH2]]; [split; [done|constructor]|]. cbn.
destruct (families gauges) as [|[[b h] ss] fs]; [split; [by rewrite <- IH1|by repeat constructor]|].
inversion_clear IH2 as [|? ? Hss Hfs]. destruct (String.eqb_spec b (baseMetricName name)) as [->|]; cbn in *.
- split; [by rewrite <- IH1|]. constructor; [|done]. by constructor.
- split; [by rewrite <- IH1|]. constructor; [by repeat constructor|]. by constructor.
Qed.

(** Every base is in one place. *)
Inductive together : list string → Prop :=
  | together_nil : together []
  | together_cons b bs : (b ∈ bs → head bs = Some b) → together bs → together (b :: bs).

Lemma families_once gauges : together (map (λ g, baseMetricName g.1) gauges) → NoDup (map (λ f, f.1.1) (families gauges)).
Proof.
induction gauges as [|[name [help value]] gauges IH]; [constructor|]. cbn. intros Ht. inversion_clear Ht as [|? ? Hb Ht'].
specialize (IH Ht'). pose proof (families_head gauges) as Hh. destruct (families gauges) as [|[[b h] ss] fs] eqn:Hf; [apply NoDup_singleton|].
destruct (String.eqb_spec b (baseMetricName name)) as [->|Hne]; [done|]. cbn in *. apply NoDup_cons. split; [|done].
intros Hin. assert (baseMetricName name ∈ map (λ g, baseMetricName g.1) gauges) as Hin' by (apply families_bases; by rewrite Hf).
specialize (Hb Hin'). rewrite <- Hh in Hb. by injection Hb.
Qed.

(** Two gauges of one family are told apart by labels. *)
Definition labelled (names : list string) : Prop :=
  ∀ n n', n ∈ names → n' ∈ names → n ≠ n' → baseMetricName n = baseMetricName n' → has_labels n = true.

Lemma sorted_together names : NoDup names → labelled names → sorted_by string_less names → together (map baseMetricName names).
Proof.
intros Hnd Hl Hs. unfold sorted_by in Hs. induction Hs as [|x l Hs IH Hx]; cbn; [constructor|]. apply NoDup_cons in Hnd as [Hnew Hnd].
constructor; [|apply IH; [done|]; intros n n' Hn Hn'; apply Hl; by right].
intros (z & Hz & Hin)%list_elem_of_fmap. destruct l as [|y l]; [by apply not_elem_of_nil in Hin|]. cbn. f_equal.
assert (x ≠ z) as Hxz by (intros ->; done).
assert (has_labels x = true) as Hlx by (apply (Hl x z); [by left|by right|done|done]).
assert (has_labels z = true) as Hlz by (apply (Hl z x); [by right|by left|congruence|done]).
rewrite Forall_forall in Hx. apply prefix_base; [apply base_no_brace|].
apply elem_of_cons in Hin as [->|Hin]; [rewrite Hz; by apply base_prefix|].
apply (prefix_between _ x y z); [by apply base_prefix|rewrite Hz; by apply base_prefix|apply Hx; by left|].
inversion_clear Hs as [|? ? _ Hy]. rewrite Forall_forall in Hy. by apply Hy.
Qed.

Lemma read_gauges_run {W} (gauges : list (string * gaugeFunc W)) (w : W) :
  (∀ name g, (name, g) ∈ gauges → ∃ v, gf_fn g w = (w, inr v)) →
  ∃ readings, read_gauges gauges w = (w, inr readings) ∧ map fst readings = map fst gauges ∧
    ∀ name help v, (name, (help, v)) ∈ readings ↔ ∃ g, (name, g) ∈ gauges ∧ help = gf_help g ∧ gf_fn g w = (w, inr v).
Proof.
induction gauges as [|[name g] gauges IH]; intros Hg.
{ exists []. split; [done|]. split; [done|]. intros n h v. split; [by intros ?%not_elem_of_nil|by intros (? & ?%not_elem_of_nil & _)]. }
destruct IH as (rs & Hrun & Hnames & Hiff); [intros n g' Hin; apply (Hg n); by right|].
destruct (Hg name g ltac:(by left)) as [v Hv]. exists ((name, (gf_help g, v)) :: rs). cbn. unfold mbind, M_bind. rewrite Hv, Hrun.
split; [done|]. split; [by rewrite Hnames|]. intros n h v'. rewrite elem_of_cons, Hiff. split.
- intros [[= -> -> ->]|(g' & Hin & Hh & Hv')]; [exists g; split_and!; [by left|done|done]|exists g'; split_and!; [by right|done|done]].
- intros (g' & [[= -> ->]|Hin]%elem_of_cons & -> & Hv'); [left; rewrite Hv in Hv'; by injection Hv' as ->|right; by exists g'].
Qed.

(** When gauges of one family are told apart by labels, the exposition is well formed:
    it lists families, each announced once, and under each the samples of that family;
    together they are exactly the registered gauges with their current values. *)
Theorem exposition_wellformed `{GoRuntime} {W} (formatFloat : float64 → string) (registry : HealthRegistry W)
    (request : Request) (w : W) (rest : string)
    (Hnamed : ∀ name g, hr_gauges registry !! name = Some g → baseMetricName name ≠ "")
    (Hlabelled : labelled (map fst (map_to_list (hr_gauges registry))))
    (Hreads : ∀ name g, hr_gauges registry !! name = Some g → ∃ v, gf_fn g w = (w, inr v))
    (Hrest : match hr_metrics registry with None => rest = "" | Some render => render w = (w, inr rest) end) :
  ∃ fs : list family,
    Exposition formatFloat registry request w = (w, inr (WriteText 200
      (billpiggy_up +:+ String.concat "" (map (item_text formatFloat) (flat_map family_items fs)) +:+ rest))) ∧
    NoDup (map (λ f, f.1.1) fs) ∧
    (∀ f name value, f ∈ fs → (name, value) ∈ f.2 → baseMetricName name = f.1.1) ∧
    NoDup (map fst (flat_map snd fs)) ∧
    ∀ name value, (name, value) ∈ flat_map snd fs ↔
      ∃ g, hr_gauges registry !! name = Some g ∧ gf_fn g w = (w, inr value).
Proof.
set (gauges := sorted_gauges registry).
assert (gauges ≡ₚ map_to_list (hr_gauges registry)) as Hperm by (unfold gauges, sorted_gauges; by rewrite sort_slice_perm, map_range_perm).
assert (∀ name g, (name, g) ∈ gauges ↔ hr_gauges registry !! name = Some g) as Hin by (intros; by rewrite Hperm, elem_of_map_to_list).
assert (NoDup (map fst gauges)) as Hnd by (rewrite Hperm; apply NoDup_fst_map_to_list).
destruct (read_gauges_run gauges w) as (rs & Hrun & Hnames & Hiff); [intros name g Hg%Hin; by eapply Hreads|].
assert (sorted_by string_less (map fst gauges)) as Hsorted.
{ pose proof (sort_slice_sorted (λ x y : string * gaugeFunc W, string_less x.1 y.1) (map_range (hr_gauges registry))) as Hs.
  fold (sorted_gauges registry) gauges in Hs.
  assert (strict_weak (λ x y : string * gaugeFunc W, string_less x.1 y.1)) as Hw.
  { destruct string_less_strict as (H1 & H2 & H3). split; [by intros|]. split; [intros x y z; apply H2|intros x y z; apply H3]. }
  specialize (Hs Hw). clear -Hs. unfold sorted_by in *. induction Hs as [|x l Hs IH Hx]; cbn; constructor; [done|].
  by apply Forall_map. }
exists (families rs). destruct (families_samples rs) as [Hsamples Hbases]. split; [|split; [|split; [|split]]].
- unfold Exposition, mbind, M_bind. fold gauges. rewrite Hrun, items_families.
  assert (flat_map family_items (families rs) = match families rs with
    | (b, h, samples) :: fs => if b =s "" then map (λ x, Sample x.1 x.2) samples ++ flat_map family_items fs
                               else flat_map family_items ((b, h, samples) :: fs)
    | [] => [] end) as ->.
  { pose proof (families_head rs) as Hh. destruct (families rs) as [|[[b h] ss] fs]; [done|]. rewrite eqs_ne; [done|]. intros ->.
    destruct rs as [|[name [help v]] rs]; [done|]. cbn in Hh. injection Hh as Hb.
    destruct (proj1 (Hiff name help v) ltac:(by left)) as (g & Hg%Hin & _). by apply (Hnamed name g). }
  destruct (hr_metrics registry); [by rewrite Hrest|by rewrite Hrest].
- apply families_once. change (map (λ g : reading, baseMetricName g.1) rs) with (map (λ g : reading, baseMetricName (fst g)) rs).
  rewrite <- (map_map fst baseMetricName), Hnames. apply sorted_together; [done| |done].
  intros n n' Hn Hn'. apply Hlabelled; by rewrite <- Hperm.
- intros f name value Hf Hx. rewrite Forall_forall in Hbases. specialize (Hbases f Hf). rewrite Forall_forall in Hbases.
  by apply (Hbases (name, value)).
- rewrite Hsamples, map_map. cbn. change (NoDup (map fst rs)). by rewrite Hnames.
- intros name value. rewrite Hsamples, list_elem_of_fmap. split.
  + intros ([n [h v]] & [= -> ->] & Hx). apply Hiff in Hx as (g & Hg%Hin & _ & Hv). by exists g.
  + intros (g & Hg%Hin & Hv). exists (name, (gf_help g, value)). split; [done|]. apply Hiff. by exists g.
Qed.

(** A family with a gauge without labels beside labelled ones can be torn apart: another
    name sorts between them, and the family is announced twice. *)
Example unlabelled_gauge_splits :
  map (λ f, f.1.1) (families (map (λ n, (n, ("", f64_zero))) ["jobs"; "jobs_failed"; "jobs{kind=a}"])) = ["jobs"; "jobs_failed"; "jobs"].
Proof. vm_compute. reflexivity. Qed.

(** The metrics endpoint answers only the configured token, and nobody without one. *)
Theorem metrics_guarded `{GoRuntime} {W} formatFloat (MetricsToken : string) (registry : HealthRegistry W) request w :
  metrics_endpoint formatFloat MetricsToken registry request w =
    if decide (MetricsToken ≠ "" ∧ bearerToken (Header_Get request "Authorization") = Some MetricsToken)
    then Exposition formatFloat registry request w else (w, inr authentication_required).
Proof.
unfold metrics_endpoint, RequireBearerToken. destruct (bearerToken _) as [token|]; case_decide as Hd.
- destruct Hd as [Hne [= ->]]. by rewrite eqs_refl, eqs_ne.
- destruct (String.eqb_spec MetricsToken ""), (String.eqb_spec token MetricsToken); try done. subst. by destruct Hd.
- by destruct Hd.
- done.
Qed.

(** Names, checked one by one. *)
Lemma names_all {A} (P : string → bool) (m : gmap string A) : forallb P (map fst (map_to_list m)) = true →
  ∀ name g, m !! name = Some g → P name = true.
Proof.
intros Hall name g Hg. rewrite forallb_forall in Hall. apply Hall, list_elem_of_In. apply elem_of_map_to_list in Hg.
exact (list_elem_of_fmap_2 fst _ _ Hg).
Qed.
Definition labelled_b (names : list string) : bool :=
  forallb (λ n, forallb (λ n', (n =s n') || negb (baseMetricName n =s baseMetricName n') || has_labels n) names) names.
Lemma labelled_by_computation names : labelled_b names = true → labelled names.
Proof.
unfold labelled_b. rewrite forallb_forall. intros Hall n n' Hn Hn' Hne Hb. apply list_elem_of_In in Hn, Hn'. specialize (Hall _ Hn).
rewrite forallb_forall in Hall. specialize (Hall _ Hn'). by rewrite eqs_ne, Hb, eqs_refl in Hall.
Qed.

(** ** The gauges and checks of a process *)

Module ProbeSample.
#[local] Existing Instance default_runtime.
(** The clock, the last pass of the mailer, the lag of a projection. *)
Definition world : Type := Z * Z * Z.
#[local] Instance env : Env world := {| Now w := (w, inr w.1.1); NewString w := (w, inr "") |}.
Definition gauge (f : world → Z) : M world float64 := λ w, (w, inr (f64_of (f w))).
Definition subscription (name : string) : string := "{subscription=" +:+ quoted name +:+ "}".
Definition registry : HealthRegistry world :=
  let projection name r := RegisterGauge ("billpiggy_outbox_stalled" +:+ subscription name) "stalled" (gauge (λ _, 0))
    (RegisterGauge ("billpiggy_outbox_lag" +:+ subscription name) "lag" (gauge snd)
    (RegisterGauge ("billpiggy_outbox_dead_lettered" +:+ subscription name) "dead" (gauge (λ _, 0)) r)) in
  MarkStarted (Register "notification_worker" (notificationWorkerHealth (λ _, "a while") (λ w, (w, inr w.1.2)))
    (RegisterGauge "billpiggy_active_users" "users" (gauge (λ _, 2))
      (projection "analytics" (projection "budget_usage" (projection "audit" NewHealthRegistry))))).
Definition scrape : Request := mkRequest "GET" [] [] [] [] None UploadInvalid None.
(** An hour after the mailer's last pass. *)
Definition stale : world := (unix_epoch + 2 * Hour, Hour, 3).

Example mailer_stale : (Startup registry scrape stale).2 = inr (writeStatus 503 "unavailable" (Some ["notification_worker"])).
Proof. vm_compute. reflexivity. Qed.
End ProbeSample.

Lemma readiness_reported_witness :
  ∃ failed, "notification_worker" ∈ failed ∧
    (Startup (H := default_runtime) ProbeSample.registry ProbeSample.scrape ProbeSample.stale).2 =
      inr (writeStatus 503 "unavailable" (Some failed)).
Proof.
destruct (@readiness_reported default_runtime ProbeSample.world ProbeSample.registry ProbeSample.scrape ProbeSample.stale)
  as (failed & _ & Hiff & Hrun).
- intros name check Hc. cbn -[notificationWorkerHealth] in Hc. apply lookup_insert_Some in Hc as [[<- <-]|[_ Hc]]; [|by rewrite lookup_empty in Hc].
  intros w. unfold notificationWorkerHealth, mbind, M_bind. destruct (w.1.2 =? 0); [by split|]. cbn. destruct (_ <? _); [|by split].
  split; [done|]. by intros ? [= <-].
- exists failed. assert ("notification_worker" ∈ failed) as Hin.
  { apply Hiff. eexists. split; [apply lookup_insert_eq|]. eexists. vm_compute. reflexivity. }
  split; [exact Hin|]. rewrite Hrun. rewrite decide_False; [reflexivity|]. intros ->. by apply not_elem_of_nil in Hin.
Defined.

Lemma exposition_wellformed_witness : ∃ fs : list family, NoDup (map (λ f, f.1.1) fs) ∧
  ∀ name value, (name, value) ∈ flat_map snd fs → is_Some (hr_gauges ProbeSample.registry !! name).
Proof.
destruct (@exposition_wellformed default_runtime ProbeSample.world (λ _, "0") ProbeSample.registry ProbeSample.scrape
  ProbeSample.stale "") as (fs & _ & Hnd & _ & _ & Hiff).
- intros name g Hg. pose proof (names_all (λ n, negb (baseMetricName n =s "")) (hr_gauges ProbeSample.registry)) as Hall.
  specialize (Hall ltac:(vm_compute; reflexivity) name g Hg). cbn beta in Hall. apply negb_true_iff, String.eqb_neq in Hall. exact Hall.
- apply labelled_by_computation. vm_compute. reflexivity.
- assert (map_Forall (λ _ g, ∃ v, gf_fn g ProbeSample.stale = (ProbeSample.stale, inr v)) (hr_gauges ProbeSample.registry)) as Hall.
  { repeat (apply map_Forall_insert_2; [by eexists|]). apply map_Forall_empty. }
  exact Hall.
- reflexivity.
- exists fs. split; [exact Hnd|]. intros name value Hx. apply Hiff in Hx as (g & Hg & _). by exists g.
Defined.
