(* ===== verification/PgNotifications.v ===== *)
(** * The notification queue in PostgreSQL (postgres/notification_repository.go)

    The deliveries table with one definition per statement, and the interleavings of
    several replicas' workers (service/notifications.go): a worker claims a batch, hands
    its mails to the provider one by one and marks each.  While every batch is worked off
    within its lease, and no worker dies between a handover and its mark, no mail goes
    out twice; a provider slow enough to outlast the lease of a batch sends one again. *)

From S2P Require Export Prelude GoTime GoStrings Domain Notifications PgOutbox.
#[global] Open Scope Z_scope.

Record deliveryRow := mkDeliveryRow {
  dv_id : string; dv_user : option string; dv_email : option string; dv_kind : NotificationKind;
  dv_payload : gmap string string; dv_status : NotificationStatus; dv_created : Time; dv_sent : option Time;
  dv_reason : option string; dv_attempts : Z; dv_available : Time; dv_locked : option Time; dv_worker : option string
}.
#[export] Instance eta_deliveryRow : Eta deliveryRow := λ r,
  mkDeliveryRow (dv_id r) (dv_user r) (dv_email r) (dv_kind r) (dv_payload r) (dv_status r) (dv_created r) (dv_sent r)
    (dv_reason r) (dv_attempts r) (dv_available r) (dv_locked r) (dv_worker r).

Abbreviation deliveries := (gmap string deliveryRow).

(** [nullif($n, '')]. *)
Definition nullif (s : string) : option string := if s =s "" then None else Some s.

Section Table.
Context `{GoRuntime} (make_interval : Duration → Duration) (violation : error).

(** [available_at] defaults to the time of the insert. *)
Definition pg_QueueNotification (now : Time) (value : NotificationDelivery) (t : deliveries) : deliveries * (error + ()) :=
  match t !! nd_ID value, nullif (nd_UserID value), nullif (nd_RecipientEmail value) with
  | Some _, _, _ => (t, inl violation)
  | None, None, None => (t, inl violation)
  | None, user, email =>
      (<[nd_ID value := mkDeliveryRow (nd_ID value) user email (nd_Kind value) (nd_Payload value) NotificationPending
           (nd_CreatedAt value) None None 0 now None None]> t, inr ())
  end.

Definition delivery_claimable (leaseTTL : Duration) (now : Time) (r : deliveryRow) : bool :=
  ((dv_status r =s NotificationPending) && (dv_available r <=? now)) ||
  ((dv_status r =s NotificationProcessing) &&
   match dv_locked r with Some t => t <? now - make_interval leaseTTL | None => false end).

Definition claim_row (workerID : string) (now : Time) (r : deliveryRow) : deliveryRow :=
  r <| dv_status := NotificationProcessing |> <| dv_attempts ::= λ n, n + 1 |> <| dv_locked := Some now |>
    <| dv_worker := Some workerID |>.

Definition delivery_of_row (r : deliveryRow) : NotificationDelivery :=
  mkNotificationDelivery (dv_id r) (default "" (dv_user r)) (default "" (dv_email r)) (dv_kind r) (dv_payload r)
    (dv_created r) NotificationProcessing (dv_attempts r).

(** The rows come back in any order. *)
Definition pg_ClaimNotifications (workerID : string) (leaseTTL : Duration) (limit : Z) (now : Time) (t : deliveries)
    : deliveries * list NotificationDelivery :=
  let claimed := take (Z.to_nat limit) (sort_slice (λ x y, dv_available x <? dv_available y)
    (List.filter (delivery_claimable leaseTTL now) (map snd (map_range t)))) in
  let rows := map (claim_row workerID now) claimed in
  (foldl (λ t r, <[dv_id r := r]> t) t rows, sort_slice (λ _ _, false) (map delivery_of_row rows)).

(** [update ... where id = $1]; no row is no error. *)
Definition mark (id : string) (f : deliveryRow → deliveryRow) (t : deliveries) : deliveries := alter f id t.
Definition pg_MarkNotificationSent (id : string) (now : Time) : deliveries → deliveries :=
  mark id (λ r, r <| dv_status := NotificationSent |> <| dv_sent := Some now |> <| dv_payload := ∅ |>).
Definition pg_MarkNotificationRetry (id : string) (availableAt : Time) (reason : string) : deliveries → deliveries :=
  mark id (λ r, r <| dv_status := NotificationPending |> <| dv_available := availableAt |> <| dv_locked := None |>
                  <| dv_worker := None |> <| dv_reason := Some reason |>).
Definition pg_MarkNotificationDeadLettered (id : string) (reason : string) : deliveries → deliveries :=
  mark id (λ r, r <| dv_status := NotificationFailed |> <| dv_reason := Some reason |> <| dv_payload := ∅ |>).

Definition pg_CountByStatus (t : deliveries) : gmap NotificationStatus Z :=
  foldl (λ counts r, <[dv_status r := default 0 (counts !! dv_status r) + 1]> counts) ∅ (map snd (map_range t)).
End Table.

(** ** Workers of several replicas *)

(** A worker's batch: when it was claimed, the deliveries still to be marked, and whether
    the mail of the first is with the provider. *)
Record mailer := mkMailer { ml_since : Time; ml_todo : list string; ml_handed : bool }.

Record mailState := mkMailState { ms_table : deliveries; ms_mailers : gmap nat mailer; ms_sent : list string }.
#[export] Instance eta_mailState : Eta mailState := λ s, mkMailState (ms_table s) (ms_mailers s) (ms_sent s).

Inductive marking := MarkSent (now : Time) | MarkRetry (availableAt : Time) (reason : string) | MarkDead (reason : string).
Inductive mail_step :=
  | MailQueued (value : NotificationDelivery) (now : Time)
  | MailClaimed (worker : nat) (workerID : string) (leaseTTL : Duration) (limit : Z) (now : Time)
  | MailHanded (worker : nat)
  | MailMarked (worker : nat) (outcome : marking)
  | MailStopped (worker : nat).

Section Steps.
Context `{GoRuntime} (make_interval : Duration → Duration) (violation : error).

Definition pg_mark (id : string) (outcome : marking) : deliveries → deliveries :=
  match outcome with
  | MarkSent now => pg_MarkNotificationSent id now
  | MarkRetry availableAt reason => pg_MarkNotificationRetry id availableAt reason
  | MarkDead reason => pg_MarkNotificationDeadLettered id reason
  end.

(** [MailHanded] is a Send the provider accepted: after it [deliverOne] can only mark the
    mail sent.  A Send that fails is only its mark. *)
Definition mail_exec (st : mail_step) (s : mailState) : mailState :=
  match st with
  | MailQueued value now => s <| ms_table ::= λ t, (pg_QueueNotification violation now value t).1 |>
  | MailClaimed w workerID leaseTTL limit now =>
      match ms_mailers s !! w with
      | Some _ => s
      | None =>
          let '(t, batch) := pg_ClaimNotifications make_interval workerID leaseTTL limit now (ms_table s) in
          s <| ms_table := t |> <| ms_mailers ::= <[w := mkMailer now (map nd_ID batch) false]> |>
      end
  | MailHanded w =>
      match ms_mailers s !! w with
      | Some (mkMailer since (id :: todo) false) =>
          s <| ms_mailers ::= <[w := mkMailer since (id :: todo) true]> |> <| ms_sent ::= λ l, l ++ [id] |>
      | _ => s
      end
  | MailMarked w outcome =>
      match ms_mailers s !! w with
      | Some (mkMailer since (id :: todo) handed) =>
          if handed && match outcome with MarkSent _ => false | _ => true end then s
          else s <| ms_table ::= pg_mark id outcome |> <| ms_mailers ::= <[w := mkMailer since todo false]> |>
      | _ => s
      end
  | MailStopped w => s <| ms_mailers ::= delete w |>
  end.
Definition mail_run (steps : list mail_step) (s : mailState) : mailState := foldl (λ s st, mail_exec st s) s steps.

(** Every batch is worked off within its lease, and no worker stops with a mail handed
    over and not marked. *)
Definition mail_kept (st : mail_step) (s : mailState) : bool :=
  match st with
  | MailClaimed _ _ leaseTTL _ now =>
      forallb (λ x, match ml_todo x.2 with [] => true | _ => now - make_interval leaseTTL <=? ml_since x.2 end)
        (map_to_list (ms_mailers s))
  | MailStopped w => match ms_mailers s !! w with Some m => negb (ml_handed m) | None => true end
  | _ => true
  end.
Fixpoint mails_kept (steps : list mail_step) (s : mailState) : bool :=
  match steps with
  | [] => true
  | st :: steps => mail_kept st s && mails_kept steps (mail_exec st s)
  end.

(** ** No mail goes out twice *)

Record MailInv (s : mailState) : Prop := {
  mi_keys id r : ms_table s !! id = Some r → dv_id r = id;
  mi_held w m id : ms_mailers s !! w = Some m → id ∈ ml_todo m →
    ∃ r, ms_table s !! id = Some r ∧ dv_status r = NotificationProcessing ∧ dv_locked r = Some (ml_since m);
  mi_todo w m : ms_mailers s !! w = Some m → NoDup (ml_todo m);
  mi_apart w w' m m' id : ms_mailers s !! w = Some m → ms_mailers s !! w' = Some m' → id ∈ ml_todo m → id ∈ ml_todo m' → w = w';
  mi_handed w m : ms_mailers s !! w = Some m → ml_handed m = true → ml_todo m ≠ [];
  mi_sent id : id ∈ ms_sent s → (∃ r, ms_table s !! id = Some r ∧ dv_status r = NotificationSent) ∨
    ∃ w m, ms_mailers s !! w = Some m ∧ ml_handed m = true ∧ head (ml_todo m) = Some id;
  mi_once : NoDup (ms_sent s)
}.

Lemma foldl_insert_rows rows : ∀ t : deliveries, NoDup (map dv_id rows) →
  (∀ r, r ∈ rows → foldl (λ t r, <[dv_id r := r]> t) t rows !! dv_id r = Some r) ∧
  ∀ id, id ∉ map dv_id rows → foldl (λ t r, <[dv_id r := r]> t) t rows !! id = t !! id.
Proof using Type.
induction rows as [|x rows IH]; intros t Hnd.
{ split; [by intros ? ?%not_elem_of_nil|done]. }
apply NoDup_cons in Hnd as [Hx Hnd]. destruct (IH (<[dv_id x := x]> t) Hnd) as [IH1 IH2]. split; cbn.
- intros r [->|Hr]%elem_of_cons; [|by apply IH1]. rewrite IH2 by done. by rewrite lookup_insert_eq.
- intros id [Hne Hid]%not_elem_of_cons. rewrite IH2 by done. by rewrite lookup_insert_ne.
Qed.

(** What a claim hands out, and what it leaves alone. *)
Lemma notification_claim_spec workerID leaseTTL limit now t : (∀ id r, t !! id = Some r → dv_id r = id) →
  let '(t', batch) := pg_ClaimNotifications make_interval workerID leaseTTL limit now t in
  NoDup (map nd_ID batch) ∧
  (∀ id, id ∈ map nd_ID batch → ∃ r, t !! id = Some r ∧ delivery_claimable make_interval leaseTTL now r = true ∧
     t' !! id = Some (claim_row workerID now r)) ∧
  (∀ id, id ∉ map nd_ID batch → t' !! id = t !! id).
Proof using Type.
intros Hkeys. unfold pg_ClaimNotifications.
set (claimed := take _ _). set (rows := map (claim_row workerID now) claimed).
assert (map nd_ID (sort_slice (λ _ _, false) (map delivery_of_row rows)) ≡ₚ map dv_id claimed) as Hids.
{ rewrite sort_slice_perm. unfold rows. by rewrite !map_map. }
assert (map dv_id rows = map dv_id claimed) as Hrows by (unfold rows; by rewrite map_map).
assert (∀ r, r ∈ claimed → t !! dv_id r = Some r ∧ delivery_claimable make_interval leaseTTL now r = true) as Hin.
{ intros r Hr. unfold claimed in Hr. apply elem_of_take in Hr as (i & Hr & _). apply list_elem_of_lookup_2 in Hr. rewrite sort_slice_perm in Hr.
  apply list_elem_of_In, List.filter_In in Hr as [Hr Hc]. split; [|done]. apply list_elem_of_In, list_elem_of_fmap in Hr as ([id r'] & -> & Hr).
  rewrite map_range_perm in Hr. apply elem_of_map_to_list in Hr. cbn. by rewrite (Hkeys id r'). }
assert (NoDup (map dv_id claimed)) as Hnd.
{ unfold claimed. apply (sublist_NoDup _ (map dv_id (sort_slice (λ x y, dv_available x <? dv_available y)
    (List.filter (delivery_claimable make_interval leaseTTL now) (map snd (map_range t)))))).
  - rewrite sort_slice_perm. assert (NoDup (map dv_id (map snd (map_range t)))) as Hall.
    { rewrite map_map. assert (∀ l : list (string * deliveryRow), (∀ x, x ∈ l → dv_id x.2 = x.1) → NoDup (map fst l) → NoDup (map (λ x, dv_id x.2) l)) as Hl.
      { intros l Hl Hndl. by rewrite (map_ext_in (λ x, dv_id x.2) fst) by (intros x Hx; apply Hl; by apply list_elem_of_In). }
      apply Hl; [|rewrite map_range_perm; apply NoDup_fst_map_to_list]. intros [id r] Hx. rewrite map_range_perm in Hx. apply elem_of_map_to_list in Hx. by apply Hkeys. }
    revert Hall. generalize (map snd (map_range t)). intros l. induction l as [|x l IH]; [done|]. cbn. intros [Hx Hl]%NoDup_cons.
    destruct (delivery_claimable _ _ _ x); [|by apply IH]. cbn. apply NoDup_cons. split; [|by apply IH].
    intros (y & Hy & Hyl)%list_elem_of_fmap. apply Hx. rewrite Hy. apply list_elem_of_In, List.filter_In in Hyl as [Hyl _].
    apply (list_elem_of_fmap_2 dv_id). by apply list_elem_of_In.
  - apply fmap_sublist. apply sublist_take. }
destruct (foldl_insert_rows rows t) as [Hf1 Hf2]; [by rewrite Hrows|]. split; [by rewrite Hids|]. split.
- intros id Hid. rewrite Hids in Hid. apply list_elem_of_fmap in Hid as (r & -> & Hr). destruct (Hin r Hr) as [Ht Hc]. exists r.
  split; [done|]. split; [done|]. apply (Hf1 (claim_row workerID now r)). by apply (list_elem_of_fmap_2 (claim_row workerID now)).
- intros id Hid. apply Hf2. by rewrite Hrows, <- Hids.
Qed.

Lemma MailInv_empty : MailInv (mkMailState ∅ ∅ []).
Proof using Type. split; cbn; try done; [by intros ? ?%not_elem_of_nil|constructor]. Qed.

(** Work that changes no row in anyone's hands and takes no sent mark back. *)
Lemma MailInv_table s t : MailInv s → (∀ id r, t !! id = Some r → dv_id r = id) →
  (∀ id r, ms_table s !! id = Some r → dv_status r = NotificationProcessing ∨ dv_status r = NotificationSent → t !! id = Some r) →
  MailInv (s <| ms_table := t |>).
Proof using Type.
intros [H1 H2 H3 H4 H5 H6 H7] Hkeys Hkeep. split; cbn; try done.
- intros w m id Hw Hid. destruct (H2 w m id Hw Hid) as (r & Hr & Hst & Hl). exists r. split; [apply Hkeep; [done|by left]|done].
- intros id Hid. destruct (H6 id Hid) as [(r & Hr & Hst)|Hh]; [left; exists r; split; [apply Hkeep; [done|by right]|done]|by right].
Qed.

Lemma MailInv_queue value now s : MailInv s → MailInv (mail_exec (MailQueued value now) s).
Proof using Type.
intros Hs. pose proof (mi_keys _ Hs) as Hkeys. change (MailInv (s <| ms_table := (pg_QueueNotification violation now value (ms_table s)).1 |>)).
assert ((pg_QueueNotification violation now value (ms_table s)).1 = ms_table s ∨ ms_table s !! nd_ID value = None ∧
  ∃ row, dv_id row = nd_ID value ∧ (pg_QueueNotification violation now value (ms_table s)).1 = <[nd_ID value := row]> (ms_table s)) as [->|(Hid & row & Hrow & ->)].
{ unfold pg_QueueNotification. destruct (ms_table s !! nd_ID value), (nullif (nd_UserID value)), (nullif (nd_RecipientEmail value));
    cbn; try (by left); right; (split; [done|]); by eexists (mkDeliveryRow (nd_ID value) _ _ _ _ _ _ _ _ _ _ _ _). }
- by apply MailInv_table.
- apply MailInv_table; [done|..].
  + intros id r. rewrite lookup_insert_Some. intros [[<- <-]|[_ Hr]]; [done|by apply Hkeys].
  + intros id r Hr _. rewrite lookup_insert_ne; [done|]. congruence.
Qed.

Lemma mail_kept_spec w workerID leaseTTL limit now s h m id : mail_kept (MailClaimed w workerID leaseTTL limit now) s = true →
  ms_mailers s !! h = Some m → id ∈ ml_todo m → now - make_interval leaseTTL ≤ ml_since m.
Proof using Type.
cbn. intros Hk Hh Hid. rewrite forallb_forall in Hk. specialize (Hk (h, m)). cbn in Hk.
destruct (ml_todo m); [by apply not_elem_of_nil in Hid|]. apply Z.leb_le, Hk. by apply list_elem_of_In, elem_of_map_to_list.
Qed.

(** What may be claimed is in no one's hands and has not gone out. *)
Lemma claimable_free w workerID leaseTTL limit now s id r : MailInv s → mail_kept (MailClaimed w workerID leaseTTL limit now) s = true →
  ms_table s !! id = Some r → delivery_claimable make_interval leaseTTL now r = true →
  dv_status r ≠ NotificationSent ∧ ∀ h m, ms_mailers s !! h = Some m → id ∉ ml_todo m.
Proof using Type.
intros Hs Hk Hr Hc. unfold delivery_claimable in Hc.
assert (dv_status r = NotificationPending ∨ dv_status r = NotificationProcessing ∧ ∃ t, dv_locked r = Some t ∧ t < now - make_interval leaseTTL) as Hst.
{ apply orb_true_iff in Hc as [[Hp%String.eqb_eq _]%andb_true_iff|[Hp%String.eqb_eq Hl]%andb_true_iff]; [by left|right].
  split; [done|]. destruct (dv_locked r) as [t|]; [|done]. exists t. split; [done|lia]. }
split.
- intros Hsent. destruct Hst as [Hst|[Hst _]]; rewrite Hst in Hsent; discriminate.
- intros h m Hh Hid. destruct (mi_held _ Hs h m id Hh Hid) as (r' & Hr' & Hst' & Hl'). rewrite Hr in Hr'. injection Hr' as <-.
  destruct Hst as [Hst|[_ (t & Ht & Hlt)]]; [rewrite Hst in Hst'; discriminate|].
  pose proof (mail_kept_spec _ _ _ _ _ _ _ _ _ Hk Hh Hid). rewrite Ht in Hl'. injection Hl' as ->. lia.
Qed.

Lemma MailInv_claim w workerID leaseTTL limit now s : MailInv s → mail_kept (MailClaimed w workerID leaseTTL limit now) s = true →
  MailInv (mail_exec (MailClaimed w workerID leaseTTL limit now) s).
Proof using Type.
intros Hs Hk. unfold mail_exec. destruct (ms_mailers s !! w) as [m0|] eqn:Hw; [done|].
pose proof (notification_claim_spec workerID leaseTTL limit now (ms_table s) (mi_keys _ Hs)) as Hc.
destruct (pg_ClaimNotifications _ _ _ _ _ _) as [t batch]. destruct Hc as (Hnd & Hnew & Hold).
assert (∀ id, id ∈ map nd_ID batch → ∀ h m, ms_mailers s !! h = Some m → id ∉ ml_todo m) as Hfree.
{ intros id Hid. destruct (Hnew id Hid) as (r & Hr & Hcl & _). by eapply claimable_free. }
destruct Hs as [H1 H2 H3 H4 H5 H6 H7]. split; cbn; try done.
- intros id r Hr. destruct (decide (id ∈ map nd_ID batch)) as [Hid|Hid].
  + destruct (Hnew id Hid) as (r' & Hr' & _ & Heq). rewrite Heq in Hr. injection Hr as <-. cbn. by apply H1.
  + rewrite Hold in Hr by done. by apply H1.
- intros h m id. rewrite lookup_insert_Some. intros [[<- <-]|[Hne Hh]] Hid.
  + destruct (Hnew id Hid) as (r & _ & _ & Heq). by exists (claim_row workerID now r).
  + rewrite Hold; [by eapply H2|]. intros Hb. by apply (Hfree id Hb h m).
- intros h m. rewrite lookup_insert_Some. intros [[<- <-]|[_ Hh]]; [done|by eapply H3].
- intros h h' m m' id. rewrite !lookup_insert_Some. intros [[<- <-]|[Hn Hh]] [[<- <-]|[Hn' Hh']] Hid Hid'; try done.
  + by destruct (Hfree id Hid h' m' Hh').
  + by destruct (Hfree id Hid' h m Hh).
  + by eapply H4.
- intros h m. rewrite lookup_insert_Some. intros [[<- <-]|[_ Hh]]; [done|by eapply H5].
- intros id Hid. destruct (H6 id Hid) as [(r & Hr & Hst)|(h & m & Hh & Hha & Hhd)].
  + left. exists r. split; [|done]. rewrite Hold; [done|]. intros Hb. destruct (Hnew id Hb) as (r' & Hr' & Hcl & _).
    rewrite Hr in Hr'. injection Hr' as <-. destruct (claimable_free w workerID leaseTTL limit now s id r) as [Hn _]; try done.
  + right. exists h, m. split; [|done]. rewrite lookup_insert_ne; [done|]. congruence.
Qed.

(** A mail in someone's hands that has gone out is the one handed over. *)
Lemma sent_is_handed s w since id todo handed : MailInv s → ms_mailers s !! w = Some (mkMailer since (id :: todo) handed) →
  id ∈ ms_sent s → handed = true.
Proof using Type.
intros [H1 H2 H3 H4 H5 H6 H7] Hw Hi. destruct (H2 w _ id Hw ltac:(by left)) as (r & Hr & Hst & _).
destruct (H6 id Hi) as [(r' & Hr' & Hst')|(h & m & Hh & Hha & Hhd)].
{ rewrite Hr in Hr'. injection Hr' as <-. rewrite Hst in Hst'. discriminate. }
destruct m as [since' [|i' todo'] ha]; [done|]. cbn in *. injection Hhd as ->.
assert (h = w) as -> by (eapply (H4 h w _ _ id Hh Hw); by left). rewrite Hw in Hh. by injection Hh as _ _ <-.
Qed.

Lemma MailInv_hand w s : MailInv s → MailInv (mail_exec (MailHanded w) s).
Proof using Type.
intros Hs. cbn. destruct (ms_mailers s !! w) as [[since [|id todo] [|]]|] eqn:Hw; try done.
pose proof Hs as [H1 H2 H3 H4 H5 H6 H7]. split; cbn; try done.
- intros h m i. rewrite lookup_insert_Some. intros [[<- <-]|[_ Hh]]; [exact (H2 w _ i Hw)|exact (H2 h m i Hh)].
- intros h m. rewrite lookup_insert_Some. intros [[<- <-]|[_ Hh]]; [exact (H3 w _ Hw)|exact (H3 h m Hh)].
- intros h h' m m' i. rewrite !lookup_insert_Some. intros [[<- <-]|[Hn Hh]] [[<- <-]|[Hn' Hh']]; try done; cbn.
  + exact (H4 w h' _ m' i Hw Hh').
  + exact (H4 h w m _ i Hh Hw).
  + exact (H4 h h' m m' i Hh Hh').
- intros h m. rewrite lookup_insert_Some. intros [[<- <-]|[_ Hh]]; [done|by eapply H5].
- intros i [Hi| ->%list_elem_of_singleton]%elem_of_app; [|right; eexists w, _; split; [by rewrite lookup_insert_eq|done]].
  destruct (H6 i Hi) as [Hst|(h & m & Hh & Hha & Hhd)]; [by left|right]. exists h, m. split; [|done].
  rewrite lookup_insert_ne; [done|]. intros ->. rewrite Hw in Hh. by injection Hh as <-.
- apply NoDup_app. split; [done|]. split; [|apply NoDup_singleton]. intros i Hi ->%list_elem_of_singleton.
  discriminate (sent_is_handed _ _ _ _ _ _ Hs Hw Hi).
Qed.

Lemma pg_mark_other id outcome i t : i ≠ id → pg_mark id outcome t !! i = t !! i.
Proof using Type. intros Hne. destruct outcome; apply lookup_alter_ne; congruence. Qed.
Lemma pg_mark_keys id outcome t : (∀ i r, t !! i = Some r → dv_id r = i) → ∀ i r, pg_mark id outcome t !! i = Some r → dv_id r = i.
Proof using Type.
intros Hk i r. destruct outcome; cbn; unfold pg_MarkNotificationSent, pg_MarkNotificationRetry, pg_MarkNotificationDeadLettered, mark;
  rewrite lookup_alter_Some; intros [(<- & r0 & Hr0 & ->)|[_ Hr]]; cbn; by apply Hk.
Qed.

Lemma MailInv_mark w outcome s : MailInv s → MailInv (mail_exec (MailMarked w outcome) s).
Proof using Type.
intros Hs. cbn. destruct (ms_mailers s !! w) as [[since [|id todo] handed]|] eqn:Hw; try done.
destruct (handed && _) eqn:Hout; [done|]. pose proof Hs as [H1 H2 H3 H4 H5 H6 H7].
pose proof (H3 w _ Hw) as Hnd. cbn in Hnd. apply NoDup_cons in Hnd as [Hid Hnd].
assert (∀ h m i, <[w:=mkMailer since todo false]> (ms_mailers s) !! h = Some m → i ∈ ml_todo m →
  i ≠ id ∧ ∃ m', ms_mailers s !! h = Some m' ∧ i ∈ ml_todo m' ∧ ml_since m' = ml_since m) as Hsub.
{ intros h m i. rewrite lookup_insert_Some. intros [[<- <-]|[Hne Hh]] Hi; cbn in Hi.
  - split; [by intros ->|]. eexists. split; [exact Hw|]. split; [by right|done].
  - split; [|by exists m]. intros ->. apply Hne. eapply (H4 w h _ _ id Hw Hh); [by left|done]. }
split; cbn; try done.
- by apply pg_mark_keys.
- intros h m i Hh Hi. destruct (Hsub h m i Hh Hi) as (Hne & m' & Hm' & Hi' & <-). rewrite pg_mark_other by done. by eapply H2.
- intros h m. rewrite lookup_insert_Some. intros [[<- <-]|[_ Hh]]; [done|by eapply H3].
- intros h h' m m' i Hh Hh' Hi Hi'. destruct (Hsub h m i Hh Hi) as (_ & m1 & Hm1 & Hi1 & _).
  destruct (Hsub h' m' i Hh' Hi') as (_ & m2 & Hm2 & Hi2 & _). by eapply (H4 h h' m1 m2 i).
- intros h m. rewrite lookup_insert_Some. intros [[<- <-]|[_ Hh]]; [done|by eapply H5].
- intros i Hi. destruct (decide (i = id)) as [->|Hne].
  + left. destruct (H2 w _ id Hw ltac:(by left)) as (r & Hr & Hst & _). destruct outcome as [now|at_ reason|reason].
    * cbn. unfold pg_MarkNotificationSent, mark. rewrite lookup_alter_eq, Hr. by eexists.
    * by rewrite (sent_is_handed _ _ _ _ _ _ Hs Hw Hi) in Hout.
    * by rewrite (sent_is_handed _ _ _ _ _ _ Hs Hw Hi) in Hout.
  + destruct (H6 i Hi) as [(r & Hr & Hst)|(h & m & Hh & Hha & Hhd)].
    * left. exists r. by rewrite pg_mark_other.
    * right. exists h, m. split; [|done]. rewrite lookup_insert_ne; [done|]. intros ->. rewrite Hw in Hh. injection Hh as <-. cbn in Hhd. congruence.
Qed.

Lemma MailInv_stop w s : MailInv s → mail_kept (MailStopped w) s = true → MailInv (mail_exec (MailStopped w) s).
Proof using Type.
intros [H1 H2 H3 H4 H5 H6 H7] Hk. cbn in Hk. split; cbn; try done.
- intros h m i. rewrite lookup_delete_Some. intros [_ Hh]. by eapply H2.
- intros h m. rewrite lookup_delete_Some. intros [_ Hh]. by eapply H3.
- intros h h' m m' i. rewrite !lookup_delete_Some. intros [_ Hh] [_ Hh']. by eapply H4.
- intros h m. rewrite lookup_delete_Some. intros [_ Hh]. by eapply H5.
- intros i Hi. destruct (H6 i Hi) as [Hst|(h & m & Hh & Hha & Hhd)]; [by left|right]. exists h, m. split; [|done].
  rewrite lookup_delete_ne; [done|]. intros ->. rewrite Hh, Hha in Hk. done.
Qed.

Lemma MailInv_exec st s : MailInv s → mail_kept st s = true → MailInv (mail_exec st s).
Proof using Type.
intros Hs Hk. destruct st; [by apply MailInv_queue|by apply MailInv_claim|by apply MailInv_hand|by apply MailInv_mark|by apply MailInv_stop].
Qed.

(** [C4] However many replicas work the queue, claiming, sending, failing, retrying and
    stopping in any order: as long as every batch is worked off within its lease and no
    worker dies between a handover and its mark, each queued mail is handed to the
    provider at most once, and one that was is marked sent or about to be. *)
Theorem mail_sent_once (steps : list mail_step) (Hkept : mails_kept steps (mkMailState ∅ ∅ []) = true) :
  let s := mail_run steps (mkMailState ∅ ∅ []) in
  NoDup (ms_sent s) ∧ ∀ id, id ∈ ms_sent s → (∃ r, ms_table s !! id = Some r ∧ dv_status r = NotificationSent) ∨
    ∃ w m, ms_mailers s !! w = Some m ∧ ml_handed m = true ∧ head (ml_todo m) = Some id.
Proof using Type.
intros s. assert (MailInv s) as Hs; [|split; [apply (mi_once _ Hs)|apply (mi_sent _ Hs)]].
unfold s. revert Hkept. generalize MailInv_empty. generalize (mkMailState ∅ ∅ []).
induction steps as [|st steps IH]; intros s0 Hs0; [done|]. cbn. intros [Hst Hk]%andb_true_iff. apply IH; [by apply MailInv_exec|done].
Qed.
End Steps.

(** ** Examples *)

Module MailSample.
#[local] Existing Instance default_runtime.
Definition violation : error := ErrorsNew "check constraint".
Definition mail (id : string) : NotificationDelivery := mkNotificationDelivery id "u1" "" "budget_alert" ∅ 0 NotificationPending 0.
Definition claim (w : nat) (now : Time) : mail_step := MailClaimed w ("worker-" ++ pretty w) notificationLeaseTTL 25 now.
Definition handOver (w : nat) (now : Time) : list mail_step := [MailHanded w; MailMarked w (MarkSent now)].
Definition run (steps : list mail_step) : mailState := mail_run id violation steps (mkMailState ∅ ∅ []).
Definition kept (steps : list mail_step) : bool := mails_kept id violation steps (mkMailState ∅ ∅ []).

(** Two workers, a failure that is retried, a worker that dies with a delivery claimed. *)
Definition queued : list mail_step := [MailQueued (mail "n1") 0; MailQueued (mail "n2") 1].
Definition ordinary : list mail_step :=
  queued ++ [claim 0 Second; claim 1 Second] ++ handOver 0 Second ++ [MailStopped 0; claim 2 (3 * Minute);
    MailMarked 2 (MarkRetry (4 * Minute) "timeout"); MailStopped 2; claim 3 (4 * Minute)] ++ handOver 3 (4 * Minute).
Example ordinary_mails_sent : (ms_sent (run ordinary), map (λ x, (x.1, dv_status x.2, dv_attempts x.2)) (map_range (ms_table (run ordinary))), kept ordinary) =
  (["n1"; "n2"], [("n1", NotificationSent, 1); ("n2", NotificationSent, 3)], true).
Proof. vm_compute. reflexivity. Qed.

(** A batch shares one lease of two minutes: when the provider takes that long over the
    first mail, another worker claims the second, and both send it. *)
Definition slow : list mail_step :=
  queued ++ [claim 0 Second; MailHanded 0; claim 1 (3 * Minute); MailMarked 0 (MarkSent (3 * Minute)); MailHanded 0; MailHanded 1].
Example slow_provider_mails_twice : (ms_sent (run slow), kept slow) = (["n1"; "n2"; "n1"], false).
Proof. vm_compute. reflexivity. Qed.
End MailSample.

Lemma mail_sent_once_witness : NoDup (ms_sent (MailSample.run MailSample.ordinary)).
Proof.
apply (@mail_sent_once default_runtime id MailSample.violation MailSample.ordinary). vm_compute. reflexivity.
Defined.
