(* ===== verification/PgTx.v ===== *)
(** * Transactions at READ COMMITTED (pkg/pgxtx)

    The database as rows under keys, and what the code does to it as a transaction: a
    tree of statements, each of which sees the rows its predicate selects, changes some,
    and goes on with what it saw.  [Within] and [Atomic] run one such tree.  Sessions
    interleave statement by statement: a statement sees what is committed now and the
    changes of its own transaction, and waits for a row another transaction has changed.
    When no commit changes what a running transaction has seen, the committed ones are
    as if they had run one after the other ([serializable]); transactions that leave
    every row they read and do not lock to a single owner are so for every schedule in
    which an owner has one transaction at a time ([exclusive_serializable]). *)

From S2P Require Export Prelude GoTime.
#[global] Open Scope Z_scope.

(** ** Columns *)

(** pgx writes a time with its microseconds, and a UTC time as a date by its day. *)
Definition pg_time (t : Time) : Time := t - t mod 1000.
Definition pg_date (t : Time) : Z := t / day_ns.
(** [CHAR(3)] is read back padded. *)
Definition pg_char3 (s : string) : string :=
  match String.length s with 0%nat => s +:+ "   " | 1%nat => s +:+ "  " | 2%nat => s +:+ " " | _ => s end.
Definition pg_bigint (z : Z) : bool := (min_int64 <=? z) && (z <=? max_int64).
Definition out_of_range : error := ErrorsNew "bigint out of range".

Section Engine.
Context {K V : Type} `{Countable K} `{EqDecision V}.

Abbreviation database := (gmap K V).
(** Uncommitted changes; [None] is a deletion. *)
Abbreviation changes := (gmap K (option V)).

(** A statement fails or changes rows, and answers with the rows it saw. *)
Inductive tx (A : Type) : Type :=
  | Ret (r : error + A)
  | Stmt (reads : K → V → bool) (st : database → error + changes) (next : database → tx A).
#[global] Arguments Ret {A}.
#[global] Arguments Stmt {A}.

#[export] Instance tx_ret : MRet tx := λ A a, Ret (inr a).
#[export] Instance tx_bind : MBind tx := λ A B k, fix bind (t : tx A) : tx B :=
  match t with
  | Ret (inl e) => Ret (inl e)
  | Ret (inr a) => k a
  | Stmt reads st next => Stmt reads st (λ v, bind (next v))
  end.
Definition tx_throw {A} (e : error) : tx A := Ret (inl e).
Definition tx_map_err {A} (f : error → error) : tx A → tx A := fix go t :=
  match t with
  | Ret (inl e) => Ret (inl (f e))
  | Ret r => Ret r
  | Stmt reads st next => Stmt reads (λ v, match st v with inl e => inl (f e) | r => r end) (λ v, go (next v))
  end.
Fixpoint tx_each {A} (body : A → tx ()) (l : list A) : tx () :=
  match l with
  | [] => mret ()
  | x :: l => _ ← body x; tx_each body l
  end.

(** A query, and a statement on one row. *)
Definition select {A} (reads : K → V → bool) (k : database → tx A) : tx A := Stmt reads (λ _, inr ∅) k.
Definition modify_row {A} (k : K) (f : option V → error + option (option V)) (next : option V → tx A) : tx A :=
  Stmt (λ k' _, bool_decide (k = k'))
    (λ v, match f (v !! k) with
          | inl e => inl e
          | inr None => inr ∅
          | inr (Some new) => inr {[k := new]}
          end) (λ v, next (v !! k)).

Definition overlay (p : changes) (db : database) : database :=
  merge (λ new old, match new with Some v => v | None => old end) p db.
Definition visible (reads : K → V → bool) (db : database) : database := filter (λ x, reads x.1 x.2 = true) db.
Definition seen (reads : K → V → bool) (k : K) (v : option V) : option V :=
  match v with Some x => if reads k x then Some x else None | None => None end.

(** ** One transaction alone *)

Fixpoint run_from {A} (t : tx A) (p : changes) (db : database) : changes * (error + A) :=
  match t with
  | Ret r => (p, r)
  | Stmt reads st next =>
      let v := visible reads (overlay p db) in
      match st v with
      | inl e => (p, inl e)
      | inr ch => run_from (next v) (ch ∪ p) db
      end
  end.

(** [Within]: commit when the function returns nil, roll back otherwise. *)
Definition Within {A} (t : tx A) (db : database) : database * (error + A) :=
  match run_from t ∅ db with
  | (p, inr a) => (overlay p db, inr a)
  | (_, inl e) => (db, inl e)
  end.

(** ** Sessions

    What the sessions run are the transactions [program] gives to the tasks [L]; the
    tasks that are to exclude each other have the same [owner]. *)

Context {L O : Type} `{EqDecision O} (program : L → tx ()) (owner : L → O).

Fixpoint commit_all (log : list L) (db : database) : option database :=
  match log with
  | [] => Some db
  | l :: log => match Within (program l) db with (db, inr _) => commit_all log db | _ => None end
  end.

(** [se_found] is what a waiting statement had found: once the other transaction has
    ended, the statement goes on with the rows under these keys as they are then, and
    looks for no others. *)
Record session := mkSession {
  se_task : L; se_rest : tx (); se_pend : changes; se_reads : K → V → bool; se_found : option (list K)
}.
Record txState := mkTxState { tx_db : database; tx_sessions : gmap nat session; tx_log : list L }.

Inductive tx_step := TxBegin (n : nat) (l : L) | TxNext (n : nat) | TxEnd (n : nat) | TxAbort (n : nat).

Definition waits (n : nat) (ch : changes) (sessions : gmap nat session) : bool :=
  existsb (λ x, negb (x.1 =? n)%nat && existsb (λ c, bool_decide (is_Some (se_pend x.2 !! c.1))) (map_to_list ch))
    (map_to_list sessions).

Definition among (found : option (list K)) (reads : K → V → bool) : K → V → bool :=
  match found with Some keys => λ k x, reads k x && bool_decide (k ∈ keys) | None => reads end.

Definition tx_exec (st : tx_step) (s : txState) : txState :=
  match st with
  | TxBegin n l =>
      match tx_sessions s !! n with
      | Some _ => s
      | None => mkTxState (tx_db s) (<[n := mkSession l (program l) ∅ (λ _ _, false) None]> (tx_sessions s)) (tx_log s)
      end
  | TxNext n =>
      match tx_sessions s !! n with
      | Some (mkSession l (Stmt reads st next) p seen_ found) =>
          let v := visible (among found reads) (overlay p (tx_db s)) in
          match st v with
          | inl e => mkTxState (tx_db s) (delete n (tx_sessions s)) (tx_log s)
          | inr ch =>
              if waits n ch (tx_sessions s)
              then mkTxState (tx_db s) (<[n := mkSession l (Stmt reads st next) p seen_
                     (Some (default (map fst (map_to_list ch)) found))]> (tx_sessions s)) (tx_log s)
              else mkTxState (tx_db s) (<[n := mkSession l (next v) (ch ∪ p) (λ k x, seen_ k x || reads k x) None]> (tx_sessions s)) (tx_log s)
          end
      | _ => s
      end
  | TxEnd n =>
      match tx_sessions s !! n with
      | Some (mkSession l (Ret (inr _)) p _ _) =>
          mkTxState (overlay p (tx_db s)) (delete n (tx_sessions s)) (tx_log s ++ [l])
      | Some (mkSession _ (Ret (inl _)) _ _ _) => mkTxState (tx_db s) (delete n (tx_sessions s)) (tx_log s)
      | _ => s
      end
  | TxAbort n => mkTxState (tx_db s) (delete n (tx_sessions s)) (tx_log s)
  end.
Definition tx_run (steps : list tx_step) (s : txState) : txState := foldl (λ s st, tx_exec st s) s steps.

(** A statement that has waited goes on with less than it would find now. *)
Definition overtaken (db : database) (se : session) : bool :=
  match se_rest se with
  | Stmt reads _ _ =>
      negb (bool_decide (visible (among (se_found se) reads) (overlay (se_pend se) db) = visible reads (overlay (se_pend se) db)))
  | Ret _ => false
  end.

(** A commit disturbs a running transaction when it changes a row the other has seen, or
    would have seen, and does not hold. *)
Definition disturbs (p : changes) (db : database) (se : session) : bool :=
  existsb (λ c, bool_decide (se_pend se !! c.1 = None) &&
                negb (bool_decide (seen (se_reads se) c.1 (db !! c.1) = seen (se_reads se) c.1 c.2))) (map_to_list p).
Definition undisturbed (st : tx_step) (s : txState) : bool :=
  match st with
  | TxNext n => match tx_sessions s !! n with Some se => negb (overtaken (tx_db s) se) | None => true end
  | TxEnd n =>
      match tx_sessions s !! n with
      | Some (mkSession _ (Ret (inr _)) p _ _) =>
          forallb (λ x, (x.1 =? n)%nat || negb (disturbs p (tx_db s) x.2)) (map_to_list (tx_sessions s))
      | _ => true
      end
  | _ => true
  end.
Fixpoint all_undisturbed (steps : list tx_step) (s : txState) : bool :=
  match steps with
  | [] => true
  | st :: steps => undisturbed st s && all_undisturbed steps (tx_exec st s)
  end.

(** An owner has one transaction at a time. *)
Definition exclusive_step (st : tx_step) (s : txState) : bool :=
  match st with
  | TxBegin n l => forallb (λ x, negb (bool_decide (owner (se_task x.2) = owner l))) (map_to_list (tx_sessions s))
  | _ => true
  end.
Fixpoint exclusive (steps : list tx_step) (s : txState) : bool :=
  match steps with
  | [] => true
  | st :: steps => exclusive_step st s && exclusive steps (tx_exec st s)
  end.

#[global] Arguments overlay : simpl never.
#[global] Arguments visible : simpl never.

(** ** What a statement sees *)

Definition same_seen (reads : K → V → bool) (db db' : database) : Prop :=
  ∀ k, seen reads k (db !! k) = seen reads k (db' !! k).

Lemma lookup_visible reads db k : visible reads db !! k = seen reads k (db !! k).
Proof using Type.
unfold visible, seen. destruct (db !! k) as [v|] eqn:Hk.
- destruct (reads k v) eqn:Hr; [by apply map_lookup_filter_Some|]. apply map_lookup_filter_None. right.
  intros x Hx. rewrite Hk in Hx. injection Hx as <-. cbn. by rewrite Hr.
- apply map_lookup_filter_None. by left.
Qed.

Lemma lookup_overlay p db k : overlay p db !! k = match p !! k with Some v => v | None => db !! k end.
Proof using Type. unfold overlay. rewrite lookup_merge. by destruct (p !! k), (db !! k). Qed.

Lemma visible_same reads p db db' : same_seen reads db db' → visible reads (overlay p db') = visible reads (overlay p db).
Proof using Type. intros Hs. apply map_eq. intros k. rewrite !lookup_visible, !lookup_overlay. destruct (p !! k); [done|]. by rewrite Hs. Qed.

Lemma same_seen_or reads reads' db db' : same_seen (λ k v, reads k v || reads' k v) db db' →
  same_seen reads db db' ∧ same_seen reads' db db'.
Proof using Type.
intros Hs. split; intros k; specialize (Hs k); unfold seen in *; destruct (db !! k) as [x|], (db' !! k) as [y|]; try done.
1,4: destruct (reads k x) eqn:?, (reads' k x) eqn:?, (reads k y) eqn:?, (reads' k y) eqn:?; cbn in *; congruence.
1,3: destruct (reads k x) eqn:?, (reads' k x) eqn:?; cbn in *; congruence.
all: destruct (reads k y) eqn:?, (reads' k y) eqn:?; cbn in *; congruence.
Qed.

Lemma same_seen_trans reads db1 db2 db3 : same_seen reads db1 db2 → same_seen reads db2 db3 → same_seen reads db1 db3.
Proof using Type. intros H1 H2 k. by rewrite H1. Qed.

Lemma run_from_bind {A B} (k : A → tx B) t : ∀ p db,
  run_from (t ≫= k) p db = match run_from t p db with (p', inr a) => run_from (k a) p' db | (p', inl e) => (p', inl e) end.
Proof using Type.
induction t as [[e|a]|reads st next IH]; intros p db; [done..|]. cbn. destruct (st _); [done|]. apply IH.
Qed.

(** ** Serialisability *)

Definition locked_apart (sessions : gmap nat session) : Prop :=
  ∀ n m s s' k, sessions !! n = Some s → sessions !! m = Some s' → is_Some (se_pend s !! k) → is_Some (se_pend s' !! k) → n = m.

(** Replaying a transaction on anything it could not tell from the present state leads
    where it is now. *)
Definition replays (db : database) (s : session) : Prop :=
  ∀ db', same_seen (se_reads s) db db' → run_from (program (se_task s)) ∅ db' = run_from (se_rest s) (se_pend s) db'.

Record TxInv (db0 : database) (s : txState) : Prop := {
  ti_log : commit_all (tx_log s) db0 = Some (tx_db s);
  ti_apart : locked_apart (tx_sessions s);
  ti_replays n se : tx_sessions s !! n = Some se → replays (tx_db s) se
}.

Lemma waits_spec n ch sessions m se k : waits n ch sessions = false → sessions !! m = Some se → m ≠ n → is_Some (ch !! k) → se_pend se !! k = None.
Proof using Type.
intros Hw Hm Hne [c Hc]. apply eq_None_not_Some. intros Hp. apply not_true_iff_false in Hw. apply Hw. unfold waits. apply existsb_exists.
exists (m, se). split; [by apply list_elem_of_In, elem_of_map_to_list|]. cbn. apply andb_true_iff. split; [by apply negb_true_iff, Nat.eqb_neq|].
apply existsb_exists. exists (k, c). split; [by apply list_elem_of_In, elem_of_map_to_list|]. by apply bool_decide_eq_true.
Qed.

Lemma commit_all_snoc log t db0 db db' : commit_all log db0 = Some db → Within (program t) db = (db', inr ()) → commit_all (log ++ [t]) db0 = Some db'.
Proof using Type.
revert db0. induction log as [|x log IH]; intros db0; cbn.
- intros [= ->] ->. done.
- destruct (Within (program x) db0) as [d [e|u]]; [done|]. by apply IH.
Qed.

Lemma disturbs_spec p db se : disturbs p db se = false → (∀ k, is_Some (p !! k) → se_pend se !! k = None) → same_seen (se_reads se) db (overlay p db).
Proof using Type.
intros Hd Hap k. rewrite lookup_overlay. destruct (p !! k) as [c|] eqn:Hk; [|done].
apply dec_stable. intros Hne. apply not_true_iff_false in Hd. apply Hd. unfold disturbs. apply existsb_exists. exists (k, c).
split; [by apply list_elem_of_In, elem_of_map_to_list|]. cbn. apply andb_true_iff. split; [apply bool_decide_eq_true, Hap; by eexists|].
by apply negb_true_iff, bool_decide_eq_false.
Qed.

Lemma apart_insert sessions n se : locked_apart sessions →
  (∀ m s k, sessions !! m = Some s → m ≠ n → is_Some (se_pend se !! k) → se_pend s !! k = None) → locked_apart (<[n := se]> sessions).
Proof using Type.
intros Hap Hse a b s s' k. rewrite !lookup_insert_Some. intros [[<- <-]|[Hna Ha]] [[<- <-]|[Hnb Hb]] Hk Hk'; [done|..].
- rewrite (Hse b s' k Hb (not_eq_sym Hnb) Hk) in Hk'. by destruct Hk'.
- rewrite (Hse a s k Ha (not_eq_sym Hna) Hk') in Hk. by destruct Hk.
- by apply (Hap a b s s' k).
Qed.

Lemma apart_delete sessions n : locked_apart sessions → locked_apart (delete n sessions).
Proof using Type. intros Hap a b s s' k. rewrite !lookup_delete_Some. intros [_ Ha] [_ Hb]. by apply Hap. Qed.

(** Row locks exclude each other in every run. *)
Lemma apart_exec st s : locked_apart (tx_sessions s) → locked_apart (tx_sessions (tx_exec st s)).
Proof using Type.
intros Hap. destruct st as [n l|n|n|n]; cbn.
- destruct (tx_sessions s !! n); [done|]. apply apart_insert; [done|]. cbn. intros m s' k _ _ [x Hk]. by rewrite lookup_empty in Hk.
- destruct (tx_sessions s !! n) as [[l [r|reads st next] p R found]|] eqn:Hn; [done| |done].
  assert (∀ m s' k, tx_sessions s !! m = Some s' → m ≠ n → is_Some (p !! k) → se_pend s' !! k = None) as Hfree.
  { intros m s' k Hm Hne Hk. apply eq_None_not_Some. intros Hk'. apply Hne. by apply (Hap m n s' _ k Hm Hn). }
  destruct (st _) as [e|ch]; [by apply apart_delete|]. destruct (waits n ch (tx_sessions s)) eqn:Hw; apply apart_insert; [done|done|done|].
  cbn. intros m s' k Hm Hne Hk. rewrite lookup_union_is_Some in Hk. destruct Hk as [Hk|Hk]; [by eapply waits_spec|by eapply Hfree].
- destruct (tx_sessions s !! n) as [[l [[e|[]]|reads st next] p R found]|]; [by apply apart_delete..|done|done].
- by apply apart_delete.
Qed.

Lemma TxInv_next db0 n s : TxInv db0 s → undisturbed (TxNext n) s = true → TxInv db0 (tx_exec (TxNext n) s).
Proof using Type.
intros [Hlog Hap Hrep] Hu. cbn in *. destruct (tx_sessions s !! n) as [[l [r|reads st next] p R found]|] eqn:Hn; [by split..| |by split].
apply negb_true_iff, negb_false_iff, bool_decide_eq_true in Hu. cbn in Hu. rewrite Hu.
pose proof (Hrep n _ Hn) as Hr. unfold replays in Hr. cbn in Hr.
assert (∀ m s' k, tx_sessions s !! m = Some s' → m ≠ n → is_Some (p !! k) → se_pend s' !! k = None) as Hfree.
{ intros m s' k Hm Hne Hk. apply eq_None_not_Some. intros Hk'. apply Hne. by apply (Hap m n s' _ k Hm Hn). }
destruct (st _) as [e|ch] eqn:Hst.
{ split; cbn; [done|by apply apart_delete|]. intros m se [_ Hm]%lookup_delete_Some. by eapply Hrep. }
destruct (waits n ch (tx_sessions s)) eqn:Hw; (split; cbn; [done|apply apart_insert; [done|cbn]|]).
- exact Hfree.
- intros m se [[<- <-]|[_ Hm]]%lookup_insert_Some; [done|by eapply Hrep].
- intros m s' k Hm Hne Hk. rewrite lookup_union_is_Some in Hk. destruct Hk as [Hk|Hk]; [by eapply waits_spec|by eapply Hfree].
- intros m se [[<- <-]|[_ Hm]]%lookup_insert_Some; [|by eapply Hrep]. intros db' [Hs Hs']%same_seen_or. cbn.
  rewrite Hr by done. cbn [run_from]. rewrite (visible_same reads p (tx_db s) db' Hs'). by rewrite Hst.
Qed.

Lemma TxInv_end db0 n s : TxInv db0 s → undisturbed (TxEnd n) s = true → TxInv db0 (tx_exec (TxEnd n) s).
Proof using Type.
intros Hs Hu. pose proof Hs as [Hlog Hap Hrep]. cbn in *. destruct (tx_sessions s !! n) as [[l [[e|[]]|reads st next] p R found]|] eqn:Hn; [|..|done].
- split; cbn; [done|by apply apart_delete|]. intros m se [_ Hm]%lookup_delete_Some. by eapply Hrep.
- rewrite forallb_forall in Hu. split; cbn.
  + apply (commit_all_snoc _ _ _ _ _ Hlog). cbn. unfold Within. pose proof (Hrep n _ Hn) as Hr. unfold replays in Hr. cbn in Hr.
    by rewrite Hr.
  + by apply apart_delete.
  + intros m se [Hne Hm]%lookup_delete_Some. intros db' Hdb'. apply (Hrep m se Hm). eapply same_seen_trans; [|done]. apply disturbs_spec.
    * specialize (Hu (m, se)). cbn in Hu. apply negb_true_iff.
      assert ((m =? n)%nat || negb (disturbs p (tx_db s) se) = true) as Ho by (apply Hu; by apply list_elem_of_In, elem_of_map_to_list).
      apply orb_true_iff in Ho as [Ho%Nat.eqb_eq|Ho]; [by subst|done].
    * intros k Hk. apply eq_None_not_Some. intros Hk'. apply Hne. by apply (Hap n m _ se k Hn Hm).
- done.
Qed.

Lemma TxInv_exec db0 st s : TxInv db0 s → undisturbed st s = true → TxInv db0 (tx_exec st s).
Proof using Type.
intros Hs Hu. destruct st as [n l|n|n|n]; [|by apply TxInv_next|by apply TxInv_end|].
- destruct Hs as [Hlog Hap Hrep]. cbn. destruct (tx_sessions s !! n) as [se|] eqn:Hn; [by split|]. split; cbn; [done|..].
  + apply apart_insert; [done|]. cbn. intros m s' k _ _ [x Hx]. by rewrite lookup_empty in Hx.
  + intros m se [[<- <-]|[_ Hm]]%lookup_insert_Some; [done|by eapply Hrep].
- destruct Hs as [Hlog Hap Hrep]. split; cbn; [done|by apply apart_delete|]. intros m se [_ Hm]%lookup_delete_Some. by eapply Hrep.
Qed.

Definition tx_start (db : database) : txState := mkTxState db ∅ [].

Lemma TxInv_start db : TxInv db (tx_start db).
Proof using Type. split; cbn; [done|by intros n m s s' k Hn|done]. Qed.

Lemma TxInv_run db0 steps : ∀ s, TxInv db0 s → all_undisturbed steps s = true → TxInv db0 (tx_run steps s).
Proof using Type.
induction steps as [|st steps IH]; intros s Hs; [done|]. cbn. intros [Hst Hk]%andb_true_iff. apply IH; [by apply TxInv_exec|done].
Qed.

Lemma undisturbed_runs_serial db steps : all_undisturbed steps (tx_start db) = true →
  commit_all (tx_log (tx_run steps (tx_start db))) db = Some (tx_db (tx_run steps (tx_start db))).
Proof using Type. intros Hu. apply (ti_log _ _ (TxInv_run db steps _ (TxInv_start db) Hu)). Qed.

(** The rows [owner_of] gives to an owner are touched by its transactions alone; a
    statement either looks at such rows only or changes, and so holds, what it reads. *)
Section Owners.
Context (owner_of : K → option O).

Fixpoint tx_private {A} (o : O) (t : tx A) : Prop :=
  match t with
  | Ret _ => True
  | Stmt reads st next => ∀ v ch, st v = inr ch →
      (ch = ∅ ∧ (∀ k x, reads k x = true → owner_of k = Some o) ∨ (∀ k x, reads k x = true → is_Some (ch !! k))) ∧
      (∀ k, is_Some (ch !! k) → owner_of k = None ∨ owner_of k = Some o) ∧
      tx_private o (next v)
  end.

Lemma tx_private_bind {A B} o (t : tx A) (k : A → tx B) : tx_private o t → (∀ a, tx_private o (k a)) → tx_private o (t ≫= k).
Proof using Type.
intros Ht Hk. induction t as [[e|a]|reads st next IH]; [done|apply Hk|]. intros v ch Hst. destruct (Ht v ch Hst) as (H1 & H2 & H3).
split; [done|]. split; [done|]. by apply IH.
Qed.

Lemma tx_private_map_err {A} o f (t : tx A) : tx_private o t → tx_private o (tx_map_err f t).
Proof using Type.
intros Ht. induction t as [[e|a]|reads st next IH]; [done..|]. intros v ch Hst. destruct (st v) as [e|ch'] eqn:Hv; [done|].
injection Hst as ->. destruct (Ht v ch Hv) as (H1 & H2 & H3). split; [done|]. split; [done|]. by apply IH.
Qed.

Lemma tx_private_each {A} o (body : A → tx ()) l : (∀ x, tx_private o (body x)) → tx_private o (tx_each body l).
Proof using Type. intros Hb. induction l as [|x l IH]; [done|]. by apply tx_private_bind. Qed.

Lemma tx_private_modify_row {A} o k f (next : option V → tx A) : (∀ row, tx_private o (next row)) →
  owner_of k = Some o ∨ owner_of k = None ∧ (∀ row, f row ≠ inr None) → tx_private o (modify_row k f next).
Proof using Type.
intros Hn Hk v ch. destruct (f (v !! k)) as [e|[new|]] eqn:Hf; [done|..]; intros [= <-]; (split; [|split; [|apply Hn]]).
- right. intros i x ->%bool_decide_eq_true. rewrite lookup_singleton_eq. by eexists.
- intros i [x [<- _]%lookup_singleton_Some]. destruct Hk as [Hk|[Hk _]]; auto.
- left. split; [done|]. intros i x ->%bool_decide_eq_true. destruct Hk as [Hk|[_ Hk]]; [done|by destruct (Hk (v !! i))].
- intros i [x Hx]. by rewrite lookup_empty in Hx.
Qed.

Record OwnInv (s : txState) : Prop := {
  oi_apart : locked_apart (tx_sessions s);
  oi_rest n se : tx_sessions s !! n = Some se → tx_private (owner (se_task se)) (se_rest se);
  oi_pend n se k : tx_sessions s !! n = Some se → is_Some (se_pend se !! k) → owner_of k = None ∨ owner_of k = Some (owner (se_task se));
  oi_reads n se k x : tx_sessions s !! n = Some se → se_reads se k x = true →
    owner_of k = Some (owner (se_task se)) ∨ is_Some (se_pend se !! k);
  oi_found n se keys : tx_sessions s !! n = Some se → se_found se = Some keys →
    match se_rest se with Stmt reads _ _ => ∀ k x, reads k x = true → k ∈ keys | Ret _ => True end;
  oi_owner n m se se' : tx_sessions s !! n = Some se → tx_sessions s !! m = Some se' → owner (se_task se) = owner (se_task se') → n = m
}.

Lemma OwnInv_undisturbed st s : OwnInv s → undisturbed st s = true.
Proof using Type.
intros [Hap _ Hpend Hreads Hfound Hown]. destruct st as [|n|n|]; [done|..|done]; cbn.
{ destruct (tx_sessions s !! n) as [se|] eqn:Hn; [|done]. unfold overtaken. pose proof (Hfound n se) as Hf.
  destruct (se_rest se) as [r|reads st next]; [done|]. rewrite negb_involutive. apply bool_decide_eq_true, map_eq. intros k.
  rewrite !lookup_visible. destruct (se_found se) as [keys|]; [|done]. specialize (Hf keys Hn eq_refl). unfold seen, among.
  destruct (_ !! k) as [x|]; [|done]. destruct (reads k x) eqn:Hk; [|done]. by rewrite bool_decide_true by (by eapply Hf). }
destruct (tx_sessions s !! n) as [[l [[e|[]]|reads st next] p R found]|] eqn:Hn; try done.
apply forallb_forall. intros [m se] Hm%list_elem_of_In%elem_of_map_to_list. cbn. apply orb_true_iff.
destruct (decide (m = n)) as [->|Hne]; [left; apply Nat.eqb_refl|right]. apply negb_true_iff. unfold disturbs.
apply not_true_iff_false. intros ([k c] & Hk%list_elem_of_In%elem_of_map_to_list & [Hfree%bool_decide_eq_true Hdiff%negb_true_iff%bool_decide_eq_false]%andb_true_iff)%existsb_exists.
cbn in *. apply Hdiff. assert (∀ x, se_reads se k x = false) as Hno.
{ intros x. apply not_true_iff_false. intros Hx. destruct (Hreads m se k x Hm Hx) as [Ho|Ho]; [|by rewrite Hfree in Ho; destruct Ho].
  destruct (Hpend n _ k Hn (ex_intro _ c Hk)) as [Ho'|Ho']; cbn in Ho'; rewrite Ho in Ho'; [done|]. injection Ho' as Ho'.
  apply Hne. by eapply Hown. }
unfold seen. destruct (tx_db s !! k), c; by rewrite ?Hno.
Qed.

Lemma OwnInv_delete n s db log : OwnInv s → OwnInv (mkTxState db (delete n (tx_sessions s)) log).
Proof using Type.
intros [Hap Hrest Hpend Hreads Hfound Hown]. split; cbn.
- by apply apart_delete.
- intros m se [_ Hm]%lookup_delete_Some. by eapply Hrest.
- intros m se k [_ Hm]%lookup_delete_Some. by eapply Hpend.
- intros m se k x [_ Hm]%lookup_delete_Some. by eapply Hreads.
- intros m se keys [_ Hm]%lookup_delete_Some. by eapply Hfound.
- intros m m' se se' [_ Hm]%lookup_delete_Some [_ Hm']%lookup_delete_Some. by eapply Hown.
Qed.

(** A session that goes on, with more reads, more changes, or a statement that waits. *)
Lemma OwnInv_insert n se se' s log : OwnInv s → tx_sessions s !! n = Some se → se_task se' = se_task se →
  (∀ m s' k, tx_sessions s !! m = Some s' → m ≠ n → is_Some (se_pend se' !! k) → se_pend s' !! k = None) →
  tx_private (owner (se_task se)) (se_rest se') →
  (∀ k, is_Some (se_pend se' !! k) → owner_of k = None ∨ owner_of k = Some (owner (se_task se))) →
  (∀ k x, se_reads se' k x = true → owner_of k = Some (owner (se_task se)) ∨ is_Some (se_pend se' !! k)) →
  (∀ keys, se_found se' = Some keys → match se_rest se' with Stmt reads _ _ => ∀ k x, reads k x = true → k ∈ keys | Ret _ => True end) →
  OwnInv (mkTxState (tx_db s) (<[n := se']> (tx_sessions s)) log).
Proof using Type.
intros [Hap Hrest Hpend Hreads Hfound Hown] Hn Ht H1 H2 H3 H4 H5. split; cbn.
- by apply apart_insert.
- intros m s' [[<- <-]|[_ Hm]]%lookup_insert_Some; [by rewrite Ht|by eapply Hrest].
- intros m s' k [[<- <-]|[_ Hm]]%lookup_insert_Some; [by rewrite Ht; apply H3|by eapply Hpend].
- intros m s' k x [[<- <-]|[_ Hm]]%lookup_insert_Some; [by rewrite Ht; apply H4|by eapply Hreads].
- intros m s' keys [[<- <-]|[_ Hm]]%lookup_insert_Some; [by apply H5|by eapply Hfound].
- intros m m' s1 s2 [[<- <-]|[Hne Hm]]%lookup_insert_Some [[<- <-]|[Hne' Hm']]%lookup_insert_Some Ho; try done.
  + rewrite Ht in Ho. by apply (Hown n m' se s2 Hn Hm').
  + rewrite Ht in Ho. by apply (Hown m n s1 se Hm Hn).
  + by eapply Hown.
Qed.

Lemma OwnInv_next n s : OwnInv s → OwnInv (tx_exec (TxNext n) s).
Proof using Type.
intros Hs. pose proof Hs as [Hap Hrest Hpend Hreads Hfound Hown]. cbn.
destruct (tx_sessions s !! n) as [[l [r|reads st next] p R found]|] eqn:Hn; [done| |done]. set (v := visible _ _).
pose proof (Hrest n _ Hn v) as Hr. destruct (st v) as [e|ch]; [by apply OwnInv_delete|]. destruct (Hr ch eq_refl) as (Hr1 & Hr2 & Hr3). cbn in *.
assert (∀ m s' k, tx_sessions s !! m = Some s' → m ≠ n → is_Some (p !! k) → se_pend s' !! k = None) as Hfree.
{ intros m s' k Hm Hne Hk. apply eq_None_not_Some. intros Hk'. apply Hne. by apply (Hap m n s' _ k Hm Hn). }
destruct (waits n ch (tx_sessions s)) eqn:Hw; apply (OwnInv_insert n _ _ s _ Hs Hn); cbn; try done.
- by apply (Hrest n _ Hn).
- intros k Hk. by apply (Hpend n _ k Hn).
- intros k x Hk. by apply (Hreads n _ k x Hn).
- intros keys. destruct found as [keys'|]; cbn; [intros [= <-]; by apply (Hfound n _ keys' Hn)|intros [= <-]].
  destruct Hr1 as [[-> _]|Hr1].
  + exfalso. unfold waits in Hw. apply existsb_exists in Hw as (x & _ & [_ Hw]%andb_true_iff). by rewrite map_to_list_empty in Hw.
  + intros k x Hk. destruct (Hr1 k x Hk) as [c Hc]. apply (list_elem_of_fmap_2' fst _ (k, c)); [by apply elem_of_map_to_list|done].
- intros m s' k Hm Hne Hk. rewrite lookup_union_is_Some in Hk. destruct Hk as [Hk|Hk]; [by eapply waits_spec|by eapply Hfree].
- intros k. rewrite lookup_union_is_Some. intros [Hk|Hk]; [by apply Hr2|by apply (Hpend n _ k Hn)].
- intros k x. rewrite lookup_union_is_Some. intros [Hk|Hk]%orb_true_iff; [destruct (Hreads n _ k x Hn Hk); tauto|].
  destruct Hr1 as [[_ Hr1]|Hr1]; [left|right; left]; by eapply Hr1.
Qed.

(** The transactions a run begins are private to their owners. *)
Definition begins_private (st : tx_step) : Prop := match st with TxBegin _ l => tx_private (owner l) (program l) | _ => True end.

Lemma OwnInv_exec st s : OwnInv s → begins_private st → exclusive_step st s = true → OwnInv (tx_exec st s).
Proof using Type.
intros Hs Hp Hx. pose proof Hs as [Hap Hrest Hpend Hreads Hfound Hown]. destruct st as [n l|n|n|n]; cbn.
- cbn in Hp, Hx. destruct (tx_sessions s !! n) as [se|] eqn:Hn; [done|]. rewrite forallb_forall in Hx.
  assert (∀ m se, tx_sessions s !! m = Some se → owner (se_task se) ≠ owner l) as Hfree.
  { intros m se Hm Ho. specialize (Hx (m, se)). cbn in Hx. rewrite bool_decide_true in Hx by done. specialize (Hx (proj1 (list_elem_of_In _ _) (proj2 (elem_of_map_to_list _ _ _) Hm))). discriminate. }
  split; cbn.
  + apply apart_insert; [done|]. cbn. intros m s' k _ _ [x Hk]. by rewrite lookup_empty in Hk.
  + intros m se [[<- <-]|[_ Hm]]%lookup_insert_Some; [done|by eapply Hrest].
  + intros m se k [[<- <-]|[_ Hm]]%lookup_insert_Some; [|by eapply Hpend]. cbn. intros [x Hk]. by rewrite lookup_empty in Hk.
  + intros m se k x [[<- <-]|[_ Hm]]%lookup_insert_Some; [done|by eapply Hreads].
  + intros m se keys [[<- <-]|[_ Hm]]%lookup_insert_Some; [done|by eapply Hfound].
  + intros m m' se se' [[<- <-]|[_ Hm]]%lookup_insert_Some [[<- <-]|[_ Hm']]%lookup_insert_Some; cbn; intros Ho; try done.
    * by destruct (Hfree m' se' Hm').
    * by destruct (Hfree m se Hm).
    * by eapply Hown.
- apply OwnInv_next; done.
- destruct (tx_sessions s !! n) as [[l [[e|[]]|reads st next] p R found]|]; try done; by apply OwnInv_delete.
- by apply OwnInv_delete.
Qed.

Lemma exclusive_undisturbed steps : ∀ s, OwnInv s → Forall begins_private steps → exclusive steps s = true → all_undisturbed steps s = true.
Proof using Type.
induction steps as [|st steps IH]; intros s Hs; [done|]. intros [Hp Hps]%Forall_cons. cbn. intros [Hst Hk]%andb_true_iff.
apply andb_true_iff. split; [by apply OwnInv_undisturbed|]. apply IH; [by apply OwnInv_exec|done..].
Qed.

Lemma OwnInv_start db : OwnInv (tx_start db).
Proof using Type. split; cbn; try done. Qed.

(** Every schedule of private transactions is as its committed ones one after the other. *)
Lemma exclusive_runs_serial db steps : Forall begins_private steps → exclusive steps (tx_start db) = true →
  commit_all (tx_log (tx_run steps (tx_start db))) db = Some (tx_db (tx_run steps (tx_start db))).
Proof using All.
intros Hp Hx. apply (ti_log _ _ (TxInv_run db steps _ (TxInv_start db) (exclusive_undisturbed _ _ (OwnInv_start db) Hp Hx))).
Qed.
End Owners.
End Engine.

(** ** The statements of the repositories *)

Section Statements.
Context {K V : Type} `{Countable K}.
#[local] Abbreviation stmt := (@tx K V _ _).

Definition unique_violation : error := ErrorsNew "duplicate key value violates unique constraint".
Definition foreign_key_violation : error := ErrorsNew "insert or update violates foreign key constraint".
Definition pgx_ErrNoRows : error := ErrorsNew "no rows in result set".

(** [insert], with the index entries of the new row and the rows it refers to. *)
Definition insert_rows (rows : list (K * V)) (refs : list K) : stmt () :=
  Stmt (λ k _, bool_decide (k ∈ rows.*1 ++ refs))
    (λ v, if existsb (λ row, bool_decide (is_Some (v !! row.1))) rows then inl unique_violation
          else if forallb (λ k, bool_decide (is_Some (v !! k))) refs then inr (list_to_map (prod_map id Some <$> rows))
          else inl foreign_key_violation)
    (λ _, mret ()).

(** [update ... where], over the rows it matches; answers with those. *)
Definition update_rows {A} (matches : K → V → bool) (set_ : V → V)
    (next : list (K * V) → stmt A) : stmt A :=
  Stmt matches (λ v, inr (Some ∘ set_ <$> v)) (λ v, next (map_to_list v)).

(** [select], at most one row. *)
Definition select_one {A} (matches : K → V → bool) (next : V → stmt A) : stmt A :=
  select matches (λ v, match map_to_list v with (_, x) :: _ => next x | [] => tx_throw pgx_ErrNoRows end).

Definition one_row (rows : list (K * V)) : stmt () :=
  if (length rows =? 1)%nat then mret () else tx_throw pgx_ErrNoRows.

(** [delete ... where]. *)
Definition delete_rows {A} (matches : K → V → bool) (next : stmt A) : stmt A :=
  Stmt matches (λ v, inr ((λ _, None) <$> v)) (λ _, next).
End Statements.

(** ** What has committed was begun *)

Section Log.
Context {K V : Type} `{Countable K} {L : Type} (program : L → @tx K V _ _ ()).

Lemma log_begun (P : L → Prop) steps (db : gmap K V) :
  Forall (λ st, match st with TxBegin _ l => P l | _ => True end) steps → Forall P (tx_log (tx_run program steps (tx_start db))).
Proof using Type.
intros Hs. unfold tx_run. assert (∀ s : @txState K V _ _ L, Forall P (tx_log s) ∧ (∀ n se, tx_sessions s !! n = Some se → P (se_task se)) →
  Forall P (tx_log (foldl (λ s st, tx_exec program st s) s steps))) as Hall; [|apply Hall; split; [constructor|by intros n se ?]].
induction Hs as [|st steps Hst Hs IH]; intros s [Hl Hse]; [done|]. cbn. apply IH. clear IH Hs.
destruct st as [n l|n|n|n]; cbn.
- destruct (tx_sessions s !! n); [done|]. split; [done|]. cbn. intros m se [[_ <-]|[_ Hm]]%lookup_insert_Some; [done|by eapply Hse].
- destruct (tx_sessions s !! n) as [[l [r|reads st next] p R found]|] eqn:Hn; [done| |done]. pose proof (Hse n _ Hn) as Hp. cbn in Hp.
  destruct (st _); [split; [done|]; cbn; intros m se [_ Hm]%lookup_delete_Some; by eapply Hse|].
  destruct (waits _ _ _); (split; [done|]); cbn; intros m se [[_ <-]|[_ Hm]]%lookup_insert_Some; try done; by eapply Hse.
- destruct (tx_sessions s !! n) as [[l [[e|[]]|reads st next] p R found]|] eqn:Hn; try done.
  + split; [done|]. cbn. intros m se [_ Hm]%lookup_delete_Some. by eapply Hse.
  + split; [apply Forall_app; split; [done|constructor; [by apply (Hse n _ Hn)|constructor]]|]. cbn. intros m se [_ Hm]%lookup_delete_Some. by eapply Hse.
- split; [done|]. cbn. intros m se [_ Hm]%lookup_delete_Some. by eapply Hse.
Qed.
End Log.

(** ** A transaction alone, as a computation on what it sees

    Run alone a transaction is a computation over the view of its own database, so that
    the reasoning about [M] applies; [Within] adds the rollback. *)
Section View.
Context {K V : Type} `{Countable K}.

Fixpoint view_run {A} (t : tx A) : M (gmap K V) A := λ v,
  match t with
  | Ret r => (v, r)
  | Stmt reads st next =>
      match st (visible reads v) with
      | inl e => (v, inl e)
      | inr ch => view_run (next (visible reads v)) (overlay ch v)
      end
  end.

Lemma overlay_empty (db : gmap K V) : overlay ∅ db = db.
Proof using Type. apply map_eq. intros k. by rewrite lookup_overlay, lookup_empty. Qed.
Lemma overlay_overlay q p (db : gmap K V) : overlay q (overlay p db) = overlay (q ∪ p) db.
Proof using Type. apply map_eq. intros k. rewrite !lookup_overlay, lookup_union. by destruct (q !! k), (p !! k). Qed.
Lemma overlay_singleton k v (db : gmap K V) : overlay {[k := Some v]} db = <[k := v]> db.
Proof using Type.
apply map_eq. intros i. rewrite lookup_overlay. destruct (decide (i = k)) as [->|Hne].
- by rewrite lookup_singleton_eq, lookup_insert_eq.
- by rewrite lookup_singleton_ne, lookup_insert_ne.
Qed.

Lemma run_from_view {A} (t : tx A) : ∀ p (db : gmap K V),
  let '(p', r) := run_from t p db in view_run t (overlay p db) = (overlay p' db, r).
Proof using Type.
induction t as [r|reads st next IH]; intros p db; [done|]. cbn. destruct (st _) as [e|ch]; [done|].
rewrite overlay_overlay. apply IH.
Qed.

Lemma Within_view {A} (t : tx A) (db : gmap K V) :
  Within t db = match view_run t db with (v, inr a) => (v, inr a) | (_, inl e) => (db, inl e) end.
Proof using Type.
unfold Within. pose proof (run_from_view t ∅ db) as Hv. destruct (run_from t ∅ db) as [p [e|a]]; rewrite overlay_empty in Hv; by rewrite Hv.
Qed.

Lemma view_run_bind {A B} (t : tx A) (k : A → tx B) (v : gmap K V) : view_run (t ≫= k) v = (view_run t ≫= λ a, view_run (k a)) v.
Proof using Type.
revert v. induction t as [[e|a]|reads st next IH]; intros v; [done..|]. cbn. unfold mbind, M_bind. cbn.
destruct (st _) as [e|ch]; [done|]. apply IH.
Qed.

Lemma view_run_map_err {A} f (t : tx A) (v : gmap K V) : view_run (tx_map_err f t) v = map_err f (view_run t) v.
Proof using Type.
revert v. induction t as [[e|a]|reads st next IH]; intros v; [done..|]. cbn. unfold map_err. cbn.
destruct (st _) as [e|ch]; [done|]. apply IH.
Qed.

(** Reading a transaction off as the computation the service writes. *)
Lemma view_run_bind_as {A B} (t : tx A) (k : A → tx B) (m : M (gmap K V) A) (h : A → M (gmap K V) B) : (∀ v, view_run t v = m v) → (∀ a (v : gmap K V), view_run (k a) v = h a v) →
  ∀ v, view_run (t ≫= k) v = (m ≫= h) v.
Proof using Type. intros Ht Hk v. rewrite view_run_bind. unfold mbind, M_bind. rewrite Ht. destruct (m v) as [v' [e|a]]; [done|apply Hk]. Qed.
Lemma view_run_map_err_as {A} f (t : tx A) (m : M (gmap K V) A) : (∀ v : gmap K V, view_run t v = m v) → ∀ v, view_run (tx_map_err f t) v = map_err f m v.
Proof using Type. intros Ht v. rewrite view_run_map_err. unfold map_err. by rewrite Ht. Qed.

Lemma view_run_each {A} (body : A → tx ()) l (v : gmap K V) : view_run (tx_each body l) v = for_each (λ x, view_run (body x)) l v.
Proof using Type.
revert v. induction l as [|x l IH]; intros v; [done|]. cbn [tx_each for_each]. rewrite view_run_bind. unfold mbind, M_bind.
destruct (view_run (body x) v) as [v' [e|a]]; [done|]. apply IH.
Qed.

Lemma view_run_select {A} reads (k : gmap K V → tx A) (v : gmap K V) : view_run (select reads k) v = view_run (k (visible reads v)) v.
Proof using Type. change (view_run (select reads k) v) with (view_run (k (visible reads v)) (overlay ∅ v)). by rewrite overlay_empty. Qed.

Lemma view_run_delete_rows {A} matches (next : tx A) (v : gmap K V) : view_run (delete_rows matches next) v = view_run next (filter (λ x, matches x.1 x.2 = false) v).
Proof using Type.
change (view_run next (overlay ((λ _, None) <$> visible matches v) v) = view_run next (filter (λ x, matches x.1 x.2 = false) v)). f_equal. apply map_eq. intros k.
rewrite lookup_overlay, lookup_fmap, lookup_visible. unfold seen. destruct (v !! k) as [x|] eqn:Hk; cbn.
- destruct (matches k x) eqn:Hm; cbn; symmetry.
  + apply map_lookup_filter_None. right. intros y Hy. rewrite Hk in Hy. injection Hy as <-. cbn. by rewrite Hm.
  + by apply map_lookup_filter_Some.
- symmetry. apply map_lookup_filter_None. by left.
Qed.

Lemma view_run_modify_row {A} k f (next : option V → tx A) (v : gmap K V) :
  view_run (modify_row k f next) v =
  match f (v !! k) with
  | inl e => (v, inl e)
  | inr None => view_run (next (v !! k)) v
  | inr (Some new) => view_run (next (v !! k)) (overlay {[k := new]} v)
  end.
Proof using Type.
unfold modify_row. cbn. rewrite lookup_visible. unfold seen.
assert (match v !! k with Some x => if bool_decide (k = k) then Some x else None | None => None end = v !! k) as ->.
{ destruct (v !! k); [|done]. by rewrite bool_decide_true. }
destruct (f (v !! k)) as [e|[new|]]; [done..|]. by rewrite overlay_empty.
Qed.

Lemma view_run_stmt {A} reads st (next : gmap K V → tx A) (v : gmap K V) : view_run (Stmt reads st next) v =
  match st (visible reads v) with inl e => (v, inl e) | inr ch => view_run (next (visible reads v)) (overlay ch v) end.
Proof using Type. done. Qed.
Lemma overlay_insert k x (ch : gmap K (option V)) (db : gmap K V) : overlay (<[k := Some x]> ch) db = <[k := x]> (overlay ch db).
Proof using Type.
apply map_eq. intros i. rewrite lookup_overlay. destruct (decide (i = k)) as [->|Hne]; [by rewrite !lookup_insert_eq|].
by rewrite !lookup_insert_ne, lookup_overlay.
Qed.
(** What an insertion that succeeds found and did. *)
Lemma insert_rows_run rows refs (v v' : gmap K V) r : view_run (insert_rows rows refs) v = (v', inr r) →
  (∀ row, row ∈ rows → v !! row.1 = None) ∧ (∀ k, k ∈ refs → is_Some (v !! k)) ∧ v' = foldr (λ row v, <[row.1 := row.2]> v) v rows.
Proof using Type.
unfold insert_rows. rewrite view_run_stmt. set (reads := λ k _, _).
assert (∀ k, k ∈ rows.*1 ++ refs → visible reads v !! k = v !! k) as Hsee.
{ intros k Hk. rewrite lookup_visible. unfold seen. destruct (v !! k); [|done]. unfold reads. by rewrite bool_decide_true. }
destruct (existsb _ _) eqn:Hex; [done|]. destruct (forallb _ _) eqn:Hall; [|done]. intros [= <- _].
split; [|split].
- intros row Hrow. assert (row.1 ∈ rows.*1 ++ refs) as Hin by (apply elem_of_app; left; by apply list_elem_of_fmap_2).
  rewrite <- (Hsee _ Hin). apply eq_None_not_Some. intros Hs. apply not_true_iff_false in Hex. apply Hex, existsb_exists.
  exists row. split; [by apply list_elem_of_In|by apply bool_decide_eq_true].
- intros k Hk. rewrite forallb_forall in Hall. rewrite <- (Hsee k) by (apply elem_of_app; by right).
  eapply bool_decide_eq_true_1, Hall. by apply list_elem_of_In.
- clear. induction rows as [|[k x] rows IH]; [apply overlay_empty|]. cbn. by rewrite overlay_insert, IH.
Qed.
End View.
#[global] Arguments view_run : simpl never.
