(* ===== verification/PgAnalytics.v ===== *)
(** * The analytics read model in PostgreSQL (postgres/analytics_repository.go)

    The contributions and rollups tables, the statements of the repository as
    transactions, and the projection's handler (service/analytics_projection.go) over
    them.  Workers of several replicas apply messages of different expenses at the same
    time, statement by statement; the upserts hold the buckets they touch, so every
    bucket a reader sees is the exact sum over the contributions beside it. *)

From S2P Require Export Prelude GoTime GoStrings Domain Periods Json Outbox AnalyticsProjection PgTx.
#[global] Open Scope Z_scope.

(** ** Tables *)

Inductive analyticsRow := RowContribution (expenseID : string) | RowRollup (bucket : rollupKey).
#[export] Instance analyticsRow_eq_dec : EqDecision analyticsRow.
Proof. solve_decision. Defined.
#[export] Instance analyticsRow_countable : Countable analyticsRow.
Proof.
refine (inj_countable' (λ r, match r with RowContribution id => inl id | RowRollup k => inr k end)
  (λ s, match s with inl id => RowContribution id | inr k => RowRollup k end) _).
by intros [].
Defined.

Inductive analyticsValue := ValContribution (c : ExpenseContribution) | ValRollup (amount count : Z).
#[export] Instance ExpenseContribution_eq_dec : EqDecision ExpenseContribution.
Proof. solve_decision. Defined.
#[export] Instance analyticsValue_eq_dec : EqDecision analyticsValue.
Proof. solve_decision. Defined.

Abbreviation analyticsDB := (gmap analyticsRow analyticsValue).
Abbreviation analyticsTx := (@tx analyticsRow analyticsValue analyticsRow_eq_dec analyticsRow_countable).

(** What the columns keep of a contribution. *)
Definition pg_contribution (c : ExpenseContribution) : ExpenseContribution :=
  c <| ec_Currency ::= pg_char3 |> <| ec_OccurredAt ::= pg_time |>.

Definition pg_key (d : RollupDelta) : rollupKey :=
  mkRollupKey (rd_OwnerID d) (pg_date (rd_PeriodStart d)) (rd_Period d) (delta_dimension d).1 (pg_char3 (rd_Currency d))
    (delta_dimension d).2.

Section Repository.
(** The casts to uuid, foreign keys and check constraints of the tables. *)
Context (violates : analyticsRow → analyticsValue → option error).

Definition upsert_row (k : analyticsRow) (v : analyticsValue) : error + option (option analyticsValue) :=
  match violates k v with Some e => inl e | None => inr (Some (Some v)) end.

Definition pg_LoadContribution (expenseID : string) : analyticsTx (ExpenseContribution * bool) :=
  modify_row (RowContribution expenseID) (λ _, inr None) (λ row,
    match row with
    | Some (ValContribution c) => mret (c <| ec_ExpenseID := expenseID |>, true)
    | _ => mret (zero_contribution, false)
    end).

Definition pg_SaveContribution (contribution : ExpenseContribution) : analyticsTx () :=
  tx_map_err (λ e, Errorf "save analytics contribution: " e "")
    (modify_row (RowContribution (ec_ExpenseID contribution))
       (λ _, if (0 <=? ec_AmountMinor contribution) && pg_bigint (ec_AmountMinor contribution)
             then upsert_row (RowContribution (ec_ExpenseID contribution)) (ValContribution (pg_contribution contribution))
             else inl out_of_range)
       (λ _, mret ())).

Definition pg_AddRollupDelta (delta : RollupDelta) : analyticsTx () :=
  tx_map_err (λ e, Errorf "apply rollup delta: " e "")
    (modify_row (RowRollup (pg_key delta))
       (λ row, let '(amount, count) := match row with Some (ValRollup a n) => (a, n) | _ => (0, 0) end in
               let amount := amount + rd_AmountMinor delta in
               let count := count + rd_ExpenseCount delta in
               if pg_bigint amount && pg_bigint count then upsert_row (RowRollup (pg_key delta)) (ValRollup amount count)
               else inl out_of_range)
       (λ _, mret ())).

(** ** The projection's handler *)

Definition pg_adjust (c : ExpenseContribution) (direction : Z) : analyticsTx () :=
  tx_each pg_AddRollupDelta (rollup_deltas c direction).

Definition pg_Handle_analytics (message : Message) : analyticsTx () :=
  match DecodeExpenseContribution (EventType message) (Payload message) with
  | inl err => tx_throw err
  | inr (_, false) => mret ()
  | inr (next, true) =>
      '(previous, found) ← pg_LoadContribution (ec_ExpenseID next);
      _ ← (if found && ec_Active previous
           then tx_map_err (λ e, Errorf ("reverse contribution " +:+ ec_ExpenseID next +:+ ": ") e "") (pg_adjust previous (-1))
           else mret ());
      if negb (ec_Active next) then
        if negb found then mret () else pg_SaveContribution (previous <| ec_Active := false |>)
      else
        match validateContribution next with
        | Some err => tx_throw err
        | None =>
            _ ← tx_map_err (λ e, Errorf ("apply contribution " +:+ ec_ExpenseID next +:+ ": ") e "") (pg_adjust next 1);
            pg_SaveContribution next
        end
  end.

(** ** The query *)

Definition rollup_row_matches (filter : AnalyticsFilter) (k : rollupKey) : bool :=
  let byTag := match af_TagIDs filter with [] => false | _ => true end in
  Bool.eqb (rk_tag k) byTag && (rk_ownerID k =s af_OwnerID filter) && (rk_period k =s af_Period filter) &&
  (pg_date (af_From filter) <=? rk_periodStart k) && (rk_periodStart k <=? pg_date (af_To filter)) &&
  ((af_CategoryID filter =s "") || byTag || (rk_dimensionID k =s af_CategoryID filter)) &&
  (negb byTag || str_in (rk_dimensionID k) (af_TagIDs filter)).

Definition rollup_of_row (filter : AnalyticsFilter) (k : rollupKey) (amount count : Z) : ExpenseRollup :=
  mkExpenseRollup (af_OwnerID filter) (rk_periodStart k * day_ns) (af_Period filter) (if rk_tag k then "" else rk_dimensionID k)
    (if rk_tag k then rk_dimensionID k else "") (rk_currency k) amount count.

(** Rows that start on the same day come in any order. *)
Definition pg_ListExpenseRollups `{GoRuntime} (filter : AnalyticsFilter) : analyticsTx (list ExpenseRollup) :=
  select (λ k _, match k with RowRollup k => rollup_row_matches filter k | _ => false end) (λ rows,
    mret (sort_slice (λ x y, ru_PeriodStart x <? ru_PeriodStart y)
      (omap (λ x, match x with (RowRollup k, ValRollup amount count) => Some (rollup_of_row filter k amount count) | _ => None end)
         (map_range rows)))).
End Repository.

(** ** The handler is the service's, over this repository *)

Section Serial.
Context (violates : analyticsRow → analyticsValue → option error).

#[local] Instance pg_AnalyticsWriter : AnalyticsWriter analyticsDB := {|
  LoadContribution id := view_run (pg_LoadContribution id);
  SaveContribution c := view_run (pg_SaveContribution violates c);
  AddRollupDelta d := view_run (pg_AddRollupDelta violates d)
|}.

Lemma pg_adjust_run c direction v : view_run (pg_adjust violates c direction) v = adjust c direction v.
Proof using Type. apply view_run_each. Qed.

Lemma pg_handler_is_handler message v : view_run (pg_Handle_analytics violates message) v = Handle_analytics message v.
Proof using Type.
unfold pg_Handle_analytics, Handle_analytics. destruct (DecodeExpenseContribution _ _) as [e|[next [|]]]; [done| |done].
apply view_run_bind_as; [done|]. intros [previous found] v1. apply view_run_bind_as.
- intros v2. destruct (found && ec_Active previous); [|done]. apply view_run_map_err_as. apply pg_adjust_run.
- intros _ v2. destruct (negb (ec_Active next)); [by destruct (negb found)|]. destruct (validateContribution next); [done|].
  apply view_run_bind_as; [|done]. apply view_run_map_err_as, pg_adjust_run.
Qed.

(** ** Sums *)

Definition bucket_of (v : analyticsDB) (k : rollupKey) : Z * Z :=
  match v !! RowRollup k with Some (ValRollup a n) => (a, n) | _ => (0, 0) end.
Definition pair_add (x y : Z * Z) : Z * Z := (x.1 + y.1, x.2 + y.2).

(** What deltas add to a bucket, and what the contributions of a ledger come to. *)
Definition pg_added (k : rollupKey) (ds : list RollupDelta) : Z * Z :=
  foldr (λ d acc, pair_add (if decide (pg_key d = k) then (rd_AmountMinor d, rd_ExpenseCount d) else (0, 0)) acc) (0, 0) ds.
Definition pg_share (k : rollupKey) (c : ExpenseContribution) : Z * Z :=
  if ec_Active c then pg_added k (rollup_deltas c 1) else (0, 0).
Definition pg_total (k : rollupKey) (l : ledger) : Z * Z := map_fold (λ _ c acc, pair_add (pg_share k c) acc) (0, 0) l.

Lemma pair_add_assoc x y z : pair_add x (pair_add y z) = pair_add (pair_add x y) z.
Proof using Type. unfold pair_add. cbn. f_equal; lia. Qed.
Lemma pair_add_0_l x : pair_add (0, 0) x = x.
Proof using Type. by destruct x. Qed.
Lemma pair_add_0_r x : pair_add x (0, 0) = x.
Proof using Type. destruct x. unfold pair_add. cbn. f_equal; lia. Qed.

Lemma pg_total_insert k id c l : l !! id = None → pg_total k (<[id := c]> l) = pair_add (pg_share k c) (pg_total k l).
Proof using Type.
intros Hid. unfold pg_total. apply (map_fold_insert_L (λ (_ : string) c acc, pair_add (pg_share k c) acc) (0, 0) id c l); [|done].
intros. rewrite !pair_add_assoc. f_equal. unfold pair_add. f_equal; lia.
Qed.

(** Replacing a contribution swaps its share. *)
Lemma pg_total_replace k id c l :
  pair_add (pg_total k (<[id := c]> l)) (from_option (pg_share k) (0, 0) (l !! id)) = pair_add (pg_share k c) (pg_total k l).
Proof using Type.
rewrite <- insert_delete_eq, pg_total_insert by apply lookup_delete_eq.
assert (pg_total k l = pair_add (from_option (pg_share k) (0, 0) (l !! id)) (pg_total k (delete id l))) as Hl.
{ destruct (l !! id) as [p|] eqn:Hp; cbn.
  - rewrite <- (insert_delete_id l id p Hp) at 1. by rewrite pg_total_insert by apply lookup_delete_eq.
  - rewrite delete_id by done. by rewrite pair_add_0_l. }
rewrite Hl. unfold pair_add. cbn. f_equal; lia.
Qed.

Lemma add_delta_run d v v' : view_run (pg_AddRollupDelta violates d) v = (v', inr ()) →
  (∀ k, bucket_of v' k = pair_add (pg_added k [d]) (bucket_of v k)) ∧ ∀ id, v' !! RowContribution id = v !! RowContribution id.
Proof using Type.
unfold pg_AddRollupDelta. rewrite view_run_map_err. unfold map_err. rewrite view_run_modify_row. unfold upsert_row.
destruct (match v !! RowRollup (pg_key d) with Some (ValRollup a n) => (a, n) | _ => (0, 0) end) as [a n] eqn:Hold.
destruct (pg_bigint _ && pg_bigint _); [|done]. destruct (violates _ _); [done|]. rewrite overlay_singleton.
intros [= <-]. split.
- intros k. unfold bucket_of at 1. cbn. unfold pg_added. cbn. rewrite pair_add_0_r. destruct (decide (pg_key d = k)) as [<-|Hne].
  + rewrite lookup_insert_eq. unfold bucket_of. rewrite Hold. unfold pair_add. cbn. f_equal; lia.
  + rewrite lookup_insert_ne by congruence. by rewrite pair_add_0_l.
- intros id. by rewrite lookup_insert_ne.
Qed.

Lemma adjust_run c direction v v' : adjust c direction v = (v', inr ()) →
  (∀ k, bucket_of v' k = pair_add (pg_added k (rollup_deltas c direction)) (bucket_of v k)) ∧
  ∀ id, v' !! RowContribution id = v !! RowContribution id.
Proof using Type.
unfold adjust. generalize (rollup_deltas c direction). intros ds. revert v. induction ds as [|d ds IH]; intros v; cbn [for_each].
- intros [= <-]. split; [|done]. intros k. by rewrite pair_add_0_l.
- unfold mbind, M_bind. cbn [AddRollupDelta pg_AnalyticsWriter]. destruct (view_run _ v) as [v1 [e|[]]] eqn:Hd; [done|].
  destruct (add_delta_run d v v1 Hd) as [H1 H2]. intros Hds. destruct (IH v1 Hds) as [H3 H4]. split.
  + intros k. rewrite H3, H1. unfold pg_added. cbn. rewrite pair_add_0_r. generalize (if decide (pg_key d = k) then (rd_AmountMinor d, rd_ExpenseCount d) else (0, 0)).
    intros x. unfold pair_add. cbn. f_equal; lia.
  + intros id. by rewrite H4, H2.
Qed.

(** ** What the columns keep is enough *)

Lemma pg_time_day t : pg_time t / day_ns = t / day_ns.
Proof using Type. unfold pg_time. change day_ns with 86400000000000. lia_div. Qed.

Lemma pg_time_period period t : RollupPeriodStart period (pg_time t) = RollupPeriodStart period t.
Proof using Type. unfold RollupPeriodStart, Year, Month, Day. by rewrite pg_time_day. Qed.

Lemma pg_char3_idem s : pg_char3 (pg_char3 s) = pg_char3 s.
Proof using Type. destruct s as [|a [|b [|c s]]]; done. Qed.

Lemma pg_time_idem t : pg_time (pg_time t) = pg_time t.
Proof using Type. unfold pg_time. lia_div. Qed.

Lemma rollup_deltas_columns c direction :
  rollup_deltas (pg_contribution c) direction = map (λ d, d <| rd_Currency ::= pg_char3 |>) (rollup_deltas c direction).
Proof using Type.
unfold rollup_deltas. induction RollupPeriods as [|period l IH]; [done|]. cbn [flat_map]. rewrite IH, map_app. f_equal. cbn [map].
change (ec_OccurredAt (pg_contribution c)) with (pg_time (ec_OccurredAt c)). rewrite pg_time_period. f_equal.
rewrite map_map. by apply map_ext.
Qed.

Lemma pg_added_columns k c direction : pg_added k (rollup_deltas (pg_contribution c) direction) = pg_added k (rollup_deltas c direction).
Proof using Type.
rewrite rollup_deltas_columns. induction (rollup_deltas c direction) as [|d ds IH]; [done|]. unfold pg_added in *. cbn. rewrite IH.
f_equal. assert (pg_key (d <| rd_Currency ::= pg_char3 |>) = pg_key d) as Hk.
{ unfold pg_key. cbn. by rewrite pg_char3_idem. }
cbn in Hk. by rewrite Hk.
Qed.

(** Reversing takes off exactly what applying put on. *)
Lemma pg_added_reverse k c : 0 ≤ ec_AmountMinor c ≤ max_int64 →
  pair_add (pg_added k (rollup_deltas c (-1))) (pg_added k (rollup_deltas c 1)) = (0, 0).
Proof using Type.
intros Ha. assert (rollup_deltas c (-1) = map (λ d, d <| rd_AmountMinor ::= Z.opp |> <| rd_ExpenseCount ::= Z.opp |>) (rollup_deltas c 1)) as ->.
{ unfold rollup_deltas. induction RollupPeriods as [|period l IH]; [done|]. cbn [flat_map]. rewrite IH, map_app. f_equal. cbn [map].
  assert (wrap64 (ec_AmountMinor c * -1) = - wrap64 (ec_AmountMinor c * 1)) as Hw.
  { unfold max_int64 in Ha. rewrite !wrap64_id; [lia|unfold is_int64, min_int64, max_int64; lia..]. }
  f_equal; [unfold set_field; cbn; by rewrite Hw|]. rewrite map_map. apply map_ext. intros tag. cbn. by rewrite Hw. }
induction (rollup_deltas c 1) as [|d ds IH]; [done|]. unfold pg_added in *. cbn.
assert (pg_key (d <| rd_AmountMinor ::= Z.opp |> <| rd_ExpenseCount ::= Z.opp |>) = pg_key d) as Hk by done. cbn in Hk. rewrite Hk.
destruct (decide (pg_key d = k)); unfold pair_add in *; cbn in *; injection IH as H1 H2; f_equal; lia.
Qed.

(** ** One message *)

Record PgProjected (l : ledger) (v : analyticsDB) : Prop := {
  pp_rows id : v !! RowContribution id = ValContribution <$> (pg_contribution <$> l !! id);
  pp_keyed id c : l !! id = Some c → ec_ExpenseID c = id;
  pp_amounts id c : l !! id = Some c → 0 ≤ ec_AmountMinor c ≤ max_int64;
  pp_buckets k : bucket_of v k = pg_total k l
}.

Lemma save_run c v v' : view_run (pg_SaveContribution violates c) v = (v', inr ()) →
  v' = <[RowContribution (ec_ExpenseID c) := ValContribution (pg_contribution c)]> v ∧ 0 ≤ ec_AmountMinor c ≤ max_int64.
Proof using Type.
unfold pg_SaveContribution. rewrite view_run_map_err. unfold map_err. rewrite view_run_modify_row. unfold upsert_row.
destruct (_ && _) eqn:Ha; [|done]. destruct (violates _ _); [done|]. rewrite overlay_singleton. intros [= <-]. split; [done|].
unfold pg_bigint in Ha. lia.
Qed.

Definition loaded (v : analyticsDB) (id : string) : ExpenseContribution * bool :=
  match v !! RowContribution id with Some (ValContribution c) => (c <| ec_ExpenseID := id |>, true) | _ => (zero_contribution, false) end.
Lemma loaded_ledger l v id : PgProjected l v →
  loaded v id = match l !! id with Some c => (pg_contribution c, true) | None => (zero_contribution, false) end.
Proof using Type.
intros Hp. unfold loaded. rewrite (pp_rows _ _ Hp). destruct (l !! id) as [c|] eqn:Hc; [|done]. cbn.
rewrite <- (pp_keyed _ _ Hp id c Hc). by destruct c.
Qed.

Lemma load_run id v : view_run (pg_LoadContribution id) v =
  (v, inr (loaded v id)).
Proof using Type. unfold pg_LoadContribution. rewrite view_run_modify_row. unfold loaded. by destruct (v !! RowContribution id) as [[c|a n]|]. Qed.

(** After the reversal the buckets no longer count the expense. *)
Lemma reversal_run l v id v' :
  let previous := loaded v id in
  PgProjected l v → (if previous.2 && ec_Active previous.1 then adjust previous.1 (-1) else mret ()) v = (v', inr ()) →
  (∀ k, pair_add (from_option (pg_share k) (0, 0) (l !! id)) (bucket_of v' k) = bucket_of v k) ∧
  ∀ i, v' !! RowContribution i = v !! RowContribution i.
Proof using Type.
cbn zeta. intros Hp. rewrite (loaded_ledger l) by done. destruct (l !! id) as [c|] eqn:Hc; cbn.
2: { intros [= <-]. split; [|done]. intros k. by rewrite pair_add_0_l. }
unfold pg_share. destruct (ec_Active c) eqn:Hact; cbn.
2: { intros [= <-]. split; [|done]. intros k. by rewrite pair_add_0_l. }
intros Hadj. destruct (adjust_run _ _ _ _ Hadj) as [Hb Hr]. split; [|done]. intros k. rewrite Hb, pg_added_columns, pair_add_assoc.
pose proof (pg_added_reverse k c (pp_amounts _ _ Hp id c Hc)) as Hrev.
destruct (pg_added k (rollup_deltas c (-1))), (pg_added k (rollup_deltas c 1)), (bucket_of v k). unfold pair_add in *. cbn in *.
injection Hrev as H1 H2. f_equal; lia.
Qed.

(** Writing a contribution beside buckets that count it in place of the old one. *)
Lemma PgProjected_save l v v1 v' id c c' : PgProjected l v →
  (∀ k, pair_add (from_option (pg_share k) (0, 0) (l !! id)) (bucket_of v1 k) = bucket_of v k) →
  (∀ i, v1 !! RowContribution i = v !! RowContribution i) →
  ec_ExpenseID c = id → 0 ≤ ec_AmountMinor c' ≤ max_int64 → pg_contribution c = pg_contribution c' →
  (∀ k, bucket_of v' k = pair_add (pg_share k c') (bucket_of v1 k)) →
  v' !! RowContribution id = Some (ValContribution (pg_contribution c)) →
  (∀ i, i ≠ id → v' !! RowContribution i = v1 !! RowContribution i) → PgProjected (<[id := c']> l) v'.
Proof using Type.
intros [Hrows Hkeyed Hamounts Hbuckets] Hb Hr Hcid Ha Hcols Hb' Hv Hv'.
assert (ec_ExpenseID c' = id) as Hc' by (rewrite <- Hcid; by apply (f_equal ec_ExpenseID) in Hcols). split.
- intros i. destruct (decide (i = id)) as [->|Hne]; [by rewrite lookup_insert_eq, Hv, Hcols|]. by rewrite lookup_insert_ne, Hv', Hr, Hrows.
- intros i x [[<- <-]|[_ Hi]]%lookup_insert_Some; [done|by apply Hkeyed].
- intros i x [[<- <-]|[_ Hi]]%lookup_insert_Some; [done|by eapply Hamounts].
- intros k. pose proof (pg_total_replace k id c' l) as Ht. specialize (Hb k). rewrite Hbuckets in Hb. rewrite Hb'.
  destruct (pg_total k (<[id:=c']> l)), (from_option (pg_share k) (0, 0) (l !! id)), (pg_share k c'), (pg_total k l), (bucket_of v1 k).
  unfold pair_add in *. cbn in *. injection Ht as Ht1 Ht2. injection Hb as Hb1 Hb2. f_equal; lia.
Qed.

Lemma pg_deliver l v m v' : PgProjected l v → Handle_analytics m v = (v', inr ()) → PgProjected (ledger_step l m) v'.
Proof using Type.
intros Hp. unfold Handle_analytics, ledger_step. destruct (DecodeExpenseContribution _ _) as [e|[next [|]]]; [done| |by intros [= <-]].
set (id := ec_ExpenseID next). unfold mbind, M_bind. cbn [LoadContribution pg_AnalyticsWriter]. rewrite load_run.
pose proof (λ v', reversal_run l v id v' Hp) as Hrev. cbn zeta in Hrev. fold id.
rewrite (loaded_ledger l) in Hrev |- * by done.
destruct (match l !! id with Some c => (pg_contribution c, true) | None => (zero_contribution, false) end) as [previous found] eqn:Hprev.
cbn [fst snd] in Hrev.
destruct ((if found && ec_Active previous then map_err _ _ else mret ()) v) as [v1 [e|[]]] eqn:H1; [done|].
destruct (Hrev v1) as [Hb Hr].
{ destruct (found && ec_Active previous); [|done]. unfold map_err in H1. by destruct (adjust previous (-1) v) as [? [?|[]]]. }
clear H1 Hrev. pose proof (λ v' c c', PgProjected_save l v v1 v' id c c' Hp Hb Hr) as Hdone.
destruct Hp as [Hrows Hkeyed Hamounts Hbuckets].
destruct (ec_Active next) eqn:Hact; cbn [negb].
- destruct (validateContribution next); [done|]. destruct (map_err _ (adjust next 1) v1) as [v2 [e|[]]] eqn:Hadj; [done|].
  assert (adjust next 1 v1 = (v2, inr ())) as Ha.
  { unfold map_err in Hadj. destruct (adjust next 1 v1) as [? [?|[]]]; [done|exact Hadj]. }
  destruct (adjust_run _ _ _ _ Ha) as [Hb2 Hr2]. cbn [SaveContribution pg_AnalyticsWriter]. intros [-> Hamt]%save_run.
  apply (Hdone _ next next); try done.
  + intros k. unfold pg_share. rewrite Hact, <- Hb2. unfold bucket_of. by rewrite lookup_insert_ne.
  + apply lookup_insert_eq.
  + intros i Hi. rewrite lookup_insert_ne by (fold id; congruence). by rewrite Hr2.
- destruct (l !! id) as [p|] eqn:Hl; injection Hprev as <- <-; cbn [negb].
  + cbn [SaveContribution pg_AnalyticsWriter]. intros [Hv' Hamt]%save_run.
    assert (alter (λ p, p <| ec_Active := false |>) id l = <[id := p <| ec_Active := false |>]> l) as ->.
    { apply map_eq. intros i. destruct (decide (i = id)) as [->|Hne]; [by rewrite lookup_alter_eq, lookup_insert_eq, Hl|by rewrite lookup_alter_ne, lookup_insert_ne]. }
    assert (v' = <[RowContribution id := ValContribution (pg_contribution (pg_contribution p <| ec_Active := false |>))]> v1) as ->.
    { rewrite Hv'. do 2 f_equal. cbn. by apply Hkeyed. }
    apply (Hdone _ (pg_contribution p <| ec_Active := false |>)); try done.
    * cbn. by apply Hkeyed.
    * unfold pg_contribution, set_field; cbn; unfold set_field; cbn. by rewrite pg_char3_idem, pg_time_idem.
    * intros k. unfold pg_share. cbn. rewrite pair_add_0_l. unfold bucket_of. by rewrite lookup_insert_ne.
    * apply lookup_insert_eq.
    * intros i Hi. by rewrite lookup_insert_ne by congruence.
  + intros [= <-]. assert (alter (λ p, p <| ec_Active := false |>) id l = l) as ->.
    { apply map_eq. intros i. destruct (decide (i = id)) as [->|Hne]; [by rewrite lookup_alter_eq, Hl|by rewrite lookup_alter_ne]. }
    split; [intros i; by rewrite Hr|done|done|]. intros k. rewrite <- Hbuckets, <- Hb. cbn. by rewrite pair_add_0_l.
Qed.

Lemma PgProjected_empty : PgProjected ∅ ∅.
Proof using Type. split; try done. Qed.

Lemma pg_commits log : ∀ l v v', PgProjected l v → commit_all (pg_Handle_analytics violates) log v = Some v' →
  PgProjected (foldl ledger_step l log) v'.
Proof using Type.
induction log as [|m log IH]; intros l v v' Hp; cbn; [by intros [= <-]|]. rewrite Within_view, pg_handler_is_handler.
destruct (Handle_analytics m v) as [v1 [e|[]]] eqn:Hm; [done|]. apply IH. by eapply pg_deliver.
Qed.

(** ** Several workers *)

Definition names_its_expense (message : Message) : bool :=
  match DecodeExpenseContribution (EventType message) (Payload message) with
  | inr (next, true) => ec_ExpenseID next =s AggregateID message
  | _ => true
  end.

Definition expense_row (k : analyticsRow) : option string := match k with RowContribution id => Some id | RowRollup _ => None end.

Lemma pg_adjust_private o c direction : tx_private expense_row o (pg_adjust violates c direction).
Proof using Type.
apply tx_private_each. intros d. apply tx_private_map_err, tx_private_modify_row; [done|]. right. split; [done|]. intros row.
destruct (match row with Some (ValRollup a n) => (a, n) | _ => (0, 0) end). unfold upsert_row.
destruct (pg_bigint _ && pg_bigint _); [|done]. by destruct (violates _ _).
Qed.

Lemma pg_save_private o c : ec_ExpenseID c = o → tx_private expense_row o (pg_SaveContribution violates c).
Proof using Type. intros <-. apply tx_private_map_err, tx_private_modify_row; [done|]. by left. Qed.

(** A handler touches the contribution of its own expense and holds the buckets it adds to. *)
Lemma pg_handler_private m : names_its_expense m = true → tx_private expense_row (AggregateID m) (pg_Handle_analytics violates m).
Proof using Type.
unfold names_its_expense, pg_Handle_analytics. destruct (DecodeExpenseContribution _ _) as [e|[next [|]]]; [done| |done].
intros <-%String.eqb_eq.
assert (∀ f : ExpenseContribution * bool → analyticsTx (), (∀ c found, ec_ExpenseID c = ec_ExpenseID next ∨ found = false → tx_private expense_row (ec_ExpenseID next) (f (c, found))) →
  tx_private expense_row (ec_ExpenseID next) (pg_LoadContribution (ec_ExpenseID next) ≫= f)) as Hload.
{ intros f Hf v ch. cbn. intros [= <-]. split; [|split].
  - left. split; [done|]. by intros i x <-%bool_decide_eq_true.
  - intros i [x Hx]. by rewrite lookup_empty in Hx.
  - destruct (v !! RowContribution (ec_ExpenseID next)) as [[c|a n]|]; apply Hf; auto. }
apply Hload. intros previous found Hid. apply tx_private_bind.
- destruct (found && ec_Active previous); [|done]. apply tx_private_map_err, pg_adjust_private.
- intros _. destruct (negb (ec_Active next)).
  + destruct found; [|done]. destruct Hid as [Hid|]; [|done]. by apply pg_save_private.
  + destruct (validateContribution next); [done|]. apply tx_private_bind; [|intros _; by apply pg_save_private].
    apply tx_private_map_err, pg_adjust_private.
Qed.

(** [C5] Workers of any number of replicas apply expense events at the same time, statement by
    statement, failing, aborting and retrying, with one message of an expense at a time:
    at every moment the committed contributions are the ledger of the committed messages,
    and every bucket is the exact sum over them, without wrapping. *)
Theorem pg_rollups_exact (steps : list tx_step) :
  Forall (λ st, match st with TxBegin _ m => names_its_expense m = true | _ => True end) steps →
  exclusive (pg_Handle_analytics violates) AggregateID steps (tx_start ∅) = true →
  let s := tx_run (pg_Handle_analytics violates) steps (tx_start ∅) in
  let l := foldl ledger_step ∅ (tx_log s) in
  (∀ id, tx_db s !! RowContribution id = ValContribution <$> (pg_contribution <$> l !! id)) ∧
  ∀ k, bucket_of (tx_db s) k = pg_total k l.
Proof using Type.
intros Hnames Hexcl s l. assert (PgProjected l (tx_db s)) as [Hrows _ _ Hb]; [|done].
apply (pg_commits (tx_log s) ∅ ∅ _ PgProjected_empty). apply exclusive_runs_serial with (owner := AggregateID) (owner_of := expense_row); [|done].
apply (Forall_impl _ _ _ Hnames). intros [n m| | |]; [|done..]. apply pg_handler_private.
Qed.
End Serial.

(** A query answers with exactly the buckets its filter selects. *)
Lemma pg_rollups_listed `{GoRuntime} filter v r : (∃ rows, view_run (pg_ListExpenseRollups filter) v = (v, inr rows) ∧ r ∈ rows) ↔
  ∃ k amount count, v !! RowRollup k = Some (ValRollup amount count) ∧ rollup_row_matches filter k = true ∧ r = rollup_of_row filter k amount count.
Proof.
unfold pg_ListExpenseRollups, select, view_run. rewrite overlay_empty. split.
- intros (rows & Heq & Hr). injection Heq as <-. rewrite sort_slice_perm, list_elem_of_omap in Hr. destruct Hr as ([k x] & Hk & Hx).
  rewrite map_range_perm in Hk. apply elem_of_map_to_list, map_lookup_filter_Some in Hk as [Hk Hm]. cbn in Hm.
  destruct k as [id|k], x as [c|a n]; try done. injection Hx as <-. by exists k, a, n.
- intros (k & a & n & Hk & Hm & ->). eexists. split; [done|]. rewrite sort_slice_perm, list_elem_of_omap.
  exists (RowRollup k, ValRollup a n). split; [|done]. rewrite map_range_perm. apply elem_of_map_to_list, map_lookup_filter_Some. done.
Qed.

(** ** Example: two workers, two expenses of the same category and day *)

Module AnalyticsSample.
Definition recorded (id : string) (amount : Z) : Message :=
  zero_Message <| EventID := id |> <| AggregateType := "expense" |> <| AggregateID := id |> <| EventType := "expense_added" |>
    <| Payload := enc_payload (ExpenseAdded (sample_expense <| ex_ID := id |> <| ex_AmountMinor := amount |>)) |>.
Definition free : analyticsRow → analyticsValue → option error := λ _ _, None.
Definition both : list tx_step :=
  [TxBegin 0 (recorded "e1" 1250); TxBegin 1 (recorded "e2" 900)] ++ concat (replicate 20 [TxNext 0; TxNext 1]) ++
  [TxEnd 0] ++ replicate 20 (TxNext 1) ++ [TxEnd 1; TxBegin 0 (recorded "e1" 300)] ++ replicate 40 (TxNext 0) ++ [TxEnd 0].
Definition after : txState := tx_run (pg_Handle_analytics free) both (tx_start ∅).
Definition day_bucket : rollupKey :=
  pg_key (hd (mkRollupDelta "" "" "" "" "" 0 0 0) (rollup_deltas (contribution_of sample_expense) 1)).
Example both_counted : (bucket_of (tx_db after) day_bucket, map AggregateID (tx_log after)) = ((1200, 2), ["e1"; "e2"; "e1"]).
Proof. vm_compute. reflexivity. Qed.
End AnalyticsSample.

Lemma pg_rollups_exact_witness :
  bucket_of (tx_db AnalyticsSample.after) AnalyticsSample.day_bucket =
  pg_total AnalyticsSample.day_bucket (foldl ledger_step ∅ (tx_log AnalyticsSample.after)).
Proof.
apply (pg_rollups_exact AnalyticsSample.free AnalyticsSample.both).
- unfold AnalyticsSample.both. rewrite Forall_forall. intros st Hst. 
  assert (forallb (λ st, match st with TxBegin _ m => names_its_expense m | _ => true end) AnalyticsSample.both = true) as Hall
    by (vm_compute; reflexivity).
  rewrite forallb_forall in Hall. specialize (Hall st (proj1 (list_elem_of_In _ _) Hst)). by destruct st.
- vm_compute. reflexivity.
Defined.
