(* ===== verification/PgIdentity.v ===== *)
(** * Accounts in PostgreSQL (postgres/identity_repository.go)

    Users, invitations, refresh tokens and password resets, each with its unique index,
    and the methods of the repository as transactions.  However requests of several
    replicas interleave, a refresh token is exchanged at most once.  Revoking the tokens
    of an account is weaker: it passes over a token that a rotation under way has
    inserted, so a session can outlive a password reset. *)

From Stdlib Require Import Ascii.
From S2P Require Export Prelude GoTime GoStrings Domain Memory IdentityStore PgTx.
#[global] Open Scope Z_scope.

(** ** Columns *)

Definition hex_value (c : ascii) : option N :=
  let n := N_of_ascii c in
  if ((48 <=? n) && (n <=? 57))%N then Some (n - 48)%N
  else if ((97 <=? n) && (n <=? 102))%N then Some (n - 87)%N
  else if ((65 <=? n) && (n <=? 70))%N then Some (n - 55)%N
  else None.
Fixpoint hex_DecodeString (s : string) : option string :=
  match s with
  | EmptyString => Some ""
  | String a (String b s) =>
      match hex_value a, hex_value b, hex_DecodeString s with
      | Some x, Some y, Some bytes => Some (String (ascii_of_N (16 * x + y)) bytes)
      | _, _, _ => None
      end
  | _ => None
  end.
Definition hex_digit (n : N) : ascii := ascii_of_N (if (n <? 10)%N then 48 + n else 87 + n).
Fixpoint hex_EncodeToString (bytes : string) : string :=
  match bytes with
  | EmptyString => ""
  | String c bytes => String (hex_digit (N_of_ascii c / 16)) (String (hex_digit (N_of_ascii c mod 16)) (hex_EncodeToString bytes))
  end.

(** The panic of [hashBytes], which the server turns into an error. *)
Definition hashBytes (value : string) : error + string :=
  match hex_DecodeString value with
  | Some bytes => inr bytes
  | None => inl (ErrorsNew "invalid token hash")
  end.

Lemma hex_roundtrip bytes : hex_DecodeString (hex_EncodeToString bytes) = Some bytes.
Proof.
induction bytes as [|c bytes IH]; [done|]. cbn [hex_EncodeToString hex_DecodeString].
assert (hex_value (hex_digit (N_of_ascii c / 16)) = Some (N_of_ascii c / 16)%N ∧ hex_value (hex_digit (N_of_ascii c mod 16)) = Some (N_of_ascii c mod 16)%N ∧
  ascii_of_N (16 * (N_of_ascii c / 16) + N_of_ascii c mod 16) = c) as (-> & -> & Hc).
{ destruct c as [[] [] [] [] [] [] [] []]; vm_compute; done. }
by rewrite IH, Hc.
Qed.

(** ** Tables *)

Inductive identityRow :=
  | RowUser (id : string) | RowEmail (email : string) | RowInvitation (id : string) | RowInvitationHash (hash : string)
  | RowToken (id : string) | RowTokenHash (hash : string) | RowReset (id : string) | RowResetHash (hash : string).
#[export] Instance identityRow_eq_dec : EqDecision identityRow.
Proof. solve_decision. Defined.
#[export] Instance identityRow_countable : Countable identityRow.
Proof.
refine (inj_countable' (λ r, match r with
  | RowUser id => (0%nat, id) | RowEmail e => (1%nat, e) | RowInvitation id => (2%nat, id) | RowInvitationHash h => (3%nat, h)
  | RowToken id => (4%nat, id) | RowTokenHash h => (5%nat, h) | RowReset id => (6%nat, id) | RowResetHash h => (7%nat, h) end)
  (λ '(n, s), match n with
  | 0 => RowUser s | 1 => RowEmail s | 2 => RowInvitation s | 3 => RowInvitationHash s | 4 => RowToken s | 5 => RowTokenHash s
  | 6 => RowReset s | _ => RowResetHash s end%nat) _).
by intros [].
Defined.

(** The hash columns hold the bytes; [ValIndex] is an entry of a unique index. *)
Inductive identityValue :=
  | ValUser (u : AppUser) (deleted_at : option Time)
  | ValInvitation (i : Invitation) | ValToken (t : RefreshToken) | ValReset (r : PasswordReset) | ValIndex (id : string).
#[export] Instance AppUser_eq_dec : EqDecision AppUser.
Proof. solve_decision. Defined.
#[export] Instance Invitation_eq_dec : EqDecision Invitation.
Proof. solve_decision. Defined.
#[export] Instance RefreshToken_eq_dec : EqDecision RefreshToken.
Proof. solve_decision. Defined.
#[export] Instance PasswordReset_eq_dec : EqDecision PasswordReset.
Proof. solve_decision. Defined.
#[export] Instance identityValue_eq_dec : EqDecision identityValue.
Proof. solve_decision. Defined.

Abbreviation identityDB := (gmap identityRow identityValue).
Abbreviation identityTx := (@tx identityRow identityValue identityRow_eq_dec identityRow_countable).

Definition hashed {A} (value : string) (k : string → identityTx A) : identityTx A :=
  match hashBytes value with inl e => tx_throw e | inr bytes => k bytes end.
(** ** Users *)

Definition stored_user (user : AppUser) : AppUser :=
  user <| u_CreatedAt ::= pg_time |> <| u_UpdatedAt ::= pg_time |>.
(** The columns an insert leaves out take their defaults. *)
Definition inserted_user (user : AppUser) : AppUser :=
  stored_user user <| u_ProfileImageObjectKey := "" |> <| u_EmailNotificationsEnabled := true |>
    <| u_NotificationPreferences := ∅ |> <| u_AIEnabled := true |>.

Definition insert_user (user : AppUser) : identityTx () :=
  insert_rows [(RowUser (u_ID user), ValUser user None); (RowEmail (u_Email user), ValIndex (u_ID user))] [].

Definition live_user (test : AppUser → bool) (k : identityRow) (x : identityValue) : bool :=
  match k, x with RowUser _, ValUser u None => test u | _, _ => false end.
Definition get_user (test : AppUser → bool) : identityTx AppUser :=
  select_one (live_user test) (λ x, match x with ValUser u _ => mret u | _ => tx_throw pgx_ErrNoRows end).

Definition pg_CountSuperAdmins : identityTx Z :=
  select (live_user active_super_admin) (λ v, mret (Z.of_nat (size v))).
Definition pg_GetUserByID (id : string) : identityTx AppUser := get_user (λ u, u_ID u =s id).
Definition pg_GetUserByEmail (email : string) : identityTx AppUser := get_user (λ u, u_Email u =s email).
Definition pg_ListUsers `{GoRuntime} : identityTx (list AppUser) :=
  select (live_user (λ _, true)) (λ v, mret (sort_slice (λ x y, u_CreatedAt x <? u_CreatedAt y)
    (omap (λ x, match x.2 with ValUser u _ => Some u | _ => None end) (map_range v)))).

Definition pg_CreateUser (user : AppUser) : identityTx () := insert_user (inserted_user user).

Definition pg_UpdateUser (user : AppUser) : identityTx () :=
  Stmt (λ k x, live_user (λ u, u_ID u =s u_ID user) k x || bool_decide (k = RowEmail (u_Email user)))
    (λ v, match v !! RowUser (u_ID user) with
          | Some (ValUser old _) =>
              let new := Some (ValUser (stored_user user <| u_CreatedAt := u_CreatedAt old |>) None) in
              if u_Email old =s u_Email user then inr {[RowUser (u_ID user) := new]}
              else if bool_decide (is_Some (v !! RowEmail (u_Email user))) then inl unique_violation
              else inr (list_to_map [(RowUser (u_ID user), new); (RowEmail (u_Email old), None);
                                     (RowEmail (u_Email user), Some (ValIndex (u_ID user)))])
          | _ => inr ∅
          end)
    (λ v, match v !! RowUser (u_ID user) with Some _ => mret () | None => tx_throw pgx_ErrNoRows end).

Definition pg_DeleteUser (now : Time) (userID : string) : identityTx () :=
  update_rows (live_user (λ u, u_ID u =s userID))
    (λ x, match x with ValUser u _ => ValUser (u <| u_UpdatedAt := now |>) (Some now) | _ => x end) one_row.

(** ** Invitations *)

Definition pg_GetInvitationByTokenHash (tokenHash : string) : identityTx Invitation :=
  hashed tokenHash (λ bytes,
    select_one (λ _ x, match x with ValInvitation i => inv_TokenHash i =s bytes | _ => false end) (λ x,
      match x with
      | ValInvitation i => mret (i <| inv_TokenHash := hex_EncodeToString bytes |>)
      | _ => tx_throw pgx_ErrNoRows
      end)).

Definition pg_CreateInvitation (i : Invitation) : identityTx () :=
  hashed (inv_TokenHash i) (λ bytes,
    insert_rows [(RowInvitation (inv_ID i), ValInvitation (i <| inv_TokenHash := bytes |> <| inv_ExpiresAt ::= pg_time |>
                    <| inv_CreatedAt ::= pg_time |> <| inv_AcceptedBy := "" |> <| inv_AcceptedAt := None |>));
                 (RowInvitationHash bytes, ValIndex (inv_ID i))] [RowUser (inv_InvitedBy i)]).

Definition pg_AcceptInvitation (now : Time) (invitationID : string) (user : AppUser) : identityTx () :=
  _ ← insert_user (inserted_user user <| u_AccessBlocked := false |>);
  update_rows (λ k x, bool_decide (k = RowInvitation invitationID) &&
      match x with ValInvitation i => (inv_Status i =s InvitationPending) && (now <? inv_ExpiresAt i) | _ => false end)
    (λ x, match x with
          | ValInvitation i => ValInvitation (i <| inv_Status := InvitationAccepted |> <| inv_AcceptedBy := u_ID user |> <| inv_AcceptedAt := Some now |>)
          | _ => x
          end) one_row.

(** ** Refresh tokens *)

Definition pg_GetRefreshTokenByHash (tokenHash : string) : identityTx RefreshToken :=
  hashed tokenHash (λ bytes,
    select_one (λ _ x, match x with ValToken t => rt_TokenHash t =s bytes | _ => false end) (λ x,
      match x with
      | ValToken t => mret (t <| rt_TokenHash := hex_EncodeToString bytes |>)
      | _ => tx_throw pgx_ErrNoRows
      end)).

Definition insert_token (t : RefreshToken) (familyID : string) : identityTx () :=
  hashed (rt_TokenHash t) (λ bytes,
    insert_rows [(RowToken (rt_ID t), ValToken (t <| rt_TokenHash := bytes |> <| rt_FamilyID := familyID |> <| rt_ExpiresAt ::= pg_time |>
                    <| rt_CreatedAt ::= pg_time |> <| rt_RevokedAt := None |> <| rt_ReplacedBy := "" |>));
                 (RowTokenHash bytes, ValIndex (rt_ID t))] [RowUser (rt_UserID t)]).
Definition pg_CreateRefreshToken (t : RefreshToken) : identityTx () := insert_token t (rt_FamilyID t).

Definition live_token (test : RefreshToken → bool) (k : identityRow) (x : identityValue) : bool :=
  match k, x with RowToken _, ValToken t => live (rt_RevokedAt t) && test t | _, _ => false end.
Definition set_token (f : RefreshToken → RefreshToken) (x : identityValue) : identityValue :=
  match x with ValToken t => ValToken (f t) | _ => x end.

Definition pg_RotateRefreshToken (now : Time) (oldTokenID : string) (replacement : RefreshToken) : identityTx () :=
  update_rows (λ k x, bool_decide (k = RowToken oldTokenID) && live_token (λ _, true) k x)
    (set_token (λ t, t <| rt_RevokedAt := Some now |> <| rt_ReplacedBy := rt_ID replacement |>)) (λ rows,
    match rows with
    | (_, ValToken t) :: _ => insert_token replacement (rt_FamilyID t)
    | _ => tx_throw pgx_ErrNoRows
    end).

Definition pg_RevokeRefreshToken (now : Time) (tokenID : string) : identityTx () :=
  update_rows (λ k x, bool_decide (k = RowToken tokenID) && live_token (λ _, true) k x)
    (set_token (λ t, t <| rt_RevokedAt := Some now |>)) (λ _, mret ()).
Definition pg_RevokeAllRefreshTokens (now : Time) (userID : string) : identityTx () :=
  update_rows (live_token (λ t, rt_UserID t =s userID)) (set_token (λ t, t <| rt_RevokedAt := Some now |>)) (λ _, mret ()).

(** ** Password resets *)

Definition pg_GetPasswordResetByTokenHash (tokenHash : string) : identityTx PasswordReset :=
  hashed tokenHash (λ bytes,
    select_one (λ _ x, match x with ValReset r => pr_TokenHash r =s bytes | _ => false end) (λ x,
      match x with ValReset r => mret (r <| pr_TokenHash := tokenHash |>) | _ => tx_throw pgx_ErrNoRows end)).

Definition pg_CreatePasswordReset (r : PasswordReset) : identityTx () :=
  hashed (pr_TokenHash r) (λ bytes,
    insert_rows [(RowReset (pr_ID r), ValReset (r <| pr_TokenHash := bytes |> <| pr_ExpiresAt ::= pg_time |> <| pr_CreatedAt ::= pg_time |>
                    <| pr_UsedAt := None |>)); (RowResetHash bytes, ValIndex (pr_ID r))] [RowUser (pr_UserID r)]).

Definition open_reset (test : PasswordReset → bool) (k : identityRow) (x : identityValue) : bool :=
  match k, x with RowReset _, ValReset r => live (pr_UsedAt r) && test r | _, _ => false end.
Definition use_resets (now : Time) (test : PasswordReset → bool) : identityTx () :=
  update_rows (open_reset test) (λ x, match x with ValReset r => ValReset (r <| pr_UsedAt := Some now |>) | _ => x end) (λ _, mret ()).
Definition pg_MarkPasswordResetUsed (now : Time) (resetID : string) : identityTx () := use_resets now (λ r, pr_ID r =s resetID).
Definition pg_InvalidatePendingPasswordResets (now : Time) (userID : string) : identityTx () := use_resets now (λ r, pr_UserID r =s userID).

(** ** What the service asks the repository to change *)

Inductive identityTask :=
  | CreatesUser (user : AppUser) | UpdatesUser (user : AppUser) | DeletesUser (now : Time) (userID : string)
  | CreatesInvitation (i : Invitation) | AcceptsInvitation (now : Time) (invitationID : string) (user : AppUser)
  | CreatesToken (t : RefreshToken) | RotatesToken (now : Time) (oldTokenID : string) (replacement : RefreshToken)
  | RevokesToken (now : Time) (tokenID : string) | RevokesTokens (now : Time) (userID : string)
  | CreatesReset (r : PasswordReset) | MarksReset (now : Time) (resetID : string) | InvalidatesResets (now : Time) (userID : string).
Definition identity_program (task : identityTask) : identityTx () :=
  match task with
  | CreatesUser user => pg_CreateUser user
  | UpdatesUser user => pg_UpdateUser user
  | DeletesUser now userID => pg_DeleteUser now userID
  | CreatesInvitation i => pg_CreateInvitation i
  | AcceptsInvitation now invitationID user => pg_AcceptInvitation now invitationID user
  | CreatesToken t => pg_CreateRefreshToken t
  | RotatesToken now oldTokenID replacement => pg_RotateRefreshToken now oldTokenID replacement
  | RevokesToken now tokenID => pg_RevokeRefreshToken now tokenID
  | RevokesTokens now userID => pg_RevokeAllRefreshTokens now userID
  | CreatesReset r => pg_CreatePasswordReset r
  | MarksReset now resetID => pg_MarkPasswordResetUsed now resetID
  | InvalidatesResets now userID => pg_InvalidatePendingPasswordResets now userID
  end.

(** ** A refresh token is exchanged once *)

Definition ended (t : RefreshToken) : bool := negb (live (rt_RevokedAt t)).

(** Statements that never bring an ended token back: a token row is changed only from
    what the statement sees, or inserted where it sees that there is none. *)
Fixpoint careful {A} (t : identityTx A) : Prop :=
  match t with
  | Ret _ => True
  | Stmt reads st next =>
      (∀ v ch id, (∀ k x, v !! k = Some x → reads k x = true) → st v = inr ch → is_Some (ch !! RowToken id) →
        (∃ t t', v !! RowToken id = Some (ValToken t) ∧ ch !! RowToken id = Some (Some (ValToken t')) ∧ (ended t = true → ended t' = true)) ∨
        (v !! RowToken id = None ∧ (∀ x, reads (RowToken id) x = true) ∧ ∀ v' ch', st v' = inr ch' → is_Some (ch' !! RowToken id))) ∧
      ∀ v, careful (next v)
  end.

Lemma careful_bind {A B} (t : identityTx A) (k : A → identityTx B) : careful t → (∀ a, careful (k a)) → careful (t ≫= k).
Proof. intros Ht Hk. induction t as [[e|a]|reads st next IH]; [done|apply Hk|]. destruct Ht as [H1 H2]. split; [done|]. intros v. by apply IH. Qed.

Lemma careful_insert rows refs : careful (insert_rows rows refs).
Proof.
split; [|done]. intros v ch i _. destruct (existsb _ rows) eqn:Hex; [done|]. destruct (forallb _ refs); [|done]. intros [= <-] Hid. right.
assert (∀ o, is_Some ((list_to_map (prod_map id Some <$> rows) : gmap identityRow (option identityValue)) !! o) → o ∈ rows.*1) as Hdom.
{ intros o [x Hx%elem_of_list_to_map_2]. apply list_elem_of_fmap in Hx as ([k y] & [= -> ->] & Hk). by apply (list_elem_of_fmap_2' fst _ (k, y)). }
pose proof (Hdom _ Hid) as Hrow. split; [|split].
- apply eq_None_not_Some. intros Hv. apply not_true_iff_false in Hex. apply Hex, existsb_exists.
  apply list_elem_of_fmap in Hrow as (row & Hk & Hrow). exists row. split; [by apply list_elem_of_In|]. apply bool_decide_eq_true. by rewrite <- Hk.
- intros x. apply bool_decide_eq_true, elem_of_app. by left.
- intros v' ch'. cbn beta. case_match; [done|]. case_match; [|done]. intros [= <-]. exact Hid.
Qed.

Lemma careful_update {A} matches set_ (next : _ → identityTx A) : (∀ rows, careful (next rows)) →
  (∀ id x, matches (RowToken id) x = true → ∃ t t', x = ValToken t ∧ set_ x = ValToken t' ∧ (ended t = true → ended t' = true)) →
  careful (update_rows matches set_ next).
Proof.
intros Hn Hm. split; [|intros v; apply Hn]. intros v ch id Hv [= <-]. rewrite lookup_fmap. destruct (v !! RowToken id) as [x|] eqn:Hx; [|by intros []].
intros _. left. destruct (Hm id x (Hv _ _ Hx)) as (t & t' & -> & Hs & He). exists t, t'. split; [done|]. split; [|done]. cbn. by rewrite Hs.
Qed.

Lemma careful_hashed {A} value (k : string → identityTx A) : (∀ b, careful (k b)) → careful (hashed value k).
Proof. intros Hk. unfold hashed. destruct (hashBytes value); [done|apply Hk]. Qed.
Lemma careful_one rows : careful (one_row rows).
Proof. unfold one_row. by destruct (_ =? _)%nat. Qed.

Lemma live_token_ended test id x f : live_token test (RowToken id) x = true →
  ∃ t t', x = ValToken t ∧ set_token f x = ValToken t' ∧ (ended t = true → ended t' = true).
Proof.
destruct x as [| |t| |]; try done. cbn. intros [Hl _]%andb_true_iff. exists t, (f t). split; [done|]. split; [done|]. unfold ended. by rewrite Hl.
Qed.

Lemma careful_token t familyID : careful (insert_token t familyID).
Proof. apply careful_hashed. intros b. apply careful_insert. Qed.

Lemma identity_careful task : careful (identity_program task).
Proof.
destruct task as [user|user|now userID|i|now id user|t|now old t|now id|now userID|r|now id|now userID]; unfold identity_program.
- apply careful_insert.
- split; [|intros v; by destruct (v !! _)]. intros v ch id _.
  destruct (v !! RowUser (u_ID user)) as [[u d| | | |]|]; try (by intros [= <-] [? []%lookup_empty_Some]).
  destruct (u_Email u =s u_Email user).
  + intros [= <-] [y [Hk _]%lookup_singleton_Some]. discriminate.
  + destruct (bool_decide _); [done|]. intros [= <-] [y Hy]. rewrite !lookup_insert_ne in Hy by done. by rewrite lookup_empty in Hy.
- apply careful_update; [apply careful_one|done].
- apply careful_hashed. intros b. apply careful_insert.
- apply careful_bind; [apply careful_insert|]. intros _. apply careful_update; [apply careful_one|].
  intros k x [Hk%bool_decide_eq_true _]%andb_true_iff. discriminate.
- apply careful_token.
- apply careful_update; [intros [|[k [| |x| |]] rows]; try done; apply careful_token|]. intros k x [_ Hk]%andb_true_iff. by eapply live_token_ended.
- apply careful_update; [done|]. intros k x [_ Hk]%andb_true_iff. by eapply live_token_ended.
- apply careful_update; [done|]. intros k x Hk. by eapply live_token_ended.
- apply careful_hashed. intros b. apply careful_insert.
- by apply careful_update.
- by apply careful_update.
Qed.

Definition token_at (db : identityDB) (id : string) (e : bool) : Prop := ∃ t, db !! RowToken id = Some (ValToken t) ∧ ended t = e.
Definition rotated (log : list identityTask) : list string :=
  omap (λ task, match task with RotatesToken _ old _ => Some old | _ => None end) log.

Abbreviation identitySession := (@session identityRow identityValue identityRow_eq_dec identityRow_countable identityTask).
Abbreviation identityState := (@txState identityRow identityValue identityRow_eq_dec identityRow_countable identityTask).

(** No change under way brings an ended token back. *)
Definition keeps_ended (db : identityDB) (p : gmap identityRow (option identityValue)) : Prop :=
  ∀ id, token_at db id true → is_Some (p !! RowToken id) → ∃ t, p !! RowToken id = Some (Some (ValToken t)) ∧ ended t = true.

(** A rotation has not begun, holds the old token, which was live, as ended, or has
    failed. *)
Definition rotating (db : identityDB) (se : identitySession) : Prop :=
  match se_task se with
  | RotatesToken _ old _ =>
      se_rest se = identity_program (se_task se) ∧ se_pend se = ∅ ∨
      token_at db old false ∧ (∃ t, se_pend se !! RowToken old = Some (Some (ValToken t)) ∧ ended t = true) ∨
      ∃ e, se_rest se = Ret (inl e)
  | _ => True
  end.

Record RotInv (s : identityState) : Prop := {
  ro_apart : locked_apart (tx_sessions s);
  ro_careful n se : tx_sessions s !! n = Some se → careful (se_rest se);
  ro_found n se keys : tx_sessions s !! n = Some se → se_found se = Some keys →
    match se_rest se with Stmt _ st _ => ∃ v ch, st v = inr ch ∧ keys = map fst (map_to_list ch) | Ret _ => True end;
  ro_pend n se : tx_sessions s !! n = Some se → keeps_ended (tx_db s) (se_pend se);
  ro_rotating n se : tx_sessions s !! n = Some se → rotating (tx_db s) se;
  ro_log : NoDup (rotated (tx_log s));
  ro_ended old : old ∈ rotated (tx_log s) → token_at (tx_db s) old true
}.

Lemma RotInv_delete n s : RotInv s → RotInv (mkTxState (tx_db s) (delete n (tx_sessions s)) (tx_log s)).
Proof.
intros [H1 H2 H3 H4 H5 H6 H7]. split; cbn; try done.
- by apply apart_delete.
- intros m se [_ Hm]%lookup_delete_Some. by eapply H2.
- intros m se keys [_ Hm]%lookup_delete_Some. by eapply H3.
- intros m se [_ Hm]%lookup_delete_Some. by eapply H4.
- intros m se [_ Hm]%lookup_delete_Some. by eapply H5.
Qed.

Lemma RotInv_insert n se s : RotInv s → locked_apart (<[n := se]> (tx_sessions s)) → careful (se_rest se) →
  (∀ keys, se_found se = Some keys →
     match se_rest se with Stmt _ st _ => ∃ v ch, st v = inr ch ∧ keys = map fst (map_to_list ch) | Ret _ => True end) →
  keeps_ended (tx_db s) (se_pend se) → rotating (tx_db s) se → RotInv (mkTxState (tx_db s) (<[n := se]> (tx_sessions s)) (tx_log s)).
Proof.
intros [H1 H2 H3 H4 H5 H6 H7] Ha Hc Hf Hp Hr. split; cbn; try done.
- intros m s' [[<- <-]|[_ Hm]]%lookup_insert_Some; [done|by eapply H2].
- intros m s' keys [[<- <-]|[_ Hm]]%lookup_insert_Some; [apply Hf|by eapply H3].
- intros m s' [[<- <-]|[_ Hm]]%lookup_insert_Some; [done|by eapply H4].
- intros m s' [[<- <-]|[_ Hm]]%lookup_insert_Some; [done|by eapply H5].
Qed.

(** What a careful statement does to a token, seen through its own changes. *)
Lemma careful_step {A} reads st (next : identityDB → identityTx A) found (p : gmap identityRow (option identityValue)) db ch id :
  careful (Stmt reads st next) → (∀ keys, found = Some keys → ∃ v ch, st v = inr ch ∧ keys = map fst (map_to_list ch)) →
  st (visible (among found reads) (overlay p db)) = inr ch → is_Some (ch !! RowToken id) →
  (∃ t t', overlay p db !! RowToken id = Some (ValToken t) ∧ ch !! RowToken id = Some (Some (ValToken t')) ∧ (ended t = true → ended t' = true)) ∨
  overlay p db !! RowToken id = None.
Proof.
intros [Hc _] Hf Hst Hid. set (v := visible _ _) in *.
assert (∀ k x, v !! k = Some x → overlay p db !! k = Some x ∧ reads k x = true) as Hv.
{ intros k x. unfold v. rewrite lookup_visible. unfold seen. destruct (overlay p db !! k) as [y|]; [|done].
  destruct (among found reads k y) eqn:Hr; [|done]. intros [= ->]. split; [done|]. unfold among in Hr. destruct found; [by apply andb_true_iff in Hr as [? _]|done]. }
destruct (Hc v ch id (λ k x Hk, proj2 (Hv k x Hk)) Hst Hid) as [(t & t' & Ht & Ht' & He)|(Hn & Hr & Hall)].
- left. exists t, t'. split; [by apply Hv|done].
- right. apply eq_None_not_Some. intros [x Hx]. assert (v !! RowToken id = Some x) as Hvx; [|by rewrite Hn in Hvx].
  unfold v. rewrite lookup_visible. unfold seen. rewrite Hx. unfold among. destruct found as [keys|]; [|by rewrite Hr].
  destruct (Hf keys eq_refl) as (v' & ch' & Hst' & ->). destruct (Hall v' ch' Hst') as [c Hcc]. rewrite Hr, bool_decide_true; [done|].
  apply (list_elem_of_fmap_2' fst _ (RowToken id, c)); [by apply elem_of_map_to_list|done].
Qed.

Lemma keeps_ended_step {A} reads st (next : identityDB → identityTx A) found (p : gmap identityRow (option identityValue)) db ch :
  careful (Stmt reads st next) → (∀ keys, found = Some keys → ∃ v ch, st v = inr ch ∧ keys = map fst (map_to_list ch)) →
  st (visible (among found reads) (overlay p db)) = inr ch → keeps_ended db p → keeps_ended db (ch ∪ p).
Proof.
intros Hc Hf Hst Hp id (t0 & Ht0 & He0) Hid. destruct (ch !! RowToken id) as [c|] eqn:Hcid.
2: { rewrite lookup_union_r in Hid |- * by done. apply (Hp id); [by exists t0|done]. }
rewrite (lookup_union_Some_l _ _ _ _ Hcid). assert (∃ t, overlay p db !! RowToken id = Some (ValToken t) ∧ ended t = true) as (t & Ht & He).
{ rewrite lookup_overlay. destruct (p !! RowToken id) as [o|] eqn:Hpid; [|by exists t0].
  destruct (Hp id) as (t & Ht & He); [by exists t0|by eexists|]. rewrite Hpid in Ht. injection Ht as ->. by exists t. }
destruct (careful_step reads st next found p db ch id Hc Hf Hst (ex_intro _ c Hcid)) as [(t1 & t' & Ht1 & Ht' & Hee)|Hn].
- rewrite Ht in Ht1. injection Ht1 as <-. rewrite Hcid in Ht'. injection Ht' as ->. exists t'. split; [done|by apply Hee].
- by rewrite Hn in Ht.
Qed.

(** The first statement of a rotation takes the old token if it is live. *)
Lemma rotation_takes now old rep found db ch :
  let reads := λ k x, bool_decide (k = RowToken old) && live_token (λ _, true) k x in
  let v := visible (among found reads) (overlay ∅ db) in
  (inr (Some ∘ set_token (λ t, t <| rt_RevokedAt := Some now |> <| rt_ReplacedBy := rt_ID rep |>) <$> v) : error + _) = inr ch →
  token_at db old false ∧ (∃ t, (ch ∪ ∅) !! RowToken old = Some (Some (ValToken t)) ∧ ended t = true) ∨ v = ∅.
Proof.
intros reads v [= <-]. assert (∀ k x, v !! k = Some x → db !! k = Some x ∧ reads k x = true) as Hv.
{ intros k x. unfold v. rewrite overlay_empty, lookup_visible. unfold seen. destruct (db !! k) as [y|]; [|done].
  destruct (among found reads k y) eqn:Hr; [|done]. intros [= ->]. split; [done|]. unfold among in Hr. destruct found; [by apply andb_true_iff in Hr as [? _]|done]. }
destruct (v !! RowToken old) as [x|] eqn:Hx.
- left. destruct (Hv _ _ Hx) as [Hdb [_ Hl]%andb_true_iff]. destruct x as [| |t| |]; try done. cbn in Hl. split.
  + exists t. split; [done|]. unfold ended. by destruct (live (rt_RevokedAt t)).
  + exists (t <| rt_RevokedAt := Some now |> <| rt_ReplacedBy := rt_ID rep |>). split; [|done]. apply lookup_union_Some_l.
    by rewrite lookup_fmap, Hx.
- right. apply map_empty. intros k. apply eq_None_not_Some. intros [x Hk]. destruct (Hv _ _ Hk) as [_ [->%bool_decide_eq_true _]%andb_true_iff].
  by rewrite Hx in Hk.
Qed.

Lemma RotInv_next n s : RotInv s → RotInv (tx_exec identity_program (TxNext n) s).
Proof.
intros Hs. pose proof Hs as [H1 H2 H3 H4 H5 H6 H7]. pose proof (apart_exec identity_program (TxNext n) s H1) as Hap. cbn in *.
destruct (tx_sessions s !! n) as [[l [r|reads st next] p R found]|] eqn:Hn; [done| |done].
pose proof (H2 n _ Hn) as Hc. pose proof (λ keys, H3 n _ keys Hn) as Hf. pose proof (H4 n _ Hn) as Hp. pose proof (H5 n _ Hn) as Hr. cbn [se_rest se_pend se_found] in *.
set (v := visible _ _) in *. destruct (st v) as [e|ch] eqn:Hst; [by apply RotInv_delete|].
destruct (waits n ch (tx_sessions s)); apply RotInv_insert; try done.
- cbn. intros keys. destruct found as [keys'|]; cbn; intros [= <-]; [by apply Hf|]. by exists v, ch.
- by apply Hc.
- by apply (keeps_ended_step reads st next found).
- unfold rotating in *. cbn [se_task se_rest se_pend] in *. destruct l as [| | | | | |now old rep| | | | |]; try done.
  destruct Hr as [[Hprog ->]|[[Hdb (t & Ht & He)]|[e He]]]; [| |done].
  + injection Hprog as -> -> ->. destruct (rotation_takes now old rep found (tx_db s) ch Hst) as [Hd|Hv]; [right; by left|].
    right. right. change (v = ∅) in Hv. rewrite Hv. rewrite map_to_list_empty. by eexists.
  + right. left. split; [done|]. destruct (ch !! RowToken old) as [c|] eqn:Hco; [|exists t; by rewrite lookup_union_r].
    destruct (careful_step reads st next found p (tx_db s) ch old Hc Hf Hst (ex_intro _ c Hco)) as [(t1 & t' & Ht1 & Ht' & Hee)|Hnone];
      rewrite lookup_overlay, Ht in *; [|done]. injection Ht1 as <-. exists t'. split; [|by apply Hee]. by apply lookup_union_Some_l.
Qed.

Lemma RotInv_end n s : RotInv s → RotInv (tx_exec identity_program (TxEnd n) s).
Proof.
intros Hs. pose proof Hs as [H1 H2 H3 H4 H5 H6 H7]. cbn.
destruct (tx_sessions s !! n) as [[l [[e|[]]|reads st next] p R found]|] eqn:Hn; [by apply RotInv_delete| |done..].
pose proof (H4 n _ Hn) as Hp. pose proof (H5 n _ Hn) as Hr. cbn [se_pend] in Hp.
assert (∀ id, token_at (tx_db s) id true → token_at (overlay p (tx_db s)) id true) as Hmono.
{ intros id Hid. destruct (p !! RowToken id) as [o|] eqn:Hpid.
  - destruct (Hp id Hid (ex_intro _ o Hpid)) as (t & Ht & He). exists t. by rewrite lookup_overlay, Ht.
  - destruct Hid as (t & Ht & He). exists t. by rewrite lookup_overlay, Hpid. }
assert (∀ m se id, tx_sessions s !! m = Some se → m ≠ n → is_Some (se_pend se !! RowToken id) →
  overlay p (tx_db s) !! RowToken id = tx_db s !! RowToken id) as Hsame.
{ intros m se id Hm Hne Hid. rewrite lookup_overlay. destruct (p !! RowToken id) eqn:Hpid; [|done]. destruct Hne.
  by apply (H1 m n se _ (RowToken id) Hm Hn). }
split; cbn [tx_db tx_sessions tx_log].
- by apply apart_delete.
- intros m se [_ Hm]%lookup_delete_Some. by eapply H2.
- intros m se keys [_ Hm]%lookup_delete_Some. by eapply H3.
- intros m se [Hne Hm]%lookup_delete_Some. intros id Hid Hse. apply (H4 m se Hm id); [|done].
  unfold token_at in *. by rewrite (Hsame m se id Hm (not_eq_sym Hne) Hse) in Hid.
- intros m se [Hne Hm]%lookup_delete_Some. pose proof (H5 m se Hm) as Hrm. unfold rotating in *. destruct (se_task se); try done.
  destruct Hrm as [Hrm|[[Hdb (t & Ht & He)]|Hrm]]; [by left| |by right; right]. right. left. split; [|by exists t].
  unfold token_at in *. by rewrite (Hsame m se _ Hm (not_eq_sym Hne) (ex_intro _ _ Ht)).
- unfold rotated. rewrite omap_app. destruct l as [| | | | | |now old rep| | | | |]; cbn; rewrite ?app_nil_r; try done.
  apply NoDup_app. split; [done|]. split; [|apply NoDup_singleton]. intros old' Hold ->%list_elem_of_singleton.
  destruct Hr as [[Hprog _]|[[(t & Ht & He) _]|[e He]]]; [discriminate| |discriminate].
  destruct (H7 old Hold) as (t' & Ht' & He'). rewrite Ht in Ht'. injection Ht' as <-. by rewrite He in He'.
- intros old. unfold rotated. rewrite omap_app, elem_of_app. intros [Hold|Hold]; [by apply Hmono, H7|].
  destruct l as [| | | | | |now old' rep| | | | |]; cbn in Hold; try (by apply not_elem_of_nil in Hold).
  apply list_elem_of_singleton in Hold as ->. destruct Hr as [[Hprog _]|[[_ (t & Ht & He)]|[e He]]]; [discriminate| |discriminate].
  exists t. cbn in Ht. by rewrite lookup_overlay, Ht.
Qed.

Lemma RotInv_exec st s : RotInv s → RotInv (tx_exec identity_program st s).
Proof.
intros Hs. destruct st as [n l|n|n|n]; [|by apply RotInv_next|by apply RotInv_end|by apply RotInv_delete].
pose proof (apart_exec identity_program (TxBegin n l) s (ro_apart _ Hs)) as Hap. cbn in *. destruct (tx_sessions s !! n); [done|].
apply RotInv_insert; try done; cbn [se_rest se_pend].
- apply identity_careful.
- intros id _ [x Hx]. by rewrite lookup_empty in Hx.
- unfold rotating. cbn [se_task se_rest se_pend]. destruct l; try done. by left.
Qed.

Lemma RotInv_start db : RotInv (tx_start db).
Proof. split; try done; [by apply NoDup_nil|]. by intros old ?%not_elem_of_nil. Qed.

(** [C25] However the requests of several replicas interleave, statement by statement, each
    refresh token is exchanged for at most one session, and one that was is ended. *)
Theorem pg_rotation_once (db : identityDB) (steps : list tx_step) :
  let s := tx_run identity_program steps (tx_start db) in
  NoDup (rotated (tx_log s)) ∧ ∀ old, old ∈ rotated (tx_log s) → token_at (tx_db s) old true.
Proof.
intros s. assert (RotInv s) as [_ _ _ _ _ H6 H7]; [|done]. unfold s. generalize (RotInv_start db). generalize (tx_start db : identityState).
induction steps as [|st steps IH]; intros s0 Hs0; [done|]. apply IH. by apply RotInv_exec.
Qed.

(** ** Examples *)

Module IdentitySample.
Definition alice : AppUser := mkAppUser "u1" "alice@example.org" "hash" "Alice" "" RoleMember false true ∅ true 0 0.
Definition token (id hash : string) : RefreshToken := mkRefreshToken id "u1" hash "f1" 1000 0 None "".
Definition reset : PasswordReset := mkPasswordReset "r1" "u1" "aa" 1000 0 None.
Definition invited : Invitation := mkInvitation "i1" "alice@example.org" RoleMember "bb" InvitationPending "u1" 1000 0 "" None.
Definition serially (tasks : list identityTask) : identityDB * list (option error) :=
  foldl (λ '(db, results) task, let '(db, r) := Within (identity_program task) db in
    (db, results ++ [match r with inl e => Some e | inr _ => None end])) (∅, []) tasks.
Definition joined : identityDB := (serially [CreatesUser alice; CreatesToken (token "t1" "01"); CreatesReset reset]).1.
Definition token_states (db : identityDB) : list (string * bool) :=
  omap (λ x, match x with (RowToken id, ValToken t) => Some (id, ended t) | _ => None end) (map_to_list db).

(** Two requests with the same token: the second waits, and finds it ended. *)
Definition twice : list tx_step :=
  [TxBegin 0 (RotatesToken 5 "t1" (token "t2" "02")); TxBegin 1 (RotatesToken 6 "t1" (token "t3" "03")); TxNext 0; TxNext 1; TxNext 0;
   TxEnd 0; TxNext 1; TxEnd 1].
Example second_rotation_refused : let s := tx_run identity_program twice (tx_start joined) in
  (rotated (tx_log s), bool_decide (is_Some (tx_db s !! RowToken "t3"))) = (["t1"], false).
Proof. vm_compute. reflexivity. Qed.

(** A reset revokes the tokens of the account while a rotation is under way: it waits
    for the old token and passes over the new one, which stays live. *)
Definition reset_meets_rotation : list tx_step :=
  [TxBegin 0 (RotatesToken 5 "t1" (token "t2" "02")); TxNext 0; TxNext 0; TxBegin 1 (RevokesTokens 6 "u1"); TxNext 1; TxEnd 0; TxNext 1; TxEnd 1].
Example session_survives_reset : let s := tx_run identity_program reset_meets_rotation (tx_start joined) in
  (length (tx_log s), (λ x, match x with Some (ValToken t) => Some (ended t) | _ => None end) <$> [tx_db s !! RowToken "t1"; tx_db s !! RowToken "t2"]) =
  (2%nat, [Some true; Some false]).
Proof. vm_compute. reflexivity. Qed.

(** Marking a used reset is no error, so two requests that read it unused both go on. *)
Example reset_marked_twice : (serially [CreatesUser alice; CreatesReset reset; MarksReset 5 "r1"; MarksReset 6 "r1"]).2 = [None; None; None; None].
Proof. vm_compute. reflexivity. Qed.

(** The update of a profile read before an administrator blocked the account unblocks it. *)
Example block_lost :
  view_run (pg_GetUserByID "u1") (serially [CreatesUser alice; UpdatesUser (alice <| u_AccessBlocked := true |>);
    UpdatesUser (alice <| u_DisplayName := "Alice B." |>)]).1 =
  ((serially [CreatesUser alice; UpdatesUser (alice <| u_DisplayName := "Alice B." |>)]).1, inr (alice <| u_DisplayName := "Alice B." |>)).
Proof. vm_compute. reflexivity. Qed.

(** A deleted account keeps its address: an invitation to it cannot be accepted. *)
Example deleted_address_taken :
  (serially [CreatesUser alice; CreatesInvitation invited; DeletesUser 5 "u1"; AcceptsInvitation 6 "i1" (alice <| u_ID := "u2" |>)]).2 =
  [None; None; None; Some unique_violation].
Proof. vm_compute. reflexivity. Qed.
End IdentitySample.
