(* ===== verification/PgExpenses.v ===== *)
(** * Expenses in PostgreSQL (postgres/expense_repository.go)

    The expenses table with its tags and items, the categories it joins, and the methods
    of the repository as transactions. *)

From S2P Require Export Prelude GoTime GoStrings Domain Memory PgTx.
#[global] Open Scope Z_scope.

(** ** Tables *)

Inductive expenseRow :=
  | RowExpense (id : string) | RowTag (expenseID tagID : string) | RowItem (expenseID : string) (position : Z) | RowCategory (id : string).
#[export] Instance expenseRow_eq_dec : EqDecision expenseRow.
Proof. solve_decision. Defined.
#[export] Instance expenseRow_countable : Countable expenseRow.
Proof.
refine (inj_countable' (λ r, match r with
  | RowExpense id => inl (inl id) | RowTag e t => inl (inr (e, t)) | RowItem e p => inr (inl (e, p)) | RowCategory id => inr (inr id) end)
  (λ s, match s with
  | inl (inl id) => RowExpense id | inl (inr (e, t)) => RowTag e t | inr (inl (e, p)) => RowItem e p | inr (inr id) => RowCategory id end) _).
by intros [].
Defined.

(** [ValExpense] holds the columns: no name of the category, no tags, no items. *)
Inductive expenseValue := ValExpense (e : ExpenseRecord) | ValTag | ValItem (item : ExpenseItem) | ValCategory (name : string).

Abbreviation expenseDB := (gmap expenseRow expenseValue).
Abbreviation expenseTx := (@tx expenseRow expenseValue expenseRow_eq_dec expenseRow_countable).

Definition expense_columns (e : ExpenseRecord) : ExpenseRecord :=
  mkExpenseRecord (ex_ID e) (ex_OwnerID e) (ex_Title e) (ex_AmountMinor e) (pg_char3 (ex_Currency e)) (pg_time (ex_OccurredAt e))
    (ex_CategoryID e) "" [] (ex_Status e) (ex_SharedGroupID e) [] (ex_Latitude e) (ex_Longitude e) (ex_Address e)
    (ex_ReceiptObjectKey e) (pg_time (ex_CreatedAt e)) (pg_time (ex_UpdatedAt e)) None.

(** [distinct]. *)
Fixpoint distinct_from (seen : list string) (values : list string) : list string :=
  match values with
  | [] => []
  | value :: values =>
      if (value =s "") || str_in value seen then distinct_from seen values
      else value :: distinct_from (value :: seen) values
  end.
Definition distinct (values : list string) : list string := distinct_from [] values.

Section Repository.
(** The other casts, foreign keys and check constraints; the text of a quantity cast to
    [numeric(12,3)]; and [ilike]. *)
Context `{GoRuntime} (violates : expenseRow → expenseValue → option error).
Context (numeric : string → error + string) (ilike : string → string → bool).

Definition insert_row (k : expenseRow) (x : expenseValue) (refs : list expenseRow) : expenseTx () :=
  match violates k x with Some e => tx_throw e | None => insert_rows [(k, x)] refs end.

Definition category_refs (e : ExpenseRecord) : list expenseRow :=
  if ex_CategoryID e =s "" then [] else [RowCategory (ex_CategoryID e)].

Definition insertItem (expenseID : string) (position : Z) (item : ExpenseItem) : expenseTx () :=
  match numeric (if it_Quantity item =s "" then "1" else it_Quantity item) with
  | inl e => tx_throw e
  | inr quantity => insert_row (RowItem expenseID position) (ValItem (item <| it_Quantity := quantity |>)) []
  end.

Definition insertExpenseRelations (e : ExpenseRecord) : expenseTx () :=
  _ ← tx_each (λ tagID, insert_row (RowTag (ex_ID e) tagID) ValTag []) (distinct (ex_TagIDs e));
  tx_each (λ x, insertItem (ex_ID e) x.1 x.2) (imap (λ i item, (Z.of_nat i, item)) (ex_Items e)).

Definition insertExpense (e : ExpenseRecord) : expenseTx () :=
  _ ← insert_row (RowExpense (ex_ID e)) (ValExpense (expense_columns e)) (category_refs e);
  insertExpenseRelations e.
Definition pg_CreateExpense (e : ExpenseRecord) : expenseTx () := insertExpense e.

Definition live_expense (test : ExpenseRecord → bool) (k : expenseRow) (x : expenseValue) : bool :=
  match k, x with RowExpense _, ValExpense e => live (ex_DeletedAt e) && test e | _, _ => false end.
Definition owned_row (ownerID expenseID : string) (e : ExpenseRecord) : bool := (ex_ID e =s expenseID) && (ex_OwnerID e =s ownerID).

Definition expense_tags_of (expenseID : string) (k : expenseRow) (_ : expenseValue) : bool :=
  match k with RowTag e _ => e =s expenseID | _ => false end.
Definition expense_items_of (expenseID : string) (k : expenseRow) (_ : expenseValue) : bool :=
  match k with RowItem e _ => e =s expenseID | _ => false end.

Definition pg_UpdateExpense (e : ExpenseRecord) : expenseTx () :=
  let row := RowExpense (ex_ID e) in
  Stmt (λ k x, live_expense (owned_row (ex_OwnerID e) (ex_ID e)) k x || bool_decide (k ∈ category_refs e))
    (λ v, match v !! row with
          | Some (ValExpense old) =>
              let new := ValExpense ((expense_columns e) <| ex_CreatedAt := ex_CreatedAt old |>) in
              match violates row new with
              | Some err => inl err
              | None => if forallb (λ k, bool_decide (is_Some (v !! k))) (category_refs e) then inr {[row := Some new]}
                        else inl foreign_key_violation
              end
          | _ => inr ∅
          end)
    (λ v, match v !! row with
          | Some _ =>
              delete_rows (expense_tags_of (ex_ID e)) (delete_rows (expense_items_of (ex_ID e)) (insertExpenseRelations e))
          | None => tx_throw pgx_ErrNoRows
          end).

Definition pg_DeleteExpense (now : Time) (ownerID expenseID : string) : expenseTx () :=
  update_rows (live_expense (owned_row ownerID expenseID))
    (λ x, match x with ValExpense e => ValExpense (e <| ex_DeletedAt := Some now |> <| ex_UpdatedAt := now |>) | _ => x end) one_row.

(** ** Reading *)

(** [scanExpense], over the join with the categories. *)
Definition category_name (rows : expenseDB) (categoryID : string) : string :=
  match rows !! RowCategory categoryID with Some (ValCategory name) => name | _ => "" end.
Definition scanExpense (rows : expenseDB) (e : ExpenseRecord) : ExpenseRecord :=
  e <| ex_CategoryName := category_name rows (ex_CategoryID e) |>.
Definition scan_all (rows : expenseDB) : list ExpenseRecord :=
  omap (λ x, match x with (RowExpense _, ValExpense e) => Some (scanExpense rows e) | _ => None end) (map_range rows).
Definition select_expenses {A} (matches : expenseDB → ExpenseRecord → bool) (k : list ExpenseRecord → expenseTx A) : expenseTx A :=
  select (λ k x, match k, x with RowCategory _, _ => true | RowExpense _, ValExpense e => live (ex_DeletedAt e) | _, _ => false end)
    (λ rows, k (List.filter (matches rows) (scan_all rows))).

(** [loadRelations]: the tags in any order, the items by their position. *)
Definition tags_in (rows : expenseDB) (expenseID : string) : list string :=
  omap (λ x, match x.1 with RowTag e t => if e =s expenseID then Some t else None | _ => None end) (map_range rows).
Definition items_in (rows : expenseDB) (expenseID : string) : list ExpenseItem :=
  map snd (sort_slice (λ x y, x.1 <? y.1)
    (omap (λ x, match x with (RowItem e p, ValItem item) => if e =s expenseID then Some (p, item) else None | _ => None end) (map_range rows))).
Definition loadRelations (expenses : list ExpenseRecord) : expenseTx (list ExpenseRecord) :=
  match expenses with
  | [] => mret []
  | _ =>
      let ids := map ex_ID expenses in
      select (λ k _, match k with RowTag e _ => str_in e ids | _ => false end) (λ tags,
      select (λ k _, match k with RowItem e _ => str_in e ids | _ => false end) (λ items,
        mret (map (λ e, e <| ex_TagIDs := tags_in tags (ex_ID e) |> <| ex_Items := items_in items (ex_ID e) |>) expenses)))
  end.

Definition load_one (expenses : list ExpenseRecord) : expenseTx ExpenseRecord :=
  match expenses with
  | [] => tx_throw pgx_ErrNoRows
  | e :: _ =>
      loaded ← loadRelations [e];
      match loaded with e :: _ => mret e | [] => tx_throw pgx_ErrNoRows end
  end.

Definition pg_GetExpense (ownerID expenseID : string) : expenseTx ExpenseRecord :=
  select_expenses (λ _, owned_row ownerID expenseID) load_one.
Definition pg_GetExpenseVisible (viewerID expenseID : string) (sharedGroupIDs : list string) : expenseTx ExpenseRecord :=
  select_expenses (λ _ e, (ex_ID e =s expenseID) &&
    ((ex_OwnerID e =s viewerID) || ((ex_SharedGroupID e ≠s "") && str_in (ex_SharedGroupID e) sharedGroupIDs))) load_one.

Definition pg_matches (filter : ExpenseListFilter) (tagged : string → string → bool) (e : ExpenseRecord) : bool :=
  let pattern := "%" +:+ lf_Query filter +:+ "%" in
  ((ex_OwnerID e =s lf_OwnerID filter) || ((ex_SharedGroupID e ≠s "") && str_in (ex_SharedGroupID e) (lf_SharedGroupIDs filter))) &&
  ((lf_Query filter =s "") || ilike pattern (ex_Title e) || ilike pattern (ex_CategoryName e)) &&
  ((lf_CategoryID filter =s "") || (ex_CategoryID e =s lf_CategoryID filter)) &&
  (IsZero (lf_From filter) || (pg_time (lf_From filter) <=? ex_OccurredAt e)) &&
  (IsZero (lf_To filter) || (ex_OccurredAt e <? pg_time (lf_To filter))) &&
  forallb (tagged (ex_ID e)) (distinct (lf_TagIDs filter)).

(** The order of the query: no two rows tie. *)
Definition list_key (filter : ExpenseListFilter) (e : ExpenseRecord) : Z :=
  if lf_SortBy filter =s ExpenseSortAmount then ex_AmountMinor e else ex_OccurredAt e.
Definition pg_before (filter : ExpenseListFilter) (x y : ExpenseRecord) : bool :=
  (list_key filter y <? list_key filter x) || ((list_key filter y =? list_key filter x) && string_less (ex_ID x) (ex_ID y)).

Definition pg_ListExpenses (filter : ExpenseListFilter) : expenseTx (list ExpenseRecord) :=
  select (λ k x, match k, x with
                 | RowCategory _, _ | RowTag _ _, _ => true | RowExpense _, ValExpense e => live (ex_DeletedAt e) | _, _ => false end) (λ rows,
    let tagged expenseID tagID := bool_decide (is_Some (rows !! RowTag expenseID tagID)) in
    let found := sort_slice (pg_before filter) (List.filter (pg_matches filter tagged) (scan_all rows)) in
    if (lf_Limit filter <? 0) || (lf_Offset filter <? 0) then tx_throw (ErrorsNew "LIMIT and OFFSET must not be negative")
    else loadRelations (take (Z.to_nat (lf_Limit filter)) (drop (Z.to_nat (lf_Offset filter)) found))).
End Repository.

(** * The rows of an expense

    What the tables hold for an expense of the in-memory store ([mirrors]), that the
    statements of postgres/expense_repository.go that write keep it so, and what its
    scans and [loadRelations] read back. *)

(** ** The rows of an expense *)

Section Refinement.
Context `{GoRuntime} (violates : expenseRow → expenseValue → option error).
Context (numeric : string → error + string).

(** An expense the columns keep as it is. *)
Record fits_columns (e : ExpenseRecord) : Prop := {
  fc_currency : pg_char3 (ex_Currency e) = ex_Currency e;
  fc_occurred : pg_time (ex_OccurredAt e) = ex_OccurredAt e;
  fc_created : pg_time (ex_CreatedAt e) = ex_CreatedAt e;
  fc_updated : pg_time (ex_UpdatedAt e) = ex_UpdatedAt e;
  fc_tags : NoDup (ex_TagIDs e) ∧ "" ∉ ex_TagIDs e;
  fc_items : Forall (λ item, it_Quantity item ≠ "" ∧ numeric (it_Quantity item) = inr (it_Quantity item)) (ex_Items e);
  fc_live : ex_DeletedAt e = None
}.
Definition accepted (e : ExpenseRecord) : Prop :=
  (∀ x, violates (RowExpense (ex_ID e)) x = None) ∧ (∀ t, violates (RowTag (ex_ID e) t) ValTag = None) ∧
  (∀ p x, violates (RowItem (ex_ID e) p) x = None).
Definition named (v : expenseDB) (e : ExpenseRecord) : Prop :=
  category_name v (ex_CategoryID e) = ex_CategoryName e ∧ (ex_CategoryID e ≠ "" → is_Some (v !! RowCategory (ex_CategoryID e))).

Definition item_at (e : ExpenseRecord) (p : Z) : option ExpenseItem := if p <? 0 then None else ex_Items e !! Z.to_nat p.

Lemma insert_row_run k x refs v : violates k x = None →
  view_run (insert_row violates k x refs) v =
  match v !! k with
  | Some _ => (v, inl unique_violation)
  | None => if forallb (λ k, bool_decide (is_Some (v !! k))) refs then (<[k := x]> v, inr ()) else (v, inl foreign_key_violation)
  end.
Proof using Type.
intros Hv. unfold insert_row. rewrite Hv. unfold insert_rows, view_run. cbn -[visible overlay].
assert (∀ k', k' ∈ [k] ++ refs → visible (λ k' _, bool_decide (k' ∈ [k] ++ refs)) v !! k' = v !! k') as Hvis.
{ intros k' Hk. rewrite lookup_visible. unfold seen. destruct (v !! k'); [|done]. by rewrite bool_decide_true. }
cbn in Hvis |- *. rewrite Hvis by (by left). destruct (v !! k) eqn:Hk; [by rewrite bool_decide_true by (by eexists)|].
rewrite bool_decide_false by (by intros []). cbn.
assert (forallb (λ k', bool_decide (is_Some (visible (λ k' _, bool_decide (k' ∈ k :: refs)) v !! k'))) refs =
  forallb (λ k', bool_decide (is_Some (v !! k'))) refs) as ->.
{ assert (∀ l, (∀ k', k' ∈ l → k' ∈ k :: refs) → forallb (λ k', bool_decide (is_Some (visible (λ k' _, bool_decide (k' ∈ k :: refs)) v !! k'))) l =
    forallb (λ k', bool_decide (is_Some (v !! k'))) l) as Hl; [|apply Hl; by right].
  intros l. induction l as [|y l IH]; intros Hl; [done|]. cbn. rewrite (Hvis y) by (apply Hl; by left). f_equal. apply IH. intros z Hz. apply Hl. by right. }
destruct (forallb _ refs); [|done]. cbn. by rewrite insert_empty, overlay_singleton.
Qed.

Lemma distinct_nodup l : NoDup l → "" ∉ l → distinct l = l.
Proof using Type.
unfold distinct. assert (∀ seen, NoDup l → "" ∉ l → (∀ x, x ∈ l → x ∉ seen) → distinct_from seen l = l) as Hl; [|intros; apply Hl; try done; by intros ? _ ?%not_elem_of_nil].
induction l as [|x l IH]; intros seen; [done|]. intros [Hx Hnd]%NoDup_cons [Hne Hne']%not_elem_of_cons Hs. cbn.
rewrite eqs_ne by congruence. destruct (str_in x seen) eqn:Hin; [apply str_in_spec in Hin; by destruct (Hs x ltac:(by left))|]. cbn. f_equal.
apply IH; try done. intros y Hy. rewrite not_elem_of_cons. split; [by intros ->|]. apply Hs. by right.
Qed.

Lemma tags_run id tags v : (∀ t, violates (RowTag id t) ValTag = None) → NoDup tags → (∀ t, t ∈ tags → v !! RowTag id t = None) →
  ∃ v', view_run (tx_each (λ t, insert_row violates (RowTag id t) ValTag []) tags) v = (v', inr ()) ∧
    ∀ k, v' !! k = match k with RowTag i t => if decide (i = id ∧ t ∈ tags) then Some ValTag else v !! k | _ => v !! k end.
Proof using Type.
intros Hv. revert v. induction tags as [|t tags IH]; intros v Hnd Hfree; rewrite view_run_each; cbn [for_each].
{ exists v. split; [done|]. intros [|i t| |]; try done. by rewrite decide_False by (by intros [_ ?%not_elem_of_nil]). }
apply NoDup_cons in Hnd as [Ht Hnd]. unfold mbind, M_bind. rewrite insert_row_run by done. rewrite Hfree by (by left). cbn [forallb].
destruct (IH (<[RowTag id t := ValTag]> v)) as (v' & Hrun & Hv').
- done.
- intros t' Ht'. rewrite lookup_insert_ne by (intros [= ->]; done). apply Hfree. by right.
- rewrite view_run_each in Hrun. exists v'. split; [done|]. intros k. rewrite Hv'. destruct k as [i|i t'|i p|i]; try (by rewrite lookup_insert_ne).
  destruct (decide (i = id ∧ t' ∈ tags)) as [[-> Hin]|Hn].
  + rewrite decide_True; [done|]. split; [done|by right].
  + destruct (decide (i = id ∧ t' ∈ t :: tags)) as [[-> Hin]|Hn'].
    * apply elem_of_cons in Hin as [->|Hin]; [apply lookup_insert_eq|by destruct Hn].
    * rewrite lookup_insert_ne; [done|]. intros [= -> ->]. apply Hn'. split; [done|by left].
Qed.

Lemma items_run id items : ∀ n v, (∀ p x, violates (RowItem id p) x = None) →
  Forall (λ item, it_Quantity item ≠ "" ∧ numeric (it_Quantity item) = inr (it_Quantity item)) items →
  (∀ p, n ≤ p → v !! RowItem id p = None) →
  ∃ v', view_run (tx_each (λ x, insertItem violates numeric id x.1 x.2) (imap (λ i item, (n + Z.of_nat i, item)) items)) v = (v', inr ()) ∧
    ∀ k, v' !! k = match k with
      | RowItem i p => if decide (i = id ∧ n ≤ p) then ValItem <$> items !! Z.to_nat (p - n) else v !! k
      | _ => v !! k
      end.
Proof using Type.
induction items as [|item items IH]; intros n v Hv Hq Hfree.
{ exists v. split; [done|]. intros [| |i p|]; try done. destruct (decide (i = id ∧ n ≤ p)) as [[-> Hp]|]; [|done]. by rewrite Hfree. }
apply Forall_cons in Hq as [[Hne Hnum] Hq]. rewrite view_run_each. cbn [imap for_each fst snd]. unfold mbind, M_bind, insertItem at 1.
rewrite (eqs_ne _ _ Hne), Hnum, insert_row_run by done. rewrite Z.add_0_r, Hfree by lia. cbn [forallb].
assert (item <| it_Quantity := it_Quantity item |> = item) as -> by (by destruct item).
destruct (IH (n + 1) (<[RowItem id n := ValItem item]> v)) as (v' & Hrun & Hv'); [done..| |].
- intros p Hp. rewrite lookup_insert_ne by (intros [= ->]; lia). apply Hfree. lia.
- exists v'. split.
  + rewrite view_run_each in Hrun. rewrite <- Hrun. f_equal. apply imap_ext. intros i x _. cbn. f_equal. lia.
  + intros k. rewrite Hv'. destruct k as [i|i t|i p|i]; try (by rewrite lookup_insert_ne).
    destruct (decide (i = id ∧ n + 1 ≤ p)) as [[-> Hp]|Hn].
    * rewrite decide_True by (split; [done|lia]). replace (Z.to_nat (p - n)) with (S (Z.to_nat (p - (n + 1)))) by lia. done.
    * destruct (decide (i = id ∧ n ≤ p)) as [[-> Hp]|Hn'].
      -- assert (p = n) as -> by (destruct (decide (n + 1 ≤ p)); [by destruct Hn|lia]). rewrite lookup_insert_eq, Z.sub_diag. done.
      -- rewrite lookup_insert_ne; [done|]. intros [= -> ->]. apply Hn'. split; [done|lia].
Qed.

(** What the relations of an expense are after they are written where there were none. *)
Lemma relations_run e v : fits_columns e → accepted e → (∀ t, v !! RowTag (ex_ID e) t = None) → (∀ p, v !! RowItem (ex_ID e) p = None) →
  ∃ v', view_run (insertExpenseRelations violates numeric e) v = (v', inr ()) ∧
    ∀ k, v' !! k = match k with
      | RowTag i t => if decide (i = ex_ID e) then (if decide (t ∈ ex_TagIDs e) then Some ValTag else None) else v !! k
      | RowItem i p => if decide (i = ex_ID e) then ValItem <$> item_at e p else v !! k
      | _ => v !! k
      end.
Proof using Type.
intros Hf (_ & Hvt & Hvi) Hnt Hni. unfold insertExpenseRelations. rewrite view_run_bind. unfold mbind, M_bind.
destruct (fc_tags _ Hf) as [Hnd Hne]. rewrite (distinct_nodup _ Hnd Hne).
destruct (tags_run (ex_ID e) (ex_TagIDs e) v Hvt Hnd (λ t _, Hnt t)) as (v1 & -> & Hv1).
destruct (items_run (ex_ID e) (ex_Items e) 0 v1 Hvi (fc_items _ Hf)) as (v2 & Hrun & Hv2); [intros p _; by rewrite Hv1|].
exists v2. split; [by rewrite <- Hrun|]. intros k. rewrite Hv2. destruct k as [i|i t|i p|i]; rewrite ?Hv1; try done.
- destruct (decide (i = ex_ID e)) as [->|Hn]; [|by rewrite decide_False by tauto]. destruct (decide (t ∈ ex_TagIDs e)).
  + by rewrite decide_True.
  + rewrite decide_False by tauto. apply Hnt.
- unfold item_at. destruct (decide (i = ex_ID e)) as [->|Hn]; [|by rewrite decide_False by tauto].
  destruct (decide (0 ≤ p)) as [Hp|Hp].
  + rewrite decide_True by done. rewrite Z.sub_0_r. destruct (p <? 0) eqn:?; [lia|done].
  + rewrite decide_False by tauto. destruct (p <? 0) eqn:?; [|lia]. apply Hni.
Qed.

(** ** The in-memory store the tables mirror *)

Definition holds (v : expenseDB) (id : string) (e : ExpenseRecord) : Prop :=
  ex_ID e = id ∧ v !! RowExpense id = Some (ValExpense (expense_columns e)) ∧ fits_columns e ∧ named v e ∧
  (∀ t, v !! RowTag id t = if decide (t ∈ ex_TagIDs e) then Some ValTag else None) ∧ ∀ p, v !! RowItem id p = ValItem <$> item_at e p.

Record mirrors (v : expenseDB) (s : gmap string ExpenseRecord) : Prop := {
  mr_row id : match s !! id with
    | None => v !! RowExpense id = None ∧ (∀ t, v !! RowTag id t = None) ∧ ∀ p, v !! RowItem id p = None
    | Some e => if live (ex_DeletedAt e) then holds v id e
                else ∃ c, v !! RowExpense id = Some (ValExpense c) ∧ live (ex_DeletedAt c) = false
    end;
  mr_root : v !! RowCategory "" = None
}.

(** Only the rows of one expense change. *)
Definition only_expense (id : string) (v v' : expenseDB) : Prop :=
  ∀ k, match k with RowExpense i | RowTag i _ | RowItem i _ => i ≠ id | RowCategory _ => True end → v' !! k = v !! k.

Definition categories_kept (v v' : expenseDB) : Prop := ∀ i, v' !! RowCategory i = v !! RowCategory i.

Lemma named_same v v' e : categories_kept v v' → named v e → named v' e.
Proof using Type. intros Hc [H1 H2]. unfold named, category_name in *. by rewrite !Hc. Qed.

Lemma mirrors_write v v' s id e' : mirrors v s → only_expense id v v' →
  (if live (ex_DeletedAt e') then holds v' id e' else ∃ c, v' !! RowExpense id = Some (ValExpense c) ∧ live (ex_DeletedAt c) = false) →
  mirrors v' (<[id := e']> s) ∧ categories_kept v v'.
Proof using Type.
intros [Hrow Hroot] Honly Hid. split; [|intros c; by rewrite Honly]. split; [|by rewrite Honly].
intros i. destruct (decide (i = id)) as [->|Hne]; [by rewrite lookup_insert_eq|]. rewrite lookup_insert_ne by done. specialize (Hrow i).
destruct (s !! i) as [e|].
- destruct (live (ex_DeletedAt e)).
  + destruct Hrow as (H1 & H2 & H3 & H4 & H5 & H6). split; [done|]. split; [by rewrite Honly|]. split; [done|].
    split; [apply (named_same v); [intros c; by rewrite Honly|done]|]. split; [intros t|intros p]; by rewrite Honly.
  + destruct Hrow as (c & Hc & Hl). exists c. by rewrite Honly.
- destruct Hrow as (H1 & H2 & H3). split; [by rewrite Honly|]. split; [intros t|intros p]; by rewrite Honly.
Qed.

Lemma refs_present v e : named v e → forallb (λ k, bool_decide (is_Some (v !! k))) (category_refs e) = true.
Proof using Type.
intros [_ Hc]. unfold category_refs. destruct (String.eqb_spec (ex_CategoryID e) ""); [done|]. cbn. by rewrite bool_decide_true by (by apply Hc).
Qed.

Lemma create_mirrors v s e : mirrors v s → fits_columns e → accepted e → named v e →
  match s !! ex_ID e with
  | Some _ => ∃ err, Within (pg_CreateExpense violates numeric e) v = (v, inl err)
  | None => ∃ v', Within (pg_CreateExpense violates numeric e) v = (v', inr ()) ∧ mirrors v' (<[ex_ID e := e]> s) ∧ categories_kept v v'
  end.
Proof using Type.
intros Hm Hf Ha Hn. rewrite Within_view. unfold pg_CreateExpense, insertExpense. rewrite view_run_bind. unfold mbind, M_bind.
rewrite insert_row_run by apply Ha. pose proof (mr_row _ _ Hm (ex_ID e)) as Hrow. destruct (s !! ex_ID e) as [e0|].
- assert (is_Some (v !! RowExpense (ex_ID e))) as [x ->]; [|by eexists].
  destruct (live (ex_DeletedAt e0)); [destruct Hrow as (_ & -> & _); by eexists|destruct Hrow as (c & -> & _); by eexists].
- destruct Hrow as (H1 & H2 & H3). rewrite H1, (refs_present v e Hn).
  destruct (relations_run e (<[RowExpense (ex_ID e) := ValExpense (expense_columns e)]> v) Hf Ha) as (v' & -> & Hv'); [intros; by rewrite lookup_insert_ne..|].
  exists v'. split; [done|]. apply (mirrors_write v); [done|..].
  + intros k Hk. rewrite Hv'. destruct k as [i|i t|i p|i]; rewrite ?decide_False by done; rewrite lookup_insert_ne; congruence.
  + rewrite (fc_live _ Hf). cbn. split; [done|]. split; [rewrite Hv'; apply lookup_insert_eq|]. split; [done|].
    split; [apply (named_same v); [intros c; by rewrite Hv', lookup_insert_ne|done]|].
    split; [intros t|intros p]; by rewrite Hv', decide_True.
Qed.

Lemma columns_created e t : t = pg_time (ex_CreatedAt e) → (expense_columns e) <| ex_CreatedAt := t |> = expense_columns e.
Proof using Type. intros ->. reflexivity. Qed.

Lemma update_mirrors v s e : mirrors v s → fits_columns e → accepted e → named v e →
  (∀ old, s !! ex_ID e = Some old → live (ex_DeletedAt old) = true ∧ ex_OwnerID old = ex_OwnerID e ∧ ex_CreatedAt old = ex_CreatedAt e) →
  match s !! ex_ID e with
  | None => ∃ err, Within (pg_UpdateExpense violates numeric e) v = (v, inl err)
  | Some _ => ∃ v', Within (pg_UpdateExpense violates numeric e) v = (v', inr ()) ∧ mirrors v' (<[ex_ID e := e]> s) ∧ categories_kept v v'
  end.
Proof using Type.
intros Hm Hf Ha Hn Hold. rewrite Within_view. pose proof (mr_row _ _ Hm (ex_ID e)) as Hrow.
unfold pg_UpdateExpense. unfold view_run at 1 2. fold (@view_run expenseRow expenseValue _ _ ()).
set (reads := λ k x, _ || _). set (row := RowExpense (ex_ID e)).
assert (∀ k, k ∈ category_refs e → visible reads v !! k = v !! k) as Hrefs.
{ intros k Hk. rewrite lookup_visible. unfold seen. destruct (v !! k); [|done]. unfold reads. by rewrite (bool_decide_true _ Hk), orb_true_r. }
destruct (s !! ex_ID e) as [old|].
- destruct (Hold old eq_refl) as (Hl & Ho & Hc). rewrite Hl in Hrow. destruct Hrow as (H1 & H2 & H3 & H4 & H5 & H6).
  assert (visible reads v !! row = Some (ValExpense (expense_columns old))) as ->.
  { unfold row; rewrite lookup_visible, H2. unfold seen, reads, live_expense, owned_row. cbn. by rewrite H1, Ho, !eqs_refl. }
  assert ((expense_columns e) <| ex_CreatedAt := ex_CreatedAt (expense_columns old) |> = expense_columns e) as ->.
  { apply columns_created. change (pg_time (ex_CreatedAt old) = pg_time (ex_CreatedAt e)). by rewrite Hc. }
  rewrite (proj1 Ha). assert (forallb (λ k, bool_decide (is_Some (visible reads v !! k))) (category_refs e) = true) as ->.
  { rewrite <- (refs_present v e Hn). revert Hrefs. generalize (category_refs e). intros l Hr. induction l as [|k l IH]; [done|]. cbn.
    rewrite Hr by (by left). f_equal. apply IH. intros k' Hk'. apply Hr. by right. }
  rewrite overlay_singleton, view_run_delete_rows, view_run_delete_rows.
  set (v1 := filter _ (filter _ _)).
  assert (∀ k, v1 !! k = match k with RowTag i _ | RowItem i _ => if decide (i = ex_ID e) then None else v !! k
    | _ => <[row := ValExpense (expense_columns e)]> v !! k end) as Hv1.
  { intros k. unfold v1. rewrite !map_lookup_filter. destruct k as [i|i t|i p|i]; cbn -[row].
    - by destruct (<[_ := _]> v !! _).
    - rewrite lookup_insert_ne by done. destruct (v !! RowTag i t); cbn; [|by destruct (decide _)]. unfold expense_tags_of.
      destruct (decide (i = ex_ID e)) as [->|Hne]; [by rewrite eqs_refl|by rewrite eqs_ne].
    - rewrite lookup_insert_ne by done. destruct (v !! RowItem i p); cbn; [|by destruct (decide _)]. unfold expense_items_of.
      destruct (decide (i = ex_ID e)) as [->|Hne]; [by rewrite eqs_refl|by rewrite eqs_ne].
    - by destruct (<[_ := _]> v !! _). }
  destruct (relations_run e v1 Hf Ha) as (v' & -> & Hv'); [intros; by rewrite Hv1, decide_True..|].
  exists v'. split; [done|]. apply (mirrors_write v); [done|..].
  + intros k Hk. rewrite Hv'. destruct k as [i|i t|i p|i]; rewrite ?decide_False by done; rewrite Hv1, ?decide_False by done; try done;
      rewrite lookup_insert_ne; unfold row; congruence.
  + rewrite (fc_live _ Hf). cbn. split; [done|]. split; [rewrite Hv', Hv1; apply lookup_insert_eq|]. split; [done|].
    split; [apply (named_same v); [intros c; by rewrite Hv', Hv1, lookup_insert_ne|done]|].
    split; [intros t|intros p]; by rewrite Hv', decide_True.
- destruct Hrow as (H1 & _). assert (visible reads v !! row = None) as ->.
  { unfold row. by rewrite lookup_visible, H1. }
  rewrite overlay_empty. by eexists.
Qed.

(** ** Deleting *)

Lemma expense_get_lookup ownerID expenseID (s : gmap string ExpenseRecord) : expense_get ownerID expenseID s =
  match s !! expenseID with
  | Some e => if (ex_OwnerID e =s ownerID) && live (ex_DeletedAt e) then Some e else None
  | None => None
  end.
Proof using Type.
change (expense_get ownerID expenseID s) with (match (s !! expenseID : option ExpenseRecord) with
  | Some e => if negb (ex_OwnerID e =s ownerID) || negb (live (ex_DeletedAt e)) then None else Some e | None => None end).
destruct (s !! expenseID) as [e|]; [|done]. rewrite <- negb_andb. by destruct ((ex_OwnerID e =s ownerID) && _).
Qed.

Lemma owned_visible v s ownerID expenseID : mirrors v s →
  visible (live_expense (owned_row ownerID expenseID)) v =
  match expense_get ownerID expenseID s with Some e => {[RowExpense expenseID := ValExpense (expense_columns e)]} | None => ∅ end.
Proof using Type.
intros Hm. apply map_eq. intros k. rewrite lookup_visible, expense_get_lookup.
assert (seen (live_expense (owned_row ownerID expenseID)) k (v !! k) = match k with
  | RowExpense i => if decide (i = expenseID) then match s !! i with
      | Some e => if (ex_OwnerID e =s ownerID) && live (ex_DeletedAt e) then Some (ValExpense (expense_columns e)) else None
      | None => None end else None
  | _ => None end) as ->.
{ destruct k as [i|i t|i p|i]; try (unfold seen; by destruct (v !! _)). pose proof (mr_row _ _ Hm i) as Hrow. destruct (s !! i) as [e|].
  - destruct (live (ex_DeletedAt e)) eqn:Hl.
    + destruct Hrow as (Hi & -> & _). unfold seen, live_expense, owned_row. cbn. rewrite Hi, andb_true_r.
      destruct (decide (i = expenseID)) as [->|Hne]; [by rewrite eqs_refl|by rewrite eqs_ne].
    + destruct Hrow as (c & -> & Hc). unfold seen, live_expense. rewrite Hc, andb_false_r. by destruct (decide _).
  - destruct Hrow as (-> & _). cbn. by destruct (decide _). }
assert (∀ o : option ExpenseRecord, (match o with Some e => {[RowExpense expenseID := ValExpense (expense_columns e)]} | None => ∅ end : expenseDB) !! k =
  match k with RowExpense i => if decide (i = expenseID) then ValExpense <$> (expense_columns <$> o) else None | _ => None end) as ->.
{ intros [e|].
  - destruct k as [i|i t|i p|i]; [|by rewrite lookup_singleton_ne by done..].
    destruct (decide (i = expenseID)) as [->|Hne]; [by rewrite lookup_singleton_eq|by rewrite lookup_singleton_ne by congruence].
  - rewrite lookup_empty. destruct k; try done. by destruct (decide _). }
destruct k as [i|i t|i p|i]; try done. destruct (decide (i = expenseID)) as [->|Hne]; [|done].
destruct (s !! expenseID) as [e|]; [|done]. by destruct ((ex_OwnerID e =s ownerID) && live (ex_DeletedAt e)).
Qed.

Lemma delete_mirrors v s now ownerID expenseID : mirrors v s →
  match expense_get ownerID expenseID s with
  | Some e => ∃ v', Within (pg_DeleteExpense now ownerID expenseID) v = (v', inr ()) ∧
      mirrors v' (<[expenseID := e <| ex_DeletedAt := Some (ex_UpdatedAt e) |>]> s) ∧ categories_kept v v'
  | None => ∃ err, Within (pg_DeleteExpense now ownerID expenseID) v = (v, inl err)
  end.
Proof using Type.
intros Hm. rewrite Within_view. unfold pg_DeleteExpense, update_rows, view_run. rewrite (owned_visible v s) by done.
destruct (expense_get ownerID expenseID s) as [e|].
- rewrite map_fmap_singleton, map_to_list_singleton. cbn. rewrite overlay_singleton. eexists. split; [done|]. apply (mirrors_write v); [done|..].
  + intros [i|i t|i p|i] Hk; rewrite lookup_insert_ne; congruence.
  + cbn. rewrite lookup_insert_eq. by eexists.
- rewrite map_to_list_empty. by eexists.
Qed.

(** ** Reading *)

(** The tags come back in any order. *)
Definition same_but_tags (e e' : ExpenseRecord) : Prop :=
  ex_TagIDs e ≡ₚ ex_TagIDs e' ∧ e <| ex_TagIDs := [] |> = e' <| ex_TagIDs := [] |>.
#[export] Instance same_but_tags_equivalence : Equivalence same_but_tags.
Proof using Type.
split.
- intros e. by split.
- intros e e' [H1 H2]. by split.
- intros e1 e2 e3 [H1 H2] [H3 H4]. split; [by etrans|by etrans].
Qed.

Definition scanned (e : ExpenseRecord) : ExpenseRecord := (expense_columns e) <| ex_CategoryName := ex_CategoryName e |>.

Lemma scanned_loaded e tags : fits_columns e → tags ≡ₚ ex_TagIDs e →
  same_but_tags ((scanned e) <| ex_TagIDs := tags |> <| ex_Items := ex_Items e |>) e.
Proof using Type.
intros [H1 H2 H3 H4 _ _ H7] Ht. split; [done|]. destruct e. cbn in *. unfold set_field. cbn. by rewrite H1, H2, H3, H4, H7.
Qed.

Lemma omap_pointwise {A B C} (f : A → option C) (g : A → option B) (h : B → C) l :
  (∀ x, x ∈ l → f x = h <$> g x) → omap f l = map h (omap g l).
Proof using Type.
induction l as [|x l IH]; intros Hl; [done|]. cbn. rewrite (Hl x) by (by left). rewrite IH by (intros y Hy; apply Hl; by right).
by destruct (g x).
Qed.

(** What a scan of the live expenses finds. *)
Lemma scan_mirrors v s reads : mirrors v s → (∀ i c, reads (RowExpense i) (ValExpense c) = live (ex_DeletedAt c)) →
  (∀ i x, reads (RowCategory i) x = true) →
  ∃ es, scan_all (visible reads v) = map scanned es ∧ NoDup (map ex_ID es) ∧
    ∀ e, e ∈ es ↔ s !! ex_ID e = Some e ∧ live (ex_DeletedAt e) = true.
Proof using Type.
intros Hm Hre Hrc. set (rows := visible reads v).
set (g := λ x : expenseRow * expenseValue, match x.1 with
  | RowExpense i => match s !! i with Some e => if live (ex_DeletedAt e) then Some e else None | None => None end | _ => None end).
assert (∀ i, rows !! RowExpense i = match s !! i with
  | Some e => if live (ex_DeletedAt e) then Some (ValExpense (expense_columns e)) else None | None => None end) as Hrows.
{ intros i. unfold rows. rewrite lookup_visible. pose proof (mr_row _ _ Hm i) as Hrow. destruct (s !! i) as [e|]; [|by destruct Hrow as (-> & _)].
  destruct (live (ex_DeletedAt e)) eqn:Hl.
  - destruct Hrow as (_ & -> & _). cbn. by rewrite Hre.
  - destruct Hrow as (c & -> & Hc). cbn. by rewrite Hre, Hc. }
assert (∀ i e, s !! i = Some e → live (ex_DeletedAt e) = true → holds v i e) as Hholds.
{ intros i e Hi Hl. pose proof (mr_row _ _ Hm i) as Hrow. by rewrite Hi, Hl in Hrow. }
exists (omap g (map_range rows)). split; [|split].
- unfold scan_all. apply omap_pointwise. intros [k x] Hx. rewrite map_range_perm in Hx. apply elem_of_map_to_list in Hx.
  destruct k as [i|i t|i p|i]; try (by destruct x). cbn. rewrite Hrows in Hx. destruct (s !! i) as [e|] eqn:Hi; [|done].
  destruct (live (ex_DeletedAt e)) eqn:Hl; [|done]. injection Hx as <-. cbn. f_equal. unfold scanExpense, scanned.
  destruct (Hholds i e Hi Hl) as (_ & _ & _ & [Hn _] & _). unfold category_name in *. change (ex_CategoryID (expense_columns e)) with (ex_CategoryID e).
  assert (rows !! RowCategory (ex_CategoryID e) = v !! RowCategory (ex_CategoryID e)) as ->; [|by rewrite Hn].
  unfold rows. rewrite lookup_visible. unfold seen. destruct (v !! _); [by rewrite Hrc|done].
- assert (∀ l, NoDup (l.*1) → NoDup (map ex_ID (omap g l)) ∧ ∀ e, e ∈ omap g l → ∃ x, (RowExpense (ex_ID e), x) ∈ l) as Hnd.
  { intros l. induction l as [|[k x] l IH]; intros Hl; [split; [constructor|by intros e ?%not_elem_of_nil]|].
    apply NoDup_cons in Hl as [Hk Hl]. destruct (IH Hl) as [H1 H2]. cbn. destruct (g (k, x)) as [e|] eqn:Hg.
    - assert (k = RowExpense (ex_ID e)) as ->.
      { unfold g in Hg. cbn in Hg. destruct k as [i| | |]; try done. destruct (s !! i) as [e0|] eqn:Hi; [|done].
        destruct (live (ex_DeletedAt e0)) eqn:Hl0; [|done]. injection Hg as ->. by destruct (Hholds i e Hi Hl0) as [<- _]. }
      split.
      + cbn. apply NoDup_cons. split; [|done]. intros (e' & He' & Hin)%list_elem_of_fmap. destruct (H2 e' Hin) as [x' Hx'].
        apply Hk. cbn. rewrite He'. by apply (list_elem_of_fmap_2' fst _ (RowExpense (ex_ID e'), x')).
      + intros e' [->|Hin]%elem_of_cons; [exists x; by left|]. destruct (H2 e' Hin) as [x' Hx']. exists x'. by right.
    - split; [done|]. intros e' Hin. destruct (H2 e' Hin) as [x' Hx']. exists x'. by right. }
  apply Hnd. rewrite map_range_perm. apply NoDup_fst_map_to_list.
- intros e. rewrite list_elem_of_omap. split.
  + intros ([k x] & Hx & Hg). unfold g in Hg. cbn in Hg. destruct k as [i| | |]; try done. destruct (s !! i) as [e0|] eqn:Hi; [|done].
    destruct (live (ex_DeletedAt e0)) eqn:Hl; [|done]. injection Hg as ->. by destruct (Hholds i e Hi Hl) as [-> _].
  + intros [Hi Hl]. exists (RowExpense (ex_ID e), ValExpense (expense_columns e)). split.
    * rewrite map_range_perm. apply elem_of_map_to_list. by rewrite Hrows, Hi, Hl.
    * unfold g. cbn. by rewrite Hi, Hl.
Qed.
End Refinement.

(** ** The relations of what was scanned *)

Section Reads.
Context `{GoRuntime} (violates : expenseRow → expenseValue → option error).
Context (numeric : string → error + string) (ilike : string → string → bool).

Lemma range_rows_nodup (m : expenseDB) : NoDup (map_range m).
Proof using Type. rewrite map_range_perm. apply NoDup_map_to_list. Qed.
Lemma range_rows (m : expenseDB) k x : (k, x) ∈ map_range m ↔ m !! k = Some x.
Proof using Type. rewrite map_range_perm. apply elem_of_map_to_list. Qed.

Lemma tags_found rows id tags : NoDup tags → (∀ t, rows !! RowTag id t = if decide (t ∈ tags) then Some ValTag else None) →
  tags_in rows id ≡ₚ tags.
Proof using Type.
intros Hnd Hrows. unfold tags_in. apply NoDup_Permutation; [|done|].
- apply omap_nodup; [apply range_rows_nodup|]. intros [k1 x1] [k2 x2] t H1 H2 Hk1 Hk2. cbn in *.
  destruct k1 as [|i1 t1| |], k2 as [|i2 t2| |]; try done.
  destruct (String.eqb_spec i1 id) as [->|]; [|done]. destruct (String.eqb_spec i2 id) as [->|]; [|done].
  injection Hk1 as ->. injection Hk2 as ->. apply range_rows in H1, H2. by simplify_eq.
- intros t. rewrite list_elem_of_omap. split.
  + intros ([k x] & Hin & Hk). cbn in Hk. destruct k as [|i t'| |]; try done. destruct (String.eqb_spec i id) as [->|]; [|done].
    injection Hk as ->. apply range_rows in Hin. rewrite Hrows in Hin. by destruct (decide (t ∈ tags)).
  + intros Ht. exists (RowTag id t, ValTag). cbn. rewrite eqs_refl. split; [|done]. apply range_rows. by rewrite Hrows, decide_True.
Qed.

Lemma imap_pairs_elem {A} (l : list A) p x : (p, x) ∈ imap (λ i y, (Z.of_nat i, y)) l ↔ 0 ≤ p ∧ l !! Z.to_nat p = Some x.
Proof using Type.
rewrite elem_of_lookup_imap. split.
- intros (i & y & [= -> ->] & Hy). rewrite Nat2Z.id. split; [lia|done].
- intros [Hp Hl]. exists (Z.to_nat p), x. split; [|done]. by rewrite Z2Nat.id.
Qed.

Lemma items_found rows e : (∀ p, rows !! RowItem (ex_ID e) p = ValItem <$> item_at e p) → items_in rows (ex_ID e) = ex_Items e.
Proof using Type.
intros Hrows. unfold items_in. set (found := omap _ _). set (less := λ x y, _). set (pairs := imap (λ i y, (Z.of_nat i, y)) (ex_Items e)).
assert (∀ x, x ∈ pairs ↔ 0 ≤ x.1 ∧ ex_Items e !! Z.to_nat x.1 = Some x.2) as Hpairs by (intros []; apply imap_pairs_elem).
assert (found ≡ₚ pairs) as Hp.
{ apply NoDup_Permutation.
  - apply omap_nodup; [apply range_rows_nodup|]. intros [k1 x1] [k2 x2] b H1 H2 Hk1 Hk2.
    destruct k1 as [| |i1 p1|], x1 as [| |y1|]; try done. destruct k2 as [| |i2 p2|], x2 as [| |y2|]; try done.
    destruct (String.eqb_spec i1 (ex_ID e)) as [->|]; [|done]. destruct (String.eqb_spec i2 (ex_ID e)) as [->|]; [|done]. by simplify_eq.
  - apply NoDup_alt. intros i j [p x]. unfold pairs. rewrite !list_lookup_imap_Some. intros (y & _ & [= -> ->]) (z & _ & [= Hz _]). lia.
  - intros [p x]. unfold found. rewrite Hpairs, list_elem_of_omap. cbn. split.
    + intros ([k y] & Hin & Hk). destruct k as [| |i q|], y as [| |item|]; try done. destruct (String.eqb_spec i (ex_ID e)) as [->|]; [|done].
      injection Hk as -> ->. apply range_rows in Hin. rewrite Hrows in Hin. unfold item_at in Hin. destruct (Z.ltb_spec p 0); [done|].
      split; [done|]. destruct (ex_Items e !! Z.to_nat p); [|done]. by injection Hin as ->.
    + intros [Hp Hx]. exists (RowItem (ex_ID e) p, ValItem x). cbn. rewrite eqs_refl. split; [|done]. apply range_rows. rewrite Hrows.
      unfold item_at. destruct (Z.ltb_spec p 0); [lia|]. by rewrite Hx. }
assert (sort_slice less found = pairs) as ->.
{ symmetry. apply (sorted_perm_eq less less).
  - by rewrite sort_slice_perm.
  - unfold pairs, sorted_by. assert (∀ (l : list ExpenseItem) n, StronglySorted (λ x y : Z * ExpenseItem, less y x = false) (imap (λ i y, (Z.of_nat (n + i), y)) l)) as Hl.
    { intros l. induction l as [|x l IH]; intros n; cbn; constructor.
      - rewrite (imap_ext _ (λ i y, (Z.of_nat (S n + i), y))); [apply IH|]. intros i y _. cbn. f_equal. lia.
      - apply Forall_forall. intros [q y] (i & z & [= -> ->] & _)%elem_of_lookup_imap. unfold less. apply Z.ltb_ge. cbn [fst]. lia. }
    apply (Hl _ 0%nat).
  - apply sort_slice_sorted. split; [|split]; unfold less; intros; lia.
  - done.
  - intros [p x] [q y] Hx Hy. rewrite Hpairs in Hx, Hy. unfold less. cbn in *. intros. assert (p = q) as -> by lia. destruct Hx as [_ Hx], Hy as [_ Hy]. by simplify_eq. }
unfold pairs. clear. generalize 0%nat. assert (∀ n, map snd (imap (λ i y, (Z.of_nat (n + i), y)) (ex_Items e)) = ex_Items e) as Hl; [|intros _; apply (Hl 0%nat)].
induction (ex_Items e) as [|x l IH]; intros n; [done|]. cbn. f_equal. etrans; [|apply (IH (S n))]. f_equal. apply imap_ext. intros i y _. cbn. f_equal. lia.
Qed.

Lemma relations_loaded v s es : mirrors numeric v s → (∀ e, e ∈ es → s !! ex_ID e = Some e ∧ live (ex_DeletedAt e) = true) →
  ∃ l, view_run (loadRelations (map scanned es)) v = (v, inr l) ∧ Forall2 same_but_tags l es.
Proof using Type.
intros Hm Hes. destruct es as [|e0 es]; [exists []; split; [done|constructor]|]. set (all := e0 :: es) in *.
change (loadRelations (map scanned all)) with (let ids := map ex_ID (map scanned all) in
  select (λ k _, match k with RowTag e _ => str_in e ids | _ => false end) (λ tags : expenseDB,
  select (λ k _, match k with RowItem e _ => str_in e ids | _ => false end) (λ items : expenseDB,
    mret (M := expenseTx) (map (λ e, e <| ex_TagIDs := tags_in tags (ex_ID e) |> <| ex_Items := items_in items (ex_ID e) |>) (map scanned all))))).
cbv zeta. rewrite !view_run_select. eexists. split; [done|]. rewrite map_map.
assert (∀ e, e ∈ all → str_in (ex_ID e) (map ex_ID (map scanned all)) = true) as Hids.
{ intros e He. apply str_in_spec. rewrite map_map. by apply (list_elem_of_fmap_2' (λ e, ex_ID (scanned e)) _ e). }
assert (∀ l, (∀ e, e ∈ l → e ∈ all) → Forall2 same_but_tags (map (λ x, (scanned x) <| ex_TagIDs := tags_in (visible (λ k _, match k with RowTag e _ => str_in e (map ex_ID (map scanned all)) | _ => false end) v) (ex_ID (scanned x)) |>
  <| ex_Items := items_in (visible (λ k _, match k with RowItem e _ => str_in e (map ex_ID (map scanned all)) | _ => false end) v) (ex_ID (scanned x)) |>) l) l) as Hl; [|by apply Hl].
intros l. induction l as [|e l IH]; intros Hl; constructor; [|apply IH; intros; apply Hl; by right].
assert (e ∈ all) as He by (apply Hl; by left). destruct (Hes e He) as [Hs Hlive]. pose proof (mr_row _ _ _ Hm (ex_ID e)) as Hrow. rewrite Hs, Hlive in Hrow.
destruct Hrow as (_ & _ & Hf & _ & Ht & Hi). change (ex_ID (scanned e)) with (ex_ID e). rewrite items_found.
- apply (scanned_loaded numeric); [done|]. apply tags_found; [apply (fc_tags _ _ Hf)|]. intros t. rewrite lookup_visible. unfold seen. rewrite Ht, Hids by done.
  by destruct (decide _).
- intros p. rewrite lookup_visible. unfold seen. rewrite Hi, Hids by done. by destruct (item_at e p).
Qed.
End Reads.
