(* ===== verification/PgExpenseRefinement.v ===== *)
(** * The PostgreSQL expenses against the in-memory ones

    Run one after the other, the methods of postgres/expense_repository.go answer as those
    of memory/expense_repository.go do ([pg_expenses_refine_memory]), for expenses as the
    columns keep them: the joined name of the category, distinct tags, quantities the
    database has written, times in microseconds. *)

From S2P Require Export PgExpenses.
#[global] Open Scope Z_scope.

(** ** Filters *)

Lemma filter_elem {A} (f : A → bool) l x : x ∈ List.filter f l ↔ x ∈ l ∧ f x = true.
Proof. by rewrite list_elem_of_In, filter_In, <- list_elem_of_In. Qed.
Lemma filter_nodup {A} (f : A → bool) l : NoDup l → NoDup (List.filter f l).
Proof. rewrite !NoDup_ListNoDup. apply List.NoDup_filter. Qed.
Lemma filter_map_ext {A B} (f : B → bool) (g : A → B) (h : A → bool) l : (∀ x, x ∈ l → f (g x) = h x) →
  List.filter f (map g l) = map g (List.filter h l).
Proof.
induction l as [|x l IH]; intros Hl; [done|]. cbn. rewrite Hl by (by left). rewrite IH by (intros y Hy; apply Hl; by right). by destruct (h x).
Qed.

Lemma distinct_elem x l : x ∈ distinct l ↔ x ∈ l ∧ x ≠ "".
Proof.
unfold distinct. assert (∀ seen, x ∈ distinct_from seen l ↔ x ∈ l ∧ x ≠ "" ∧ x ∉ seen) as Hl.
{ induction l as [|y l IH]; intros seen; cbn; [split; [by intros ?%not_elem_of_nil|intros [?%not_elem_of_nil _]; done]|].
  rewrite elem_of_cons. destruct (String.eqb_spec y "") as [->|Hy]; cbn; [rewrite IH; naive_solver|].
  destruct (str_in y seen) eqn:Hin.
  - apply str_in_spec in Hin. rewrite IH. naive_solver.
  - assert (y ∉ seen) as Hn by (intros Hy'; apply str_in_spec in Hy'; congruence). rewrite elem_of_cons, IH, not_elem_of_cons.
    destruct (decide (x = y)) as [->|]; naive_solver. }
rewrite Hl. split; [naive_solver|]. intros []. split; [done|]. split; [done|apply not_elem_of_nil].
Qed.

Lemma forallb_elems {A} (f : A → bool) l : forallb f l = true ↔ ∀ x, x ∈ l → f x = true.
Proof. rewrite forallb_forall. by setoid_rewrite list_elem_of_In. Qed.

Lemma forallb_distinct f l : "" ∉ l → forallb f (distinct l) = forallb f l.
Proof.
intros Hl. apply eq_true_iff_eq. rewrite !forallb_elems. split; intros Hall x Hx; apply Hall.
- apply distinct_elem. split; [done|congruence].
- by apply distinct_elem in Hx as [].
Qed.

Lemma sorted_by_map {A B} (less : B → B → bool) (g : A → B) l : sorted_by less (map g l) → sorted_by (λ x y, less (g x) (g y)) l.
Proof.
unfold sorted_by. induction l as [|x l IH]; cbn; intros Hs; [constructor|]. apply StronglySorted_inv in Hs as [Hs Hx].
constructor; [by apply IH|]. by apply Forall_map in Hx.
Qed.

Lemma page {A W} (l : list A) limit offset (w : W) : 0 ≤ limit → 0 ≤ offset → offset + limit ≤ max_int64 →
  (let n := Z.of_nat (length l) in
   let start := Z.min offset n in
   slice_between start (Z.min (wrap64 (start + limit)) n) l w) = (w, inr (take (Z.to_nat limit) (drop (Z.to_nat offset) l))).
Proof.
intros Hl Ho Hb. cbv zeta. set (n := Z.of_nat (length l)). rewrite wrap64_id by (unfold is_int64, min_int64, max_int64 in *; lia).
unfold slice_between. fold n. assert ((0 <=? Z.min offset n) && (Z.min offset n <=? Z.min (Z.min offset n + limit) n) && (Z.min (Z.min offset n + limit) n <=? n) = true) as -> by lia.
unfold mret, M_ret. do 2 f_equal. destruct (Z.leb_spec offset n).
- rewrite (Z.min_l offset n) by done. destruct (Z.leb_spec (offset + limit) n).
  + rewrite Z.min_l by done. f_equal. lia.
  + rewrite Z.min_r by lia. rewrite !take_ge; [done|rewrite length_drop; lia..].
- rewrite (Z.min_r offset n) by lia. rewrite !drop_ge by lia. by rewrite !take_nil.
Qed.

Section Answers.
Context `{GoRuntime} (violates : expenseRow → expenseValue → option error).
Context (numeric : string → error + string) (ilike : string → string → bool).

(** ** One expense *)

Definition live_of (s : gmap string ExpenseRecord) (es : list ExpenseRecord) : Prop :=
  NoDup (map ex_ID es) ∧ ∀ e, e ∈ es ↔ s !! ex_ID e = Some e ∧ live (ex_DeletedAt e) = true.

Lemma mirrors_id v s id e : mirrors numeric v s → s !! id = Some e → live (ex_DeletedAt e) = true → ex_ID e = id ∧ fits_columns numeric e.
Proof using Type. intros Hm Hs Hl. pose proof (mr_row _ _ _ Hm id) as Hrow. rewrite Hs, Hl in Hrow. destruct Hrow as (H1 & _ & H3 & _). done. Qed.

Lemma filter_one v s id (c : ExpenseRecord → bool) es : mirrors numeric v s → live_of s es →
  List.filter (λ e, (ex_ID e =s id) && c e) es = match s !! id with Some e => if live (ex_DeletedAt e) && c e then [e] else [] | None => [] end.
Proof using Type.
intros Hm [Hnd Hes]. set (r := match s !! id with Some _ => _ | None => _ end).
assert (List.filter (λ e, (ex_ID e =s id) && c e) es ≡ₚ r) as Hp.
{ apply NoDup_Permutation.
  - apply filter_nodup. by apply (NoDup_fmap_1 ex_ID).
  - unfold r. repeat case_match; constructor; by (apply not_elem_of_nil || constructor).
  - intros e. rewrite filter_elem, Hes, andb_true_iff. unfold r. split.
    + intros ([Hs Hl] & Hid & Hc). destruct (String.eqb_spec (ex_ID e) id) as [<-|]; [|done]. rewrite Hs, Hl, Hc. by left.
    + destruct (s !! id) as [e0|] eqn:Hs; [|by intros ?%not_elem_of_nil]. destruct (live (ex_DeletedAt e0)) eqn:Hl; [|by intros ?%not_elem_of_nil].
      destruct (c e0) eqn:Hc; [|by intros ?%not_elem_of_nil]. intros ->%list_elem_of_singleton. destruct (mirrors_id v s id e0 Hm Hs Hl) as [<- _].
      by rewrite eqs_refl. }
unfold r in *. repeat case_match; try (symmetry in Hp; by apply Permutation_nil in Hp). symmetry in Hp. by apply Permutation_length_1_inv in Hp.
Qed.

Lemma load_one_run v s e : mirrors numeric v s → s !! ex_ID e = Some e → live (ex_DeletedAt e) = true →
  ∃ e', view_run (load_one [scanned e]) v = (v, inr e') ∧ same_but_tags e' e.
Proof using Type.
intros Hm Hs Hl. destruct (relations_loaded numeric v s [e] Hm) as (l & Hrun & Hall); [by intros e' ->%list_elem_of_singleton|].
cbn [map] in Hrun. unfold load_one. rewrite view_run_bind. unfold mbind, M_bind. rewrite Hrun.
inversion Hall as [|e' e0 l' es He' Hl']; subst. by exists e'.
Qed.

Lemma one_found v s (test c : ExpenseRecord → bool) id : mirrors numeric v s → (∀ e, test (scanned e) = (ex_ID e =s id) && c e) →
  match s !! id with
  | Some e => if live (ex_DeletedAt e) && c e
              then ∃ e', view_run (select_expenses (λ _, test) load_one) v = (v, inr e') ∧ same_but_tags e' e
              else ∃ err, view_run (select_expenses (λ _, test) load_one) v = (v, inl err)
  | None => ∃ err, view_run (select_expenses (λ _, test) load_one) v = (v, inl err)
  end.
Proof using Type.
intros Hm Htest. unfold select_expenses. rewrite view_run_select. set (reads := λ k x, _).
destruct (scan_mirrors numeric v s reads Hm) as (es & -> & Hlive); [done..|].
rewrite (filter_map_ext test scanned (λ e, (ex_ID e =s id) && c e)) by (intros; apply Htest). rewrite (filter_one v s) by done.
destruct (s !! id) as [e|] eqn:Hs; [|by eexists]. destruct (live (ex_DeletedAt e)) eqn:Hl; [|by eexists]. destruct (c e); [|by eexists].
cbn [andb map]. destruct (mirrors_id v s id e Hm Hs Hl) as [<- _]. by apply (load_one_run v s).
Qed.

(** ** Lists *)

(** A filter both repositories read alike: no tie between what it lists, nothing in the
    query that [ilike] reads as a wildcard and the text search does not. *)
Record sane_filter (s : gmap string ExpenseRecord) (filter : ExpenseListFilter) : Prop := {
  sf_query : lf_Query filter = "" ∨ (ToLower (TrimSpace (lf_Query filter)) ≠ "" ∧
    ∀ t, ilike ("%" +:+ lf_Query filter +:+ "%") t = Contains (ToLower t) (ToLower (TrimSpace (lf_Query filter))));
  sf_from : pg_time (lf_From filter) = lf_From filter;
  sf_to : pg_time (lf_To filter) = lf_To filter;
  sf_tags : "" ∉ lf_TagIDs filter;
  sf_page : 0 ≤ lf_Limit filter ∧ 0 ≤ lf_Offset filter ∧ lf_Offset filter + lf_Limit filter ≤ max_int64;
  sf_untied e e' : s !! ex_ID e = Some e → s !! ex_ID e' = Some e' → expense_listed filter e = true → expense_listed filter e' = true →
    list_key filter e = list_key filter e' → e = e'
}.

Lemma matches_listed s filter (rows : expenseDB) e : sane_filter s filter → fits_columns numeric e →
  (∀ t, rows !! RowTag (ex_ID e) t = if decide (t ∈ ex_TagIDs e) then Some ValTag else None) →
  pg_matches ilike filter (λ i t, bool_decide (is_Some (rows !! RowTag i t))) (scanned e) = expense_listed filter e.
Proof using Type.
intros Hf [_ Ho _ _ _ _ Hlive] Ht. unfold pg_matches, expense_listed, matchesExpense. rewrite Hlive. cbn [live].
change (ex_OwnerID (scanned e)) with (ex_OwnerID e). change (ex_SharedGroupID (scanned e)) with (ex_SharedGroupID e).
change (ex_Title (scanned e)) with (ex_Title e). change (ex_CategoryName (scanned e)) with (ex_CategoryName e).
change (ex_CategoryID (scanned e)) with (ex_CategoryID e). change (ex_ID (scanned e)) with (ex_ID e).
change (ex_OccurredAt (scanned e)) with (pg_time (ex_OccurredAt e)). rewrite Ho, (sf_from _ _ Hf), (sf_to _ _ Hf), forallb_distinct by apply Hf.
assert (forallb (λ t, bool_decide (is_Some (rows !! RowTag (ex_ID e) t))) (lf_TagIDs filter) =
  forallb (λ wanted, str_in wanted (ex_TagIDs e)) (lf_TagIDs filter)) as ->.
{ induction (lf_TagIDs filter) as [|t l IH]; [done|]. cbn. rewrite IH. f_equal. rewrite Ht. apply eq_true_iff_eq. rewrite str_in_spec, bool_decide_eq_true. destruct (decide (t ∈ ex_TagIDs e)); [|done]. split; [done|by eexists]. }
rewrite andb_true_r. rewrite <- !andb_assoc. f_equal. f_equal; [|f_equal; [|f_equal; [|f_equal]]].
- destruct (sf_query _ _ Hf) as [->|[Hq Hi]]; [done|]. rewrite !Hi. destruct (String.eqb_spec (lf_Query filter) "") as [He|He]; [by rewrite He in Hq|].
  rewrite (eqs_ne _ _ Hq). cbn. by rewrite <- negb_orb, negb_involutive.
- by destruct (lf_CategoryID filter =s ""), (ex_CategoryID e =s lf_CategoryID filter).
- unfold Before. destruct (IsZero (lf_From filter)); [done|]. cbn. by rewrite Z.ltb_antisym, negb_involutive.
- unfold Before. destruct (IsZero (lf_To filter)); [done|]. cbn. by rewrite negb_involutive.
Qed.
Lemma before_scanned filter x y : fits_columns numeric x → fits_columns numeric y →
  pg_before filter (scanned x) (scanned y) = pg_before filter x y.
Proof using Type.
intros Hx Hy. assert (∀ e, fits_columns numeric e → list_key filter (scanned e) = list_key filter e) as Hk.
{ intros e He. unfold list_key. change (ex_OccurredAt (scanned e)) with (pg_time (ex_OccurredAt e)). by rewrite (fc_occurred _ _ He). }
unfold pg_before. by rewrite !Hk.
Qed.

Lemma before_strict filter : strict_weak (pg_before filter).
Proof using Type.
destruct string_less_strict as (Hi & Ht & Hn). unfold pg_before. split; [|split].
- intros x. by rewrite Z.ltb_irrefl, Hi, andb_false_r.
- intros x y z. destruct (Z.ltb_spec (list_key filter y) (list_key filter x)), (Z.ltb_spec (list_key filter z) (list_key filter y)),
    (Z.ltb_spec (list_key filter z) (list_key filter x)), (Z.eqb_spec (list_key filter y) (list_key filter x)),
    (Z.eqb_spec (list_key filter z) (list_key filter y)), (Z.eqb_spec (list_key filter z) (list_key filter x)); try done; try lia. apply Ht.
- intros x y z. destruct (Z.ltb_spec (list_key filter y) (list_key filter x)), (Z.ltb_spec (list_key filter z) (list_key filter y)),
    (Z.ltb_spec (list_key filter z) (list_key filter x)), (Z.eqb_spec (list_key filter y) (list_key filter x)),
    (Z.eqb_spec (list_key filter z) (list_key filter y)), (Z.eqb_spec (list_key filter z) (list_key filter x)); try done; try lia. apply Hn.
Qed.

Definition memory_less (filter : ExpenseListFilter) (x y : ExpenseRecord) : bool :=
  if lf_SortBy filter =s ExpenseSortAmount then ex_AmountMinor y <? ex_AmountMinor x else After (ex_OccurredAt x) (ex_OccurredAt y).
Lemma memory_less_key filter x y : memory_less filter x y = (list_key filter y <? list_key filter x).
Proof using Type. unfold memory_less, list_key, After. by destruct (lf_SortBy filter =s ExpenseSortAmount). Qed.

Lemma listed_live filter e : expense_listed filter e = true → live (ex_DeletedAt e) = true.
Proof using Type. unfold expense_listed. rewrite !andb_true_iff. tauto. Qed.

Lemma listed_values v s filter es : mirrors numeric v s → live_of s es →
  range_values (expense_listed filter) s ≡ₚ List.filter (expense_listed filter) es.
Proof using Type.
intros Hm [Hnd Hes]. apply NoDup_Permutation; [|apply filter_nodup; by apply (NoDup_fmap_1 ex_ID)|].
- rewrite range_values_perm, (filter_map_ext _ snd (λ x, expense_listed filter x.2)) by done. apply NoDup_fmap_2_strong.
  + intros [k1 x1] [k2 x2] [H1%elem_of_map_to_list L1]%filter_elem [H2%elem_of_map_to_list L2]%filter_elem Heq. cbn in *. subst x2.
    apply listed_live in L1. destruct (mirrors_id v s k1 x1 Hm H1 L1) as [<- _], (mirrors_id v s k2 x1 Hm H2 L1) as [<- _]. done.
  + apply filter_nodup, NoDup_map_to_list.
- intros e. rewrite range_values_elem, filter_elem, Hes. split.
  + intros [Ht [k Hk]]. pose proof (listed_live _ _ Ht) as Hl. destruct (mirrors_id v s k e Hm Hk Hl) as [<- _]. done.
  + intros [[Hs _] Ht]. split; [done|by eexists].
Qed.

(** The rows in the order of the query are the values in the order of the sort. *)
Lemma found_sorted v s filter es : mirrors numeric v s → live_of s es → sane_filter s filter →
  sort_slice (pg_before filter) (map scanned (List.filter (expense_listed filter) es)) =
  map scanned (sort_slice (memory_less filter) (range_values (expense_listed filter) s)).
Proof using Type.
intros Hm Hes Hf. set (fl := List.filter _ _). set (ml := sort_slice (memory_less filter) _).
destruct (Permutation_map_inv scanned fl (sort_slice_perm (pg_before filter) (map scanned fl))) as (l0 & Hfound & Hp).
pose proof (sort_slice_sorted (pg_before filter) (map scanned fl) (before_strict filter)) as Hs1. rewrite Hfound in Hs1 |- *. f_equal.
assert (∀ x, x ∈ l0 → s !! ex_ID x = Some x ∧ fits_columns numeric x ∧ expense_listed filter x = true) as Hin.
{ intros x Hx. rewrite <- Hp in Hx. unfold fl in Hx. rewrite filter_elem in Hx. destruct Hx as [Hx Ht]. apply Hes in Hx as [Hs Hl].
  split; [done|]. split; [|done]. by apply (mirrors_id v s (ex_ID x)). }
apply sorted_by_map in Hs1. apply (sorted_perm_eq (λ x y, pg_before filter (scanned x) (scanned y)) (memory_less filter)).
- unfold ml. rewrite sort_slice_perm, (listed_values v s filter es Hm Hes). by symmetry.
- done.
- apply sort_slice_sorted. split; [|split]; intros *; rewrite !memory_less_key; lia.
- intros x y Hx Hy. destruct (Hin x Hx) as (H1 & H2 & H3), (Hin y Hy) as (H4 & H5 & H6). rewrite memory_less_key, before_scanned by done.
  unfold pg_before. destruct (Z.eqb_spec (list_key filter y) (list_key filter x)) as [He|]; [|by rewrite orb_false_r].
  rewrite (sf_untied _ _ Hf y x) by done. by rewrite (proj1 string_less_strict), andb_false_r, orb_false_r.
- intros x y Hx Hy. destruct (Hin x Hx) as (H1 & H2 & H3), (Hin y Hy) as (H4 & H5 & H6). rewrite !before_scanned by done. unfold pg_before.
  intros [Hl1 _]%orb_false_iff [Hl2 _]%orb_false_iff. apply (sf_untied _ _ Hf); try done. lia.
Qed.

Lemma list_run v s filter : mirrors numeric v s → sane_filter s filter →
  ∃ l l', view_run (pg_ListExpenses ilike filter) v = (v, inr l) ∧ memory_ListExpenses filter s = (s, inr l') ∧ Forall2 same_but_tags l l'.
Proof using Type.
intros Hm Hf. destruct (sf_page _ _ Hf) as (Hl & Ho & Hb).
set (ml := sort_slice (memory_less filter) (range_values (expense_listed filter) s)).
set (paged := take (Z.to_nat (lf_Limit filter)) (drop (Z.to_nat (lf_Offset filter)) ml)).
assert (∀ e, e ∈ paged → s !! ex_ID e = Some e ∧ live (ex_DeletedAt e) = true) as Hpaged.
{ intros e Hin. assert (e ∈ ml) as He.
  { rewrite <- (take_drop (Z.to_nat (lf_Offset filter)) ml), elem_of_app. right.
    rewrite <- (take_drop (Z.to_nat (lf_Limit filter)) (drop _ _)), elem_of_app. by left. }
  unfold ml in He. rewrite sort_slice_perm in He.
  apply range_values_elem in He as [Ht [k Hk]]. pose proof (listed_live _ _ Ht) as Hlive. destruct (mirrors_id v s k e Hm Hk Hlive) as [<- _]. done. }
destruct (relations_loaded numeric v s paged Hm Hpaged) as (l & Hrun & Hall). exists l, paged. split; [|split; [|done]].
- unfold pg_ListExpenses. rewrite view_run_select. match goal with |- context [visible ?r v] => set (reads := r) end. destruct (scan_mirrors numeric v s reads Hm) as (es & -> & Hnd & Hes); [done..|].
  rewrite (filter_map_ext _ scanned (expense_listed filter)).
  + rewrite (found_sorted v s) by done. fold ml. destruct (lf_Limit filter <? 0) eqn:?; [lia|]. destruct (lf_Offset filter <? 0) eqn:?; [lia|]. cbn [orb].
    by rewrite skipn_map, firstn_map.
  + intros e He. apply Hes in He as [Hs Hlive]. pose proof (mr_row _ _ _ Hm (ex_ID e)) as Hrow. rewrite Hs, Hlive in Hrow. destruct Hrow as (_ & _ & Hfits & _ & Ht & _).
    apply (matches_listed s); [done|done|]. intros t. rewrite lookup_visible, Ht. by destruct (decide _).
- unfold memory_ListExpenses. change (λ x y, if lf_SortBy filter =s ExpenseSortAmount then _ else _) with (memory_less filter).
  unfold mbind, M_bind, gets. by apply page.
Qed.
End Answers.

(** ** Calls and their answers *)

Inductive expenseCall :=
  | CallCreate (e : ExpenseRecord) | CallUpdate (e : ExpenseRecord) | CallDelete (now : Time) (ownerID expenseID : string)
  | CallGet (ownerID expenseID : string) | CallVisible (viewerID expenseID : string) (groups : list string) | CallList (filter : ExpenseListFilter).

Section Calls.
Context `{GoRuntime} (violates : expenseRow → expenseValue → option error).
Context (numeric : string → error + string) (ilike : string → string → bool).

Definition pg_call (c : expenseCall) : expenseTx (list ExpenseRecord) :=
  match c with
  | CallCreate e => _ ← pg_CreateExpense violates numeric e; mret []
  | CallUpdate e => _ ← pg_UpdateExpense violates numeric e; mret []
  | CallDelete now ownerID expenseID => _ ← pg_DeleteExpense now ownerID expenseID; mret []
  | CallGet ownerID expenseID => e ← pg_GetExpense ownerID expenseID; mret [e]
  | CallVisible viewerID expenseID groups => e ← pg_GetExpenseVisible viewerID expenseID groups; mret [e]
  | CallList filter => pg_ListExpenses ilike filter
  end.
Definition memory_call (c : expenseCall) : M (gmap string ExpenseRecord) (list ExpenseRecord) :=
  match c with
  | CallCreate e => _ ← memory_CreateExpense e; mret []
  | CallUpdate e => _ ← memory_UpdateExpense e; mret []
  | CallDelete _ ownerID expenseID => _ ← memory_DeleteExpense ownerID expenseID; mret []
  | CallGet ownerID expenseID => e ← memory_GetExpense ownerID expenseID; mret [e]
  | CallVisible viewerID expenseID groups => e ← memory_GetExpenseVisible viewerID expenseID groups; mret [e]
  | CallList filter => memory_ListExpenses filter
  end.

(** Each call in a transaction of its own; the answers in order. *)
Fixpoint answers {W} (exec : expenseCall → M W (list ExpenseRecord)) (calls : list expenseCall) (w : W) : W * list (error + list ExpenseRecord) :=
  match calls with
  | [] => (w, [])
  | c :: calls => let '(w', a) := exec c w in let '(w'', l) := answers exec calls w' in (w'', a :: l)
  end.
Definition pg_answers := answers (λ c, Within (pg_call c)).
Definition memory_answers := answers memory_call.

(** What the service passes: expenses the columns keep, with the name of their category;
    an update keeps the owner and the time of creation of a live expense. *)
Definition sane_call (v : expenseDB) (s : gmap string ExpenseRecord) (c : expenseCall) : Prop :=
  match c with
  | CallCreate e => fits_columns numeric e ∧ accepted violates e ∧ named v e
  | CallUpdate e => fits_columns numeric e ∧ accepted violates e ∧ named v e ∧
      ∀ old, s !! ex_ID e = Some old → live (ex_DeletedAt old) = true ∧ ex_OwnerID old = ex_OwnerID e ∧ ex_CreatedAt old = ex_CreatedAt e
  | CallVisible _ _ groups => "" ∉ groups
  | CallList filter => sane_filter ilike s filter
  | CallDelete _ _ _ | CallGet _ _ => True
  end.
Fixpoint sane_calls (v : expenseDB) (calls : list expenseCall) (s : gmap string ExpenseRecord) : Prop :=
  match calls with
  | [] => True
  | c :: calls => sane_call v s c ∧ sane_calls v calls (memory_call c s).1
  end.

Definition same_answer (x y : error + list ExpenseRecord) : Prop :=
  match x, y with inl _, inl _ => True | inr l, inr l' => Forall2 same_but_tags l l' | _, _ => False end.

Definition follows (v : expenseDB) (s : gmap string ExpenseRecord) (c : expenseCall) : Prop :=
  let '(v', a) := Within (pg_call c) v in let '(s', b) := memory_call c s in
  mirrors numeric v' s' ∧ categories_kept v v' ∧ same_answer a b.

Lemma within_then {A} (t : expenseTx A) (f : A → list ExpenseRecord) v :
  Within (a ← t; mret (f a)) v = match Within t v with (v', inr a) => (v', inr (f a)) | (v', inl e) => (v', inl e) end.
Proof using Type. rewrite !Within_view, view_run_bind. unfold mbind, M_bind. by destruct (view_run t v) as [v' [e|a]]. Qed.

Lemma within_read {A} (t : expenseTx A) v r : view_run t v = (v, r) → Within t v = (v, r).
Proof using Type. intros Hr. rewrite Within_view, Hr. by destruct r. Qed.

Lemma create_follows v s e : mirrors numeric v s → sane_call v s (CallCreate e) → follows v s (CallCreate e).
Proof using Type.
intros Hm (Hf & Ha & Hn). unfold follows, pg_call, memory_call. rewrite (within_then _ (λ _, [])). unfold mbind, M_bind, memory_CreateExpense.
pose proof (create_mirrors violates numeric v s e Hm Hf Ha Hn) as Hc. unfold lookup in *. destruct (gmap_lookup (ex_ID e) s) as [old|].
- destruct Hc as [err ->]. by split.
- destruct Hc as (v' & -> & Hm' & Hk). split; [done|]. split; [done|constructor].
Qed.

Lemma update_follows v s e : mirrors numeric v s → sane_call v s (CallUpdate e) → follows v s (CallUpdate e).
Proof using Type.
intros Hm (Hf & Ha & Hn & Hold). unfold follows, pg_call, memory_call. rewrite (within_then _ (λ _, [])). unfold mbind, M_bind, memory_UpdateExpense.
pose proof (update_mirrors violates numeric v s e Hm Hf Ha Hn Hold) as Hc. unfold lookup in *. destruct (gmap_lookup (ex_ID e) s) as [old|].
- destruct Hc as (v' & -> & Hm' & Hk). split; [done|]. split; [done|constructor].
- destruct Hc as [err ->]. by split.
Qed.

Lemma delete_follows v s now ownerID expenseID : mirrors numeric v s → follows v s (CallDelete now ownerID expenseID).
Proof using Type.
intros Hm. unfold follows, pg_call, memory_call. rewrite (within_then _ (λ _, [])). unfold mbind, M_bind, memory_DeleteExpense.
pose proof (delete_mirrors numeric v s now ownerID expenseID Hm) as Hc. destruct (expense_get ownerID expenseID s) as [e|].
- destruct Hc as (v' & -> & Hm' & Hk). split; [done|]. split; [done|constructor].
- destruct Hc as [err ->]. by split.
Qed.

Lemma read_follows v s (t : expenseTx ExpenseRecord) (m : M (gmap string ExpenseRecord) ExpenseRecord) o : mirrors numeric v s →
  m s = match o with Some e => (s, inr e) | None => (s, inl errNotFound) end →
  match o with Some e => ∃ e', view_run t v = (v, inr e') ∧ same_but_tags e' e | None => ∃ err, view_run t v = (v, inl err) end →
  let '(v', a) := Within (e ← t; mret [e]) v in let '(s', b) := (e ← m; mret [e]) s in
  mirrors numeric v' s' ∧ categories_kept v v' ∧ same_answer a b.
Proof using Type.
intros Hm Hr Ho. rewrite (within_then t (λ e, [e])). unfold mbind, M_bind. rewrite Hr. destruct o as [e|].
- destruct Ho as (e' & Hrun & He). rewrite (within_read _ _ _ Hrun). split; [done|]. split; [done|by constructor].
- destruct Ho as [err Hrun]. by rewrite (within_read _ _ _ Hrun).
Qed.

Lemma get_follows v s ownerID expenseID : mirrors numeric v s → follows v s (CallGet ownerID expenseID).
Proof using Type.
intros Hm. apply (read_follows v s _ _ (expense_get ownerID expenseID s)); [done|done|].
pose proof (one_found numeric v s (owned_row ownerID expenseID) (λ e, ex_OwnerID e =s ownerID) expenseID Hm ltac:(done)) as Hone.
rewrite expense_get_lookup. unfold pg_GetExpense. destruct (s !! expenseID) as [e|]; [|done]. rewrite andb_comm. by destruct (_ && _).
Qed.

Lemma visible_follows v s viewerID expenseID groups : mirrors numeric v s → "" ∉ groups → follows v s (CallVisible viewerID expenseID groups).
Proof using Type.
intros Hm Hg. set (c e := (ex_OwnerID e =s viewerID) || ((ex_SharedGroupID e ≠s "") && str_in (ex_SharedGroupID e) groups)).
apply (read_follows v s _ _ (match s !! expenseID with Some e => if live (ex_DeletedAt e) && c e then Some e else None | None => None end)); [done| |].
- unfold memory_GetExpenseVisible. unfold lookup. destruct (gmap_lookup expenseID s) as [e|]; [|done].
  assert (str_in (ex_SharedGroupID e) groups = (ex_SharedGroupID e ≠s "") && str_in (ex_SharedGroupID e) groups) as Hs.
  { destruct (String.eqb_spec (ex_SharedGroupID e) "") as [->|]; [|done]. cbn. destruct (str_in "" groups) eqn:Hin; [|done]. by apply str_in_spec in Hin. }
  unfold c. rewrite <- Hs. by destruct (live (ex_DeletedAt e)), (ex_OwnerID e =s viewerID), (str_in (ex_SharedGroupID e) groups).
- pose proof (one_found numeric v s (λ e, (ex_ID e =s expenseID) && c e) c expenseID Hm ltac:(done)) as Hone.
  unfold pg_GetExpenseVisible. fold c. destruct (s !! expenseID) as [e|]; [|done]. by destruct (_ && _).
Qed.

Lemma call_follows v s c : mirrors numeric v s → sane_call v s c → follows v s c.
Proof using Type.
intros Hm Hs. destruct c; [by apply create_follows|by apply update_follows|by apply delete_follows|by apply get_follows|by apply visible_follows|].
destruct (list_run numeric ilike v s filter Hm Hs) as (l & l' & Hrun & Hmem & Hall). unfold follows, pg_call, memory_call.
by rewrite (within_read _ _ _ Hrun), Hmem.
Qed.

Lemma sane_call_kept v v' s c : categories_kept v v' → sane_call v s c → sane_call v' s c.
Proof using Type. intros Hk. destruct c; cbn; try done; pose proof (named_same v v'); naive_solver. Qed.
Lemma sane_calls_kept v v' calls : categories_kept v v' → ∀ s, sane_calls v calls s → sane_calls v' calls s.
Proof using Type.
intros Hk. induction calls as [|c calls IH]; intros s; [done|]. intros [Hc Hcs]. split; [by apply (sane_call_kept v)|by apply IH].
Qed.

(** [C24] From tables that mirror the store of the in-memory expense repository, a sequence
    of sane calls to the PostgreSQL one gets the same answers (errors where it errs, the
    same expenses in the same order, the tags of each in any order), and leaves the tables
    mirroring the store.  Sane calls write expenses that the columns keep and the database
    accepts, under the name of their category, and update a live expense without changing
    its owner and time of creation; they name no empty group; they list with non-negative
    limits, whole microseconds and no empty tag, without a tie between two expenses they
    list, and with a query in which [ilike] finds what the text search finds. *)
Theorem pg_expenses_refine_memory v s calls : mirrors numeric v s → sane_calls v calls s →
  let '(v', pg) := pg_answers calls v in let '(s', memory) := memory_answers calls s in
  mirrors numeric v' s' ∧ Forall2 same_answer pg memory.
Proof using Type.
revert v s. induction calls as [|c calls IH]; intros v s Hm Hs; [by split|]. destruct Hs as [Hc Hcs].
pose proof (call_follows v s c Hm Hc) as Hf. unfold follows in Hf. unfold pg_answers, memory_answers. cbn [answers].
destruct (Within (pg_call c) v) as [v' a]. destruct (memory_call c s) as [s' b]. destruct Hf as (Hm' & Hk & Hab).
specialize (IH v' s' Hm' (sane_calls_kept v v' calls Hk _ Hcs)). unfold pg_answers, memory_answers in IH.
destruct (answers (λ c, Within (pg_call c)) calls v') as [v'' l]. destruct (answers memory_call calls s') as [s'' l'].
destruct IH as [Hm'' Hl]. split; [done|by constructor].
Qed.
End Calls.

(** ** An example *)

Module Sample.
#[local] Existing Instance default_runtime.

Definition violates (_ : expenseRow) (_ : expenseValue) : option error := None.
Definition numeric (s : string) : error + string := inr s.
Definition ilike (pattern t : string) : bool := Contains (ToLower t) (ToLower (String.substring 1 (String.length pattern - 2) pattern)).

Definition tea : ExpenseRecord :=
  mkExpenseRecord "e1" "ann" "Green tea" 450 "EUR" 86400000000000 "food" "Food" ["t2"; "t1"] ExpenseConfirmed "" [mkExpenseItem "Tea" "2" 225]
    None None "" "" 1000 1000 None.
Definition dearer : ExpenseRecord := tea <| ex_AmountMinor := 500 |> <| ex_TagIDs := ["t1"] |> <| ex_UpdatedAt := 2000 |>.
Definition lunch : ExpenseRecord :=
  mkExpenseRecord "e2" "ann" "Lunch with TEAM" 1200 "EUR" 172800000000000 "" "" [] ExpenseConfirmed "" [] None None "" "" 1000 1000 None.
Definition search : ExpenseListFilter := mkExpenseListFilter "ann" "tea" "" [] [] 0 0 "" 10 0.
Definition calls : list expenseCall :=
  [CallCreate tea; CallCreate tea; CallCreate lunch; CallUpdate dearer; CallList search; CallDelete 3000 "ann" "e2"; CallGet "ann" "e2"; CallVisible "ann" "e1" []].

Definition start : expenseDB := {[RowCategory "food" := ValCategory "Food"]}.

Example pg_expenses_ex :
  map (λ a, match a with inr l => Some (map (λ e, (ex_ID e, ex_AmountMinor e, ex_TagIDs e)) l) | inl _ => None end)
    (pg_answers violates numeric ilike calls start).2 =
  [Some []; None; Some []; Some []; Some [("e2", 1200, []); ("e1", 500, ["t1"])]; Some []; None; Some [("e1", 500, ["t1"])]].
Proof. vm_compute. reflexivity. Qed.

Lemma start_mirrors : mirrors numeric start ∅.
Proof.
split; [|by vm_compute]. intros id. rewrite lookup_empty. unfold start.
split; [by rewrite lookup_singleton_ne|]. split; intros; by rewrite lookup_singleton_ne.
Qed.

Lemma sample_fits : fits_columns numeric tea ∧ fits_columns numeric dearer ∧ fits_columns numeric lunch.
Proof.
split; [|split]; (split; [reflexivity..| | |reflexivity]); cbn; try (split; [|set_solver]); repeat constructor; set_solver.
Qed.

Lemma sample_sane : sane_calls violates numeric ilike start calls ∅.
Proof.
destruct sample_fits as (H1 & H2 & H3).
assert (named start tea ∧ named start dearer ∧ named start lunch) as (N1 & N2 & N3).
{ split; [|split]; (split; [reflexivity|]); intros Hc; first [by destruct Hc | by eexists]. }
split; [done|]. split; [done|]. split; [done|]. split.
{ split; [done|]. split; [done|]. split; [done|]. intros old Hold. vm_compute in Hold. injection Hold as <-. done. }
split; [|split; [done|split; [done|split; [|done]]]; cbn; apply not_elem_of_nil].
split.
- right. split; [vm_compute; discriminate|]. reflexivity.
- reflexivity.
- reflexivity.
- apply not_elem_of_nil.
- cbn. unfold max_int64. lia.
- set (s := (memory_call _ _).1). assert (s = <["e1" := dearer]> {["e2" := lunch]}) as -> by (vm_compute; reflexivity).
  intros e e' He He' _ _. rewrite lookup_insert_Some, lookup_singleton_Some in He, He'.
  destruct He as [[_ <-]|[_ [_ <-]]], He' as [[_ <-]|[_ [_ <-]]]; done.
Qed.
End Sample.

Lemma pg_expenses_refine_memory_witness :
  sane_calls (H := default_runtime) Sample.violates Sample.numeric Sample.ilike Sample.start Sample.calls ∅ ∧
  let '(v', pg) := pg_answers (H := default_runtime) Sample.violates Sample.numeric Sample.ilike Sample.calls Sample.start in
  let '(s', memory) := memory_answers (H := default_runtime) Sample.calls ∅ in
  mirrors Sample.numeric v' s' ∧ Forall2 same_answer pg memory.
Proof. split; [exact Sample.sample_sane|]. exact (pg_expenses_refine_memory (H := default_runtime) _ _ _ _ _ _ Sample.start_mirrors Sample.sample_sane). Defined.
