(* ===== verification/PgOnce.v ===== *)
(** * Rows that are written once

    What a primary key gives transactions of several replicas at READ COMMITTED: when
    every statement that writes a row of some tables finds no row there and reads what it
    would find, those rows are never overwritten, and of the transactions that must write
    one of them at most one commits ([claims_once]).  The posting ledger, the reports and
    the events of the audit trail are claimed this way. *)

From S2P Require Export PgTx.
#[global] Open Scope Z_scope.

Section Programs.
Context {K V : Type} `{Countable K} (once : K → Prop).

(** A statement that writes a row of these tables inserts it: it looks at the row, finds
    none, and writes there whatever else it finds, or nothing at all. *)
Fixpoint writes_once {A} (t : @tx K V _ _ A) : Prop :=
  match t with
  | Ret _ => True
  | Stmt reads st next =>
      (∀ k v ch, once k → (∀ i x, v !! i = Some x → reads i x = true) → st v = inr ch → is_Some (ch !! k) →
         v !! k = None ∧ (∃ x, ch !! k = Some (Some x)) ∧ (∀ x, reads k x = true) ∧
         ∀ v' ch', st v' = inr ch' → ch' = ∅ ∨ is_Some (ch' !! k)) ∧
      ∀ v, writes_once (next v)
  end.

(** It fails, or it writes [x] under [k]. *)
Fixpoint must_write {A} (k : K) (x : V) (t : @tx K V _ _ A) : Prop :=
  match t with
  | Ret (inl _) => True
  | Ret (inr _) => False
  | Stmt reads st next => ∀ v ch, st v = inr ch → ch !! k = Some (Some x) ∨ must_write k x (next v)
  end.

Lemma writes_once_bind {A B} (t : @tx K V _ _ A) (k : A → @tx K V _ _ B) : writes_once t → (∀ a, writes_once (k a)) → writes_once (t ≫= k).
Proof using Type. intros Ht Hk. induction t as [[e|a]|reads st next IH]; [done|apply Hk|]. destruct Ht as [H1 H2]. split; [done|]. intros v. by apply IH. Qed.

Lemma must_write_bind {A B} k x (t : @tx K V _ _ A) (f : A → @tx K V _ _ B) : must_write k x t → must_write k x (t ≫= f).
Proof using Type.
intros Ht. induction t as [[e|a]|reads st next IH]; [done|done|]. intros v ch Hst. destruct (Ht v ch Hst) as [Hk|Hn]; [by left|].
right. by apply IH.
Qed.

Lemma writes_once_map_err {A} f (t : @tx K V _ _ A) : writes_once t → writes_once (tx_map_err f t).
Proof using Type.
induction t as [[e|a]|reads st next IH]; [done..|]. intros [H1 H2]. split; [|intros v; by apply IH].
intros k v ch Hk Hv Hst. destruct (st v) as [e|c] eqn:Hc; [done|]. injection Hst as ->. intros Hi.
destruct (H1 k v ch Hk Hv Hc Hi) as (N & X & R & A'). split; [done|]. split; [done|]. split; [done|].
intros v' ch' Hst'. apply (A' v'). by destruct (st v').
Qed.

Lemma must_write_map_err {A} k x f (t : @tx K V _ _ A) : must_write k x t → must_write k x (tx_map_err f t).
Proof using Type.
induction t as [[e|a]|reads st next IH]; [done..|]. intros Ht v ch Hst. destruct (st v) as [e|c] eqn:Hc; [done|]. injection Hst as ->.
destruct (Ht v ch Hc) as [Hk|Hn]; [by left|right; by apply IH].
Qed.

(** Statements that leave these tables alone. *)
Lemma writes_once_apart {A} reads st (next : _ → @tx K V _ _ A) :
  (∀ v ch k, (∀ i x, v !! i = Some x → reads i x = true) → st v = inr ch → once k → ch !! k = None) →
  (∀ v, writes_once (next v)) → writes_once (Stmt reads st next).
Proof using Type. intros Hst Hn. split; [|done]. intros k v ch Hk Hv Hc [c Hi]. by rewrite (Hst v ch k Hv Hc Hk) in Hi. Qed.

Lemma writes_once_select {A} reads (next : _ → @tx K V _ _ A) : (∀ v, writes_once (next v)) → writes_once (select reads next).
Proof using Type. apply writes_once_apart. intros v ch k _ [= <-] _. apply lookup_empty. Qed.

Lemma writes_once_update {A} matches set_ (next : _ → @tx K V _ _ A) : (∀ k x, once k → matches k x = false) →
  (∀ rows, writes_once (next rows)) → writes_once (update_rows matches set_ next).
Proof using Type.
intros Hm Hn. apply writes_once_apart; [|done]. intros v ch k Hv [= <-] Hk. rewrite lookup_fmap. destruct (v !! k) as [x|] eqn:Hx; [|done].
pose proof (Hv k x Hx) as Hr. by rewrite Hm in Hr.
Qed.

Lemma writes_once_insert rows refs : writes_once (insert_rows (K := K) (V := V) rows refs).
Proof using Type.
split; [|done]. intros k v ch _ _. destruct (existsb _ rows) eqn:Hex; [done|]. destruct (forallb _ refs); [|done]. intros [= <-] Hi.
assert (∀ o, is_Some ((list_to_map (prod_map id Some <$> rows) : gmap K (option V)) !! o) → o ∈ rows.*1 ∧ ∃ x, (list_to_map (prod_map id Some <$> rows) : gmap K (option V)) !! o = Some (Some x)) as Hdom.
{ intros o [c Hc]. pose proof (elem_of_list_to_map_2 _ _ _ Hc) as Hin. apply list_elem_of_fmap in Hin as ([i y] & [= -> ->] & Hk).
  split; [by apply (list_elem_of_fmap_2' fst _ (i, y))|by exists y]. }
destruct (Hdom k Hi) as [Hrow Hx]. split; [|split; [done|split]].
- apply eq_None_not_Some. intros Hv. apply not_true_iff_false in Hex. apply Hex, existsb_exists.
  apply list_elem_of_fmap in Hrow as (row & Hk & Hrow). exists row. split; [by apply list_elem_of_In|]. apply bool_decide_eq_true. by rewrite <- Hk.
- intros x. apply bool_decide_eq_true, elem_of_app. by left.
- intros v' ch'. cbn beta. case_match; [done|]. case_match; [|done]. intros [= <-]. by right.
Qed.

(** [insert ... on conflict do nothing], and what follows when it did nothing. *)
Lemma writes_once_modify {A} k f (next : _ → @tx K V _ _ A) : (∀ row ch, once k → f row = inr (Some ch) → row = None ∧ ∃ x, ch = Some x) →
  (∀ row, writes_once (next row)) → writes_once (modify_row k f next).
Proof using Type.
intros Hf Hn. split; [|intros v; apply Hn]. intros i v ch Hi _ Hst. destruct (f (v !! k)) as [e|[new|]] eqn:Hfv; [done| |].
- injection Hst as <-. intros [c [<- <-]%lookup_singleton_Some]. destruct (Hf _ _ Hi Hfv) as [Hv [x ->]].
  split; [done|]. split; [exists x; apply lookup_singleton_eq|]. split; [intros y; by apply bool_decide_eq_true|].
  intros v' ch'. destruct (f (v' !! k)) as [e|[new'|]]; intros [= <-]; [right; rewrite lookup_singleton_eq; by eexists|by left].
- injection Hst as <-. intros [c Hc]. by rewrite lookup_empty in Hc.
Qed.

Lemma must_write_modify {A} k x f (next : _ → @tx K V _ _ A) : (∀ row ch, f row = inr (Some ch) → ch = Some x) →
  (∀ row, f row = inr None → must_write k x (next row)) → must_write k x (modify_row k f next).
Proof using Type.
intros Hf Hn v ch. cbn. destruct (f (v !! k)) as [e|[new|]] eqn:Hfv; intros [= <-]; [|right; by apply Hn].
left. rewrite lookup_singleton_eq. by rewrite (Hf _ _ Hfv).
Qed.

Lemma must_write_insert k x rows refs : (list_to_map (prod_map id Some <$> rows) : gmap K (option V)) !! k = Some (Some x) →
  must_write k x (insert_rows rows refs).
Proof using Type. intros Hk v ch. cbn. case_match; [done|]. case_match; [|done]. intros [= <-]. by left. Qed.
End Programs.

(** ** In any interleaving *)

Section Claims.
Context {K V : Type} `{Countable K} {L : Type} (program : L → @tx K V _ _ ()) (once : K → Prop).
(** What a task claims, and what it writes there. *)
Context (claims : L → option (K * V)).
Abbreviation changed := (gmap K (option V)).
Abbreviation sess := (@session K V _ _ L).
Abbreviation state := (@txState K V _ _ L).

Hypothesis program_once : ∀ l, writes_once once (program l).
Hypothesis program_claims : ∀ l k x, claims l = Some (k, x) → once k ∧ must_write k x (program l).

Definition claimed_keys (log : list L) : list K := omap (λ l, fst <$> claims l) log.

Record OnceInv (s : state) : Prop := {
  oi_apart : locked_apart (tx_sessions s);
  oi_once n (se : sess) : tx_sessions s !! n = Some se → writes_once once (se_rest se);
  oi_found n (se : sess) keys : tx_sessions s !! n = Some se → se_found se = Some keys →
    match se_rest se with Stmt _ st _ => ∃ v ch, st v = inr ch ∧ ch ≠ ∅ ∧ keys = map fst (map_to_list ch) | Ret _ => True end;
  oi_pend n (se : sess) k : tx_sessions s !! n = Some se → once k → is_Some (se_pend se !! k) →
    tx_db s !! k = None ∧ ∃ x, se_pend se !! k = Some (Some x);
  oi_claims n (se : sess) k x : tx_sessions s !! n = Some se → claims (se_task se) = Some (k, x) →
    se_pend se !! k = Some (Some x) ∨ must_write k x (se_rest se);
  oi_log : NoDup (claimed_keys (tx_log s));
  oi_rows l k x : l ∈ tx_log s → claims l = Some (k, x) → tx_db s !! k = Some x
}.

Lemma OnceInv_delete n s : OnceInv s → OnceInv (mkTxState (tx_db s) (delete n (tx_sessions s)) (tx_log s)).
Proof using Type.
intros [H1 H2 H3 H4 H5 H6 H7]. split; cbn; try done.
- by apply apart_delete.
- intros m se [_ Hm]%lookup_delete_Some. by eapply H2.
- intros m se keys [_ Hm]%lookup_delete_Some. by eapply H3.
- intros m se k [_ Hm]%lookup_delete_Some. by eapply H4.
- intros m se k x [_ Hm]%lookup_delete_Some. by eapply H5.
Qed.

Lemma OnceInv_insert n (se : sess) s : OnceInv s → locked_apart (<[n := se]> (tx_sessions s)) → writes_once once (se_rest se) →
  (∀ keys, se_found se = Some keys →
     match se_rest se with Stmt _ st _ => ∃ v ch, st v = inr ch ∧ ch ≠ ∅ ∧ keys = map fst (map_to_list ch) | Ret _ => True end) →
  (∀ k, once k → is_Some (se_pend se !! k) → tx_db s !! k = None ∧ ∃ x, se_pend se !! k = Some (Some x)) →
  (∀ k x, claims (se_task se) = Some (k, x) → se_pend se !! k = Some (Some x) ∨ must_write k x (se_rest se)) →
  OnceInv (mkTxState (tx_db s) (<[n := se]> (tx_sessions s)) (tx_log s)).
Proof using Type.
intros [H1 H2 H3 H4 H5 H6 H7] Ha Hc Hf Hp Hr. split; cbn; try done.
- intros m s' [[<- <-]|[_ Hm]]%lookup_insert_Some; [done|by eapply H2].
- intros m s' keys [[<- <-]|[_ Hm]]%lookup_insert_Some; [apply Hf|by eapply H3].
- intros m s' k [[<- <-]|[_ Hm]]%lookup_insert_Some; [apply Hp|by eapply H4].
- intros m s' k x [[<- <-]|[_ Hm]]%lookup_insert_Some; [apply Hr|by eapply H5].
Qed.

(** A statement writes one of these rows where its transaction sees none. *)
Lemma once_step {A} reads st (next : _ → @tx K V _ _ A) found (p : changed) db ch k : once k → writes_once once (Stmt reads st next) →
  (∀ keys, found = Some keys → ∃ v ch, st v = inr ch ∧ ch ≠ ∅ ∧ keys = map fst (map_to_list ch)) →
  st (visible (among found reads) (overlay p db)) = inr ch → is_Some (ch !! k) →
  overlay p db !! k = None ∧ ∃ x, ch !! k = Some (Some x).
Proof using Type.
intros Hk [Hc _] Hf Hst Hi. set (v := visible _ _) in *.
assert (∀ i x, v !! i = Some x → reads i x = true) as Hv.
{ intros i x. unfold v. rewrite lookup_visible. unfold seen. destruct (overlay p db !! i) as [y|]; [|done].
  destruct (among found reads i y) eqn:Hr; [|done]. intros [= ->]. unfold among in Hr. destruct found; [by apply andb_true_iff in Hr as [? _]|done]. }
destruct (Hc k v ch Hk Hv Hst Hi) as (Hn & Hx & Hr & Hall). split; [|done].
apply eq_None_not_Some. intros [x Hx']. assert (v !! k = Some x) as Hvx; [|by rewrite Hn in Hvx].
unfold v. rewrite lookup_visible. unfold seen. rewrite Hx'. unfold among. destruct found as [keys|]; [|by rewrite Hr].
destruct (Hf keys eq_refl) as (v' & ch' & Hst' & Hne & ->). destruct (Hall v' ch' Hst') as [->|[c Hcc]]; [done|].
rewrite Hr, bool_decide_true; [done|]. apply (list_elem_of_fmap_2' fst _ (k, c)); [by apply elem_of_map_to_list|done].
Qed.

Lemma waits_changes n (ch : changed) (sessions : gmap nat sess) : waits n ch sessions = true → ch ≠ ∅.
Proof using Type.
intros Hw ->. unfold waits in Hw. apply existsb_exists in Hw as ([m se] & _ & [_ Hx]%andb_true_iff). by rewrite map_to_list_empty in Hx.
Qed.

Lemma OnceInv_next n s : OnceInv s → OnceInv (tx_exec program (TxNext n) s).
Proof using program_claims.
intros Hs. pose proof Hs as [H1 H2 H3 H4 H5 H6 H7]. pose proof (apart_exec program (TxNext n) s H1) as Hap. cbn in *.
destruct (tx_sessions s !! n) as [[l [r|reads st next] p R found]|] eqn:Hn; [done| |done].
pose proof (H2 n _ Hn) as Hc. pose proof (λ keys, H3 n _ keys Hn) as Hf. pose proof (λ k, H4 n _ k Hn) as Hp. pose proof (λ k x, H5 n _ k x Hn) as Hr.
cbn [se_rest se_pend se_found se_task] in *.
set (v := visible _ _) in *. destruct (st v) as [e|ch] eqn:Hst; [by apply OnceInv_delete|].
assert (∀ k, once k → is_Some (ch !! k) → p !! k = None ∧ tx_db s !! k = None ∧ ∃ x, ch !! k = Some (Some x)) as Hch.
{ intros k Hk Hi. destruct (once_step reads st next found p (tx_db s) ch k Hk Hc Hf Hst Hi) as [Ho Hx]. rewrite lookup_overlay in Ho.
  destruct (p !! k) as [c|] eqn:Hpk; [|done]. destruct (Hp k Hk) as [_ [x Hpx]]; [by eexists|]. rewrite Hpk in Hpx. injection Hpx as ->. done. }
destruct (waits n ch (tx_sessions s)) eqn:Hw; apply OnceInv_insert; try done.
- cbn. intros keys. destruct found as [keys'|]; cbn; intros [= <-]; [by apply Hf|]. exists v, ch. split; [done|]. split; [by eapply waits_changes|done].
- by apply Hc.
- cbn. intros k Hk. destruct (ch !! k) as [c|] eqn:Hck.
  + intros _. destruct (Hch k Hk) as (_ & Hdb & x & Hx); [by eexists|]. split; [done|]. exists x. by apply lookup_union_Some_l.
  + rewrite lookup_union_r by done. by apply Hp.
- cbn. intros k x Hcl. destruct (program_claims l k x Hcl) as [Hk _]. destruct (Hr k x Hcl) as [Hpk|Hm].
  + left. rewrite lookup_union_r; [done|]. apply eq_None_not_Some. intros Hi. destruct (Hch k Hk Hi) as [Hpn _]. by rewrite Hpn in Hpk.
  + destruct (Hm v ch Hst) as [Hck|Hmn]; [left; by apply lookup_union_Some_l|by right].
Qed.

Lemma OnceInv_end n s : OnceInv s → OnceInv (tx_exec program (TxEnd n) s).
Proof using program_claims.
intros Hs. pose proof Hs as [H1 H2 H3 H4 H5 H6 H7]. cbn.
destruct (tx_sessions s !! n) as [[l [[e|[]]|reads st next] p R found]|] eqn:Hn; [by apply OnceInv_delete| |done..].
pose proof (λ k, H4 n _ k Hn) as Hp. pose proof (λ k x, H5 n _ k x Hn) as Hr. cbn [se_pend se_task se_rest] in Hp, Hr.
assert (∀ k x, once k → tx_db s !! k = Some x → overlay p (tx_db s) !! k = Some x) as Hmono.
{ intros k x Hk Hx. rewrite lookup_overlay. destruct (p !! k) as [c|] eqn:Hpk; [|done]. destruct (Hp k Hk) as [Hdb _]; [by eexists|]. by rewrite Hdb in Hx. }
split; cbn [tx_db tx_sessions tx_log].
- by apply apart_delete.
- intros m se [_ Hm]%lookup_delete_Some. by eapply H2.
- intros m se keys [_ Hm]%lookup_delete_Some. by eapply H3.
- intros m se k [Hne Hm]%lookup_delete_Some Hk Hse. destruct (H4 m se k Hm Hk Hse) as [Hdb Hx]. split; [|done].
  rewrite lookup_overlay. destruct (p !! k) eqn:Hpk; [|done]. destruct Hne. symmetry. by apply (H1 m n se _ k Hm Hn).
- intros m se k x [_ Hm]%lookup_delete_Some. by eapply H5.
- unfold claimed_keys. rewrite omap_app. cbn. destruct (claims l) as [[k x]|] eqn:Hcl; cbn; [|by rewrite app_nil_r].
  apply NoDup_app. split; [done|]. split; [|apply NoDup_singleton]. intros k' Hin ->%list_elem_of_singleton.
  apply list_elem_of_omap in Hin as (l' & Hl' & Hc'). destruct (claims l') as [[k1 x']|] eqn:Hcl'; [|done]. cbn in Hc'. injection Hc' as ->.
  destruct (program_claims l k x Hcl) as [Hk _]. destruct (Hr k x eq_refl) as [Hpk|[]]. destruct (Hp k Hk) as [Hdb _]; [by eexists|].
  by rewrite (H7 l' k x' Hl' Hcl') in Hdb.
- intros l' k x Hin Hcl. destruct (program_claims _ k x Hcl) as [Hk _]. apply elem_of_app in Hin as [Hin|Hin].
  + apply Hmono; [done|]. by eapply H7.
  + apply list_elem_of_singleton in Hin as ->. destruct (Hr k x Hcl) as [Hpk|[]]. by rewrite lookup_overlay, Hpk.
Qed.

Lemma OnceInv_exec st s : OnceInv s → OnceInv (tx_exec program st s).
Proof using program_claims program_once.
intros Hs. destruct st as [n l|n|n|n]; [|by apply OnceInv_next|by apply OnceInv_end|by apply OnceInv_delete].
pose proof (apart_exec program (TxBegin n l) s (oi_apart _ Hs)) as Hap. cbn in *. destruct (tx_sessions s !! n); [done|].
apply OnceInv_insert; try done; cbn [se_rest se_pend se_task].
- apply program_once.
- intros k _ [x Hx]. by rewrite lookup_empty in Hx.
- intros k x Hcl. right. by apply program_claims.
Qed.

Lemma OnceInv_run db steps : OnceInv (tx_run program steps (tx_start db)).
Proof using program_claims program_once.
unfold tx_run. assert (OnceInv (tx_start db)) as Hs.
{ split; cbn; try done.
  - constructor.
  - by intros l k x ?%not_elem_of_nil. }
revert Hs. generalize (tx_start (L := L) db). induction steps as [|st steps IH]; intros s Hs; [done|]. cbn. by apply IH, OnceInv_exec.
Qed.

Lemma claims_once db steps : let s := tx_run program steps (tx_start db) in
  NoDup (claimed_keys (tx_log s)) ∧ ∀ l k x, l ∈ tx_log s → claims l = Some (k, x) → tx_db s !! k = Some x.
Proof using program_claims program_once. intros s. destruct (OnceInv_run db steps) as [_ _ _ _ _ H6 H7]. done. Qed.
End Claims.

(** ** Rows every task leaves behind

    A task that inserts a row unless it finds one there: once it has committed the row is
    there, written by a task that commits ([ensured_once]). *)

Section Ensured.
Context {K V : Type} `{Countable K} (once : K → Prop).

(** It fails, or it sees or writes a row under [k]. *)
Fixpoint ensures {A} (k : K) (t : @tx K V _ _ A) : Prop :=
  match t with
  | Ret (inl _) => True
  | Ret (inr _) => False
  | Stmt reads st next => ∀ v ch, st v = inr ch → (∃ x, ch !! k = Some (Some x)) ∨ is_Some (v !! k) ∨ ensures k (next v)
  end.
(** What it writes in these tables. *)
Fixpoint writes_of {A} (R : K → V → Prop) (t : @tx K V _ _ A) : Prop :=
  match t with
  | Ret _ => True
  | Stmt reads st next => 
      (∀ v ch k x, once k → (∀ i y, v !! i = Some y → reads i y = true) → st v = inr ch → ch !! k = Some (Some x) → R k x) ∧
      ∀ v, writes_of R (next v)
  end.

Lemma writes_of_modify {A} (R : K → V → Prop) k f (next : option V → @tx K V _ _ A) : (∀ row x, f row = inr (Some (Some x)) → R k x) →
  (∀ row, writes_of R (next row)) → writes_of R (modify_row k f next).
Proof using Type.
intros Hf Hn. split; [|intros v; apply Hn]. intros v ch i x _ _ Hst Hx. destruct (f (v !! k)) as [e|[new|]] eqn:Hfv; [done| |]; injection Hst as <-.
- apply lookup_singleton_Some in Hx as [<- ->]. by eapply Hf.
- by rewrite lookup_empty in Hx.
Qed.
(** Statements that leave these tables alone. *)
Lemma writes_of_apart {A} (R : K → V → Prop) reads st (next : _ → @tx K V _ _ A) :
  (∀ v ch k x, once k → (∀ i y, v !! i = Some y → reads i y = true) → st v = inr ch → ch !! k ≠ Some (Some x)) →
  (∀ v, writes_of R (next v)) → writes_of R (Stmt reads st next).
Proof using Type. intros Hst Hn. split; [|done]. intros v ch k x Hk Hv Hc Hx. by destruct (Hst v ch k x). Qed.

Lemma ensures_map_err {A} k f (t : @tx K V _ _ A) : ensures k t → ensures k (tx_map_err f t).
Proof using Type.
induction t as [[e|a]|reads st next IH]; [done..|]. intros Ht v ch Hst. destruct (st v) as [e|c] eqn:Hc; [done|]. injection Hst as ->.
destruct (Ht v ch Hc) as [Hk|[Hk|Hk]]; [by left|by right; left|right; right; by apply IH].
Qed.
Lemma writes_of_map_err {A} R f (t : @tx K V _ _ A) : writes_of R t → writes_of R (tx_map_err f t).
Proof using Type.
induction t as [[e|a]|reads st next IH]; [done..|]. intros [H1 H2]. split; [|intros v; by apply IH].
intros v ch k x Hk Hv Hst Hx. destruct (st v) as [e|c] eqn:Hc; [done|]. injection Hst as ->. by apply (H1 v ch).
Qed.

Context {L : Type} (program : L → @tx K V _ _ ()) (names : L → K → Prop) (R : L → K → V → Prop).
Hypothesis program_once : ∀ l, writes_once once (program l).
Hypothesis program_names : ∀ l k, names l k → once k ∧ ensures k (program l).
Hypothesis program_writes : ∀ l, writes_of (R l) (program l).
Abbreviation sess := (@session K V _ _ L).
Abbreviation state := (@txState K V _ _ L).

Definition unclaimed (l : L) : option (K * V) := None.

Record EnsuredInv (db0 : gmap K V) (s : state) : Prop := {
  en_once : OnceInv once unclaimed s;
  en_named n (se : sess) k : tx_sessions s !! n = Some se → names (se_task se) k →
    is_Some (overlay (se_pend se) (tx_db s) !! k) ∨ ensures k (se_rest se);
  en_log l k : l ∈ tx_log s → names l k → is_Some (tx_db s !! k);
  en_rest n (se : sess) : tx_sessions s !! n = Some se → writes_of (R (se_task se)) (se_rest se);
  en_pend n (se : sess) k x : tx_sessions s !! n = Some se → once k → se_pend se !! k = Some (Some x) → R (se_task se) k x;
  en_rows k x : once k → tx_db s !! k = Some x → db0 !! k = Some x ∨ ∃ l, l ∈ tx_log s ∧ R l k x
}.

Lemma EnsuredInv_delete db0 n s : EnsuredInv db0 s → EnsuredInv db0 (mkTxState (tx_db s) (delete n (tx_sessions s)) (tx_log s)).
Proof using Type.
intros [H1 H2 H3 H4 H5 H6]. split; cbn; try done.
- by apply OnceInv_delete.
- intros m se k [_ Hm]%lookup_delete_Some. by eapply H2.
- intros m se [_ Hm]%lookup_delete_Some. by eapply H4.
- intros m se k x [_ Hm]%lookup_delete_Some. by eapply H5.
Qed.

Lemma EnsuredInv_insert db0 n (se : sess) s : EnsuredInv db0 s →
  OnceInv once unclaimed (mkTxState (tx_db s) (<[n := se]> (tx_sessions s)) (tx_log s)) →
  (∀ k, names (se_task se) k → is_Some (overlay (se_pend se) (tx_db s) !! k) ∨ ensures k (se_rest se)) →
  writes_of (R (se_task se)) (se_rest se) → (∀ k x, once k → se_pend se !! k = Some (Some x) → R (se_task se) k x) →
  EnsuredInv db0 (mkTxState (tx_db s) (<[n := se]> (tx_sessions s)) (tx_log s)).
Proof using Type.
intros [H1 H2 H3 H4 H5 H6] Ho Hn Hw Hp. split; cbn; try done.
- intros m s' k [[<- <-]|[_ Hm]]%lookup_insert_Some; [apply Hn|by eapply H2].
- intros m s' [[<- <-]|[_ Hm]]%lookup_insert_Some; [done|by eapply H4].
- intros m s' k x [[<- <-]|[_ Hm]]%lookup_insert_Some; [apply Hp|by eapply H5].
Qed.

Lemma EnsuredInv_next db0 n s : EnsuredInv db0 s → EnsuredInv db0 (tx_exec program (TxNext n) s).
Proof using program_names.
intros Hs. pose proof Hs as [H1 H2 H3 H4 H5 H6].
assert (OnceInv once unclaimed (tx_exec program (TxNext n) s)) as Ho by (by apply OnceInv_next). cbn in *.
destruct (tx_sessions s !! n) as [[l [r|reads st next] p Rd found]|] eqn:Hn; [done| |done].
pose proof (λ k, H2 n _ k Hn) as Hnm. pose proof (H4 n _ Hn) as [Hw Hws]. pose proof (λ k x, H5 n _ k x Hn) as Hp.
pose proof (λ k, oi_pend _ _ _ H1 n _ k Hn) as Hpend. cbn [se_rest se_pend se_task] in *.
set (v := visible _ _) in *. destruct (st v) as [e|ch] eqn:Hst; [by apply EnsuredInv_delete|].
destruct (waits n ch (tx_sessions s)); apply EnsuredInv_insert; try done; cbn [se_rest se_pend se_task].
- intros k Hk. destruct (program_names l k Hk) as [Hok _].
  assert (∀ y, overlay p (tx_db s) !! k = Some y → is_Some (overlay (ch ∪ p) (tx_db s) !! k)) as Hkeep.
  { intros y Hy. rewrite lookup_overlay. destruct (ch !! k) as [c|] eqn:Hck.
    - destruct (Ho) as [_ _ _ Hop _ _ _]. destruct (Hop n _ k ltac:(apply lookup_insert_eq) Hok) as [_ [x Hx]]; [cbn [se_pend]; rewrite (lookup_union_Some_l _ _ _ _ Hck); by eexists|].
      cbn in Hx. rewrite Hx. by eexists.
    - rewrite lookup_union_r by done. rewrite lookup_overlay in Hy. rewrite Hy. by eexists. }
  destruct (Hnm k Hk) as [[y Hy]|He]; [left; by eapply Hkeep|]. destruct (He v ch Hst) as [[x Hx]|[[y Hy]|Hx]]; [left| |by right].
  + rewrite lookup_overlay, (lookup_union_Some_l _ _ _ _ Hx). by eexists.
  + left. unfold v in Hy. rewrite lookup_visible in Hy. unfold seen in Hy. destruct (overlay p (tx_db s) !! k) as [z|] eqn:Hz; [|done]. by eapply Hkeep.
- apply Hws.
- intros k x Hk [Hx|[_ Hx]]%lookup_union_Some_raw; [|by apply Hp]. apply (Hw v ch); [done| |done|done].
  intros i y. unfold v. rewrite lookup_visible. unfold seen. destruct (overlay p (tx_db s) !! i) as [z|]; [|done].
  destruct (among found reads i z) eqn:Hr; [|done]. intros [= ->]. unfold among in Hr. destruct found; [by apply andb_true_iff in Hr as [? _]|done].
Qed.

Lemma EnsuredInv_end db0 n s : EnsuredInv db0 s → EnsuredInv db0 (tx_exec program (TxEnd n) s).
Proof using program_names.
intros Hs. pose proof Hs as [H1 H2 H3 H4 H5 H6].
assert (OnceInv once unclaimed (tx_exec program (TxEnd n) s)) as Ho by (by apply OnceInv_end). cbn in *.
destruct (tx_sessions s !! n) as [[l [[e|[]]|reads st next] p Rd found]|] eqn:Hn; [by apply EnsuredInv_delete| |done..].
pose proof (λ k, H2 n _ k Hn) as Hnm. pose proof (λ k x, H5 n _ k x Hn) as Hp.
pose proof (λ k, oi_pend _ _ _ H1 n _ k Hn) as Hpend. cbn [se_rest se_pend se_task] in *.
assert (∀ k x, once k → tx_db s !! k = Some x → overlay p (tx_db s) !! k = Some x) as Hmono.
{ intros k x Hk Hx. rewrite lookup_overlay. destruct (p !! k) as [c|] eqn:Hpk; [|done]. destruct (Hpend k Hk) as [Hdb _]; [by eexists|]. by rewrite Hdb in Hx. }
split; cbn [tx_db tx_sessions tx_log]; [done|..].
- intros m se k [_ Hm]%lookup_delete_Some Hk. destruct (program_names _ _ Hk) as [Hok _]. destruct (H2 m se k Hm Hk) as [[y Hy]|He]; [left|by right].
  rewrite lookup_overlay in Hy |- *. destruct (se_pend se !! k) as [c|]; [by rewrite Hy|]. rewrite (Hmono k y Hok Hy). by eexists.
- intros l' k Hin Hk. destruct (program_names _ _ Hk) as [Hok _]. apply elem_of_app in Hin as [Hin|Hin].
  + destruct (H3 l' k Hin Hk) as [y Hy]. rewrite (Hmono k y Hok Hy). by eexists.
  + apply list_elem_of_singleton in Hin as ->. by destruct (Hnm k Hk) as [Hy|[]].
- intros m se [_ Hm]%lookup_delete_Some. by eapply H4.
- intros m se k x [_ Hm]%lookup_delete_Some. by eapply H5.
- intros k x Hk Hx. rewrite lookup_overlay in Hx. destruct (p !! k) as [c|] eqn:Hpk.
  + subst c. right. exists l. split; [apply elem_of_app; right; by left|]. by apply Hp.
  + destruct (H6 k x Hk Hx) as [?|(l' & Hl & Hr)]; [by left|]. right. exists l'. split; [|done]. apply elem_of_app. by left.
Qed.

Lemma EnsuredInv_exec db0 st s : EnsuredInv db0 s → EnsuredInv db0 (tx_exec program st s).
Proof using All.
intros Hs. destruct st as [n l|n|n|n]; [|by apply EnsuredInv_next|by apply EnsuredInv_end|by apply EnsuredInv_delete].
assert (OnceInv once unclaimed (tx_exec program (TxBegin n l) s)) as Ho by (apply OnceInv_exec; [done|done|apply Hs]).
cbn in *. destruct (tx_sessions s !! n); [done|]. apply EnsuredInv_insert; try done; cbn [se_rest se_pend se_task].
intros k Hk. right. by apply program_names.
Qed.

Lemma ensured_once db steps : let s := tx_run program steps (tx_start db) in
  (∀ l k, l ∈ tx_log s → names l k → is_Some (tx_db s !! k)) ∧
  ∀ k x, once k → tx_db s !! k = Some x → db !! k = Some x ∨ ∃ l, l ∈ tx_log s ∧ R l k x.
Proof using All.
intros s. assert (EnsuredInv db s) as [_ _ Hl _ _ Hr]; [|done]. subst s. unfold tx_run.
assert (EnsuredInv db (tx_start db)) as Hs.
{ split; cbn; try done.
  - apply (OnceInv_run program once unclaimed program_once ltac:(done) db []).
  - by intros l k ?%not_elem_of_nil.
  - intros k x _ Hx. by left. }
revert Hs. generalize (tx_start (L := L) db). induction steps as [|st steps IH]; intros s Hs; [done|]. cbn. by apply IH, EnsuredInv_exec.
Qed.
End Ensured.
