(* ===== verification/PgPayments.v ===== *)
(** * Scheduled payments in PostgreSQL (postgres/scheduled_payment_repository.go)

    The payments and the ledger of their postings, a transaction per method.  However the
    schedulers of several replicas interleave, an occurrence is claimed once
    ([pg_claimed_once]); but the ledger refers to the expense a claim names, which the
    scheduler writes only afterwards, so no occurrence is posted automatically
    ([pg_auto_post_fails]). *)

From S2P Require Export Prelude GoTime GoStrings Domain Schedule Ports Memory MemoryStores World Payments PgTx PgOnce.
#[global] Open Scope Z_scope.

(** ** Tables *)

Inductive paymentRow := RowPayment (id : string) | RowPosting (paymentID : string) (due_at : Time) (kind : string) | RowPostedExpense (id : string).
#[export] Instance paymentRow_eq_dec : EqDecision paymentRow.
Proof. solve_decision. Defined.
#[export] Instance paymentRow_countable : Countable paymentRow.
Proof.
refine (inj_countable' (λ r, match r with RowPayment id => inl id | RowPosting p d k => inr (inl (p, d, k)) | RowPostedExpense id => inr (inr id) end)
  (λ s, match s with inl id => RowPayment id | inr (inl (p, d, k)) => RowPosting p d k | inr (inr id) => RowPostedExpense id end) _).
by intros [].
Defined.

(** [ValPostedExpense] is a row of expenses.expenses, which the ledger refers to. *)
Inductive paymentValue := ValPayment (p : ScheduledPayment) | ValPosting (p : ScheduledPaymentPosting) | ValPostedExpense.

Abbreviation paymentDB := (gmap paymentRow paymentValue).
Abbreviation paymentTx := (@tx paymentRow paymentValue paymentRow_eq_dec paymentRow_countable).

(** What the columns keep. *)
Definition payment_columns (p : ScheduledPayment) : ScheduledPayment :=
  mkScheduledPayment (sp_ID p) (sp_OwnerID p) (sp_Title p) (sp_AmountMinor p) (pg_char3 (sp_Currency p)) (sp_CategoryID p) (sp_CategoryName p)
    (sp_TagIDs p) (sp_SharedGroupID p) (sp_Frequency p) (sp_CustomIntervalDays p) (pg_time (sp_StartDate p)) (pg_time <$> sp_EndDate p)
    (pg_time (sp_NextDueAt p)) None (sp_AutoPost p) (sp_ReminderDaysBefore p) (sp_Paused p) (pg_time (sp_CreatedAt p)) (pg_time (sp_UpdatedAt p)) None.
Definition posting_columns (p : ScheduledPaymentPosting) : ScheduledPaymentPosting :=
  mkScheduledPaymentPosting (po_ScheduledPaymentID p) (pg_time (po_DueAt p)) (po_Kind p) (po_ExpenseID p) (pg_time (po_PostedAt p)).

Section Repository.
(** The casts to uuid, the other foreign keys and the check constraints. *)
Context (violates : paymentRow → paymentValue → option error).

Definition pg_CreateScheduledPayment (p : ScheduledPayment) : paymentTx () :=
  match violates (RowPayment (sp_ID p)) (ValPayment (payment_columns p)) with
  | Some e => tx_throw e
  | None => insert_rows [(RowPayment (sp_ID p), ValPayment (payment_columns p))] []
  end.

Definition live_payment (test : ScheduledPayment → bool) (k : paymentRow) (x : paymentValue) : bool :=
  match k, x with RowPayment _, ValPayment p => live (sp_DeletedAt p) && test p | _, _ => false end.
Definition payments_in (rows : paymentDB) `{GoRuntime} : list ScheduledPayment :=
  omap (λ x, match x.2 with ValPayment p => Some p | _ => None end) (map_range rows).
Definition viewed_by (ownerID : string) (groups : list string) (p : ScheduledPayment) : bool :=
  (sp_OwnerID p =s ownerID) || ((sp_SharedGroupID p ≠s "") && str_in (sp_SharedGroupID p) groups).

(** Payments created at the same time come in any order. *)
Definition pg_ListScheduledPayments `{GoRuntime} (owner : string) (groups : list string) : paymentTx (list ScheduledPayment) :=
  select (live_payment (viewed_by owner groups)) (λ rows,
    mret (sort_slice (λ x y, After (sp_CreatedAt x) (sp_CreatedAt y)) (payments_in rows))).

Definition pg_GetScheduledPayment (owner id : string) (groups : list string) : paymentTx ScheduledPayment :=
  select_one (live_payment (λ p, (sp_ID p =s id) && viewed_by owner groups p)) (λ x,
    match x with ValPayment p => mret p | _ => tx_throw pgx_ErrNoRows end).

Definition owned_payment (owner id : string) (p : ScheduledPayment) : bool := (sp_ID p =s id) && (sp_OwnerID p =s owner).

(** The changed columns; a new row that a constraint rejects fails the statement. *)
Definition update_payments (matches : ScheduledPayment → bool) (set_ : ScheduledPayment → ScheduledPayment) : paymentTx () :=
  Stmt (live_payment matches)
    (λ v, let new := (λ x, match x with ValPayment p => ValPayment (set_ p) | _ => x end) <$> v in
          match map_to_list v with
          | (k, _) :: _ => match new !! k with
                           | Some x => match violates k x with Some e => inl e | None => inr (Some <$> new) end
                           | None => inr ∅
                           end
          | [] => inr ∅
          end)
    (λ v, one_row (map_to_list v)).

Definition pg_UpdateScheduledPayment (p : ScheduledPayment) : paymentTx () :=
  update_payments (owned_payment (sp_OwnerID p) (sp_ID p))
    (λ old, payment_columns p <| sp_LastPostedAt := sp_LastPostedAt old |> <| sp_CreatedAt := sp_CreatedAt old |>).

Definition pg_DeleteScheduledPayment (now : Time) (owner id : string) : paymentTx () :=
  update_payments (owned_payment owner id) (λ p, p <| sp_DeletedAt := Some now |>).

Definition pg_ListDueScheduledPayments `{GoRuntime} (through : Time) (limit : Z) : paymentTx (list ScheduledPayment) :=
  select (live_payment (λ p, negb (sp_Paused p) && (sp_NextDueAt p <=? pg_time through))) (λ rows,
    if limit <? 0 then tx_throw (ErrorsNew "LIMIT must not be negative")
    else mret (take (Z.to_nat limit) (sort_slice (λ x y, Before (sp_NextDueAt x) (sp_NextDueAt y)) (payments_in rows)))).

Definition posting_row (p : ScheduledPaymentPosting) : paymentRow :=
  RowPosting (po_ScheduledPaymentID p) (pg_time (po_DueAt p)) (po_Kind p).
(** What a posting refers to. *)
Definition posting_refs (p : ScheduledPaymentPosting) : list paymentRow :=
  RowPayment (po_ScheduledPaymentID p) :: (if po_ExpenseID p =s "" then [] else [RowPostedExpense (po_ExpenseID p)]).

(** [insert ... on conflict do nothing]. *)
Definition pg_ClaimPosting (p : ScheduledPaymentPosting) : paymentTx () :=
  Stmt (λ k _, bool_decide (k ∈ posting_row p :: posting_refs p))
    (λ v, match v !! posting_row p with
          | Some _ => inr ∅
          | None =>
              match violates (posting_row p) (ValPosting (posting_columns p)) with
              | Some e => inl e
              | None => if forallb (λ k, bool_decide (is_Some (v !! k))) (posting_refs p)
                        then inr {[posting_row p := Some (ValPosting (posting_columns p))]}
                        else inl foreign_key_violation
              end
          end)
    (λ v, match v !! posting_row p with Some _ => tx_throw ErrPostingExists | None => mret () end).

Definition pg_AdvanceSchedule (now : Time) (paymentID : string) (nextDueAt lastPostedAt : Time) (paused : bool) : paymentTx () :=
  update_payments (λ p, sp_ID p =s paymentID)
    (λ p, p <| sp_NextDueAt := pg_time nextDueAt |> <| sp_LastPostedAt := Some (pg_time lastPostedAt) |> <| sp_Paused := paused |>
            <| sp_UpdatedAt := now |>).

(** ** The methods as transactions of several replicas *)

Inductive paymentTask :=
  | TaskCreate (p : ScheduledPayment) | TaskUpdate (p : ScheduledPayment) | TaskDelete (now : Time) (owner id : string)
  | TaskClaim (p : ScheduledPaymentPosting) | TaskAdvance (now : Time) (id : string) (nextDueAt lastPostedAt : Time) (paused : bool)
  | TaskExpense (id : string).

(** [TaskExpense]: the row an expense adds to the table the ledger refers to. *)
Definition payment_program (task : paymentTask) : paymentTx () :=
  match task with
  | TaskCreate p => pg_CreateScheduledPayment p
  | TaskUpdate p => pg_UpdateScheduledPayment p
  | TaskDelete now owner id => pg_DeleteScheduledPayment now owner id
  | TaskClaim p => pg_ClaimPosting p
  | TaskAdvance now id next last paused => pg_AdvanceSchedule now id next last paused
  | TaskExpense id => insert_rows [(RowPostedExpense id, ValPostedExpense)] []
  end.

Definition is_posting (k : paymentRow) : Prop := match k with RowPosting _ _ _ => True | _ => False end.
Definition task_claims (task : paymentTask) : option (paymentRow * paymentValue) :=
  match task with TaskClaim p => Some (posting_row p, ValPosting (posting_columns p)) | _ => None end.

Lemma update_payments_once matches set_ : writes_once is_posting (update_payments matches set_).
Proof using Type.
apply writes_once_apart; [|intros v; unfold one_row; by destruct (_ =? _)%nat].
intros v ch k Hv Hst Hk. assert (v !! k = None) as Hvk.
{ apply eq_None_not_Some. intros [x Hx]. pose proof (Hv k x Hx) as Hr. by destruct k. }
destruct (map_to_list v) as [|[k0 x0] rows]; [by injection Hst as <-|].
cbv zeta in Hst. match type of Hst with context [?m !! k0] => destruct (m !! k0) as [x|] end; [|by injection Hst as <-]. destruct (violates k0 x); [done|]. injection Hst as <-. by rewrite !lookup_fmap, Hvk.
Qed.

Lemma payment_once task : writes_once is_posting (payment_program task).
Proof using Type.
destruct task as [p|p|now owner id|p|now id next last paused|id]; cbn [payment_program].
- unfold pg_CreateScheduledPayment. destruct (violates _ _); [done|]. apply writes_once_insert.
- apply update_payments_once.
- apply update_payments_once.
- split; [|intros v; by destruct (v !! _)]. intros k v ch Hk Hv Hst Hi.
  destruct (v !! posting_row p) eqn:Hrow; [injection Hst as <-; by destruct Hi as [c ?%lookup_empty_Some]|].
  destruct (violates _ _) eqn:Hviol; [done|]. destruct (forallb _ _); [|done]. injection Hst as <-.
  destruct Hi as [c [<- <-]%lookup_singleton_Some]. split; [done|]. split; [eexists; apply lookup_singleton_eq|].
  split; [intros x; apply bool_decide_eq_true; by left|]. intros v' ch'. destruct (v' !! posting_row p); [intros [= <-]; by left|].
  destruct (forallb _ _); [|done]. intros [= <-]. right. rewrite lookup_singleton_eq. by eexists.
- apply update_payments_once.
- apply writes_once_insert.
Qed.

Lemma payment_claims task k x : task_claims task = Some (k, x) → is_posting k ∧ must_write k x (payment_program task).
Proof using Type.
destruct task as [| | |p| |]; try done. intros [= <- <-]. split; [done|]. intros v ch. cbn. destruct (v !! posting_row p); [intros _; by right|].
destruct (violates _ _); [done|]. destruct (_ && _); [|done]. intros [= <-]. left. exact (lookup_singleton_eq (posting_row p) _).
Qed.

(** [C17] However the schedulers of several replicas interleave with each other and with the
    owners' edits, statement by statement, at most one claim of an occurrence commits,
    and the ledger keeps the posting that claim wrote. *)
Theorem pg_claimed_once db (steps : list tx_step) :
  let s := tx_run payment_program steps (tx_start db) in
  NoDup (omap (λ task, match task with TaskClaim p => Some (posting_row p) | _ => None end) (tx_log s)) ∧
  ∀ p, TaskClaim p ∈ tx_log s → tx_db s !! posting_row p = Some (ValPosting (posting_columns p)).
Proof using Type.
intros s. destruct (claims_once payment_program is_posting task_claims payment_once payment_claims db steps) as [Hnd Hrows]. fold s in Hnd, Hrows. split.
- erewrite <- (list_omap_ext _ _ (tx_log s) (tx_log s)); [exact Hnd|]. apply Forall_Forall2_diag, Forall_true. by intros [].
- intros p Hp. by apply (Hrows (TaskClaim p)).
Qed.
End Repository.

(** ** Automatic posting *)

Section AutoPost.
Context (violates : paymentRow → paymentValue → option error).
Context `{GoRuntime} {W : Type} (tables : Lens W paymentDB) `{!LensLaws tables} `{Env W} `{EventLog W} `{UnitOfWork W}.

Definition pg_payment_call {A} (t : paymentTx A) : M W A := zoom tables (PgTx.Within t).

#[export] Instance pg_ScheduledPaymentRepository : ScheduledPaymentRepository W := {|
  CreateScheduledPayment p := pg_payment_call (pg_CreateScheduledPayment violates p);
  ListScheduledPayments owner groups := pg_payment_call (pg_ListScheduledPayments owner groups);
  GetScheduledPayment owner id groups := pg_payment_call (pg_GetScheduledPayment owner id groups);
  UpdateScheduledPayment p := pg_payment_call (pg_UpdateScheduledPayment violates p);
  DeleteScheduledPayment owner id := now ← Now; pg_payment_call (pg_DeleteScheduledPayment violates now owner id);
  ListDueScheduledPayments through limit := pg_payment_call (pg_ListDueScheduledPayments through limit);
  ClaimPosting p := pg_payment_call (pg_ClaimPosting violates p);
  AdvanceSchedule id next last paused := now ← Now; pg_payment_call (pg_AdvanceSchedule violates now id next last paused)
|}.

(** A claim that names an expense nobody has written fails. *)
Lemma claim_without_expense p v : violates (posting_row p) (ValPosting (posting_columns p)) = None →
  v !! posting_row p = None → po_ExpenseID p ≠ "" → v !! RowPostedExpense (po_ExpenseID p) = None →
  PgTx.Within (pg_ClaimPosting violates p) v = (v, inl foreign_key_violation).
Proof using Type.
intros Hv Hrow Hid Hnone. rewrite Within_view. unfold pg_ClaimPosting, view_run.
assert (∀ k, v !! k = None → visible (λ k _, bool_decide (k ∈ posting_row p :: posting_refs p)) v !! k = None) as Hvis.
{ intros k Hk. by rewrite lookup_visible, Hk. }
rewrite (Hvis _ Hrow), Hv. assert (forallb (λ k, bool_decide (is_Some (visible (λ k _, bool_decide (k ∈ posting_row p :: posting_refs p)) v !! k))) (posting_refs p) = false) as ->; [|done].
apply not_true_iff_false. rewrite forallb_forall. intros Hall. specialize (Hall (RowPostedExpense (po_ExpenseID p))).
rewrite bool_decide_eq_true, Hvis in Hall by done. destruct Hall as [x Hx]; [|done]. unfold posting_refs. rewrite eqs_ne by done. cbn. auto.
Qed.

(** [C18] The scheduler claims a due occurrence that is to be posted automatically with the
    id of an expense it has yet to write; the ledger's reference to that expense fails
    the claim, so the pass reports an error, posts nothing and leaves the payment where it
    was. *)
Theorem pg_auto_post_fails (port : ExpenseRepository W) notifications ctx payment now w w1 id :
  sp_Paused payment = false → sp_DeletedAt payment = None → sp_AutoPost payment = true →
  Before now (sp_NextDueAt payment) = false → ScheduledPaymentFinished payment (sp_NextDueAt payment) = false →
  NewString w = (w1, inr id) → id ≠ "" →
  let posting := mkScheduledPaymentPosting (sp_ID payment) (sp_NextDueAt payment) PostingDue id now in
  violates (posting_row posting) (ValPosting (posting_columns posting)) = None →
  lens_get tables w1 !! posting_row posting = None → lens_get tables w1 !! RowPostedExpense id = None →
  runOccurrence (Some port) notifications ctx payment now w = (w1, inl (Errorf "claim due posting: " foreign_key_violation "")).
Proof using LensLaws0.
intros Hp Hd Ha Hb Hf Hn Hid posting Hv Hrow Hnone. unfold runOccurrence. rewrite Hp, Hd, Ha, Hb, Hf. cbn [orb negb is_nil andb].
assert ((match ReminderDueAt payment (sp_NextDueAt payment) with Some at_ => negb (Before now at_) && false | None => false end) = false) as ->.
{ destruct (ReminderDueAt _ _); [apply andb_false_r|done]. }
cbv zeta. unfold mbind at 1, M_bind. rewrite Hn. unfold mbind at 1, M_bind, unless_posted, claimAndNotify, mbind at 1, M_bind, catch, mbind at 1, M_bind, map_err.
cbn [ClaimPosting pg_ScheduledPaymentRepository]. unfold pg_payment_call, zoom. rewrite (claim_without_expense posting) by done.
cbn. by rewrite lens_set_get.
Qed.
End AutoPost.

(** ** Examples *)

Module PaymentSample.
#[local] Existing Instance default_runtime.
Definition rent : ScheduledPayment :=
  mkScheduledPayment "rent" "ann" "Rent" 120000 "EUR" "home" "Home" [] "" PaymentMonthly 0 1000000 None 1000000 None true 0 false 1000 1000 None.
Definition free : paymentRow → paymentValue → option error := λ _ _, None.
Definition claim (expenseID : string) : ScheduledPaymentPosting := mkScheduledPaymentPosting "rent" 1000000 PostingDue expenseID 2000.

(** Two replicas claim the rent at once: the second waits, then does nothing. *)
Definition race : list tx_step :=
  [TxBegin 0 (TaskCreate rent); TxNext 0; TxEnd 0; TxBegin 0 (TaskClaim (claim "")); TxBegin 1 (TaskClaim (claim ""));
   TxNext 0; TxNext 1; TxEnd 0; TxNext 1; TxEnd 1; TxBegin 2 (TaskAdvance 3000 "rent" 5000000 1000000 false); TxNext 2; TxEnd 2].
Definition raced : txState := tx_run (payment_program free) race (tx_start ∅).
Example one_claim : length (tx_log raced) = 3%nat ∧
  tx_db raced !! RowPosting "rent" 1000000 "due" = Some (ValPosting (posting_columns (claim ""))).
Proof. vm_compute. done. Qed.

#[local] Instance env : Env paymentDB := {| Now := mret 2000000; NewString := mret "e1" |}.
#[local] Instance log : EventLog paymentDB := {| Append _ := mret () |}.
#[local] Instance unit_ : UnitOfWork paymentDB := {| UnitOfWork.Within _ ctx f := f ctx |}.
#[local] Instance ledger_laws : LensLaws (@id_lens paymentDB) := id_lens_laws.
Definition stored : ExpenseRepository paymentDB := {|
  CreateExpense e := λ w, (<[RowPostedExpense (ex_ID e) := ValPostedExpense]> w, inr ());
  UpdateExpense _ := mret (); GetExpense _ _ := throw errNotFound; GetExpenseVisible _ _ _ := throw errNotFound;
  ListExpenses _ := mret []; DeleteExpense _ _ := mret ()
|}.
Definition renting : paymentDB := {[RowPayment "rent" := ValPayment (payment_columns rent)]}.
#[local] Instance payments : ScheduledPaymentRepository paymentDB := pg_ScheduledPaymentRepository free id_lens.

Lemma pg_auto_post_fails_witness :
  NewString renting = (renting, inr "e1") ∧
  runOccurrence (Some stored) None background rent 2000000 renting = (renting, inl (Errorf "claim due posting: " foreign_key_violation "")).
Proof.
split; [reflexivity|].
apply (pg_auto_post_fails free id_lens stored None background rent 2000000 renting renting "e1"); try reflexivity; discriminate.
Defined.
End PaymentSample.
