(* ===== verification/PgBudgets.v ===== *)
(** * Budgets and their usage in PostgreSQL (postgres/budget_repository.go, budget_usage_repository.go)

    The budgets, the contributions mirrored for them and the usage of their periods; the
    methods of the repositories as transactions, and the handler of the budget usage
    projection (service/budget_usage_projection.go) as one transaction over them. *)

From S2P Require Export Prelude GoTime GoStrings Domain Periods Json Outbox UnitOfWork Ports Memory MemoryStores BudgetUsage PgTx BudgetSpend.
#[global] Open Scope Z_scope.

(** ** Tables *)

Inductive budgetRow :=
  | RowBudget (id : string) | RowBudgetContribution (expenseID : string) | RowUsage (budgetID : string) (period_start : Z) | RowAlert (id : string).
#[export] Instance budgetRow_eq_dec : EqDecision budgetRow.
Proof. solve_decision. Defined.
#[export] Instance budgetRow_countable : Countable budgetRow.
Proof.
refine (inj_countable' (λ r, match r with
  | RowBudget id => inl (inl id) | RowBudgetContribution id => inl (inr id) | RowUsage b d => inr (inl (b, d)) | RowAlert id => inr (inr id) end)
  (λ s, match s with
  | inl (inl id) => RowBudget id | inl (inr id) => RowBudgetContribution id | inr (inl (b, d)) => RowUsage b d | inr (inr id) => RowAlert id end) _).
by intros [].
Defined.

(** [ValAlert] is a row of notifications.deliveries. *)
Inductive budgetValue :=
  | ValBudget (b : BudgetRecord) | ValBudgetContribution (c : ExpenseContribution) | ValUsage (spent alerted : Z) (updated : Time)
  | ValAlert (d : NotificationDelivery).
#[export] Instance BudgetRecord_eq_dec : EqDecision BudgetRecord.
Proof. solve_decision. Defined.
#[export] Instance NotificationDelivery_eq_dec : EqDecision NotificationDelivery.
Proof. solve_decision. Defined.
#[local] Instance contribution_eq_dec : EqDecision ExpenseContribution.
Proof. solve_decision. Defined.
#[export] Instance budgetValue_eq_dec : EqDecision budgetValue.
Proof. solve_decision. Defined.

Abbreviation budgetDB := (gmap budgetRow budgetValue).
Abbreviation budgetTx := (@tx budgetRow budgetValue budgetRow_eq_dec budgetRow_countable).

(** What the columns keep. *)
Definition budget_columns (b : BudgetRecord) : BudgetRecord :=
  mkBudgetRecord (bd_ID b) (bd_OwnerID b) (bd_CategoryID b) (bd_Name b) (pg_char3 (bd_Currency b)) (bd_SharedGroupID b) (bd_AmountLimitMinor b)
    (bd_ThresholdPercent b) (bd_Period b) (pg_time <$> bd_DueAt b) (pg_time (bd_CreatedAt b)) (pg_time (bd_UpdatedAt b)) None.
(** A missing currency is kept as XXX, a missing time as the start of 1970. *)
Definition budget_contribution (c : ExpenseContribution) : ExpenseContribution :=
  mkExpenseContribution (ec_ExpenseID c) (ec_OwnerID c) (ec_CategoryID c) (pg_char3 (if ec_Currency c =s "" then "XXX" else ec_Currency c)) []
    (ec_AmountMinor c) (pg_time (if IsZero (ec_OccurredAt c) then unix_epoch else ec_OccurredAt c)) (ec_Active c).
(** The dates PostgreSQL has. *)
Definition pg_min_date : Z := day_number (-4713) 11 24.
Definition pg_max_date : Z := day_number 5874897 12 31.
Definition date_range (d : Z) : bool := (pg_min_date <=? d) && (d <=? pg_max_date).
Definition date_out_of_range : error := ErrorsNew "date out of range".

Section Repository.
(** The casts to uuid, the other foreign keys and the check constraints. *)
Context (violates : budgetRow → budgetValue → option error).

(** [insert ... on conflict do update]. *)
Definition upsert (k : budgetRow) (x : budgetValue) : budgetTx () :=
  modify_row k (λ _, match violates k x with Some e => inl e | None => inr (Some (Some x)) end) (λ _, mret ()).
Definition insert_new (k : budgetRow) (x : budgetValue) : budgetTx () :=
  match violates k x with Some e => tx_throw e | None => insert_rows [(k, x)] [] end.

(** ** Budgets *)

Definition live_row (test : BudgetRecord → bool) (k : budgetRow) (x : budgetValue) : bool :=
  match k, x with RowBudget _, ValBudget b => live (bd_DeletedAt b) && test b | _, _ => false end.
Definition budget_in (x : budgetRow * budgetValue) : option BudgetRecord := match x.2 with ValBudget b => Some b | _ => None end.
Definition may_view (owner : string) (groups : list string) (b : BudgetRecord) : bool :=
  (bd_OwnerID b =s owner) || ((bd_SharedGroupID b ≠s "") && str_in (bd_SharedGroupID b) groups).

Definition pg_CreateBudget (b : BudgetRecord) : budgetTx () := insert_new (RowBudget (bd_ID b)) (ValBudget (budget_columns b)).

(** Budgets created at the same time come in any order. *)
Definition pg_ListBudgets `{GoRuntime} (owner : string) (groups : list string) : budgetTx (list BudgetRecord) :=
  select (live_row (may_view owner groups)) (λ rows,
    mret (sort_slice (λ x y, After (bd_CreatedAt x) (bd_CreatedAt y)) (omap budget_in (map_range rows)))).
Definition pg_GetBudget (owner id : string) (groups : list string) : budgetTx BudgetRecord :=
  select_one (live_row (λ b, (bd_ID b =s id) && may_view owner groups b)) (λ x,
    match x with ValBudget b => mret b | _ => tx_throw pgx_ErrNoRows end).

Definition update_budget (owner id : string) (set_ : BudgetRecord → BudgetRecord) : budgetTx () :=
  Stmt (live_row (λ b, (bd_ID b =s id) && (bd_OwnerID b =s owner)))
    (λ v, match v !! RowBudget id with
          | Some (ValBudget old) => match violates (RowBudget id) (ValBudget (set_ old)) with
                                    | Some e => inl e
                                    | None => inr {[RowBudget id := Some (ValBudget (set_ old))]}
                                    end
          | _ => inr ∅
          end)
    (λ v, match v !! RowBudget id with Some _ => mret () | None => tx_throw pgx_ErrNoRows end).
Definition pg_UpdateBudget (b : BudgetRecord) : budgetTx () :=
  update_budget (bd_OwnerID b) (bd_ID b) (λ old, budget_columns b <| bd_CreatedAt := bd_CreatedAt old |>).
Definition pg_DeleteBudget (now : Time) (owner id : string) : budgetTx () :=
  update_budget owner id (λ old, old <| bd_DeletedAt := Some now |>).

(** ** Their usage *)

Definition pg_usage_LoadContribution (expenseID : string) : budgetTx (ExpenseContribution * bool) :=
  modify_row (RowBudgetContribution expenseID) (λ _, inr None) (λ row,
    match row with
    | Some (ValBudgetContribution c) => mret (c <| ec_ExpenseID := expenseID |>, true)
    | _ => mret (mkExpenseContribution "" "" "" "" [] 0 0 false, false)
    end).
Definition pg_usage_SaveContribution (c : ExpenseContribution) : budgetTx () :=
  tx_map_err (λ e, Errorf "save budget contribution: " e "")
    (upsert (RowBudgetContribution (ec_ExpenseID c)) (ValBudgetContribution (budget_contribution c))).

Definition pg_ListBudgetsForCategory `{GoRuntime} (owner category : string) : budgetTx (list BudgetRecord) :=
  if (owner =s "") || (category =s "") then mret []
  else select (live_row (λ b, (bd_OwnerID b =s owner) && (bd_CategoryID b =s category))) (λ rows, mret (omap budget_in (map_range rows))).
Definition pg_usage_GetBudget (id : string) : budgetTx (BudgetRecord * bool) :=
  select (live_row (λ b, bd_ID b =s id)) (λ rows,
    match rows !! RowBudget id with
    | Some (ValBudget b) => mret (b, true)
    | _ => mret (mkBudgetRecord "" "" "" "" "" "" 0 0 "" None 0 0 None, false)
    end).

Definition pg_counts (owner category : string) (from to : Time) (k : budgetRow) (x : budgetValue) : bool :=
  match k, x with
  | RowBudgetContribution _, ValBudgetContribution c =>
      ec_Active c && (ec_OwnerID c =s owner) && (ec_CategoryID c =s category) &&
      negb (Before (ec_OccurredAt c) (pg_time from)) && Before (ec_OccurredAt c) (pg_time to)
  | _, _ => false
  end.
Definition amount_in (x : budgetRow * budgetValue) : Z := match x.2 with ValBudgetContribution c => ec_AmountMinor c | _ => 0 end.
(** The sum is a numeric, which must fit the column it is scanned into. *)
Definition pg_SumContributions (owner category : string) (from to : Time) : budgetTx Z :=
  select (pg_counts owner category from to) (λ rows,
    let total := foldr (λ x total, amount_in x + total) 0 (map_to_list rows) in
    if pg_bigint total then mret total else tx_throw (Errorf "sum budget contributions: " out_of_range "")).

Definition pg_LoadUsage (budgetID : string) (periodStart : Time) : budgetTx (BudgetUsage * bool) :=
  if negb (date_range (pg_date periodStart)) then tx_throw (Errorf "load budget usage: " date_out_of_range "")
  else modify_row (RowUsage budgetID (pg_date periodStart)) (λ _, inr None) (λ row,
    match row with
    | Some (ValUsage spent alerted updated) => mret (mkBudgetUsage budgetID periodStart spent alerted updated, true)
    | _ => mret (mkBudgetUsage budgetID periodStart 0 0 0, false)
    end).
(** The row refers to its budget, which is looked up before the row is written. *)
Definition pg_SaveUsage (now : Time) (usage : BudgetUsage) : budgetTx () :=
  let row := RowUsage (bu_BudgetID usage) (pg_date (bu_PeriodStart usage)) in
  let new := ValUsage (bu_SpentMinor usage) (bu_AlertedPercent usage) now in
  if negb (date_range (pg_date (bu_PeriodStart usage))) then tx_throw (Errorf "save budget usage: " date_out_of_range "")
  else match violates row new with
       | Some e => tx_throw (Errorf "save budget usage: " e "")
       | None =>
           select (λ k _, bool_decide (k = row) || bool_decide (k = RowBudget (bu_BudgetID usage))) (λ v,
             if bool_decide (is_Some (v !! row)) || bool_decide (is_Some (v !! RowBudget (bu_BudgetID usage)))
             then modify_row row (λ _, inr (Some (Some new))) (λ _, mret ())
             else tx_throw (Errorf "save budget usage: " foreign_key_violation ""))
       end.
Definition pg_DeleteUsage (budgetID : string) : budgetTx () :=
  delete_rows (λ k _, match k with RowUsage b _ => b =s budgetID | _ => false end) (mret ()).

Definition pg_queue (d : NotificationDelivery) : budgetTx () := insert_new (RowAlert (nd_ID d)) (ValAlert d).
End Repository.

(** ** The handler as a transaction

    [now] is the time of the transaction; [ids] are the identifiers it draws, of which it
    carries the number. *)

Definition drawing (A : Type) : Type := nat → budgetTx (A * nat).
#[export] Instance drawing_ret : MRet drawing := λ A a n, mret (a, n).
#[export] Instance drawing_bind : MBind drawing := λ A B k t n, '(a, n) ← t n; k a n.
Definition drawn {A} (t : budgetTx A) : drawing A := λ n, a ← t; mret (a, n).
Definition drawing_throw {A} (e : error) : drawing A := λ _, tx_throw e.
Definition drawing_map_err {A} (f : error → error) (t : drawing A) : drawing A := λ n, tx_map_err f (t n).
Fixpoint drawing_each {A} (body : A → drawing ()) (l : list A) : drawing () :=
  match l with [] => mret () | x :: l => body x ≫= λ _, drawing_each body l end.
Fixpoint drawing_fold {A B} (body : B → A → drawing B) (acc : B) (l : list A) : drawing B :=
  match l with [] => mret acc | x :: l => body acc x ≫= λ acc, drawing_fold body acc l end.

Section Handler.
Context `{GoRuntime} (violates : budgetRow → budgetValue → option error) (now : Time) (ids : nat → string).

Definition draw : drawing string := λ n, mret (ids n, S n).

Definition pg_affectedWindows (previous : ExpenseContribution) (found : bool) (next : ExpenseContribution) : drawing (list budgetWindow) :=
  let scopes := add_scope next (if found then add_scope previous ∅ else ∅) in
  '(_, windows) ← drawing_fold (λ acc '(key, times),
      budgets ← drawn (pg_ListBudgetsForCategory key.1 key.2);
      mret (foldl (λ acc budget, foldl (λ acc at_, add_window acc budget at_) acc times) acc budgets))
    (∅, []) (map_range scopes);
  mret windows.

Definition alert_delivery (id : string) (alert : BudgetAlert) : NotificationDelivery :=
  mkNotificationDelivery id (ba_OwnerID alert) "" NotificationBudgetAlert
    (list_to_map [("budget_id", ba_BudgetID alert); ("budget_name", ba_BudgetName alert);
                  ("currency", ba_Currency alert); ("spent_minor", Itoa (ba_SpentMinor alert));
                  ("limit_minor", Itoa (ba_LimitMinor alert));
                  ("percent_used", Itoa (ba_PercentUsed alert));
                  ("exceeded", FormatBool (ba_Exceeded alert));
                  ("period_start", FormatRFC3339 (ba_PeriodStart alert))])
    now NotificationPending 0.
Definition pg_queueAlert (alert : BudgetAlert) : drawing () :=
  id ← draw;
  drawing_map_err (λ e, Errorf ("queue budget alert for " +:+ ba_BudgetID alert +:+ ": ") e "")
    (drawn (pg_queue violates (alert_delivery id alert))).

Definition pg_recompute_window (replay : bool) (window : budgetWindow) : drawing () :=
  let budget := bw_budget window in
  spent ← drawn (pg_SumContributions (bd_OwnerID budget) (bd_CategoryID budget) (bw_start window) (bw_end window));
  '(stored, _) ← drawn (pg_LoadUsage (bd_ID budget) (bw_start window));
  let stored := stored <| bu_PeriodStart := bw_start window |> in
  let crossing := BudgetThresholdCrossing budget stored spent in
  let alerted := AlertedPercentFor budget (stored <| bu_SpentMinor := spent |>) spent in
  _ ← drawn (pg_SaveUsage violates now (mkBudgetUsage (bu_BudgetID stored) (bu_PeriodStart stored) spent alerted now));
  match crossing with
  | Some alert => if replay then mret () else pg_queueAlert alert
  | None => mret ()
  end.
Definition pg_recompute (windows : list budgetWindow) (replay : bool) : drawing () := drawing_each (pg_recompute_window replay) windows.

Definition pg_handleExpense (message : Message) : drawing () :=
  match DecodeExpenseContribution (EventType message) (Payload message) with
  | inl err => drawing_throw err
  | inr (_, false) => mret ()
  | inr (next, true) =>
      '(previous, found) ← drawn (pg_usage_LoadContribution (ec_ExpenseID next));
      if negb (ec_Active next) && negb found then mret ()
      else
        let next := if negb (ec_Active next) then previous <| ec_Active := false |> else next in
        _ ← drawn (pg_usage_SaveContribution violates next);
        windows ← pg_affectedWindows previous found next;
        pg_recompute windows (Replay message)
  end.

Definition pg_handleBudget (message : Message) : drawing () :=
  match DecodeBudget now (EventType message) (Payload message) with
  | inl err => drawing_throw err
  | inr (_, false) => mret ()
  | inr (budget, true) =>
      if (EventType message =s "budget_removed") || match bd_DeletedAt budget with Some _ => true | None => false end
      then drawn (pg_DeleteUsage (bd_ID budget))
      else
        '(current, found) ← drawn (pg_usage_GetBudget (bd_ID budget));
        if negb found then drawn (pg_DeleteUsage (bd_ID budget))
        else
          let '(start, end_) := BudgetWindow current now in
          pg_recompute [mkBudgetWindow current start end_] (Replay message)
  end.

Definition pg_Handle_budget_usage (message : Message) : budgetTx () :=
  '(_, _) ← (if AggregateType message =s "expense" then pg_handleExpense message
             else if AggregateType message =s "budget" then pg_handleBudget message
             else mret ()) 0%nat;
  mret ().
End Handler.

(** * The budget usage repository under the projection (service/budget_usage_projection.go)

    The tables of [PgBudgets] as the stores the budget usage projection works on, the runs
    of the statements that write them, and that the PostgreSQL repositories keep what the
    projection relies on ([UsageLaws]). *)

(** ** A table as a map *)

Section Table.
Context {K V K' V' : Type} `{Countable K} `{Countable K'}.
Context (entry : K * V → option (K' * V')).
Hypothesis entry_inj : ∀ x x' k y y', entry x = Some (k, y) → entry x' = Some (k, y') → x.1 = x'.1.

Definition table (v : gmap K V) : gmap K' V' := list_to_map (omap entry (map_to_list v)).

Lemma table_keys v : NoDup (omap entry (map_to_list v)).*1.
Proof using entry_inj.
assert (∀ l : list (K * V), NoDup l.*1 → NoDup (omap entry l).*1) as Hl; [|apply Hl, NoDup_fst_map_to_list].
intros l. induction l as [|x l IH]; intros Hnd; [constructor|]. cbn in Hnd. apply NoDup_cons in Hnd as [Hx Hnd].
cbn. destruct (entry x) as [[k y]|] eqn:He; [|by apply IH]. cbn. apply NoDup_cons. split; [|by apply IH].
intros (z & Hz & Hin)%list_elem_of_fmap. apply list_elem_of_omap in Hin as (x' & Hx' & He'). destruct z as [k' y']. cbn in Hz. subst k'.
apply Hx. rewrite (entry_inj x x' k y y' He He'). by apply (list_elem_of_fmap_2' fst _ x').
Qed.

Lemma lookup_table v k y : table v !! k = Some y ↔ ∃ i x, v !! i = Some x ∧ entry (i, x) = Some (k, y).
Proof using entry_inj.
unfold table. rewrite <- elem_of_list_to_map by apply table_keys. rewrite list_elem_of_omap. split.
- intros ([i x] & Hin & He). exists i, x. split; [by apply elem_of_map_to_list|done].
- intros (i & x & Hx & He). exists (i, x). split; [by apply elem_of_map_to_list|done].
Qed.

(** The one row an entry under a key can be in. *)
Lemma lookup_table_at v k i : (∀ i' x y, entry (i', x) = Some (k, y) → i' = i) →
  table v !! k = x ← v !! i; e ← entry (i, x); if decide (e.1 = k) then Some e.2 else None.
Proof using entry_inj.
intros Hi. apply option_eq. intros y. rewrite lookup_table. split.
- intros (i' & x & Hx & He). pose proof (Hi _ _ _ He) as ->. rewrite Hx. cbn. rewrite He. cbn. by rewrite decide_True.
- destruct (v !! i) as [x|] eqn:Hx; [|done]. cbn. destruct (entry (i, x)) as [[k' y']|] eqn:He; [|done]. cbn.
  destruct (decide (k' = k)) as [->|]; [|done]. intros [= ->]. by exists i, x.
Qed.

Lemma table_values v : map_to_list (table v) ≡ₚ omap entry (map_to_list v).
Proof using entry_inj. apply map_to_list_to_map, table_keys. Qed.
End Table.

(** ** What the tables hold *)

Definition budget_entry (x : budgetRow * budgetValue) : option (string * BudgetRecord) :=
  match x with (RowBudget id, ValBudget b) => Some (id, b) | _ => None end.
Definition contribution_entry (x : budgetRow * budgetValue) : option (string * ExpenseContribution) :=
  match x with (RowBudgetContribution id, ValBudgetContribution c) => Some (id, c <| ec_ExpenseID := id |>) | _ => None end.

Definition pg_budgets (v : budgetDB) : gmap string BudgetRecord := table budget_entry v.
Definition pg_contributions (v : budgetDB) : gmap string ExpenseContribution := table contribution_entry v.

Lemma budget_entry_inj x x' k y y' : budget_entry x = Some (k, y) → budget_entry x' = Some (k, y') → x.1 = x'.1.
Proof. destruct x as [[] []], x' as [[] []]; try done; cbn; intros; by simplify_eq. Qed.
Lemma contribution_entry_inj x x' k y y' : contribution_entry x = Some (k, y) → contribution_entry x' = Some (k, y') → x.1 = x'.1.
Proof. destruct x as [[] []], x' as [[] []]; try done; cbn; intros; by simplify_eq. Qed.

Lemma lookup_budgets v id : pg_budgets v !! id = match v !! RowBudget id with Some (ValBudget b) => Some b | _ => None end.
Proof.
unfold pg_budgets. rewrite (lookup_table_at _ budget_entry_inj v id (RowBudget id)) by (intros [] [] y; cbn; intros; by simplify_eq).
destruct (v !! RowBudget id) as [[]|]; try done. cbn. by rewrite decide_True.
Qed.
Lemma lookup_contributions v id : pg_contributions v !! id =
  match v !! RowBudgetContribution id with Some (ValBudgetContribution c) => Some (c <| ec_ExpenseID := id |>) | _ => None end.
Proof.
unfold pg_contributions. rewrite (lookup_table_at _ contribution_entry_inj v id (RowBudgetContribution id)) by (intros [] [] y; cbn; intros; by simplify_eq).
destruct (v !! RowBudgetContribution id) as [[]|]; try done. cbn. by rewrite decide_True.
Qed.

(** ** Periods by their date *)

Lemma date_of_days d : pg_date (d * day_ns) = d.
Proof. unfold pg_date. by apply Z.div_mul. Qed.

Definition date_key (budgetID : string) (d : Z) : string * Z := usage_key budgetID (d * day_ns).

(** The dates PostgreSQL has are told apart by their nanoseconds, which wrap after 584
    years, and never at midnight. *)
Lemma date_key_inj b d b' d' : date_range d = true → date_range d' = true → date_key b d = date_key b' d' → b = b' ∧ d = d'.
Proof.
unfold date_key, usage_key, date_range. intros Hd Hd' [= -> Hn]. split; [done|].
assert (pg_min_date = -1721426 ∧ pg_max_date = 2145762067) as [Hmin Hmax] by (by vm_compute). rewrite Hmin, Hmax in *. clear Hmin Hmax.
unfold UnixNano, wrap64 in Hn. change day_ns with (65536 * 1318359375) in Hn. change unix_epoch with (719162 * (65536 * 1318359375)) in Hn.
assert ((d * (65536 * 1318359375) - 719162 * (65536 * 1318359375) + 2 ^ 63) mod 2 ^ 64 = (d' * (65536 * 1318359375) - 719162 * (65536 * 1318359375) + 2 ^ 63) mod 2 ^ 64) as Hm by lia.
apply (f_equal (λ x, x mod 2 ^ 64)) in Hm.
assert (∃ q, (d - d') * (65536 * 1318359375) = q * 2 ^ 64) as [q Hq].
{ exists ((d * (65536 * 1318359375) - 719162 * (65536 * 1318359375) + 2 ^ 63) / 2 ^ 64 - (d' * (65536 * 1318359375) - 719162 * (65536 * 1318359375) + 2 ^ 63) / 2 ^ 64).
  rewrite !Z.mod_mod in Hm by done. lia_div. }
assert ((2 ^ 48 | d - d')) as [m Hdiv].
{ apply (Z.gauss _ 1318359375); [|reflexivity]. exists q. lia. }
lia.
Qed.

Definition usage_entry (x : budgetRow * budgetValue) : option ((string * Z) * BudgetUsage) :=
  match x with
  | (RowUsage b d, ValUsage spent alerted updated) => if date_range d then Some (date_key b d, mkBudgetUsage b (d * day_ns) spent alerted updated) else None
  | _ => None
  end.
Definition pg_usages (v : budgetDB) : gmap (string * Z) BudgetUsage := table usage_entry v.
Definition pg_usage_of (v : budgetDB) : UsageStore := mkUsageStore (pg_contributions v) (pg_usages v).

Lemma usage_entry_spec i x k u : usage_entry (i, x) = Some (k, u) →
  ∃ b d spent alerted updated, i = RowUsage b d ∧ date_range d = true ∧ x = ValUsage spent alerted updated ∧ k = date_key b d ∧
    u = mkBudgetUsage b (d * day_ns) spent alerted updated.
Proof.
destruct i as [| |b d|], x as [| |spent alerted updated|]; try done. cbn. destruct (date_range d) eqn:Hd; [|done]. intros [= <- <-].
by exists b, d, spent, alerted, updated.
Qed.
Lemma usage_entry_inj x x' k y y' : usage_entry x = Some (k, y) → usage_entry x' = Some (k, y') → x.1 = x'.1.
Proof.
destruct x as [i x], x' as [i' x']. intros (b & d & ? & ? & ? & -> & Hd & _ & -> & _)%usage_entry_spec
  (b' & d' & ? & ? & ? & -> & Hd' & _ & Hk & _)%usage_entry_spec. by destruct (date_key_inj b d b' d' Hd Hd' Hk) as [-> ->].
Qed.

Lemma lookup_usages v b d : date_range d = true → pg_usages v !! date_key b d =
  match v !! RowUsage b d with Some (ValUsage spent alerted updated) => Some (mkBudgetUsage b (d * day_ns) spent alerted updated) | _ => None end.
Proof.
intros Hd. unfold pg_usages. rewrite (lookup_table_at _ usage_entry_inj v (date_key b d) (RowUsage b d)).
- destruct (v !! RowUsage b d) as [[]|]; try done. cbn. rewrite Hd. cbn. by rewrite decide_True.
- intros i x u (b' & d' & ? & ? & ? & -> & Hd' & _ & Hk & _)%usage_entry_spec. by destruct (date_key_inj b d b' d' Hd Hd' Hk) as [-> ->].
Qed.
Lemma usages_key v k u : pg_usages v !! k = Some u → ∃ b d, date_range d = true ∧ k = date_key b d.
Proof.
unfold pg_usages. rewrite (lookup_table _ usage_entry_inj). intros (i & x & _ & (b & d & ? & ? & ? & _ & Hd & _ & -> & _)%usage_entry_spec).
by exists b, d.
Qed.

(** Two tables with the same usage rows. *)
Lemma usages_eq v v' : (∀ b d, v' !! RowUsage b d = v !! RowUsage b d) → pg_usages v' = pg_usages v.
Proof.
intros Hv. apply map_eq. intros k. apply option_eq. intros u. split; intros Hu; destruct (usages_key _ _ _ Hu) as (b & d & Hd & ->);
  rewrite lookup_usages in Hu |- * by done; by rewrite Hv in *.
Qed.
Lemma contributions_eq v v' : (∀ id, v' !! RowBudgetContribution id = v !! RowBudgetContribution id) → pg_contributions v' = pg_contributions v.
Proof. intros Hv. apply map_eq. intros id. by rewrite !lookup_contributions, Hv. Qed.
Lemma budgets_eq v v' : (∀ id, v' !! RowBudget id = v !! RowBudget id) → pg_budgets v' = pg_budgets v.
Proof. intros Hv. apply map_eq. intros id. by rewrite !lookup_budgets, Hv. Qed.

(** ** The statements that write *)

Lemma upsert_run violates k x v v' : view_run (upsert violates k x) v = (v', inr ()) → v' = <[k := x]> v.
Proof. unfold upsert. rewrite view_run_modify_row. destruct (violates k x); [done|]. intros [= <-]. apply overlay_singleton. Qed.

Lemma insert_new_run violates k x v v' : view_run (insert_new violates k x) v = (v', inr ()) → v' = <[k := x]> v.
Proof.
unfold insert_new. destruct (violates k x); [done|]. unfold insert_rows, view_run. destruct (existsb _ _); [done|]. cbn [forallb]. intros Heq. injection Heq as <-. cbn [list_to_map]. cbn. by rewrite ?insert_empty, overlay_singleton.
Qed.

Lemma save_usage_run violates now u v v' : view_run (pg_SaveUsage violates now u) v = (v', inr ()) →
  date_range (pg_date (bu_PeriodStart u)) = true ∧
  v' = <[RowUsage (bu_BudgetID u) (pg_date (bu_PeriodStart u)) := ValUsage (bu_SpentMinor u) (bu_AlertedPercent u) now]> v.
Proof.
unfold pg_SaveUsage. destruct (date_range _); [|done]. cbn [negb]. destruct (violates _ _); [done|]. rewrite view_run_select.
destruct (bool_decide _ || bool_decide _); [|done]. rewrite view_run_modify_row. intros [= <-]. split; [done|]. apply overlay_singleton.
Qed.

Definition usage_row_of (b : string) (k : budgetRow) : bool := match k with RowUsage b' _ => b' =s b | _ => false end.

Lemma delete_usage_run b v : view_run (pg_DeleteUsage b) v = (filter (λ x, usage_row_of b x.1 = false) v, inr ()).
Proof. unfold pg_DeleteUsage. by rewrite view_run_delete_rows. Qed.

Lemma usages_save v b d spent alerted updated : date_range d = true →
  pg_usages (<[RowUsage b d := ValUsage spent alerted updated]> v) = <[date_key b d := mkBudgetUsage b (d * day_ns) spent alerted updated]> (pg_usages v).
Proof.
intros Hd. apply map_eq. intros k. destruct (decide (k = date_key b d)) as [->|Hne].
- rewrite lookup_insert_eq, lookup_usages by done. by rewrite lookup_insert_eq.
- rewrite lookup_insert_ne by done. apply option_eq. intros u.
  split; intros Hu; destruct (usages_key _ _ _ Hu) as (b' & d' & Hd' & ->); rewrite lookup_usages in Hu |- * by done;
    rewrite lookup_insert_ne in * by (intros [= -> ->]; done); done.
Qed.

Lemma usages_delete v b : pg_usages (filter (λ x, usage_row_of b x.1 = false) v) =
  filter (λ kv, kv.1.1 ≠ b) (pg_usages v).
Proof.
set (v' := filter _ v). assert (∀ b' d, v' !! RowUsage b' d = if b' =s b then None else v !! RowUsage b' d) as Hv'.
{ intros b' d. unfold v'. rewrite map_lookup_filter. destruct (v !! RowUsage b' d); cbn; by destruct (b' =s b). }
apply map_eq. intros k. apply option_eq. intros u. rewrite map_lookup_filter_Some. split.
- intros Hu. destruct (usages_key _ _ _ Hu) as (b' & d & Hd & ->). rewrite lookup_usages, Hv' in Hu by done. rewrite lookup_usages by done.
  cbn. destruct (String.eqb_spec b' b); [done|]. by split.
- intros [Hu Hne]. destruct (usages_key _ _ _ Hu) as (b' & d & Hd & ->). rewrite lookup_usages in Hu |- * by done. rewrite Hv'. cbn in Hne.
  by rewrite eqs_ne.
Qed.

Lemma contributions_save v id c : pg_contributions (<[RowBudgetContribution id := ValBudgetContribution c]> v) = <[id := c <| ec_ExpenseID := id |>]> (pg_contributions v).
Proof.
apply map_eq. intros i. rewrite lookup_contributions. destruct (decide (i = id)) as [->|Hne].
- by rewrite !lookup_insert_eq.
- rewrite !lookup_insert_ne by congruence. by rewrite lookup_contributions.
Qed.

(** ** Sums *)

Lemma visible_rows reads (v : budgetDB) : map_to_list (visible reads v) ≡ₚ List.filter (λ x, reads x.1 x.2) (map_to_list v).
Proof.
apply NoDup_Permutation; [apply NoDup_map_to_list|apply NoDup_ListNoDup, List.NoDup_filter, NoDup_ListNoDup, NoDup_map_to_list|].
intros [k x]. rewrite (list_elem_of_In (List.filter _ _)), filter_In, <- list_elem_of_In, !elem_of_map_to_list. apply map_lookup_filter_Some.
Qed.

Lemma sum_rows owner category from to v : pg_time from = from → pg_time to = to →
  foldr (λ x total, amount_in x + total) 0 (map_to_list (visible (pg_counts owner category from to) v)) =
  amounts (List.filter (counts_in owner category from to) (map snd (map_to_list (pg_contributions v)))).
Proof.
intros Hf Ht.
assert (∀ l l' : list (budgetRow * budgetValue), l ≡ₚ l' → foldr (λ x total, amount_in x + total) 0 l = foldr (λ x total, amount_in x + total) 0 l') as Hperm.
{ intros l l' Hl. induction Hl; cbn; lia. }
rewrite (Hperm _ _ (visible_rows _ v)).
assert (amounts (List.filter (counts_in owner category from to) (map snd (map_to_list (pg_contributions v)))) =
  amounts (List.filter (counts_in owner category from to) (map snd (omap contribution_entry (map_to_list v))))) as ->.
{ apply amounts_perm, filter_perm, Permutation_map, table_values, contribution_entry_inj. }
induction (map_to_list v) as [|[k x] l IH]; [done|]. cbn [List.filter omap list_omap fst snd].
destruct k as [id|id|b d|id], x as [b'|c|s a u|d']; cbn [pg_counts contribution_entry map]; try exact IH.
cbn [List.filter snd]. change (counts_in owner category from to (c <| ec_ExpenseID := id |>)) with (counts_in owner category from to c).
rewrite Hf, Ht. change (ec_Active c && _ && _ && _ && _) with (counts_in owner category from to c).
destruct (counts_in owner category from to c); [|exact IH]. unfold amounts in *. cbn. by rewrite IH.
Qed.

(** ** The repositories, for the service *)

(** The identifiers drawn and the tables. *)
Abbreviation pgWorld := (nat * budgetDB)%type.
Definition on_tables {A} (t : budgetTx A) : M pgWorld A := λ w, let '(v, r) := view_run t w.2 in ((w.1, v), r).

Section Laws.
Context `{GoRuntime} (violates : budgetRow → budgetValue → option error) (now : Time) (ids : nat → string).

#[export] Instance pg_env : Env pgWorld := {| Now := mret now; NewString w := ((S w.1, w.2), inr (ids w.1)) |}.
#[export] Instance pg_BudgetUsageRepository : BudgetUsageRepository pgWorld := {|
  usage_LoadContribution id := on_tables (pg_usage_LoadContribution id);
  usage_SaveContribution c := on_tables (pg_usage_SaveContribution violates c);
  ListBudgetsForCategory owner category := on_tables (pg_ListBudgetsForCategory owner category);
  usage_GetBudget id := on_tables (pg_usage_GetBudget id);
  SumContributions owner category from to := on_tables (pg_SumContributions owner category from to);
  LoadUsage id start := on_tables (pg_LoadUsage id start);
  SaveUsage u := on_tables (pg_SaveUsage violates now u);
  DeleteUsage id := on_tables (pg_DeleteUsage id)
|}.
(** The projection only queues alerts; the queue is PgNotifications. *)
#[export] Instance pg_alerts : NotificationRepository pgWorld := {|
  QueueNotification d := on_tables (pg_queue violates d);
  ClaimNotifications _ _ _ := mret []; MarkNotificationSent _ := mret (); MarkNotificationRetry _ _ _ := mret ();
  MarkNotificationDeadLettered _ _ := mret (); CountByStatus := mret ∅
|}.

(** A transaction that leaves budgets and usage alone. *)
Lemma on_tables_keeps {A} (t : budgetTx A) B I :
  (∀ v v' a, view_run t v = (v', inr a) → pg_budgets v' = pg_budgets v ∧ pg_usage_of v' = pg_usage_of v) →
  ∀ w : pgWorld, pg_budgets w.2 = B ∧ I (pg_usage_of w.2) →
  match on_tables t w with (w', inr _) => pg_budgets w'.2 = B ∧ I (pg_usage_of w'.2) | (_, inl _) => True end.
Proof using Type.
intros Ht [n v] [HB HI]. unfold on_tables. cbn [fst snd] in *. destruct (view_run t v) as [v' [e|a]] eqn:Hr; [done|]. cbn.
destruct (Ht v v' a Hr) as [-> ->]. done.
Qed.

Lemma pg_time_time t : pg_time (pg_time t) = pg_time t.
Proof. unfold pg_time. Z.to_euclidean_division_equations. lia. Qed.
(** A time is before a whole microsecond when its microsecond is. *)
Lemma before_edge e : pg_time e = e → ∀ t, pg_time t < e ↔ t < e.
Proof. unfold pg_time. intros He t. Z.to_euclidean_division_equations. lia. Qed.

#[export] Program Instance pg_usage_laws : UsageLaws pgWorld := {|
  budgets_of w := pg_budgets w.2; usage_of w := pg_usage_of w.2;
  dated t := pg_time t ≠ 0; kept := pg_time; summed := is_int64; edge t := pg_time t = t; opening t := pg_date t * day_ns = t; broken _ := True
|}.
Next Obligation. by intros t Ht ->. Qed.
Next Obligation. intros t Ht. change (pg_time (pg_time t) ≠ 0). by rewrite pg_time_time. Qed.
Next Obligation. exact before_edge. Qed.
Next Obligation. by intros B I w Hw. Qed.
Next Obligation. by intros B I [n v] Hw. Qed.
Next Obligation.
intros B I d w Hw. apply (on_tables_keeps (pg_queue violates d)); [|exact Hw]. intros v v' [] ->%insert_new_run.
split; [apply budgets_eq; intros id; by rewrite lookup_insert_ne|].
unfold pg_usage_of. f_equal; [apply contributions_eq; intros id|apply usages_eq; intros b d']; by rewrite lookup_insert_ne.
Qed.
Next Obligation.
intros B I id [n v] [HB HI]. cbn [usage_LoadContribution pg_BudgetUsageRepository]. unfold on_tables, pg_usage_LoadContribution. cbn [fst snd] in *.
rewrite view_run_modify_row. pose proof (lookup_contributions v id) as Hl.
destruct (v !! RowBudgetContribution id) as [[]|]; (split; [exact HB|]; split; [exact HI|]; cbn [fst snd bs_contributions pg_usage_of]; by rewrite Hl).
Qed.
Next Obligation.
intros B I c Hc [n v] [HB HI]. cbn [usage_SaveContribution pg_BudgetUsageRepository]. unfold on_tables, pg_usage_SaveContribution. cbn [fst snd] in *.
rewrite view_run_map_err. unfold map_err. destruct (view_run (upsert _ _ _) v) as [v' [e|[]]] eqn:Hr; [done|]. apply upsert_run in Hr as ->. cbn [fst snd].
split; [rewrite <- HB; apply budgets_eq; intros id; by rewrite lookup_insert_ne|].
exists (pg_usage_of v), (budget_contribution c <| ec_ExpenseID := ec_ExpenseID c |>). split; [exact HI|]. split.
- assert (ec_OccurredAt c ≠ 0) as Hc0 by (by intros H0; rewrite H0 in Hc).
  unfold same_scope. cbn. unfold IsZero. by rewrite (proj2 (Z.eqb_neq _ _) Hc0).
- unfold pg_usage_of. rewrite contributions_save. by rewrite (usages_eq v) by (intros; by rewrite lookup_insert_ne).
Qed.
Next Obligation.
intros B I o k [n v] [HB HI]. cbn [ListBudgetsForCategory pg_BudgetUsageRepository]. unfold on_tables, pg_ListBudgetsForCategory. cbn [fst snd] in *.
destruct (String.eqb_spec o "") as [->|Ho]; cbn [orb].
{ split; [|by split]. intros b. split; [by intros ?%elem_of_nil|tauto]. }
destruct (String.eqb_spec k "") as [->|Hk].
{ split; [|by split]. intros b. split; [by intros ?%elem_of_nil|tauto]. }
rewrite view_run_select. split; [|by split]. intros b. rewrite list_elem_of_omap. subst B. split.
- intros ([k' x] & Hin & Hb). rewrite map_range_perm in Hin. apply elem_of_map_to_list, map_lookup_filter_Some in Hin as [Hv Hl]. cbn in Hb, Hl.
  destruct x as [b'| | |]; try done. injection Hb as ->. destruct k' as [id| | |]; try done. cbn in Hl. rewrite !andb_true_iff, !String.eqb_eq in Hl.
  destruct Hl as (Hl & Ho' & Hk'). split; [done|]. split; [done|]. split; [exists id; change (pg_budgets v !! id = Some b); by rewrite lookup_budgets, Hv|].
  split; [by destruct (bd_DeletedAt b)|done].
- intros (_ & _ & [id Hid] & Hd & Ho' & Hk'). change (pg_budgets v !! id = Some b) in Hid. rewrite lookup_budgets in Hid.
  destruct (v !! RowBudget id) as [[b'| | |]|] eqn:Hv; try done. injection Hid as ->. exists (RowBudget id, ValBudget b). split; [|done].
  rewrite map_range_perm. apply elem_of_map_to_list, map_lookup_filter_Some. split; [done|]. cbn. by rewrite Hd, Ho', Hk', !eqs_refl.
Qed.
Next Obligation.
intros B I id [n v] [HB HI]. cbn [usage_GetBudget pg_BudgetUsageRepository]. unfold on_tables, pg_usage_GetBudget. cbn [fst snd] in *.
rewrite view_run_select, lookup_visible. subst B.
destruct (v !! RowBudget id) as [[b| | |]|] eqn:Hv; cbn; try (split; [done|by split]).
destruct (live (bd_DeletedAt b) && (bd_ID b =s id)) eqn:Hl; cbn; (split; [|by split]); [|done]. intros _.
change (pg_budgets v !! id = Some b ∧ bd_DeletedAt b = None). rewrite lookup_budgets, Hv. split; [done|]. apply andb_true_iff in Hl as [Hl _].
by destruct (bd_DeletedAt b).
Qed.
Next Obligation.
intros B I o k f t Hf Ht [n v] [HB HI]. cbn [SumContributions pg_BudgetUsageRepository]. unfold on_tables, pg_SumContributions. cbn [fst snd] in *.
rewrite view_run_select. cbv zeta. rewrite sum_rows by done. destruct (pg_bigint _) eqn:Hb; [|done]. cbn [fst snd]. split; [exact HB|]. split; [exact HI|].
rewrite sum_spec. unfold raw_sum. cbn [bs_contributions pg_usage_of]. rewrite (amounts_perm _ _ (range_values_perm _ _)).
cbn [snd]. match goal with |- ?x = wrap64 ?x ∧ _ => assert (is_int64 x) as Hx by (unfold pg_bigint in Hb; unfold is_int64; lia) end.
split; [symmetry; by apply wrap64_id|exact Hx].
Qed.
Next Obligation.
intros B I id start Hs [n v] [HB HI]. cbn [LoadUsage pg_BudgetUsageRepository]. unfold on_tables, pg_LoadUsage. cbn [fst snd] in *.
destruct (date_range _); [|done]. cbn [negb]. rewrite view_run_modify_row.
destruct (v !! RowUsage id (pg_date start)) as [[]|]; cbn; (split; [exact HB|]; split; [exact HI|by left]).
Qed.
Next Obligation.
intros B I u Hs [n v] [HB HI]. cbn [SaveUsage pg_BudgetUsageRepository]. unfold on_tables. cbn [fst snd] in *.
destruct (view_run _ v) as [v' [e|[]]] eqn:Hr; [done|]. apply save_usage_run in Hr as [Hd ->]. cbn [fst snd].
split; [rewrite <- HB; apply budgets_eq; intros id; by rewrite lookup_insert_ne|].
exists (pg_usage_of v), (mkBudgetUsage (bu_BudgetID u) (bu_PeriodStart u) (bu_SpentMinor u) (bu_AlertedPercent u) now). split; [exact HI|]. split; [done|].
unfold pg_usage_of. rewrite usages_save by done. unfold date_key. rewrite Hs. by rewrite (contributions_eq v) by (intros; by rewrite lookup_insert_ne).
Qed.
Next Obligation.
intros B I id [n v] [HB HI]. cbn [DeleteUsage pg_BudgetUsageRepository]. unfold on_tables. cbn [fst snd] in *.
rewrite delete_usage_run. cbn [fst snd]. split.
- rewrite <- HB. apply budgets_eq. intros i. rewrite map_lookup_filter. by destruct (v !! RowBudget i).
- exists (pg_usage_of v). split; [exact HI|]. unfold pg_usage_of. rewrite usages_delete. rewrite (contributions_eq v); [done|].
  intros i. rewrite map_lookup_filter. by destruct (v !! RowBudgetContribution i).
Qed.
End Laws.
