(* ===== verification/PgBudgetSpend.v ===== *)
(** * What the usage of a budget says in PostgreSQL (postgres/budget_usage_repository.go, service/budget_usage_projection.go)

    The handler run as one transaction does what the service's does over the repositories.
    So every usage row is the sum of the contributions beside it as long as no transaction
    is disturbed ([pg_budget_spend_exact]); the projection takes no lock on what it sums,
    and two workers that are disturb each other ([UsageSample.spend_lost]). *)

From S2P Require Export PgBudgets.
#[global] Open Scope Z_scope.

(** ** The transaction does what the service's handler does *)

Section Agrees.
Context `{GoRuntime} (violates : budgetRow → budgetValue → option error) (now : Time) (ids : nat → string).
#[local] Instance env_here : Env pgWorld := pg_env now ids.
#[local] Instance repository_here : BudgetUsageRepository pgWorld := pg_BudgetUsageRepository violates now.
#[local] Instance alerts_here : NotificationRepository pgWorld := pg_alerts violates.

Definition agrees {A} (t : drawing A) (m : M pgWorld A) : Prop := ∀ n v,
  match view_run (t n) v with
  | (v', inr (a, n')) => m (n, v) = ((n', v'), inr a)
  | (_, inl e) => ∃ w, m (n, v) = (w, inl e)
  end.

Lemma agrees_ret {A} (a : A) : agrees (mret a) (mret a).
Proof using Type. by intros n v. Qed.
Lemma agrees_throw {A} e : agrees (drawing_throw e : drawing A) (throw e).
Proof using Type. intros n v. by eexists. Qed.
Lemma agrees_bind {A B} (t : drawing A) (k : A → drawing B) m (h : A → M pgWorld B) : agrees t m → (∀ a, agrees (k a) (h a)) → agrees (t ≫= k) (m ≫= h).
Proof using Type.
intros Ht Hk n v. change ((t ≫= k) n) with (t n ≫= λ x, let '(a, n) := x in k a n). rewrite view_run_bind. unfold mbind, M_bind. specialize (Ht n v).
destruct (view_run (t n) v) as [v' [e|[a n']]].
- destruct Ht as [w ->]. by exists w.
- rewrite Ht. apply Hk.
Qed.
Lemma agrees_drawn {A} (t : budgetTx A) : agrees (drawn t) (on_tables t).
Proof using Type.
intros n v. unfold drawn. rewrite view_run_bind. unfold mbind, M_bind, on_tables. cbn. destruct (view_run t v) as [v' [e|a]]; [by eexists|done].
Qed.
Lemma agrees_draw : agrees (draw ids) (@NewString pgWorld (pg_env now ids)).
Proof using Type. by intros n v. Qed.
Lemma agrees_now {A} (t : drawing A) (k : Time → M pgWorld A) : agrees t (k now) → agrees t (Now ≫= k).
Proof using Type. done. Qed.
Lemma agrees_map_err {A} f (t : drawing A) m : agrees t m → agrees (drawing_map_err f t) (map_err f m).
Proof using Type.
intros Ht n v. unfold drawing_map_err. rewrite view_run_map_err. unfold map_err. specialize (Ht n v).
destruct (view_run (t n) v) as [v' [e|[a n']]]; [destruct Ht as [w ->]; by exists w|by rewrite Ht].
Qed.
Lemma agrees_each {A} (body : A → drawing ()) (body' : A → M pgWorld ()) l : (∀ x, agrees (body x) (body' x)) → agrees (drawing_each body l) (for_each body' l).
Proof using Type. intros Hb. induction l as [|x l IH]; [apply agrees_ret|]. by apply agrees_bind. Qed.
Lemma agrees_fold {A B} (body : B → A → drawing B) (body' : B → A → M pgWorld B) l : (∀ acc x, agrees (body acc x) (body' acc x)) →
  ∀ acc, agrees (drawing_fold body acc l) (fold_m body' acc l).
Proof using Type. intros Hb. induction l as [|x l IH]; intros acc; [apply agrees_ret|]. by apply agrees_bind. Qed.

Lemma agrees_windows previous found next : agrees (pg_affectedWindows previous found next) (affectedWindows previous found next).
Proof using Type.
apply agrees_bind; [|intros []; apply agrees_ret]. apply agrees_fold. intros acc [key times].
apply agrees_bind; [apply agrees_drawn|]. intros budgets. apply agrees_ret.
Qed.

Lemma agrees_alert alert : agrees (pg_queueAlert violates now ids alert) (queueAlert alert).
Proof using Type. apply agrees_bind; [apply agrees_draw|]. intros id. apply (agrees_map_err _ (drawn _) (on_tables _)), agrees_drawn. Qed.

Lemma agrees_window replay x : agrees (pg_recompute_window violates now ids replay x) (recompute_window replay x).
Proof using Type.
apply agrees_bind; [apply agrees_drawn|]. intros spent. apply agrees_bind; [apply agrees_drawn|]. intros [stored found]. cbv zeta.
apply (agrees_bind (drawn _) _ (on_tables _)); [apply agrees_drawn|]. intros _. case_match; [|apply agrees_ret].
destruct replay; [apply agrees_ret|apply agrees_alert].
Qed.

Lemma agrees_recompute windows replay : agrees (pg_recompute violates now ids windows replay) (recompute windows replay).
Proof using Type. apply agrees_each, agrees_window. Qed.

Lemma agrees_expense m : agrees (pg_handleExpense violates now ids m) (handleExpense m).
Proof using Type.
unfold pg_handleExpense, handleExpense. destruct (DecodeExpenseContribution _ _) as [e|[next [|]]]; [apply agrees_throw| |apply agrees_ret].
apply agrees_bind; [apply agrees_drawn|]. intros [previous found]. destruct (negb (ec_Active next) && negb found); [apply agrees_ret|]. cbv zeta.
apply agrees_bind; [apply agrees_drawn|]. intros _. apply agrees_bind; [apply agrees_windows|]. intros windows. apply agrees_recompute.
Qed.

Lemma agrees_budget m : agrees (pg_handleBudget violates now ids m) (handleBudget m).
Proof using Type.
unfold pg_handleBudget, handleBudget. apply agrees_now. destruct (DecodeBudget _ _ _) as [e|[b [|]]]; [apply agrees_throw| |apply agrees_ret].
destruct (_ || _); [apply agrees_drawn|]. apply (agrees_bind (drawn _) _ (on_tables _)); [apply agrees_drawn|]. intros [current found].
destruct (negb found); [apply agrees_drawn|]. apply agrees_now. destruct (BudgetWindow current now) as [start end_]. apply agrees_recompute.
Qed.

Lemma pg_handled_as_service m v :
  match view_run (pg_Handle_budget_usage violates now ids m) v with
  | (v', inr _) => ∃ n, Handle_budget_usage m (0%nat, v) = ((n, v'), inr ())
  | (_, inl e) => ∃ w, Handle_budget_usage m (0%nat, v) = (w, inl e)
  end.
Proof using Type.
unfold pg_Handle_budget_usage, Handle_budget_usage. rewrite view_run_bind. unfold mbind, M_bind.
assert (agrees (if AggregateType m =s "expense" then pg_handleExpense violates now ids m
  else if AggregateType m =s "budget" then pg_handleBudget violates now ids m else mret ())
  (if AggregateType m =s "expense" then handleExpense m else if AggregateType m =s "budget" then handleBudget m else mret ())) as Ha.
{ destruct (_ =s _); [apply agrees_expense|]. destruct (_ =s _); [apply agrees_budget|apply agrees_ret]. }
specialize (Ha 0%nat v). destruct (view_run _ v) as [v' [e|[[] n]]]; [exact Ha|]. by exists n.
Qed.
End Agrees.

(** ** What it leaves of the contributions *)

Section Mirror.
Context `{GoRuntime} (violates : budgetRow → budgetValue → option error) (now : Time) (ids : nat → string).

Definition unmirrored {A} (t : budgetTx A) : Prop := ∀ v,
  match view_run t v with (v', inr _) => pg_contributions v' = pg_contributions v | (_, inl _) => True end.
Definition unmirrored_all {A} (t : drawing A) : Prop := ∀ n, unmirrored (t n).

Lemma unmirrored_bind {A B} (t : budgetTx A) (k : A → budgetTx B) : unmirrored t → (∀ a, unmirrored (k a)) → unmirrored (t ≫= k).
Proof using Type.
intros Ht Hk v. rewrite view_run_bind. unfold mbind, M_bind. specialize (Ht v). destruct (view_run t v) as [v' [e|a]]; [done|].
specialize (Hk a v'). destruct (view_run (k a) v') as [v'' [e|b]]; [done|]. by rewrite Hk.
Qed.
Lemma unmirrored_ret {A} (a : A) : unmirrored (mret a).
Proof using Type. by intros v. Qed.
Lemma unmirrored_map_err {A} f (t : budgetTx A) : unmirrored t → unmirrored (tx_map_err f t).
Proof using Type. intros Ht v. rewrite view_run_map_err. unfold map_err. specialize (Ht v). by destruct (view_run t v) as [v' [e|a]]. Qed.
Lemma unmirrored_select {A} reads (k : budgetDB → budgetTx A) : (∀ rows, unmirrored (k rows)) → unmirrored (select reads k).
Proof using Type. intros Hk v. rewrite view_run_select. apply Hk. Qed.
Lemma unmirrored_save u : unmirrored (pg_SaveUsage violates now u).
Proof using Type.
intros v. destruct (view_run _ v) as [v' [e|[]]] eqn:Hr; [done|]. apply save_usage_run in Hr as [_ ->].
apply contributions_eq. intros id. by rewrite lookup_insert_ne.
Qed.
Lemma unmirrored_queue d : unmirrored (pg_queue violates d).
Proof using Type.
intros v. destruct (view_run _ v) as [v' [e|[]]] eqn:Hr; [done|]. apply insert_new_run in Hr as ->.
apply contributions_eq. intros id. by rewrite lookup_insert_ne.
Qed.
Lemma unmirrored_delete b : unmirrored (pg_DeleteUsage b).
Proof using Type.
intros v. rewrite delete_usage_run. apply contributions_eq. intros id. rewrite map_lookup_filter. by destruct (v !! RowBudgetContribution id).
Qed.
Lemma unmirrored_sum o c f t : unmirrored (pg_SumContributions o c f t).
Proof using Type. apply unmirrored_select. intros rows. cbv zeta. by destruct (pg_bigint _). Qed.
Lemma unmirrored_usage b s : unmirrored (pg_LoadUsage b s).
Proof using Type.
intros v. unfold pg_LoadUsage. destruct (date_range _); [|done]. cbn [negb]. rewrite view_run_modify_row. by destruct (v !! _) as [[]|].
Qed.
Lemma unmirrored_budgets o c : unmirrored (pg_ListBudgetsForCategory o c).
Proof using Type. unfold pg_ListBudgetsForCategory. destruct (_ || _); [apply unmirrored_ret|]. by apply unmirrored_select. Qed.
Lemma unmirrored_budget b : unmirrored (pg_usage_GetBudget b).
Proof using Type. apply unmirrored_select. intros rows. by destruct (rows !! _) as [[]|]. Qed.

Lemma unmirrored_then {A B} (t : drawing A) (k : A → drawing B) : unmirrored_all t → (∀ a, unmirrored_all (k a)) → unmirrored_all (t ≫= k).
Proof using Type. intros Ht Hk n. apply (unmirrored_bind (t n)); [apply Ht|]. intros [a n']. apply Hk. Qed.
Lemma unmirrored_drawn {A} (t : budgetTx A) : unmirrored t → unmirrored_all (drawn t).
Proof using Type. intros Ht n. apply unmirrored_bind; [exact Ht|]. intros a. apply unmirrored_ret. Qed.
Lemma unmirrored_done {A} (a : A) : unmirrored_all (mret a).
Proof using Type. intros n. apply unmirrored_ret. Qed.
#[local] Hint Resolve unmirrored_then unmirrored_drawn unmirrored_done unmirrored_save unmirrored_queue unmirrored_delete unmirrored_sum unmirrored_usage
  unmirrored_budgets unmirrored_budget : core.

Lemma unmirrored_recompute windows replay : unmirrored_all (pg_recompute violates now ids windows replay).
Proof using Type.
induction windows as [|x windows IH]; [apply unmirrored_done|]. apply unmirrored_then; [|intros _; exact IH].
apply unmirrored_then; [auto|]. intros spent. apply unmirrored_then; [auto|]. intros [stored found]. cbv zeta.
apply unmirrored_then; [auto|]. intros _. case_match; [|auto]. destruct replay; [auto|].
apply unmirrored_then; [by intros n v|]. intros id n. by apply unmirrored_map_err, unmirrored_drawn.
Qed.
Lemma unmirrored_windows previous found next : unmirrored_all (pg_affectedWindows previous found next).
Proof using Type.
apply unmirrored_then; [|intros []; auto]. generalize (map_range (add_scope next (if found then add_scope previous ∅ else ∅))).
intros l. generalize (∅ : gmap string (), [] : list budgetWindow).
induction l as [|[key times] l IH]; intros acc; [apply unmirrored_done|]. apply unmirrored_then; [|exact IH].
apply unmirrored_then; [auto|]. intros budgets. apply unmirrored_done.
Qed.

(** The mirror the projection keeps, as its columns have it. *)
Definition mirrored (l : gmap string ExpenseContribution) (m : Message) : gmap string ExpenseContribution :=
  if AggregateType m =s "expense" then
    match DecodeExpenseContribution (EventType m) (Payload m) with
    | inr (next, true) =>
        if ec_Active next then <[ec_ExpenseID next := budget_contribution next]> l
        else alter (λ c, budget_contribution (c <| ec_Active := false |>)) (ec_ExpenseID next) l
    | _ => l
    end
  else l.

Lemma view_run_then {A B} (t : drawing A) (k : A → drawing B) n v : view_run ((t ≫= k) n) v =
  match view_run (t n) v with (v', inr (a, n')) => view_run (k a n') v' | (v', inl e) => (v', inl e) end.
Proof using Type.
change ((t ≫= k) n) with (t n ≫= λ x, let '(a, n) := x in k a n). rewrite view_run_bind. unfold mbind, M_bind. by destruct (view_run (t n) v) as [v' [e|[a n']]].
Qed.
Lemma view_run_drawn {A} (t : budgetTx A) n v : view_run (drawn t n) v =
  match view_run t v with (v', inr a) => (v', inr (a, n)) | (v', inl e) => (v', inl e) end.
Proof using Type. unfold drawn. rewrite view_run_bind. unfold mbind, M_bind. by destruct (view_run t v) as [v' [e|a]]. Qed.

Lemma save_contribution_run c v v' : view_run (pg_usage_SaveContribution violates c) v = (v', inr ()) →
  pg_contributions v' = <[ec_ExpenseID c := budget_contribution c]> (pg_contributions v).
Proof using Type.
unfold pg_usage_SaveContribution. rewrite view_run_map_err. unfold map_err. destruct (view_run (upsert _ _ _) v) as [v1 [e|[]]] eqn:Hr; [done|].
intros [= <-]. apply upsert_run in Hr as ->. by rewrite contributions_save.
Qed.
Lemma load_contribution_run id v : ∃ previous found, view_run (pg_usage_LoadContribution id) v = (v, inr (previous, found)) ∧
  pg_contributions v !! id = if found then Some previous else None.
Proof using Type.
unfold pg_usage_LoadContribution. rewrite view_run_modify_row, lookup_contributions.
destruct (v !! RowBudgetContribution id) as [[|c| |]|] eqn:Hv; (eexists _, _; split; [reflexivity|done]).
Qed.

Lemma expense_mirrored m n v v' a : view_run (pg_handleExpense violates now ids m n) v = (v', inr a) →
  pg_contributions v' = match DecodeExpenseContribution (EventType m) (Payload m) with
    | inr (next, true) =>
        if ec_Active next then <[ec_ExpenseID next := budget_contribution next]> (pg_contributions v)
        else alter (λ c, budget_contribution (c <| ec_Active := false |>)) (ec_ExpenseID next) (pg_contributions v)
    | _ => pg_contributions v
    end.
Proof using Type.
unfold pg_handleExpense. destruct (DecodeExpenseContribution _ _) as [e|[next [|]]]; [done| |by intros [= <-]].
rewrite view_run_then, view_run_drawn. destruct (load_contribution_run (ec_ExpenseID next) v) as (previous & found & -> & Hp).
cbv iota beta. destruct (negb (ec_Active next) && negb found) eqn:Hnone.
{ apply andb_true_iff in Hnone as [Ha Hf]. apply negb_true_iff in Ha, Hf. subst found. rewrite Ha. intros [= <-]. apply map_eq. intros i.
  destruct (decide (i = ec_ExpenseID next)) as [->|Hne]; [by rewrite lookup_alter_eq, Hp|by rewrite lookup_alter_ne]. }
cbv zeta. set (c := if negb (ec_Active next) then _ else _). rewrite view_run_then, view_run_drawn.
destruct (view_run (pg_usage_SaveContribution violates c) v) as [v1 [e|[]]] eqn:Hs; [done|]. apply save_contribution_run in Hs.
intros Hr. pose proof (unmirrored_then _ _ (unmirrored_windows previous found c) (λ windows, unmirrored_recompute windows (Replay m)) n v1) as Hu.
rewrite Hr in Hu. rewrite Hu, Hs. subst c. destruct (ec_Active next); [done|]. cbn [negb] in *. destruct found; [|done].
assert (ec_ExpenseID previous = ec_ExpenseID next) as Hid.
{ rewrite lookup_contributions in Hp. destruct (v !! _) as [[]|]; try done. by injection Hp as <-. }
change (ec_ExpenseID (previous <| ec_Active := false |>)) with (ec_ExpenseID previous). rewrite Hid.
apply map_eq. intros i. destruct (decide (i = ec_ExpenseID next)) as [->|Hne].
- by rewrite lookup_insert_eq, lookup_alter_eq, Hp.
- by rewrite lookup_insert_ne, lookup_alter_ne.
Qed.

Lemma budget_unmirrored m : unmirrored_all (pg_handleBudget violates now ids m).
Proof using Type.
unfold pg_handleBudget. destruct (DecodeBudget _ _ _) as [e|[b [|]]]; [by intros n v| |auto].
destruct (_ || _); [auto|]. apply unmirrored_then; [auto|]. intros [current found]. destruct (negb found); [auto|].
destruct (BudgetWindow current now) as [start end_]. apply unmirrored_recompute.
Qed.

Lemma handled_mirrored m v v' : view_run (pg_Handle_budget_usage violates now ids m) v = (v', inr ()) →
  pg_contributions v' = mirrored (pg_contributions v) m.
Proof using Type.
unfold pg_Handle_budget_usage, mirrored. rewrite view_run_bind. unfold mbind, M_bind.
destruct (AggregateType m =s "expense").
- destruct (view_run _ v) as [v1 [e|[[] n]]] eqn:Hr; [done|]. intros [= <-]. by apply expense_mirrored in Hr.
- assert (unmirrored_all (if AggregateType m =s "budget" then pg_handleBudget violates now ids m else mret ())) as Hu
    by (destruct (_ =s _); [apply budget_unmirrored|apply unmirrored_done]).
  specialize (Hu 0%nat v). destruct (view_run _ v) as [v1 [e|[[] n]]]; [done|]. by intros [= <-].
Qed.
End Mirror.


(** ** Windows of days *)

Lemma days_aligned k : pg_date (k * day_ns) * day_ns = k * day_ns ∧ pg_time (k * day_ns) = k * day_ns.
Proof.
split; [by rewrite date_of_days|]. unfold pg_time. change day_ns with (86400000000 * 1000). by rewrite Z.mul_assoc, Z.mod_mul, Z.sub_0_r.
Qed.
Lemma date_days y m d : ∃ k, Date y m d 0 0 0 0 = k * day_ns.
Proof. exists (day_number (y + (m - 1) / 12) ((m - 1) mod 12 + 1) d). unfold Date. lia. Qed.
Lemma add_date_days k y m d : ∃ k', AddDate (k * day_ns) y m d = k' * day_ns.
Proof.
unfold AddDate, time_of_day. rewrite Z.mod_mul by done. apply date_days.
Qed.
Lemma period_start_days p t : ∃ k, RollupPeriodStart p t = k * day_ns.
Proof.
unfold RollupPeriodStart. cbv zeta. destruct (date_days (Year t) (Month t) (Day t)) as [k Hk].
repeat case_decide; try apply date_days. rewrite Hk. apply add_date_days.
Qed.

Lemma window_days b t : (∃ k, (BudgetWindow b t).1 = k * day_ns) ∧
  ((∃ k, (BudgetWindow b t).2 = k * day_ns) ∨ bd_DueAt b = Some (BudgetWindow b t).2).
Proof.
assert (∀ p u y m d, (∃ k, RollupPeriodStart p u = k * day_ns) ∧ ∃ k, AddDate (RollupPeriodStart p u) y m d = k * day_ns) as Hadd.
{ intros p u y m d. destruct (period_start_days p u) as [k Hk]. split; [by exists k|]. rewrite Hk. apply add_date_days. }
unfold BudgetWindow. cbv zeta. repeat case_decide; cbn [fst snd]; try (destruct (bd_DueAt b); cbn [fst snd]; [split; [apply period_start_days|by right]|]);
  match goal with |- context [AddDate (RollupPeriodStart ?p ?u) ?y ?m ?d] => destruct (Hadd p u y m d); auto end.
Qed.

(** ** Runs *)

Record usageTask := mkUsageTask { ut_message : Message; ut_now : Time; ut_ids : nat → string }.

Section Runs.
Context `{GoRuntime} (violates : budgetRow → budgetValue → option error).

Definition usage_program (task : usageTask) : budgetTx () :=
  pg_Handle_budget_usage violates (ut_now task) (ut_ids task) (ut_message task).

(** A time that is set, as the columns keep it. *)
Definition occurred (t : Time) : Prop := pg_time t ≠ 0.
(** A message whose live contribution occurred at some time. *)
Definition timed (m : Message) : Prop :=
  ∀ c, DecodeExpenseContribution (EventType m) (Payload m) = inr (c, true) → ec_Active c = true → occurred (ec_OccurredAt c).

(** Budgets under their ids, with an owner and a category, due at whole microseconds. *)
Definition budgets_stored (v : budgetDB) : Prop :=
  ∀ id b, v !! RowBudget id = Some (ValBudget b) → bd_ID b = id ∧ bd_OwnerID b ≠ "" ∧ bd_CategoryID b ≠ "" ∧ pg_time <$> bd_DueAt b = bd_DueAt b.

(** The sum of the live contributions of a period. *)
Definition pg_spend (v : budgetDB) (b : BudgetRecord) (t : Time) : Z :=
  let '(start, end_) := BudgetWindow b t in
  foldr (λ x total, amount_in x + total) 0 (map_to_list (visible (pg_counts (bd_OwnerID b) (bd_CategoryID b) start end_) v)).

(** What the generic development says of these repositories does not depend on the clock
    and the identifiers of a transaction. *)
#[local] Instance env_any : Env pgWorld := pg_env 0 (λ _, "").
#[local] Instance repository_any : BudgetUsageRepository pgWorld := pg_BudgetUsageRepository violates 0.
#[local] Instance alerts_any : NotificationRepository pgWorld := pg_alerts violates.
#[local] Instance laws_any : UsageLaws pgWorld := pg_usage_laws violates 0 (λ _, "").

Lemma commits_mirrored log : ∀ v v', commit_all usage_program log v = Some v' →
  pg_contributions v' = foldl mirrored (pg_contributions v) (map ut_message log).
Proof using Type.
induction log as [|[m now ids] log IH]; intros v v'; cbn [commit_all map foldl]; [by intros [= <-]|].
rewrite Within_view. unfold usage_program at 1. cbn [ut_message ut_now ut_ids].
destruct (view_run _ v) as [v1 [e|[]]] eqn:Hr; [done|]. apply handled_mirrored in Hr. rewrite <- Hr. apply IH.
Qed.

(** No period has been counted yet. *)
Record uncounted (v : budgetDB) : Prop := {
  un_rows b d : v !! RowUsage b d = None;
  un_times id c : v !! RowBudgetContribution id = Some (ValBudgetContribution c) → occurred (ec_OccurredAt c)
}.

Lemma uncounted_fresh B v : uncounted v → usage_fresh (W := pgWorld) B (pg_usage_of v).
Proof using Type.
intros [Hr Ht]. assert (∀ k u, pg_usages v !! k = Some u → False) as Hno.
{ intros k u Hu. destruct (usages_key _ _ _ Hu) as (b & d & Hd & ->). by rewrite lookup_usages, Hr in Hu. }
split; [split|]; cbn [bs_contributions bs_usage pg_usage_of].
- intros id c. rewrite lookup_contributions. destruct (v !! RowBudgetContribution id) as [[|c'| |]|] eqn:Hc; try done.
  intros [= <-]. split; [done|]. by apply (Ht id c').
- by intros k u Hu%Hno.
- by intros k u Hu%Hno.
Qed.

Lemma commits_fresh B log : sane_budgets B → edged (W := pgWorld) B → Forall (λ task, timed (ut_message task)) log →
  ∀ v v', pg_budgets v = B → usage_fresh (W := pgWorld) B (pg_usage_of v) → commit_all usage_program log v = Some v' →
  pg_budgets v' = B ∧ usage_fresh (W := pgWorld) B (pg_usage_of v').
Proof using Type.
intros HB HE Hlog. induction Hlog as [|[m now ids] log Hm Hlog IH]; intros v v' Hb Hf; cbn [commit_all]; [by intros [= <-]|].
rewrite Within_view. unfold usage_program at 1. cbn [ut_message ut_now ut_ids].
pose proof (pg_handled_as_service violates now ids m v) as Hs. destruct (view_run _ v) as [v1 [e|a]]; [done|].
destruct Hs as [n Hs]. unfold env_here, repository_here, alerts_here in Hs. apply IH.
all: pose proof (usage_handled (env := pg_env now ids) (repo := pg_BudgetUsageRepository violates now) (queue := pg_alerts violates)
  (laws := pg_usage_laws violates now ids) B m HB HE Hm (0%nat, v) (conj Hb Hf)) as Hh; rewrite Hs in Hh; apply Hh.
Qed.

(** [C9] Workers of any number of replicas apply the events of expenses and budgets,
    statement by statement, failing and retrying, while the budgets stand, from tables in
    which no usage row has been written and no contribution lacks its time.  The budgets
    are stored under their ids, with an owner and a category, and due, if at all, at whole
    microseconds, as their columns keep them; a message that tells a live expense tells
    when it occurred, to the nanosecond if it likes.  As long as no commit changes what
    another running transaction has read, the contributions are those the committed
    messages tell, and every usage row of a live budget for a period a date column can
    start holds exactly the sum, which no arithmetic has wrapped, of the live contributions
    of its owner and category in the period. *)
Theorem pg_budget_spend_exact db (steps : list tx_step) b t spent alerted updated :
  budgets_stored db → uncounted db →
  Forall (λ st, match st with TxBegin _ task => timed (ut_message task) | _ => True end) steps →
  all_undisturbed usage_program steps (tx_start db) = true →
  db !! RowBudget (bd_ID b) = Some (ValBudget b) → bd_DeletedAt b = None →
  let s := tx_run usage_program steps (tx_start db) in
  let day := pg_date (BudgetWindow b t).1 in
  pg_contributions (tx_db s) = foldl mirrored (pg_contributions db) (map ut_message (tx_log s)) ∧
  (date_range day = true → tx_db s !! RowUsage (bd_ID b) day = Some (ValUsage spent alerted updated) →
   spent = pg_spend (tx_db s) b t).
Proof using Type.
intros Hdb Hun Hsteps Hu Hb Hlive s day. pose proof (undisturbed_runs_serial usage_program db steps Hu) as Hcommit.
split; [exact (commits_mirrored _ _ _ Hcommit)|]. intros Hday Hrow. pose proof (uncounted_fresh (pg_budgets db) db Hun) as Hf. set (B := pg_budgets db) in *.
assert (∀ id c, (B : BudgetStore) !! id = Some c → db !! RowBudget id = Some (ValBudget c)) as Hlook.
{ intros id c Hc. change (pg_budgets db !! id = Some c) in Hc. rewrite lookup_budgets in Hc. by destruct (db !! RowBudget id) as [[]|]; simplify_eq. }
assert (sane_budgets B) as HB.
{ intros id c Hc%Hlook. destruct (Hdb id c Hc) as (H1 & H2 & H3 & _). done. }
assert (edged (W := pgWorld) B) as HE.
{ intros id c u Hc%Hlook. destruct (Hdb id c Hc) as (_ & _ & _ & Hdue). destruct (window_days c u) as [[k Hk] He]. rewrite Hk.
  destruct (days_aligned k) as [H1 H2]. split; [exact H1|]. split; [exact H2|]. destruct He as [[k' ->]|He]; [exact (proj2 (days_aligned k'))|].
  rewrite He in Hdue. cbn in Hdue. by injection Hdue. }
destruct (commits_fresh B _ HB HE (log_begun usage_program (λ task, timed (ut_message task)) steps db Hsteps) db (tx_db s) eq_refl Hf Hcommit) as [Hbs Hfs].
destruct (window_days b t) as [[k Hk] _]. assert (day * day_ns = (BudgetWindow b t).1) as Hdd.
{ unfold day. rewrite Hk. apply days_aligned. }
pose proof (fresh_row (W := pgWorld) B (pg_usage_of (tx_db s)) b t (mkBudgetUsage (bd_ID b) (day * day_ns) spent alerted updated) Hfs) as Hr.
cbn [bu_SpentMinor bu_PeriodStart] in Hr. destruct Hr as [-> Hsummed].
1: split; [|done]; change (pg_budgets db !! bd_ID b = Some b); by rewrite lookup_budgets, Hb.
1: change (pg_usages (tx_db s) !! usage_key (bd_ID b) (BudgetWindow b t).1 = Some (mkBudgetUsage (bd_ID b) (day * day_ns) spent alerted updated));
  rewrite <- Hdd; change (usage_key (bd_ID b) (day * day_ns)) with (date_key (bd_ID b) day); by rewrite lookup_usages, Hrow.
1: done.
- unfold window_sum, pg_spend. rewrite sum_spec. unfold window_raw in Hsummed. rewrite wrap64_id by exact Hsummed. cbn [bs_contributions pg_usage_of].
  rewrite (amounts_perm _ _ (range_values_perm _ _)). destruct (BudgetWindow b t) as [start end_] eqn:Hw. cbn [fst snd].
  destruct (HE (bd_ID b) b t) as (_ & He1 & He2); [change (pg_budgets db !! bd_ID b = Some b); by rewrite lookup_budgets, Hb|].
  rewrite Hw in He1, He2. symmetry. by apply sum_rows.
Qed.
End Runs.

(** ** Example: two workers *)

Module UsageSample.
#[local] Existing Instance default_runtime.
Definition budget (id category : string) : BudgetRecord :=
  mkBudgetRecord id "u1" category "Budget" "EUR" "" 200000 80 BudgetMonthly None 1000 1000 None.
Definition food : BudgetRecord := budget "b1" "food".
Definition travel : BudgetRecord := budget "b2" "travel".
Definition budgeted : budgetDB := {[RowBudget "b1" := ValBudget food; RowBudget "b2" := ValBudget travel]}.
Definition recorded (id category : string) (amount : Z) : Message :=
  zero_Message <| EventID := id |> <| AggregateType := "expense" |> <| AggregateID := id |> <| EventType := "expense_added" |>
    <| Payload := enc_payload (ExpenseAdded (sample_expense <| ex_ID := id |> <| ex_CategoryID := category |> <| ex_AmountMinor := amount |>)) |>.
Definition task (id category : string) (amount : Z) : usageTask := mkUsageTask (recorded id category amount) 1000000 (λ _, id).
Definition free : budgetRow → budgetValue → option error := λ _ _, None.

(** Statement by statement in turn. *)
Definition together (t1 t2 : usageTask) : list tx_step :=
  [TxBegin 0 t1; TxBegin 1 t2] ++ concat (replicate 8 [TxNext 0; TxNext 1]) ++ [TxEnd 0] ++ replicate 4 (TxNext 1) ++ [TxEnd 1].
Lemma together_begins (P : usageTask → Prop) t1 t2 : P t1 → P t2 →
  Forall (λ st, match st with TxBegin _ l => P l | _ => True end) (together t1 t2).
Proof. intros H1 H2. unfold together. cbn [replicate concat app]. by repeat constructor. Qed.
Definition day : Z := pg_date (BudgetWindow food (ex_OccurredAt sample_expense)).1.
Definition spent_of (b : string) (s : @txState budgetRow budgetValue _ _ usageTask) : option Z :=
  match tx_db s !! RowUsage b day with Some (ValUsage spent _ _) => Some spent | _ => None end.

(** Two expenses of one budget at the same time: both are counted, neither in the other's
    sum, and the row that is written last leaves the first expense out. *)
Definition raced : txState := tx_run (usage_program free) (together (task "e1" "food" 1250) (task "e2" "food" 900)) (tx_start budgeted).
Example spend_lost : (spent_of "b1" raced, pg_spend (tx_db raced) food (ex_OccurredAt sample_expense), length (tx_log raced)) = (Some 900, 2150, 2%nat).
Proof. vm_compute. reflexivity. Qed.

(** Of two budgets: undisturbed. *)
Definition apart : list tx_step := together (task "e1" "food" 1250) (task "e2" "travel" 900).
Definition counted : txState := tx_run (usage_program free) apart (tx_start budgeted).
Example both_spent : (spent_of "b1" counted, spent_of "b2" counted) = (Some 1250, Some 900).
Proof. vm_compute. reflexivity. Qed.

Lemma budgeted_stored : budgets_stored budgeted.
Proof.
intros id b Hb. unfold budgeted in Hb. apply lookup_insert_Some in Hb as [[Hk Hv]|[_ Hb]]; [|apply lookup_singleton_Some in Hb as [Hk Hv]];
  injection Hk as <-; injection Hv as <-; done.
Qed.
Lemma budgeted_uncounted : uncounted budgeted.
Proof.
split; [intros b d|intros id c]; unfold budgeted; rewrite lookup_insert_ne, lookup_singleton_ne by done; done.
Qed.
Lemma recorded_timed id category amount : id ≠ "" → category ≠ "" → is_int64 amount → timed (recorded id category amount).
Proof.
intros Hid Hcat Hn c Hc _. change (EventType (recorded id category amount)) with "expense_added" in Hc.
assert (DecodeExpenseContribution "expense_added" (Payload (recorded id category amount)) =
  inr (contribution_of (sample_expense <| ex_ID := id |> <| ex_CategoryID := category |> <| ex_AmountMinor := amount |>), true)) as Hdec.
{ apply (contribution_event_roundtrip (ExpenseAdded (sample_expense <| ex_ID := id |> <| ex_CategoryID := category |> <| ex_AmountMinor := amount |>)));
    [by vm_compute|]. split; [|exact Hid]. split; [exact Hn|]. apply sample_expense_fits. }
rewrite Hdec in Hc. injection Hc as <-. by vm_compute.
Qed.
Lemma first_timed : timed (ut_message (task "e1" "food" 1250)).
Proof. apply (recorded_timed "e1" "food" 1250); [discriminate|discriminate|by vm_compute]. Qed.
Lemma second_timed : timed (ut_message (task "e2" "travel" 900)).
Proof. apply (recorded_timed "e2" "travel" 900); [discriminate|discriminate|by vm_compute]. Qed.
End UsageSample.

Lemma pg_budget_spend_exact_witness :
  length (map_to_list (pg_contributions (tx_db UsageSample.counted))) = 2%nat ∧
  UsageSample.spent_of "b1" UsageSample.counted =
  Some (pg_spend (tx_db UsageSample.counted) UsageSample.food (ex_OccurredAt sample_expense)).
Proof.
pose proof (pg_budget_spend_exact (H := default_runtime) UsageSample.free UsageSample.budgeted UsageSample.apart UsageSample.food (ex_OccurredAt sample_expense)
  1250 0 1000000 UsageSample.budgeted_stored UsageSample.budgeted_uncounted
  (UsageSample.together_begins (λ task, timed (ut_message task)) _ _ UsageSample.first_timed UsageSample.second_timed)
  ltac:(vm_compute; reflexivity) eq_refl eq_refl) as [Hkept Hspend].
split; [unfold UsageSample.counted; rewrite Hkept; vm_compute; reflexivity|].
refine (eq_trans (_ : _ = Some 1250) (f_equal Some (Hspend _ _))); vm_compute; reflexivity.
Defined.
