(* ===== verification/PgRecords.v ===== *)
(** * Reports, audit entries, AI requests and object references in PostgreSQL

    The repositories of postgres/report_repository.go, audit_repository.go,
    ai_request_repository.go and object_reference_repository.go, a transaction per method.
    Reports and the events of the audit trail are written once by whoever comes first
    ([PgOnce]), so replicas need no other coordination ([pg_report_once],
    [pg_audit_trail_exact]). *)

From S2P Require Export Prelude GoTime GoStrings Domain Outbox UnitOfWork Ports AuditTrail PgOnce.
#[global] Open Scope Z_scope.

(** ** Tables *)

(** A report under its unique key, and the entry of its id in the primary key; an audit
    entry under its event, or under its own id when it has none. *)
Inductive recordRow :=
  | RowReport (owner kind : string) (start : Z) (format : string) | RowReportID (id : string)
  | RowEntry (eventID : string) | RowUnsourced (id : string) | RowRequest (id : string) | RowObject (key : string).
#[export] Instance recordRow_eq_dec : EqDecision recordRow.
Proof. solve_decision. Defined.
#[export] Instance recordRow_countable : Countable recordRow.
Proof.
refine (inj_countable' (λ r, match r with
  | RowReport o k d f => inl (inl (o, k, d, f)) | RowReportID id => inl (inr id)
  | RowEntry e => inr (inl (inl e)) | RowUnsourced id => inr (inl (inr id)) | RowRequest id => inr (inr (inl id)) | RowObject k => inr (inr (inr k)) end)
  (λ s, match s with
  | inl (inl (o, k, d, f)) => RowReport o k d f | inl (inr id) => RowReportID id
  | inr (inl (inl e)) => RowEntry e | inr (inl (inr id)) => RowUnsourced id | inr (inr (inl id)) => RowRequest id | inr (inr (inr k)) => RowObject k end) _).
by intros [].
Defined.
Inductive recordValue :=
  | ValReport (r : Report) | ValReportID | ValEntry (e : AuditEntry) | ValRequest (r : AIRequestRecord) | ValObject (r : ObjectReference).
#[local] Instance Report_eq_dec : EqDecision Report.
Proof. solve_decision. Defined.
#[local] Instance AuditEntry_eq_dec : EqDecision AuditEntry.
Proof. solve_decision. Defined.
#[local] Instance TokenUsage_eq_dec : EqDecision TokenUsage.
Proof. solve_decision. Defined.
#[local] Instance AIRequestRecord_eq_dec : EqDecision AIRequestRecord.
Proof. solve_decision. Defined.
#[local] Instance ObjectReference_eq_dec : EqDecision ObjectReference.
Proof. solve_decision. Defined.
#[export] Instance recordValue_eq_dec : EqDecision recordValue.
Proof. solve_decision. Defined.

Abbreviation recordDB := (gmap recordRow recordValue).
Abbreviation recordTx := (@tx recordRow recordValue recordRow_eq_dec recordRow_countable).

Section Repository.
(** The casts to uuid and date, the foreign keys and the check constraints. *)
Context (violates : recordRow → recordValue → option error).

Definition allowed (k : recordRow) (x : recordValue) : error + option (option recordValue) :=
  match violates k x with Some e => inl e | None => inr (Some (Some x)) end.

(** ** Reports *)

Definition report_row (r : Report) : recordRow := RowReport (rep_OwnerID r) (rep_PeriodKind r) (pg_date (rep_PeriodStart r)) (rep_Format r).
Definition report_columns (r : Report) : Report :=
  mkReport (rep_ID r) (rep_OwnerID r) (rep_PeriodKind r) (pg_date (rep_PeriodStart r) * day_ns) (rep_Format r) (rep_ObjectKey r) (pg_time (rep_CreatedAt r)).
(** [insert ... on conflict (owner_id, period_kind, period_start, format) do nothing]. *)
Definition pg_CreateReport (r : Report) : recordTx () :=
  Stmt (λ k _, bool_decide (k = report_row r) || bool_decide (k = RowReportID (rep_ID r)))
    (λ v, match v !! report_row r with
          | Some _ => inr ∅
          | None =>
              match violates (report_row r) (ValReport (report_columns r)) with
              | Some e => inl e
              | None => if bool_decide (is_Some (v !! RowReportID (rep_ID r))) then inl unique_violation
                        else inr {[report_row r := Some (ValReport (report_columns r)); RowReportID (rep_ID r) := Some ValReportID]}
              end
          end)
    (λ v, match v !! report_row r with Some _ => tx_throw ErrReportExists | None => mret () end).

Definition owned_report (owner : string) (test : Report → bool) (_ : recordRow) (x : recordValue) : bool :=
  match x with ValReport r => (rep_OwnerID r =s owner) && test r | _ => false end.
(** Reports created at the same time come in any order. *)
Definition pg_ListReports `{GoRuntime} (owner : string) : recordTx (list Report) :=
  select (owned_report owner (λ _, true)) (λ rows,
    mret (sort_slice (λ x y, After (rep_CreatedAt x) (rep_CreatedAt y))
      (omap (λ x, match x.2 with ValReport r => Some r | _ => None end) (map_range rows)))).
Definition pg_GetReport (owner id : string) : recordTx Report :=
  select_one (owned_report owner (λ r, rep_ID r =s id)) (λ x, match x with ValReport r => mret r | _ => tx_throw pgx_ErrNoRows end).

(** ** The audit trail *)

Definition audit_row (id : string) (e : AuditEntry) : recordRow := if ae_EventID e =s "" then RowUnsourced id else RowEntry (ae_EventID e).
Definition audit_columns (e : AuditEntry) : AuditEntry :=
  mkAuditEntry (ae_EventID e) (ae_ActorID e) (ae_Action e) (ae_ResourceType e) (ae_ResourceID e) (ae_Metadata e) (pg_time (ae_OccurredAt e)).
(** [insert ... on conflict (event_id) where event_id is not null do nothing]; [id] is
    the identifier the database draws. *)
Definition pg_AppendEntry (id : string) (e : AuditEntry) : recordTx () :=
  tx_map_err (λ err, Errorf "append audit entry: " err "")
    (modify_row (audit_row id e)
       (λ old, match old with
               | Some _ => if ae_EventID e =s "" then inl unique_violation else inr None
               | None => allowed (audit_row id e) (ValEntry (audit_columns e))
               end)
       (λ _, mret ())).

Definition pg_audit_matches (f : AuditFilter) (_ : recordRow) (x : recordValue) : bool :=
  match x with
  | ValEntry e =>
      ((au_ActorID f =s "") || (ae_ActorID e =s au_ActorID f)) &&
      ((au_ResourceType f =s "") || (ae_ResourceType e =s au_ResourceType f)) &&
      ((au_ResourceID f =s "") || (ae_ResourceID e =s au_ResourceID f)) &&
      ((au_Action f =s "") || (ae_Action e =s au_Action f)) &&
      (IsZero (au_From f) || negb (Before (ae_OccurredAt e) (pg_time (au_From f)))) &&
      (IsZero (au_To f) || negb (After (ae_OccurredAt e) (pg_time (au_To f))))
  | _ => false
  end.
(** Entries that occurred at the same time come in any order. *)
Definition pg_ListEntries `{GoRuntime} (f : AuditFilter) : recordTx (list AuditEntry) :=
  if (au_Limit f <? 0) || (au_Offset f <? 0) then tx_throw (Errorf "list audit entries: " (ErrorsNew "LIMIT and OFFSET must not be negative") "")
  else select (pg_audit_matches f) (λ rows,
    mret (take (Z.to_nat (au_Limit f)) (drop (Z.to_nat (au_Offset f))
      (sort_slice (λ x y, After (ae_OccurredAt x) (ae_OccurredAt y))
        (omap (λ x, match x.2 with ValEntry e => Some e | _ => None end) (map_range rows)))))).

(** ** AI requests *)

Definition request_columns (id : string) (r : AIRequestRecord) : AIRequestRecord :=
  mkAIRequestRecord id (ar_UserID r) (ar_Workload r) (ar_Model r) (ar_Usage r) (ar_LatencyMS r) (ar_Outcome r) (ar_ErrorMessage r) (pg_time (ar_CreatedAt r)).
(** [fresh]: what [uuid.NewString] draws. *)
Definition pg_RecordRequest (fresh : string) (r : AIRequestRecord) : recordTx () :=
  let id := if ar_ID r =s "" then fresh else ar_ID r in
  tx_map_err (λ err, Errorf "record AI request: " err "")
    (modify_row (RowRequest id)
       (λ old, match old with Some _ => inl unique_violation | None => allowed (RowRequest id) (ValRequest (request_columns id r)) end)
       (λ _, mret ())).

Definition request_since (since : Time) (_ : recordRow) (x : recordValue) : bool :=
  match x with ValRequest r => negb (Before (ar_CreatedAt r) (pg_time since)) | _ => false end.
Definition sum_of (f : AIRequestRecord → Z) (l : list AIRequestRecord) : Z := foldr (λ r n, f r + n) 0 l.
Definition workload_usage (workload : AIWorkload) (l : list AIRequestRecord) : AIWorkloadUsage :=
  let l := List.filter (λ r, ar_Workload r =s workload) l in
  mkAIWorkloadUsage workload (Z.of_nat (length l)) (Z.of_nat (length (List.filter (λ r, ar_Outcome r =s AIRequestError) l)))
    (sum_of (λ r, tu_InputTokens (ar_Usage r)) l) (sum_of (λ r, tu_OutputTokens (ar_Usage r)) l).
(** The sums are numerics, which must fit the fields they are scanned into. *)
Definition pg_Summarize (since : Time) : recordTx AIUsageSummary :=
  select (request_since since) (λ rows,
    let l := omap (λ x, match x.2 with ValRequest r => Some r | _ => None end) (map_to_list rows) in
    let groups := map (λ w, workload_usage w l) (sort_slice_stable string_less (remove_dups (map ar_Workload l))) in
    if forallb (λ u, pg_bigint (wu_InputTokens u) && pg_bigint (wu_OutputTokens u)) groups
    then mret (mkAIUsageSummary since groups) else tx_throw out_of_range).

(** ** Object references *)

(** [insert ... on conflict (object_key) do update]. *)
Definition pg_TrackObject (now : Time) (r : ObjectReference) : recordTx () :=
  let active := mkObjectReference (or_ObjectKey r) (or_OwnerID r) (or_ResourceType r) (or_ResourceID r) ObjectReferenceActive now in
  tx_map_err (λ err, Errorf ("track object " +:+ or_ObjectKey r +:+ ": ") err "")
    (modify_row (RowObject (or_ObjectKey r)) (λ _, allowed (RowObject (or_ObjectKey r)) (ValObject active)) (λ _, mret ())).
Definition orphaned_by (resourceType resourceID keep : string) (k : recordRow) (x : recordValue) : bool :=
  match k, x with
  | RowObject _, ValObject r => (or_ResourceType r =s resourceType) && (or_ResourceID r =s resourceID) && (or_State r =s ObjectReferenceActive) && (or_ObjectKey r ≠s keep)
  | _, _ => false
  end.
Definition set_object (f : ObjectReference → ObjectReference) (x : recordValue) : recordValue := match x with ValObject r => ValObject (f r) | _ => x end.
Definition pg_OrphanObjectsFor (now : Time) (resourceType resourceID keep : string) : recordTx () :=
  update_rows (orphaned_by resourceType resourceID keep)
    (set_object (λ r, r <| or_State := ObjectReferenceOrphaned |> <| or_UpdatedAt := now |>)) (λ _, mret ()).
(** The rows another transaction holds are left out of the rows it sees here. *)
Definition pg_ClaimOrphans `{GoRuntime} (limit : Z) : recordTx (list ObjectReference) :=
  let limit := if (limit <=? 0) || (200 <? limit) then 50 else limit in
  select (λ _ x, match x with ValObject r => or_State r =s ObjectReferenceOrphaned | _ => false end) (λ rows,
    mret (take (Z.to_nat limit) (sort_slice (λ x y, Before (or_UpdatedAt x) (or_UpdatedAt y))
      (omap (λ x, match x.2 with ValObject r => Some (r <| or_State := ObjectReferenceOrphaned |>) | _ => None end) (map_range rows))))).
Definition pg_ForgetObject (objectKey : string) : recordTx () :=
  delete_rows (λ k _, bool_decide (k = RowObject objectKey)) (mret ()).

(** ** The methods as transactions of several replicas *)

Inductive recordTask :=
  | TaskReport (r : Report) | TaskAudit (id : string) (m : Message) | TaskRequest (fresh : string) (r : AIRequestRecord)
  | TaskTrack (now : Time) (r : ObjectReference) | TaskOrphan (now : Time) (resourceType resourceID keep : string) | TaskForget (key : string).

(** [TaskAudit] is the audit projection at work on a delivery. *)
Definition record_program (task : recordTask) : recordTx () :=
  match task with
  | TaskReport r => pg_CreateReport r
  | TaskAudit id m => pg_AppendEntry id (audit_entry m)
  | TaskRequest fresh r => pg_RecordRequest fresh r
  | TaskTrack now r => pg_TrackObject now r
  | TaskOrphan now resourceType resourceID keep => pg_OrphanObjectsFor now resourceType resourceID keep
  | TaskForget key => pg_ForgetObject key
  end.

Definition is_record (k : recordRow) : Prop := match k with RowReport _ _ _ _ | RowReportID _ | RowEntry _ => True | _ => False end.

Lemma allowed_some k x row : allowed k x = inr (Some row) → row = Some x.
Proof using Type. unfold allowed. destruct (violates k x); [done|]. by intros [= <-]. Qed.

Lemma create_report_once r : writes_once is_record (pg_CreateReport r).
Proof using Type.
split; [|intros v; by destruct (v !! _)]. intros k v ch Hk Hv Hst Hi.
destruct (v !! report_row r) eqn:Hrow; [injection Hst as <-; by destruct Hi as [c ?%lookup_empty_Some]|].
destruct (violates _ _) eqn:Hviol; [done|]. case_bool_decide as Hid; [done|]. injection Hst as <-.
assert (k = report_row r ∨ k = RowReportID (rep_ID r)) as Hkk.
{ destruct Hi as [c [[<- _]|[_ [<- _]%lookup_singleton_Some]]%lookup_insert_Some]; auto. }
split; [|split; [|split]].
- destruct Hkk as [->| ->]; [done|]. by apply eq_None_not_Some.
- destruct Hkk as [->| ->]; [rewrite lookup_insert_eq; by eexists|]. rewrite lookup_insert_ne, lookup_singleton_eq by done. by eexists.
- intros x. destruct Hkk as [->| ->]; apply orb_true_iff; [left|right]; by apply bool_decide_eq_true.
- intros v' ch'. cbn. destruct (v' !! report_row r); [intros [= <-]; by left|]. case_bool_decide; [done|]. intros [= <-]. right.
  destruct Hkk as [->| ->]; [rewrite lookup_insert_eq; by eexists|]. rewrite lookup_insert_ne, lookup_singleton_eq by done. by eexists.
Qed.

Lemma record_once task : writes_once is_record (record_program task).
Proof using Type.
destruct task as [r|id m|fresh r|now r|now t id keep|key]; cbn [record_program].
- apply create_report_once.
- apply writes_once_map_err, writes_once_modify; [|done]. intros [x|] ch Hk; [by case_match|]. intros ->%allowed_some. split; [done|by eexists].
- apply writes_once_map_err, writes_once_modify; [|done]. intros row ch [].
- apply writes_once_map_err, writes_once_modify; [|done]. intros row ch [].
- apply writes_once_update; [|done]. by intros [] [].
- apply writes_once_apart; [|done]. intros v ch k Hv [= <-] Hk. rewrite lookup_fmap. destruct (v !! k) as [x|] eqn:Hx; [|done].
  apply Hv, bool_decide_eq_true in Hx as ->. done.
Qed.

(** However replicas generate reports, at most one report of a period and a format is
    recorded, and it stays. *)
Lemma pg_report_once db steps : let s := tx_run record_program steps (tx_start db) in
  NoDup (omap (λ task, match task with TaskReport r => Some (report_row r) | _ => None end) (tx_log s)) ∧
  ∀ r, TaskReport r ∈ tx_log s → tx_db s !! report_row r = Some (ValReport (report_columns r)).
Proof using Type.
intros s. set (claims task := match task with TaskReport r => Some (report_row r, ValReport (report_columns r)) | _ => None end).
assert (∀ task k x, claims task = Some (k, x) → is_record k ∧ must_write k x (record_program task)) as Hclaims.
{ intros [r| | | | |] k x; try done. intros [= <- <-]. split; [done|]. intros v ch. cbn. destruct (v !! report_row r); [intros _; by right|].
  destruct (violates _ _); [done|]. case_bool_decide; [done|]. intros [= <-]. left. apply lookup_insert_eq. }
destruct (claims_once record_program is_record claims record_once Hclaims db steps) as [Hnd Hrows]. fold s in Hnd, Hrows.
split; [|intros r Hr; by apply (Hrows (TaskReport r))].
erewrite <- (list_omap_ext _ _ (tx_log s) (tx_log s)); [exact Hnd|]. apply Forall_Forall2_diag, Forall_true. by intros [].
Qed.

(** ** The trail *)

(** What a task must leave behind, and what it may write. *)
Definition audited (task : recordTask) (k : recordRow) : Prop :=
  match task with TaskAudit _ m => EventID m ≠ "" ∧ k = RowEntry (EventID m) | _ => False end.
Definition audit_written (task : recordTask) (k : recordRow) (x : recordValue) : Prop :=
  ∀ e, k = RowEntry e → ∃ id m, task = TaskAudit id m ∧ e = EventID m ∧ x = ValEntry (audit_columns (audit_entry m)).

Lemma audited_once task k : audited task k → is_record k ∧ ensures k (record_program task).
Proof using Type.
destruct task as [|id m| | | |]; try done. intros [Hm ->]. split; [done|]. apply ensures_map_err. intros v ch. cbn.
assert (audit_row id (audit_entry m) = RowEntry (EventID m)) as Hrow by (unfold audit_row; cbn; by rewrite eqs_ne). rewrite Hrow.
destruct (v !! RowEntry (EventID m)) as [x|] eqn:Hx; [intros _; right; left; by eexists|].
destruct (allowed _ _) as [e|[row|]] eqn:Ha; [done| |unfold allowed in Ha; by case_match].
apply allowed_some in Ha as ->. intros [= <-]. left. eexists. apply lookup_singleton_eq.
Qed.

Lemma audit_writes task : writes_of is_record (audit_written task) (record_program task).
Proof using Type.
destruct task as [r|id m|fresh r|now r|now t id keep|key]; cbn [record_program].
- split; [|intros v; by destruct (v !! _)]. intros v ch k x _ _ Hst Hx e ->.
  destruct (v !! report_row r); [injection Hst as <-; by rewrite lookup_empty in Hx|]. destruct (violates _ _); [done|].
  case_bool_decide; [done|]. injection Hst as <-. by rewrite lookup_insert_ne, lookup_singleton_ne in Hx.
- apply writes_of_map_err, writes_of_modify; [|done]. intros [old|] x; [by case_match|]. intros [= ->]%allowed_some e Hrow.
  exists id, m. split; [done|]. unfold audit_row in Hrow. destruct (_ =s _); [done|]. by injection Hrow.
- apply writes_of_map_err, writes_of_modify; [|done]. intros row x _ e [=].
- apply writes_of_map_err, writes_of_modify; [|done]. intros row x _ e [=].
- apply writes_of_apart; [|done]. intros v ch k x Hk Hv [= <-]. rewrite lookup_fmap. destruct (v !! k) as [y|] eqn:Hy; [|done].
  apply Hv in Hy. by destruct k.
- apply writes_of_apart; [|done]. intros v ch k x Hk Hv [= <-]. rewrite lookup_fmap. by destruct (v !! k).
Qed.

Lemma is_record_entry e : is_record (RowEntry e).
Proof using Type. done. Qed.

(** [C11] However the audit workers of any number of replicas work off their deliveries,
    statement by statement, failing, aborting and redelivering, beside everything else that
    is recorded: the trail has an entry for exactly the events a committed delivery told,
    one each, and as the event was. *)
Theorem pg_audit_trail_exact (told : string → AuditEntry) (steps : list tx_step) :
  Forall (λ st, match st with TxBegin _ (TaskAudit _ m) => EventID m ≠ "" ∧ audit_entry m = told (EventID m) | _ => True end) steps →
  let s := tx_run record_program steps (tx_start ∅) in
  ∀ e x, tx_db s !! RowEntry e = Some x ↔
    x = ValEntry (audit_columns (told e)) ∧ ∃ id m, TaskAudit id m ∈ tx_log s ∧ EventID m = e.
Proof using Type.
intros Hsteps s e x.
destruct (ensured_once is_record record_program audited audit_written record_once audited_once audit_writes ∅ steps) as [Hlog Hrows].
pose proof (log_begun record_program (λ task, match task with TaskAudit _ m => EventID m ≠ "" ∧ audit_entry m = told (EventID m) | _ => True end) steps ∅ Hsteps) as Hl.
fold s in Hlog, Hrows, Hl. rewrite Forall_forall in Hl.
assert (∀ y, tx_db s !! RowEntry e = Some y → y = ValEntry (audit_columns (told e)) ∧ ∃ id m, TaskAudit id m ∈ tx_log s ∧ EventID m = e) as Hrow.
{ intros y Hy. destruct (Hrows _ _ (is_record_entry e) Hy) as [Hy0|(task & Hin & Hw)]; [by rewrite lookup_empty in Hy0|].
  destruct (Hw e eq_refl) as (id & m & -> & -> & ->). destruct (Hl _ Hin) as [_ <-]. split; [done|]. by exists id, m. }
split; [apply Hrow|]. intros (-> & id & m & Hin & <-). destruct (Hl _ Hin) as [Hm _].
destruct (Hlog (TaskAudit id m) (RowEntry (EventID m)) Hin (conj Hm eq_refl)) as [y Hy]. rewrite Hy. f_equal. by apply Hrow.
Qed.
End Repository.

(** ** Example: an event delivered to two replicas *)

Module TrailSample.
Definition anything : recordRow → recordValue → option error := λ _ _, None.
Definition delivery (event : string) : Message :=
  zero_Message <| EventID := event |> <| EventType := "expense_added" |> <| AggregateType := "expense" |> <| AggregateID := "x" |> <| OccurredAt := 2000000 |>.
Definition told (event : string) : AuditEntry := audit_entry (delivery event).
(** The second waits for the first; a third worker dies. *)
Definition deliveries : list tx_step :=
  [TxBegin 0 (TaskAudit "a" (delivery "e1")); TxBegin 1 (TaskAudit "b" (delivery "e1")); TxNext 0; TxNext 1; TxEnd 0; TxNext 1; TxEnd 1;
   TxBegin 2 (TaskAudit "c" (delivery "e2")); TxNext 2; TxAbort 2].
Definition trail : txState := tx_run (record_program anything) deliveries (tx_start ∅).
Example trail_once : (map fst (map_to_list (tx_db trail)), length (tx_log trail)) = ([RowEntry "e1"], 2%nat).
Proof. vm_compute. reflexivity. Qed.
Lemma deliveries_told :
  Forall (λ st, match st with TxBegin _ (TaskAudit _ m) => EventID m ≠ "" ∧ audit_entry m = told (EventID m) | _ => True end) deliveries.
Proof. unfold deliveries. repeat (apply Forall_cons; split; [first [exact I|split; [discriminate|reflexivity]]|]). by apply Forall_nil. Qed.

(** Two replicas generate the same report: one is told that it exists. *)
Definition month (id : string) : Report := mkReport id "u1" "month" 0 "csv" ("reports/" +:+ id) 0.
Definition generated : txState :=
  tx_run (record_program anything) [TxBegin 0 (TaskReport (month "r1")); TxBegin 1 (TaskReport (month "r2"));
    TxNext 0; TxNext 1; TxEnd 0; TxNext 1; TxEnd 1] (tx_start ∅).
Example one_report : (bool_decide (RowReportID "r1" ∈ dom (tx_db generated)), bool_decide (RowReportID "r2" ∈ dom (tx_db generated)), length (tx_log generated)) =
  (true, false, 1%nat).
Proof. vm_compute. reflexivity. Qed.
End TrailSample.

Lemma pg_audit_trail_exact_witness : tx_db TrailSample.trail !! RowEntry "e1" = Some (ValEntry (audit_columns (TrailSample.told "e1"))).
Proof.
apply (pg_audit_trail_exact TrailSample.anything TrailSample.told TrailSample.deliveries TrailSample.deliveries_told). split; [reflexivity|].
assert (tx_log TrailSample.trail = [TaskAudit "a" (TrailSample.delivery "e1"); TaskAudit "b" (TrailSample.delivery "e1")]) as Hlog by (vm_compute; reflexivity).
exists "a", (TrailSample.delivery "e1"). split; [|reflexivity]. change (TaskAudit "a" (TrailSample.delivery "e1") ∈ tx_log TrailSample.trail).
rewrite Hlog. by left.
Defined.
