(* ===== verification/PgGroups.v ===== *)
(** * Groups, categories and tags in PostgreSQL (postgres/group_repository.go, taxonomy_repository.go)

    The three tables of named things, their unique names, the members of groups, and what
    refers to them; the methods as transactions ([pg_names_indexed]). What the service
    makes of a category in use is [used_category_not_found]. *)

From S2P Require Export Prelude GoTime GoStrings Domain UnitOfWork Ports Groups PgTx.
#[global] Open Scope Z_scope.

(** ** Tables *)

Inductive namedKind := KindGroup | KindCategory | KindTag.
#[export] Instance namedKind_eq_dec : EqDecision namedKind.
Proof. solve_decision. Defined.
#[export] Instance namedKind_countable : Countable namedKind.
Proof.
refine (inj_countable' (λ k, match k with KindGroup => 0%nat | KindCategory => 1%nat | KindTag => 2%nat end)
  (λ n, match n with 0%nat => KindGroup | 1%nat => KindCategory | _ => KindTag end) _). by intros [].
Defined.

(** [RowName] is the unique index on the owner and the name; [RowUse] stands for a row of
    another table that refers to the thing. The owner of a default category is empty. *)
Inductive groupRow :=
  | RowNamed (kind : namedKind) (id : string) | RowName (kind : namedKind) (owner name : string)
  | RowMember (group user : string) | RowUse (kind : namedKind) (id by_ : string).
#[export] Instance groupRow_eq_dec : EqDecision groupRow.
Proof. solve_decision. Defined.
#[export] Instance groupRow_countable : Countable groupRow.
Proof.
refine (inj_countable' (λ r, match r with
  | RowNamed k id => inl (inl (k, id)) | RowName k o n => inl (inr (k, o, n)) | RowMember g u => inr (inl (g, u)) | RowUse k id b => inr (inr (k, id, b)) end)
  (λ s, match s with
  | inl (inl (k, id)) => RowNamed k id | inl (inr (k, o, n)) => RowName k o n | inr (inl (g, u)) => RowMember g u | inr (inr (k, id, b)) => RowUse k id b end) _).
by intros [].
Defined.
Inductive groupValue :=
  | ValNamed (owner name color : string) (is_default : bool) (created : Time) | ValIndexed (id : string) | ValMember (added : Time) | ValUse.
#[export] Instance groupValue_eq_dec : EqDecision groupValue.
Proof. solve_decision. Defined.

Abbreviation groupDB := (gmap groupRow groupValue).
Abbreviation groupTx := (@tx groupRow groupValue groupRow_eq_dec groupRow_countable).

Definition still_referenced : error := ErrorsNew "update or delete on table violates foreign key constraint".

Section Repository.
(** The casts to uuid and the references to users; [collate] is the order of the database
    on text. *)
Context (violates : groupRow → groupValue → option error) (collate : string → string → bool).

(** ** Things with a name *)

Definition insert_named (kind : namedKind) (id owner name color : string) (created : Time) : groupTx () :=
  match violates (RowNamed kind id) (ValNamed owner name color false (pg_time created)) with
  | Some e => tx_throw e
  | None => insert_rows [(RowNamed kind id, ValNamed owner name color false (pg_time created)); (RowName kind owner name, ValIndexed id)] []
  end.

Definition named_rows (kind : namedKind) (id : string) (k : groupRow) : bool :=
  match k with RowNamed kind' id' => bool_decide (kind' = kind) && (id' =s id) | RowName kind' _ _ => bool_decide (kind' = kind) | _ => false end.
Definition matched (kind : namedKind) (id : string) (mine : string → bool) (v : groupDB) : option (string * string * string * bool * Time) :=
  match v !! RowNamed kind id with
  | Some (ValNamed owner name color d t) => if mine owner then Some (owner, name, color, d, t) else None
  | _ => None
  end.
Definition one_matched (kind : namedKind) (id : string) (mine : string → bool) (v : groupDB) : groupTx () :=
  match matched kind id mine v with Some _ => mret () | None => tx_throw pgx_ErrNoRows end.

(** [update ... set name, color where id and owner]. *)
Definition rename (kind : namedKind) (id : string) (mine : string → bool) (name : string) (recolor : string → string) : groupTx () :=
  Stmt (λ k _, named_rows kind id k)
    (λ v, match matched kind id mine v with
          | None => inr ∅
          | Some (owner, old, color, d, t) =>
              let new := ValNamed owner name (recolor color) d t in
              match violates (RowNamed kind id) new with
              | Some e => inl e
              | None =>
                  if old =s name then inr {[RowNamed kind id := Some new]}
                  else if bool_decide (is_Some (v !! RowName kind owner name)) then inl unique_violation
                  else inr {[RowNamed kind id := Some new; RowName kind owner old := None; RowName kind owner name := Some (ValIndexed id)]}
              end
          end)
    (one_matched kind id mine).

Definition uses_of (kind : namedKind) (id : string) (k : groupRow) : bool :=
  match k with RowUse kind' id' _ => bool_decide (kind' = kind) && (id' =s id) | _ => false end.
Definition members_of (kind : namedKind) (id : string) (k : groupRow) : bool :=
  match kind, k with KindGroup, RowMember g _ => g =s id | _, _ => false end.
(** [delete ... where id and owner]: not what is still referred to; the memberships of a
    group go with it. *)
Definition delete_named (kind : namedKind) (id : string) (mine : string → bool) : groupTx () :=
  Stmt (λ k _, named_rows kind id k || uses_of kind id k || members_of kind id k)
    (λ v, match matched kind id mine v with
          | None => inr ∅
          | Some (owner, name, _, _, _) =>
              if existsb (λ x, uses_of kind id x.1) (map_to_list v) then inl still_referenced
              else inr ({[RowNamed kind id := None; RowName kind owner name := None]} ∪
                        ((λ _, None) <$> filter (λ x, members_of kind id x.1 = true) v))
          end)
    (one_matched kind id mine).

(** ** Categories and tags *)

Definition is_owner (owner : string) (o : string) : bool := (o =s owner) && (o ≠s "").
Definition name_of (x : groupRow * groupValue) : string := match x.2 with ValNamed _ name _ _ _ => name | _ => "" end.
Definition default_row (x : groupRow * groupValue) : bool := match x.2 with ValNamed _ _ _ d _ => d | _ => false end.

Definition category_of (x : groupRow * groupValue) : option ExpenseCategory :=
  match x with (RowNamed KindCategory id, ValNamed _ name color d t) => Some (mkExpenseCategory id name color d t) | _ => None end.
Definition pg_ListCategories `{GoRuntime} (owner : string) : groupTx (list ExpenseCategory) :=
  select (λ k x, match k, x with RowNamed KindCategory _, ValNamed o _ _ d _ => d || is_owner owner o | _, _ => false end) (λ rows,
    mret (omap category_of (sort_slice (λ x y, if Bool.eqb (default_row x) (default_row y) then collate (name_of x) (name_of y) else default_row x) (map_range rows)))).
Definition pg_CreateCategory (owner : string) (c : ExpenseCategory) : groupTx () :=
  insert_named KindCategory (cat_ID c) owner (cat_Name c) (cat_Color c) (cat_CreatedAt c).
Definition pg_UpdateCategory (owner : string) (c : ExpenseCategory) : groupTx () :=
  rename KindCategory (cat_ID c) (is_owner owner) (cat_Name c) (λ _, cat_Color c).
Definition pg_DeleteCategory (owner id : string) : groupTx () := delete_named KindCategory id (is_owner owner).

Definition tag_of (x : groupRow * groupValue) : option ExpenseTag :=
  match x with (RowNamed KindTag id, ValNamed _ name color _ t) => Some (mkExpenseTag id name color t) | _ => None end.
Definition pg_ListTags `{GoRuntime} (owner : string) : groupTx (list ExpenseTag) :=
  select (λ k x, match k, x with RowNamed KindTag _, ValNamed o _ _ _ _ => is_owner owner o | _, _ => false end) (λ rows,
    mret (omap tag_of (sort_slice (λ x y, collate (name_of x) (name_of y)) (map_range rows)))).
Definition pg_CreateTag (owner : string) (t : ExpenseTag) : groupTx () :=
  insert_named KindTag (tag_ID t) owner (tag_Name t) (tag_Color t) (tag_CreatedAt t).
Definition pg_UpdateTag (owner : string) (t : ExpenseTag) : groupTx () := rename KindTag (tag_ID t) (is_owner owner) (tag_Name t) (λ _, tag_Color t).
Definition pg_DeleteTag (owner id : string) : groupTx () := delete_named KindTag id (is_owner owner).

(** ** Groups *)

(** The row of a member refers to the group, which is looked up first. *)
Definition pg_AddMember (now : Time) (group user : string) : groupTx () :=
  match violates (RowMember group user) (ValMember now) with
  | Some e => tx_throw e
  | None =>
      select (λ k _, bool_decide (k = RowNamed KindGroup group) || bool_decide (k = RowMember group user)) (λ v,
        if bool_decide (is_Some (v !! RowNamed KindGroup group)) || bool_decide (is_Some (v !! RowMember group user))
        then modify_row (RowMember group user) (λ old, match old with Some _ => inr None | None => inr (Some (Some (ValMember now))) end) (λ _, mret ())
        else tx_throw foreign_key_violation)
  end.
Definition insert_member (now : Time) (group user : string) : groupTx () :=
  match violates (RowMember group user) (ValMember now) with
  | Some e => tx_throw e
  | None => insert_rows [(RowMember group user, ValMember now)] [RowNamed KindGroup group]
  end.
Definition pg_CreateGroup (now : Time) (g : UserGroup) : groupTx () :=
  _ ← insert_named KindGroup (ug_ID g) (ug_CreatedBy g) (ug_Name g) "" (ug_CreatedAt g);
  tx_each (insert_member now (ug_ID g)) (ug_MemberIDs g).
Definition pg_RemoveMember (group user : string) : groupTx () := delete_rows (λ k _, bool_decide (k = RowMember group user)) (mret ()).
Definition pg_UpdateGroup (group name : string) : groupTx () := rename KindGroup group (λ _, true) name (λ c, c).
Definition pg_DeleteGroup (group : string) : groupTx () := delete_named KindGroup group (λ _, true).

(** [loadGroupMembers]: those added at the same time in any order. *)
Definition added_at (x : groupRow * groupValue) : Time := match x.2 with ValMember t => t | _ => 0 end.
Definition member_in (group : string) (x : groupRow * groupValue) : option string :=
  match x.1 with RowMember g u => if g =s group then Some u else None | _ => None end.
Definition loadGroupMembers `{GoRuntime} (groups : list UserGroup) : groupTx (list UserGroup) :=
  match groups with
  | [] => mret []
  | _ => select (λ k _, match k with RowMember g _ => str_in g (map ug_ID groups) | _ => false end) (λ rows,
           let members := sort_slice (λ x y, Before (added_at x) (added_at y)) (map_range rows) in
           mret (map (λ g, g <| ug_MemberIDs := omap (member_in (ug_ID g)) members |>) groups))
  end.
Definition group_of (x : groupRow * groupValue) : option UserGroup :=
  match x with (RowNamed KindGroup id, ValNamed owner name _ _ t) => Some (mkUserGroup id name owner t []) | _ => None end.
Definition pg_ListVisibleGroups `{GoRuntime} (viewer : string) (super : bool) : groupTx (list UserGroup) :=
  select (λ k _, match k with RowNamed KindGroup _ => true | RowMember _ u => u =s viewer | _ => false end) (λ rows,
    loadGroupMembers (sort_slice (λ x y, Before (ug_CreatedAt x) (ug_CreatedAt y))
      (List.filter (λ g, super || (ug_CreatedBy g =s viewer) || bool_decide (is_Some (rows !! RowMember (ug_ID g) viewer)))
        (omap group_of (map_range rows))))).
Definition pg_GetGroup `{GoRuntime} (group : string) : groupTx UserGroup :=
  select_one (λ k _, bool_decide (k = RowNamed KindGroup group)) (λ x,
    match group_of (RowNamed KindGroup group, x) with
    | Some g => groups ← loadGroupMembers [g]; match groups with g :: _ => mret g | [] => tx_throw pgx_ErrNoRows end
    | None => tx_throw pgx_ErrNoRows
    end).
End Repository.

(** ** Names *)

(** The owner and the name of a thing. *)
Definition named_of (v : groupDB) (kind : namedKind) (id : string) : option (string * string) :=
  match v !! RowNamed kind id with Some (ValNamed owner name _ _ _) => Some (owner, name) | _ => None end.
(** The index has exactly the names of the rows. *)
Definition indexed (v : groupDB) : Prop :=
  (∀ kind owner name x, v !! RowName kind owner name = Some x → ∃ id, x = ValIndexed id ∧ named_of v kind id = Some (owner, name)) ∧
  ∀ kind owner name id, named_of v kind id = Some (owner, name) → v !! RowName kind owner name = Some (ValIndexed id).

(** Two things of a kind and an owner have different names. *)
Lemma indexed_names v kind id id' x : indexed v → named_of v kind id = Some x → named_of v kind id' = Some x → id = id'.
Proof. destruct x as [o n]. intros [_ Hv] H1%Hv H2%Hv. rewrite H1 in H2. by injection H2. Qed.

(** The rows of a thing and its name change together. *)
Lemma indexed_insert v kind id owner name color d t : indexed v → named_of v kind id = None → v !! RowName kind owner name = None →
  indexed (<[RowNamed kind id := ValNamed owner name color d t]> (<[RowName kind owner name := ValIndexed id]> v)).
Proof.
intros [H1 H2] Hid Hname. set (v' := insert _ _ _).
assert (∀ kind' id', named_of v' kind' id' = if decide (RowNamed kind' id' = RowNamed kind id) then Some (owner, name) else named_of v kind' id') as Hn.
{ intros kind' id'. unfold named_of, v'. case_decide as Hc; [rewrite Hc; by rewrite lookup_insert_eq|].
  by rewrite lookup_insert_ne, lookup_insert_ne by congruence. }
split.
- intros kind' o n x. unfold v' at 1. rewrite lookup_insert_ne by done. intros [[[= <- <- <-] <-]|[Hne Hx]]%lookup_insert_Some.
  + exists id. split; [done|]. rewrite Hn. by rewrite decide_True.
  + destruct (H1 _ _ _ _ Hx) as (id' & -> & Hid'). exists id'. split; [done|]. rewrite Hn. case_decide as Hc; [|done].
    injection Hc as -> ->. by rewrite Hid in Hid'.
- intros kind' o n id' Hx. rewrite Hn in Hx. unfold v'. rewrite lookup_insert_ne by done. case_decide as Hc.
  + injection Hc as -> ->. injection Hx as <- <-. apply lookup_insert_eq.
  + apply H2 in Hx. rewrite lookup_insert_ne; [done|]. intros [= <- <- <-]. by rewrite Hname in Hx.
Qed.

Lemma indexed_remove v v' kind id owner name : indexed v → named_of v kind id = Some (owner, name) →
  v' !! RowNamed kind id = None → v' !! RowName kind owner name = None →
  (∀ kind' id', RowNamed kind' id' ≠ RowNamed kind id → v' !! RowNamed kind' id' = v !! RowNamed kind' id') →
  (∀ kind' o n, RowName kind' o n ≠ RowName kind owner name → v' !! RowName kind' o n = v !! RowName kind' o n) → indexed v'.
Proof.
intros [H1 H2] Hid Hrow Hname Hrows Hnames.
assert (∀ kind' id', named_of v' kind' id' = if decide (RowNamed kind' id' = RowNamed kind id) then None else named_of v kind' id') as Hn.
{ intros kind' id'. unfold named_of. case_decide as Hc; [by rewrite Hc, Hrow|by rewrite Hrows]. }
split.
- intros kind' o n x Hx. destruct (decide (RowName kind' o n = RowName kind owner name)) as [Hc|Hc]; [by rewrite Hc, Hname in Hx|].
  rewrite Hnames in Hx by done. destruct (H1 _ _ _ _ Hx) as (id' & -> & Hid'). exists id'. split; [done|]. rewrite Hn, decide_False; [done|].
  intros [= -> ->]. rewrite Hid in Hid'. by injection Hid' as -> ->.
- intros kind' o n id' Hx. rewrite Hn in Hx. case_decide as Hc; [done|]. rewrite Hnames; [by apply H2|]. intros [= -> -> ->].
  apply Hc. f_equal. apply H2 in Hx, Hid. rewrite Hid in Hx. by injection Hx.
Qed.

Lemma indexed_same v v' : indexed v → (∀ kind id, named_of v' kind id = named_of v kind id) →
  (∀ kind o n, v' !! RowName kind o n = v !! RowName kind o n) → indexed v'.
Proof.
intros [H1 H2] Hn Hi. split.
- intros kind o n x. rewrite Hi. intros (id & -> & Hid)%H1. exists id. by rewrite Hn.
- intros kind o n id. rewrite Hn, Hi. apply H2.
Qed.

Section Names.
Context (violates : groupRow → groupValue → option error).

Definition keeps_names {A} (t : groupTx A) : Prop := ∀ v, indexed v → match view_run t v with (v', inr _) => indexed v' | (_, inl _) => True end.
Lemma keeps_names_bind {A B} (t : groupTx A) (k : A → groupTx B) : keeps_names t → (∀ a, keeps_names (k a)) → keeps_names (t ≫= k).
Proof using Type.
intros Ht Hk v Hv. rewrite view_run_bind. unfold mbind, M_bind. specialize (Ht v Hv). destruct (view_run t v) as [v' [e|a]]; [done|]. by apply Hk.
Qed.
Lemma keeps_names_each {A} (body : A → groupTx ()) l : (∀ x, keeps_names (body x)) → keeps_names (tx_each body l).
Proof using Type. intros Hb. induction l as [|x l IH]; [by intros v|]. by apply keeps_names_bind. Qed.

Lemma seen_named kind id (v : groupDB) : visible (λ k _, named_rows kind id k) v !! RowNamed kind id = v !! RowNamed kind id.
Proof using Type. rewrite lookup_visible. unfold seen. destruct (v !! _); [|done]. cbn. by rewrite bool_decide_true, eqs_refl. Qed.
Lemma seen_name kind id owner name (v : groupDB) : visible (λ k _, named_rows kind id k) v !! RowName kind owner name = v !! RowName kind owner name.
Proof using Type. rewrite lookup_visible. unfold seen. destruct (v !! _); [|done]. cbn. by rewrite bool_decide_true. Qed.
Lemma matched_named kind id mine v owner name color d t : matched kind id mine v = Some (owner, name, color, d, t) →
  v !! RowNamed kind id = Some (ValNamed owner name color d t).
Proof using Type. unfold matched. repeat case_match; intros; simplify_eq; done. Qed.

Lemma insert_keeps kind id owner name color created : keeps_names (insert_named violates kind id owner name color created).
Proof using Type.
intros v Hv. unfold insert_named. destruct (violates _ _); [done|]. destruct (view_run _ v) as [v' [e|a]] eqn:Hr; [done|].
apply insert_rows_run in Hr as (Hrows & _ & ->). apply indexed_insert; [done| |].
- pose proof (Hrows (RowNamed kind id, ValNamed owner name color false (pg_time created)) ltac:(by left)) as Hn. cbn in Hn. unfold named_of. by rewrite Hn.
- apply (Hrows (RowName kind owner name, ValIndexed id)). right. by left.
Qed.

Lemma rename_keeps kind id mine name recolor : keeps_names (rename violates kind id mine name recolor).
Proof using Type.
intros v Hv. unfold rename. rewrite view_run_stmt. set (seen_ := visible _ v).
assert (∀ v', indexed v' → match view_run (one_matched kind id mine seen_) v' with (v', inr _) => indexed v' | (_, inl _) => True end) as Hone
  by (intros v' Hv'; unfold one_matched; by destruct (matched kind id mine seen_)).
destruct (matched kind id mine seen_) as [[[[[owner old] color] d] t]|] eqn:Hm; [|apply Hone; by rewrite overlay_empty].
apply matched_named in Hm. unfold seen_ in Hm. rewrite seen_named in Hm.
assert (named_of v kind id = Some (owner, old)) as Hid by (unfold named_of; by rewrite Hm).
destruct (violates _ _); [done|]. destruct (String.eqb_spec old name) as [->|Hne].
- apply Hone. rewrite overlay_singleton. apply (indexed_same v); [done| |intros; by rewrite lookup_insert_ne].
  intros kind' id'. unfold named_of. destruct (decide (RowNamed kind' id' = RowNamed kind id)) as [Hc|Hc]; [|by rewrite lookup_insert_ne by congruence].
  rewrite Hc, lookup_insert_eq, Hm. done.
- case_bool_decide as Hfree; [done|]. unfold seen_ in Hfree. rewrite seen_name in Hfree. apply eq_None_not_Some in Hfree.
  apply Hone. rewrite overlay_insert. set (removed := delete (RowNamed kind id) (delete (RowName kind owner old) v)).
  assert (indexed removed) as Hrem.
  { apply (indexed_remove v _ kind id owner old); [done..| | | |]; unfold removed; intros.
    - apply lookup_delete_eq.
    - rewrite lookup_delete_ne by done. apply lookup_delete_eq.
    - rewrite lookup_delete_ne, lookup_delete_ne by congruence. done.
    - rewrite lookup_delete_ne, lookup_delete_ne by congruence. done. }
  assert (<[RowNamed kind id := ValNamed owner name (recolor color) d t]> (overlay {[RowName kind owner old := None; RowName kind owner name := Some (ValIndexed id)]} v) =
    <[RowNamed kind id := ValNamed owner name (recolor color) d t]> (<[RowName kind owner name := ValIndexed id]> removed)) as ->.
  { apply map_eq. intros k. destruct (decide (k = RowNamed kind id)) as [->|Hk]; [by rewrite !lookup_insert_eq|]. rewrite !(lookup_insert_ne _ (RowNamed kind id)) by done.
    rewrite lookup_overlay. destruct (decide (k = RowName kind owner old)) as [->|Ho].
    - rewrite lookup_insert_eq, lookup_insert_ne by congruence. unfold removed. rewrite lookup_delete_ne by done. by rewrite lookup_delete_eq.
    - rewrite lookup_insert_ne by done. destruct (decide (k = RowName kind owner name)) as [->|Hn]; [by rewrite lookup_singleton_eq, lookup_insert_eq|].
      rewrite lookup_singleton_ne, lookup_insert_ne by done. unfold removed. by rewrite !lookup_delete_ne. }
  apply indexed_insert; [done| |].
  + unfold named_of, removed. by rewrite lookup_delete_eq.
  + unfold removed. rewrite !lookup_delete_ne by congruence. done.
Qed.

Lemma delete_keeps kind id mine : keeps_names (delete_named kind id mine).
Proof using Type.
intros v Hv. unfold delete_named. rewrite view_run_stmt. set (seen_ := visible _ v).
assert (∀ v', indexed v' → match view_run (one_matched kind id mine seen_) v' with (v', inr _) => indexed v' | (_, inl _) => True end) as Hone
  by (intros v' Hv'; unfold one_matched; by destruct (matched kind id mine seen_)).
destruct (matched kind id mine seen_) as [[[[[owner old] color] d] t]|] eqn:Hm; [|apply Hone; by rewrite overlay_empty].
apply matched_named in Hm. unfold seen_ in Hm. rewrite lookup_visible in Hm. unfold seen in Hm.
destruct (v !! RowNamed kind id) as [x|] eqn:Hx; [|done]. cbn in Hm. rewrite bool_decide_true, eqs_refl in Hm by done. injection Hm as ->.
assert (named_of v kind id = Some (owner, old)) as Hid by (unfold named_of; by rewrite Hx).
destruct (existsb _ _); [done|]. apply Hone. set (gone := (λ _, None) <$> _ : gmap groupRow (option groupValue)).
assert (∀ k, members_of kind id k = false → gone !! k = None) as Hgone.
{ intros k Hk. unfold gone. rewrite lookup_fmap, map_lookup_filter_None_2; [done|]. right. intros y _. cbn. by rewrite Hk. }
apply (indexed_remove v _ kind id owner old); [done..| | | |]; intros; rewrite lookup_overlay.
- by rewrite (lookup_union_Some_l _ _ _ None) by apply lookup_insert_eq.
- rewrite (lookup_union_Some_l _ _ _ None); [done|]. rewrite lookup_insert_ne by done. apply lookup_singleton_eq.
- rewrite lookup_union_r by (rewrite lookup_insert_ne, lookup_singleton_ne by congruence; done). rewrite Hgone by (by destruct kind). done.
- rewrite lookup_union_r by (rewrite lookup_insert_ne, lookup_singleton_ne by congruence; done). rewrite Hgone by (by destruct kind). done.
Qed.

Lemma add_keeps now group user : keeps_names (pg_AddMember violates now group user).
Proof using Type.
intros v Hv. unfold pg_AddMember. destruct (violates _ _); [done|]. rewrite view_run_select. destruct (_ || _); [|done]. rewrite view_run_modify_row.
destruct (v !! RowMember group user); [done|]. change (indexed (overlay {[RowMember group user := Some (ValMember now)]} v)). rewrite overlay_singleton.
apply (indexed_same v); [done| |]; intros; unfold named_of; by rewrite lookup_insert_ne.
Qed.
Lemma insert_member_keeps now group user : keeps_names (insert_member violates now group user).
Proof using Type.
intros v Hv. unfold insert_member. destruct (violates _ _); [done|]. destruct (view_run _ v) as [v' [e|a]] eqn:Hr; [done|].
apply insert_rows_run in Hr as (_ & _ & ->). apply (indexed_same v); [done| |]; intros; unfold named_of; cbn; by rewrite lookup_insert_ne.
Qed.
Lemma remove_member_keeps group user : keeps_names (pg_RemoveMember group user).
Proof using Type.
intros v Hv. unfold pg_RemoveMember. rewrite view_run_delete_rows.
assert (∀ k, k ≠ RowMember group user → filter (λ x : groupRow * groupValue, bool_decide (x.1 = RowMember group user) = false) v !! k = v !! k) as Hk.
{ intros k Hk. rewrite map_lookup_filter. destruct (v !! k); [|done]. cbn. rewrite option_guard_True; [done|]. by apply bool_decide_eq_false. }
apply (indexed_same v); [done| |]; intros; unfold named_of; by rewrite Hk.
Qed.

(** ** The methods as transactions of several replicas *)

Inductive groupTask :=
  | TaskCreateCategory (owner : string) (c : ExpenseCategory) | TaskUpdateCategory (owner : string) (c : ExpenseCategory) | TaskDeleteCategory (owner id : string)
  | TaskCreateTag (owner : string) (t : ExpenseTag) | TaskUpdateTag (owner : string) (t : ExpenseTag) | TaskDeleteTag (owner id : string)
  | TaskCreateGroup (now : Time) (g : UserGroup) | TaskUpdateGroup (group name : string) | TaskDeleteGroup (group : string)
  | TaskAddMember (now : Time) (group user : string) | TaskRemoveMember (group user : string).
Definition group_program (task : groupTask) : groupTx () :=
  match task with
  | TaskCreateCategory owner c => pg_CreateCategory violates owner c
  | TaskUpdateCategory owner c => pg_UpdateCategory violates owner c
  | TaskDeleteCategory owner id => pg_DeleteCategory owner id
  | TaskCreateTag owner t => pg_CreateTag violates owner t
  | TaskUpdateTag owner t => pg_UpdateTag violates owner t
  | TaskDeleteTag owner id => pg_DeleteTag owner id
  | TaskCreateGroup now g => pg_CreateGroup violates now g
  | TaskUpdateGroup group name => pg_UpdateGroup violates group name
  | TaskDeleteGroup group => pg_DeleteGroup group
  | TaskAddMember now group user => pg_AddMember violates now group user
  | TaskRemoveMember group user => pg_RemoveMember group user
  end.

Lemma group_keeps task : keeps_names (group_program task).
Proof using Type.
destruct task; cbn [group_program]; try apply insert_keeps; try apply rename_keeps; try apply delete_keeps;
  [|apply add_keeps|apply remove_member_keeps].
apply keeps_names_bind; [apply insert_keeps|]. intros _. apply keeps_names_each. intros u. apply insert_member_keeps.
Qed.

Lemma commits_keep_names log : ∀ v v', indexed v → commit_all group_program log v = Some v' → indexed v'.
Proof using Type.
induction log as [|task log IH]; intros v v' Hv; cbn; [by intros [= <-]|]. rewrite Within_view.
pose proof (group_keeps task v Hv) as Hk. destruct (view_run _ v) as [v1 [e|a]]; [done|]. by apply IH.
Qed.

(** However the requests of several replicas interleave, as long as no commit changes what
    another transaction has read: two groups of a creator, two categories or two tags of
    an owner never have the same name. *)
Lemma pg_names_unique db steps kind id id' x : indexed db → all_undisturbed group_program steps (tx_start db) = true →
  let v := tx_db (tx_run group_program steps (tx_start db)) in
  named_of v kind id = Some x → named_of v kind id' = Some x → id = id'.
Proof using Type.
intros Hdb Hu v. apply indexed_names. eapply commits_keep_names; [exact Hdb|]. by apply undisturbed_runs_serial.
Qed.
End Names.

(** ** The services over them *)

Section Services.
Context (violates : groupRow → groupValue → option error) (collate : string → string → bool).
Context `{GoRuntime} {W : Type} (tables : Lens W groupDB) `{!LensLaws tables} `{Env W}.

Definition pg_group_call {A} (t : groupTx A) : M W A := zoom tables (PgTx.Within t).
#[export] Instance pg_TaxonomyRepository : TaxonomyRepository W := {|
  ListCategories owner := pg_group_call (pg_ListCategories collate owner);
  CreateCategory owner c := pg_group_call (pg_CreateCategory violates owner c);
  UpdateCategory owner c := pg_group_call (pg_UpdateCategory violates owner c);
  DeleteCategory owner id := pg_group_call (pg_DeleteCategory owner id);
  ListTags owner := pg_group_call (pg_ListTags collate owner);
  CreateTag owner t := pg_group_call (pg_CreateTag violates owner t);
  UpdateTag owner t := pg_group_call (pg_UpdateTag violates owner t);
  DeleteTag owner id := pg_group_call (pg_DeleteTag owner id)
|}.
#[export] Instance pg_GroupRepository : GroupRepository W := {|
  CreateGroup g := now ← Now; pg_group_call (pg_CreateGroup violates now g);
  ListVisibleGroups viewer super := pg_group_call (pg_ListVisibleGroups viewer super);
  GetGroup group := pg_group_call (pg_GetGroup group);
  UpdateGroup group name := pg_group_call (pg_UpdateGroup violates group name);
  DeleteGroup group := pg_group_call (pg_DeleteGroup group);
  AddMember group user := now ← Now; pg_group_call (pg_AddMember violates now group user);
  RemoveMember group user := pg_group_call (pg_RemoveMember group user)
|}.

Lemma referenced_kept kind id mine owner name color d t by_ x (v : groupDB) : mine owner = true →
  v !! RowNamed kind id = Some (ValNamed owner name color d t) → v !! RowUse kind id by_ = Some x →
  PgTx.Within (delete_named kind id mine) v = (v, inl still_referenced).
Proof using Type.
intros Hm Hrow Huse. rewrite Within_view. unfold delete_named. rewrite view_run_stmt. set (seen_ := visible _ v).
assert (seen_ !! RowNamed kind id = v !! RowNamed kind id) as Hs.
{ unfold seen_. rewrite lookup_visible, Hrow. cbn. by rewrite bool_decide_true, eqs_refl. }
unfold matched at 1. rewrite Hs, Hrow, Hm.
assert (existsb (λ y, uses_of kind id y.1) (map_to_list seen_) = true) as ->; [|done].
apply existsb_exists. exists (RowUse kind id by_, x). split; [|cbn; by rewrite bool_decide_true, eqs_refl].
apply list_elem_of_In, elem_of_map_to_list. unfold seen_. rewrite lookup_visible, Huse. cbn. by rewrite bool_decide_true, eqs_refl.
Qed.

(** A category that an expense, however old, refers to cannot be deleted; its owner is
    told that there is no such category. *)
Lemma used_category_not_found owner id name color d t by_ x w : owner ≠ "" →
  lens_get tables w !! RowNamed KindCategory id = Some (ValNamed owner name color d t) →
  lens_get tables w !! RowUse KindCategory id by_ = Some x →
  DeleteCategory_service owner id w = (w, inl ErrNotFound).
Proof using All.
intros Ho Hrow Huse. unfold DeleteCategory_service, map_err, DeleteCategory, pg_TaxonomyRepository, pg_group_call, zoom, pg_DeleteCategory.
assert (is_owner owner owner = true) as Hm by (unfold is_owner; by rewrite eqs_refl, eqs_ne).
rewrite (referenced_kept _ _ _ _ _ _ _ _ _ _ _ Hm Hrow Huse). by rewrite lens_set_get.
Qed.
End Services.
