(* ===== verification/OpenAI.v ===== *)
(** * The OpenAI client (src/internal/adapter/outbound/openai)

    The adapter of the provider ports over the official client library: what a request
    becomes, how a response is read, and how a stream of fragments is put together. The
    library is the functions [New], [NewStreaming] and [Transcriptions_New] of the last
    section, over the fields of its types that the adapter uses; [as_text] reads the raw
    text of a call's arguments. *)

From Stdlib Require Import Ascii.
From S2P Require Import ImageProc.
From S2P Require Export Prelude GoTime GoStrings Domain Json Ports AI.
#[global] Open Scope Z_scope.

Definition DefaultModel : string := "gpt-5.6-luna".
Definition defaultMaxOutputTokens : Z := 800.

(** ** What is sent *)

Inductive partParam := TextPart (t : text) | ImagePart (url : string).
Record callParam := mkCallParam { pc_ID : string; pc_Name : string; pc_Arguments : text }.
Inductive messageParam :=
  | SystemParam (t : text) | UserParam (parts : list partParam) | AssistantParam (t : text)
  | AssistantCallsParam (calls : list callParam) | ToolParam (t : text) (toolCallID : string).
Record toolParam := mkToolParam { pt_Name : string; pt_Description : string; pt_Parameters : json }.
(** [pp_ReasoningEffort] is empty when it is left out. *)
Record chatParams := mkChatParams {
  pp_Model : string; pp_Messages : list messageParam; pp_MaxCompletionTokens : Z; pp_Tools : list toolParam;
  pp_ReasoningEffort : string; pp_Temperature : option float64; pp_ResponseFormat : option ResponseFormat
}.

Definition isToolCallMessage (m : AIMessage) : bool :=
  (msg_Role m =s RoleAssistant) &&
  match msg_ToolCallID m, msg_ToolName m, msg_ToolArgs m with Some _, Some _, Some _ => true | _, _, _ => false end.
(** Of a tool-call message. *)
Definition toolCallParam (m : AIMessage) : callParam :=
  mkCallParam (default "" (msg_ToolCallID m)) (default "" (msg_ToolName m)) (default (Plain "") (msg_ToolArgs m)).

(** The inner loop: the calls that follow, and the rest. *)
Fixpoint following_calls (messages : list AIMessage) : list callParam * list AIMessage :=
  match messages with
  | m :: rest =>
      if isToolCallMessage m then let '(calls, rest) := following_calls rest in (toolCallParam m :: calls, rest) else ([], messages)
  | [] => ([], [])
  end.

(** What a message becomes on its own. *)
Definition convert_message (m : AIMessage) : list messageParam :=
  if msg_Role m =s RoleSystem then match msg_Text m with Some t => [SystemParam t] | None => [] end
  else if msg_Role m =s RoleUser then
    match (match msg_Text m with Some t => [TextPart t] | None => [] end) ++ (match msg_ImageURL m with Some u => [ImagePart u] | None => [] end) with
    | [] => [] | parts => [UserParam parts] end
  else if msg_Role m =s RoleAssistant then match msg_Text m with Some t => [AssistantParam t] | None => [] end
  else if msg_Role m =s RoleTool then
    match msg_ToolCallID m, msg_Text m with Some id, Some t => [ToolParam t id] | _, _ => [] end
  else [].
(** The loop over the messages; [fuel] is their number. *)
Fixpoint convert_loop (fuel : nat) (messages : list AIMessage) : list messageParam :=
  match fuel, messages with
  | S fuel, m :: rest =>
      if isToolCallMessage m then
        let '(calls, rest) := following_calls rest in
        AssistantCallsParam (toolCallParam m :: calls) :: convert_loop fuel rest
      else convert_message m ++ convert_loop fuel rest
  | _, _ => []
  end.
Definition convertMessages (messages : list AIMessage) : list messageParam := convert_loop (length messages) messages.

Definition convertTools (tools : list Tool) : list toolParam :=
  map (λ t, mkToolParam (tool_Name t) (tool_Description t) (tool_Parameters t)) tools.

(** [model] is the client's. *)
Definition params (model : string) (request : CompletionRequest) : error + chatParams :=
  match cr_Messages request with
  | [] => inl (ErrorsNew "completion request has no messages")
  | _ =>
      inr (mkChatParams (if cr_Model request =s "" then model else cr_Model request) (convertMessages (cr_Messages request))
        (if cr_MaxOutputTokens request <=? 0 then defaultMaxOutputTokens else cr_MaxOutputTokens request)
        (convertTools (cr_Tools request)) (if 0 <? Z.of_nat (length (cr_Tools request)) then "none" else "")
        (cr_Temperature request) (cr_ResponseFormat request))
  end.

(** ** What comes back *)

Record chatCall := mkChatCall { cc_ID : string; cc_Type : string; cc_Name : string; cc_Arguments : text }.
Record chatChoice := mkChatChoice { ch_Content : text; ch_ToolCalls : list chatCall; ch_FinishReason : string }.
Record chatResponse := mkChatResponse { cs_Choices : list chatChoice; cs_Usage : TokenUsage }.

Definition convertToolCalls (calls : list chatCall) : list ToolCall :=
  map (λ c, mkToolCall (cc_ID c) (cc_Name c) (cc_Arguments c))
    (List.filter (λ c, negb ((cc_Type c ≠s "") && (cc_Type c ≠s "function"))) calls).
Definition completion_of (response : chatResponse) : error + Completion :=
  match cs_Choices response with
  | [] => inl (ErrorsNew "openai returned no choices")
  | choice :: _ => inr (mkCompletion (ch_Content choice) (convertToolCalls (ch_ToolCalls choice)) (cs_Usage response) (ch_FinishReason choice))
  end.

(** ** Streams *)

Record callFragment := mkCallFragment { cf_Index : Z; cf_ID : string; cf_Name : string; cf_Arguments : string }.
Record streamChoice := mkStreamChoice { sc_FinishReason : string; sc_ToolCalls : list callFragment; sc_Content : string }.
Record streamChunk := mkStreamChunk { sk_Usage : TokenUsage; sk_Choices : list streamChoice }.

(** A call while its fragments come: its id, its name and its arguments so far. *)
Definition partCall : Type := string * string * string.
Definition pending_at (pending : gmap Z partCall) (i : Z) : partCall := match pending !! i with Some c => c | None => ("", "", "") end.
Definition accumulate (pending : gmap Z partCall) (f : callFragment) : gmap Z partCall :=
  let '(id, name, args) := pending_at pending (cf_Index f) in
  <[cf_Index f := (if cf_ID f =s "" then id else cf_ID f, if cf_Name f =s "" then name else cf_Name f, args +:+ cf_Arguments f)]> pending.

Section Streams.
Context `{GoRuntime} (as_text : string → text).

Definition collect (pending : gmap Z partCall) : list ToolCall :=
  let indexes := sort_slice Z.ltb (map fst (map_range pending)) in
  omap (λ i, (λ '(id, name, args), mkToolCall id name (as_text args)) <$> pending !! i) indexes.

(** What [forward] keeps between chunks. *)
Record forwarding := mkForwarding { fw_pending : gmap Z partCall; fw_usage : option TokenUsage; fw_finish : string }.
Definition forward_choice (s : forwarding) (c : streamChoice) : forwarding * list CompletionChunk :=
  (mkForwarding (foldl accumulate (fw_pending s) (sc_ToolCalls c)) (fw_usage s) (if sc_FinishReason c =s "" then fw_finish s else sc_FinishReason c),
   if sc_Content c =s "" then [] else [delta_chunk (sc_Content c)]).
Fixpoint forward_choices (s : forwarding) (l : list streamChoice) : forwarding * list CompletionChunk :=
  match l with
  | [] => (s, [])
  | c :: l => let '(s, sent) := forward_choice s c in let '(s, sent') := forward_choices s l in (s, sent ++ sent')
  end.
Definition forward_chunk (s : forwarding) (c : streamChunk) : forwarding * list CompletionChunk :=
  let s := if tu_TotalTokens (sk_Usage c) =? 0 then s else mkForwarding (fw_pending s) (Some (sk_Usage c)) (fw_finish s) in
  forward_choices s (sk_Choices c).
(** [failed] is the error the stream ends with.  The list is what a caller who stays
    receives; [forward] returns as soon as the caller's context is done, which leaves a
    prefix of it. *)
Fixpoint forward_from (s : forwarding) (l : list streamChunk) (failed : option error) : list CompletionChunk :=
  match l with
  | [] =>
      match failed with
      | Some err => [err_chunk (Errorf "openai stream: " err "")]
      | None => [mkCompletionChunk "" (collect (fw_pending s)) (fw_usage s) (fw_finish s) None true]
      end
  | c :: l => let '(s, sent) := forward_chunk s c in sent ++ forward_from s l failed
  end.
Definition forward (l : list streamChunk) (failed : option error) : list CompletionChunk := forward_from (mkForwarding ∅ None "") l failed.
End Streams.

(** ** Transcription (transcription.go) *)

Definition extensionByContentType : gmap string string := list_to_map
  [("audio/mp4", ".mp4"); ("audio/x-m4a", ".m4a"); ("audio/m4a", ".m4a"); ("audio/mpeg", ".mp3"); ("audio/mp3", ".mp3");
   ("audio/wav", ".wav"); ("audio/x-wav", ".wav"); ("audio/webm", ".webm"); ("audio/ogg", ".ogg"); ("audio/flac", ".flac")].
(** The text before the last dot, unless that is the first byte or missing. *)
Fixpoint before_last_dot (s : string) : option string :=
  match s with
  | EmptyString => None
  | String c s => match before_last_dot s with
                  | Some b => Some (String c b)
                  | None => if Ascii.eqb c "."%char then Some "" else None
                  end
  end.
Definition transcriptionFilename `{GoRuntime} (filename contentType : string) : string :=
  let base := if filename =s "" then "audio" else filename in
  match extensionByContentType !! ToLower (TrimSpace (before_semicolon contentType)) with
  | None => base
  | Some ext => (match before_last_dot base with Some b => if b =s "" then base else b | None => base end) +:+ ext
  end.

(** ** The client *)

Section Client.
Context `{GoRuntime} (as_text : string → text) {W : Type}.
(** The library: a completion, a stream with the error it ends with, a transcription of
    the bytes under a file name and a content type by a model. *)
Context (New : chatParams → M W chatResponse) (NewStreaming : chatParams → M W (list streamChunk * option error)).
Context (Transcriptions_New : string → string → string → string → M W Transcription) (DefaultTranscriptionModel : string).

Definition NewClient (apiKey model : string) : error + string :=
  if apiKey =s "" then inl (ErrorsNew "OpenAI API key is required") else inr (if model =s "" then DefaultModel else model).

Definition openai_Complete (model : string) (request : CompletionRequest) : M W Completion :=
  match params model request with
  | inl err => throw err
  | inr p =>
      response ← map_err (λ err, Errorf "openai completion: " err "") (New p);
      match completion_of response with inl err => throw err | inr c => mret c end
  end.
(** A failure of the stream comes in its last chunk. *)
Definition openai_Stream (model : string) (request : CompletionRequest) : M W (channel W) :=
  match params model request with
  | inl err => throw err
  | inr p =>
      '(chunks, failed) ← NewStreaming p;
      mret (mkChannel (forward as_text chunks failed) (mret ()))
  end.
Definition openai_AIProvider (model : string) : AIProvider W := {| Complete := openai_Complete model; AIStream := openai_Stream model |}.

(** A recording is its bytes, so there is always one. *)
Definition openai_Transcribe (request : TranscriptionRequest) : M W Transcription :=
  map_err (λ err, Errorf "openai transcription: " err "")
    (Transcriptions_New (tr_Audio request) (transcriptionFilename (tr_Filename request) (tr_ContentType request)) (tr_ContentType request)
       (if tr_Model request =s "" then DefaultTranscriptionModel else tr_Model request)).
Definition openai_AudioTranscriber : AudioTranscriber W := {| Transcribe := openai_Transcribe |}.
End Client.

(** ** Tool calls *)

Definition joined {A} (f : A → string) (l : list A) : string := foldr (λ x s, f x +:+ s) "" l.

(** The fragments of a call: of one index, the id and the name where they are given, and
    the arguments in pieces. *)
Record fragments_of (i : Z) (id name args : string) (l : list callFragment) : Prop := {
  fo_index : Forall (λ f, cf_Index f = i) l;
  fo_id : Forall (λ f, cf_ID f = "" ∨ cf_ID f = id) l ∧ Exists (λ f, cf_ID f = id) l;
  fo_name : Forall (λ f, cf_Name f = "" ∨ cf_Name f = name) l ∧ Exists (λ f, cf_Name f = name) l;
  fo_args : joined cf_Arguments l = args
}.

Definition of_index (i : Z) (l : list callFragment) : list callFragment := List.filter (λ f, cf_Index f =? i) l.
Definition add_fragment (c : partCall) (f : callFragment) : partCall :=
  let '(id, name, args) := c in
  (if cf_ID f =s "" then id else cf_ID f, if cf_Name f =s "" then name else cf_Name f, args +:+ cf_Arguments f).

Lemma accumulate_lookup p f i : accumulate p f !! i = if cf_Index f =? i then Some (add_fragment (pending_at p i) f) else p !! i.
Proof.
unfold accumulate, add_fragment. destruct (pending_at p (cf_Index f)) as [[id name] args] eqn:Hd. destruct (Z.eqb_spec (cf_Index f) i) as [<-|Hne].
- by rewrite lookup_insert_eq, Hd.
- by rewrite lookup_insert_ne.
Qed.

(** A call is what its own fragments make of it. *)
Lemma accumulated l : ∀ p i, foldl accumulate p l !! i =
  match of_index i l with [] => p !! i | _ => Some (foldl add_fragment (pending_at p i) (of_index i l)) end.
Proof.
induction l as [|f l IH]; intros p i; [done|]. cbn [foldl]. rewrite IH.
assert (pending_at (accumulate p f) i = if cf_Index f =? i then add_fragment (pending_at p i) f else pending_at p i) as ->.
{ unfold pending_at at 1. rewrite accumulate_lookup. by destruct (cf_Index f =? i). }
rewrite accumulate_lookup. change (of_index i (f :: l)) with (if cf_Index f =? i then f :: of_index i l else of_index i l).
destruct (cf_Index f =? i); by destruct (of_index i l).
Qed.

Lemma str_app_empty s : s +:+ "" = s.
Proof. induction s as [|x s IH]; [done|]. change (String x s +:+ "") with (String x (s +:+ "")). by rewrite IH. Qed.

(** The last text that is given. *)
Definition last_given (field : callFragment → string) (x : string) (l : list callFragment) : string :=
  foldl (λ x f, if field f =s "" then x else field f) x l.
Lemma add_fragments l : ∀ c, foldl add_fragment c l = (last_given cf_ID c.1.1 l, last_given cf_Name c.1.2 l, c.2 +:+ joined cf_Arguments l).
Proof.
induction l as [|f l IH]; intros [[a b] c]; cbn [foldl fst snd].
- by rewrite str_app_empty.
- rewrite IH. cbn [add_fragment fst snd joined foldr]. by rewrite str_app_assoc.
Qed.
Lemma given_once field x l : Forall (λ f, field f = "" ∨ field f = x) l → ∀ y, Exists (λ f, field f = x) l ∨ y = x → (y = "" ∨ y = x) →
  last_given field y l = x.
Proof.
unfold last_given. induction 1 as [|f l Hf Hl IH]; intros y He Hy; cbn [foldl]; [by destruct He as [He%Exists_nil|]|].
destruct (String.eqb_spec (field f) "") as [Hf0|Hf0].
- apply IH; [|done]. destruct He as [[He|He]%Exists_cons|He]; [|by left|by right]. destruct Hy as [->|]; [right; congruence|by right].
- destruct Hf as [|Hf]; [done|]. apply IH; [by right|by right].
Qed.
Lemma fragments_add i id name args l : fragments_of i id name args l → foldl add_fragment ("", "", "") l = (id, name, args).
Proof.
intros [_ [Hid Hex] [Hn Hexn] <-]. rewrite add_fragments. cbn [fst snd]. f_equal. f_equal; apply given_once; auto.
Qed.
Lemma fragments_some i id name args l : fragments_of i id name args l → l ≠ [].
Proof. intros [_ [_ He] _ _] ->. by apply Exists_nil in He. Qed.

Lemma seq_sorted n : ∀ k, sorted_by Z.ltb (map Z.of_nat (seq k n)).
Proof.
induction n as [|n IH]; intros k; [constructor|]. cbn. constructor; [apply IH|]. rewrite Forall_forall.
intros x (m & -> & Hm%elem_of_seq)%list_elem_of_fmap. lia.
Qed.
Lemma omap_seq {A B} (f : Z → option B) (g : A → B) (l : list A) : ∀ k, (∀ n, f (Z.of_nat (k + n)) = g <$> l !! n) →
  omap f (map Z.of_nat (seq k (length l))) = map g l.
Proof.
induction l as [|x l IH]; intros k Hf; [done|]. cbn. pose proof (Hf 0%nat) as H0. rewrite Nat.add_0_r in H0. rewrite H0. cbn. f_equal.
apply IH. intros n. etrans; [|apply (Hf (S n))]. f_equal. lia.
Qed.

Section Calls.
Context `{GoRuntime} (as_text : string → text).

(** Calls are put together whatever the order their fragments come in. *)
Lemma collected (calls : list (string * string * string)) l :
  (∀ n id name args, calls !! n = Some (id, name, args) → fragments_of (Z.of_nat n) id name args (of_index (Z.of_nat n) l)) →
  Forall (λ f, 0 ≤ cf_Index f < Z.of_nat (length calls)) l →
  collect as_text (foldl accumulate ∅ l) = map (λ '(id, name, args), mkToolCall id name (as_text args)) calls.
Proof using Type.
intros Hcalls Hidx. set (p := foldl accumulate ∅ l).
assert (∀ n, p !! Z.of_nat n = calls !! n) as Hp.
{ intros n. unfold p. rewrite accumulated. unfold pending_at. rewrite lookup_empty. destruct (calls !! n) as [[[id name] args]|] eqn:Hn.
  - pose proof (Hcalls n id name args Hn) as Hf. pose proof (fragments_some _ _ _ _ _ Hf) as Hne. rewrite (fragments_add _ _ _ _ _ Hf).
    by destruct (of_index _ l).
  - destruct (of_index (Z.of_nat n) l) as [|f fs] eqn:Hof; [done|]. exfalso.
    assert (f ∈ of_index (Z.of_nat n) l) as Hin by (rewrite Hof; by left). unfold of_index in Hin. apply list_elem_of_In, filter_In in Hin as [Hin Heq%Z.eqb_eq].
    apply list_elem_of_In in Hin. rewrite Forall_forall in Hidx. specialize (Hidx f Hin). apply lookup_ge_None in Hn. cbv beta in Hidx. rewrite Heq in Hidx. destruct Hidx as [_ Hlt%Nat2Z.inj_lt]. exact (Nat.lt_irrefl _ (Nat.lt_le_trans _ _ _ Hlt Hn)). }
assert (∀ i, is_Some (p !! i) → ∃ n, i = Z.of_nat n ∧ (n < length calls)%nat) as Hdom.
{ intros i Hi. assert (0 ≤ i < Z.of_nat (length calls)) as Hr.
  { unfold p in Hi. rewrite accumulated, lookup_empty in Hi. destruct (of_index i l) as [|f fs] eqn:Hof; [by destruct Hi|].
    assert (f ∈ of_index i l) as Hin by (rewrite Hof; by left). unfold of_index in Hin. apply list_elem_of_In, filter_In in Hin as [Hin Heq%Z.eqb_eq].
    apply list_elem_of_In in Hin. rewrite Forall_forall in Hidx. specialize (Hidx f Hin). lia. }
  exists (Z.to_nat i). lia. }
assert (sort_slice Z.ltb (map fst (map_range p)) = map Z.of_nat (seq 0 (length calls))) as Hsorted.
{ apply (sorted_perm_eq Z.ltb Z.ltb); [|apply sort_slice_sorted|apply seq_sorted|done|intros x y _ _; lia].
  - rewrite sort_slice_perm. rewrite map_range_perm. apply NoDup_Permutation; [apply NoDup_fst_map_to_list|apply NoDup_fmap_2; [intros x y; apply Nat2Z.inj|apply NoDup_seq]|].
    intros i. rewrite !list_elem_of_fmap. split.
    + intros ([j c] & -> & Hj%elem_of_map_to_list). cbn. destruct (Hdom j) as (n & -> & Hn); [by eexists|]. exists n. split; [done|]. apply elem_of_seq. lia.
    + intros (n & -> & Hn%elem_of_seq). destruct (lookup_lt_is_Some_2 calls n) as [c Hc]; [lia|]. exists (Z.of_nat n, c). split; [done|].
      apply elem_of_map_to_list. by rewrite Hp.
  - split; [intros x; lia|]. split; intros; lia. }
unfold collect. rewrite Hsorted. apply omap_seq. intros n. by rewrite Hp.
Qed.
End Calls.

(** ** A stream says what the finished response would *)

Section Equivalence.
Context `{GoRuntime} (as_text : string → text).

Definition choices (l : list streamChunk) : list streamChoice := concat (map sk_Choices l).
Definition fragments (l : list streamChunk) : list callFragment := concat (map sc_ToolCalls (choices l)).
Definition deltas (l : list streamChoice) : list CompletionChunk :=
  omap (λ c, if sc_Content c =s "" then None else Some (delta_chunk (sc_Content c))) l.
Definition finish_of (x : string) (l : list streamChoice) : string := foldl (λ x c, if sc_FinishReason c =s "" then x else sc_FinishReason c) x l.
Definition usage_after (x : option TokenUsage) (l : list streamChunk) : option TokenUsage :=
  foldl (λ x c, if tu_TotalTokens (sk_Usage c) =? 0 then x else Some (sk_Usage c)) x l.

Lemma forward_choices_spec l : ∀ s, forward_choices s l =
  (mkForwarding (foldl accumulate (fw_pending s) (concat (map sc_ToolCalls l))) (fw_usage s) (finish_of (fw_finish s) l), deltas l).
Proof using Type.
induction l as [|c l IH]; intros [p u f]; [done|]. cbn [forward_choices forward_choice]. rewrite IH. cbn [fw_pending fw_usage fw_finish map concat finish_of foldl].
rewrite foldl_app. cbn. by destruct (sc_Content c =s "").
Qed.
Lemma forward_from_spec l failed : ∀ s, forward_from as_text s l failed =
  deltas (choices l) ++
  match failed with
  | Some err => [err_chunk (Errorf "openai stream: " err "")]
  | None => [mkCompletionChunk "" (collect as_text (foldl accumulate (fw_pending s) (fragments l))) (usage_after (fw_usage s) l) (finish_of (fw_finish s) (choices l)) None true]
  end.
Proof using Type.
induction l as [|c l IH]; intros s; [done|]. cbn [forward_from]. unfold forward_chunk. cbv zeta. rewrite forward_choices_spec, IH. clear IH.
unfold fragments, choices, deltas, finish_of. cbn [map concat]. rewrite omap_app, map_app, concat_app, !foldl_app, app_assoc. cbn [usage_after foldl fw_pending fw_usage fw_finish].
by destruct (tu_TotalTokens (sk_Usage c) =? 0), s.
Qed.

(** The chunks of a stream that carries a content, calls, the usage if some chunk tells it,
    and the reason it finished. *)
Record carries (l : list streamChunk) (content : string) (calls : list (string * string * string)) (told : option TokenUsage) (finish : string) : Prop := {
  ca_content : joined sc_Content (choices l) = content;
  ca_calls n id name args : calls !! n = Some (id, name, args) → fragments_of (Z.of_nat n) id name args (of_index (Z.of_nat n) (fragments l));
  ca_index : Forall (λ f, 0 ≤ cf_Index f < Z.of_nat (length calls)) (fragments l);
  ca_usage : usage_after None l = told;
  ca_finish : finish_of "" (choices l) = finish
}.

(** No usage is told when no chunk has any tokens to tell of. *)
Lemma usage_after_told l : ∀ u, usage_after (Some u) l ≠ None.
Proof using Type. induction l as [|k l IH]; intros u; [done|]. cbn. destruct (_ =? 0); apply IH. Qed.
Lemma untold l : usage_after None l = None ↔ Forall (λ k, tu_TotalTokens (sk_Usage k) = 0) l.
Proof using Type.
induction l as [|k l IH]; [done|]. rewrite Forall_cons. cbn. destruct (Z.eqb_spec (tu_TotalTokens (sk_Usage k)) 0) as [He|He].
- fold (usage_after None l). tauto.
- split; [intros Hu; by apply usage_after_told in Hu|tauto].
Qed.

(** [C34] However the provider splits a completion into a stream (text and arguments in
    pieces, the fragments of parallel calls interleaved), the chunks forwarded to a caller
    who stays are the pieces of its text in order and one last chunk, which has exactly the
    calls and the finish reason the finished response would have given.  Its usage is the
    one the stream told last, so that of the response when the stream tells it, and none
    when no chunk of the stream tells any.  A stream that fails ends in its error
    instead. *)
Theorem stream_as_completion l content calls told usage finish c :
  carries l content calls told finish →
  completion_of (mkChatResponse [mkChatChoice (as_text content) (map (λ '(id, name, args), mkChatCall id "function" name (as_text args)) calls) finish] usage) = inr c →
  ∃ sent,
    forward as_text l None = sent ++ [mkCompletionChunk "" (cp_ToolCalls c) told (cp_FinishReason c) None true] ∧
    (told = Some usage → told = Some (cp_Usage c)) ∧
    (told = None ↔ Forall (λ k, tu_TotalTokens (sk_Usage k) = 0) l) ∧
    (∀ err, forward as_text l (Some err) = sent ++ [err_chunk (Errorf "openai stream: " err "")]) ∧
    as_text (joined ck_ContentDelta sent) = cp_Content c ∧
    Forall (λ k, ck_ContentDelta k ≠ "" ∧ k = delta_chunk (ck_ContentDelta k)) sent.
Proof using Type.
intros [Hc Hcalls Hidx Hu Hf] [= <-]. cbn [cp_ToolCalls cp_Usage cp_FinishReason cp_Content]. exists (deltas (choices l)). split; [|split; [done|split; [rewrite <- Hu; apply untold|split; [|split]]]].
- unfold forward. rewrite forward_from_spec. cbn [fw_pending fw_usage fw_finish]. rewrite Hu, Hf, (collected as_text calls) by done.
  do 3 f_equal. unfold convertToolCalls. clear. induction calls as [|[[id name] args] calls IH]; [done|]. cbn. by rewrite <- IH.
- intros err. unfold forward. by rewrite forward_from_spec.
- f_equal. rewrite <- Hc. clear. induction (choices l) as [|k ks IH]; [done|]. unfold deltas. cbn [omap list_omap].
  destruct (String.eqb_spec (sc_Content k) "") as [Hk|Hk]; unfold joined; cbn; [by rewrite Hk|]. f_equal. exact IH.
- apply Forall_forall. intros k (c & _ & Hk)%list_elem_of_omap. destruct (String.eqb_spec (sc_Content c) ""); [done|]. injection Hk as <-. done.
Qed.
End Equivalence.

(** ** The conversation *)

Lemma following_spec l : let '(calls, rest) := following_calls l in
  ∃ pre, l = pre ++ rest ∧ Forall (λ m, isToolCallMessage m = true) pre ∧ calls = map toolCallParam pre ∧
    match rest with m :: _ => isToolCallMessage m = false | [] => True end.
Proof.
induction l as [|m l IH]; [by exists []|]. cbn. destruct (isToolCallMessage m) eqn:Hm; [|by exists []].
destruct (following_calls l) as [calls rest]. destruct IH as (pre & -> & Hpre & -> & Hrest). exists (m :: pre). split; [done|].
split; [by constructor|]. by split.
Qed.

Lemma convert_fuel fuel : ∀ fuel' l, (length l ≤ fuel)%nat → (length l ≤ fuel')%nat → convert_loop fuel l = convert_loop fuel' l.
Proof.
induction fuel as [|fuel IH]; intros [|fuel'] [|m l] H1 H2; cbn in *; try done; try lia.
destruct (isToolCallMessage m); [|f_equal; apply IH; lia].
pose proof (following_spec l) as Hf. destruct (following_calls l) as [calls rest]. destruct Hf as (pre & -> & _). rewrite length_app in *. f_equal. apply IH; lia.
Qed.

(** The equations of the loop. *)
Lemma convert_plain m l : isToolCallMessage m = false → convertMessages (m :: l) = convert_message m ++ convertMessages l.
Proof. intros Hm. unfold convertMessages. cbn [length convert_loop]. by rewrite Hm. Qed.
Lemma convert_calls pre l : pre ≠ [] → Forall (λ m, isToolCallMessage m = true) pre →
  match l with m :: _ => isToolCallMessage m = false | [] => True end →
  convertMessages (pre ++ l) = AssistantCallsParam (map toolCallParam pre) :: convertMessages l.
Proof.
intros Hne Hpre Hl. destruct pre as [|m pre]; [done|]. apply Forall_cons in Hpre as [Hm Hpre]. unfold convertMessages.
cbn [app length convert_loop map]. rewrite Hm.
assert (following_calls (pre ++ l) = (map toolCallParam pre, l)) as ->.
{ clear Hm Hne. induction Hpre as [|x pre Hx Hpre IH]; cbn; [destruct l as [|y l]; [done|]; cbn; by rewrite Hl|]. by rewrite Hx, IH. }
f_equal. apply convert_fuel; rewrite ?length_app; lia.
Qed.

(** Taking the messages as the loop does: a plain one, or the calls up to the next. *)
Lemma conversation_ind (P : list AIMessage → Prop) : P [] →
  (∀ m l, isToolCallMessage m = false → P l → P (m :: l)) →
  (∀ pre l, pre ≠ [] → Forall (λ m, isToolCallMessage m = true) pre → match l with m :: _ => isToolCallMessage m = false | [] => True end → P l → P (pre ++ l)) →
  ∀ l, P l.
Proof.
intros Hn Hp Hc l. remember (length l) as n eqn:Hlen. revert l Hlen. induction n as [n IH] using lt_wf_ind. intros [|m l] ->; [exact Hn|].
pose proof (following_spec (m :: l)) as Hf. destruct (isToolCallMessage m) eqn:Hm.
- destruct (following_calls (m :: l)) as [calls rest]. destruct Hf as (pre & Heq & Hpre & _ & Hrest).
  destruct pre as [|m' pre]; [cbn in Heq; subst rest; by rewrite Hm in Hrest|]. rewrite Heq. apply Hc; [done..|].
  apply (IH (length rest)); [|done]. rewrite Heq, length_app. cbn. lia.
- apply Hp; [done|]. apply (IH (length l)); [cbn; lia|done].
Qed.

Definition is_calls (p : messageParam) : bool := match p with AssistantCallsParam _ => true | _ => false end.
(** The calls of a turn apart. *)
Definition calls_apart (p : messageParam) : list messageParam :=
  match p with AssistantCallsParam calls => map (λ c, AssistantCallsParam [c]) calls | _ => [p] end.
Definition message_alone (m : AIMessage) : list messageParam :=
  if isToolCallMessage m then [AssistantCallsParam [toolCallParam m]] else convert_message m.

Lemma convert_message_plain m : Forall (λ p, is_calls p = false) (convert_message m).
Proof. unfold convert_message. repeat case_match; repeat constructor. Qed.
Lemma plain_apart l : Forall (λ p, is_calls p = false) l → concat (map calls_apart l) = l.
Proof. induction 1 as [|p l Hp Hl IH]; [done|]. cbn. rewrite IH. by destruct p. Qed.

(** Nothing of the conversation is lost, repeated or moved: with the calls of a turn taken
    apart it is message by message what was given. *)
Lemma conversation_kept l : concat (map calls_apart (convertMessages l)) = concat (map message_alone l).
Proof.
induction l as [|m l Hm IH|pre l Hne Hpre Hl IH] using conversation_ind; [done| |].
- rewrite convert_plain, map_app, concat_app, IH, plain_apart by (done || apply convert_message_plain).
  cbn. unfold message_alone at 2. by rewrite Hm.
- rewrite convert_calls, map_app, concat_app by done. cbn [map concat]. rewrite IH. f_equal. clear Hne IH Hl.
  induction Hpre as [|m pre Hm Hpre IH]; [done|]. cbn in IH |- *. unfold message_alone at 1. rewrite Hm. cbn. by rewrite IH.
Qed.

(** What follows a conversation that does not end in a call starts afresh. *)
Lemma convert_app l : ∀ l', match last l with Some m => isToolCallMessage m = false | None => True end →
  convertMessages (l ++ l') = convertMessages l ++ convertMessages l'.
Proof.
induction l as [|m l Hm IH|pre l Hne Hpre Hl IH] using conversation_ind; intros l' Hlast; [done| |].
- cbn [app]. rewrite !convert_plain, <- app_assoc by done. f_equal. apply IH. rewrite last_cons in Hlast. by destruct (last l).
- destruct l as [|m l].
  { exfalso. rewrite app_nil_r in Hlast. destruct (last pre) as [x|] eqn:Hx; [|by apply last_None in Hx].
    apply last_Some_elem_of in Hx. rewrite Forall_forall in Hpre. by rewrite (Hpre x Hx) in Hlast. }
  assert (last (m :: l) = last (pre ++ m :: l)) as Hsame.
  { rewrite last_app. destruct (last (m :: l)) eqn:Hx; [done|]. by apply last_None in Hx. }
  rewrite <- app_assoc, (convert_calls pre ((m :: l) ++ l')), (convert_calls pre (m :: l)), IH by (done || by rewrite Hsame). done.
Qed.

(** A round of the assistant, every call and then every result, is one turn with all the
    calls, followed by their results. *)
Lemma round_is_one_turn l calls results : calls ≠ [] → match last l with Some m => isToolCallMessage m = false | None => True end →
  convertMessages (l ++ map AssistantToolCallMessage calls ++ map (λ '(id, t), ToolResultMessage id t) results) =
  convertMessages l ++ AssistantCallsParam (map (λ c, mkCallParam (call_ID c) (call_Name c) (call_ArgsRaw c)) calls)
    :: map (λ '(id, t), ToolParam t id) results.
Proof.
intros Hne Hl. rewrite convert_app by done. f_equal. rewrite convert_calls; [|by destruct calls|by apply Forall_map, Forall_true|by destruct results as [|[]]].
rewrite map_map. cbn. f_equal. clear. induction results as [|[id t] results IH]; [done|]. cbn [map]. rewrite convert_plain by done. cbn. by rewrite IH.
Qed.

(** ** Example: two calls whose fragments alternate *)

Module StreamSample.
Definition text_of (s : string) : text := Plain s.
Definition start (i : Z) (id name : string) : callFragment := mkCallFragment i id name "".
Definition piece (i : Z) (s : string) : callFragment := mkCallFragment i "" "" s.
Definition chunk (content : string) (fragments : list callFragment) : streamChunk := mkStreamChunk no_usage [mkStreamChoice "" fragments content].
Definition stream : list streamChunk :=
  [chunk "Let me " []; chunk "see." []; chunk "" [start 1 "c2" "list_budgets"; start 0 "c1" "list_expenses"];
   chunk "" [piece 0 "{limit"; piece 1 "{}"]; chunk "" [piece 0 ":5}"]; mkStreamChunk no_usage [mkStreamChoice "tool_calls" [] ""];
   mkStreamChunk (mkTokenUsage 10 5 15) []].
Definition calls : list (string * string * string) := [("c1", "list_expenses", "{limit:5}"); ("c2", "list_budgets", "{}")].

Example forwarded : let H := default_runtime in forward text_of stream None =
  [delta_chunk "Let me "; delta_chunk "see.";
   mkCompletionChunk "" [mkToolCall "c1" "list_expenses" (Plain "{limit:5}"); mkToolCall "c2" "list_budgets" (Plain "{}")]
     (Some (mkTokenUsage 10 5 15)) "tool_calls" None true].
Proof. vm_compute. reflexivity. Qed.

Lemma stream_carries : carries stream "Let me see." calls (Some (mkTokenUsage 10 5 15)) "tool_calls".
Proof.
split; [reflexivity| |repeat (apply Forall_cons; split; [cbn; lia|]); by apply Forall_nil|reflexivity|reflexivity].
intros [|[|n]] id name args [= <- <- <-]; (split; [| | |reflexivity]).
all: try (repeat (apply Forall_cons; split; [reflexivity|]); by apply Forall_nil).
all: split; [repeat (apply Forall_cons; split; [by (left + right)|]); by apply Forall_nil|by apply Exists_cons_hd].
Qed.
End StreamSample.

Example filename_ex : let H := default_runtime in
  (transcriptionFilename "recording.webm" "audio/mp4; codecs=mp4a", transcriptionFilename "" "Audio/OGG", transcriptionFilename ".hidden" "audio/wav",
   transcriptionFilename "note.m4a" "application/octet-stream") = ("recording.mp4", "audio.ogg", ".hidden.wav", "note.m4a").
Proof. vm_compute. reflexivity. Qed.

Lemma stream_as_completion_witness : let H := default_runtime in ∃ sent,
  forward StreamSample.text_of StreamSample.stream None =
    sent ++ [mkCompletionChunk "" [mkToolCall "c1" "list_expenses" (Plain "{limit:5}"); mkToolCall "c2" "list_budgets" (Plain "{}")]
      (Some (mkTokenUsage 10 5 15)) "tool_calls" None true] ∧
  Plain (joined ck_ContentDelta sent) = Plain "Let me see.".
Proof.
intros H.
destruct (stream_as_completion StreamSample.text_of StreamSample.stream "Let me see." StreamSample.calls (Some (mkTokenUsage 10 5 15)) (mkTokenUsage 10 5 15) "tool_calls"
  _ StreamSample.stream_carries eq_refl) as (sent & Hsent & _ & _ & _ & Hc & _).
exists sent. split; [exact Hsent|exact Hc].
Defined.
